(* ===== verification/_CoqProject ===== *)
-Q . S2P
Prelude.v
Time.v
Sched.v
TopBuf.v
JbScx.v
JbStevek.v
CStr.v
Utils.v
Frame.v
Codec.v
Smoother.v
JbSpeakup.v
GenericJb.v
Pattern.v
Timing.v
Translate.v
Hash.v
Exten.v
Dialplan.v
Registry.v
Find.v
Args.v
Expr.v
Vars.v
Subst.v
PbxRun.v
World.v
Builtins.v
Udptl.v
UdptlFec.v
Device.v
Hint.v
CallerId.v
Cdr.v
CdrEngine.v
Acl.v
Tones.v
Zones.v
Config.v
ConfigLine.v
ConfigText.v
ConfigLoad.v
ConfigSave.v
ChanQueue.v
ChanFormat.v
ChanWrite.v
Group.v
