(* ===== verification/Prelude.v ===== *)
(** * CallWeaver: a verification library for the core of the PBX

    CallWeaver is a software telephone exchange in C.  Channel drivers bring
    calls in as streams of frames; the core (corelib/) matches the dialled
    number with the dialplan, translates between codecs, smooths the arrival
    of frames with a jitter buffer, and runs timed events.  This library models
    the parts of the core that compute, as executable definitions on the data
    the C code has, and proves what makes each of them correct.

    ** How the parts interact

    A channel connects a driver with the thread of a call: frames that drivers
    queue on it are read by the thread (ChanQueue), frames of the thread are written
    to the driver (ChanWrite), both in formats (ChanFormat) that the channel's
    translators lead to.  Drivers and the bridge queue voice frames (Frame, Codec) in the generic
    jitter buffer layer (GenericJb), which drives one of several
    implementations through a table of functions: the fixed one (JbScx), the
    adaptive one (JbStevek) and SpeakUp's (JbSpeakup).  The layer's theorems are
    proved against the class [JbLaws]; the first two implementations are
    instances of it, and the third is shown not to be.  Frames
    between channels of different codecs run through chains of translators
    (Translate).  The scheduler (Sched) runs the timers of the drivers.  The
    dialplan (Exten, Dialplan) is what the configuration loads: contexts of
    extensions with numbered priorities, includes, switches and ignore
    patterns.  The lookup (Find) walks it for a number, comparing with
    extension patterns (Pattern), following includes guarded by time
    restrictions (Timing) and asking switches, and calls applications
    (Registry).  The thread of a call (PbxRun) executes the priorities of an
    extension that way, one after the other, and collects digits for the next:
    the data of a priority has its variables (Vars) and expressions (Expr)
    substituted (Subst) and is split into arguments (Args) for the application.
    PbxRun is proved against the class [PbxWorld] of what the loop uses; World
    builds its instance from the models of the parts.  The built-in
    applications (Builtins) jump, assign variables, set timeouts and edit the
    number dialled.  Some extensions are hints, which name devices; the thread of
    Device collects their changes of state and tells Hint, which tells the
    watchers.  Fax calls exchange T.38 messages in UDPTL packets (Udptl,
    UdptlFec), beside the frames of voice.  Every call leaves call detail records
    (Cdr) on its channel, which the channel hands, when it hangs up, to the engine
    (CdrEngine) that posts them to the backends, at once or in batches timed by
    Sched.  Drivers name callers (CallerId), play tones to them (Tones, from the
    zones of Zones) and let in whom their access rules (Acl) let in.  All of them
    read their settings from configurations (Config), which are loaded from and
    saved to text files (ConfigText, on lines that ConfigLine takes the comments
    out of).

    ** Files, and the source each of them models

    - Prelude: machine integers, record update, tactics, shared lemmas.
    - Time: struct timeval arithmetic (include/callweaver/time.h, and [tvfix]
      of corelib/utils.c).
    - Sched: corelib/sched.c.  A context is its queue, cache of free entries,
      counters and signals; [cw_sched_add_variable], [cw_sched_del],
      [cw_sched_wait], [cw_sched_runq] and the turns of the service thread.
    - TopBuf: the insertion into the sorted delay buffers of the adaptive
      jitter buffer ([history_calc_maxbuf]).
    - JbScx: corelib/jitterbuffer/jitterbuf_scx.c.
    - JbStevek: corelib/jitterbuffer/jitterbuf_stevek.c.
    - CStr: the string functions of the C library that the sources use.
    - Utils: truth values, base64 and URI encoding of corelib/utils.c.
    - Frame, Codec, Smoother: corelib/frame.c and include/callweaver/frame.h:
      frame headers and samples; the format table, codec preferences and
      sample counts; the smoother.  [cw_best_codec] is of corelib/channel.c.
    - JbSpeakup: corelib/jitterbuffer/jitterbuf_speakup.c.
    - GenericJb: corelib/jitterbuffer/generic_jb.c.
    - Pattern: [cw_extension_pattern_match] and its clients, corelib/pbx.c.
    - Timing: [cw_build_timing] and [cw_check_timing], corelib/pbx.c.
    - Translate: corelib/translate.c.
    - Hash: corelib/callweaver_hash.c and corelib/chanvars.c.
    - Exten: the extensions of a context in a store of nodes with [next] and
      [peer] links: [cw_add_extension2], [cw_context_remove_extension2] and
      the walks, corelib/pbx.c.
    - Dialplan: the list of contexts and their includes, switches and ignore
      patterns; creating, merging and destroying, corelib/pbx.c.
    - Registry: applications, dialplan functions and switches, corelib/pbx.c.
    - Find: [pbx_find_extension], [pbx_extension_helper] and the entry points
      on top of them, corelib/pbx.c.
    - Args: [cw_separate_app_args], corelib/app.c.
    - Expr: the expressions [$[...]]: corelib/callweaver_expr2.y (values,
      operators and grammar) and corelib/callweaver_expr2.l (scanner and
      [cw_expr]).
    - Vars: the variables of channels and globals: [pbx_retrieve_variable],
      [pbx_builtin_setvar_helper] and its relatives, [cw_func_read] and
      [cw_func_write], corelib/pbx.c.
    - Subst: [pbx_substitute_variables_helper_full], corelib/pbx.c.
    - PbxRun: [__cw_pbx_run], the jumps and the count of calls, corelib/pbx.c.
    - World: the world of PbxRun made of Find, Vars and Subst: [pbx_exec] and
      the execution of a place, corelib/pbx.c; examples of runs.
    - Builtins: GotoIf, GotoIfTime, ExecIfTime, Set and its relatives, Hangup, the
      timeouts, WaitExten, StripMSD, Prefix and Suffix, corelib/pbx.c.
    - Udptl: the packets of corelib/udptl.c, sent and received, and the recovery
      of lost ones from repeated messages.
    - UdptlFec: their recovery from sums, and the settings, corelib/udptl.c.
    - Device: corelib/devicestate.c and the walk over the channels of
      corelib/channel.c.
    - Hint: hints and their watchers, corelib/pbx.c.
    - CallerId: corelib/phone_no_utils.c: presentations, the shrinking of numbers,
      caller ids put together and taken apart.
    - Cdr: the records of corelib/cdr.c: times, fields, variables and chains.
    - CdrEngine: the engine of corelib/cdr.c: backends, batch, scheduler, threads,
      reload; [ResetCDR] and its relatives of corelib/pbx.c, apps/app_forkcdr.c,
      apps/app_cdr.c and funcs/func_cdr.c.
    - Acl: the access rules of corelib/acl.c, the type of service and the choice of
      a lookup.
    - Tones: the tone lists of corelib/indications.c and their generator.
    - Zones: the tone zones of corelib/indications.c.
    - Config: categories and variables of corelib/config.c, browsed and retrieved.
    - ConfigLine: the comments of a line, in [config_text_file_load].
    - ConfigText: [process_text_line], the loading and saving of files and the
      realtime engines, corelib/config.c, with the blanks of
      include/callweaver/strings.h.
    - ConfigLoad, ConfigSave: theorems about ConfigText.
    - ChanQueue: the frames queued on a channel and [cw_read], hanging up softly,
      digits that are deferred, corelib/channel.c.
    - ChanFormat: [set_format] and [cw_channel_make_compatible], corelib/channel.c.
    - ChanWrite: [cw_write] and the functions of a driver it uses, digits,
      indications and the recordings of a monitor, corelib/channel.c.
    - Group: call groups read and printed, corelib/channel.c.

    State is passed explicitly.  A C structure is a record with the source's
    field names (with a prefix where two records would clash), a linked list
    is a list, a table of formats a finite map.  The clock, the outcome of an
    allocation, callbacks and frames sent are arguments or results.  An access
    outside an object, a failed assertion and a signed overflow that the code
    does not guard against are outcomes of their own.

    ** What the theorems show

    - Sched: over every sequence of operations, callbacks included, the queue
      stays ordered and the counters true; a run executes the due events once
      each, in order; sleeping as long as [cw_sched_wait] says is enough and
      not too long; ids are unique until the counter overflows, and are not
      after.
    - JbScx, JbStevek: the invariants over all operations; put and get as
      functions of the queue (nothing lost, nothing invented, order kept); the
      mutual recursion of put and resynchronisation ends; the cached delay
      extremes are those of the history window; bounds of the target delay.
    - JbSpeakup: the arrays kept by binary search are the sorted history; every
      request for a frame ends, with any settings; frames are played in turn unless
      the buffer starts afresh; bounds of the target.
    - GenericJb: playing out ends and conserves frames, put takes exactly the
      acceptable frames, destroying frees all, the time to sleep is bounded,
      for every implementation that obeys the laws.
    - Translate: the matrix holds the cheapest ways after any sequence of
      registrations; building a path ends and yields a cheapest way; the choice
      of formats is the cheapest; contiguous frames stay contiguous unless comfort
      noise comes out.
    - Pattern: the matcher ends, its answers are stable under further digits,
      and for patterns of character classes, whose meaning is stated apart from the
      code, it agrees with matching position by position.
    - Timing: restrictions have a grammar and a meaning on the calendar of their own
      ([Timing.Calendar]); the masks built from a text allow what it means.
    - Exten, Dialplan: every operation, but for the cases [Dialplan.op_ok] excludes,
      keeps the store well formed, ordered and free of duplicates; adding and removing implement a map from extensions
      and priorities; a merge replaces exactly what the registrar owned.
    - Find: the search ends for any graph of includes, and, where hashes and
      comparison tell the names apart alike, finds exactly what a relational search
      through the includes finds.
    - Args, Expr, Subst, Vars: splitting gives quoted arguments back; an
      expression written with the precedence of the grammar is parsed back and
      evaluated from the inside out; substitution ends, keeps to its buffer and
      gives every nested text what it stands for; lists of variables implement
      a stack of values for each name without leading underscores, what was set is retrieved, slices are parts of the value; the
      overflow checks find exactly the wrong results.
    - PbxRun: whatever applications do, a run that returns has cleaned up and
      hung up once; the priorities of an extension without gaps are executed in order;
      a jump has the place it names executed next, if it exists; the count of calls
      stays within its limit.
    - Builtins: which way GotoIf and GotoIfTime go; what Set leaves assigned; what
      is left of the number that is edited; a wait that times out.
    - Udptl, UdptlFec: sender and receiver together, over a channel that loses
      packets: repeated messages and sums recover every burst of losses they are
      meant for, and all messages come exactly once and in order, up to the 65536th.
    - Device, Hint: every change of a device is handled once, in order; an
      extension's state is the summary of its devices'; each watcher of a
      changed hint is told once; a reload keeps the watchers or tells them, under the
      name they watch, that their hint is gone.
    - Cdr, CdrEngine: billed time runs from the answer to the end and the disposition
      is decided by what happened to the call; every record that is
      handed over is posted exactly once or still waits; a batch is posted in time;
      texts stay in their fields; what was set is read back.
    - CallerId, Acl: caller ids that can be told apart come back as they were put
      together, the loop on
      one buffer shrinks as on two; the last rule that matches decides, and a
      prefix matches the addresses with its first bits.
    - Tones, Zones: a tone list is read back as it was written, is never left while
      it plays, and one without repetition ends after its time; the search for a
      zone follows aliases but no circle; the default zone is a registered one.
    - Config, ConfigLine, ConfigText: a saved configuration, of texts the format can
      write, is loaded as it was; comments that are nested properly are taken out as one
      reading would leave them out; includes in
      circles end; headers inherit what they name; browsing visits all categories.
    - ChanQueue, ChanWrite: the alert pipe has a mark for every queued frame; frames
      are read once, in order, and deferred digits are not lost; once a read or a
      write has failed for good, all later ones fail; the two recordings of a call
      stay in step.
    - ChanFormat: two channels can be made compatible exactly if translators lead
      both ways (from the peer by signed linear where that is forced), and then each is
      written what the other reads, at the least cost where it is not forced.
    - Group: a set of groups is read back as it was printed, unless it is empty.
    - Registry, Hash: lookup after registration, in order of the names.
    - Utils, Codec, Smoother, Frame: round trips of base64, URIs, format names
      and lengths; a codec preference list implements a duplicate-free list; a
      smoother implements a queue of bytes; bit extraction and sample counts;
      volume and byte order of samples.

    Where the code does not do what it means to, the theorem or lemma says
    what it does: [Sched.sched_id_reuse_after_overflow],
    [JbScx.scx_head_overlap], [JbStevek.jb_default_max_clamps],
    [Time.tvfix_wrong_seconds], [Frame.swapcopy_bytes],
    [Frame.adjust_volume_gain], [Codec.pref_append_unknown],
    [Codec.disallow_without_pref], [Codec.pref_string_overflow],
    [Codec.speex_overread], [Smoother.smoother_g729_read],
    [Utils.uri_percent_lost], [Timing.month_range_first_only],
    [Timing.timerange_bad], [Exten.remove_first_loses],
    [Dialplan.create_unlocks_twice], [Find.findlabel2_ignores_includes],
    [Find.find_skips_case_variant], [Device.prefix_walk_ignores_name],
    [Hint.state_del_keeps_lock], [Hint.removed_extension_hint_dangles],
    [Expr.expr_crashes], [Expr.compl_applies_last], [Expr.expr_off_by_one], [Vars.slice_from_end_wrong],
    [Vars.inherited_variable_duplicated], [Subst.substitution_faults],
    [PbxRun.digits_overrun], [PbxRun.async_goto_while_dialling],
    [PbxRun.call_count_bounded], [Builtins.execiftime_never_with_parentheses],
    [Builtins.exten_editing_faults], [Udptl.crowded_packet_overruns],
    [Udptl.stale_frame], [Udptl.number_wrap_loses], [Udptl.late_packet_repeats], [Udptl.five_sums_overrun],
    [UdptlFec.widest_sums_protect_nothing], [JbSpeakup.first_frame_lost],
    [JbSpeakup.full_history_overread], [GenericJb.speakup_breaks_laws],
    [GenericJb.speakup_default_max_clamps], [CdrEngine.reset_forgets_start],
    [CdrEngine.leaving_batch_strands], [CdrEngine.fork_takes_variables],
    [CdrEngine.second_fork_ignores_v], [Cdr.unanswered_has_answer],
    [Cdr.late_answer_bills_negative],
    [Acl.bad_length_leaves_mask], [Acl.duplicate_not_terminated],
    [CallerId.accents_trimmed], [CallerId.unknown_is_a_number],
    [Tones.empty_list_crashes], [Tones.depth_ignored],
    [Zones.replaced_tone_without_name], [Config.nested_browse_restarts],
    [Config.append_after_detach], [ConfigLine.stray_end_swallows],
    [ConfigLine.too_deep_hangs], [ConfigLoad.addition_to_nothing_crashes],
    [ConfigLoad.missing_includes_use_levels_up],
    [ConfigLoad.broken_include_is_ignored], [ConfigLoad.self_inheritance_hangs],
    [ConfigLoad.include_goes_elsewhere], [ConfigSave.semicolon_is_lost],
    [ChanQueue.linked_frame_without_mark], [ChanQueue.queue_limits],
    [ChanFormat.slin_one_way], [ChanFormat.lost_path_is_success],
    [ChanWrite.control_frame_hangs_up], [ChanWrite.failed_masquerade_is_not_final], [Group.empty_piece_is_a_group],
    [Group.endless_range], [Group.short_buffer_overrun].

    ** Fuel and bounds

    Recursion that is not structural is cut by fuel, and running out of it is
    an outcome that a theorem excludes: two nested calls for the put of the
    fixed buffer; for a request to the SpeakUp buffer a product of the frames
    that wait and the largest difference it tolerates; for play-out there is an amount from which on every fuel
    gives the same result; one round more than the length of the pattern for
    the matcher; one turn of the dial for a
    range of times; one round per format (32) for the closure of the
    translation matrix and for a path; the size of the store for a walk along
    its links; the greatest depth of includes for the search; the length of the
    text for the scanner of expressions and for each level of the substitution;
    the bytes of a datagram for the fragments of a message in it; the length of a
    number for its shrinking; the 20 rounds the source allows for aliases; the
    length of a line for its comments; the bytes of a file for its lines; one call
    more than the levels of includes for the loading of files.
    The measurement of a translator ([calc_cost]) and the loop of a call
    ([__cw_pbx_run]) run foreign code and need not end, so their fuel is a
    parameter; that the loop gets on is shown from what the code it calls does
    ([PbxRun.priorities_in_order]).  [int], [short] and [char] wrap
    at their width where they can get there; counters of things in memory, of
    packets sent and of threads, and the priority of a channel, are [int] in the
    source and kept as integers (the files say which); [long] and [time_t] are 64 bits
    wide and kept as integers.  Locks are not modelled: an operation is atomic where the source
    holds its lock, and callbacks run between operations.  Callbacks of channel
    drivers act on the state of the driver alone.

    ** What is not modelled

    Channel drivers, applications, dialplan functions, resource modules,
    codecs and file formats (protocol stacks, I/O and wrappers of libraries);
    the console, manager, logger and loader; of the scanner of expressions the
    states for [${], which the substitution has replaced before; regular
    expressions, which are the C library's and a parameter; the AES code, sqlite, libltdl and stdtime, which are third-party;
    of corelib/channel.c the allocation of channels, the polling of descriptors,
    bridging and masquerading (a parameter of reading and writing), and what waits
    for digits; of the built-in applications those that play, say or wait; the sockets and the bridge of UDPTL; the frame logs and CLI
    commands of the modelled files; the backends of call records; the caller id
    modem (corelib/callerid.c) and the samples of tones, which are signal
    processing; name servers and the addresses of interfaces.  spandsp's [saturate], [top_bit] and
    [bottom_bit] are parameters. *)

From stdpp Require Export base numbers list strings sorting relations.

#[export] Set Default Goal Selector "!".

(** ** Machine integers

    C's [int] and [unsigned int] are 32 bits wide, [short] 16, [char] 8.  A
    value is a [Z]; the wrap-around is written where the code converts or can
    overflow. *)

Declare Scope cw_scope.
Delimit Scope cw_scope with cw.
Open Scope Z_scope.

Definition wrap_u (w z : Z) : Z := z mod 2 ^ w.

Definition wrap_s (w z : Z) : Z :=
  let m := z mod 2 ^ w in
  if m <? 2 ^ (w - 1) then m else m - 2 ^ w.

Abbreviation u8 := (wrap_u 8).
Abbreviation u16 := (wrap_u 16).
Abbreviation u32 := (wrap_u 32).
Abbreviation s16 := (wrap_s 16).
Abbreviation s32 := (wrap_s 32).

Definition INT_MAX : Z := 2147483647.
Definition INT_MIN : Z := -2147483648.

(** ** Functional record update

    [r <| f := v |>] is [r] with its field [f] replaced.  A record that is
    updated declares its eta expansion once, as an instance of [Eta]. *)

Class Eta (R : Type) := eta : R -> R.
Class Setter {R T : Type} (proj : R -> T) := upd : (T -> T) -> R -> R.
Arguments upd {R T} proj {Setter} _ _ /.

Ltac derive_setter :=
  lazymatch goal with
  | |- @Setter ?R ?T ?p =>
    let inst := constr:(_ : Eta R) in
    let f := fresh "f" in
    let r := fresh "r" in
    intros f r;
    let i := eval hnf in inst in
    let e := eval cbv beta in (i r) in
    let e' := eval pattern (p r) in e in
    lazymatch e' with
    | ?g _ => let b := eval cbv beta in (g (f (p r))) in exact b
    end
  end.

#[export] Hint Extern 1 (Setter _) => derive_setter : typeclass_instances.

Notation "r <| p := v |>" := (upd p (fun _ => v) r)
  (at level 1, left associativity, p at level 9, v at level 200) : cw_scope.
Open Scope cw_scope.

(** ** Proof automation *)

Create HintDb cw discriminated.

(** Turn the boolean comparisons of the model into propositions. *)
Ltac b2p :=
  repeat match goal with
  | H : (_ && _) = true |- _ => apply andb_true_iff in H as [? ?]
  | H : (_ || _) = false |- _ => apply orb_false_iff in H as [? ?]
  | H : negb _ = true |- _ => apply negb_true_iff in H
  | H : negb _ = false |- _ => apply negb_false_iff in H
  | H : (_ <? _) = true |- _ => apply Z.ltb_lt in H
  | H : (_ <? _) = false |- _ => apply Z.ltb_ge in H
  | H : (_ <=? _) = true |- _ => apply Z.leb_le in H
  | H : (_ <=? _) = false |- _ => apply Z.leb_gt in H
  | H : (_ =? _) = true |- _ => apply Z.eqb_eq in H
  | H : (_ =? _) = false |- _ => apply Z.eqb_neq in H
  | H : (_ >? _) = true |- _ => rewrite Z.gtb_ltb in H
  | H : (_ >? _) = false |- _ => rewrite Z.gtb_ltb in H
  | H : (_ >=? _) = true |- _ => rewrite Z.geb_leb in H
  | H : (_ >=? _) = false |- _ => rewrite Z.geb_leb in H
  end.

(** Case on the condition of every [if] in the goal, then turn it to [Prop]. *)
Ltac case_if :=
  match goal with
  | |- context [if ?c then _ else _] =>
    let E := fresh "E" in destruct c eqn:E
  end.

Ltac case_if_in H :=
  match type of H with
  | context [if ?c then _ else _] =>
    let E := fresh "E" in destruct c eqn:E
  end.

Ltac cases_if := repeat (case_if; simpl); b2p.

(** ** Integer lemmas *)

Lemma wrap_u_small w z : 0 <= z < 2 ^ w -> wrap_u w z = z.
Proof. apply Z.mod_small. Qed.

Lemma wrap_u_bound w z : 0 <= w -> 0 <= wrap_u w z < 2 ^ w.
Proof. intros Hw. apply Z.mod_pos_bound. by apply Z.pow_pos_nonneg. Qed.

Lemma pow2_half w : 0 < w -> 2 ^ w = 2 * 2 ^ (w - 1).
Proof. intros Hw. rewrite <- Z.pow_succ_r by lia. f_equal. lia. Qed.

Lemma wrap_s_small w z :
  0 < w -> - 2 ^ (w - 1) <= z < 2 ^ (w - 1) -> wrap_s w z = z.
Proof.
  intros Hw Hz. pose proof (pow2_half w Hw) as Hp. unfold wrap_s.
  destruct (Z.lt_ge_cases z 0).
  - replace (z mod 2 ^ w) with (z + 2 ^ w).
    + destruct (Z.ltb_spec (z + 2 ^ w) (2 ^ (w - 1))); lia.
    + rewrite <- (Z.mod_small (z + 2 ^ w) (2 ^ w)) by lia.
      rewrite <- (Z_mod_plus_full z 1 (2 ^ w)). f_equal. lia.
  - rewrite Z.mod_small by lia. destruct (Z.ltb_spec z (2 ^ (w - 1))); lia.
Qed.

Lemma wrap_s_bound w z :
  0 < w -> - 2 ^ (w - 1) <= wrap_s w z < 2 ^ (w - 1).
Proof.
  intros Hw. pose proof (pow2_half w Hw) as Hp. unfold wrap_s.
  assert (0 <= z mod 2 ^ w < 2 ^ w)
    by (apply Z.mod_pos_bound, Z.pow_pos_nonneg; lia).
  case_if; b2p; lia.
Qed.

(** The common case: a value already in range of [int] is not changed. *)
Lemma s32_id z : INT_MIN <= z <= INT_MAX -> s32 z = z.
Proof. unfold INT_MIN, INT_MAX. intros. apply wrap_s_small; lia. Qed.

Lemma u32_id z : 0 <= z < 4294967296 -> u32 z = z.
Proof. intros. apply wrap_u_small. lia. Qed.

#[export] Hint Resolve s32_id u32_id : cw.

(** The test [v & (1 << k)]. *)
Lemma lor_disjoint k x y : 0 <= k -> 0 <= y < 2 ^ k -> Z.lor (x * 2 ^ k) y = x * 2 ^ k + y.
Proof.
  intros Hk Hy. rewrite <- Z.shiftl_mul_pow2 by lia.
  assert (Hd : Z.land (Z.shiftl x k) y = 0).
  { apply Z.bits_inj_iff'. intros n Hn. rewrite Z.land_spec, Z.bits_0.
    destruct (Z.lt_ge_cases n k).
    - by rewrite Z.shiftl_spec_low.
    - rewrite <- (Z.mod_small y (2 ^ k)) by done. rewrite Z.mod_pow2_bits_high by lia.
      by rewrite andb_false_r. }
  by rewrite Z.add_nocarry_lxor, Z.lxor_lor.
Qed.

Lemma land_pow2_testbit v k : 0 <= k -> negb (Z.land v (2 ^ k) =? 0) = Z.testbit v k.
Proof.
  intros Hk. destruct (Z.testbit v k) eqn:E.
  - apply negb_true_iff, Z.eqb_neq. intros H.
    assert (Z.testbit (Z.land v (2 ^ k)) k = true) as H'.
    { rewrite Z.land_spec, E, Z.pow2_bits_true by lia. done. }
    rewrite H, Z.bits_0 in H'. done.
  - apply negb_false_iff, Z.eqb_eq, Z.bits_inj'. intros j Hj.
    rewrite Z.land_spec, Z.bits_0, Z.pow2_bits_eqb by lia.
    destruct (Z.eqb_spec k j) as [->|]; [by rewrite E|by rewrite andb_false_r].
Qed.

(** ** List lemmas *)

Section lists.
Context {A : Type}.

Lemma Forall_filter_id (P : A -> Prop) `{!forall x, Decision (P x)} l :
  Forall P l -> filter P l = l.
Proof.
  induction 1 as [|x l Hx _ IH]; [done|].
  rewrite filter_cons_True by done. by rewrite IH.
Qed.

Lemma Forall_filter_nil (P : A -> Prop) `{!forall x, Decision (P x)} l :
  Forall (fun x => ~ P x) l -> filter P l = [].
Proof.
  induction 1 as [|x l Hx _ IH]; [done|].
  by rewrite filter_cons_False.
Qed.

Lemma StronglySorted_app_iff (R : relation A) l k :
  StronglySorted R (l ++ k) <->
  StronglySorted R l /\ StronglySorted R k /\ (forall x y, x ∈ l -> y ∈ k -> R x y).
Proof.
  induction l as [|a l IH]; simpl.
  - split; [|by intros (_ & ? & _)]. intros H.
    split_and!; [constructor|done|]. intros x y Hx. by apply elem_of_nil in Hx.
  - split.
    + intros H. inversion_clear H as [|? ? Hs Hf].
      apply IH in Hs as (Hl & Hk & Hlk). apply Forall_app in Hf as [Hfl Hfk].
      split_and!; [by constructor|done|]. intros x y Hx Hy.
      apply elem_of_cons in Hx as [->|Hx]; [|by apply Hlk].
      by eapply Forall_forall in Hfk.
    + intros (Hl & Hk & Hlk). inversion_clear Hl as [|? ? Hs Hf].
      constructor.
      * apply IH. split_and!; [done|done|]. intros x y Hx Hy.
        apply Hlk; [by apply elem_of_cons; right|done].
      * apply Forall_app. split; [done|]. apply Forall_forall.
        intros y Hy. apply Hlk; [by apply elem_of_cons; left|done].
Qed.

End lists.
