(* ===== verification/Time.v ===== *)
(** * Time values

    The [struct timeval] arithmetic of include/callweaver/time.h and
    corelib/utils.c: normalisation, sum, difference, comparison, and the
    conversion of sample counts to durations.  [time_t] and [long] are 64-bit
    and kept as [Z]; the narrowing to [int] and [unsigned int] is explicit.
    The number of microseconds [us] is the abstract value the theorems speak
    of. *)

From S2P Require Import Prelude.

Record timeval := cw_tv { tv_sec : Z; tv_usec : Z }.

#[export] Instance eta_timeval : Eta timeval := fun t => cw_tv (tv_sec t) (tv_usec t).

#[export] Instance timeval_eq_dec : EqDecision timeval.
Proof. solve_decision. Defined.

Definition ONE_MILLION : Z := 1000000.

(** utils.c: put a timeval in a valid range. *)
Definition tvfix (a : timeval) : timeval :=
  if ONE_MILLION <=? tv_usec a then
    cw_tv (tv_sec a + Z.rem (tv_usec a) ONE_MILLION) (Z.rem (tv_usec a) ONE_MILLION)
  else if tv_usec a <? 0 then cw_tv (tv_sec a) 0
  else a.

Definition cw_tvadd (a b : timeval) : timeval :=
  let a := tvfix a in
  let b := tvfix b in
  let sec := tv_sec a + tv_sec b in
  let usec := tv_usec a + tv_usec b in
  if ONE_MILLION <=? usec then cw_tv (sec + 1) (usec - ONE_MILLION)
  else cw_tv sec usec.

Definition cw_tvsub (a b : timeval) : timeval :=
  let a := tvfix a in
  let b := tvfix b in
  let sec := tv_sec a - tv_sec b in
  let usec := tv_usec a - tv_usec b in
  if usec <? 0 then cw_tv (sec - 1) (usec + ONE_MILLION)
  else cw_tv sec usec.

(** The [long] result is narrowed to the [int] the function returns. *)
Definition cw_tvdiff_ms (end_ start : timeval) : Z :=
  s32 ((tv_sec end_ - tv_sec start) * 1000
       + (Z.quot (1000000 + tv_usec end_ - tv_usec start) 1000 - 1000)).

Definition cw_tvzero (t : timeval) : bool := (tv_sec t =? 0) && (tv_usec t =? 0).

Definition cw_tvcmp (a b : timeval) : Z :=
  if tv_sec a <? tv_sec b then -1
  else if tv_sec b <? tv_sec a then 1
  else if tv_usec a <? tv_usec b then -1
  else if tv_usec b <? tv_usec a then 1
  else 0.

Definition cw_tveq (a b : timeval) : bool :=
  (tv_sec a =? tv_sec b) && (tv_usec a =? tv_usec b).

(** Both arguments are [unsigned int]: a negative [int] passed by a caller
    arrives wrapped. *)
Definition cw_samp2tv (nsamp rate : Z) : timeval :=
  let nsamp := u32 nsamp in
  let rate := u32 rate in
  cw_tv (Z.quot nsamp rate) (u32 (Z.rem nsamp rate * Z.quot 1000000 rate)).

(** ** Abstract value *)

Definition us (t : timeval) : Z := tv_sec t * ONE_MILLION + tv_usec t.

(** The range [tvfix] promises. *)
Definition tv_normal (t : timeval) : Prop := 0 <= tv_usec t < ONE_MILLION.

(** A millisecond count read as an [unsigned int]. *)
Definition ms_us (ms : Z) : Z := u32 ms * 1000.

Lemma tvfix_normal_id t : tv_normal t -> tvfix t = t.
Proof.
  unfold tv_normal, tvfix. intros H. destruct t; simpl in *.
  cases_if; (reflexivity || lia).
Qed.

Lemma tvfix_normal t : tv_normal (tvfix t).
Proof.
  unfold tv_normal, tvfix, ONE_MILLION. cases_if; simpl; try lia.
  pose proof (Z.rem_bound_pos (tv_usec t) 1000000). lia.
Qed.

#[export] Hint Resolve tvfix_normal : cw.

Lemma cw_tvadd_normal a b : tv_normal (cw_tvadd a b).
Proof.
  pose proof (tvfix_normal a). pose proof (tvfix_normal b).
  unfold cw_tvadd, tv_normal, ONE_MILLION in *. cases_if; simpl; lia.
Qed.

Lemma cw_tvsub_normal a b : tv_normal (cw_tvsub a b).
Proof.
  pose proof (tvfix_normal a). pose proof (tvfix_normal b).
  unfold cw_tvsub, tv_normal, ONE_MILLION in *. cases_if; simpl; lia.
Qed.

#[export] Hint Resolve cw_tvadd_normal cw_tvsub_normal : cw.

Lemma us_tvadd a b : tv_normal a -> tv_normal b -> us (cw_tvadd a b) = us a + us b.
Proof.
  intros Ha Hb. unfold cw_tvadd. rewrite !tvfix_normal_id by done.
  unfold us, ONE_MILLION. cases_if; simpl; lia.
Qed.

Lemma us_tvsub a b : tv_normal a -> tv_normal b -> us (cw_tvsub a b) = us a - us b.
Proof.
  intros Ha Hb. unfold cw_tvsub. rewrite !tvfix_normal_id by done.
  unfold us, ONE_MILLION. cases_if; simpl; lia.
Qed.

(** A normal time value is determined by its microsecond count. *)
Lemma us_inj a b : tv_normal a -> tv_normal b -> us a = us b -> a = b.
Proof.
  destruct a as [s u], b as [s' u']. unfold tv_normal, us, ONE_MILLION; simpl.
  intros. assert (s = s') by lia. assert (u = u') by lia. congruence.
Qed.

(** The conversion used by the scheduler: milliseconds at rate 1000. *)
Lemma samp2tv_1000_normal n : tv_normal (cw_samp2tv n 1000).
Proof.
  unfold cw_samp2tv, tv_normal, ONE_MILLION; simpl. rewrite (u32_id 1000) by lia.
  pose proof (wrap_u_bound 32 n ltac:(lia)) as Hn.
  pose proof (Z.rem_bound_pos (u32 n) 1000).
  change (1000000 ÷ 1000) with 1000. rewrite (u32_id (Z.rem (u32 n) 1000 * 1000)) by lia. lia.
Qed.

Lemma us_samp2tv_1000 n : us (cw_samp2tv n 1000) = ms_us n.
Proof.
  unfold cw_samp2tv, us, ms_us, ONE_MILLION; simpl. rewrite (u32_id 1000) by lia.
  pose proof (wrap_u_bound 32 n ltac:(lia)) as Hn.
  pose proof (Z.rem_bound_pos (u32 n) 1000).
  change (1000000 ÷ 1000) with 1000. rewrite (u32_id (Z.rem (u32 n) 1000 * 1000)) by lia.
  pose proof (Z.quot_rem' (u32 n) 1000). lia.
Qed.

#[export] Hint Resolve samp2tv_1000_normal : cw.

Lemma ms_us_small ms : 0 <= ms <= INT_MAX -> ms_us ms = ms * 1000.
Proof. intros. unfold ms_us. rewrite u32_id; unfold INT_MAX in *; lia. Qed.

(** Milliseconds between two normal time values, rounded down. *)
Lemma tvdiff_ms_floor a b :
  tv_normal a -> tv_normal b ->
  cw_tvdiff_ms a b = s32 ((us a - us b) / 1000).
Proof.
  unfold tv_normal, cw_tvdiff_ms, us, ONE_MILLION. intros Ha Hb. f_equal.
  rewrite Z.quot_div_nonneg by lia.
  replace (tv_sec a * 1000000 + tv_usec a - (tv_sec b * 1000000 + tv_usec b))
    with ((1000000 + tv_usec a - tv_usec b) + ((tv_sec a - tv_sec b) * 1000 - 1000) * 1000)
    by lia.
  rewrite Z.div_add by lia. lia.
Qed.

Lemma cw_tvcmp_us a b :
  tv_normal a -> tv_normal b ->
  cw_tvcmp a b = match us a ?= us b with Lt => -1 | Eq => 0 | Gt => 1 end.
Proof.
  unfold tv_normal, cw_tvcmp, us, ONE_MILLION. intros Ha Hb.
  cases_if; destruct (Z.compare_spec (tv_sec a * 1000000 + tv_usec a)
    (tv_sec b * 1000000 + tv_usec b)); lia.
Qed.

(** ** Properties *)

(** On time values in normal form the sum, difference, comparison and
    millisecond difference compute with the number of microseconds they stand
    for, and the results are in normal form again. *)
Theorem timeval_arithmetic a b :
  tv_normal a -> tv_normal b ->
  (tv_normal (cw_tvadd a b) /\ us (cw_tvadd a b) = us a + us b)
  /\ (tv_normal (cw_tvsub a b) /\ us (cw_tvsub a b) = us a - us b)
  /\ cw_tvcmp a b = match us a ?= us b with Lt => -1 | Eq => 0 | Gt => 1 end
  /\ cw_tvdiff_ms a b = s32 ((us a - us b) / 1000)
  /\ (cw_tveq a b = true <-> us a = us b).
Proof.
  intros Ha Hb. split; [auto using us_tvadd with cw|]. split; [auto using us_tvsub with cw|].
  split; [by apply cw_tvcmp_us|]. split; [by apply tvdiff_ms_floor|].
  unfold cw_tveq. split.
  - intros E. b2p. unfold us. congruence.
  - intros E%us_inj; [|done|done]. subst. by rewrite !Z.eqb_refl.
Qed.

(** [tvfix] adds the remainder, not the quotient, to the seconds: one and a
    half seconds become almost six days. *)
Lemma tvfix_wrong_seconds : tvfix (cw_tv 0 1500000) = cw_tv 500000 500000.
Proof. reflexivity. Qed.
