(* ===== verification/Sched.v ===== *)
(** * The event scheduler (corelib/sched.c)

    A context keeps a queue of events ordered by due time, a cache of free
    event structures, and the next event id.  [cw_tvnow()] is an argument of
    the operations that read the clock; [malloc] may fail, so the operations
    that allocate take its outcome.  A callback is run by the parameter
    [exec]: it receives the context, because the lock is released around it
    and callbacks do add and delete events.  The pthread condition variable is
    represented by the count of signals sent on it.  [schedcnt] and the count
    of [cw_sched_runq] are [int] in the source and numbers here: they count events in
    memory, of which there are never 2^31; [eventcnt], which only grows, wraps around. *)

From S2P Require Import Prelude Time.

Definition SCHED_MAX_CACHE : Z := 128.

Section sched.
Context {CB D : Type}.

Record sched := mk_sched {
  sched_id : Z;
  when : timeval;
  resched : Z;
  variable : Z;
  data : D;
  callback : CB;
}.

Record sched_context := mk_sched_context {
  eventcnt : Z;
  schedcnt : Z;
  schedq : list sched;
  has_tid : bool;
  schedc : list sched;
  schedccnt : Z;
  signals : Z;
}.

#[export] Instance eta_sched : Eta sched := fun s =>
  mk_sched (sched_id s) (when s) (resched s) (variable s) (data s) (callback s).

#[export] Instance eta_sched_context : Eta sched_context := fun c =>
  mk_sched_context (eventcnt c) (schedcnt c) (schedq c) (has_tid c)
    (schedc c) (schedccnt c) (signals c).

(** The macro [SOONER]: is [a] sooner than [b]. *)
Definition SOONER (a b : timeval) : bool :=
  (tv_sec a <? tv_sec b)
  || ((tv_sec b =? tv_sec a) && (tv_usec a <? tv_usec b)).

Definition context_create (malloc_ok : bool) : option sched_context :=
  if malloc_ok then Some (mk_sched_context 1 0 [] false [] 0 0) else None.

Definition sched_manual_context_create (malloc_ok : bool) : option sched_context :=
  context_create malloc_ok.

(** [sched_context_create]: the service thread may fail to start, in which
    case the context is destroyed and NULL returned. *)
Definition sched_context_create (malloc_ok thread_ok : bool) : option sched_context :=
  match context_create malloc_ok with
  | None => None
  | Some tmp => if thread_ok then Some (tmp <| has_tid := true |>) else None
  end.

(** [sched_context_destroy] releases the cached and the queued structures:
    the list of what is passed to [free], in order. *)
Definition sched_context_destroy (con : sched_context) : list sched :=
  schedc con ++ schedq con.

(** A structure comes from the cache when there is one, else from [malloc].
    Its content is not modelled: the only caller overwrites every field. *)
Definition sched_alloc (malloc_ok : bool) (con : sched_context) : bool * sched_context :=
  match schedc con with
  | _ :: c => (true, con <| schedc := c |> <| schedccnt := schedccnt con - 1 |>)
  | [] => (malloc_ok, con)
  end.

Definition sched_release (con : sched_context) (tmp : sched) : sched_context :=
  if schedccnt con <? SCHED_MAX_CACHE then
    con <| schedc := tmp :: schedc con |> <| schedccnt := schedccnt con + 1 |>
  else con.

Definition cw_sched_wait (now : timeval) (con : sched_context) : Z :=
  match schedq con with
  | [] => -1
  | s :: _ => let ms := cw_tvdiff_ms (when s) now in if ms <? 0 then 0 else ms
  end.

(** The walk of [schedule]: past every entry [s] is not sooner than. *)
Fixpoint sched_insert (s : sched) (q : list sched) : list sched :=
  match q with
  | [] => [s]
  | current :: next =>
    if SOONER (when s) (when current) then s :: q
    else current :: sched_insert s next
  end.

Definition schedule (con : sched_context) (s : sched) : sched_context :=
  let at_head :=
    match schedq con with
    | [] => true
    | current :: _ => SOONER (when s) (when current)
    end in
  con <| schedq := sched_insert s (schedq con) |>
      <| schedcnt := schedcnt con + 1 |>
      <| signals := if at_head && has_tid con then signals con + 1 else signals con |>.

Definition cw_sched_add_variable (malloc_ok : bool) (now : timeval)
    (con : sched_context) (ms : Z) (cb : CB) (d : D) (var : Z) : Z * sched_context :=
  let '(ok, con) := sched_alloc malloc_ok con in
  if ok then
    let id := eventcnt con in
    let '(id, con) :=
      if id <? 0 then (0, con <| eventcnt := 0 |>)
      else (id, con <| eventcnt := s32 (id + 1) |>) in
    let tmp := mk_sched id (cw_tvadd now (cw_samp2tv ms 1000)) ms var d cb in
    (id, schedule con tmp)
  else (-1, con).

Definition cw_sched_add (malloc_ok : bool) (now : timeval)
    (con : sched_context) (ms : Z) (cb : CB) (d : D) : Z * sched_context :=
  cw_sched_add_variable malloc_ok now con ms cb d 0.

(** The first entry with the id, and the queue without it. *)
Fixpoint sched_unlink (id : Z) (q : list sched) : option (sched * list sched) :=
  match q with
  | [] => None
  | s :: next =>
    if sched_id s =? id then Some (s, next)
    else match sched_unlink id next with
         | Some (x, next') => Some (x, s :: next')
         | None => None
         end
  end.

Definition cw_sched_del (con : sched_context) (id : Z) : Z * sched_context :=
  match sched_unlink id (schedq con) with
  | Some (s, q) =>
    (0, sched_release (con <| schedq := q |> <| schedcnt := schedcnt con - 1 |>) s)
  | None => (-1, con)
  end.

Definition cw_sched_when (now : timeval) (con : sched_context) (id : Z) : Z :=
  match sched_unlink id (schedq con) with
  | Some (s, _) => tv_sec (when s) - tv_sec now
  | None => -1
  end.

(** The first loop of [cw_sched_runq] cuts the queue at the first entry that
    is not due; what is before it becomes the run queue. *)
Fixpoint sched_cut (tv : timeval) (q : list sched) : list sched * list sched :=
  match q with
  | [] => ([], [])
  | s :: next =>
    if SOONER (when s) tv then
      let '(run, rest) := sched_cut tv next in (s :: run, rest)
    else ([], q)
  end.

(** Everything a callback reaches besides the context. *)
Context {W : Type}.
Variable exec : CB -> D -> sched_context -> W -> Z * sched_context * W.

(** One turn of the second loop: run an entry, then queue it again or release
    it. *)
Definition sched_run1 (current : sched) (con : sched_context) (w : W) : sched_context * W :=
  let '(res, con, w) := exec (callback current) (data current) con w in
  if negb (res =? 0) then
    let step := if negb (variable current =? 0) then res else resched current in
    (schedule con (current <| when := cw_tvadd (when current) (cw_samp2tv step 1000) |>), w)
  else (sched_release con current, w).

Fixpoint sched_run (runq : list sched) (x : Z) (con : sched_context) (w : W)
    : Z * sched_context * W :=
  match runq with
  | [] => (x, con, w)
  | current :: runq =>
    let '(con, w) := sched_run1 current con w in sched_run runq (x + 1) con w
  end.

Definition cw_sched_runq (now : timeval) (con : sched_context) (w : W)
    : Z * sched_context * W :=
  let tv := cw_tvadd now (cw_tv 0 1000) in
  let '(runq, rest) := sched_cut tv (schedq con) in
  let con := con <| schedq := rest |>
                 <| schedcnt := schedcnt con - Z.of_nat (length runq) |> in
  sched_run runq 0 con w.

(** The absolute time (seconds, nanoseconds) [service_thread] sleeps until;
    with an empty queue it waits for a signal alone. *)
Definition service_tick (con : sched_context) : option (Z * Z) :=
  match schedq con with
  | s :: _ => Some (tv_sec (when s), 1000 * tv_usec (when s))
  | [] => None
  end.

(** One turn of the service thread, woken at [now]. *)
Definition service_turn (now : timeval) (con : sched_context) (w : W)
    : sched_context * W :=
  let '(_, con, w) := cw_sched_runq now con w in (con, w).

End sched.

Arguments sched : clear implicits.
Arguments sched_context : clear implicits.

(** ** Order of due times *)

Definition tv_le (a b : timeval) : Prop := SOONER b a = false.

Lemma SOONER_spec a b :
  SOONER a b = true <->
  tv_sec a < tv_sec b \/ (tv_sec a = tv_sec b /\ tv_usec a < tv_usec b).
Proof. unfold SOONER. rewrite orb_true_iff, andb_true_iff. lia. Qed.

Lemma tv_le_spec a b :
  tv_le a b <-> tv_sec a < tv_sec b \/ (tv_sec a = tv_sec b /\ tv_usec a <= tv_usec b).
Proof.
  unfold tv_le. rewrite <- not_true_iff_false, SOONER_spec. lia.
Qed.

Ltac tv_solve :=
  repeat match goal with
  | H : SOONER _ _ = true |- _ => apply SOONER_spec in H
  | H : SOONER _ _ = false |- _ => apply tv_le_spec in H
  | H : tv_le _ _ |- _ => apply tv_le_spec in H
  | |- SOONER _ _ = true => apply SOONER_spec
  | |- SOONER _ _ = false => apply tv_le_spec
  | |- tv_le _ _ => apply tv_le_spec
  end; lia.

#[export] Instance tv_le_dec : RelDecision tv_le.
Proof. intros a b. unfold tv_le. apply _. Defined.

#[export] Instance tv_le_preorder : PreOrder tv_le.
Proof. split; [intros ?|intros ???]; intros; tv_solve. Qed.

Lemma SOONER_us a b : tv_normal a -> tv_normal b -> SOONER a b = (us a <? us b).
Proof.
  unfold tv_normal, us, ONE_MILLION. intros Ha Hb.
  apply eq_true_iff_eq. rewrite SOONER_spec, Z.ltb_lt. lia.
Qed.

(** ** Invariant *)

Section sched_facts.
Context {CB D W : Type}.
Implicit Types (s : sched CB D) (q : list (sched CB D)) (con : sched_context CB D).

Definition sooner_eq s s' : Prop := tv_le (when s) (when s').

Definition sched_sorted q : Prop := StronglySorted sooner_eq q.

(** What every operation keeps: the queue is in order of due time, the two
    counters are the lengths of their lists, and the cache is bounded. *)
Record sched_wf con : Prop := {
  wf_sorted : sched_sorted (schedq con);
  wf_normal : Forall (fun s => tv_normal (when s)) (schedq con);
  wf_cnt : schedcnt con = Z.of_nat (length (schedq con));
  wf_ccnt : schedccnt con = Z.of_nat (length (schedc con));
  wf_cache : schedccnt con <= SCHED_MAX_CACHE;
}.

Lemma sched_insert_perm s q : sched_insert s q ≡ₚ s :: q.
Proof.
  induction q as [|c q IH]; simpl; [done|]. case_if; [done|].
  rewrite IH. apply Permutation_swap.
Qed.

Lemma sched_insert_split s q :
  sched_sorted q ->
  sched_insert s q =
    filter (fun c => tv_le (when c) (when s)) q
    ++ s :: filter (fun c => ~ tv_le (when c) (when s)) q.
Proof.
  induction 1 as [|c q Hs IH Hc]; simpl; [done|].
  case_if.
  - rewrite Forall_filter_nil, Forall_filter_id; [done| |];
      rewrite Forall_cons; (split; [unfold tv_le; congruence|]);
      (eapply Forall_impl; [exact Hc|]); intros y Hy Hle; try (intros Hle');
      unfold sooner_eq in *; tv_solve.
  - rewrite filter_cons_True, filter_cons_False by (unfold tv_le; auto).
    simpl. by rewrite IH.
Qed.

Lemma sched_insert_Forall (P : sched CB D -> Prop) s q :
  P s -> Forall P q -> Forall P (sched_insert s q).
Proof. intros. rewrite sched_insert_perm. by constructor. Qed.

Lemma sched_insert_sorted s q : sched_sorted q -> sched_sorted (sched_insert s q).
Proof.
  induction 1 as [|c q Hs IH Hc]; simpl; [by repeat constructor|]. case_if.
  - constructor; [by constructor|]. constructor; [unfold sooner_eq; tv_solve|].
    eapply Forall_impl; [exact Hc|]. unfold sooner_eq. intros y ?. tv_solve.
  - constructor; [done|]. apply sched_insert_Forall; [unfold sooner_eq; tv_solve|done].
Qed.

Lemma schedule_wf con s : tv_normal (when s) -> sched_wf con -> sched_wf (schedule con s).
Proof.
  intros Hn []. split; simpl; try done.
  - by apply sched_insert_sorted.
  - by apply sched_insert_Forall.
  - rewrite (Permutation_length (sched_insert_perm s (schedq con))). simpl. lia.
Qed.

Lemma sched_release_wf con s : sched_wf con -> sched_wf (sched_release con s).
Proof.
  intros []. unfold sched_release. case_if; b2p; [|by split].
  split; simpl; try done; unfold SCHED_MAX_CACHE in *; lia.
Qed.

Lemma sched_alloc_wf ok con : sched_wf con -> sched_wf (sched_alloc ok con).2.
Proof.
  intros Hwf. unfold sched_alloc. destruct (schedc con) eqn:E; [exact Hwf|].
  destruct Hwf. rewrite E in *. split; simpl in *; try done; lia.
Qed.

Lemma sched_wf_frame con con' :
  schedq con' = schedq con -> schedcnt con' = schedcnt con ->
  schedc con' = schedc con -> schedccnt con' = schedccnt con ->
  sched_wf con -> sched_wf con'.
Proof. intros Eq En Ec Em []. split; congruence. Qed.

Lemma cw_sched_add_variable_wf ok now con ms cb d var :
  sched_wf con -> sched_wf (cw_sched_add_variable ok now con ms cb d var).2.
Proof.
  intros Hwf. apply (sched_alloc_wf ok) in Hwf. unfold cw_sched_add_variable.
  destruct (sched_alloc ok con) as [[] con']; simpl in *; [|done].
  case_if; simpl; (apply schedule_wf; [apply cw_tvadd_normal|]);
    by apply (sched_wf_frame con').
Qed.

Lemma sched_unlink_spec id q :
  match sched_unlink id q with
  | Some (s, q') =>
    exists l1 l2, q = l1 ++ s :: l2 /\ q' = l1 ++ l2 /\ sched_id s = id
                  /\ Forall (fun x => sched_id x <> id) l1
  | None => Forall (fun x => sched_id x <> id) q
  end.
Proof.
  induction q as [|c q IH]; simpl; [constructor|]. case_if; b2p.
  - exists [], q. by rewrite Forall_nil.
  - destruct (sched_unlink id q) as [[s q']|].
    + destruct IH as (l1 & l2 & -> & -> & Hs & Hl). exists (c :: l1), l2.
      split_and!; auto.
    + by constructor.
Qed.

Lemma sched_sorted_remove l1 s l2 :
  sched_sorted (l1 ++ s :: l2) -> sched_sorted (l1 ++ l2).
Proof.
  unfold sched_sorted. rewrite !StronglySorted_app_iff.
  intros (H1 & H2 & H3). inversion_clear H2. split_and!; auto.
  intros x y Hx Hy. apply H3; [done|]. by apply elem_of_cons; right.
Qed.

Lemma cw_sched_del_wf con id : sched_wf con -> sched_wf (cw_sched_del con id).2.
Proof.
  intros []. unfold cw_sched_del.
  pose proof (sched_unlink_spec id (schedq con)) as Hu.
  destruct (sched_unlink id (schedq con)) as [[s q']|]; simpl; [|by split].
  destruct Hu as (l1 & l2 & Eq & -> & _ & _). rewrite Eq in *.
  apply sched_release_wf. split; simpl; try done.
  - by eapply sched_sorted_remove.
  - apply Forall_app in wf_normal0 as [? Hn]. inversion_clear Hn. by apply Forall_app.
  - rewrite wf_cnt0, !length_app. simpl. lia.
Qed.

Lemma sched_cut_app tv q : (sched_cut tv q).1 ++ (sched_cut tv q).2 = q.
Proof.
  induction q as [|c q IH]; simpl; [done|]. case_if; [|done].
  destruct (sched_cut tv q). simpl in *. by rewrite IH.
Qed.

(** On a queue in order the cut is the split into due and not due. *)
Lemma sched_cut_filter tv q :
  sched_sorted q ->
  sched_cut tv q = (filter (fun s => SOONER (when s) tv = true) q,
                    filter (fun s => SOONER (when s) tv = false) q).
Proof.
  induction 1 as [|c q Hs IH Hc]; simpl; [done|]. case_if.
  - rewrite IH, filter_cons_True, filter_cons_False by congruence. done.
  - assert (Forall (fun s => SOONER (when s) tv = false) (c :: q)) as Hf.
    { constructor; [done|]. eapply Forall_impl; [exact Hc|].
      unfold sooner_eq. intros y ?. tv_solve. }
    rewrite (Forall_filter_id _ _ Hf), Forall_filter_nil; [done|].
    eapply Forall_impl; [exact Hf|]. simpl. congruence.
Qed.

(** ** What a callback may do to the context

    Callbacks reach the scheduler through its two entry points. *)
Inductive api_step : relation (sched_context CB D) :=
| api_add ok now con ms cb d var :
    api_step con (cw_sched_add_variable ok now con ms cb d var).2
| api_del con id : api_step con (cw_sched_del con id).2.

Lemma api_steps_wf con con' : rtc api_step con con' -> sched_wf con -> sched_wf con'.
Proof.
  induction 1 as [|c1 c2 c3 Hs _ IH]; [done|]. intros Hwf. apply IH.
  destruct Hs; [by apply cw_sched_add_variable_wf|by apply cw_sched_del_wf].
Qed.

(** ** Event ids

    [ids_ok con pending]: the ids of the queued events and of the [pending]
    ones (detached from the queue by [cw_sched_runq], still to run) are
    distinct and below the next id. *)
Definition ids_ok con (pending : list (sched CB D)) : Prop :=
  NoDup (sched_id <$> schedq con ++ pending)
  /\ Forall (fun s => 0 <= sched_id s < eventcnt con) (schedq con ++ pending).

(** The id counter has not overflowed. *)
Definition no_wrap con : Prop := 0 < eventcnt con <= INT_MAX.

Definition api_step_nw (c c' : sched_context CB D) : Prop := api_step c c' /\ no_wrap c'.

Lemma ids_ok_perm con con' p p' :
  schedq con ++ p ≡ₚ schedq con' ++ p' -> eventcnt con = eventcnt con' ->
  ids_ok con p -> ids_ok con' p'.
Proof.
  intros Hp He [Hn Hf]. split; [by rewrite <- Hp|]. by rewrite <- Hp, <- He.
Qed.

Lemma ids_ok_sub con con' p x :
  schedq con ++ p ≡ₚ x :: schedq con' ++ p -> eventcnt con = eventcnt con' ->
  ids_ok con p -> ids_ok con' p.
Proof.
  intros Hp He [Hn Hf]. split.
  - rewrite Hp in Hn. by apply NoDup_cons in Hn as [_ ?].
  - rewrite Hp, He in Hf. by inversion_clear Hf.
Qed.

Lemma sched_alloc_frame ok con :
  schedq (sched_alloc ok con).2 = schedq con
  /\ eventcnt (sched_alloc ok con).2 = eventcnt con.
Proof. unfold sched_alloc. by destruct (schedc con). Qed.

Lemma sched_release_frame con s :
  schedq (sched_release con s) = schedq con
  /\ eventcnt (sched_release con s) = eventcnt con.
Proof. unfold sched_release. by case_if. Qed.

(** What an addition does to queue and counter, as long as the counter does
    not wrap. *)
Lemma cw_sched_add_variable_queue ok now con ms cb d var :
  0 <= eventcnt con ->
  let '(res, con') := cw_sched_add_variable ok now con ms cb d var in
  (res = -1 /\ con' = (sched_alloc ok con).2)
  \/ (res = eventcnt con /\ eventcnt con' = s32 (eventcnt con + 1)
      /\ schedq con' = sched_insert (mk_sched (eventcnt con)
           (cw_tvadd now (cw_samp2tv ms 1000)) ms var d cb) (schedq con)).
Proof.
  intros He. destruct (sched_alloc_frame ok con) as [Eq Ee].
  unfold cw_sched_add_variable. destruct (sched_alloc ok con) as [[] c]; simpl in *; [|by left].
  rewrite Ee. case_if; b2p; [lia|]. right. simpl. by rewrite Eq.
Qed.

Lemma cw_sched_add_variable_ids ok now con ms cb d var p :
  no_wrap con -> no_wrap (cw_sched_add_variable ok now con ms cb d var).2 ->
  ids_ok con p -> ids_ok (cw_sched_add_variable ok now con ms cb d var).2 p.
Proof.
  unfold no_wrap. intros Hc Hc' Hok.
  pose proof (cw_sched_add_variable_queue ok now con ms cb d var ltac:(lia)) as Ha.
  destruct (cw_sched_add_variable ok now con ms cb d var) as [res con']; simpl in *.
  destruct Ha as [[_ ->]|(_ & Ee & Eq)].
  { destruct (sched_alloc_frame ok con) as [E1 E2]. unfold ids_ok. by rewrite E1, E2. }
  assert (eventcnt con' = eventcnt con + 1) as Ee'.
  { rewrite Ee in *. destruct (decide (eventcnt con = INT_MAX)) as [E|E].
    - rewrite E in Hc'. vm_compute in Hc'. by destruct Hc'.
    - apply s32_id. unfold INT_MIN, INT_MAX in *. lia. }
  destruct Hok as [Hn Hf]. split; rewrite Eq, sched_insert_perm; simpl.
  - apply NoDup_cons. split; [|done]. intros Hin.
    apply list_elem_of_fmap in Hin as (s & Es & Hs).
    rewrite Forall_forall in Hf. apply Hf in Hs. lia.
  - rewrite Ee'. constructor; simpl; [lia|]. eapply Forall_impl; [exact Hf|].
    simpl. lia.
Qed.

Lemma cw_sched_del_ids con id p : ids_ok con p -> ids_ok (cw_sched_del con id).2 p.
Proof.
  intros Hok. unfold cw_sched_del.
  pose proof (sched_unlink_spec id (schedq con)) as Hu.
  destruct (sched_unlink id (schedq con)) as [[s q']|]; simpl; [|done].
  destruct Hu as (l1 & l2 & Eq & -> & _ & _).
  match goal with |- ids_ok (sched_release ?c s) p =>
    destruct (sched_release_frame c s) as [E1 E2] end.
  apply (ids_ok_sub con _ p s); [|by rewrite E2|done].
  rewrite E1, Eq. simpl. rewrite <- !app_assoc. simpl.
  symmetry. apply Permutation_middle.
Qed.

Lemma api_steps_ids con con' p :
  rtc api_step_nw con con' -> no_wrap con -> ids_ok con p ->
  ids_ok con' p /\ no_wrap con'.
Proof.
  induction 1 as [|c1 c2 c3 [Hs Hw] _ IH]; [done|]. intros Hc Hok. apply IH; [done|].
  destruct Hs; [by apply cw_sched_add_variable_ids|by apply cw_sched_del_ids].
Qed.

Lemma api_steps_nw_wf con con' : rtc api_step_nw con con' -> rtc api_step con con'.
Proof. intros H. eapply rtc_subrel; [|exact H]. by intros ? ? [? _]. Qed.

Lemma sched_unlink_insert s q :
  Forall (fun x => sched_id x <> sched_id s) q ->
  sched_unlink (sched_id s) (sched_insert s q) = Some (s, q).
Proof.
  induction 1 as [|c q Hc _ IH]; simpl; [by rewrite Z.eqb_refl|].
  case_if; simpl; [by rewrite Z.eqb_refl|]. rewrite IH.
  by apply Z.eqb_neq in Hc as ->.
Qed.

Lemma ids_ok_fresh con p :
  ids_ok con p -> Forall (fun x => sched_id x <> eventcnt con) (schedq con).
Proof.
  intros [_ Hf]. apply Forall_app in Hf as [Hf _].
  eapply Forall_impl; [exact Hf|]. simpl. lia.
Qed.

(** ** Running the queue *)
Section runq.
Variable exec : CB -> D -> sched_context CB D -> W -> Z * sched_context CB D * W.

(** The reference: run the entries one after the other. *)
Definition run_all (l : list (sched CB D)) (cw : sched_context CB D * W) :=
  foldl (fun cw s => sched_run1 exec s cw.1 cw.2) cw l.

Lemma sched_run_foldl l x con w :
  sched_run exec l x con w =
    (x + Z.of_nat (length l), (run_all l (con, w)).1, (run_all l (con, w)).2).
Proof.
  revert x con w. induction l as [|s l IH]; intros x con w; simpl.
  { by rewrite Z.add_0_r. }
  destruct (sched_run1 exec s con w) as [con' w'] eqn:E. rewrite IH.
  do 2 f_equal. simpl. lia.
Qed.

Lemma sched_run1_wf s con w :
  (forall cb d c w, rtc api_step c (exec cb d c w).1.2) ->
  sched_wf con -> sched_wf (sched_run1 exec s con w).1.
Proof.
  intros Hex Hwf. specialize (Hex (callback s) (data s) con w). unfold sched_run1.
  destruct (exec _ _ con w) as [[res con'] w']; simpl in *.
  apply (api_steps_wf con con' Hex) in Hwf.
  case_if; simpl; [|by apply sched_release_wf].
  apply schedule_wf; [apply cw_tvadd_normal|done].
Qed.

Lemma run_all_wf l con w :
  (forall cb d c w, rtc api_step c (exec cb d c w).1.2) ->
  sched_wf con -> sched_wf (run_all l (con, w)).1.
Proof.
  intros Hex. revert con w. induction l as [|s l IH]; intros con w Hwf; [done|].
  unfold run_all in *. simpl. pose proof (sched_run1_wf s con w Hex Hwf).
  destruct (sched_run1 exec s con w). by apply IH.
Qed.

(** The context left by the first loop: the due entries taken out. *)
Definition detach (tv : timeval) con : sched_context CB D :=
  con <| schedq := (sched_cut tv (schedq con)).2 |>
      <| schedcnt := schedcnt con - Z.of_nat (length (sched_cut tv (schedq con)).1) |>.

Lemma cw_sched_runq_eq now con w :
  let tv := cw_tvadd now (cw_tv 0 1000) in
  let run := (sched_cut tv (schedq con)).1 in
  cw_sched_runq exec now con w =
    (Z.of_nat (length run), (run_all run (detach tv con, w)).1,
     (run_all run (detach tv con, w)).2).
Proof.
  simpl. unfold cw_sched_runq, detach.
  destruct (sched_cut _ (schedq con)) as [run rest]. by rewrite sched_run_foldl.
Qed.

Lemma detach_wf tv con : sched_wf con -> sched_wf (detach tv con).
Proof.
  intros []. pose proof (sched_cut_app tv (schedq con)) as Hc.
  destruct (sched_cut tv (schedq con)) as [run rest] eqn:E; simpl in *.
  split; simpl; rewrite ?E; simpl; try done.
  - rewrite <- Hc in wf_sorted0. by apply StronglySorted_app_iff in wf_sorted0 as (_ & ? & _).
  - rewrite <- Hc in wf_normal0. by apply Forall_app in wf_normal0 as [_ ?].
  - rewrite wf_cnt0, <- Hc, length_app. lia.
Qed.

Lemma cw_sched_runq_wf now con w :
  (forall cb d c w, rtc api_step c (exec cb d c w).1.2) ->
  sched_wf con -> sched_wf (cw_sched_runq exec now con w).1.2.
Proof.
  intros Hex Hwf. rewrite cw_sched_runq_eq. simpl. by apply run_all_wf, detach_wf.
Qed.

Lemma sched_run1_ids s con w p :
  (forall cb d c w, rtc api_step_nw c (exec cb d c w).1.2) ->
  no_wrap con -> ids_ok con (s :: p) ->
  ids_ok (sched_run1 exec s con w).1 p /\ no_wrap (sched_run1 exec s con w).1.
Proof.
  intros Hex Hw Hok. specialize (Hex (callback s) (data s) con w). unfold sched_run1.
  destruct (exec _ _ con w) as [[res con'] w']; simpl in *.
  destruct (api_steps_ids con con' (s :: p) Hex Hw Hok) as [Hok' Hw'].
  destruct Hok' as [Hn Hf].
  case_if; simpl.
  - split; [|done]. split; simpl; rewrite sched_insert_perm; simpl.
    + by rewrite <- Permutation_middle in Hn.
    + rewrite <- Permutation_middle in Hf. inversion_clear Hf. by constructor.
  - destruct (sched_release_frame con' s) as [E1 E2].
    unfold no_wrap, ids_ok. rewrite E1, E2. split; [|done].
    rewrite <- Permutation_middle in Hn, Hf. simpl in Hn.
    apply NoDup_cons in Hn as [_ ?]. by inversion_clear Hf.
Qed.

Lemma run_all_ids l con w :
  (forall cb d c w, rtc api_step_nw c (exec cb d c w).1.2) ->
  no_wrap con -> ids_ok con l ->
  ids_ok (run_all l (con, w)).1 [] /\ no_wrap (run_all l (con, w)).1.
Proof.
  intros Hex. revert con w. induction l as [|s l IH]; intros con w Hw Hok; [done|].
  destruct (sched_run1_ids s con w l Hex Hw Hok) as [Hok' Hw'].
  unfold run_all in *. simpl. destruct (sched_run1 exec s con w). by apply IH.
Qed.

Lemma detach_ids tv con :
  ids_ok con [] -> ids_ok (detach tv con) (sched_cut tv (schedq con)).1.
Proof.
  apply ids_ok_perm; [|done]. simpl. rewrite app_nil_r.
  rewrite <- (sched_cut_app tv (schedq con)) at 1. apply Permutation_app_comm.
Qed.

(** ** The scheduler as a transition system *)
Inductive sched_step : relation (sched_context CB D) :=
| step_api con con' : api_step con con' -> sched_step con con'
| step_runq now con w : sched_step con (cw_sched_runq exec now con w).1.2.

End runq.

End sched_facts.

(** ** Properties *)

Section sched_properties.
Context {CB D W : Type}.
Variable exec : CB -> D -> sched_context CB D -> W -> Z * sched_context CB D * W.

(** C30: in every state the scheduler reaches from a fresh context by adding,
    deleting and running events, with callbacks that themselves only add and
    delete events, the queue is ordered by due time, [schedcnt] and
    [schedccnt] are the lengths of queue and cache, and the cache holds at
    most SCHED_MAX_CACHE structures. *)
Theorem sched_reachable_wf con0 con :
  (forall cb d c w, rtc api_step c (exec cb d c w).1.2) ->
  context_create true = Some con0 ->
  rtc (sched_step exec) con0 con ->
  sched_wf con.
Proof.
  intros Hex H0 Hr. injection H0 as <-.
  assert (sched_wf (mk_sched_context (CB := CB) (D := D) 1 0 [] false [] 0 0)) as Hwf
    by (split; simpl; try done; constructor).
  revert Hwf. induction Hr as [|c1 c2 c3 Hs _ IH]; [done|]. intros Hwf. apply IH.
  destruct Hs; [by eapply api_steps_wf; [apply rtc_once|]|by apply cw_sched_runq_wf].
Qed.

(** C31: [cw_sched_runq] at clock [now] runs exactly the events due before
    [now] + 1 ms, each once and in queue order, and counts them; the others
    stay queued in their order while the callbacks run. *)
Theorem sched_runq_runs_due now con w :
  sched_wf con ->
  let tv := cw_tvadd now (cw_tv 0 1000) in
  let due := filter (fun s => SOONER (when s) tv = true) (schedq con) in
  let left := filter (fun s => SOONER (when s) tv = false) (schedq con) in
  cw_sched_runq exec now con w =
    (Z.of_nat (length due),
     (run_all exec due (con <| schedq := left |>
                            <| schedcnt := Z.of_nat (length left) |>, w)).1,
     (run_all exec due (con <| schedq := left |>
                            <| schedcnt := Z.of_nat (length left) |>, w)).2).
Proof.
  intros Hwf tv due left. rewrite cw_sched_runq_eq. fold tv.
  pose proof (sched_cut_app tv (schedq con)) as Happ.
  unfold detach. rewrite (sched_cut_filter tv _ (wf_sorted _ Hwf)) in *. fold due left in Happ |- *.
  simpl in *. replace (schedcnt con - Z.of_nat (length due)) with (Z.of_nat (length left));
    [done|].
  rewrite (wf_cnt _ Hwf), <- Happ, length_app. lia.
Qed.

(** Sleeping for the milliseconds [cw_sched_wait] returns neither wakes
    before the first event is within a millisecond of its due time nor sleeps
    past it: a [cw_sched_runq] at any later clock runs that event. *)
Theorem sched_wait_then_run now now' con s q w :
  sched_wf con -> schedq con = s :: q ->
  tv_normal now -> tv_normal now' ->
  INT_MIN <= (us (when s) - us now) / 1000 <= INT_MAX ->
  us now + 1000 * cw_sched_wait now con <= us now' ->
  1 <= (cw_sched_runq exec now' con w).1.1
  /\ 1000 * cw_sched_wait now con <= Z.max 0 (us (when s) - us now).
Proof.
  intros Hwf Eq Hn Hn' Hr Hs.
  assert (tv_normal (when s)) as Hns
    by (pose proof (wf_normal _ Hwf) as Hf; rewrite Eq in Hf; by inversion_clear Hf).
  unfold cw_sched_wait in *. rewrite Eq in *.
  rewrite tvdiff_ms_floor, s32_id in * by done.
  pose proof (Z.div_mod (us (when s) - us now) 1000 ltac:(lia)) as Hd.
  pose proof (Z.mod_pos_bound (us (when s) - us now) 1000 ltac:(lia)).
  rewrite cw_sched_runq_eq. simpl. rewrite Eq. simpl.
  rewrite SOONER_us, us_tvadd; [|done|done|done|apply cw_tvadd_normal].
  assert (us (when s) < us now' + us (cw_tv 0 1000)) as Hlt.
  { unfold us at 3. simpl. revert Hs. case_if; b2p; lia. }
  apply Z.ltb_lt in Hlt as ->. destruct (sched_cut _ q). simpl.
  split; [lia|]. case_if; b2p; lia.
Qed.

(** Until the id counter overflows, the ids of the queued events are
    distinct: every state reached without overflow, callbacks included, has
    no two events with one id, and new ids are above all ids in use. *)
Theorem sched_ids_unique con0 con :
  (forall cb d c w, rtc api_step_nw c (exec cb d c w).1.2) ->
  context_create true = Some con0 ->
  rtc (fun c c' => sched_step exec c c' /\ no_wrap c') con0 con ->
  NoDup (sched_id <$> schedq con)
  /\ Forall (fun s => 0 <= sched_id s < eventcnt con) (schedq con).
Proof.
  intros Hex H0 Hr. injection H0 as <-.
  assert (forall c, rtc (fun c c' => sched_step exec c c' /\ no_wrap c') c con ->
            no_wrap c -> ids_ok c [] -> ids_ok con []) as Hind.
  { clear Hr. intros c. induction 1 as [|c1 c2 c3 [Hs Hw] _ IH]; [done|].
    intros Hw1 Hok. apply IH; [done|]. destruct Hs as [c c' Ha|now c w].
    - eapply api_steps_ids; [by apply rtc_once; split|done|done].
    - rewrite cw_sched_runq_eq in *. simpl in *.
      apply run_all_ids; [done|done|by apply detach_ids]. }
  apply Hind in Hr; [by rewrite <- (app_nil_r (schedq con))| |].
  - unfold no_wrap, INT_MAX; simpl; lia.
  - split; simpl; constructor.
Qed.

(** Deleting the event just added gives back the queue: the id returned
    by [cw_sched_add_variable] names that event and no other. *)
Theorem sched_add_del_roundtrip now (con : sched_context CB D) ms cb d var :
  no_wrap con -> ids_ok con [] -> sched_wf con ->
  let '(id, con') := cw_sched_add_variable true now con ms cb d var in
  let '(res, con'') := cw_sched_del con' id in
  res = 0 /\ schedq con'' = schedq con /\ schedcnt con'' = schedcnt con.
Proof.
  intros Hw Hok Hwf.
  pose proof (cw_sched_add_variable_queue true now con ms cb d var
    ltac:(unfold no_wrap in Hw; lia)) as Ha.
  pose proof (cw_sched_add_variable_wf true now con ms cb d var Hwf) as Hwf'.
  destruct (cw_sched_add_variable true now con ms cb d var) as [id con'] eqn:E.
  destruct Ha as [[-> _]|(-> & _ & Eq)].
  { exfalso. revert E. unfold cw_sched_add_variable, no_wrap, sched_alloc in *.
    destruct (schedc con); simpl; (case_if; b2p; [lia|]); intros [= ]; lia. }
  pose proof (cw_sched_del_wf con' (eventcnt con) Hwf') as Hwf''.
  unfold cw_sched_del in *. rewrite Eq in *.
  set (s := mk_sched _ _ _ _ _ _) in *.
  pose proof (sched_unlink_insert s (schedq con) (ids_ok_fresh _ _ Hok)) as Hu.
  simpl in Hu. rewrite Hu in *. clear Hu. simpl in Hwf'' |- *.
  match goal with |- context [sched_release ?c s] =>
    destruct (sched_release_frame c s) as [E1 _] end.
  split; [done|]. rewrite (wf_cnt _ Hwf''), (wf_cnt _ Hwf), E1. done.
Qed.

(** [schedule] puts an event after every queued event due no later and
    before every event due later, and leaves the others in their order, so
    events due at one time run first in, first out; and it signals a running
    service thread whenever the time that thread must wake at changes. *)
Theorem schedule_stable (con : sched_context CB D) (s : sched CB D) :
  sched_wf con ->
  schedq (schedule con s) =
    filter (fun c => tv_le (when c) (when s)) (schedq con)
    ++ s :: filter (fun c => ~ tv_le (when c) (when s)) (schedq con)
  /\ (has_tid con = true -> service_tick (schedule con s) <> service_tick con ->
      signals (schedule con s) = signals con + 1).
Proof.
  intros Hwf. split; [by apply sched_insert_split, wf_sorted|].
  intros Ht. unfold service_tick. simpl. rewrite Ht.
  destruct (schedq con); simpl; [done|]. by case_if.
Qed.

End sched_properties.

(** After the id counter overflows, two events added one after the other
    are both given id 0, and deleting id 0 removes only the first found: the
    second stays queued although its id was deleted. *)
Theorem sched_id_reuse_after_overflow {CB D} now (con : sched_context CB D) ms cb d :
  eventcnt con < 0 -> schedq con = [] ->
  let '(id1, con1) := cw_sched_add true now con ms cb d in
  let '(id2, con2) := cw_sched_add true now con1 ms cb d in
  let '(res, con3) := cw_sched_del con2 0 in
  id1 = 0 /\ id2 = 0 /\ res = 0 /\ (sched_id <$> schedq con3) = [0].
Proof.
  intros He Hq. unfold cw_sched_add, cw_sched_add_variable.
  destruct (sched_alloc_frame true con) as [Eq Ee].
  assert ((sched_alloc true con).1 = true) as Ea by (unfold sched_alloc; by destruct (schedc con)).
  destruct (sched_alloc true con) as [ok1 c1]. simpl in Eq, Ee, Ea.
  rewrite Ea, Ee. apply Z.ltb_lt in He as ->. simpl.
  set (s := mk_sched _ _ _ _ _ _). set (c1' := schedule _ s).
  destruct (sched_alloc_frame true c1') as [Eq' Ee'].
  assert ((sched_alloc true c1').1 = true) as Ea'
    by (unfold sched_alloc; by destruct (schedc c1')).
  destruct (sched_alloc true c1') as [ok2 c2]. simpl in Eq', Ee', Ea'.
  rewrite Ea', Ee'. simpl. unfold cw_sched_del. simpl.
  rewrite Eq', Eq, Hq. simpl.
  unfold SOONER at 1. rewrite !Z.ltb_irrefl, andb_false_r. simpl.
  match goal with |- context [sched_release ?c s] =>
    destruct (sched_release_frame c s) as [E1 _] end.
  by rewrite E1.
Qed.

(** ** Witnesses: a context with two events, callbacks that log and stop *)

Definition wit_exec (cb : nat) (d : unit) (c : sched_context nat unit) (w : list nat) :
  Z * sched_context nat unit * list nat := (0, c, w ++ [cb]).

Definition wit_con0 : sched_context nat unit := mk_sched_context 1 0 [] true [] 0 0.

Definition wit_con1 : sched_context nat unit :=
  (cw_sched_add true (cw_tv 100 0) wit_con0 50 7%nat tt).2.

Definition wit_con2 : sched_context nat unit :=
  (cw_sched_add true (cw_tv 100 0) wit_con1 20 8%nat tt).2.

Lemma wit_con2_wf : sched_wf wit_con2.
Proof.
  apply cw_sched_add_variable_wf, cw_sched_add_variable_wf.
  split; simpl; try done; constructor.
Qed.

Lemma wit_con2_queue : schedq wit_con2 =
  [mk_sched 2 (cw_tv 100 20000) 20 0 tt 8%nat; mk_sched 1 (cw_tv 100 50000) 50 0 tt 7%nat].
Proof. reflexivity. Qed.

Lemma sched_reachable_wf_witness :
  sched_wf (cw_sched_add_variable true (cw_tv 9 0)
    (mk_sched_context 1 0 [] false [] 0 0) 5 3%nat tt 0).2.
Proof.
  apply (sched_reachable_wf wit_exec (mk_sched_context 1 0 [] false [] 0 0)).
  - intros. apply rtc_refl.
  - reflexivity.
  - apply rtc_once, step_api, api_add.
Defined.

Lemma sched_runq_runs_due_witness :
  (cw_sched_runq wit_exec (cw_tv 100 30000) wit_con2 []).1.1 = 1
  /\ (cw_sched_runq wit_exec (cw_tv 100 30000) wit_con2 []).2 = [8%nat].
Proof. rewrite (sched_runq_runs_due wit_exec _ _ _ wit_con2_wf). split; reflexivity. Defined.

Lemma sched_wait_then_run_witness :
  1 <= (cw_sched_runq wit_exec (cw_tv 100 20000) wit_con2 []).1.1
  /\ 1000 * cw_sched_wait (cw_tv 100 500) wit_con2 <= Z.max 0 19500.
Proof.
  apply (sched_wait_then_run wit_exec (cw_tv 100 500) (cw_tv 100 20000) wit_con2
    _ _ [] wit_con2_wf wit_con2_queue); vm_compute; intuition congruence.
Defined.

Lemma sched_ids_unique_witness :
  NoDup (sched_id <$> schedq (cw_sched_add_variable true (cw_tv 9 0)
    (mk_sched_context 1 0 [] false [] 0 0) 5 3%nat tt 0).2).
Proof.
  refine (proj1 (sched_ids_unique wit_exec (mk_sched_context 1 0 [] false [] 0 0) _ _ _ _)).
  - intros. apply rtc_refl.
  - reflexivity.
  - apply rtc_once. split; [apply step_api, api_add|].
    split; vm_compute; congruence.
Defined.

Lemma sched_add_del_roundtrip_witness :
  schedq (cw_sched_del (cw_sched_add true (cw_tv 101 0) wit_con2 9 1%nat tt).2 3).2
    = schedq wit_con2.
Proof.
  assert (no_wrap wit_con2) as Hw by (split; vm_compute; congruence).
  assert (ids_ok wit_con2 []) as Hok.
  { split; rewrite wit_con2_queue.
    - apply (bool_decide_unpack _). vm_compute. exact I.
    - apply (bool_decide_unpack _). vm_compute. exact I. }
  exact (proj1 (proj2 (sched_add_del_roundtrip (cw_tv 101 0) wit_con2 9 1%nat tt 0
    Hw Hok wit_con2_wf))).
Defined.

Lemma schedule_stable_witness :
  sched_id <$> schedq (schedule wit_con2 (mk_sched 3 (cw_tv 100 20000) 1 0 tt 4%nat))
    = [2; 3; 1].
Proof. rewrite (proj1 (schedule_stable _ _ wit_con2_wf)). reflexivity. Defined.

Lemma sched_id_reuse_after_overflow_witness :
  eventcnt (cw_sched_add true (cw_tv 5 0) (wit_con0 <| eventcnt := INT_MAX |>)
    0 1%nat tt).2 < 0
  /\ (cw_sched_add true (cw_tv 5 0) (wit_con0 <| eventcnt := INT_MIN |>) 0 1%nat tt).1 = 0.
Proof.
  split; [reflexivity|].
  exact (proj1 (sched_id_reuse_after_overflow (cw_tv 5 0)
    (wit_con0 <| eventcnt := INT_MIN |>) 0 1%nat tt eq_refl eq_refl)).
Defined.
