(* ===== verification/TopBuf.v ===== *)
(** * Keeping the best [n] of a sequence

    The adaptive jitter buffer keeps the largest and the smallest delays of
    its history in two short sorted arrays, filled by insertion.  This file
    has the two routines, generic in the comparison, and their meaning: the
    array is the beginning of the sorted sequence. *)

From S2P Require Import Prelude.

(** The insertion loop of [history_calc_maxbuf]: before the first entry that
    [x] is better than, the last entry falling off. *)
Fixpoint buf_insert (better : Z -> Z -> bool) (x : Z) (buf : list Z) : list Z :=
  match buf with
  | [] => []
  | b :: bs => if better x b then x :: removelast (b :: bs) else b :: buf_insert better x bs
  end.

(** One step of the loop, with its guard on the entry at [last]. *)
Definition buf_offer (better : Z -> Z -> bool) (last : nat) (buf : list Z) (x : Z) : list Z :=
  if better x (nth last buf 0) then buf_insert better x buf else buf.

(** The reference: insertion into an unbounded list. *)
Fixpoint ins (better : Z -> Z -> bool) (x : Z) (l : list Z) : list Z :=
  match l with
  | [] => [x]
  | b :: bs => if better x b then x :: l else b :: ins better x bs
  end.

(** The comparison is the order of an injective key. *)
Class Better (better : Z -> Z -> bool) := {
  key : Z -> Z;
  better_key x y : better x y = (key x <? key y);
  key_inj x y : key x = key y -> x = y;
}.

#[export] Program Instance better_max : Better (fun x b => b <? x) := {| key := Z.opp |}.
Next Obligation. intros. simpl. apply eq_true_iff_eq. rewrite !Z.ltb_lt. lia. Qed.
Next Obligation. intros. simpl in *. lia. Qed.

#[export] Program Instance better_min : Better (fun x b => x <? b) := {| key := fun x => x |}.
Next Obligation. done. Qed.
Next Obligation. done. Qed.

Section topbuf.
Context (better : Z -> Z -> bool) `{!Better better}.

(** [x] may stand before [y]. *)
Definition no_worse (x y : Z) : Prop := key x <= key y.

Definition ranked (l : list Z) : Prop := StronglySorted no_worse l.

#[export] Instance no_worse_antisym : AntiSymm eq no_worse.
Proof. intros x y ? ?. apply key_inj. unfold no_worse in *. lia. Qed.

Lemma ins_perm x l : ins better x l ≡ₚ x :: l.
Proof.
  induction l as [|b l IH]; simpl; [done|]. case_if; [done|].
  rewrite IH. apply Permutation_swap.
Qed.

Lemma ins_ranked x l : ranked l -> ranked (ins better x l).
Proof.
  unfold ranked. induction 1 as [|b l Hs IH Hb]; simpl; [by repeat constructor|].
  rewrite better_key. case_if; b2p.
  - constructor; [by constructor|]. constructor; [unfold no_worse; lia|].
    eapply Forall_impl; [exact Hb|]. unfold no_worse. lia.
  - constructor; [done|]. rewrite ins_perm. constructor; [unfold no_worse; lia|done].
Qed.

(** Bounded insertion is insertion cut at the bound. *)
Lemma buf_insert_take x n l :
  (n <= length l)%nat -> buf_insert better x (take n l) = take n (ins better x l).
Proof.
  revert n. induction l as [|b l IH]; intros [|n] Hn; simpl in *; try done; [lia|].
  case_if; simpl; [|f_equal; apply IH; lia].
  f_equal. transitivity (removelast (take (S n) (b :: l))); [done|].
  apply removelast_firstn. simpl. lia.
Qed.

(** An element no better than the [n]-th does not change the first [n]. *)
Lemma ins_take_same x n l y :
  ranked l -> l !! n = Some y -> better x y = false ->
  take (S n) (ins better x l) = take (S n) l.
Proof.
  intros Hr. revert n. induction Hr as [|b l Hs IH Hb]; intros n Hy Hxy; [done|].
  assert (key b <= key y) as Hby.
  { destruct n as [|n]; simpl in Hy; [by simplify_eq|].
    eapply Forall_forall in Hb; [exact Hb|]. by eapply list_elem_of_lookup_2. }
  simpl. rewrite better_key in *. case_if; b2p; [lia|].
  simpl. f_equal. destruct n as [|n]; [done|].
  apply IH; [done|]. apply Z.ltb_ge. lia.
Qed.

(** An inserted element worse than the [n]-th is not among the first [n]. *)
Lemma ins_take_worse x n l y :
  ranked l -> ins better x l !! n = Some y -> better y x = true ->
  take (S n) (ins better x l) = take (S n) l.
Proof.
  intros Hr. revert n. induction Hr as [|b l Hs IH Hb]; intros n Hy Hxy; simpl in *.
  { destruct n as [|n]; simpl in *; [|done]. simplify_eq.
    rewrite better_key, Z.ltb_irrefl in Hxy. done. }
  rewrite better_key in *. destruct (key x <? key b) eqn:E.
  - exfalso. b2p. destruct n as [|n]; simpl in Hy; [simplify_eq; lia|].
    assert (key b <= key y); [|lia].
    destruct n as [|n]; simpl in Hy; [by simplify_eq|].
    eapply Forall_forall in Hb; [exact Hb|]. by eapply list_elem_of_lookup_2.
  - simpl. f_equal. destruct n as [|n]; [done|]. by apply IH.
Qed.

Lemma buf_offer_take x n l :
  ranked l -> (S n <= length l)%nat ->
  buf_offer better n (take (S n) l) x = take (S n) (ins better x l).
Proof.
  intros Hr Hn. unfold buf_offer.
  destruct (lookup_lt_is_Some_2 l n ltac:(lia)) as [y Hy].
  replace (nth n (take (S n) l) 0) with y.
  - case_if; [by apply buf_insert_take|]. symmetry. by eapply ins_take_same.
  - symmetry. apply nth_lookup_Some with (d := 0). by rewrite lookup_take_lt by lia.
Qed.

(** The whole loop: the first [n] of the sorted sequence. *)
Definition ranking (l0 xs : list Z) : list Z := foldl (fun l x => ins better x l) l0 xs.

Lemma ranking_perm l0 xs : ranking l0 xs ≡ₚ xs ++ l0.
Proof.
  revert l0. induction xs as [|x xs IH]; intros l0; [done|]. unfold ranking in *. simpl.
  rewrite IH, ins_perm. symmetry. apply Permutation_middle.
Qed.

Lemma ranking_ranked l0 xs : ranked l0 -> ranked (ranking l0 xs).
Proof.
  revert l0. induction xs as [|x xs IH]; intros l0 H; [done|]. by apply IH, ins_ranked.
Qed.

Lemma buf_offers_take n xs l0 :
  ranked l0 -> (S n <= length l0)%nat ->
  foldl (buf_offer better n) (take (S n) l0) xs = take (S n) (ranking l0 xs).
Proof.
  revert l0. induction xs as [|x xs IH]; intros l0 Hr Hn; [done|]. simpl.
  rewrite buf_offer_take by done. apply IH; [by apply ins_ranked|].
  rewrite (Permutation_length (ins_perm x l0)). simpl. lia.
Qed.

Lemma ranked_unique l l' : ranked l -> ranked l' -> l ≡ₚ l' -> l = l'.
Proof. apply StronglySorted_unique, _. Qed.

Lemma ranked_replicate n x : ranked (replicate n x).
Proof.
  induction n as [|n IH]; simpl; [constructor|]. constructor; [done|].
  apply Forall_replicate. unfold no_worse. lia.
Qed.

(** At most [i] elements are strictly better than the one at rank [i]. *)
Lemma ranked_better_count l i y :
  ranked l -> l !! i = Some y -> (length (filter (fun v => (key v < key y)%Z) l) <= i)%nat.
Proof.
  intros Hr. revert i. induction Hr as [|b l Hs IH Hb]; intros i Hy; [done|].
  destruct i as [|i]; simpl in Hy.
  - simplify_eq. rewrite Forall_filter_nil; [done|]. constructor; [lia|].
    eapply Forall_impl; [exact Hb|]. unfold no_worse. simpl. lia.
  - specialize (IH i Hy). rewrite filter_cons. case_decide; simpl; lia.
Qed.

End topbuf.
