(* ===== verification/JbScx.v ===== *)
(** * The fixed-delay jitter buffer (corelib/jitterbuffer/jitterbuf_scx.c)

    Frames wait in a doubly linked list sorted by delivery time; the model
    keeps the list head first, so [jb->tail] is its last element.  [long] is
    64 bits wide and kept as [Z].  [scx_jb_put] and [resynch_jb] call each
    other; the recursion is cut by fuel, and [scx_put_terminates] shows that
    two nested calls are all there can be.  A failed [assert] is an outcome of
    its own. *)

From S2P Require Import Prelude.

Inductive outcome (A : Type) : Type :=
| Ret (x : A)
| Assert_failed
| Out_of_fuel.
Arguments Ret {A} x.
Arguments Assert_failed {A}.
Arguments Out_of_fuel {A}.

Definition SCX_JB_OK : Z := 0.
Definition SCX_JB_DROP : Z := 1.
Definition SCX_JB_INTERP : Z := 2.
Definition SCX_JB_NOFRAME : Z := 3.

Definition SCX_JB_SIZE_DEFAULT : Z := 200.
Definition SCX_JB_RESYNCH_THRESHOLD_DEFAULT : Z := 1000.

Record scx_jb_conf := mk_scx_conf { jbsize : Z; scx_resync_threshold : Z }.

Section scx.
Context {D : Type}.

Record scx_jb_frame := mk_scx_frame {
  sf_data : D;
  sf_ts : Z;
  sf_ms : Z;
  sf_delivery : Z;
}.

Record scx_jb := mk_scx {
  sj_frames : list scx_jb_frame;
  sj_conf : scx_jb_conf;
  rxcore : Z;
  delay : Z;
  next_delivery : Z;
  force_resynch : bool;
}.

#[export] Instance eta_scx_jb_frame : Eta scx_jb_frame := fun f =>
  mk_scx_frame (sf_data f) (sf_ts f) (sf_ms f) (sf_delivery f).

#[export] Instance eta_scx_jb : Eta scx_jb := fun j =>
  mk_scx (sj_frames j) (sj_conf j) (rxcore j) (delay j) (next_delivery j) (force_resynch j).

(** Unlink the first frame, hand out a copy; the list is not empty at the
    call sites. *)
Definition get_jb_head (jb : scx_jb) : option (scx_jb_frame * scx_jb) :=
  match sj_frames jb with
  | [] => None
  | fr :: next =>
    Some (fr, jb <| sj_frames := next |> <| next_delivery := sf_delivery fr + sf_ms fr |>)
  end.

Definition scx_jb_new (calloc_ok : bool) (conf : scx_jb_conf) : option scx_jb :=
  if calloc_ok then
    let conf := mk_scx_conf
      (if jbsize conf <? 1 then SCX_JB_SIZE_DEFAULT else jbsize conf)
      (if scx_resync_threshold conf <? 1 then SCX_JB_RESYNCH_THRESHOLD_DEFAULT
       else scx_resync_threshold conf) in
    Some (mk_scx [] conf 0 (jbsize conf) 0 false)
  else None.

(** [scx_jb_destroy] asserts that the buffer is empty. *)
Definition scx_jb_destroy (jb : scx_jb) : outcome unit :=
  match sj_frames jb with [] => Ret tt | _ => Assert_failed end.

Definition scx_jb_set_force_resynch (jb : scx_jb) : scx_jb :=
  jb <| force_resynch := true |>.

(** The mutual recursion: [put] is the [scx_jb_put] the two functions call. *)
Definition scx_jb_put_first_with (put : scx_jb -> D -> Z -> Z -> Z -> outcome (Z * scx_jb))
    (jb : scx_jb) (d : D) (ms ts now : Z) : outcome (Z * scx_jb) :=
  put (jb <| rxcore := now - ts |> <| next_delivery := now + delay jb |>) d ms ts now.

Definition resynch_jb (put : scx_jb -> D -> Z -> Z -> Z -> outcome (Z * scx_jb))
    (jb : scx_jb) (d : D) (ms ts now : Z) : outcome (Z * scx_jb) :=
  match last (sj_frames jb) with
  | None => scx_jb_put_first_with put jb d ms ts now
  | Some tail =>
    let diff := ts - sf_ts tail in
    let offset := diff - sf_ms tail in
    if negb (force_resynch jb)
       && ((offset <? scx_resync_threshold (sj_conf jb))
           && (- scx_resync_threshold (sj_conf jb) <? offset))
    then Ret (SCX_JB_DROP, jb)
    else
      put (jb <| force_resynch := false |>
              <| rxcore := rxcore jb - offset |>
              <| sj_frames := (fun f => f <| sf_ts := sf_ts f + offset |>) <$> sj_frames jb |>)
          d ms ts now
  end.

(** The walk from the tail towards the head, over frames delivered later than
    the new one: what is before the place (last first) and what is after. *)
Fixpoint scx_walk (delivery : Z) (before after : list scx_jb_frame)
    : list scx_jb_frame * list scx_jb_frame :=
  match before with
  | [] => ([], after)
  | frame :: prev =>
    if delivery <? sf_delivery frame then scx_walk delivery prev (frame :: after)
    else (before, after)
  end.

(** Is the place of the new frame taken: by the frame before it, or does the
    new frame run into the one after it. *)
Definition scx_covered (delivery ms : Z) (before after : list scx_jb_frame) : bool :=
  match before with
  | [] => false
  | frame :: _ =>
    (sf_delivery frame =? delivery)
    || (delivery <? sf_delivery frame + sf_ms frame)
    || match after with
       | [] => false
       | next :: _ => sf_delivery next <? delivery + ms
       end
  end.

Fixpoint scx_jb_put_n (fuel : nat) (jb : scx_jb) (d : D) (ms ts now : Z)
    : outcome (Z * scx_jb) :=
  match fuel with
  | O => Out_of_fuel
  | S fuel =>
    let put := scx_jb_put_n fuel in
    if negb ((2 <=? ms) && (0 <=? ts) && (0 <=? now)) then Assert_failed
    else
      let delivery := rxcore jb + delay jb + ts in
      if delivery <? next_delivery jb then resynch_jb put jb d ms ts now
      else if next_delivery jb + delay jb + scx_resync_threshold (sj_conf jb) <? delivery
      then resynch_jb put jb d ms ts now
      else
        let '(before, after) := scx_walk delivery (rev (sj_frames jb)) [] in
        if scx_covered delivery ms before after then resynch_jb put jb d ms ts now
        else
          let newframe := mk_scx_frame d ts ms delivery in
          Ret (SCX_JB_OK, jb <| force_resynch := false |>
                             <| sj_frames := rev before ++ newframe :: after |>)
  end.

(** Two nested calls are enough ([scx_put_terminates]). *)
Definition scx_jb_put : scx_jb -> D -> Z -> Z -> Z -> outcome (Z * scx_jb) :=
  scx_jb_put_n 2.

Definition scx_jb_put_first : scx_jb -> D -> Z -> Z -> Z -> outcome (Z * scx_jb) :=
  scx_jb_put_first_with scx_jb_put.

(** The frame is written only with the codes OK and DROP. *)
Definition scx_jb_get (jb : scx_jb) (now interpl : Z)
    : outcome (Z * option scx_jb_frame * scx_jb) :=
  if negb ((0 <=? now) && (2 <=? interpl)) then Assert_failed
  else if now <? next_delivery jb then Ret (SCX_JB_NOFRAME, None, jb)
  else
    match sj_frames jb with
    | [] =>
      Ret (SCX_JB_INTERP, None, jb <| next_delivery := next_delivery jb + interpl |>)
    | first :: _ =>
      if sf_delivery first + sf_ms first <? now then
        match get_jb_head jb with
        | Some (frame, jb) => Ret (SCX_JB_DROP, Some frame, jb)
        | None => Assert_failed
        end
      else if now <? sf_delivery first then
        Ret (SCX_JB_INTERP, None, jb <| next_delivery := next_delivery jb + interpl |>)
      else
        match get_jb_head jb with
        | Some (frame, jb) => Ret (SCX_JB_OK, Some frame, jb)
        | None => Assert_failed
        end
    end.

Definition scx_jb_next (jb : scx_jb) : Z := next_delivery jb.

Definition scx_jb_remove (jb : scx_jb) : Z * option scx_jb_frame * scx_jb :=
  match get_jb_head jb with
  | None => (SCX_JB_NOFRAME, None, jb)
  | Some (frame, jb) => (SCX_JB_OK, Some frame, jb)
  end.

End scx.

Arguments scx_jb_frame : clear implicits.
Arguments scx_jb : clear implicits.

(** ** Facts *)

Section scx_facts.
Context {D : Type}.
Implicit Types (jb : scx_jb D) (f : scx_jb_frame D) (l : list (scx_jb_frame D)).

Definition before_f f f' : Prop := sf_delivery f < sf_delivery f'.

Definition scx_sorted l : Prop := StronglySorted before_f l.

(** The state invariant: a positive configuration, frames strictly sorted by
    delivery, and each delivery time is the frame's timestamp shifted by the
    receiver's base and the constant delay. *)
Record scx_wf jb : Prop := {
  scx_thr : 1 <= scx_resync_threshold (sj_conf jb);
  scx_delay : 1 <= delay jb;
  scx_srt : scx_sorted (sj_frames jb);
  scx_base : Forall (fun f => sf_delivery f = rxcore jb + delay jb + sf_ts f) (sj_frames jb);
  scx_ms : Forall (fun f => 2 <= sf_ms f) (sj_frames jb);
}.

Lemma scx_walk_spec d l a b' a' :
  scx_walk d l a = (b', a') ->
  rev l ++ a = rev b' ++ a'
  /\ (exists m, a' = m ++ a /\ Forall (fun f => d < sf_delivery f) m)
  /\ match b' with [] => True | f :: _ => sf_delivery f <= d end.
Proof.
  revert a. induction l as [|f l IH]; simpl; intros a.
  { intros [= <- <-]. split_and!; try done. by exists []. }
  case_if; b2p.
  - intros H. apply IH in H as (H1 & (m & -> & Hm) & H3). split_and!; [|..|done].
    + by rewrite <- H1, <- app_assoc.
    + exists (m ++ [f]). rewrite <- app_assoc. split; [done|].
      apply Forall_app. auto.
  - intros [= <- <-]. split_and!; [done| |lia]. by exists [].
Qed.

(** The walk over the whole list cuts it at the delivery time. *)
Lemma scx_walk_cut d l b a :
  scx_sorted l -> scx_walk d (rev l) [] = (b, a) ->
  l = rev b ++ a
  /\ Forall (fun f => sf_delivery f <= d) (rev b)
  /\ Forall (fun f => d < sf_delivery f) a.
Proof.
  intros Hs H. apply scx_walk_spec in H as (H1 & (m & Ha & Hm) & H3).
  rewrite rev_involutive, app_nil_r in H1. rewrite app_nil_r in Ha. subst m.
  split_and!; [done| |done].
  subst l. apply StronglySorted_app_iff in Hs as (Hb & _ & _).
  destruct b as [|f b]; simpl in *; [constructor|].
  apply StronglySorted_app_iff in Hb as (_ & _ & Hbf).
  apply Forall_app. split; [|by repeat constructor].
  apply Forall_forall. intros x Hx. unfold before_f in Hbf.
  specialize (Hbf x f Hx ltac:(by apply elem_of_cons; left)). lia.
Qed.

Lemma scx_sorted_insert l1 l2 f :
  scx_sorted (l1 ++ l2) ->
  Forall (fun x => sf_delivery x < sf_delivery f) l1 ->
  Forall (fun x => sf_delivery f < sf_delivery x) l2 ->
  scx_sorted (l1 ++ f :: l2).
Proof.
  unfold scx_sorted. rewrite !StronglySorted_app_iff. intros (H1 & H2 & H3) Hl Hr.
  split_and!; [done|by constructor|]. intros x y Hx Hy.
  rewrite Forall_forall in Hl. apply elem_of_cons in Hy as [->|Hy]; [by apply Hl|by apply H3].
Qed.

(** A frame that is not covered by its left neighbour is after all of them. *)
Lemma scx_not_covered_left d ms b a :
  scx_sorted (rev b) -> Forall (fun f => sf_delivery f <= d) (rev b) ->
  scx_covered d ms b a = false -> Forall (fun f => sf_delivery f < d) (rev b).
Proof.
  intros Hs Hf Hc. destruct b as [|f b]; simpl in *; [constructor|].
  b2p. apply StronglySorted_app_iff in Hs as (_ & _ & Hs).
  apply Forall_app in Hf as [Hf1 Hf2]. inversion_clear Hf2.
  assert (sf_delivery f < d) by lia.
  apply Forall_app. split; [|by repeat constructor].
  apply Forall_forall. intros x Hx. unfold before_f in Hs.
  specialize (Hs x f Hx ltac:(by apply elem_of_cons; left)). lia.
Qed.

Lemma fmap_shift_delivery off l :
  sf_delivery <$> ((fun f => f <| sf_ts := sf_ts f + off |>) <$> l) = sf_delivery <$> l.
Proof. rewrite <- list_fmap_compose. by apply list_fmap_ext. Qed.

Lemma scx_sorted_fmap l l' :
  sf_delivery <$> l = sf_delivery <$> l' -> scx_sorted l -> scx_sorted l'.
Proof.
  unfold scx_sorted. intros E Hs. revert l' E.
  induction Hs as [|f l Hs IH Hf]; intros [|f' l'] E; try discriminate; [constructor|].
  injection E as Ef El. constructor; [by apply IH|].
  rewrite <- (Forall_fmap sf_delivery (fun d => sf_delivery f < d)) in Hf.
  change (Forall (fun d => sf_delivery f < d) (list_fmap _ _ sf_delivery l)) in Hf.
  rewrite El, Ef in Hf. by apply (Forall_fmap sf_delivery) in Hf.
Qed.

(** The buffer [resynch_jb] hands back to [scx_jb_put]. *)
Definition scx_shift jb (off : Z) : scx_jb D :=
  jb <| force_resynch := false |>
     <| rxcore := rxcore jb - off |>
     <| sj_frames := (fun f => f <| sf_ts := sf_ts f + off |>) <$> sj_frames jb |>.

Lemma scx_shift_wf jb off : scx_wf jb -> scx_wf (scx_shift jb off).
Proof.
  intros []. split; simpl; try done.
  - apply (scx_sorted_fmap (sj_frames jb)); [|done]. symmetry. apply fmap_shift_delivery.
  - apply Forall_fmap. eapply Forall_impl; [exact scx_base0|]. simpl. lia.
  - apply Forall_fmap. eapply Forall_impl; [exact scx_ms0|]. simpl. lia.
Qed.

(** The insertion, when the new frame needs no resynchronisation. *)
Definition scx_place jb (d : D) (ms ts : Z) : option (scx_jb D) :=
  let delivery := rxcore jb + delay jb + ts in
  if delivery <? next_delivery jb then None
  else if next_delivery jb + delay jb + scx_resync_threshold (sj_conf jb) <? delivery then None
  else
    let '(before, after) := scx_walk delivery (rev (sj_frames jb)) [] in
    if scx_covered delivery ms before after then None
    else Some (jb <| force_resynch := false |>
                  <| sj_frames := rev before ++ mk_scx_frame d ts ms delivery :: after |>).

Lemma scx_jb_put_n_S n jb d ms ts now :
  2 <= ms -> 0 <= ts -> 0 <= now ->
  scx_jb_put_n (S n) jb d ms ts now =
    match scx_place jb d ms ts with
    | Some jb' => Ret (SCX_JB_OK, jb')
    | None => resynch_jb (scx_jb_put_n n) jb d ms ts now
    end.
Proof.
  intros Hms Hts Hnow. unfold scx_place. simpl.
  replace (2 <=? ms) with true by (symmetry; lia).
  replace (0 <=? ts) with true by (symmetry; lia).
  replace (0 <=? now) with true by (symmetry; lia). simpl.
  case_if; [done|]. case_if; [done|].
  destruct (scx_walk _ _ _) as [b a]. by case_if.
Qed.

(** The new frame goes strictly between the earlier and the later ones. *)
Lemma scx_place_spec jb d ms ts jb' :
  scx_wf jb -> scx_place jb d ms ts = Some jb' ->
  let dl := rxcore jb + delay jb + ts in
  exists l1 l2, sj_frames jb = l1 ++ l2
    /\ jb' = jb <| force_resynch := false |>
                <| sj_frames := l1 ++ mk_scx_frame d ts ms dl :: l2 |>
    /\ Forall (fun f => sf_delivery f < dl) l1
    /\ Forall (fun f => dl < sf_delivery f) l2
    /\ next_delivery jb <= dl.
Proof.
  intros Hwf. unfold scx_place. simpl. case_if; [done|]. case_if; [done|].
  destruct (scx_walk _ _ _) as [b a] eqn:Ew. case_if; [done|]. intros [= <-].
  apply scx_walk_cut in Ew as (El & Hb & Ha); [|apply Hwf]. b2p.
  exists (rev b), a. split_and!; try done.
  eapply scx_not_covered_left; [|done|done].
  pose proof (scx_srt _ Hwf) as Hs. rewrite El in Hs.
  by apply StronglySorted_app_iff in Hs as (? & _ & _).
Qed.

Lemma scx_place_wf jb d ms ts jb' :
  scx_wf jb -> 2 <= ms -> scx_place jb d ms ts = Some jb' -> scx_wf jb'.
Proof.
  intros Hwf Hms Hp. apply scx_place_spec in Hp as (l1 & l2 & El & -> & H1 & H2 & _); [|done].
  destruct Hwf. rewrite El in *. split; simpl; try done.
  - by apply scx_sorted_insert.
  - apply Forall_app in scx_base0 as [? ?]. apply Forall_app. split; [done|]. by constructor.
  - apply Forall_app in scx_ms0 as [? ?]. apply Forall_app. split; [done|]. by constructor.
Qed.

(** With the offset already applied, a further resynchronisation drops. *)
Lemma resynch_jb_again put jb d ms ts now tail :
  scx_wf jb -> last (sj_frames jb) = Some tail ->
  resynch_jb put (scx_shift jb (ts - sf_ts tail - sf_ms tail)) d ms ts now
  = Ret (SCX_JB_DROP, scx_shift jb (ts - sf_ts tail - sf_ms tail)).
Proof.
  intros Hwf Hl. unfold resynch_jb. simpl. rewrite fmap_last, Hl. simpl.
  replace (ts - (sf_ts tail + (ts - sf_ts tail - sf_ms tail)) - sf_ms tail) with 0 by lia.
  pose proof (scx_thr _ Hwf). case_if; b2p; [done|].
  exfalso. revert E. rewrite andb_false_iff. lia.
Qed.

(** On an empty buffer, the frame is put as the first one. *)
Lemma scx_put_empty n jb d ms ts now :
  scx_wf jb -> sj_frames jb = [] -> 2 <= ms -> 0 <= ts -> 0 <= now ->
  scx_jb_put_first_with (scx_jb_put_n (S n)) jb d ms ts now
  = Ret (SCX_JB_OK,
         jb <| rxcore := now - ts |> <| next_delivery := now + delay jb |>
            <| force_resynch := false |>
            <| sj_frames := [mk_scx_frame d ts ms (now + delay jb)] |>).
Proof.
  intros Hwf Hl Hms Hts Hnow. unfold scx_jb_put_first_with. simpl.
  replace (2 <=? ms) with true by (symmetry; lia).
  replace (0 <=? ts) with true by (symmetry; lia).
  replace (0 <=? now) with true by (symmetry; lia). simpl. rewrite Hl. simpl.
  replace (now - ts + delay jb + ts) with (now + delay jb) by lia.
  pose proof (scx_thr _ Hwf). pose proof (scx_delay _ Hwf).
  case_if; b2p; [lia|]. case_if; b2p; [lia|]. done.
Qed.

(** The whole of [scx_jb_put], the recursion resolved. *)
Definition scx_put_spec jb (d : D) (ms ts now : Z) : Z * scx_jb D :=
  match scx_place jb d ms ts, last (sj_frames jb) with
  | Some jb', _ => (SCX_JB_OK, jb')
  | None, None =>
    (SCX_JB_OK, jb <| rxcore := now - ts |> <| next_delivery := now + delay jb |>
                   <| force_resynch := false |>
                   <| sj_frames := [mk_scx_frame d ts ms (now + delay jb)] |>)
  | None, Some tail =>
    let offset := ts - sf_ts tail - sf_ms tail in
    if negb (force_resynch jb) && (Z.abs offset <? scx_resync_threshold (sj_conf jb))
    then (SCX_JB_DROP, jb)
    else match scx_place (scx_shift jb offset) d ms ts with
         | Some jb' => (SCX_JB_OK, jb')
         | None => (SCX_JB_DROP, scx_shift jb offset)
         end
  end.

Lemma scx_jb_put_n_spec n jb d ms ts now :
  scx_wf jb -> 2 <= ms -> 0 <= ts -> 0 <= now ->
  scx_jb_put_n (S (S n)) jb d ms ts now = Ret (scx_put_spec jb d ms ts now).
Proof.
  intros Hwf Hms Hts Hnow. rewrite scx_jb_put_n_S by done. unfold scx_put_spec.
  destruct (scx_place jb d ms ts); [done|].
  destruct (last (sj_frames jb)) as [tail|] eqn:El.
  - unfold resynch_jb at 1. rewrite El.
    set (off := ts - sf_ts tail - sf_ms tail).
    replace ((off <? scx_resync_threshold (sj_conf jb))
             && (- scx_resync_threshold (sj_conf jb) <? off))
      with (Z.abs off <? scx_resync_threshold (sj_conf jb))
      by (apply eq_true_iff_eq; rewrite andb_true_iff; lia).
    case_if; [done|]. change (scx_jb_put_n (S n) (scx_shift jb off) d ms ts now = Ret
      match scx_place (scx_shift jb off) d ms ts with
      | Some jb' => (SCX_JB_OK, jb')
      | None => (SCX_JB_DROP, scx_shift jb off)
      end).
    rewrite scx_jb_put_n_S by done.
    destruct (scx_place (scx_shift jb off) d ms ts); [done|].
    by apply resynch_jb_again.
  - apply last_None in El. unfold resynch_jb. rewrite El. simpl last.
    by apply scx_put_empty.
Qed.

Lemma scx_jb_put_eq jb d ms ts now :
  scx_wf jb -> 2 <= ms -> 0 <= ts -> 0 <= now ->
  scx_jb_put jb d ms ts now = Ret (scx_put_spec jb d ms ts now).
Proof. apply scx_jb_put_n_spec. Qed.

Lemma scx_put_spec_wf jb d ms ts now :
  scx_wf jb -> 2 <= ms -> scx_wf (scx_put_spec jb d ms ts now).2.
Proof.
  intros Hwf Hms. unfold scx_put_spec.
  destruct (scx_place jb d ms ts) eqn:E; [by eapply scx_place_wf|].
  destruct (last (sj_frames jb)) as [tail|] eqn:El.
  - case_if; [done|]. pose proof (scx_shift_wf jb (ts - sf_ts tail - sf_ms tail) Hwf).
    destruct (scx_place (scx_shift _ _) d ms ts) eqn:E'; [by eapply scx_place_wf|done].
  - destruct Hwf. split; simpl; try done; repeat constructor; simpl; lia.
Qed.

Lemma get_jb_head_wf jb f jb' : get_jb_head jb = Some (f, jb') -> scx_wf jb -> scx_wf jb'.
Proof.
  unfold get_jb_head. destruct (sj_frames jb) as [|g l] eqn:E; [done|].
  intros [= <- <-] []. rewrite E in *. split; simpl; try done.
  - by inversion scx_srt0.
  - by inversion scx_base0.
  - by inversion scx_ms0.
Qed.

Lemma scx_jb_get_wf jb now interpl code fo jb' :
  scx_jb_get jb now interpl = Ret (code, fo, jb') -> scx_wf jb -> scx_wf jb'.
Proof.
  intros H Hwf. revert H. unfold scx_jb_get. case_if; [done|]. case_if; [by intros [= _ _ <-]|].
  destruct (sj_frames jb) as [|f l] eqn:El.
  { intros [= _ _ <-]. by destruct Hwf. }
  destruct (get_jb_head jb) as [[f' j']|] eqn:Eh; [|by unfold get_jb_head in Eh; rewrite El in Eh].
  repeat case_if; intros [= _ _ <-]; solve [by destruct Hwf | by eapply get_jb_head_wf].
Qed.

(** What a put does to the data that wait. *)
Lemma scx_put_spec_data jb d ms ts now :
  scx_wf jb ->
  let '(code, jb') := scx_put_spec jb d ms ts now in
  (code = SCX_JB_OK /\ sf_data <$> sj_frames jb' ≡ₚ d :: (sf_data <$> sj_frames jb))
  \/ (code = SCX_JB_DROP /\ sf_data <$> sj_frames jb' = sf_data <$> sj_frames jb).
Proof.
  intros Hwf.
  assert (Hplace : forall j jb', scx_wf j -> scx_place j d ms ts = Some jb' ->
    sf_data <$> sj_frames jb' ≡ₚ d :: (sf_data <$> sj_frames j)).
  { intros j jb' Hj E. apply scx_place_spec in E as (l1 & l2 & El & -> & _); [|done].
    rewrite El. cbn [sj_frames upd]. rewrite !fmap_app, fmap_cons. cbn [sf_data].
    by rewrite Permutation_middle. }
  assert (Hshift : forall off, sf_data <$> sj_frames (scx_shift jb off) = sf_data <$> sj_frames jb).
  { intros off. cbn. rewrite <- list_fmap_compose. by apply list_fmap_ext. }
  unfold scx_put_spec. destruct (scx_place jb d ms ts) as [jb'|] eqn:E; [left; by eauto|].
  destruct (last (sj_frames jb)) as [tail|] eqn:El.
  - cbv zeta. case_if; [by right|]. set (off := ts - sf_ts tail - sf_ms tail).
    destruct (scx_place (scx_shift jb off) d ms ts) as [jb'|] eqn:E'.
    + left. split; [done|]. rewrite <- (Hshift off). apply Hplace; [by apply scx_shift_wf|done].
    + right. split; [done|]. apply Hshift.
  - left. split; [done|]. apply last_None in El. rewrite El. done.
Qed.

End scx_facts.

(** ** Properties *)

Section scx_properties.
Context {D : Type}.
Implicit Types (jb : scx_jb D).

Definition deliveries jb : list Z := sf_delivery <$> sj_frames jb.

(** The mutual recursion of [scx_jb_put], [scx_jb_put_first] and
    [resynch_jb] stops after at most one nested [scx_jb_put]: more depth
    changes nothing, the call returns OK or DROP, never fails an assertion on
    arguments within the asserted ranges, and keeps the state invariant. *)
Theorem scx_put_terminates jb d ms ts now n :
  scx_wf jb -> 2 <= ms -> 0 <= ts -> 0 <= now ->
  scx_jb_put_n (2 + n) jb d ms ts now = scx_jb_put jb d ms ts now
  /\ exists code jb', scx_jb_put jb d ms ts now = Ret (code, jb')
       /\ (code = SCX_JB_OK \/ code = SCX_JB_DROP) /\ scx_wf jb'.
Proof.
  intros Hwf Hms Hts Hnow. rewrite scx_jb_put_eq by done.
  split; [by apply (scx_jb_put_n_spec n)|].
  pose proof (scx_put_spec_wf jb d ms ts now Hwf Hms) as Hwf'.
  destruct (scx_put_spec jb d ms ts now) as [code jb'] eqn:E.
  exists code, jb'. split_and!; [done| |done].
  revert E. unfold scx_put_spec. repeat case_match; intros [= <- _]; auto.
Qed.

Lemma scx_place_deliveries jb d ms ts jb' :
  scx_wf jb -> scx_place jb d ms ts = Some jb' ->
  exists l1 l2 dl, deliveries jb = l1 ++ l2 /\ deliveries jb' = l1 ++ dl :: l2.
Proof.
  intros Hwf Hp. apply scx_place_spec in Hp as (l1 & l2 & El & -> & _); [|done].
  unfold deliveries. rewrite El. simpl. rewrite !fmap_app. simpl. eauto.
Qed.

Lemma deliveries_shift jb off : deliveries (scx_shift jb off) = deliveries jb.
Proof. apply fmap_shift_delivery. Qed.

(** A frame already in the buffer never changes its delivery time, even
    when the stream is resynchronised: DROP leaves all delivery times as they
    are, OK adds exactly one, and they stay strictly increasing. *)
Theorem scx_put_keeps_deliveries jb d ms ts now code jb' :
  scx_wf jb -> 2 <= ms -> 0 <= ts -> 0 <= now ->
  scx_jb_put jb d ms ts now = Ret (code, jb') ->
  (code = SCX_JB_DROP /\ deliveries jb' = deliveries jb)
  \/ (code = SCX_JB_OK /\ StronglySorted Z.lt (deliveries jb')
      /\ exists l1 l2 dl, deliveries jb = l1 ++ l2 /\ deliveries jb' = l1 ++ dl :: l2).
Proof.
  intros Hwf Hms Hts Hnow Hput. rewrite scx_jb_put_eq in Hput by done.
  pose proof (scx_put_spec_wf jb d ms ts now Hwf Hms) as Hwf'.
  injection Hput as Hput. rewrite Hput in Hwf'. simpl in Hwf'.
  assert (StronglySorted Z.lt (deliveries jb')) as Hs.
  { apply (StronglySorted_fmap sf_delivery before_f Z.lt); [done|apply Hwf']. }
  revert Hput. unfold scx_put_spec.
  destruct (scx_place jb d ms ts) eqn:E.
  { intros [= <- <-]. right. eauto using scx_place_deliveries. }
  destruct (last (sj_frames jb)) as [tail|] eqn:El.
  - case_if; [by intros [= <- <-]; left|].
    pose proof (scx_shift_wf jb (ts - sf_ts tail - sf_ms tail) Hwf) as Hwfs.
    destruct (scx_place (scx_shift _ _) d ms ts) eqn:E'; intros [= <- <-].
    + right. split_and!; try done. apply scx_place_deliveries in E'; [|done].
      by rewrite deliveries_shift in E'.
    + left. by rewrite deliveries_shift.
  - intros [= <- <-]. right. split_and!; try done.
    apply last_None in El. unfold deliveries. rewrite El. by exists [], [], (now + delay jb).
Qed.

Lemma scx_place_last jb d ms ts l tail :
  sj_frames jb = l ++ [tail] ->
  let dl := rxcore jb + delay jb + ts in
  sf_delivery tail + sf_ms tail <= dl -> 2 <= sf_ms tail ->
  next_delivery jb <= dl <= next_delivery jb + delay jb + scx_resync_threshold (sj_conf jb) ->
  scx_place jb d ms ts =
    Some (jb <| force_resynch := false |>
             <| sj_frames := sj_frames jb ++ [mk_scx_frame d ts ms dl] |>).
Proof.
  simpl. intros El Ht Hms Hn. unfold scx_place. rewrite El, rev_app_distr. simpl.
  case_if; b2p; [lia|]. case_if; b2p; [lia|]. case_if; b2p; [lia|].
  case_if; b2p.
  - exfalso. unfold scx_covered in E2. rewrite !orb_true_iff in E2. b2p. lia.
  - simpl. by rewrite rev_involutive.
Qed.

(** A resynchronisation, forced by a DTMF frame or by a jump of the
    timestamps, places the new frame right behind the last one (delivery and
    length of the last frame added), whatever its own timestamp, as long as
    that time is neither past nor too far ahead. *)
Theorem scx_resynch_appends jb d ms ts now l tail :
  scx_wf jb -> 2 <= ms -> 0 <= ts -> 0 <= now ->
  sj_frames jb = l ++ [tail] ->
  scx_place jb d ms ts = None ->
  force_resynch jb = true
    \/ scx_resync_threshold (sj_conf jb) <= Z.abs (ts - sf_ts tail - sf_ms tail) ->
  let dl := sf_delivery tail + sf_ms tail in
  next_delivery jb <= dl <= next_delivery jb + delay jb + scx_resync_threshold (sj_conf jb) ->
  exists jb', scx_jb_put jb d ms ts now = Ret (SCX_JB_OK, jb')
    /\ deliveries jb' = deliveries jb ++ [dl]
    /\ last (sj_frames jb') = Some (mk_scx_frame d ts ms dl)
    /\ force_resynch jb' = false.
Proof.
  intros Hwf Hms Hts Hnow El Hp Hf dl Hdl. rewrite scx_jb_put_eq by done.
  unfold scx_put_spec. rewrite Hp, El, last_snoc.
  set (off := ts - sf_ts tail - sf_ms tail) in *.
  replace (negb (force_resynch jb) && (Z.abs off <? scx_resync_threshold (sj_conf jb)))
    with false by (symmetry; apply andb_false_iff; destruct (force_resynch jb); simpl; lia).
  pose proof (scx_base _ Hwf) as Hb. pose proof (scx_ms _ Hwf) as Hm.
  rewrite El in Hb, Hm. apply Forall_app in Hb as [_ Hb]. apply Forall_app in Hm as [_ Hm].
  inversion_clear Hb as [|? ? Hb' _]. inversion_clear Hm as [|? ? Hm' _].
  assert (rxcore jb - off + delay jb + ts = dl) as Edl by (unfold off, dl; lia).
  rewrite (scx_place_last (scx_shift jb off) d ms ts
    ((fun f => f <| sf_ts := sf_ts f + off |>) <$> l) (tail <| sf_ts := sf_ts tail + off |>));
    simpl; rewrite ?Edl; try (unfold dl; simpl; lia).
  - eexists. split; [done|]. simpl. rewrite last_snoc. split_and!; try done.
    unfold deliveries. simpl. rewrite fmap_app. simpl. f_equal. apply fmap_shift_delivery.
  - by rewrite El, fmap_app.
Qed.

Lemma scx_get_cases jb now interpl :
  scx_wf jb -> 0 <= now -> 2 <= interpl ->
  exists code fo jb', scx_jb_get jb now interpl = Ret (code, fo, jb') /\ scx_wf jb' /\
  match fo with
  | Some f =>
    sj_frames jb = f :: sj_frames jb'
    /\ Forall (fun g => sf_delivery f < sf_delivery g) (sj_frames jb')
    /\ next_delivery jb <= now /\ next_delivery jb' = sf_delivery f + sf_ms f
    /\ (code = SCX_JB_OK /\ sf_delivery f <= now <= sf_delivery f + sf_ms f
        \/ code = SCX_JB_DROP /\ sf_delivery f + sf_ms f < now)
  | None =>
    sj_frames jb' = sj_frames jb
    /\ (code = SCX_JB_NOFRAME /\ now < next_delivery jb /\ jb' = jb
        \/ code = SCX_JB_INTERP /\ next_delivery jb <= now
           /\ next_delivery jb' = next_delivery jb + interpl
           /\ Forall (fun g => now < sf_delivery g) (sj_frames jb))
  end.
Proof.
  intros Hwf Hnow Hint.
  assert (exists code fo jb', scx_jb_get jb now interpl = Ret (code, fo, jb')) as (code & fo & jb' & E).
  { unfold scx_jb_get. replace (0 <=? now) with true by (symmetry; lia).
    replace (2 <=? interpl) with true by (symmetry; lia). simpl. unfold get_jb_head.
    repeat case_match; eauto; congruence. }
  exists code, fo, jb'. split; [done|]. split; [by eapply scx_jb_get_wf|].
  revert E. unfold scx_jb_get. replace (0 <=? now) with true by (symmetry; lia).
  replace (2 <=? interpl) with true by (symmetry; lia). simpl.
  case_if; b2p; [intros [= <- <- <-]; auto|].
  pose proof (scx_srt _ Hwf) as Hs. unfold get_jb_head.
  destruct (sj_frames jb) as [|f l] eqn:El.
  { intros [= <- <- <-]. simpl. split; [done|]. right. auto 6. }
  inversion_clear Hs as [|? ? Hs' Hf]. repeat case_if; b2p; intros [= <- <- <-]; simpl.
  - split_and!; auto.
  - split; [done|]. right. split_and!; auto. constructor; [lia|].
    eapply Forall_impl; [exact Hf|]. unfold before_f. intros g ?. lia.
  - split_and!; auto.
Qed.

(** [scx_jb_get] never reorders or plays at the wrong time: a frame
    handed out is the earliest one, it is OK exactly when [now] lies between
    its delivery time and its end and DROP when its end is past, the frames
    left are the others and are all later; without a frame the buffer is
    unchanged and the next delivery moves by the interpolation length. *)
Theorem scx_get_spec jb now interpl :
  scx_wf jb -> 0 <= now -> 2 <= interpl ->
  exists code fo jb', scx_jb_get jb now interpl = Ret (code, fo, jb') /\ scx_wf jb' /\
  match fo with
  | Some f =>
    sj_frames jb = f :: sj_frames jb'
    /\ Forall (fun g => sf_delivery f < sf_delivery g) (sj_frames jb')
    /\ next_delivery jb <= now /\ next_delivery jb' = sf_delivery f + sf_ms f
    /\ (code = SCX_JB_OK /\ sf_delivery f <= now <= sf_delivery f + sf_ms f
        \/ code = SCX_JB_DROP /\ sf_delivery f + sf_ms f < now)
  | None =>
    sj_frames jb' = sj_frames jb
    /\ (code = SCX_JB_NOFRAME /\ now < next_delivery jb /\ jb' = jb
        \/ code = SCX_JB_INTERP /\ next_delivery jb <= now
           /\ next_delivery jb' = next_delivery jb + interpl
           /\ Forall (fun g => now < sf_delivery g) (sj_frames jb))
  end.
Proof. exact (scx_get_cases jb now interpl). Qed.

End scx_properties.

(** The check that a new frame does not run into its successor is made
    only when there is a frame before it: a frame put at the head of the list
    may overlap the one that was first. *)
Theorem scx_head_overlap :
  exists (jb0 : scx_jb nat) jb1 jb2 jb3 jb4 f1 f2 fo,
    scx_jb_new true (mk_scx_conf 100 100) = Some jb0
    /\ scx_jb_put_first jb0 1%nat 20 100 0 = Ret (SCX_JB_OK, jb1)
    /\ scx_jb_get jb1 100 20 = Ret (SCX_JB_OK, fo, jb2)
    /\ scx_jb_put jb2 2%nat 20 200 100 = Ret (SCX_JB_OK, jb3)
    /\ scx_jb_put jb3 3%nat 20 190 100 = Ret (SCX_JB_OK, jb4)
    /\ sj_frames jb4 = [f1; f2]
    /\ sf_delivery f2 < sf_delivery f1 + sf_ms f1.
Proof.
  do 8 eexists. split; [vm_compute; reflexivity|]. split; [vm_compute; reflexivity|].
  split; [vm_compute; reflexivity|]. split; [vm_compute; reflexivity|].
  split; [vm_compute; reflexivity|]. split; [reflexivity|]. reflexivity.
Qed.

(** ** Witnesses *)

Definition wit_scx : scx_jb nat :=
  mk_scx [mk_scx_frame 1%nat 100 20 100; mk_scx_frame 2%nat 120 20 120]
    (mk_scx_conf 100 100) (-100) 100 100 false.

Lemma wit_scx_wf : scx_wf wit_scx.
Proof. split; simpl; try lia; repeat constructor; unfold before_f; simpl; lia. Qed.

Lemma scx_put_terminates_witness :
  scx_jb_put_n 7 wit_scx 9%nat 20 5000 30 = scx_jb_put wit_scx 9%nat 20 5000 30.
Proof.
  exact (proj1 (scx_put_terminates wit_scx 9%nat 20 5000 30 5 wit_scx_wf
    ltac:(lia) ltac:(lia) ltac:(lia))).
Defined.

Lemma scx_put_keeps_deliveries_witness :
  exists jb', scx_jb_put wit_scx 9%nat 20 140 30 = Ret (SCX_JB_OK, jb')
    /\ StronglySorted Z.lt (deliveries jb').
Proof.
  destruct (scx_jb_put wit_scx 9%nat 20 140 30) as [[c jb']| |] eqn:E;
    [|vm_compute in E; discriminate|vm_compute in E; discriminate].
  pose proof (scx_put_keeps_deliveries wit_scx 9%nat 20 140 30 c jb' wit_scx_wf
    ltac:(lia) ltac:(lia) ltac:(lia) E) as [[-> _]|(-> & Hs & _)].
  - vm_compute in E. discriminate.
  - exists jb'. auto.
Defined.

Lemma scx_resynch_appends_witness :
  exists jb', scx_jb_put wit_scx 9%nat 20 5000 30 = Ret (SCX_JB_OK, jb')
    /\ deliveries jb' = [100; 120; 140].
Proof.
  assert (scx_place wit_scx 9%nat 20 5000 = None) as Hp by (vm_compute; reflexivity).
  assert (force_resynch wit_scx = true
    \/ 100 <= Z.abs (5000 - sf_ts (mk_scx_frame 2%nat 120 20 120) - 20)) as Hf
    by (right; vm_compute; discriminate).
  assert (100 <= 140 <= 100 + 100 + 100) as Hd by lia.
  destruct (scx_resynch_appends wit_scx 9%nat 20 5000 30
    [mk_scx_frame 1%nat 100 20 100] (mk_scx_frame 2%nat 120 20 120) wit_scx_wf
    ltac:(lia) ltac:(lia) ltac:(lia) eq_refl Hp Hf Hd) as (jb' & H1 & H2 & _).
  exists jb'. auto.
Defined.

Lemma scx_get_spec_witness :
  exists code fo jb', scx_jb_get wit_scx 105 20 = Ret (code, fo, jb') /\ scx_wf jb'.
Proof.
  destruct (scx_get_spec wit_scx 105 20 wit_scx_wf ltac:(lia) ltac:(lia))
    as (code & fo & jb' & H1 & H2 & _). eauto.
Defined.
