(* ===== verification/JbStevek.v ===== *)
(** * The adaptive jitter buffer (corelib/jitterbuffer/jitterbuf_stevek.c)

    Frames wait in a circular list sorted by timestamp ([jb->frames] is the
    earliest); the model keeps it as a list, earliest first.  A ring of the
    last JB_HISTORY_SZ delays gives the jitter estimate, through two cached
    buffers with the largest and the smallest delays.  [long] is 64 bits wide
    and kept as [Z]; the [int] argument of [abs] is narrowed explicitly;
    [hist_ptr] counts frames since the last resync and is assumed below 2^31.
    Memory comes from the free list first, then from [malloc], whose outcome
    is an argument.  The three output hooks (warnings, debugging) are not
    modelled. *)

From S2P Require Import Prelude TopBuf.

Definition JB_LONGMAX : Z := 2147483647.
Definition JB_LONGMIN : Z := - JB_LONGMAX - 1.

Definition JB_HISTORY_SZ : Z := 500.
Definition JB_HISTORY_DROPPCT : Z := 3.
Definition JB_HISTORY_DROPPCT_MAX : Z := 4.
Definition JB_HISTORY_MAXBUF_SZ : Z := Z.quot (JB_HISTORY_SZ * JB_HISTORY_DROPPCT_MAX) 100.
Definition JB_TARGET_EXTRA : Z := 40.
Definition JB_ADJUST_DELAY : Z := 40.

Definition JB_OK : Z := 0.
Definition JB_EMPTY : Z := 1.
Definition JB_NOFRAME : Z := 2.
Definition JB_INTERP : Z := 3.
Definition JB_DROP : Z := 4.
Definition JB_SCHED : Z := 5.

Definition JB_TYPE_CONTROL : Z := 0.
Definition JB_TYPE_VOICE : Z := 1.
Definition JB_TYPE_VIDEO : Z := 2.
Definition JB_TYPE_SILENCE : Z := 3.

Record jb_conf := mk_jb_conf {
  max_jitterbuf : Z;
  min_jitterbuf : Z;
  resync_threshold : Z;
  max_contig_interp : Z;
}.

(** [cw_jb_info] of generic_jb.h; the fields after [i_cnt_contig_interp] are
    used by the SpeakUp buffer alone and stay 0 here. *)
Record cw_jb_info := mk_jb_info {
  i_frames_in : Z;
  i_frames_out : Z;
  i_frames_late : Z;
  i_frames_lost : Z;
  i_frames_dropped : Z;
  i_frames_ooo : Z;
  i_frames_cur : Z;
  i_jitter : Z;
  i_min : Z;
  i_current : Z;
  i_target : Z;
  i_losspct : Z;
  i_next_voice_ts : Z;
  i_last_voice_ms : Z;
  i_silence_begin_ts : Z;
  i_last_adjustment : Z;
  i_last_delay : Z;
  i_cnt_delay_discont : Z;
  i_resync_offset : Z;
  i_cnt_contig_interp : Z;
  i_delay : Z;
  i_delay_target : Z;
  i_frames_received : Z;
  i_frames_dropped_twice : Z;
  i_silence : Z;
  i_iqr : Z;
}.

#[export] Instance eta_cw_jb_info : Eta cw_jb_info := fun i =>
  mk_jb_info (i_frames_in i) (i_frames_out i) (i_frames_late i) (i_frames_lost i)
    (i_frames_dropped i) (i_frames_ooo i) (i_frames_cur i) (i_jitter i) (i_min i)
    (i_current i) (i_target i) (i_losspct i) (i_next_voice_ts i) (i_last_voice_ms i)
    (i_silence_begin_ts i) (i_last_adjustment i) (i_last_delay i)
    (i_cnt_delay_discont i) (i_resync_offset i) (i_cnt_contig_interp i)
    (i_delay i) (i_delay_target i) (i_frames_received i) (i_frames_dropped_twice i)
    (i_silence i) (i_iqr i).

(** [memset] to zero. *)
Definition jb_info_zero : cw_jb_info :=
  mk_jb_info 0 0 0 0 0 0 0 0 0 0 0 0 0 0 0 0 0 0 0 0 0 0 0 0 0 0.

Section stevek.
Context {D : Type}.

Record jb_frame := mk_jb_frame {
  jf_data : D;
  jf_ts : Z;
  jf_ms : Z;
  jf_type : Z;
}.

Record jitterbuf := mk_jitterbuf {
  jconf : jb_conf;
  info : cw_jb_info;
  history : list Z;
  hist_ptr : Z;
  hist_maxbuf : list Z;
  hist_minbuf : list Z;
  hist_maxbuf_valid : bool;
  force_resync : bool;
  frames : list jb_frame;
  free_frames : list jb_frame;
}.

#[export] Instance eta_jitterbuf : Eta jitterbuf := fun j =>
  mk_jitterbuf (jconf j) (info j) (history j) (hist_ptr j) (hist_maxbuf j) (hist_minbuf j)
    (hist_maxbuf_valid j) (force_resync j) (frames j) (free_frames j).

(** Update of the statistics. *)
Definition on_info (g : cw_jb_info -> cw_jb_info) (jb : jitterbuf) : jitterbuf :=
  jb <| info := g (info jb) |>.

Definition increment_losspct (jb : jitterbuf) : jitterbuf :=
  on_info (fun i => i <| i_losspct := Z.quot (100000 + 499 * i_losspct i) 500 |>) jb.

Definition decrement_losspct (jb : jitterbuf) : jitterbuf :=
  on_info (fun i => i <| i_losspct := Z.quot (499 * i_losspct i) 500 |>) jb.

Definition jb_reset (jb : jitterbuf) : jitterbuf :=
  let s := jconf jb in
  mk_jitterbuf s
    (jb_info_zero <| i_current := min_jitterbuf s |> <| i_target := min_jitterbuf s |>
                  <| i_silence_begin_ts := -1 |>)
    (replicate (Z.to_nat JB_HISTORY_SZ) 0) 0
    (replicate (Z.to_nat JB_HISTORY_MAXBUF_SZ) 0)
    (replicate (Z.to_nat JB_HISTORY_MAXBUF_SZ) 0)
    false false [] [].

(** [jb_new] resets uninitialised memory, keeping the configuration found
    there. *)
Definition jb_new (malloc_ok : bool) (uninit : jitterbuf) : option jitterbuf :=
  if malloc_ok then Some (jb_reset uninit) else None.

(** What [jb_destroy] frees: the frames on the free list. *)
Definition jb_destroy (jb : jitterbuf) : list jb_frame := free_frames jb.

Definition resync (jb : jitterbuf) (ts now : Z) : jitterbuf :=
  on_info (fun i => i <| i_cnt_delay_discont := 0 |>
                      <| i_resync_offset := ts - now |>
                      <| i_last_delay := 0 |>)
    (jb <| hist_ptr := 0 |> <| hist_maxbuf_valid := false |> <| force_resync := false |>).

(** [a\[i % JB_HISTORY_SZ\]] *)
Definition hist_index (i : Z) : nat := Z.to_nat (Z.rem i JB_HISTORY_SZ).
Definition hist_read (jb : jitterbuf) (i : Z) : Z := nth (hist_index i) (history jb) 0.

(** The last entry of one of the two cached buffers. *)
Definition maxbuf_last : nat := Z.to_nat (JB_HISTORY_MAXBUF_SZ - 1).
Definition buf_last (buf : list Z) : Z := nth maxbuf_last buf 0.

(** The end of [history_put]: store the delay, drop the cached buffers unless
    neither the new delay nor the one it overwrites can be in them. *)
Definition history_store (jb : jitterbuf) (delay : Z) : jitterbuf :=
  let kicked := hist_read jb (hist_ptr jb) in
  let jb := jb <| history := <[hist_index (hist_ptr jb) := delay]> (history jb) |>
               <| hist_ptr := hist_ptr jb + 1 |> in
  if negb (hist_maxbuf_valid jb) then jb
  else if (hist_ptr jb <? JB_HISTORY_SZ)
          || (delay <? buf_last (hist_minbuf jb))
          || (buf_last (hist_maxbuf jb) <? delay)
          || (kicked <=? buf_last (hist_minbuf jb))
          || (buf_last (hist_maxbuf jb) <=? kicked)
  then jb <| hist_maxbuf_valid := false |>
  else jb.

(** C's [abs] on a [long] argument: narrowed to [int] first. *)
Definition c_abs (x : Z) : Z := s32 (Z.abs (s32 x)).

Definition history_put (jb : jitterbuf) (ts now ms : Z) : Z * jitterbuf :=
  let delay := now - (ts - i_resync_offset (info jb)) in
  let threshold := 2 * i_jitter (info jb) + resync_threshold (jconf jb) in
  let '(delay, jb) := if force_resync jb then (0, resync jb ts now) else (delay, jb) in
  if ts <=? 0 then (0, jb)
  else if negb (resync_threshold (jconf jb) =? -1) then
    if threshold <? c_abs (delay - i_last_delay (info jb)) then
      let jb := on_info (fun i => i <| i_cnt_delay_discont := i_cnt_delay_discont i + 1 |>) jb in
      if 3 <? i_cnt_delay_discont (info jb) then
        (0, history_store (resync jb ts now) 0)
      else (-1, jb)
    else
      (0, history_store
            (on_info (fun i => i <| i_last_delay := delay |> <| i_cnt_delay_discont := 0 |>) jb)
            delay)
  else (0, history_store jb delay).

(** The positions the loop visits, and the delays found there. *)
Definition hist_window (jb : jitterbuf) : list Z :=
  let start := if JB_HISTORY_SZ <? hist_ptr jb then hist_ptr jb - JB_HISTORY_SZ else 0 in
  hist_read jb <$> seqZ start (hist_ptr jb - start).

Definition history_calc_maxbuf (jb : jitterbuf) : jitterbuf :=
  if hist_ptr jb =? 0 then jb
  else
    let maxbuf := replicate (Z.to_nat JB_HISTORY_MAXBUF_SZ) JB_LONGMIN in
    let minbuf := replicate (Z.to_nat JB_HISTORY_MAXBUF_SZ) JB_LONGMAX in
    jb <| hist_maxbuf := foldl (buf_offer (fun x b => b <? x) maxbuf_last) maxbuf (hist_window jb) |>
       <| hist_minbuf := foldl (buf_offer (fun x b => x <? b) maxbuf_last) minbuf (hist_window jb) |>
       <| hist_maxbuf_valid := true |>.

Definition history_get (jb : jitterbuf) : jitterbuf :=
  let jb := if hist_maxbuf_valid jb then jb else history_calc_maxbuf jb in
  let count := if hist_ptr jb <? JB_HISTORY_SZ then hist_ptr jb else JB_HISTORY_SZ in
  let index := Z.quot (count * JB_HISTORY_DROPPCT) 100 in
  let index :=
    if JB_HISTORY_MAXBUF_SZ - 1 <? index then JB_HISTORY_MAXBUF_SZ - 1 else index in
  if index <? 0 then on_info (fun i => i <| i_min := 0 |> <| i_jitter := 0 |>) jb
  else
    let max := nth (Z.to_nat index) (hist_maxbuf jb) 0 in
    let min := nth (Z.to_nat index) (hist_minbuf jb) 0 in
    let jitter := max - min in
    on_info (fun i => i <| i_min := min |> <| i_jitter := jitter |>) jb.

(** The walk of [queue_put] from the last frame towards the second: past the
    frames with a later timestamp. *)
Fixpoint queue_walk (ts : Z) (before after : list jb_frame)
    : list jb_frame * list jb_frame :=
  match before with
  | [] => ([], after)
  | p :: prev =>
    if ts <? jf_ts p then queue_walk ts prev (p :: after) else (before, after)
  end.

(** A frame structure from the free list, else from [malloc]. *)
Definition frame_alloc (malloc_ok : bool) (jb : jitterbuf) : bool * jitterbuf :=
  match free_frames jb with
  | _ :: next => (true, jb <| free_frames := next |>)
  | [] => (malloc_ok, jb)
  end.

(** Returns 1 if the frame became the head of the queue. *)
Definition queue_put (malloc_ok : bool) (jb : jitterbuf) (data : D) (type ms ts : Z)
    : Z * jitterbuf :=
  let resync_ts := ts - i_resync_offset (info jb) in
  let '(ok, jb) := frame_alloc malloc_ok jb in
  if negb ok then (0, jb)
  else
    let jb := on_info (fun i => i <| i_frames_cur := i_frames_cur i + 1 |>) jb in
    let frame := mk_jb_frame data resync_ts ms type in
    match frames jb with
    | [] => (1, jb <| frames := [frame] |>)
    | head :: rest =>
      if resync_ts <? jf_ts head then
        (1, on_info (fun i => i <| i_frames_ooo := i_frames_ooo i + 1 |>)
              (jb <| frames := frame :: head :: rest |>))
      else
        let jb :=
          if resync_ts <? jf_ts (List.last rest head) then
            on_info (fun i => i <| i_frames_ooo := i_frames_ooo i + 1 |>) jb
          else jb in
        let '(before, after) := queue_walk resync_ts (rev rest) [] in
        (0, jb <| frames := head :: rev before ++ frame :: after |>)
    end.

Definition queue_next (jb : jitterbuf) : Z :=
  match frames jb with [] => -1 | head :: _ => jf_ts head end.

Definition queue_last (jb : jitterbuf) : Z :=
  match frames jb with [] => -1 | head :: rest => jf_ts (List.last rest head) end.

Definition _queue_get (jb : jitterbuf) (ts : Z) (all : bool) : option jb_frame * jitterbuf :=
  match frames jb with
  | [] => (None, jb)
  | frame :: rest =>
    if all || (jf_ts frame <=? ts) then
      (Some frame,
       on_info (fun i => i <| i_frames_cur := i_frames_cur i - 1 |>)
         (jb <| frames := rest |> <| free_frames := frame :: free_frames jb |>))
    else (None, jb)
  end.

Definition queue_get (jb : jitterbuf) (ts : Z) : option jb_frame * jitterbuf :=
  _queue_get jb ts false.

Definition queue_getall (jb : jitterbuf) : option jb_frame * jitterbuf :=
  _queue_get jb 0 true.

Definition jb_put (malloc_ok : bool) (jb : jitterbuf) (data : D) (type ms ts now : Z)
    : Z * jitterbuf :=
  let jb := on_info (fun i => i <| i_frames_in := i_frames_in i + 1 |>) jb in
  let '(r, jb) := if type =? JB_TYPE_VOICE then history_put jb ts now ms else (0, jb) in
  if negb (r =? 0) then (JB_DROP, jb)
  else
    let '(head, jb) := queue_put malloc_ok jb data type ms ts in
    if negb (head =? 0) then (JB_SCHED, jb) else (JB_OK, jb).

(** The start of [_jb_get]: the jitter estimate and the new target. *)
Definition jb_retarget (jb : jitterbuf) : jitterbuf :=
  let jb := history_get jb in
  let jb := on_info (fun i => i <| i_target := i_jitter i + i_min i + JB_TARGET_EXTRA |>) jb in
  let i := info jb in
  if negb (max_jitterbuf (jconf jb) =? 0)
     && (max_jitterbuf (jconf jb) <? i_target i - i_min i)
  then on_info (fun i => i <| i_target := i_min i + max_jitterbuf (jconf jb) |>) jb
  else jb.

(** Interpolating too long switches to silence. *)
Definition jb_interp_silence (jb : jitterbuf) : jitterbuf :=
  if negb (max_contig_interp (jconf jb) =? 0)
     && (max_contig_interp (jconf jb) <=? i_cnt_contig_interp (info jb))
  then on_info (fun i => i <| i_silence_begin_ts := i_next_voice_ts i - i_current i |>) jb
  else jb.

(** [_jb_get] returns a code; [frameout] is written when a frame left the
    queue. *)
Definition jb_result : Type := Z * option jb_frame * jitterbuf.

(** The non-silent case once a frame was asked of the queue. *)
Definition jb_get_voice (jb : jitterbuf) (frame : option jb_frame) (diff now interpl : Z)
    : jb_result :=
  let late :=
    match frame with
    | Some f => jf_ts f + i_current (info jb) <? i_next_voice_ts (info jb)
    | None => false
    end in
  match frame, late with
  | Some f, true =>
    if i_next_voice_ts (info jb) - i_last_voice_ms (info jb) <? jf_ts f + i_current (info jb) then
      let jb := on_info (fun i => i <| i_next_voice_ts := jf_ts f + i_current i + jf_ms f |>
                                    <| i_frames_out := i_frames_out i + 1 |>) jb in
      let jb := decrement_losspct jb in
      (JB_OK, frame, on_info (fun i => i <| i_cnt_contig_interp := 0 |>) jb)
    else
      let jb := on_info (fun i => i <| i_frames_out := i_frames_out i + 1 |>) jb in
      let jb := decrement_losspct jb in
      (JB_DROP, frame,
       on_info (fun i => i <| i_frames_late := i_frames_late i + 1 |>
                           <| i_frames_lost := i_frames_lost i - 1 |>) jb)
  | _, _ =>
    let jb :=
      match frame with
      | Some f => if 0 <? jf_ms f then on_info (fun i => i <| i_last_voice_ms := jf_ms f |>) jb
                  else jb
      | None => jb
      end in
    let no_frame := match frame with Some _ => false | None => true end in
    if (diff <? - JB_TARGET_EXTRA)
       && ((no_frame && (i_last_adjustment (info jb) + 80 <? now))
           || (i_last_adjustment (info jb) + 500 <? now)) then
      let jb := on_info (fun i => i <| i_last_adjustment := now |>
                                    <| i_cnt_contig_interp := 0 |>) jb in
      match frame with
      | Some f =>
        let jb := on_info (fun i => i <| i_current := i_current i - jf_ms f |>
                                      <| i_frames_out := i_frames_out i + 1 |>) jb in
        let jb := decrement_losspct jb in
        (JB_DROP, frame, on_info (fun i => i <| i_frames_dropped := i_frames_dropped i + 1 |>) jb)
      | None =>
        let jb := on_info (fun i => i <| i_current := i_current i - i_last_voice_ms i |>
                                      <| i_frames_lost := i_frames_lost i + 1 |>) jb in
        (JB_NOFRAME, None, increment_losspct jb)
      end
    else
      match frame with
      | None =>
        let jb := on_info (fun i => i <| i_frames_lost := i_frames_lost i + 1 |>) jb in
        let jb := increment_losspct jb in
        let jb := on_info (fun i => i <| i_next_voice_ts := i_next_voice_ts i + interpl |>
                                      <| i_last_voice_ms := interpl |>
                                      <| i_cnt_contig_interp := i_cnt_contig_interp i + 1 |>) jb in
        (JB_INTERP, None, jb_interp_silence jb)
      | Some f =>
        let jb := on_info (fun i => i <| i_next_voice_ts := i_next_voice_ts i + jf_ms f |>
                                      <| i_frames_out := i_frames_out i + 1 |>
                                      <| i_cnt_contig_interp := 0 |>) jb in
        (JB_OK, frame, decrement_losspct jb)
      end
  end.

(** [_jb_get] when [silence_begin_ts] is 0. *)
Definition jb_get_nonsilent (jb : jitterbuf) (diff now interpl : Z) : jb_result :=
  if (0 <? diff)
     && ((i_last_adjustment (info jb) + JB_ADJUST_DELAY <? now)
         || (queue_last jb - queue_next jb <? diff)) then
    let jb := on_info (fun i => i <| i_current := i_current i + interpl |>
                                  <| i_next_voice_ts := i_next_voice_ts i + interpl |>
                                  <| i_last_voice_ms := interpl |>
                                  <| i_last_adjustment := now |>
                                  <| i_cnt_contig_interp := i_cnt_contig_interp i + 1 |>) jb in
    (JB_INTERP, None, jb_interp_silence jb)
  else
    let '(frame, jb) := queue_get jb (i_next_voice_ts (info jb) - i_current (info jb)) in
    match frame with
    | Some f =>
      if negb (jf_type f =? JB_TYPE_VOICE) then
        let jb :=
          if jf_type f =? JB_TYPE_SILENCE then
            on_info (fun i => i <| i_silence_begin_ts := jf_ts f |>
                                <| i_cnt_contig_interp := 0 |>) jb
          else jb in
        (JB_OK, frame, on_info (fun i => i <| i_frames_out := i_frames_out i + 1 |>) jb)
      else jb_get_voice jb frame diff now interpl
    | None => jb_get_voice jb None diff now interpl
    end.

(** [_jb_get] in silence. *)
Definition jb_get_silent (jb : jitterbuf) (diff now interpl : Z) : jb_result :=
  let jb :=
    if (diff <? - JB_TARGET_EXTRA) && (i_last_adjustment (info jb) + 10 <=? now) then
      on_info (fun i => i <| i_current := i_current i - interpl |>
                          <| i_last_adjustment := now |>) jb
    else jb in
  let '(frame, jb) := queue_get jb (now - i_current (info jb)) in
  match frame with
  | None => (JB_NOFRAME, None, jb)
  | Some f =>
    if negb (jf_type f =? JB_TYPE_VOICE) then
      (JB_OK, frame, on_info (fun i => i <| i_frames_out := i_frames_out i + 1 |>) jb)
    else if jf_ts f <? i_silence_begin_ts (info jb) then
      let jb := on_info (fun i => i <| i_frames_out := i_frames_out i + 1 |>) jb in
      let jb := decrement_losspct jb in
      (JB_DROP, frame,
       on_info (fun i => i <| i_frames_late := i_frames_late i + 1 |>
                           <| i_frames_lost := i_frames_lost i - 1 |>) jb)
    else
      let jb := on_info (fun i => i <| i_current := i_target i |>
                                    <| i_silence_begin_ts := 0 |>) jb in
      let jb := on_info (fun i => i <| i_next_voice_ts := jf_ts f + i_current i + jf_ms f |>
                                    <| i_last_voice_ms := jf_ms f |>
                                    <| i_frames_out := i_frames_out i + 1 |>) jb in
      (JB_OK, frame, decrement_losspct jb)
  end.

Definition _jb_get (jb : jitterbuf) (now interpl : Z) : jb_result :=
  let jb := jb_retarget jb in
  let diff := i_target (info jb) - i_current (info jb) in
  if i_silence_begin_ts (info jb) =? 0 then jb_get_nonsilent jb diff now interpl
  else jb_get_silent jb diff now interpl.

(** The next time a frame is due; in silence the jitter estimate is refreshed. *)
Definition jb_next (jb : jitterbuf) : Z * jitterbuf :=
  if negb (i_silence_begin_ts (info jb) =? 0) then
    let next := queue_next jb in
    if 0 <=? next then
      let jb := history_get jb in
      if i_target (info jb) - i_current (info jb) <? - JB_TARGET_EXTRA then
        (i_last_adjustment (info jb) + 10, jb)
      else (next + i_target (info jb), jb)
    else (JB_LONGMAX, jb)
  else (i_next_voice_ts (info jb), jb).

(** [jb_get] also tells how long to interpolate: [frameout->ms]. *)
Definition jb_get (jb : jitterbuf) (now interpl : Z) : jb_result * option Z :=
  let '(ret, frameout, jb) := _jb_get jb now interpl in
  ((ret, frameout, jb),
   if ret =? JB_INTERP then Some (i_last_voice_ms (info jb)) else jf_ms <$> frameout).

Definition jb_getall (jb : jitterbuf) : jb_result :=
  let '(frame, jb) := queue_getall jb in
  match frame with
  | None => (JB_NOFRAME, None, jb)
  | Some f => (JB_OK, Some f, jb)
  end.

Definition jb_getinfo (jb : jitterbuf) : Z * cw_jb_info * jitterbuf :=
  let jb := history_get jb in (JB_OK, info jb, jb).

Definition jb_setconf (jb : jitterbuf) (conf : jb_conf) : Z * jitterbuf :=
  let min := if min_jitterbuf conf =? -1 then JB_TARGET_EXTRA else min_jitterbuf conf in
  let jb := on_info (fun i => i <| i_target := min |>)
    (jb <| jconf := mk_jb_conf (max_jitterbuf conf) min (resync_threshold conf)
                      (max_contig_interp conf) |>) in
  (JB_OK, jb_reset jb).

End stevek.

Arguments jb_frame : clear implicits.
Arguments jitterbuf : clear implicits.

(** ** Invariants *)

Abbreviation above := (fun x b : Z => b <? x).
Abbreviation below := (fun x b : Z => x <? b).

Section stevek_facts.
Context {D : Type}.
Implicit Types (jb : jitterbuf D) (f : jb_frame D).

Definition ts_le f f' : Prop := jf_ts f <= jf_ts f'.

(** The queue: in timestamp order, and counted by [frames_cur]. *)
Record jb_queue_ok jb : Prop := {
  jq_sorted : StronglySorted ts_le (frames jb);
  jq_count : i_frames_cur (info jb) = Z.of_nat (length (frames jb));
}.

(** The loss percentage, in thousandths of a percent. *)
Definition jb_loss_ok jb : Prop := 0 <= i_losspct (info jb) <= 100000.

(** Same queue, with the statistics free to change but for the frame count. *)
Definition same_queue jb jb' : Prop :=
  frames jb' = frames jb /\ i_frames_cur (info jb') = i_frames_cur (info jb).

Definition same_history jb jb' : Prop :=
  history jb' = history jb /\ hist_ptr jb' = hist_ptr jb
  /\ hist_maxbuf jb' = hist_maxbuf jb /\ hist_minbuf jb' = hist_minbuf jb
  /\ hist_maxbuf_valid jb' = hist_maxbuf_valid jb.

#[local] Instance same_queue_preorder : PreOrder same_queue.
Proof. unfold same_queue. split; [intros ?|intros ???]; intuition congruence. Qed.

#[local] Instance same_history_preorder : PreOrder same_history.
Proof. unfold same_history. split; [intros ?|intros ???]; intuition congruence. Qed.

Lemma same_queue_ok jb jb' : same_queue jb jb' -> jb_queue_ok jb -> jb_queue_ok jb'.
Proof. intros [Ef Ec] []. split; by rewrite ?Ef, ?Ec. Qed.

Lemma increment_loss_ok jb : jb_loss_ok jb -> jb_loss_ok (increment_losspct jb).
Proof.
  unfold jb_loss_ok. simpl. intros H. rewrite Z.quot_div_nonneg by lia.
  split; [apply Z.div_pos; lia|]. apply Z.div_le_upper_bound; lia.
Qed.

Lemma decrement_loss_ok jb : jb_loss_ok jb -> jb_loss_ok (decrement_losspct jb).
Proof.
  unfold jb_loss_ok. simpl. intros H. rewrite Z.quot_div_nonneg by lia.
  split; [apply Z.div_pos; lia|]. apply Z.div_le_upper_bound; lia.
Qed.

(** Updates of statistics that do not touch the loss percentage. *)
Lemma on_info_loss_ok g jb :
  (forall i, i_losspct (g i) = i_losspct i) -> jb_loss_ok jb -> jb_loss_ok (on_info g jb).
Proof. unfold jb_loss_ok. simpl. intros ->. done. Qed.

Lemma jb_interp_silence_same jb :
  same_queue jb (jb_interp_silence jb) /\ same_history jb (jb_interp_silence jb)
  /\ i_losspct (info (jb_interp_silence jb)) = i_losspct (info jb).
Proof. unfold jb_interp_silence. case_if; done. Qed.

Lemma jb_get_voice_same jb fr diff now interpl :
  let '(code, fo, jb') := jb_get_voice jb fr diff now interpl in
  fo = fr /\ same_queue jb jb' /\ same_history jb jb'
  /\ (jb_loss_ok jb -> jb_loss_ok jb')
  /\ match fr with
     | Some _ => code = JB_OK \/ code = JB_DROP
     | None => code = JB_INTERP \/ code = JB_NOFRAME
     end.
Proof.
  unfold jb_get_voice. destruct fr as [f|]; [destruct (_ <? _)|].
  - case_if; (split; [done|split; [done|split; [done|split; [|auto]]]]); intros Hl;
      (apply on_info_loss_ok; [done|]); apply decrement_loss_ok; by apply on_info_loss_ok.
  - destruct (0 <? jf_ms f); case_if;
      (split; [done|split; [done|split; [done|split; [|auto]]]]); intros Hl;
      try (apply on_info_loss_ok; [done|]); by apply decrement_loss_ok.
  - case_if.
    + split; [done|split; [done|split; [done|split; [|auto]]]].
      intros Hl. by apply increment_loss_ok.
    + match goal with |- context [jb_interp_silence ?j] =>
        destruct (jb_interp_silence_same j) as (Hq & Hh & Hlo) end.
      split; [done|split; [by etrans; [|exact Hq]|split; [by etrans; [|exact Hh]|split; [|auto]]]].
      intros Hl. unfold jb_loss_ok. rewrite Hlo. by apply increment_loss_ok.
Qed.

(** What leaves the queue through [_queue_get]. *)
Lemma queue_get_spec jb ts all :
  let '(fo, jb') := _queue_get jb ts all in
  same_history jb jb' /\ i_losspct (info jb') = i_losspct (info jb)
  /\ (jb_queue_ok jb -> jb_queue_ok jb')
  /\ match fo with
     | Some f => frames jb = f :: frames jb' /\ (all = true \/ jf_ts f <= ts)
     | None => jb' = jb /\ (frames jb = [] \/ (all = false /\ ts < queue_next jb))
     end.
Proof.
  unfold _queue_get, queue_next. destruct (frames jb) as [|f rest] eqn:E.
  { split; [done|split; [done|split; [done|auto]]]. }
  destruct all; simpl; [|case_if; b2p]; simpl; (split; [done|split; [done|split]]); auto 6.
  - intros []. rewrite E in *. inversion_clear jq_sorted0. split; simpl in *; [done|lia].
  - intros []. rewrite E in *. inversion_clear jq_sorted0. split; simpl in *; [done|lia].
Qed.

(** One call of the buffer for a frame: the frame handed out is the head of
    the queue, with the code OK or DROP; without a frame the queue is as
    before. *)
Definition get_outcome jb (r : jb_result) : Prop :=
  let '(code, fo, jb') := r in
  (jb_queue_ok jb -> jb_queue_ok jb') /\ (jb_loss_ok jb -> jb_loss_ok jb')
  /\ same_history jb jb'
  /\ match fo with
     | Some f => frames jb = f :: frames jb' /\ (code = JB_OK \/ code = JB_DROP)
     | None => frames jb' = frames jb /\ (code = JB_INTERP \/ code = JB_NOFRAME)
     end.

Lemma get_outcome_pre jb0 jb r :
  same_queue jb0 jb -> same_history jb0 jb ->
  i_losspct (info jb) = i_losspct (info jb0) ->
  get_outcome jb r -> get_outcome jb0 r.
Proof.
  intros [Hq Hc] Hh Hl. destruct r as [[code fo] jb']. intros (H1 & H2 & H3 & H4).
  split; [|split; [|split]].
  - intros Hok. by apply H1, (same_queue_ok jb0).
  - intros Hok. apply H2. unfold jb_loss_ok in *. by rewrite Hl.
  - by etrans.
  - by rewrite <- Hq.
Qed.

Lemma jb_get_nonsilent_outcome jb diff now interpl :
  get_outcome jb (jb_get_nonsilent jb diff now interpl).
Proof.
  unfold jb_get_nonsilent. case_if.
  - match goal with |- context [jb_interp_silence ?j] =>
      destruct (jb_interp_silence_same j) as (Hq & Hh & Hlo); set (j' := j) in * end.
    split; [|split; [|split]].
    + intros Hok. eapply same_queue_ok; [exact Hq|]. by apply (same_queue_ok jb).
    + unfold jb_loss_ok. by rewrite Hlo.
    + by etrans; [|exact Hh].
    + split; [by rewrite (proj1 Hq)|auto].
  - pose proof (queue_get_spec jb (i_next_voice_ts (info jb) - i_current (info jb)) false) as Hg.
    unfold queue_get. destruct (_queue_get _ _ _) as [[f|] jb1].
    + destruct Hg as (Hh & Hl & Hok & Hf & _). case_if.
      * case_if; (split; [|split; [|split]]); try (by auto); try (by unfold jb_loss_ok; simpl; rewrite Hl);
          intros ?; eapply (same_queue_ok jb1); eauto; done.
      * pose proof (jb_get_voice_same jb1 (Some f) diff now interpl) as Hv.
        destruct (jb_get_voice jb1 (Some f) diff now interpl) as [[code fo] jb2].
        destruct Hv as (-> & Hq2 & Hh2 & Hl2 & Hc2). split; [|split; [|split]].
        -- intros ?. eapply same_queue_ok; eauto.
        -- intros ?. apply Hl2. unfold jb_loss_ok in *. by rewrite Hl.
        -- by etrans.
        -- by rewrite (proj1 Hq2).
    + destruct Hg as (_ & _ & _ & -> & _).
      pose proof (jb_get_voice_same jb None diff now interpl) as Hv.
      destruct (jb_get_voice jb None diff now interpl) as [[code fo] jb2].
      destruct Hv as (-> & Hq2 & Hh2 & Hl2 & Hc2). split; [|split; [|split]]; auto.
      * intros ?. eapply same_queue_ok; eauto.
      * by rewrite (proj1 Hq2).
Qed.

Lemma jb_get_silent_outcome jb diff now interpl :
  get_outcome jb (jb_get_silent jb diff now interpl).
Proof.
  unfold jb_get_silent.
  set (jb1 := if _ : bool then _ else jb).
  assert (same_queue jb jb1 /\ same_history jb jb1
    /\ i_losspct (info jb1) = i_losspct (info jb)) as (Hq1 & Hh1 & Hl1)
    by (unfold jb1; by case_if).
  apply (get_outcome_pre jb jb1); [done|done|done|]. clearbody jb1. clear Hq1 Hh1 Hl1.
  pose proof (queue_get_spec jb1 (now - i_current (info jb1)) false) as Hg.
  unfold queue_get. destruct (_queue_get _ _ _) as [[f|] jb2].
  - destruct Hg as (Hh & Hl & Hok & Hf & _).
    assert (jb_loss_ok jb1 -> jb_loss_ok jb2) as Hl' by (unfold jb_loss_ok; by rewrite Hl).
    repeat case_if; (split; [|split; [|split]]); try (by auto);
      intros ?; try (eapply (same_queue_ok jb2); eauto; done).
    + apply on_info_loss_ok; [done|]. apply decrement_loss_ok. apply on_info_loss_ok; auto.
    + apply decrement_loss_ok. do 2 (apply on_info_loss_ok; [done|]). auto.
  - destruct Hg as (_ & _ & _ & -> & _). split; [done|split; [done|split; [done|auto]]].
Qed.

(** ** The delay history *)

(** The delays of the window in order, best first, padded with the sentinel. *)
Definition top_sorted (better : Z -> Z -> bool) (pad : Z) (xs : list Z) : list Z :=
  ranking better (replicate 20 pad) xs.

Definition top20 (better : Z -> Z -> bool) (pad : Z) (xs : list Z) : list Z :=
  take 20 (top_sorted better pad xs).

Lemma top_sorted_ranked better `{!Better better} pad xs : ranked better (top_sorted better pad xs).
Proof. apply ranking_ranked, ranked_replicate. Qed.

Lemma top_sorted_perm better pad xs : top_sorted better pad xs ≡ₚ xs ++ replicate 20 pad.
Proof. apply ranking_perm. Qed.

Lemma top_sorted_snoc better `{!Better better} pad xs x :
  top_sorted better pad (xs ++ [x]) = ins better x (top_sorted better pad xs).
Proof. unfold top_sorted, ranking. by rewrite foldl_app. Qed.

Lemma top_sorted_cons better `{!Better better} pad xs x :
  top_sorted better pad (x :: xs) = ins better x (top_sorted better pad xs).
Proof.
  apply (ranked_unique better); [apply top_sorted_ranked| |].
  - apply ins_ranked, top_sorted_ranked.
  - rewrite ins_perm, !top_sorted_perm. done.
Qed.

Lemma top_sorted_last better `{!Better better} pad xs :
  exists y, top_sorted better pad xs !! 19%nat = Some y
    /\ buf_last (top20 better pad xs) = y.
Proof.
  assert (19 < length (top_sorted better pad xs))%nat as Hl.
  { rewrite (Permutation_length (top_sorted_perm better pad xs)), length_app, length_replicate. lia. }
  destruct (lookup_lt_is_Some_2 _ _ Hl) as [y Hy]. exists y. split; [done|].
  unfold buf_last, top20. apply nth_lookup_Some with (d := 0).
  by rewrite lookup_take_lt by (vm_compute; lia).
Qed.

(** A delay no better than the last of the top 20 does not enter it. *)
Lemma top20_snoc better `{!Better better} pad xs x :
  better x (buf_last (top20 better pad xs)) = false ->
  top20 better pad (xs ++ [x]) = top20 better pad xs.
Proof.
  destruct (top_sorted_last better pad xs) as (y & Hy & ->). intros Hx.
  unfold top20. rewrite top_sorted_snoc by done.
  eapply ins_take_same; [apply top_sorted_ranked|done|done].
Qed.

(** A delay worse than the last of the top 20 is not in it. *)
Lemma top20_cons better `{!Better better} pad xs x :
  better (buf_last (top20 better pad (x :: xs))) x = true ->
  top20 better pad (x :: xs) = top20 better pad xs.
Proof.
  destruct (top_sorted_last better pad (x :: xs)) as (y & Hy & ->). intros Hx.
  unfold top20. rewrite top_sorted_cons in * by done.
  eapply ins_take_worse; [apply top_sorted_ranked|done|done].
Qed.

Record jb_hist_ok jb : Prop := {
  jh_len : length (history jb) = 500%nat;
  jh_ptr : 0 <= hist_ptr jb;
  jh_valid : hist_maxbuf_valid jb = true ->
    0 < hist_ptr jb
    /\ hist_maxbuf jb = top20 above JB_LONGMIN (hist_window jb)
    /\ hist_minbuf jb = top20 below JB_LONGMAX (hist_window jb);
}.

Lemma history_calc_maxbuf_eq jb :
  hist_ptr jb <> 0 ->
  hist_maxbuf (history_calc_maxbuf jb) = top20 above JB_LONGMIN (hist_window jb)
  /\ hist_minbuf (history_calc_maxbuf jb) = top20 below JB_LONGMAX (hist_window jb)
  /\ hist_maxbuf_valid (history_calc_maxbuf jb) = true.
Proof.
  intros Hp. unfold history_calc_maxbuf. case_if; b2p; [done|]. simpl.
  unfold top20, top_sorted. change maxbuf_last with 19%nat.
  change (Z.to_nat JB_HISTORY_MAXBUF_SZ) with 20%nat. split_and!; [| |done].
  - by rewrite <- (buf_offers_take above 19) by (apply ranked_replicate || done).
  - by rewrite <- (buf_offers_take below 19) by (apply ranked_replicate || done).
Qed.

Lemma history_calc_maxbuf_frame jb :
  same_queue jb (history_calc_maxbuf jb) /\ info (history_calc_maxbuf jb) = info jb
  /\ jconf (history_calc_maxbuf jb) = jconf jb
  /\ history (history_calc_maxbuf jb) = history jb
  /\ hist_ptr (history_calc_maxbuf jb) = hist_ptr jb.
Proof. unfold history_calc_maxbuf. by case_if. Qed.

Lemma hist_window_frame jb jb' :
  history jb' = history jb -> hist_ptr jb' = hist_ptr jb -> hist_window jb' = hist_window jb.
Proof. intros E1 E2. unfold hist_window, hist_read. by rewrite E1, E2. Qed.

(** Storing at position [p] does not change the reads of the 499 positions
    around it in the ring. *)
Lemma hist_read_store jb jb' p x i :
  history jb' = <[hist_index p := x]> (history jb) -> length (history jb) = 500%nat ->
  0 <= p -> 0 <= i ->
  (i = p -> hist_read jb' i = x) /\ (p - 500 < i < p -> hist_read jb' i = hist_read jb i).
Proof.
  intros E Hl Hp Hi. unfold hist_read. rewrite E. unfold hist_index, JB_HISTORY_SZ.
  rewrite !Z.rem_mod_nonneg by lia.
  assert (0 <= p mod 500 < 500) by (apply Z.mod_pos_bound; lia). split.
  - intros ->. apply nth_lookup_Some. apply list_lookup_insert_eq. lia.
  - intros Hr. rewrite !nth_lookup, list_lookup_insert_ne; [done|].
    assert (0 <= i mod 500 < 500) by (apply Z.mod_pos_bound; lia).
    intros Heq. apply Z2Nat.inj in Heq; [|lia|lia].
    pose proof (Z.div_mod p 500 ltac:(lia)). pose proof (Z.div_mod i 500 ltac:(lia)). lia.
Qed.

Lemma hist_window_store jb jb' x :
  history jb' = <[hist_index (hist_ptr jb) := x]> (history jb) ->
  hist_ptr jb' = hist_ptr jb + 1 ->
  length (history jb) = 500%nat -> 0 <= hist_ptr jb ->
  (hist_ptr jb < 500 -> hist_window jb' = hist_window jb ++ [x])
  /\ (500 <= hist_ptr jb ->
      exists w, hist_window jb = hist_read jb (hist_ptr jb) :: w /\ hist_window jb' = w ++ [x]).
Proof.
  intros E Ep Hl Hp. unfold hist_window. rewrite Ep. set (p := hist_ptr jb) in *.
  assert (forall m n, 0 <= m -> p - 500 < m -> m + n <= p ->
    hist_read jb' <$> seqZ m n = hist_read jb <$> seqZ m n) as Hsame.
  { intros m n H1 H2 H3. apply list_fmap_ext. intros k i Hk.
    apply lookup_seqZ in Hk as [-> Hk]. apply (hist_read_store jb jb' p x); try done; lia. }
  assert (hist_read jb' p = x) as Hx by (apply (hist_read_store jb jb' p x); try done; lia).
  unfold JB_HISTORY_SZ. split; intros Hlt.
  - destruct (500 <? p + 1) eqn:E1, (500 <? p) eqn:E2; b2p; try lia.
    rewrite !Z.sub_0_r, seqZ_app, fmap_app, (Hsame 0 p) by lia.
    rewrite (seqZ_cons _ 1), Z.add_0_l by lia. simpl. by rewrite Hx.
  - exists (hist_read jb <$> seqZ (p - 499) 499).
    replace (500 <? p + 1) with true by (symmetry; apply Z.ltb_lt; lia).
    replace (p + 1 - (p + 1 - 500)) with (499 + 1) by lia.
    replace (p + 1 - 500) with (p - 499) by lia. split.
    + assert (hist_read jb p = hist_read jb (p - 500)) as ->.
      { unfold hist_read, hist_index, JB_HISTORY_SZ. rewrite !Z.rem_mod_nonneg by lia.
        do 2 f_equal. rewrite <- (Z_mod_plus_full (p - 500) 1 500). f_equal. lia. }
      destruct (500 <? p) eqn:E2; b2p.
      * replace (p - (p - 500)) with 500 by lia. rewrite seqZ_cons by lia. simpl.
        by replace (Z.succ (p - 500)) with (p - 499) by lia.
      * replace p with 500 in * by lia. done.
    + rewrite seqZ_app, fmap_app, Hsame by lia.
      replace (p - 499 + 499) with p by lia. rewrite (seqZ_cons p) by lia. simpl. by rewrite Hx.
Qed.

(** The shortcut of [history_put] is sound: when it keeps the cached buffers
    they are still what a recalculation would give. *)
Lemma history_store_ok jb x : jb_hist_ok jb -> jb_hist_ok (history_store jb x).
Proof.
  intros [Hl Hp Hv]. unfold history_store.
  set (jb1 := jb <| history := _ |> <| hist_ptr := _ |>).
  assert (length (history jb1) = 500%nat /\ 0 <= hist_ptr jb1) as [Hl1 Hp1].
  { split; [simpl; by rewrite length_insert|simpl; lia]. }
  destruct (hist_maxbuf_valid jb1) eqn:Ev; simpl negb; cbv iota;
    [|split; [done|done|by rewrite Ev]].
  case_if; [by split|]. b2p.
  change (hist_maxbuf jb1) with (hist_maxbuf jb) in *.
  change (hist_minbuf jb1) with (hist_minbuf jb) in *.
  destruct (Hv Ev) as (Hpos & Hmax & Hmin).
  destruct (hist_window_store jb jb1 x eq_refl eq_refl Hl Hp) as [Hgrow Hslide].
  rewrite Hmax, Hmin in *.
  split; [done|done|]. intros _. split; [simpl; lia|].
  change (hist_maxbuf jb1) with (hist_maxbuf jb). change (hist_minbuf jb1) with (hist_minbuf jb).
  rewrite Hmax, Hmin.
  destruct (Z.lt_ge_cases (hist_ptr jb) 500) as [Hlt|Hge].
  - rewrite (Hgrow Hlt). split; symmetry.
    + apply (top20_snoc above). apply Z.ltb_ge. lia.
    + apply (top20_snoc below). apply Z.ltb_ge. lia.
  - destruct (Hslide Hge) as (w & Hw & ->). rewrite Hw in *.
    set (k := hist_read jb (hist_ptr jb)) in *.
    assert (top20 above JB_LONGMIN (k :: w) = top20 above JB_LONGMIN w) as Ea
      by (apply (top20_cons above); apply Z.ltb_lt; lia).
    assert (top20 below JB_LONGMAX (k :: w) = top20 below JB_LONGMAX w) as Eb
      by (apply (top20_cons below); apply Z.ltb_lt; lia).
    rewrite Ea, Eb in *. split; symmetry.
    + apply (top20_snoc above). apply Z.ltb_ge. lia.
    + apply (top20_snoc below). apply Z.ltb_ge. lia.
Qed.

Lemma same_history_ok jb jb' : same_history jb jb' -> jb_hist_ok jb -> jb_hist_ok jb'.
Proof.
  intros (E1 & E2 & E3 & E4 & E5) []. split; rewrite ?E1, ?E2, ?E5; try done.
  intros Hv. rewrite E3, E4, (hist_window_frame jb jb') by done. auto.
Qed.

Lemma resync_hist_ok jb ts now : jb_hist_ok jb -> jb_hist_ok (resync jb ts now).
Proof. intros []. by split. Qed.

(** What stays the same when a delay is recorded. *)
Lemma history_store_frame jb x :
  frames (history_store jb x) = frames jb /\ info (history_store jb x) = info jb
  /\ jconf (history_store jb x) = jconf jb.
Proof. unfold history_store. by repeat case_if. Qed.

Lemma history_put_spec jb ts now ms :
  let '(r, jb') := history_put jb ts now ms in
  same_queue jb jb' /\ i_losspct (info jb') = i_losspct (info jb)
  /\ (jb_hist_ok jb -> jb_hist_ok jb').
Proof.
  unfold history_put.
  assert (exists delay jb1,
    (if force_resync jb then (0, resync jb ts now)
     else (now - (ts - i_resync_offset (info jb)), jb)) = (delay, jb1)
    /\ same_queue jb jb1 /\ i_losspct (info jb1) = i_losspct (info jb)
    /\ (jb_hist_ok jb -> jb_hist_ok jb1)) as (delay & jb1 & -> & Hq & Hl & Hh).
  { case_if; eexists _, _; (split; [done|]); (split; [done|]); (split; [done|]); [|done].
    apply resync_hist_ok. }
  case_if; [done|]. case_if; [case_if; [case_if|]|].
  - match goal with |- context [history_store ?j ?x] =>
      destruct (history_store_frame j x) as (F1 & F2 & _);
      pose proof (history_store_ok j x) as Hs end.
    unfold same_queue. rewrite F1, F2. split; [done|]. split; [done|].
    intros Hok. by apply Hs, resync_hist_ok, (same_history_ok jb1), Hh.
  - split; [done|]. split; [done|]. intros Hok. by apply (same_history_ok jb1), Hh.
  - match goal with |- context [history_store ?j ?x] =>
      destruct (history_store_frame j x) as (F1 & F2 & _);
      pose proof (history_store_ok j x) as Hs end.
    unfold same_queue. rewrite F1, F2. split; [done|]. split; [done|].
    intros Hok. by apply Hs, (same_history_ok jb1), Hh.
  - destruct (history_store_frame jb1 delay) as (F1 & F2 & _).
    pose proof (history_store_ok jb1 delay) as Hs.
    unfold same_queue. rewrite F1, F2. split; [done|]. split; [done|]. auto.
Qed.

(** The number of delays the estimate looks at, and the rank it takes. *)
Definition hist_count jb : Z := Z.min (hist_ptr jb) 500.
Definition hist_rank jb : nat := Z.to_nat (hist_count jb * 3 / 100).

Lemma history_get_spec jb :
  jb_hist_ok jb ->
  same_queue jb (history_get jb) /\ jb_hist_ok (history_get jb)
  /\ jconf (history_get jb) = jconf jb
  /\ i_losspct (info (history_get jb)) = i_losspct (info jb)
  /\ (0 < hist_ptr jb ->
      let w := hist_window jb in
      i_min (info (history_get jb)) = nth (hist_rank jb) (top20 below JB_LONGMAX w) 0
      /\ i_jitter (info (history_get jb)) =
          nth (hist_rank jb) (top20 above JB_LONGMIN w) 0
          - nth (hist_rank jb) (top20 below JB_LONGMAX w) 0).
Proof.
  intros Hok. unfold history_get.
  set (jb1 := if hist_maxbuf_valid jb then jb else history_calc_maxbuf jb).
  assert (same_queue jb jb1 /\ info jb1 = info jb /\ jconf jb1 = jconf jb
    /\ jb_hist_ok jb1 /\ hist_ptr jb1 = hist_ptr jb
    /\ (0 < hist_ptr jb -> hist_maxbuf jb1 = top20 above JB_LONGMIN (hist_window jb)
         /\ hist_minbuf jb1 = top20 below JB_LONGMAX (hist_window jb)))
    as (Hq & Hi & Hc & Hok1 & Hp & Hb).
  { unfold jb1. destruct (hist_maxbuf_valid jb) eqn:Ev.
    - do 5 (split; [done|]). intros _. by apply (jh_valid _ Hok).
    - destruct (history_calc_maxbuf_frame jb) as (H1 & H2 & H3 & H4 & H5).
      do 3 (split; [done|]). split; [|split; [done|]].
      + destruct Hok. split; [by rewrite H4|by rewrite H5|]. intros Hv.
        destruct (decide (hist_ptr jb = 0)) as [Ep|Ep].
        * unfold history_calc_maxbuf in Hv. rewrite Ep in Hv. simpl in Hv. congruence.
        * rewrite (hist_window_frame jb) by done.
          destruct (history_calc_maxbuf_eq jb Ep) as (? & ? & _). split; [lia|auto].
      + intros Hpos. destruct (history_calc_maxbuf_eq jb) as (? & ? & _); [lia|auto]. }
  clearbody jb1.
  assert (0 <= hist_ptr jb) by apply Hok. rewrite Hp.
  set (count := if hist_ptr jb <? JB_HISTORY_SZ then hist_ptr jb else JB_HISTORY_SZ).
  assert (count = hist_count jb) as Ec
    by (unfold count, hist_count, JB_HISTORY_SZ; case_if; b2p; lia).
  assert (0 <= count <= 500) as Hcr by (rewrite Ec; unfold hist_count; lia).
  assert (Z.quot (count * JB_HISTORY_DROPPCT) 100 = hist_count jb * 3 / 100) as Eq.
  { unfold JB_HISTORY_DROPPCT. rewrite Z.quot_div_nonneg by lia. by rewrite Ec. }
  rewrite Eq.
  assert (0 <= hist_count jb * 3 / 100 <= 15) as Hr.
  { rewrite <- Ec. split; [apply Z.div_pos; lia|]. apply Z.div_le_upper_bound; lia. }
  change (JB_HISTORY_MAXBUF_SZ - 1) with 19.
  replace (19 <? hist_count jb * 3 / 100) with false by (symmetry; apply Z.ltb_ge; lia).
  replace (hist_count jb * 3 / 100 <? 0) with false by (symmetry; apply Z.ltb_ge; lia).
  split; [by etrans|]. split; [by apply (same_history_ok jb1)|]. split; [done|].
  split; [simpl; by rewrite Hi|]. intros Hpos. destruct (Hb Hpos) as [E1 E2].
  simpl. rewrite E1, E2. done.
Qed.

(** ** Putting frames *)

Lemma queue_walk_spec ts l a b' a' :
  queue_walk ts l a = (b', a') ->
  rev l ++ a = rev b' ++ a'
  /\ (exists m, a' = m ++ a /\ Forall (fun f => ts < jf_ts f) m)
  /\ match b' with [] => True | f :: _ => jf_ts f <= ts end.
Proof.
  revert a. induction l as [|f l IH]; simpl; intros a.
  { intros [= <- <-]. split_and!; try done. by exists []. }
  case_if; b2p.
  - intros H. apply IH in H as (H1 & (m & -> & Hm) & H3). split_and!; [|..|done].
    + by rewrite <- H1, <- app_assoc.
    + exists (m ++ [f]). rewrite <- app_assoc. split; [done|].
      apply Forall_app. auto.
  - intros [= <- <-]. split_and!; [done| |lia]. by exists [].
Qed.

(** [l'] is [l] with [f] inserted behind the frames that are not later. *)
Definition inserted f (l l' : list (jb_frame D)) : Prop :=
  exists l1 l2, l = l1 ++ l2 /\ l' = l1 ++ f :: l2
    /\ Forall (fun g => jf_ts g <= jf_ts f) l1 /\ Forall (fun g => jf_ts f < jf_ts g) l2.

Lemma inserted_sorted f l l' :
  inserted f l l' -> StronglySorted ts_le l -> StronglySorted ts_le l'.
Proof.
  intros (l1 & l2 & -> & -> & H1 & H2). rewrite !StronglySorted_app_iff.
  intros (S1 & S2 & S3). split_and!; [done| |].
  - constructor; [done|]. eapply Forall_impl; [exact H2|]. unfold ts_le. lia.
  - intros x y Hx Hy. rewrite Forall_forall in H1.
    apply elem_of_cons in Hy as [->|Hy]; [by apply H1|by apply S3].
Qed.

Lemma queue_put_spec ok jb d ty ms ts :
  StronglySorted ts_le (frames jb) ->
  let '(h, jb') := queue_put ok jb d ty ms ts in
  let f := mk_jb_frame d (ts - i_resync_offset (info jb)) ms ty in
  same_history jb jb' /\ i_losspct (info jb') = i_losspct (info jb)
  /\ (h = 0 /\ ok = false /\ free_frames jb = [] /\ jb' = jb
      \/ inserted f (frames jb) (frames jb')
         /\ i_frames_cur (info jb') = i_frames_cur (info jb) + 1
         /\ (h = 1 <-> head (frames jb') = Some f /\ Forall (fun g => jf_ts f < jf_ts g) (frames jb))
         /\ (h = 0 \/ h = 1)).
Proof.
  intros Hs. unfold queue_put, frame_alloc.
  set (rts := ts - i_resync_offset (info jb)). cbv zeta.
  set (jb1 := match free_frames jb with [] => (ok, jb) | _ :: next => _ end).
  assert ((exists j, jb1 = (true, j) /\ info j = info jb /\ frames j = frames jb
            /\ same_history jb j)
          \/ jb1 = (false, jb) /\ ok = false /\ free_frames jb = []) as Ha.
  { unfold jb1. destruct (free_frames jb); [|left; by eexists]. destruct ok; [left; by eexists|by right]. }
  clearbody jb1. destruct Ha as [(j & -> & Ei & Ef & Eh)|(-> & Eok & Efr)]; simpl negb; cbv iota.
  2:{ split; [done|]. split; [done|]. left. auto. }
  change (frames (on_info _ j)) with (frames j). rewrite Ef.
  destruct (frames jb) as [|hd rest] eqn:El.
  { split; [done|]. split; [simpl; by rewrite Ei|]. right.
    split; [by exists [], []|]. simpl. rewrite Ei. split; [done|]. split; [|auto]. by split. }
  case_if; b2p.
  { split; [done|]. split; [simpl; by rewrite Ei|]. right.
    assert (Forall (fun g => rts < jf_ts g) (hd :: rest)) as Hall.
    { inversion_clear Hs as [|? ? _ Hf]. constructor; [done|].
      eapply Forall_impl; [exact Hf|]. unfold ts_le. intros g ?. lia. }
    split; [by exists [], (hd :: rest)|]. simpl. rewrite Ei. split; [done|]. split; [|auto].
    by split. }
  destruct (queue_walk rts (rev rest) []) as [b a] eqn:Ew.
  apply queue_walk_spec in Ew as (H1 & (m & Hm1 & Hm2) & H3).
  rewrite rev_involutive, app_nil_r in H1. rewrite app_nil_r in Hm1. subst m.
  assert (Forall (fun g => jf_ts g <= rts) (hd :: rev b)) as Hle.
  { constructor; [done|]. subst rest. apply StronglySorted_inv in Hs as [Hs _].
    apply StronglySorted_app_iff in Hs as (Hb & _ & _).
    destruct b as [|g b]; simpl in *; [constructor|].
    apply StronglySorted_app_iff in Hb as (_ & _ & Hbg).
    apply Forall_app. split; [|by repeat constructor].
    apply Forall_forall. intros x Hx. unfold ts_le in Hbg.
    specialize (Hbg x g Hx ltac:(by apply elem_of_cons; left)). lia. }
  split; [by case_if|]. split; [case_if; simpl; by rewrite Ei|]. right.
  split; [exists (hd :: rev b), a; subst rest; by split_and!|].
  split; [case_if; simpl; by rewrite Ei|]. split; [|auto]. split; [done|].
  intros [_ Hf]. inversion_clear Hf. simpl in *. lia.
Qed.

Lemma jb_put_ok ok jb d ty ms ts now :
  jb_queue_ok jb -> jb_hist_ok jb -> jb_loss_ok jb ->
  let jb' := (jb_put ok jb d ty ms ts now).2 in
  jb_queue_ok jb' /\ jb_hist_ok jb' /\ jb_loss_ok jb'.
Proof.
  intros Hq Hh Hl. unfold jb_put. set (jb1 := on_info _ jb).
  assert (jb_queue_ok jb1) by (by apply (same_queue_ok jb)).
  assert (jb_hist_ok jb1) by (by apply (same_history_ok jb)).
  assert (exists r jb2,
    (if ty =? JB_TYPE_VOICE then history_put jb1 ts now ms else (0, jb1)) = (r, jb2)
    /\ jb_queue_ok jb2 /\ jb_hist_ok jb2 /\ jb_loss_ok jb2) as (r & jb2 & -> & Hq2 & Hh2 & Hl2).
  { pose proof (history_put_spec jb1 ts now ms) as Hp.
    case_if; [|by exists 0, jb1].
    destruct (history_put jb1 ts now ms) as [r jb2]. destruct Hp as (P1 & P2 & P3).
    eexists _, _. split; [done|]. split; [by apply (same_queue_ok jb1)|].
    split; [by apply P3|]. unfold jb_loss_ok. by rewrite P2. }
  case_if; [done|].
  pose proof (queue_put_spec ok jb2 d ty ms ts (jq_sorted _ Hq2)) as Hqp.
  destruct (queue_put ok jb2 d ty ms ts) as [h jb3].
  destruct Hqp as (Q1 & Q2 & Q3).
  assert (jb_queue_ok jb3 /\ jb_hist_ok jb3 /\ jb_loss_ok jb3) as H3; [|by case_if].
  split; [|split; [by apply (same_history_ok jb2)|unfold jb_loss_ok; by rewrite Q2]].
  destruct Q3 as [(_ & _ & _ & ->)|(Hins & Hcur & _)]; [done|]. split.
  - eapply inserted_sorted; [done|apply Hq2].
  - rewrite Hcur, (jq_count _ Hq2). destruct Hins as (l1 & l2 & -> & -> & _ & _).
    rewrite !length_app. simpl. lia.
Qed.

Lemma jb_retarget_spec jb :
  jb_hist_ok jb ->
  same_queue jb (jb_retarget jb) /\ jb_hist_ok (jb_retarget jb)
  /\ i_losspct (info (jb_retarget jb)) = i_losspct (info jb).
Proof.
  intros Hok. destruct (history_get_spec jb Hok) as (H1 & H2 & H3 & H4 & _).
  unfold jb_retarget. set (j := history_get jb) in *. clearbody j.
  case_if; (split; [by etrans|split; [by apply (same_history_ok j)|done]]).
Qed.

(** [get_outcome] for the whole of [_jb_get]. *)
Lemma _jb_get_outcome jb now interpl :
  jb_hist_ok jb ->
  let '(code, fo, jb') := _jb_get jb now interpl in
  (jb_queue_ok jb -> jb_queue_ok jb') /\ (jb_loss_ok jb -> jb_loss_ok jb') /\ jb_hist_ok jb'
  /\ match fo with
     | Some f => frames jb = f :: frames jb' /\ (code = JB_OK \/ code = JB_DROP)
     | None => frames jb' = frames jb /\ (code = JB_INTERP \/ code = JB_NOFRAME)
     end.
Proof.
  intros Hok. destruct (jb_retarget_spec jb Hok) as (Hq & Hh & Hl).
  assert (get_outcome (jb_retarget jb) (_jb_get jb now interpl)) as Ho.
  { unfold _jb_get. case_if; [apply jb_get_nonsilent_outcome|apply jb_get_silent_outcome]. }
  destruct (_jb_get jb now interpl) as [[code fo] jb']. destruct Ho as (O1 & O2 & O3 & O4).
  split; [|split; [|split]].
  - intros ?. by apply O1, (same_queue_ok jb).
  - unfold jb_loss_ok in *. rewrite <- Hl. auto.
  - by apply (same_history_ok (jb_retarget jb)).
  - by rewrite <- (proj1 Hq).
Qed.

End stevek_facts.

(** ** The buffer as a transition system *)

Section stevek_properties.
Context {D : Type}.
Implicit Types (jb : jitterbuf D).

Inductive jb_step : relation (jitterbuf D) :=
| js_put ok jb d ty ms ts now : jb_step jb (jb_put ok jb d ty ms ts now).2
| js_get jb now interpl : jb_step jb (jb_get jb now interpl).1.2
| js_getall jb : jb_step jb (jb_getall jb).2
| js_next jb : jb_step jb (jb_next jb).2
| js_getinfo jb : jb_step jb (jb_getinfo jb).2
| js_force jb : jb_step jb (jb <| force_resync := true |>)
| js_setconf jb conf : jb_step jb (jb_setconf jb conf).2.

Record jb_ok jb : Prop := {
  ok_queue : jb_queue_ok jb;
  ok_hist : jb_hist_ok jb;
  ok_loss : jb_loss_ok jb;
}.

Lemma jb_reset_ok jb : jb_ok (jb_reset jb).
Proof.
  split; [split; simpl; [constructor|done]|split; simpl; try done|].
  unfold jb_loss_ok. simpl. lia.
Qed.

Lemma history_get_jb_ok jb : jb_ok jb -> jb_ok (history_get jb).
Proof.
  intros []. destruct (history_get_spec jb) as (H1 & H2 & _ & H4 & _); [done|].
  split; [by apply (same_queue_ok jb)|done|]. unfold jb_loss_ok. by rewrite H4.
Qed.

Lemma jb_step_ok jb jb' : jb_step jb jb' -> jb_ok jb -> jb_ok jb'.
Proof.
  intros Hs Hok. destruct Hs.
  - destruct Hok. destruct (jb_put_ok ok jb d ty ms ts now) as (? & ? & ?); done.
  - destruct Hok. pose proof (_jb_get_outcome jb now interpl) as Ho.
    unfold jb_get. destruct (_jb_get jb now interpl) as [[code fo] j]. simpl.
    destruct Ho as (H1 & H2 & H3 & _); [done|]. split; auto.
  - destruct Hok. pose proof (queue_get_spec jb 0 true) as Hg. unfold jb_getall, queue_getall.
    destruct (_queue_get jb 0 true) as [[f|] j]; destruct Hg as (Hh & Hl & Hq & _);
      (split; [by apply Hq|by apply (same_history_ok jb)|unfold jb_loss_ok; simpl; by rewrite Hl]).
  - unfold jb_next. repeat case_if; simpl; try done; by apply history_get_jb_ok.
  - by apply history_get_jb_ok.
  - destruct Hok. split; [by apply (same_queue_ok jb)|by apply (same_history_ok jb)|done].
  - apply jb_reset_ok.
Qed.

(** C32: whatever sequence of calls is made on a new adaptive buffer, the
    queue is in timestamp order and [frames_cur] is its length, the loss
    percentage stays between 0 and 100%, and the two cached delay buffers,
    when marked valid, are exactly the 20 largest and the 20 smallest delays
    of the history window: the shortcut in [history_put] that avoids the
    recalculation never leaves them stale. *)
Theorem jb_reachable_ok uninit jb0 jb :
  jb_new true uninit = Some jb0 -> rtc jb_step jb0 jb ->
  jb_queue_ok jb /\ jb_loss_ok jb
  /\ (hist_maxbuf_valid jb = true ->
      hist_maxbuf jb = hist_maxbuf (history_calc_maxbuf jb)
      /\ hist_minbuf jb = hist_minbuf (history_calc_maxbuf jb)).
Proof.
  intros [= <-] Hr. pose proof (jb_reset_ok uninit) as Hok.
  assert (jb_ok jb) as [Hq Hh Hl].
  { revert Hok. induction Hr as [|j1 j2 j3 Hs _ IH]; [done|]. eauto using jb_step_ok. }
  split; [done|]. split; [done|]. intros Hv.
  destruct (jh_valid _ Hh Hv) as (Hp & -> & ->).
  destruct (history_calc_maxbuf_eq jb ltac:(lia)) as (-> & -> & _). done.
Qed.

(** [history_calc_maxbuf] finds the extremes: the two buffers are the
    first 20 of the window's delays sorted downwards and upwards (padded with
    the sentinels when there are fewer than 20). *)
Theorem jb_history_extremes jb :
  hist_ptr jb <> 0 ->
  exists down up,
    down ≡ₚ hist_window jb ++ replicate 20 JB_LONGMIN
    /\ up ≡ₚ hist_window jb ++ replicate 20 JB_LONGMAX
    /\ StronglySorted Z.ge down /\ StronglySorted Z.le up
    /\ hist_maxbuf (history_calc_maxbuf jb) = take 20 down
    /\ hist_minbuf (history_calc_maxbuf jb) = take 20 up.
Proof.
  intros Hp. destruct (history_calc_maxbuf_eq jb Hp) as (Ea & Eb & _).
  exists (top_sorted above JB_LONGMIN (hist_window jb)),
         (top_sorted below JB_LONGMAX (hist_window jb)).
  split_and!; try done.
  - apply top_sorted_perm.
  - apply top_sorted_perm.
  - pose proof (top_sorted_ranked above JB_LONGMIN (hist_window jb)) as Hr.
    induction Hr as [|x l _ IH Hx]; constructor; [done|].
    eapply Forall_impl; [exact Hx|]. unfold no_worse. simpl. lia.
  - exact (top_sorted_ranked below JB_LONGMAX (hist_window jb)).
Qed.

(** [jb_get] neither loses nor invents a frame: with OK or DROP it
    hands out the earliest queued frame and keeps the rest, with INTERP or
    NOFRAME it keeps the whole queue; it returns no other code. *)
Theorem jb_get_conserves jb now interpl :
  jb_hist_ok jb ->
  let '((code, fo, jb'), _) := jb_get jb now interpl in
  match fo with
  | Some f => frames jb = f :: frames jb' /\ (code = JB_OK \/ code = JB_DROP)
  | None => frames jb' = frames jb /\ (code = JB_INTERP \/ code = JB_NOFRAME)
  end.
Proof.
  intros Hok. pose proof (_jb_get_outcome jb now interpl Hok) as Ho. unfold jb_get.
  destruct (_jb_get jb now interpl) as [[code fo] j]. by destruct Ho as (_ & _ & _ & ?).
Qed.

Lemma jb_put_cases jb d ty ms ts now :
  jb_queue_ok jb ->
  let '(code, jb') := jb_put true jb d ty ms ts now in
  let f := mk_jb_frame d (ts - i_resync_offset (info jb')) ms ty in
  (code = JB_DROP /\ frames jb' = frames jb)
  \/ (inserted f (frames jb) (frames jb')
      /\ (code = JB_SCHED /\ Forall (fun g => jf_ts f < jf_ts g) (frames jb)
          \/ code = JB_OK /\ ~ Forall (fun g => jf_ts f < jf_ts g) (frames jb))).
Proof.
  intros Hq. unfold jb_put. set (jb1 := on_info _ jb).
  assert (exists r jb2,
    (if ty =? JB_TYPE_VOICE then history_put jb1 ts now ms else (0, jb1)) = (r, jb2)
    /\ frames jb2 = frames jb) as (r & jb2 & -> & Ef).
  { pose proof (history_put_spec jb1 ts now ms) as Hp. case_if; [|by exists 0, jb1].
    destruct (history_put jb1 ts now ms) as [r jb2]. exists r, jb2.
    by destruct Hp as ((? & _) & _). }
  case_if; [left; by rewrite Ef|].
  pose proof (queue_put_spec true jb2 d ty ms ts) as Hqp. rewrite Ef in Hqp.
  specialize (Hqp (jq_sorted _ Hq)).
  assert (i_resync_offset (info (queue_put true jb2 d ty ms ts).2) = i_resync_offset (info jb2)) as Eo.
  { unfold queue_put, frame_alloc.
    destruct (free_frames jb2); simpl; (destruct (frames jb2); simpl; [done|]);
      (case_if; simpl; [done|]); destruct (queue_walk _ _ _); simpl; by case_if. }
  destruct (queue_put true jb2 d ty ms ts) as [h jb3]. simpl in Eo.
  destruct Hqp as (_ & _ & [(_ & ? & _)|(Hins & _ & Hh & Hh01)]); [done|].
  destruct Hins as (l1 & l2 & El & El' & H1 & H2).
  destruct Hh01 as [-> | ->]; simpl; rewrite Eo; right.
  - split; [by exists l1, l2|]. right. split; [done|]. intros Hall.
    assert (0 = 1) as Habs; [|done]. apply Hh. split; [|done].
    destruct l1 as [|g l1]; [by rewrite El'|].
    rewrite El in Hall. inversion_clear Hall. inversion_clear H1. simpl in *. lia.
  - split; [by exists l1, l2|]. left. split; [done|]. by apply Hh.
Qed.

(** [jb_put] answers SCHED exactly when the frame became the new head,
    earlier than every queued frame; with SCHED or OK the frame is inserted
    behind the frames that are not later and the others keep their order, and
    with DROP the queue is unchanged (a structure being available). *)
Theorem jb_put_inserts jb d ty ms ts now :
  jb_queue_ok jb ->
  let '(code, jb') := jb_put true jb d ty ms ts now in
  let f := mk_jb_frame d (ts - i_resync_offset (info jb')) ms ty in
  (code = JB_DROP /\ frames jb' = frames jb)
  \/ (inserted f (frames jb) (frames jb')
      /\ (code = JB_SCHED /\ Forall (fun g => jf_ts f < jf_ts g) (frames jb)
          \/ code = JB_OK /\ ~ Forall (fun g => jf_ts f < jf_ts g) (frames jb))).
Proof. exact (jb_put_cases jb d ty ms ts now). Qed.

Lemma length_hist_window jb :
  0 <= hist_ptr jb -> Z.of_nat (length (hist_window jb)) = hist_count jb.
Proof.
  intros Hp. unfold hist_window, hist_count, JB_HISTORY_SZ.
  rewrite length_fmap, length_seqZ. case_if; b2p; lia.
Qed.

(** The entry of a top 20 at a rank below 20, and how many delays beat it. *)
Lemma top20_rank better `{!Better better} pad xs r :
  (r < 20)%nat ->
  (length (filter (fun v => (key v < key (nth r (top20 better pad xs) 0%Z))%Z) xs) <= r)%nat.
Proof.
  intros Hr.
  assert (20 <= length (top_sorted better pad xs))%nat as Hl.
  { rewrite (Permutation_length (top_sorted_perm better pad xs)), length_app, length_replicate. lia. }
  destruct (lookup_lt_is_Some_2 (top_sorted better pad xs) r ltac:(lia)) as [y Hy].
  assert (nth r (top20 better pad xs) 0 = y) as ->.
  { apply nth_lookup_Some. unfold top20. by rewrite lookup_take_lt by lia. }
  pose proof (ranked_better_count better _ _ _ (top_sorted_ranked better pad xs) Hy) as Hc.
  rewrite (top_sorted_perm better pad xs), filter_app, length_app in Hc. lia.
Qed.

Lemma filter_cover (P Q : Z -> Prop) `{!forall x, Decision (P x), !forall x, Decision (Q x)} l :
  (forall x, P x \/ Q x) -> (length l <= length (filter P l) + length (filter Q l))%nat.
Proof.
  intros HPQ. induction l as [|x l IH]; simpl; [lia|]. rewrite !filter_cons.
  destruct (HPQ x); repeat case_decide; simpl; try done; lia.
Qed.

(** The spread after dropping the outliers at both ends is not negative. *)
Lemma history_get_jitter_nonneg jb :
  jb_hist_ok jb -> 0 < hist_ptr jb -> 0 <= i_jitter (info (history_get jb)).
Proof.
  intros Hok Hp. destruct (history_get_spec jb Hok) as (_ & _ & _ & _ & H).
  destruct (H Hp) as [_ ->]. simpl.
  pose proof (length_hist_window jb ltac:(lia)) as Hlen.
  assert (0 < hist_count jb <= 500) as Hc by (unfold hist_count; lia).
  assert (2 * Z.of_nat (hist_rank jb) < hist_count jb /\ (hist_rank jb < 20)%nat) as [Hr2 Hr].
  { unfold hist_rank. pose proof (Z.div_mod (hist_count jb * 3) 100 ltac:(lia)).
    pose proof (Z.mod_pos_bound (hist_count jb * 3) 100 ltac:(lia)). lia. }
  pose proof (top20_rank above JB_LONGMIN (hist_window jb) _ Hr) as Ha.
  pose proof (top20_rank below JB_LONGMAX (hist_window jb) _ Hr) as Hb.
  set (mx := nth (hist_rank jb) (top20 above JB_LONGMIN (hist_window jb)) 0) in *.
  set (mn := nth (hist_rank jb) (top20 below JB_LONGMAX (hist_window jb)) 0) in *.
  destruct (Z.le_gt_cases mn mx) as [Hle|Hgt]; [lia|exfalso].
  pose proof (filter_cover (fun v => key (better := above) v < key (better := above) mx)
    (fun v => key (better := below) v < key (better := below) mn) (hist_window jb)) as Hcov.
  simpl in *. specialize (Hcov ltac:(intros; lia)). lia.
Qed.

(** The target delay is the smallest delay plus the jitter (never
    negative: 3% of the outliers are dropped at both ends) plus the fixed
    margin, cut at the configured maximum when that is positive: it is always
    above the smallest delay and never more than the maximum above it. *)
Theorem jb_target_bounds jb :
  jb_hist_ok jb -> 0 < hist_ptr jb -> 0 <= max_jitterbuf (jconf jb) ->
  let i := info (jb_retarget jb) in
  i_min i < i_target i <= i_min i + i_jitter i + JB_TARGET_EXTRA
  /\ (max_jitterbuf (jconf jb) = 0 -> i_target i = i_min i + i_jitter i + JB_TARGET_EXTRA)
  /\ (0 < max_jitterbuf (jconf jb) -> i_target i <= i_min i + max_jitterbuf (jconf jb)).
Proof.
  intros Hok Hp Hm. pose proof (history_get_jitter_nonneg jb Hok Hp) as Hj.
  destruct (history_get_spec jb Hok) as (_ & _ & Ec & _ & _).
  unfold jb_retarget. simpl. rewrite Ec. unfold JB_TARGET_EXTRA in *.
  set (j := history_get jb) in *. clearbody j.
  destruct (max_jitterbuf (jconf jb) =? 0) eqn:E0; b2p; simpl; [lia|].
  case_if; b2p; simpl; rewrite ?Ec; lia.
Qed.

(** A negative maximum is taken as a clamp: with the maximum of -1 that
    the default configuration gives, a fresh estimate (no jitter) sets the
    target below the minimum delay instead of leaving it unlimited. *)
Theorem jb_default_max_clamps jb :
  jb_hist_ok jb -> 0 < hist_ptr jb -> max_jitterbuf (jconf jb) = -1 ->
  i_target (info (jb_retarget jb)) = i_min (info (jb_retarget jb)) - 1.
Proof.
  intros Hok Hp Hm. pose proof (history_get_jitter_nonneg jb Hok Hp) as Hj.
  destruct (history_get_spec jb Hok) as (_ & _ & Ec & _ & _).
  unfold jb_retarget. simpl. rewrite Ec, Hm. unfold JB_TARGET_EXTRA. simpl.
  case_if; b2p; [simpl; lia|lia].
Qed.

End stevek_properties.

(** ** Witnesses: a buffer that got two voice frames *)

Definition wit_jb0 : jitterbuf nat :=
  (jb_setconf (jb_reset (mk_jitterbuf (mk_jb_conf 0 0 0 0) jb_info_zero [] 0 [] [] false false [] []))
     (mk_jb_conf 200 60 1000 10)).2.

Definition wit_jb1 : jitterbuf nat := (jb_put true wit_jb0 1%nat JB_TYPE_VOICE 20 100 110).2.
Definition wit_jb2 : jitterbuf nat := (jb_put true wit_jb1 2%nat JB_TYPE_VOICE 20 80 130).2.

Lemma wit_jb2_reach :
  rtc jb_step (jb_reset (mk_jitterbuf (mk_jb_conf 0 0 0 0) jb_info_zero [] 0 [] [] false false [] []))
    wit_jb2.
Proof.
  apply (rtc_l _ _ wit_jb0); [exact (js_setconf _ (mk_jb_conf 200 60 1000 10))|].
  apply (rtc_l _ _ wit_jb1); [exact (js_put true wit_jb0 1%nat JB_TYPE_VOICE 20 100 110)|].
  apply rtc_once. exact (js_put true wit_jb1 2%nat JB_TYPE_VOICE 20 80 130).
Qed.

Lemma wit_jb2_ok : jb_ok wit_jb2.
Proof.
  assert (forall j j' : jitterbuf nat, rtc jb_step j j' -> jb_ok j -> jb_ok j') as H.
  { induction 1; eauto using jb_step_ok. }
  eapply H; [apply wit_jb2_reach|apply jb_reset_ok].
Qed.

Lemma jb_reachable_ok_witness : jb_queue_ok wit_jb2 /\ (jf_ts <$> frames wit_jb2) = [80; 100].
Proof.
  split; [|vm_compute; reflexivity].
  exact (proj1 (jb_reachable_ok
    (mk_jitterbuf (mk_jb_conf 0 0 0 0) jb_info_zero [] 0 [] [] false false [] [])
    _ wit_jb2 eq_refl wit_jb2_reach)).
Defined.

Lemma jb_history_extremes_witness :
  take 2 (hist_maxbuf (history_calc_maxbuf wit_jb2)) = [50; 10]
  /\ exists up, hist_minbuf (history_calc_maxbuf wit_jb2) = take 20 up /\ StronglySorted Z.le up.
Proof.
  split; [vm_compute; reflexivity|].
  assert (hist_ptr wit_jb2 <> 0) as Hp by (vm_compute; discriminate).
  destruct (jb_history_extremes wit_jb2 Hp) as (down & up & _ & _ & _ & Hs & _ & E).
  exists up. auto.
Defined.

Lemma jb_get_conserves_witness :
  (jb_get wit_jb2 200 20).1.1.2 = Some (mk_jb_frame 2%nat 80 20 JB_TYPE_VOICE)
  /\ let '((code, fo, jb'), _) := jb_get wit_jb2 200 20 in
     match fo with
     | Some f => frames wit_jb2 = f :: frames jb' /\ (code = JB_OK \/ code = JB_DROP)
     | None => frames jb' = frames wit_jb2 /\ (code = JB_INTERP \/ code = JB_NOFRAME)
     end.
Proof.
  split; [vm_compute; reflexivity|].
  exact (jb_get_conserves wit_jb2 200 20 (ok_hist _ wit_jb2_ok)).
Defined.

Lemma jb_put_inserts_witness :
  (jb_put true wit_jb2 3%nat JB_TYPE_CONTROL 0 90 140).1 = JB_OK
  /\ exists f, inserted f (frames wit_jb2)
       (frames (jb_put true wit_jb2 3%nat JB_TYPE_CONTROL 0 90 140).2).
Proof.
  assert ((jb_put true wit_jb2 3%nat JB_TYPE_CONTROL 0 90 140).1 = JB_OK) as Hc
    by (vm_compute; reflexivity).
  split; [exact Hc|].
  pose proof (jb_put_inserts wit_jb2 3%nat JB_TYPE_CONTROL 0 90 140 (ok_queue _ wit_jb2_ok)) as H.
  revert H Hc. generalize (jb_put true wit_jb2 3%nat JB_TYPE_CONTROL 0 90 140).
  intros [code jb'] [[-> _]|[H _]] Hc; [discriminate Hc|]. eexists. exact H.
Defined.

Lemma jb_target_bounds_witness :
  i_min (info (jb_retarget wit_jb2)) < i_target (info (jb_retarget wit_jb2)).
Proof.
  assert (0 < hist_ptr wit_jb2) as Hp by (vm_compute; reflexivity).
  assert (0 <= max_jitterbuf (jconf wit_jb2)) as Hm by (vm_compute; discriminate).
  exact (proj1 (proj1 (jb_target_bounds wit_jb2 (ok_hist _ wit_jb2_ok) Hp Hm))).
Defined.

Lemma wit_conf_hist_ok (jb : jitterbuf nat) c : jb_hist_ok jb -> jb_hist_ok (jb <| jconf := c |>).
Proof. by apply same_history_ok. Qed.

Lemma jb_default_max_clamps_witness :
  i_target (info (jb_retarget (wit_jb2 <| jconf := mk_jb_conf (-1) 60 (-1) 10 |>)))
  = i_min (info (jb_retarget (wit_jb2 <| jconf := mk_jb_conf (-1) 60 (-1) 10 |>))) - 1.
Proof.
  assert (0 < hist_ptr (wit_jb2 <| jconf := mk_jb_conf (-1) 60 (-1) 10 |>)) as Hp
    by (vm_compute; reflexivity).
  exact (jb_default_max_clamps _ (wit_conf_hist_ok _ _ (ok_hist _ wit_jb2_ok)) Hp eq_refl).
Defined.
