(* ===== verification/CStr.v ===== *)
(** * C strings

    A NUL-terminated string is a [string] without its terminator; a [char] is
    an [ascii].  The functions of the C library the sources use on strings:
    [strcmp] and [strcasecmp], [strchr] used to cut a string at a separator,
    [atoi] and the character classes, in the C locale. *)

From S2P Require Import Prelude.
From Stdlib Require Export Ascii.

Definition code (c : ascii) : Z := Z.of_N (N_of_ascii c).
Definition chr (z : Z) : ascii := ascii_of_N (Z.to_N z).

(** The value of a signed [char]. *)
Definition schar (c : ascii) : Z := wrap_s 8 (code c).

Definition char_eqb (c d : ascii) : bool := code c =? code d.

Definition isdigit (c : ascii) : bool := (48 <=? code c) && (code c <=? 57).
Definition isspace (c : ascii) : bool :=
  ((9 <=? code c) && (code c <=? 13)) || (code c =? 32).

Definition tolower (c : ascii) : ascii :=
  if (65 <=? code c) && (code c <=? 90) then chr (code c + 32) else c.

Definition toupper (c : ascii) : ascii :=
  if (97 <=? code c) && (code c <=? 122) then chr (code c - 32) else c.

(** [strcasecmp(s, t) == 0] *)
Fixpoint strcaseeq (s t : string) : bool :=
  match s, t with
  | EmptyString, EmptyString => true
  | String c s, String d t => char_eqb (tolower c) (tolower d) && strcaseeq s t
  | _, _ => false
  end.

(** The sign of [strcmp], by a key of the characters. *)
Fixpoint lexcmp (key : ascii -> Z) (s t : string) : comparison :=
  match s, t with
  | EmptyString, EmptyString => Eq
  | EmptyString, _ => Lt
  | _, EmptyString => Gt
  | String c s, String d t =>
    match key c ?= key d with Eq => lexcmp key s t | r => r end
  end.

Definition strcmp : string -> string -> comparison := lexcmp code.

(** [strcmp(s, t) == 0] *)
Definition streq (s t : string) : bool := match strcmp s t with Eq => true | _ => false end.

Definition strcasecmp : string -> string -> comparison := lexcmp (fun c => code (tolower c)).

(** [strncasecmp(s, t, strlen(t)) == 0] *)
Fixpoint strcaseprefix (s t : string) : bool :=
  match s, t with
  | _, EmptyString => true
  | String c s, String d t => char_eqb (tolower c) (tolower d) && strcaseprefix s t
  | _, _ => false
  end.

(** [memcmp(pre, s, strlen(pre)) == 0], with the rest of [s]. *)
Fixpoint strip (pre s : string) : option string :=
  match pre, s with
  | EmptyString, _ => Some s
  | String c pre, String d s => if char_eqb c d then strip pre s else None
  | _, EmptyString => None
  end.

(** The string up to the first [c], and what follows it if there is one: the
    idiom [if ((next = strchr(s, c))) *next++ = 0]. *)
Fixpoint strcut (c : ascii) (s : string) : string * option string :=
  match s with
  | EmptyString => (EmptyString, None)
  | String d s' =>
    if char_eqb d c then (EmptyString, Some s')
    else let '(a, b) := strcut c s' in (String d a, b)
  end.

(** The pieces between the separators, as repeated [strcut] yields them. *)
Fixpoint strsplit (c : ascii) (s : string) : list string :=
  match s with
  | EmptyString => [EmptyString]
  | String d s' =>
    if char_eqb d c then EmptyString :: strsplit c s'
    else match strsplit c s' with
         | t :: ts => String d t :: ts
         | [] => [String d EmptyString]
         end
  end.

(** The first [n] characters. *)
Fixpoint strtake (n : nat) (s : string) : string :=
  match n, s with
  | S n, String c s => String c (strtake n s)
  | _, _ => EmptyString
  end.

(** What follows them. *)
Fixpoint strdrop (n : nat) (s : string) : string :=
  match n, s with
  | S n, String c s => strdrop n s
  | _, _ => s
  end.

Fixpoint skip_spaces (s : string) : string :=
  match s with
  | String c s' => if isspace c then skip_spaces s' else s
  | EmptyString => EmptyString
  end.

(** The digits at the start of a string, as a number in base 10. *)
Fixpoint digits (acc : Z) (s : string) : Z :=
  match s with
  | String c s' => if isdigit c then digits (10 * acc + (code c - 48)) s' else acc
  | EmptyString => acc
  end.

(** [atoi] is [(int) strtol(s, NULL, 10)]; [strtol] stops at the limits of the
    64-bit [long]. *)
Definition atoi (s : string) : Z :=
  let clamp z := Z.max (- 2 ^ 63) (Z.min (2 ^ 63 - 1) z) in
  match skip_spaces s with
  | String "-" s' => s32 (clamp (- digits 0 s'))
  | String "+" s' => s32 (clamp (digits 0 s'))
  | s' => s32 (clamp (digits 0 s'))
  end.

(** ** Lemmas *)

Lemma code_chr z : 0 <= z < 256 -> code (chr z) = z.
Proof.
  intros Hz. unfold code, chr. rewrite N_ascii_embedding by lia. lia.
Qed.

Lemma chr_code c : chr (code c) = c.
Proof. unfold code, chr. rewrite N2Z.id. apply ascii_N_embedding. Qed.

Lemma code_bound c : 0 <= code c < 256.
Proof. unfold code. pose proof (N_ascii_bounded c). lia. Qed.

Lemma char_eqb_eq c d : char_eqb c d = true <-> c = d.
Proof.
  unfold char_eqb. rewrite Z.eqb_eq. split; [|by intros ->].
  intros H. by rewrite <- (chr_code c), <- (chr_code d), H.
Qed.

Lemma char_eqb_refl c : char_eqb c c = true.
Proof. by apply char_eqb_eq. Qed.

Lemma lexcmp_refl key s : lexcmp key s s = Eq.
Proof. induction s as [|c s IH]; simpl; [done|]. by rewrite Z.compare_refl. Qed.

Lemma lexcmp_antisym key s t : lexcmp key t s = CompOpp (lexcmp key s t).
Proof.
  revert t. induction s as [|c s IH]; intros [|d t]; simpl; try done.
  rewrite (Z.compare_antisym (key c)). destruct (key c ?= key d); simpl; auto.
Qed.

(** Equal strings compare in the same way with a third one. *)
Lemma lexcmp_eq_l key s t u : lexcmp key s t = Eq -> lexcmp key s u = lexcmp key t u.
Proof.
  revert t u. induction s as [|c s IH]; intros [|d t] [|e u]; simpl; try done.
  destruct (Z.compare_spec (key c) (key d)) as [E| |]; intros Hst; try done.
  rewrite E. by rewrite (IH t u).
Qed.

Lemma lexcmp_trans key s t u :
  lexcmp key s t = Lt -> lexcmp key t u = Lt -> lexcmp key s u = Lt.
Proof.
  revert t u. induction s as [|c s IH]; intros [|d t] [|e u]; simpl; try done.
  destruct (Z.compare_spec (key c) (key d)), (Z.compare_spec (key d) (key e)),
    (Z.compare_spec (key c) (key e)); intros; try done; try lia; eauto.
Qed.

Lemma strcmp_eq s t : strcmp s t = Eq <-> s = t.
Proof.
  split; [|intros ->; apply lexcmp_refl].
  unfold strcmp. revert t. induction s as [|c s IH]; intros [|d t]; simpl; try done.
  destruct (Z.compare_spec (code c) (code d)) as [E| |]; intros Hst; try done.
  apply IH in Hst as ->. f_equal. rewrite <- (chr_code c), E. apply chr_code.
Qed.

Lemma streq_eq s t : streq s t = true <-> s = t.
Proof. unfold streq. rewrite <- strcmp_eq. by destruct (strcmp s t). Qed.

Lemma streq_refl s : streq s s = true.
Proof. by apply streq_eq. Qed.

Lemma strcmp_antisym s t : strcmp t s = CompOpp (strcmp s t).
Proof. apply lexcmp_antisym. Qed.

Lemma strcasecmp_antisym s t : strcasecmp t s = CompOpp (strcasecmp s t).
Proof. apply lexcmp_antisym. Qed.

Lemma strcmp_trans s t u : strcmp s t = Lt -> strcmp t u = Lt -> strcmp s u = Lt.
Proof. apply lexcmp_trans. Qed.

Lemma strcasecmp_trans s t u : strcasecmp s t = Lt -> strcasecmp t u = Lt -> strcasecmp s u = Lt.
Proof. apply lexcmp_trans. Qed.

Lemma strcasecmp_eq_l s t u : strcasecmp s t = Eq -> strcasecmp s u = strcasecmp t u.
Proof. apply lexcmp_eq_l. Qed.

Lemma strcaseeq_refl s : strcaseeq s s = true.
Proof. induction s as [|c s IH]; simpl; [done|]. by rewrite char_eqb_refl, IH. Qed.

Lemma strcaseeq_sym s t : strcaseeq s t = strcaseeq t s.
Proof.
  revert t. induction s as [|c s IH]; intros [|d t]; simpl; try done.
  rewrite IH. f_equal. unfold char_eqb. apply Z.eqb_sym.
Qed.

Lemma strcaseeq_trans s t u :
  strcaseeq s t = true -> strcaseeq t u = strcaseeq s u.
Proof.
  revert t u. induction s as [|c s IH]; intros [|d t] [|e u]; simpl; try done.
  intros H. b2p. match goal with H : char_eqb _ _ = true |- _ => apply char_eqb_eq in H as -> end.
  by rewrite (IH t).
Qed.

(** [strcut] undone by putting the separator back. *)
Lemma strcut_app c s a b :
  strcut c s = (a, b) ->
  s = match b with Some b => (a ++ String c b)%string | None => a end.
Proof.
  revert a b. induction s as [|d s IH]; intros a b; simpl.
  - by intros [= <- <-].
  - destruct (char_eqb d c) eqn:E.
    + apply char_eqb_eq in E as ->. by intros [= <- <-].
    + destruct (strcut c s) as [a' b'] eqn:Es. intros [= <- <-].
      specialize (IH _ _ eq_refl). subst s. by destruct b'.
Qed.

Lemma strcut_length c s a b :
  strcut c s = (a, Some b) -> (String.length b < String.length s)%nat.
Proof.
  revert a b. induction s as [|d s IH]; intros a b; simpl; [done|].
  destruct (char_eqb d c).
  - intros [= _ <-]. lia.
  - destruct (strcut c s) as [a' [b'|]] eqn:Es; intros [= _ <-].
    specialize (IH _ _ eq_refl). lia.
Qed.

Lemma strsplit_cut c s :
  strsplit c s = let '(a, b) := strcut c s in
                 a :: match b with Some b => strsplit c b | None => [] end.
Proof.
  induction s as [|d s IH]; simpl; [done|].
  destruct (char_eqb d c); [done|]. rewrite IH. by destruct (strcut c s) as [a b].
Qed.

(** ** Lengths *)

Lemma string_nil_app (s : string) : ("" ++ s)%string = s.
Proof. done. Qed.

Lemma string_cons_app c (s t : string) : (String c s ++ t)%string = String c (s ++ t).
Proof. done. Qed.

Lemma string_app_nil (s : string) : (s ++ "")%string = s.
Proof. induction s as [|c s IH]; [done|]. by rewrite string_cons_app, IH. Qed.

Lemma string_app_assoc (s t u : string) : ((s ++ t) ++ u)%string = (s ++ (t ++ u))%string.
Proof. induction s as [|c s IH]; [done|]. by rewrite !string_cons_app, IH. Qed.

Lemma length_append (s t : string) : String.length (s +:+ t) = (String.length s + String.length t)%nat.
Proof. induction s as [|c s IH]; [done|]. rewrite string_cons_app. simpl. by rewrite IH. Qed.

Lemma strtake_all n s : (String.length s <= n)%nat -> strtake n s = s.
Proof. revert n. induction s as [|c s IH]; intros [|n]; simpl; try done; [lia|]. intros. by rewrite IH by lia. Qed.

Lemma strtake_length n s : String.length (strtake n s) = Nat.min n (String.length s).
Proof. revert s. induction n as [|n IH]; intros [|c s]; simpl; try done. by rewrite IH. Qed.

Lemma strdrop_length n s : String.length (strdrop n s) = (String.length s - n)%nat.
Proof. revert s. induction n as [|n IH]; intros [|c s]; simpl; auto. Qed.

Lemma strtake_drop n s : (strtake n s ++ strdrop n s)%string = s.
Proof. revert s. induction n as [|n IH]; intros [|c s]; simpl; try done. by rewrite string_cons_app, IH. Qed.

Lemma strtake_app n (s t : string) :
  strtake n (s ++ t) = (strtake n s ++ strtake (n - String.length s) t)%string.
Proof.
  revert n. induction s as [|c s IH]; intros n; simpl.
  - rewrite !string_nil_app, Nat.sub_0_r. by destruct n.
  - rewrite string_cons_app. destruct n as [|n]; simpl; [done|]. by rewrite IH, string_cons_app.
Qed.

Lemma strdrop_app (s t : string) : strdrop (String.length s) (s ++ t) = t.
Proof. induction s as [|c s IH]; [done|]. by rewrite string_cons_app. Qed.
