(* ===== verification/Utils.v ===== *)
(** * Utilities (corelib/utils.c)

    Truth values of configuration files, base64 and the %XX encoding of URIs.
    The tables [base64] and [b2a] are those [base64_init] fills.  Output
    buffers have a size: a write outside, like a read outside a table, makes
    the result [None].  A [char] is signed. *)

From S2P Require Import Prelude CStr.

Definition cw_true (s : string) : bool :=
  match s with
  | EmptyString => false
  | _ => strcaseeq s "yes" || strcaseeq s "true" || strcaseeq s "y" || strcaseeq s "t"
         || strcaseeq s "1" || strcaseeq s "on"
  end.

Definition cw_false (s : string) : bool :=
  match s with
  | EmptyString => false
  | _ => strcaseeq s "no" || strcaseeq s "false" || strcaseeq s "n" || strcaseeq s "f"
         || strcaseeq s "0" || strcaseeq s "off"
  end.

(** ** base64 *)

(** [base64_init]: the two tables, entry by entry; [b2a] is -1 elsewhere. *)
Definition base64_steps : list (Z * Z) :=
  (seqZ 0 26 ≫= (fun x =>
     [(x, 65 + x); (x + 26, 97 + x)] ++ (if x <? 10 then [(x + 52, 48 + x)] else [])))
  ++ [(62, 43); (63, 47)].

Definition base64_init : list Z * list Z :=
  foldl (fun '(enc, dec) '(i, c) => (<[Z.to_nat i := c]> enc, <[Z.to_nat c := i]> dec))
    (replicate 64 0, replicate 256 (-1)) base64_steps.

Definition base64 : list Z := Eval vm_compute in base64_init.1.
Definition b2a : list Z := Eval vm_compute in base64_init.2.

(** The loop of [cw_base64decode]: [byte] and [bits] are [unsigned int];
    [src] is a list of [char]s, and a negative one indexes before the table. *)
Fixpoint base64decode_loop (src : list Z) (max byte bits cnt : Z) : option (list Z) :=
  match src with
  | [] => Some []
  | c :: src =>
    if cnt <? max then
      if (c <? 0) then None
      else
        let byte := u32 (Z.shiftl byte 6) in
        let byte := Z.lor byte (Z.land (nth (Z.to_nat c) b2a 0) 63) in
        let bits := bits + 6 in
        if 8 <=? bits then
          let bits := bits - 8 in
          (fun r => Z.land (Z.shiftr byte bits) 255 :: r)
            <$> base64decode_loop src max byte bits (cnt + 1)
        else base64decode_loop src max byte bits cnt
    else Some []
  end.

(** The bytes written to [dst]; their number is returned. *)
Definition cw_base64decode (src : list Z) (max : Z) : option (list Z) :=
  base64decode_loop src max 0 0 0.

(** The inner loop of [cw_base64encode]: characters while six bits are left. *)
Fixpoint base64_sextets (fuel : nat) (byte bits cnt max : Z) : list Z * Z * Z :=
  match fuel with
  | O => ([], bits, cnt)
  | S fuel =>
    if (6 <=? bits) && (cnt <? max) then
      let bits := bits - 6 in
      let index := Z.land (Z.shiftr byte bits) 63 in
      let '(r, bits', cnt') := base64_sextets fuel byte bits (cnt + 1) max in
      (nth (Z.to_nat index) base64 0 :: r, bits', cnt')
    else ([], bits, cnt)
  end.

Fixpoint base64encode_loop (src : list Z) (byte bits cnt max : Z) : list Z :=
  let finish :=
    if negb (bits =? 0) && (cnt <? max) then
      [nth (Z.to_nat (Z.land (u32 (Z.shiftl byte (6 - bits))) 63)) base64 0]
    else [] in
  match src with
  | [] => finish
  | b :: src =>
    if cnt <? max then
      let byte := Z.lor (u32 (Z.shiftl byte 8)) b in
      let bits := bits + 8 in
      let '(r, bits, cnt) := base64_sextets (Z.to_nat bits) byte bits cnt max in
      r ++ base64encode_loop src byte bits cnt max
    else finish
  end.

(** The characters written, without the final NUL; [max] is the size of the
    buffer. *)
Definition cw_base64encode (src : list Z) (max : Z) : list Z :=
  base64encode_loop src 0 0 0 (max - 1).

(** *** Round trip *)

(** The same with the pending bits as a number [r] below [2 ^ bits], sextets
    instead of characters, and no limit on the output. *)
Fixpoint enc_spec (bits r : Z) (src : list Z) : list Z :=
  match src with
  | [] => if bits =? 0 then [] else [r * 2 ^ (6 - bits)]
  | a :: src =>
    let w := r * 256 + a in
    if bits =? 4 then w / 64 :: w mod 64 :: enc_spec 0 0 src
    else w / 2 ^ (bits + 2) :: enc_spec (bits + 2) (w mod 2 ^ (bits + 2)) src
  end.

Fixpoint dec_spec (bits r : Z) (l : list Z) : list Z :=
  match l with
  | [] => []
  | s :: l =>
    let w := r * 64 + s in
    if bits <? 2 then dec_spec (bits + 6) w l
    else w / 2 ^ (bits - 2) :: dec_spec (bits - 2) (w mod 2 ^ (bits - 2)) l
  end.

Definition octet (b : Z) : Prop := 0 <= b < 256.

Section equations.
Context (r a : Z) (l : list Z).
Lemma enc_0 : enc_spec 0 r (a :: l) = (r * 256 + a) / 4 :: enc_spec 2 ((r * 256 + a) mod 4) l.
Proof. reflexivity. Qed.
Lemma enc_2 : enc_spec 2 r (a :: l) = (r * 256 + a) / 16 :: enc_spec 4 ((r * 256 + a) mod 16) l.
Proof. reflexivity. Qed.
Lemma enc_4 : enc_spec 4 r (a :: l) = (r * 256 + a) / 64 :: (r * 256 + a) mod 64 :: enc_spec 0 0 l.
Proof. reflexivity. Qed.
Lemma dec_0 : dec_spec 0 r (a :: l) = dec_spec 6 (r * 64 + a) l.
Proof. reflexivity. Qed.
Lemma dec_6 : dec_spec 6 r (a :: l) = (r * 64 + a) / 16 :: dec_spec 4 ((r * 64 + a) mod 16) l.
Proof. reflexivity. Qed.
Lemma dec_4 : dec_spec 4 r (a :: l) = (r * 64 + a) / 4 :: dec_spec 2 ((r * 64 + a) mod 4) l.
Proof. reflexivity. Qed.
Lemma dec_2 : dec_spec 2 r (a :: l) = (r * 64 + a) :: dec_spec 0 0 l.
Proof. cbn -[Z.mul Z.add]. by rewrite Z.div_1_r, Z.mod_1_r. Qed.
End equations.

Ltac divmod := Z.to_euclidean_division_equations; lia.

(** [rd] and [re] are the parts of one byte the decoder and the encoder hold. *)
Lemma dec_enc_spec src :
  Forall octet src ->
  dec_spec 0 0 (enc_spec 0 0 src) = src
  /\ (forall rd re, 0 <= rd < 64 -> 0 <= re < 4 ->
        dec_spec 6 rd (enc_spec 2 re src) = rd * 4 + re :: src)
  /\ (forall rd re, 0 <= rd < 16 -> 0 <= re < 16 ->
        dec_spec 4 rd (enc_spec 4 re src) = rd * 16 + re :: src).
Proof.
  induction 1 as [|a src Ha _ (IH0 & IH2 & IH4)].
  { split; [done|]. split; intros rd re Hd He; simpl; f_equal; divmod. }
  unfold octet in Ha. split; [|split].
  - rewrite enc_0, dec_0, IH2 by divmod. f_equal. divmod.
  - intros rd re Hd He. rewrite enc_2, dec_6, IH4 by divmod. f_equal; [divmod|f_equal; divmod].
  - intros rd re Hd He. rewrite enc_4, dec_4, dec_2, IH0. f_equal; [divmod|f_equal; divmod].
Qed.

Lemma u32_shiftl v k : 0 <= k <= 32 -> u32 (Z.shiftl v k) = v mod 2 ^ (32 - k) * 2 ^ k.
Proof.
  intros Hk. unfold wrap_u. rewrite Z.shiftl_mul_pow2 by lia.
  replace (2 ^ 32) with (2 ^ (32 - k) * 2 ^ k) by (rewrite <- Z.pow_add_r by lia; f_equal; lia).
  apply Z.mul_mod_distr_r; apply Z.pow_nonzero; lia.
Qed.

(** A shift and an [or] append [k] bits; the low bits of the old value stay. *)
Lemma append_bits v s k n :
  0 <= k -> 0 <= n -> n + k <= 32 -> 0 <= s < 2 ^ k ->
  let v' := Z.lor (u32 (Z.shiftl v k)) s in
  v' mod 2 ^ (n + k) = (v mod 2 ^ n) * 2 ^ k + s.
Proof.
  intros Hk Hn Hnk Hs v'. unfold v'. rewrite u32_shiftl, lor_disjoint by lia.
  rewrite Z.pow_add_r by lia.
  assert (0 < 2 ^ k) by (apply Z.pow_pos_nonneg; lia).
  assert (0 < 2 ^ n) by (apply Z.pow_pos_nonneg; lia).
  set (x := v mod 2 ^ (32 - k)).
  assert (Ex : x mod 2 ^ n = v mod 2 ^ n).
  { unfold x. replace (2 ^ (32 - k)) with (2 ^ n * 2 ^ (32 - k - n))
      by (rewrite <- Z.pow_add_r by lia; f_equal; lia).
    assert (0 < 2 ^ (32 - k - n)) by (apply Z.pow_pos_nonneg; lia).
    rewrite Z.rem_mul_r by lia. rewrite (Z.mul_comm (2 ^ n)), Z.mod_add by lia.
    apply Z.mod_mod. lia. }
  assert (E1 : (x * 2 ^ k + s) mod 2 ^ k = s)
    by (rewrite Z.add_comm, Z.mod_add by lia; by apply Z.mod_small).
  assert (E2 : (x * 2 ^ k + s) / 2 ^ k = x)
    by (rewrite Z.div_add_l, (Z.div_small s) by lia; lia).
  rewrite (Z.mul_comm (2 ^ n)), Z.rem_mul_r, E1, E2, Ex by lia. lia.
Qed.

(** [k] bits of [v] below its [n] low ones. *)
Lemma extract_bits v n k :
  0 <= k <= n -> Z.land (Z.shiftr v (n - k)) (Z.ones k) = (v mod 2 ^ n) / 2 ^ (n - k).
Proof.
  intros Hk. rewrite Z.land_ones, Z.shiftr_div_pow2 by lia.
  replace (2 ^ n) with (2 ^ (n - k) * 2 ^ k) by (rewrite <- Z.pow_add_r by lia; f_equal; lia).
  assert (0 < 2 ^ k) by (apply Z.pow_pos_nonneg; lia).
  assert (0 < 2 ^ (n - k)) by (apply Z.pow_pos_nonneg; lia).
  rewrite Z.rem_mul_r by lia. rewrite (Z.mul_comm (2 ^ (n - k))), Z.div_add by lia.
  rewrite (Z.div_small (v mod _)) by (apply Z.mod_pos_bound; lia). lia.
Qed.

Definition base64_char (i : Z) : Z := nth (Z.to_nat i) base64 0.

Lemma sextets_one f byte n cnt max :
  6 <= n < 12 -> cnt < max ->
  base64_sextets (S (S f)) byte n cnt max
  = ([base64_char ((byte mod 2 ^ n) / 2 ^ (n - 6))], n - 6, cnt + 1).
Proof.
  intros Hn Hc. cbn [base64_sextets].
  destruct (Z.leb_spec 6 n); [|lia]. destruct (Z.ltb_spec cnt max); [|lia].
  destruct (Z.leb_spec 6 (n - 6)); [lia|]. cbn [andb].
  unfold base64_char. change 63 with (Z.ones 6). by rewrite extract_bits by lia.
Qed.

Lemma sextets_two f byte cnt max :
  cnt + 1 < max ->
  base64_sextets (S (S (S f))) byte 12 cnt max
  = ([base64_char ((byte mod 2 ^ 12) / 64); base64_char (byte mod 2 ^ 6)], 0, cnt + 2).
Proof.
  intros Hc. cbn [base64_sextets]. change (6 <=? 12) with true. change (12 - 6) with 6.
  change (6 <=? 6) with true. change (6 - 6) with 0. change (6 <=? 0) with false.
  destruct (Z.ltb_spec cnt max); [|lia]. destruct (Z.ltb_spec (cnt + 1) max); [|lia]. cbn [andb].
  unfold base64_char. change 63 with (Z.ones 6).
  pose proof (extract_bits byte 12 6 ltac:(lia)) as E1. change (12 - 6) with 6 in E1.
  pose proof (extract_bits byte 6 6 ltac:(lia)) as E2. change (6 - 6) with 0 in E2.
  rewrite E1, E2. change (2 ^ 0) with 1. rewrite Z.div_1_r.
  by replace (cnt + 1 + 1) with (cnt + 2) by lia.
Qed.

Lemma encode_link src byte bits cnt max :
  Forall octet src -> bits = 0 \/ bits = 2 \/ bits = 4 ->
  cnt + Z.of_nat (length (enc_spec bits (byte mod 2 ^ bits) src)) <= max ->
  base64encode_loop src byte bits cnt max
  = base64_char <$> enc_spec bits (byte mod 2 ^ bits) src.
Proof.
  intros Hs. revert byte bits cnt. induction Hs as [|a src Ha Hs IH]; intros byte bits cnt Hb Hl.
  - cbn [base64encode_loop enc_spec].
    destruct Hb as [->|[->| ->]]; [done|..]; cbn [enc_spec Z.eqb length] in Hl;
      (destruct (Z.ltb_spec cnt max); [|simpl in Hl; lia]); cbn [Z.eqb negb andb];
      cbn [fmap list_fmap]; unfold base64_char; repeat f_equal; rewrite u32_shiftl by lia;
      change 63 with (Z.ones 6); rewrite Z.land_ones by lia; simpl; divmod.
  - cbn [base64encode_loop]. unfold octet in Ha.
    destruct Hb as [->|[->| ->]].
    + rewrite enc_0 in *. cbn [length] in Hl. destruct (Z.ltb_spec cnt max); [|lia].
      change (0 + 8) with 8. change (Z.to_nat 8) with 8%nat. rewrite sextets_one by lia.
      pose proof (append_bits byte a 8 0 ltac:(lia) ltac:(lia) ltac:(lia) ltac:(simpl; lia)) as Ev.
      cbv zeta in Ev. set (v := Z.lor _ a) in *. clearbody v. change (0 + 8) with 8 in Ev.
      change (8 - 6) with 2. change (2 ^ 2) with 4. rewrite Ev. change (2 ^ 8) with 256.
      assert (E4 : v mod 2 ^ 2 = (byte mod 2 ^ 0 * 256 + a) mod 4) by (simpl in *; divmod).
      rewrite fmap_cons. cbn [app]. f_equal. rewrite IH; rewrite ?E4; [done|auto|lia].
    + rewrite enc_2 in *. cbn [length] in Hl. destruct (Z.ltb_spec cnt max); [|lia].
      change (2 + 8) with 10. change (Z.to_nat 10) with 10%nat. rewrite sextets_one by lia.
      pose proof (append_bits byte a 8 2 ltac:(lia) ltac:(lia) ltac:(lia) ltac:(simpl; lia)) as Ev.
      cbv zeta in Ev. set (v := Z.lor _ a) in *. clearbody v. change (2 + 8) with 10 in Ev.
      change (10 - 6) with 4. change (2 ^ 4) with 16. rewrite Ev. change (2 ^ 8) with 256.
      assert (E4 : v mod 2 ^ 4 = (byte mod 2 ^ 2 * 256 + a) mod 16) by (simpl in *; divmod).
      rewrite fmap_cons. cbn [app]. f_equal. rewrite IH; rewrite ?E4; [done|auto|lia].
    + rewrite enc_4 in *. cbn [length] in Hl. destruct (Z.ltb_spec cnt max); [|lia].
      change (4 + 8) with 12. change (Z.to_nat 12) with 12%nat. rewrite sextets_two by lia.
      pose proof (append_bits byte a 8 4 ltac:(lia) ltac:(lia) ltac:(lia) ltac:(simpl; lia)) as Ev.
      cbv zeta in Ev. set (v := Z.lor _ a) in *. clearbody v. change (4 + 8) with 12 in Ev.
      rewrite Ev. change (2 ^ 8) with 256.
      assert (E4 : v mod 2 ^ 6 = (byte mod 2 ^ 4 * 256 + a) mod 64) by (simpl in *; divmod).
      assert (E0 : v mod 2 ^ 0 = 0) by apply Z.mod_1_r.
      rewrite !fmap_cons. cbn [app]. rewrite E4. do 2 f_equal.
      rewrite IH; rewrite ?E0; [done|auto|lia].
Qed.

Lemma base64_tables s :
  0 <= s < 64 -> 0 <= base64_char s /\ Z.land (nth (Z.to_nat (base64_char s)) b2a 0) 63 = s.
Proof.
  intros Hs. assert (H : Forall (fun s => 0 <= base64_char s
    /\ Z.land (nth (Z.to_nat (base64_char s)) b2a 0) 63 = s) (seqZ 0 64)).
  { apply (bool_decide_unpack _). vm_compute. exact I. }
  rewrite Forall_forall in H. apply H, elem_of_seqZ. lia.
Qed.

Lemma enc_spec_sextets src bits r :
  Forall octet src -> (bits = 0 \/ bits = 2 \/ bits = 4) -> 0 <= r < 2 ^ bits ->
  Forall (fun s => 0 <= s < 64) (enc_spec bits r src).
Proof.
  intros Hs. revert bits r. induction Hs as [|a src Ha Hs IH]; intros bits r Hb Hr; unfold octet in *.
  - destruct Hb as [->|[->| ->]]; simpl in *; repeat constructor; lia.
  - destruct Hb as [->|[->| ->]]; simpl (2 ^ _) in Hr; rewrite ?enc_0, ?enc_2, ?enc_4.
    + constructor; [divmod|]. apply IH; [auto|simpl; divmod].
    + constructor; [divmod|]. apply IH; [auto|simpl; divmod].
    + constructor; [divmod|]. constructor; [divmod|]. apply IH; [auto|simpl; lia].
Qed.

Lemma enc_spec_length src bits r :
  bits = 0 \/ bits = 2 \/ bits = 4 ->
  6 * Z.of_nat (length (enc_spec bits r src)) <= 8 * Z.of_nat (length src) + bits + 4.
Proof.
  revert bits r. induction src as [|a src IH]; intros bits r Hb.
  - destruct Hb as [->|[->| ->]]; simpl; lia.
  - destruct Hb as [->|[->| ->]]; rewrite ?enc_0, ?enc_2, ?enc_4; cbn [length].
    + specialize (IH 2 ((r * 256 + a) mod 4)). lia.
    + specialize (IH 4 ((r * 256 + a) mod 16)). lia.
    + specialize (IH 0 0). lia.
Qed.

Lemma dec_step bits r s l :
  bits = 0 \/ bits = 2 \/ bits = 4 \/ bits = 6 ->
  dec_spec bits r (s :: l)
  = if bits =? 0 then dec_spec 6 (r * 64 + s) l
    else (r * 64 + s) / 2 ^ (bits - 2) :: dec_spec (bits - 2) ((r * 64 + s) mod 2 ^ (bits - 2)) l.
Proof. by intros [->|[->|[->| ->]]]. Qed.

Lemma decode_link l byte bits cnt max :
  Forall (fun s => 0 <= s < 64) l -> bits = 0 \/ bits = 2 \/ bits = 4 \/ bits = 6 ->
  cnt + Z.of_nat (length (dec_spec bits (byte mod 2 ^ bits) l)) <= max ->
  base64decode_loop (base64_char <$> l) max byte bits cnt
  = Some (dec_spec bits (byte mod 2 ^ bits) l).
Proof.
  intros Hl. revert byte bits cnt. induction Hl as [|s l Hs Hl IH]; intros byte bits cnt Hb Hm; [done|].
  rewrite fmap_cons. cbn [base64decode_loop].
  destruct (Z.ltb_spec cnt max) as [Hc|Hc].
  2:{ destruct (dec_spec bits (byte mod 2 ^ bits) (s :: l)); [done|cbn [length] in Hm; lia]. }
  destruct (base64_tables s Hs) as [H0 Ht]. destruct (Z.ltb_spec (base64_char s) 0); [lia|].
  rewrite Ht.
  assert (Ev := append_bits byte s 6 bits ltac:(lia) ltac:(lia) ltac:(lia) ltac:(simpl; lia)).
  cbv zeta in Ev. set (v := Z.lor _ s) in *. clearbody v. change (2 ^ 6) with 64 in Ev.
  rewrite dec_step in * by done. destruct (Z.eqb_spec bits 0) as [->|Hne].
  - change (0 + 6) with 6 in *. change (8 <=? 6) with false. cbv iota. rewrite <- Ev in *.
    apply IH; [auto|done].
  - destruct (Z.leb_spec 8 (bits + 6)); [|lia]. cbn [length] in Hm.
    assert (Ew : v mod 2 ^ (bits + 6 - 8) = (byte mod 2 ^ bits * 64 + s) mod 2 ^ (bits - 2)).
    { rewrite <- Ev. destruct Hb as [->|[->|[->| ->]]]; [done|..]; simpl; divmod. }
    rewrite IH; [|lia|rewrite Ew; replace (bits + 6 - 8) with (bits - 2) by lia; lia].
    cbn [fmap option_fmap option_map]. rewrite Ew.
    replace (bits + 6 - 8) with (bits - 2) by lia.
    replace 255 with (Z.ones 8) by done.
    replace (bits - 2) with (bits + 6 - 8) at 1 by lia. rewrite extract_bits by lia. rewrite Ev.
    by replace (bits + 6 - 8) with (bits - 2) by lia.
Qed.

(** Base64 decoding undoes encoding for every byte string, given an
    output buffer for the characters and their NUL and one for the bytes. *)
Theorem base64_roundtrip src max max' :
  Forall octet src ->
  (8 * Z.of_nat (length src) + 5) / 6 < max -> Z.of_nat (length src) <= max' ->
  cw_base64decode (cw_base64encode src max) max' = Some src.
Proof.
  intros Hs Hm Hm'. unfold cw_base64encode, cw_base64decode.
  pose proof (enc_spec_length src 0 0 ltac:(auto)) as Hlen.
  rewrite encode_link; [|done|auto|].
  2:{ change (0 mod 2 ^ 0) with 0. divmod. }
  change (0 mod 2 ^ 0) with 0. destruct (dec_enc_spec src Hs) as [E _].
  rewrite decode_link; change (0 mod 2 ^ 0) with 0; rewrite ?E; try done; [|auto].
  apply enc_spec_sextets; [done|auto|simpl; lia].
Qed.

Lemma base64_roundtrip_witness :
  cw_base64decode (cw_base64encode [0; 255; 16; 77] 10) 4 = Some [0; 255; 16; 77].
Proof.
  exact (base64_roundtrip [0; 255; 16; 77] 10 4 ltac:(repeat constructor; unfold octet; lia)
    ltac:(reflexivity) ltac:(simpl; lia)).
Defined.

(** ** URI encoding *)

Definition uri_reserved : string := ";/?:@&=+$,# ".

Fixpoint strchr (s : string) (c : ascii) : bool :=
  match s with
  | EmptyString => false
  | String d s => char_eqb c d || strchr s c
  end.

Definition hex_digit (z : Z) : ascii := chr (if z <? 10 then 48 + z else 87 + z).

(** [sprintf(out, "%%%02x", c)] *)
Definition percent (c : ascii) : string :=
  String "%" (String (hex_digit (code c / 16)) (String (hex_digit (code c mod 16)) EmptyString)).

Definition uri_converts (doreserved : bool) (c : ascii) : bool :=
  (127 <? code c) || (doreserved && strchr uri_reserved c).

Fixpoint uri_text (doreserved : bool) (s : string) : string :=
  match s with
  | EmptyString => EmptyString
  | String c s =>
    if uri_converts doreserved c then (percent c ++ uri_text doreserved s)%string
    else String c (uri_text doreserved s)
  end.

(** The text in [outbuf]; [None] when it does not fit with its NUL (the copy
    is then not terminated, or the conversion writes behind the buffer). *)
Definition cw_uri_encode (s : string) (buflen : Z) (doreserved : bool) : option string :=
  let t := uri_text doreserved s in
  if Z.of_nat (String.length t) <? buflen then Some t else None.

Definition hex_value (c : ascii) : option Z :=
  let z := code c in
  if isdigit c then Some (z - 48)
  else if (97 <=? z) && (z <=? 102) then Some (z - 87)
  else if (65 <=? z) && (z <=? 70) then Some (z - 55)
  else None.

(** [sscanf(s, "%2x", &tmp)]: the value if a number was converted. *)
Definition sscanf_2x (s : string) : option Z :=
  match skip_spaces s with
  | EmptyString => None
  | String c1 rest =>
    let second := match rest with String c2 _ => hex_value c2 | EmptyString => None end in
    if char_eqb c1 "+" then second
    else if char_eqb c1 "-" then Z.opp <$> second
    else
      match hex_value c1 with
      | None => None
      | Some d1 =>
        match second with
        | Some d2 => Some (16 * d1 + d2)
        | None =>
          match rest with
          | String c2 _ =>
            if (d1 =? 0) && (char_eqb c2 "x" || char_eqb c2 "X") then None else Some d1
          | EmptyString => Some d1
          end
        end
      end
  end.

(** The loop of [cw_uri_decode], [fuel] above the length of [s]. *)
Fixpoint uri_decode_loop (fuel : nat) (s : string) : string :=
  match fuel, s with
  | O, _ | _, EmptyString => EmptyString
  | S fuel, String c s' =>
    match (if char_eqb c "%" && (2 <=? String.length s')%nat then sscanf_2x s' else None) with
    | Some tmp =>
      String (chr (u8 tmp))
        (uri_decode_loop fuel (match s' with String _ (String _ r) => r | _ => EmptyString end))
    | None => String c (uri_decode_loop fuel s')
    end
  end.

(** The string that ends at the first NUL. *)
Fixpoint cut_nul (s : string) : string :=
  match s with
  | EmptyString => EmptyString
  | String c s => if code c =? 0 then EmptyString else String c (cut_nul s)
  end.

Definition cw_uri_decode (s : string) : string :=
  cut_nul (uri_decode_loop (S (String.length s)) s).

(** *** Round trip *)

Fixpoint all_chars (P : ascii -> bool) (s : string) : bool :=
  match s with
  | EmptyString => true
  | String c s => P c && all_chars P s
  end.

(** Text without a percent sign (and, being a C string, without NUL). *)
Definition plain (s : string) : bool :=
  all_chars (fun c => negb (char_eqb c "%") && negb (code c =? 0)) s.

Lemma code_ind (P : ascii -> Prop) :
  (forall z, 0 <= z < 256 -> P (chr z)) -> forall c, P c.
Proof. intros H c. rewrite <- (chr_code c). apply H. apply code_bound. Qed.

(** A property of characters, checked on all of them. *)
Lemma all_codes (p : ascii -> bool) :
  forallb (fun z => p (chr z)) (seqZ 0 256) = true -> forall c, p c = true.
Proof.
  intros H. apply code_ind. intros z Hz. rewrite forallb_forall in H.
  apply H, list_elem_of_In, elem_of_seqZ. lia.
Qed.

Lemma percent_digits c s :
  sscanf_2x (String (hex_digit (code c / 16)) (String (hex_digit (code c mod 16)) s))
  = Some (code c).
Proof.
  assert (H : bool_decide (hex_value (hex_digit (code c / 16)) = Some (code c / 16)
     /\ hex_value (hex_digit (code c mod 16)) = Some (code c mod 16)
     /\ isspace (hex_digit (code c / 16)) = false
     /\ char_eqb (hex_digit (code c / 16)) "+" = false
     /\ char_eqb (hex_digit (code c / 16)) "-" = false) = true).
  { revert c. apply all_codes. vm_compute. reflexivity. }
  apply bool_decide_eq_true in H as (E1 & E2 & Es & Ep & Em).
  unfold sscanf_2x. cbn [skip_spaces]. rewrite Es, Ep, Em, E1, E2. f_equal. divmod.
Qed.

Lemma percent_app c t :
  (percent c ++ t)%string
  = String "%" (String (hex_digit (code c / 16)) (String (hex_digit (code c mod 16)) t)).
Proof. reflexivity. Qed.

Lemma uri_decode_text res s fuel :
  plain s = true -> (String.length (uri_text res s) < fuel)%nat ->
  uri_decode_loop fuel (uri_text res s) = s.
Proof.
  revert fuel. induction s as [|c s IH]; intros fuel Hp Hf; cbn [uri_text] in *.
  { by destruct fuel. }
  cbn [plain all_chars] in Hp. b2p.
  destruct (uri_converts res c).
  - rewrite percent_app in *. cbn [String.length] in Hf. destruct fuel as [|fuel]; [lia|].
    cbn [uri_decode_loop]. rewrite char_eqb_refl. cbn [andb].
    cbn [String.length Nat.leb]. rewrite percent_digits. rewrite IH by (done || lia). f_equal.
    unfold wrap_u. rewrite Z.mod_small by apply code_bound. apply chr_code.
  - cbn [String.length] in Hf. destruct fuel as [|fuel]; [lia|]. cbn [uri_decode_loop].
    match goal with H : char_eqb c "%" = false |- _ => rewrite H end. cbn [andb].
    by rewrite IH by (done || lia).
Qed.

Lemma cut_nul_plain s : plain s = true -> cut_nul s = s.
Proof.
  induction s as [|c s IH]; cbn [plain all_chars cut_nul]; [done|]. intros H. b2p.
  match goal with H : code c <> 0 |- _ => apply Z.eqb_neq in H; rewrite H end.
  by rewrite IH.
Qed.

Lemma all_chars_app P s t : all_chars P (s ++ t) = all_chars P s && all_chars P t.
Proof.
  induction s as [|c s IH]; [done|].
  change (P c && all_chars P (s ++ t) = P c && all_chars P s && all_chars P t).
  by rewrite IH, andb_assoc.
Qed.

(** The characters that may appear in an encoded text. *)
Definition uri_safe (c : ascii) : bool := (code c <=? 127) && negb (strchr uri_reserved c).

Lemma percent_safe c : all_chars uri_safe (percent c) = true.
Proof. revert c. apply all_codes. vm_compute. reflexivity. Qed.

Lemma uri_text_safe s : all_chars uri_safe (uri_text true s) = true.
Proof.
  induction s as [|c s IH]; cbn [uri_text all_chars]; [done|]. unfold uri_converts.
  cbn [andb]. destruct ((127 <? code c) || strchr uri_reserved c) eqn:E.
  - rewrite all_chars_app, percent_safe. done.
  - cbn [all_chars]. rewrite IH, andb_true_r. b2p. unfold uri_safe.
    match goal with H : strchr _ _ = false |- _ => rewrite H end.
    by apply andb_true_iff; split; [apply Z.leb_le; lia|].
Qed.

(** An encoded URI (reserved characters included) has only 7-bit
    characters that are not reserved, and decoding gives the text back,
    provided the text has no percent sign. *)
Theorem uri_roundtrip s buflen res t :
  plain s = true -> cw_uri_encode s buflen res = Some t ->
  cw_uri_decode t = s /\ (res = true -> all_chars uri_safe t = true).
Proof.
  intros Hp. unfold cw_uri_encode. case_if; [|done]. intros [= <-]. split.
  - unfold cw_uri_decode. rewrite uri_decode_text by (done || lia). by apply cut_nul_plain.
  - intros ->. apply uri_text_safe.
Qed.

Lemma uri_roundtrip_witness :
  cw_uri_decode "a%3ab" = "a:b" /\ (true = true -> all_chars uri_safe "a%3ab" = true).
Proof. exact (uri_roundtrip "a:b" 20 true "a%3ab" eq_refl eq_refl). Defined.

(** The percent sign itself is not encoded: such a text does not survive. *)
Lemma uri_percent_lost :
  cw_uri_encode "100%41" 20 true = Some "100%41" /\ cw_uri_decode "100%41" = "100A".
Proof. split; reflexivity. Qed.
