(* ===== verification/Frame.v ===== *)
(** * Frames (include/callweaver/frame.h, corelib/frame.c)

    The frame header, its initialisation and copying, and the routines that
    work on the 16-bit samples of a frame.  [data] points into memory: it is
    the list of the bytes that may be read from there on, [None] for NULL;
    [datalen] is kept apart.  An access outside these bytes makes the result
    [None].  [int16_t] samples are little-endian, as on the hosts the code is
    built for.  The links [prev] and [next] are not modelled, and frames are
    values: who may free what is recorded in [mallocd]. *)

From S2P Require Import Prelude Time CStr.

Definition CW_FRIENDLY_OFFSET : Z := 64.
Definition CW_MIN_OFFSET : Z := 32.

Definition CW_MALLOCD_HDR : Z := 1.
Definition CW_MALLOCD_DATA : Z := 2.
Definition CW_MALLOCD_SRC : Z := 4.

Definition CW_FRAME_DTMF : Z := 1.
Definition CW_FRAME_VOICE : Z := 2.
Definition CW_FRAME_NULL : Z := 5.

Definition CW_FORMAT_SLINEAR : Z := Z.shiftl 1 6.

Record cw_frame := mk_cw_frame {
  f_frametype : Z;
  f_subclass : Z;
  f_datalen : Z;
  f_samples : Z;
  f_samplerate : Z;
  f_mallocd : Z;
  f_offset : Z;
  f_src : option string;
  f_data : option (list Z);
  f_delivery : timeval;
  f_has_timing_info : bool;
  f_ts : Z;
  f_len : Z;
  f_seq_no : Z;
  f_tx_copies : Z;
}.

#[export] Instance eta_cw_frame : Eta cw_frame := fun f =>
  mk_cw_frame (f_frametype f) (f_subclass f) (f_datalen f) (f_samples f) (f_samplerate f)
    (f_mallocd f) (f_offset f) (f_src f) (f_data f) (f_delivery f) (f_has_timing_info f)
    (f_ts f) (f_len f) (f_seq_no f) (f_tx_copies f).

Definition cw_fr_init : cw_frame :=
  mk_cw_frame CW_FRAME_NULL 0 0 0 8000 0 0 (Some "") None (cw_tv 0 0) false 0 0 (-1) 1.

Definition cw_fr_init_ex (frame_type sub_type : Z) (src : option string) : cw_frame :=
  mk_cw_frame frame_type sub_type 0 0 8000 0 0
    (match src with Some s => Some s | None => Some "" end)
    None (cw_tv 0 0) false 0 0 0 1.

(** [memcpy] of [n] bytes. *)
Definition mem_read (n : Z) (bytes : list Z) : option (list Z) :=
  if (0 <=? n) && (n <=? Z.of_nat (length bytes)) then Some (take (Z.to_nat n) bytes) else None.

(** What [cw_fr_free] gives back to the allocator: data, source, header. *)
Definition cw_fr_free (fr : cw_frame) : bool * bool * bool :=
  let flag b := negb (Z.land (f_mallocd fr) b =? 0) in
  (flag CW_MALLOCD_DATA && bool_decide (is_Some (f_data fr)),
   flag CW_MALLOCD_SRC && bool_decide (is_Some (f_src fr)),
   flag CW_MALLOCD_HDR).

(** [cw_frdup]: the outer [None] is an access outside the source's data, the
    inner one the NULL of a failed allocation. *)
Definition cw_frdup (malloc_ok : bool) (f : cw_frame) : option (option cw_frame) :=
  if negb malloc_ok then Some None
  else
    let out := cw_fr_init_ex (f_frametype f) (f_subclass f) None in
    let out := out <| f_datalen := f_datalen f |> <| f_samples := f_samples f |>
                   <| f_delivery := f_delivery f |> <| f_mallocd := CW_MALLOCD_HDR |>
                   <| f_offset := CW_FRIENDLY_OFFSET |> in
    let out :=
      match f_src f with
      | Some (String c s) => out <| f_src := Some (String c s) |>
      | _ => out <| f_src := None |>
      end in
    let finish out :=
      let out := out <| f_has_timing_info := f_has_timing_info f |> in
      let out := if f_has_timing_info f
                 then out <| f_ts := f_ts f |> <| f_len := f_len f |> else out in
      out <| f_seq_no := f_seq_no f |> in
    match f_data f with
    | Some bytes =>
      match mem_read (f_datalen f) bytes with
      | Some copy => Some (Some (finish (out <| f_data := Some copy |>)))
      | None => None
      end
    | None => Some (Some (finish (out <| f_data := None |>)))
    end.

(** ** 16-bit samples *)

Definition s16_of_bytes (lo hi : Z) : Z := s16 (lo + 256 * hi).
Definition bytes_of_s16 (v : Z) : list Z := [u8 v; u8 (Z.shiftr v 8)].

(** [for (i = 0; i < n; i++) p\[i\] = g(p\[i\])] on an [int16_t *]. *)
Fixpoint map_s16 (n : nat) (g : Z -> Z) (bytes : list Z) : option (list Z) :=
  match n, bytes with
  | O, _ => Some bytes
  | S n, lo :: hi :: rest =>
    match map_s16 n g rest with
    | Some rest' => Some (bytes_of_s16 (g (s16_of_bytes lo hi)) ++ rest')
    | None => None
    end
  | S _, _ => None
  end.

(** The same over two arrays, the first one written. *)
Fixpoint zip_s16 (n : nat) (g : Z -> Z -> Z) (a b : list Z) : option (list Z) :=
  match n, a, b with
  | O, _, _ => Some a
  | S n, lo :: hi :: a, lo' :: hi' :: b =>
    match zip_s16 n g a b with
    | Some r => Some (bytes_of_s16 (g (s16_of_bytes lo hi) (s16_of_bytes lo' hi')) ++ r)
    | None => None
    end
  | S _, _, _ => None
  end.

(** [(x << 8) | (x >> 8)] in [int], stored to an [int16_t]. *)
Definition swap_sample (x : Z) : Z :=
  s16 (Z.lor (Z.shiftl x 8) (Z.shiftr x 8)).

(** The bytes [cw_swapcopy_samples] writes to [dst]. *)
Definition cw_swapcopy_samples (src : list Z) (samples : Z) : option (list Z) :=
  match map_s16 (Z.to_nat samples) swap_sample src with
  | Some r => Some (take (2 * Z.to_nat samples) r)
  | None => None
  end.

Section spandsp.
Variable saturate : Z -> Z.

Definition adjust_value (adjustment : Z) : Z :=
  if adjustment >? 0 then s16 (Z.shiftl adjustment 11)
  else s16 (Z.quot (Z.shiftl 1 11) (- adjustment)).

Definition cw_frame_adjust_volume (f : cw_frame) (adjustment : Z) : option (Z * cw_frame) :=
  if negb (f_frametype f =? CW_FRAME_VOICE) || negb (f_subclass f =? CW_FORMAT_SLINEAR)
  then Some (-1, f)
  else if adjustment =? 0 then Some (0, f)
  else
    let v := adjust_value adjustment in
    let g x := saturate (Z.shiftr (x * v) 11) in
    match map_s16 (Z.to_nat (f_samples f)) g (default [] (f_data f)) with
    | Some d => Some (0, f <| f_data := (fun _ => d) <$> f_data f |>)
    | None => None
    end.

Definition cw_frame_slinear_sum (f1 f2 : cw_frame) : option (Z * cw_frame) :=
  if negb (f_frametype f1 =? CW_FRAME_VOICE) || negb (f_subclass f1 =? CW_FORMAT_SLINEAR)
  then Some (-1, f1)
  else if negb (f_frametype f2 =? CW_FRAME_VOICE) || negb (f_subclass f2 =? CW_FORMAT_SLINEAR)
  then Some (-1, f1)
  else if negb (f_samples f1 =? f_samples f2) then Some (-1, f1)
  else
    match zip_s16 (Z.to_nat (f_samples f1)) (fun x y => saturate (x + y))
            (default [] (f_data f1)) (default [] (f_data f2)) with
    | Some d => Some (0, f1 <| f_data := (fun _ => d) <$> f_data f1 |>)
    | None => None
    end.

End spandsp.

(** ** Lemmas on samples *)

(** The first [n] samples at [bytes]. *)
Fixpoint s16s (n : nat) (bytes : list Z) : list Z :=
  match n, bytes with
  | S n, lo :: hi :: rest => s16_of_bytes lo hi :: s16s n rest
  | _, _ => []
  end.

Definition is_byte (b : Z) : Prop := 0 <= b < 256.

#[export] Instance is_byte_dec b : Decision (is_byte b).
Proof. unfold is_byte. apply _. Defined.

Lemma s16_bytes v : s16_of_bytes (u8 v) (u8 (Z.shiftr v 8)) = s16 v.
Proof.
  unfold s16_of_bytes. rewrite Z.shiftr_div_pow2 by lia.
  assert (E : u8 v + 256 * u8 (v / 2 ^ 8) = v mod 65536).
  { unfold wrap_u. change (2 ^ 8) with 256.
    change 65536 with (256 * 256). rewrite Z.rem_mul_r by lia. done. }
  rewrite E. unfold wrap_s. change (2 ^ 16) with 65536. by rewrite Z.mod_mod.
Qed.

Lemma s16_bound v : -32768 <= s16 v < 32768.
Proof. apply (wrap_s_bound 16). lia. Qed.

Lemma map_s16_spec n g bytes :
  (2 * n <= length bytes)%nat ->
  exists d, map_s16 n g bytes = Some d
    /\ s16s n d = (fun x => s16 (g x)) <$> s16s n bytes
    /\ drop (2 * n) d = drop (2 * n) bytes /\ length d = length bytes.
Proof.
  revert bytes. induction n as [|n IH]; intros bytes Hl.
  { eexists. by split_and!; try done; destruct bytes. }
  destruct bytes as [|lo [|hi rest]]; simpl in Hl; [lia|lia|].
  destruct (IH rest) as (d & E & Es & Ed & El); [lia|].
  eexists. simpl. rewrite E. split; [done|]. split; [|split].
  - simpl. by rewrite s16_bytes, Es.
  - replace (n + S (n + 0))%nat with (S (2 * n)) by lia. done.
  - simpl. by rewrite El.
Qed.

(** Two bytes of one sample, as [cw_swapcopy_samples] leaves them. *)
Definition swapped (p : Z * Z) : list Z :=
  let '(lo, hi) := p in if hi <? 128 then [hi; lo] else [hi; 255].

Definition byte_pairs : list (Z * Z) :=
  lo ← seqZ 0 256; (fun hi => (lo, hi)) <$> seqZ 0 256.

Lemma swap_sample_bytes lo hi :
  is_byte lo -> is_byte hi ->
  bytes_of_s16 (swap_sample (s16_of_bytes lo hi)) = swapped (lo, hi).
Proof.
  intros Hlo Hhi.
  assert (H : forallb (fun '(lo, hi) => bool_decide
      (bytes_of_s16 (swap_sample (s16_of_bytes lo hi)) = swapped (lo, hi))) byte_pairs = true)
    by (vm_compute; reflexivity).
  rewrite forallb_forall in H. specialize (H (lo, hi)).
  apply bool_decide_eq_true in H; [done|]. apply list_elem_of_In.
  unfold byte_pairs. apply list_elem_of_bind. exists lo. split.
  - apply list_elem_of_fmap. exists hi. split; [done|]. apply elem_of_seqZ. unfold is_byte in *. lia.
  - apply elem_of_seqZ. unfold is_byte in *. lia.
Qed.

Lemma length_swapped l : length (l ≫= swapped) = (2 * length l)%nat.
Proof.
  induction l as [|[lo hi] l IH]; [done|].
  rewrite bind_cons, length_app, IH. unfold swapped. case_if; simpl; lia.
Qed.

(** ** Properties *)

(** [cw_swapcopy_samples] exchanges the two bytes of a sample only when
    the sample is not negative: the shift to the right extends the sign, so
    of a negative sample the low byte is lost and 0xff stored in its place. *)
Theorem swapcopy_bytes (l : list (Z * Z)) :
  Forall (fun '(lo, hi) => is_byte lo /\ is_byte hi) l ->
  cw_swapcopy_samples (l ≫= (fun '(lo, hi) => [lo; hi])) (Z.of_nat (length l))
  = Some (l ≫= swapped).
Proof.
  intros Hl. unfold cw_swapcopy_samples. rewrite Nat2Z.id.
  assert (E : map_s16 (length l) swap_sample (l ≫= (fun '(lo, hi) => [lo; hi]))
              = Some (l ≫= swapped)).
  { induction Hl as [|[lo hi] l [Hlo Hhi] _ IH]; [done|].
    cbn [length mbind list_bind app map_s16]. cbn [mbind] in IH. rewrite IH. by rewrite swap_sample_bytes. }
  rewrite E. rewrite take_ge; [done|]. rewrite length_swapped. lia.
Qed.

Lemma swapcopy_bytes_witness :
  cw_swapcopy_samples [1; 2; 254; 255] 2 = Some [2; 1; 255; 255].
Proof.
  exact (swapcopy_bytes [(1, 2); (254, 255)]
    (ltac:(repeat constructor; unfold is_byte; lia))).
Defined.

Section volume.
Variable saturate : Z -> Z.
(** spandsp: saturate an amplitude to 16 bits. *)
Hypothesis saturate_spec : forall x, saturate x = Z.max (-32768) (Z.min 32767 x).

(** The factor a positive adjustment really multiplies with. *)
Definition gain (adjustment : Z) : Z := wrap_s 5 adjustment.

Lemma adjust_value_gain a : 0 < a -> adjust_value a = 2048 * gain a.
Proof.
  intros Ha. unfold adjust_value, gain. rewrite Z.gtb_ltb.
  destruct (Z.ltb_spec 0 a); [|lia].
  rewrite Z.shiftl_mul_pow2 by lia. unfold wrap_s.
  change (2 ^ 16) with (32 * 2048). change (2 ^ 11) with 2048.
  change (2 ^ 5) with 32. change (2 ^ (16 - 1)) with (16 * 2048). change (2 ^ (5 - 1)) with 16.
  rewrite Z.mul_mod_distr_r by lia.
  destruct (Z.ltb_spec (a mod 32) 16); destruct (Z.ltb_spec (a mod 32 * 2048) (16 * 2048)); lia.
Qed.

Lemma sat_s16 x : s16 (saturate x) = saturate x.
Proof. rewrite saturate_spec. apply wrap_s_small; lia. Qed.

(** A positive volume adjustment multiplies every sample of a signed
    linear frame and saturates, and touches nothing else; the factor is the
    adjustment up to 15, but from 16 on it wraps (16 inverts the signal and
    32 silences it). *)
Theorem adjust_volume_gain f a d :
  f_frametype f = CW_FRAME_VOICE -> f_subclass f = CW_FORMAT_SLINEAR ->
  f_data f = Some d -> 2 * f_samples f <= Z.of_nat (length d) -> 0 < a ->
  let n := Z.to_nat (f_samples f) in
  (exists d', cw_frame_adjust_volume saturate f a = Some (0, f <| f_data := Some d' |>)
    /\ s16s n d' = (fun x => Z.max (-32768) (Z.min 32767 (x * gain a))) <$> s16s n d
    /\ drop (2 * n) d' = drop (2 * n) d)
  /\ (a < 16 -> gain a = a) /\ (a = 16 -> gain a = -16) /\ (a = 32 -> gain a = 0).
Proof.
  intros Ht Hs Hd Hn Ha n. split.
  - unfold cw_frame_adjust_volume. rewrite Ht, Hs, Hd. simpl.
    destruct (Z.eqb_spec a 0); [lia|]. rewrite adjust_value_gain by done.
    destruct (map_s16_spec n (fun x => saturate (Z.shiftr (x * (2048 * gain a)) 11)) d)
      as (d' & E & Es & Ed & _); [unfold n; lia|].
    fold n. rewrite E. exists d'. split; [done|]. split; [|done]. rewrite Es.
    apply list_fmap_ext. intros _ x _. rewrite sat_s16, saturate_spec.
    rewrite Z.shiftr_div_pow2 by lia. replace (x * (2048 * gain a)) with (x * gain a * 2048) by lia.
    by rewrite Z.div_mul by lia.
  - unfold gain. split; [|split].
    + intros. apply wrap_s_small; simpl; lia.
    + by intros ->.
    + by intros ->.
Qed.

End volume.

Definition clamp16 (x : Z) : Z := Z.max (-32768) (Z.min 32767 x).

Definition wit_slin : cw_frame :=
  (cw_fr_init_ex CW_FRAME_VOICE CW_FORMAT_SLINEAR None)
    <| f_samples := 2 |> <| f_datalen := 4 |> <| f_data := Some [100; 0; 0; 128] |>.

Lemma adjust_volume_gain_witness :
  exists d', cw_frame_adjust_volume clamp16 wit_slin 32
             = Some (0, wit_slin <| f_data := Some d' |>)
    /\ s16s 2 d' = [0; 0].
Proof.
  destruct (adjust_volume_gain clamp16 (fun x => eq_refl) wit_slin 32 [100; 0; 0; 128]
    eq_refl eq_refl eq_refl ltac:(simpl; lia) ltac:(lia)) as [(d' & E & Es & _) _].
  exists d'. split; [exact E|]. exact Es.
Defined.
