(* ===== verification/Codec.v ===== *)
(** * Media formats (corelib/frame.c, cw_best_codec of corelib/channel.c)

    The table of formats, their names, the preference lists of codecs that
    channels keep, the "allow"/"disallow" lines of the configuration files,
    and the routines that compute how many samples a compressed frame holds.
    A format is one bit of an [int].  An access outside an array or object
    makes the result [None]. *)

From S2P Require Import Prelude CStr Frame.

Definition CW_AUDIO_CODEC_MASK : Z := 65535.
Definition CW_FORMAT_G723_1 : Z := Z.shiftl 1 0.
Definition CW_FORMAT_GSM : Z := Z.shiftl 1 1.
Definition CW_FORMAT_ULAW : Z := Z.shiftl 1 2.
Definition CW_FORMAT_ALAW : Z := Z.shiftl 1 3.
Definition CW_FORMAT_G726 : Z := Z.shiftl 1 4.
Definition CW_FORMAT_DVI_ADPCM : Z := Z.shiftl 1 5.
Definition CW_FORMAT_LPC10 : Z := Z.shiftl 1 7.
Definition CW_FORMAT_G729A : Z := Z.shiftl 1 8.
Definition CW_FORMAT_SPEEX : Z := Z.shiftl 1 9.
Definition CW_FORMAT_ILBC : Z := Z.shiftl 1 10.
Definition CW_FORMAT_OKI_ADPCM : Z := Z.shiftl 1 11.
Definition CW_FORMAT_G722 : Z := Z.shiftl 1 12.
Definition CW_FORMAT_MAX_AUDIO : Z := Z.shiftl 1 15.
Definition CW_FORMAT_JPEG : Z := Z.shiftl 1 16.
Definition CW_FORMAT_PNG : Z := Z.shiftl 1 17.
Definition CW_FORMAT_H261 : Z := Z.shiftl 1 18.
Definition CW_FORMAT_H263 : Z := Z.shiftl 1 19.
Definition CW_FORMAT_H263_PLUS : Z := Z.shiftl 1 20.
Definition CW_FORMAT_H264 : Z := Z.shiftl 1 21.
Definition CW_FORMAT_MAX_VIDEO : Z := Z.shiftl 1 24.

Record cw_format_list_s := mk_format {
  visible : bool;
  bits : Z;
  fmt_name : string;
  fmt_desc : string;
  sample_rate : Z;
}.

Definition cw_format_list : list cw_format_list_s :=
  [ mk_format true CW_FORMAT_G723_1 "g723" "G.723.1" 8000;
    mk_format true CW_FORMAT_GSM "gsm" "GSM" 8000;
    mk_format true CW_FORMAT_ULAW "ulaw" "G.711 u-law" 8000;
    mk_format true CW_FORMAT_ALAW "alaw" "G.711 A-law" 8000;
    mk_format true CW_FORMAT_G726 "g726" "G.726" 8000;
    mk_format true CW_FORMAT_DVI_ADPCM "dvi" "DVI-ADPCM" 8000;
    mk_format true CW_FORMAT_SLINEAR "slin" "16 bit Signed Linear PCM" 8000;
    mk_format true CW_FORMAT_LPC10 "lpc10" "LPC10" 8000;
    mk_format true CW_FORMAT_G729A "g729" "G.729A" 8000;
    mk_format true CW_FORMAT_SPEEX "speex" "SpeeX" 8000;
    mk_format true CW_FORMAT_ILBC "ilbc" "iLBC" 8000;
    mk_format true CW_FORMAT_OKI_ADPCM "oki" "OKI-ADPCM" 8000;
    mk_format true CW_FORMAT_G722 "g722" "G.722" 16000;
    mk_format false 0 "nothing" "undefined" 8000;
    mk_format false 0 "nothing" "undefined" 8000;
    mk_format false CW_FORMAT_MAX_AUDIO "maxaudio" "Maximum audio format" 8000;
    mk_format true CW_FORMAT_JPEG "jpeg" "JPEG image" 90000;
    mk_format true CW_FORMAT_PNG "png" "PNG image" 90000;
    mk_format true CW_FORMAT_H261 "h261" "H.261 Video" 90000;
    mk_format true CW_FORMAT_H263 "h263" "H.263 Video" 90000;
    mk_format true CW_FORMAT_H263_PLUS "h263p" "H.263+ Video" 90000;
    mk_format true CW_FORMAT_H264 "h264" "H.264 Video" 90000;
    mk_format false 0 "nothing" "undefined" 90000;
    mk_format false 0 "nothing" "undefined" 90000;
    mk_format false 0 "nothing" "undefined" 90000;
    mk_format false 0 "nothing" "undefined" 90000;
    mk_format false CW_FORMAT_MAX_VIDEO "maxvideo" "Maximum video format" 90000 ].

(** The entry [cw_format_list\[i\]], if there is one. *)
Definition format_at (i : Z) : option cw_format_list_s :=
  if 0 <=? i then cw_format_list !! Z.to_nat i else None.

Definition cw_codec_sample_rate (top_bit : Z -> Z) (f : cw_frame) : option Z :=
  if negb (f_frametype f =? CW_FRAME_VOICE) then Some (-1)
  else
    let codec := Z.land (f_subclass f) CW_AUDIO_CODEC_MASK in
    if codec =? 0 then Some (-1) else sample_rate <$> format_at (top_bit codec).

(** The first visible entry for exactly this format. *)
Definition format_entry (format : Z) : option cw_format_list_s :=
  List.find (fun e => visible e && (bits e =? format)) cw_format_list.

Definition cw_getformatname (format : Z) : string :=
  match format_entry format with Some e => fmt_name e | None => "unknown" end.

Definition cw_codec2str (codec : Z) : string :=
  match format_entry codec with Some e => fmt_desc e | None => "unknown" end.

Definition cw_codec_alias_table : list (string * string) :=
  [("slinear", "slin"); ("g723.1", "g723"); ("g711u", "ulaw"); ("g711a", "alaw")].

Definition cw_expand_codec_alias (s : string) : string :=
  match List.find (fun a => bool_decide (s = a.1)) cw_codec_alias_table with
  | Some a => a.2
  | None => s
  end.

Definition name_matches (name : string) (e : cw_format_list_s) : bool :=
  strcaseeq (fmt_name e) name || strcaseeq (fmt_name e) (cw_expand_codec_alias name).

Fixpoint formatbyname (all : bool) (name : string) (format : Z) (l : list cw_format_list_s) : Z :=
  match l with
  | [] => format
  | e :: l =>
    if visible e && (all || name_matches name e) then
      let format := Z.lor format (bits e) in
      if all then formatbyname all name format l else format
    else formatbyname all name format l
  end.

Definition cw_getformatbyname (name : string) : Z :=
  formatbyname (strcaseeq name "all") name 0 cw_format_list.

Definition cw_best_codec_prefs : list Z :=
  [ CW_FORMAT_ULAW; CW_FORMAT_ALAW; CW_FORMAT_SLINEAR; CW_FORMAT_G726; CW_FORMAT_DVI_ADPCM;
    CW_FORMAT_GSM; CW_FORMAT_ILBC; CW_FORMAT_SPEEX; CW_FORMAT_LPC10; CW_FORMAT_G729A;
    CW_FORMAT_G723_1; CW_FORMAT_OKI_ADPCM ].

Definition cw_best_codec (fmts : Z) : Z :=
  match List.find (fun p => negb (Z.land fmts p =? 0)) cw_best_codec_prefs with
  | Some p => p
  | None => 0
  end.

(** ** Preference lists

    [char order\[32\]]: one-based indices into the table of formats, ended by
    the first 0. *)

Record cw_codec_pref := mk_pref { order : list Z }.

Definition pref_size : nat := 32.
Definition list_size : nat := length cw_format_list.

Definition pref_zero : cw_codec_pref := mk_pref (replicate pref_size 0).

Definition pref_slot (pref : cw_codec_pref) (i : nat) : Z := nth i (order pref) 0.

Definition cw_codec_pref_index (pref : cw_codec_pref) (index : Z) : option Z :=
  let slot :=
    if (0 <=? index) && (index <? Z.of_nat pref_size) then pref_slot pref (Z.to_nat index) else 0 in
  if slot =? 0 then Some 0 else bits <$> format_at (slot - 1).

(** The slots up to the first 0 that are not for [format]. *)
Fixpoint pref_scan (format : Z) (slots : list Z) : option (list Z) :=
  match slots with
  | [] => Some []
  | slot :: slots =>
    if slot =? 0 then Some []
    else
      match format_at (slot - 1), pref_scan format slots with
      | Some e, Some kept => Some (if bits e =? format then kept else slot :: kept)
      | _, _ => None
      end
  end.

Definition cw_codec_pref_remove (pref : cw_codec_pref) (format : Z) : option cw_codec_pref :=
  if pref_slot pref 0 =? 0 then Some pref
  else
    match pref_scan format (take list_size (order pref)) with
    | Some kept => Some (mk_pref (kept ++ replicate (pref_size - length kept) 0))
    | None => None
    end.

(** The first index [i] from [x] on for which [p] holds of the entry. *)
Fixpoint find_index {A} (p : A -> bool) (x : Z) (l : list A) : option Z :=
  match l with
  | [] => None
  | a :: l => if p a then Some x else find_index p (x + 1) l
  end.

Definition format_newindex (format : Z) : Z :=
  match find_index (fun e => bits e =? format) 0 cw_format_list with
  | Some x => x + 1
  | None => -1
  end.

Definition cw_codec_pref_append (pref : cw_codec_pref) (format : Z)
    : option (Z * cw_codec_pref) :=
  match cw_codec_pref_remove pref format with
  | None => None
  | Some pref =>
    let newindex := format_newindex format in
    if newindex =? 0 then Some (Z.of_nat list_size, pref)
    else
      match find_index (fun slot => slot =? 0) 0 (take list_size (order pref)) with
      | Some x => Some (x, mk_pref (<[Z.to_nat x := newindex]> (order pref)))
      | None => Some (Z.of_nat list_size, pref)
      end
  end.

Fixpoint choose_scan (formats : Z) (slots : list Z) : option Z :=
  match slots with
  | [] => Some 0
  | slot :: slots =>
    if slot =? 0 then Some 0
    else
      match format_at (slot - 1) with
      | None => None
      | Some e => if negb (Z.land formats (bits e) =? 0) then Some (bits e)
                  else choose_scan formats slots
      end
  end.

Definition cw_codec_choose (pref : cw_codec_pref) (formats : Z) (find_best : bool) : option Z :=
  match choose_scan formats (take list_size (order pref)) with
  | None => None
  | Some ret =>
    if negb (ret =? 0) then Some ret
    else Some (if find_best then cw_best_codec formats else 0)
  end.

(** [right]: the order as letters, into a buffer of [size] bytes. *)
Fixpoint convert_chars (n : nat) (differential : Z) (from : list Z) : option (list Z) :=
  match n with
  | O => Some []
  | S n =>
    match from with
    | [] => None
    | c :: from =>
      if c =? 0 then Some []
      else (fun r => wrap_s 8 (c + differential) :: r) <$> convert_chars n differential from
    end
  end.

(** [to] after the call; [None] if the loop leaves one of the two buffers. *)
Definition cw_codec_pref_convert (pref : cw_codec_pref) (buf : list Z) (size : nat) (right : bool)
    : option (list Z) :=
  let '(from, mem, d) :=
    if right then (order pref, size, 65) else (buf, pref_size, -65) in
  match convert_chars 32 d from with
  | None => None
  | Some cs => if (length cs <=? mem)%nat then Some (cs ++ replicate (mem - length cs) 0) else None
  end.

(** [strncat] onto a string in a buffer of [size] bytes, with its NUL. *)
Definition strncat_in (size : Z) (buf add : string) : option string :=
  let r := (buf ++ add)%string in
  if Z.of_nat (String.length r) <? size then Some r else None.

Fixpoint pref_string_loop (n : nat) (x size total_len : Z) (pref : cw_codec_pref) (buf : string)
    : option (string * Z) :=
  match n with
  | O => Some (buf, total_len)
  | S n =>
    if total_len <=? 0 then Some (buf, total_len)
    else
      match cw_codec_pref_index pref x with
      | None => None
      | Some codec =>
        if codec =? 0 then Some (buf, total_len)
        else
          let name := cw_getformatname codec in
          let slen := Z.of_nat (String.length name) in
          if total_len <? slen then Some (buf, total_len)
          else
            match strncat_in size buf name with
            | None => None
            | Some buf =>
              let total_len := total_len - slen in
              match (if negb (total_len =? 0) && (x <? 31)
                     then cw_codec_pref_index pref (x + 1) else Some 0) with
              | None => None
              | Some 0 => pref_string_loop n (x + 1) size total_len pref buf
              | Some _ =>
                match strncat_in size buf "," with
                | None => None
                | Some buf => pref_string_loop n (x + 1) size (total_len - 1) pref buf
                end
              end
            end
      end
  end.

(** The text and the number of bytes used; [None] for a write past the end of
    the buffer. *)
Definition cw_codec_pref_string (pref : cw_codec_pref) (size : Z) : option (string * Z) :=
  match strncat_in size "" "(" with
  | None => None
  | Some buf =>
    match pref_string_loop 32 0 size (size - 1) pref buf with
    | None => None
    | Some (buf, total_len) =>
      if total_len =? 0 then Some (buf, size - total_len)
      else
        match strncat_in size buf ")" with
        | None => None
        | Some buf => Some (buf, size - (total_len - 1))
        end
    end
  end.

(** One "allow" or "disallow" line: the list of names, the format mask and the
    preferences to update (either may be absent). *)
Definition allow_state : Type := option cw_codec_pref * option Z.

Definition allow_token (allowing : bool) (st : allow_state) (name : string) : option allow_state :=
  let '(pref, mask) := st in
  let format_i := cw_getformatbyname name in
  if 0 <? format_i then
    let mask :=
      (fun m => if allowing then Z.lor m format_i else Z.land m (Z.lnot format_i)) <$> mask in
    match pref with
    | Some p =>
      if negb (strcaseeq name "all") then
        (fun p' => (Some p', mask)) <$>
          (if allowing then snd <$> cw_codec_pref_append p format_i
           else cw_codec_pref_remove p format_i)
      else if negb allowing then Some (Some pref_zero, mask)
      else Some (Some p, mask)
    | None => if negb allowing then None else Some (None, mask)
    end
  else Some st.

Fixpoint allow_tokens (allowing : bool) (st : allow_state) (names : list string)
    : option allow_state :=
  match names with
  | [] => Some st
  | name :: names =>
    match allow_token allowing st name with
    | Some st => allow_tokens allowing st names
    | None => None
    end
  end.

Definition cw_parse_allow_disallow (pref : option cw_codec_pref) (mask : option Z)
    (list : string) (allowing : bool) : option allow_state :=
  allow_tokens allowing (pref, mask) (strsplit "," list).

(** ** Samples in a frame *)

Inductive scan :=
  | Samples (n : Z)
  | Bad_read
  | No_fuel.

Definition TYPE_HIGH : Z := 0.
Definition TYPE_LOW : Z := 1.
Definition TYPE_SILENCE : Z := 2.
Definition TYPE_DONTSEND : Z := 3.
Definition TYPE_MASK : Z := 3.

Definition g723_len (buf : Z) : Z :=
  let t := Z.land buf TYPE_MASK in
  if t =? TYPE_DONTSEND then 0
  else if t =? TYPE_SILENCE then 4
  else if t =? TYPE_HIGH then 24
  else if t =? TYPE_LOW then 20
  else -1.

Definition byte_at (data : list Z) (i : Z) : option Z :=
  if 0 <=? i then data !! Z.to_nat i else None.

Fixpoint g723_loop (fuel : nat) (buf : list Z) (maxlen pos samples : Z) : scan :=
  match fuel with
  | O => No_fuel
  | S fuel =>
    if pos <? maxlen then
      match byte_at buf pos with
      | None => Bad_read
      | Some b =>
        let res := g723_len b in
        if res <=? 0 then Samples samples
        else g723_loop fuel buf maxlen (pos + res) (samples + 240)
      end
    else Samples samples
  end.

Definition g723_samples (buf : list Z) (maxlen : Z) : scan :=
  g723_loop (S (Z.to_nat maxlen)) buf maxlen 0 0.

(** [ret] is an [unsigned char]. *)
Definition get_n_bits_at (data : list Z) (n bit : Z) : option Z :=
  let byte := Z.quot bit 8 in
  let rem := 8 - Z.rem bit 8 in
  if (n <=? 0) || (8 <? n) then Some 0
  else
    let mask := Z.shiftr 255 (8 - n) in
    if rem <? n then
      match byte_at data byte, byte_at data (byte + 1) with
      | Some a, Some b =>
        let ret := u8 (Z.shiftl a (n - rem)) in
        let ret := u8 (Z.lor ret (Z.shiftr b (8 - n + rem))) in
        Some (Z.land ret mask)
      | _, _ => None
      end
    else
      match byte_at data byte with
      | Some a => Some (Z.land (u8 (Z.shiftr a (rem - n))) mask)
      | None => None
      end.

Definition SpeexWBSubModeSz : list Z := [0; 36; 112; 192; 352; 0; 0; 0].
Definition SpeexSubModeSz : list Z :=
  [5; 43; 119; 160; 220; 300; 364; 492; 79; 0; 0; 0; 0; 0; 0; 0].
Definition SpeexInBandSz : list Z := [1; 1; 4; 4; 4; 4; 4; 4; 8; 8; 16; 16; 32; 32; 64; 64].

(** Is there a wideband frame at [off]?  Its size if so. *)
Definition speex_wb_here (data : list Z) (len off : Z) : option (option Z) :=
  if 5 <=? len * 8 - off then
    match get_n_bits_at data 1 off with
    | None => None
    | Some 0 => Some None
    | Some _ =>
      match get_n_bits_at data 3 (off + 1) with
      | None => None
      | Some c => Some (Some (nth (Z.to_nat c) SpeexWBSubModeSz 0))
      end
    end
  else Some None.

(** The third test reads one bit only. *)
Definition speex_wb_third (data : list Z) (len off : Z) : option bool :=
  if 5 <=? len * 8 - off then
    match get_n_bits_at data 1 off with
    | None => None
    | Some b => Some (negb (b =? 0))
    end
  else Some false.

Definition speex_get_wb_sz_at (data : list Z) (len bit : Z) : option Z :=
  match speex_wb_here data len bit with
  | None => None
  | Some None => Some 0
  | Some (Some sz) =>
    let off := bit + sz in
    match speex_wb_here data len off with
    | None => None
    | Some None => Some (off - bit)
    | Some (Some sz) =>
      let off := off + sz in
      match speex_wb_third data len off with
      | None => None
      | Some true => Some (-1)
      | Some false => Some (off - bit)
      end
    end
  end.

Fixpoint speex_loop (fuel : nat) (data : list Z) (len bit cnt : Z) : scan :=
  match fuel with
  | O => No_fuel
  | S fuel =>
    if 5 <=? len * 8 - bit then
      match speex_get_wb_sz_at data len bit with
      | None => Bad_read
      | Some off =>
        if off <? 0 then Samples cnt
        else
          let bit := bit + off in
          if len * 8 - bit <? 5 then Samples cnt
          else
            match get_n_bits_at data 5 bit with
            | None => Bad_read
            | Some c =>
              let bit := bit + 5 in
              if c =? 15 then Samples cnt
              else if c =? 14 then
                match get_n_bits_at data 4 bit with
                | None => Bad_read
                | Some c =>
                  speex_loop fuel data len (bit + 4 + nth (Z.to_nat c) SpeexInBandSz 0) cnt
                end
              else if c =? 13 then
                match get_n_bits_at data 5 bit with
                | None => Bad_read
                | Some c => speex_loop fuel data len (bit + 5 + c * 8) cnt
                end
              else if 8 <? c then Samples cnt
              else
                speex_loop fuel data len (bit + (nth (Z.to_nat c) SpeexSubModeSz 0 - 5)) (cnt + 160)
            end
      end
    else Samples cnt
  end.

Definition speex_samples (data : list Z) (len : Z) : scan :=
  speex_loop (S (Z.to_nat (len * 8))) data len 0 0.

Definition cw_codec_get_samples (f : cw_frame) : scan :=
  let data := default [] (f_data f) in
  let datalen := f_datalen f in
  if f_subclass f =? CW_FORMAT_SPEEX then speex_samples data datalen
  else if f_subclass f =? CW_FORMAT_G723_1 then g723_samples data datalen
  else if f_subclass f =? CW_FORMAT_ILBC then Samples (s32 (240 * Z.quot datalen 50))
  else if f_subclass f =? CW_FORMAT_GSM then Samples (s32 (160 * Z.quot datalen 33))
  else if f_subclass f =? CW_FORMAT_G729A then Samples (s32 (datalen * 8))
  else if f_subclass f =? CW_FORMAT_SLINEAR then Samples (Z.quot datalen 2)
  else if f_subclass f =? CW_FORMAT_LPC10 then
    match byte_at data 7 with
    | None => Bad_read
    | Some b => Samples (22 * 8 + Z.land b 1 * 8)
    end
  else if (f_subclass f =? CW_FORMAT_ULAW) || (f_subclass f =? CW_FORMAT_ALAW) then Samples datalen
  else if (f_subclass f =? CW_FORMAT_DVI_ADPCM) || (f_subclass f =? CW_FORMAT_G726)
  then Samples (s32 (datalen * 2))
  else Samples 0.

Definition cw_codec_get_len (format samples : Z) : Z :=
  if format =? CW_FORMAT_ILBC then s32 (Z.quot samples 240 * 50)
  else if format =? CW_FORMAT_GSM then s32 (Z.quot samples 160 * 33)
  else if format =? CW_FORMAT_G729A then Z.quot samples 8
  else if format =? CW_FORMAT_SLINEAR then s32 (samples * 2)
  else if (format =? CW_FORMAT_ULAW) || (format =? CW_FORMAT_ALAW) then samples
  else if (format =? CW_FORMAT_DVI_ADPCM) || (format =? CW_FORMAT_G726) then Z.quot samples 2
  else 0.

Definition cw_codec_interp_len (format : Z) : Z :=
  if format =? CW_FORMAT_ILBC then 30 else 20.

(** ** Preference lists as lists of formats *)

Definition known_formats : list Z :=
  filter (fun b => b <> 0) (bits <$> cw_format_list).

Abbreviation slot_of := format_newindex.

(** [p] holds exactly the formats [fs], most preferred first. *)
Record pref_rep (p : cw_codec_pref) (fs : list Z) : Prop := {
  rep_order : order p = (slot_of <$> fs) ++ replicate (pref_size - length fs) 0;
  rep_nodup : NoDup fs;
  rep_known : Forall (fun f => f ∈ known_formats) fs;
}.

Lemma known_slot f :
  f ∈ known_formats ->
  slot_of f <> 0 /\ exists e, format_at (slot_of f - 1) = Some e /\ bits e = f.
Proof.
  assert (H : Forall (fun f => slot_of f <> 0
     /\ exists e, format_at (slot_of f - 1) = Some e /\ bits e = f) known_formats).
  { repeat (constructor; [split; [done|eexists; split; reflexivity]|]). constructor. }
  rewrite Forall_forall in H. apply H.
Qed.

Lemma known_disjoint f g :
  f ∈ known_formats -> g ∈ known_formats -> f <> g -> Z.land f g = 0.
Proof.
  assert (H : forallb (fun f => forallb (fun g => (f =? g) || (Z.land f g =? 0)) known_formats)
                known_formats = true) by (vm_compute; reflexivity).
  intros Hf Hg Hne. rewrite forallb_forall in H.
  specialize (H f (proj1 (list_elem_of_In _ _) Hf)). rewrite forallb_forall in H.
  specialize (H g (proj1 (list_elem_of_In _ _) Hg)).
  apply orb_true_iff in H as [H|H]; b2p; [done|done].
Qed.

Lemma rep_length fs :
  NoDup fs -> Forall (fun f => f ∈ known_formats) fs -> (length fs <= 21)%nat.
Proof.
  intros Hn Hk. change 21%nat with (length known_formats).
  apply submseteq_length, NoDup_submseteq; [done|]. rewrite Forall_forall in Hk. exact Hk.
Qed.

Lemma pref_scan_spec f fs n :
  Forall (fun f => f ∈ known_formats) fs ->
  pref_scan f ((slot_of <$> fs) ++ replicate n 0) = Some (slot_of <$> filter (fun g => g <> f) fs).
Proof.
  induction 1 as [|g fs Hg _ IH]; [by destruct n|].
  destruct (known_slot g Hg) as (Hz & e & E & Eb). rewrite fmap_cons. cbn [app pref_scan].
  destruct (Z.eqb_spec (slot_of g) 0); [done|]. rewrite E, IH, Eb.
  destruct (Z.eqb_spec g f) as [->|Hne].
  - by rewrite filter_cons_False by auto.
  - by rewrite filter_cons_True.
Qed.

Lemma take_rep fs m n :
  (length fs <= m <= n)%nat ->
  take m ((slot_of <$> fs) ++ replicate (n - length fs) 0)
  = (slot_of <$> fs) ++ replicate (m - length fs) 0.
Proof.
  intros Hl. rewrite take_app, take_ge by (rewrite length_fmap; lia).
  rewrite length_fmap, take_replicate. f_equal. f_equal. lia.
Qed.

Lemma slot0_nil p fs : pref_rep p fs -> (pref_slot p 0 = 0 <-> fs = []).
Proof.
  intros [Ho _ Hk]. unfold pref_slot. rewrite Ho. destruct fs as [|f fs]; [done|].
  inversion_clear Hk as [|? ? Hf _]. destruct (known_slot f Hf) as [Hz _]. simpl. done.
Qed.

Lemma Forall_filter_weaken {A} (P Q : A -> Prop) `{!forall x, Decision (Q x)} l :
  Forall P l -> Forall P (filter Q l).
Proof.
  rewrite !Forall_forall. intros HP x [_ Hx]%list_elem_of_filter. by apply HP.
Qed.

Lemma pref_remove_rep p fs f :
  pref_rep p fs ->
  exists p', cw_codec_pref_remove p f = Some p' /\ pref_rep p' (filter (fun g => g <> f) fs).
Proof.
  intros Hr. destruct (slot0_nil _ _ Hr) as [Hnil Hnil']. pose proof Hr as [Ho Hn Hk].
  pose proof (rep_length _ Hn Hk) as Hl.
  unfold cw_codec_pref_remove. destruct (Z.eqb_spec (pref_slot p 0) 0) as [E|_].
  - rewrite (Hnil E). exists p. rewrite filter_nil. by rewrite <- (Hnil E).
  - rewrite Ho, take_rep by (unfold list_size, pref_size; simpl; lia).
    rewrite pref_scan_spec by done. eexists. split; [done|]. split.
    + simpl. by rewrite length_fmap.
    + by apply NoDup_filter.
    + by apply Forall_filter_weaken.
Qed.

Lemma find_index_zero fs n x :
  Forall (fun f => f ∈ known_formats) fs -> (0 < n)%nat ->
  find_index (fun s => s =? 0) x ((slot_of <$> fs) ++ replicate n 0)
  = Some (x + Z.of_nat (length fs)).
Proof.
  intros Hk Hn. revert x. induction Hk as [|g fs Hg _ IH]; intros x; rewrite ?fmap_cons; cbn [app find_index].
  - destruct n; [lia|]. simpl. f_equal. lia.
  - destruct (known_slot g Hg) as [Hz _]. destruct (Z.eqb_spec (slot_of g) 0); [done|].
    rewrite IH. f_equal. cbn [length]. lia.
Qed.

Lemma insert_at_zero fs (v : Z) n :
  (length fs < n)%nat ->
  <[length fs := v]> (fs ++ replicate (n - length fs) 0)
  = (fs ++ [v]) ++ replicate (n - length (fs ++ [v])) 0.
Proof.
  intros Hl. replace (length fs) with (length fs + 0)%nat at 1 by lia.
  rewrite insert_app_r. rewrite length_app. simpl.
  replace (n - length fs)%nat with (S (n - (length fs + 1))) by lia.
  rewrite <- app_assoc. done.
Qed.

Lemma pref_append_rep p fs f :
  pref_rep p fs -> f ∈ known_formats ->
  let kept := filter (fun g => g <> f) fs in
  exists p', cw_codec_pref_append p f = Some (Z.of_nat (length kept), p')
             /\ pref_rep p' (kept ++ [f]).
Proof.
  intros Hr Hf kept. destruct (pref_remove_rep p fs f Hr) as (p1 & E & [Ho Hn Hk]).
  pose proof (rep_length _ Hn Hk) as Hl. fold kept in Ho, Hn, Hk, Hl.
  unfold cw_codec_pref_append. rewrite E. destruct (known_slot f Hf) as [Hz _].
  destruct (Z.eqb_spec (slot_of f) 0); [done|].
  rewrite Ho, take_rep by (unfold list_size, pref_size; simpl; lia).
  rewrite find_index_zero by (done || (unfold list_size; simpl; lia)). rewrite Z.add_0_l.
  eexists. split; [done|]. split.
  - cbn [order]. rewrite Nat2Z.id, fmap_app.
    pose proof (insert_at_zero (slot_of <$> kept) (slot_of f) pref_size) as Hi.
    rewrite !length_app, !length_fmap in Hi. rewrite length_app. apply Hi. unfold pref_size. lia.
  - apply NoDup_app. split; [done|]. split; [|apply NoDup_singleton].
    intros g Hg ->%list_elem_of_singleton. apply list_elem_of_filter in Hg as [? _]. done.
  - apply Forall_app. by split; [|constructor].
Qed.

Lemma choose_scan_spec formats fs n :
  Forall (fun f => f ∈ known_formats) fs ->
  choose_scan formats ((slot_of <$> fs) ++ replicate n 0)
  = Some (default 0 (List.find (fun f => negb (Z.land formats f =? 0)) fs)).
Proof.
  induction 1 as [|g fs Hg _ IH]; [by destruct n|].
  destruct (known_slot g Hg) as (Hz & e & E & Eb). rewrite fmap_cons. cbn [app choose_scan List.find].
  destruct (Z.eqb_spec (slot_of g) 0); [done|]. rewrite E, IH, Eb.
  by destruct (negb (Z.land formats g =? 0)).
Qed.

(** ** Names of formats *)

Definition all_formats : Z := cw_getformatbyname "all".

(** Looking a name up without "all": the first visible entry it matches. *)
Lemma formatbyname_find name fmt l :
  formatbyname false name fmt l
  = match List.find (fun e => visible e && name_matches name e) l with
    | Some e => Z.lor fmt (bits e)
    | None => fmt
    end.
Proof.
  induction l as [|e l IH]; simpl; [done|]. destruct (visible e && name_matches name e); done.
Qed.

Lemma getformatbyname_find name :
  strcaseeq name "all" = false ->
  cw_getformatbyname name
  = match List.find (fun e => visible e && name_matches name e) cw_format_list with
    | Some e => bits e
    | None => 0
    end.
Proof.
  intros E. unfold cw_getformatbyname. rewrite E, formatbyname_find.
  destruct (List.find _ _); [|done]. by rewrite Z.lor_0_l.
Qed.

Lemma formatbyname_all name name' fmt l :
  formatbyname true name fmt l = formatbyname true name' fmt l.
Proof.
  revert fmt. induction l as [|e l IH]; intros fmt; simpl; [done|].
  destruct (visible e); simpl; apply IH.
Qed.

Lemma getformatbyname_all name :
  strcaseeq name "all" = true -> cw_getformatbyname name = all_formats.
Proof. intros E. unfold cw_getformatbyname. rewrite E. apply formatbyname_all. Qed.

Lemma visible_known e :
  e ∈ cw_format_list -> visible e = true -> bits e ∈ known_formats /\ 0 < bits e
    /\ format_entry (bits e) = Some e.
Proof.
  assert (H : Forall (fun e => visible e = true -> bits e ∈ known_formats /\ 0 < bits e
    /\ format_entry (bits e) = Some e) cw_format_list).
  { repeat (apply Forall_cons_2; [first [discriminate
      | intros _; split; [apply (bool_decide_unpack _); vm_compute; exact I|split; [done|reflexivity]]]|]).
    constructor. }
  rewrite Forall_forall in H. apply H.
Qed.

(** A name that is not "all" stands for one known format, or for none. *)
Lemma getformatbyname_known name :
  strcaseeq name "all" = false -> 0 < cw_getformatbyname name ->
  cw_getformatbyname name ∈ known_formats.
Proof.
  intros E. rewrite getformatbyname_find by done.
  destruct (List.find _ _) as [e|] eqn:F; [|lia]. apply List.find_some in F as [Hin Hm].
  apply andb_true_iff in Hm as [Hv _]. intros _.
  apply visible_known; [by apply list_elem_of_In|done].
Qed.

Lemma land_lnot_disjoint m f g :
  Z.land m f = f -> Z.land f g = 0 -> Z.land (Z.land m (Z.lnot g)) f = f.
Proof.
  intros Hm Hd. apply Z.bits_inj_iff'. intros n Hn.
  assert (Em := f_equal (fun z => Z.testbit z n) Hm).
  assert (Ed := f_equal (fun z => Z.testbit z n) Hd). simpl in Em, Ed.
  rewrite Z.land_spec in Em, Ed. rewrite Z.bits_0 in Ed.
  rewrite !Z.land_spec, Z.lnot_spec by lia.
  destruct (Z.testbit m n), (Z.testbit f n), (Z.testbit g n); done.
Qed.

Lemma land_lor_keep m f g : Z.land m f = f -> Z.land (Z.lor m g) f = f.
Proof.
  intros Hm. apply Z.bits_inj_iff'. intros n Hn.
  assert (Em := f_equal (fun z => Z.testbit z n) Hm). simpl in Em.
  rewrite Z.land_spec in Em. rewrite Z.land_spec, Z.lor_spec.
  destruct (Z.testbit m n), (Z.testbit f n), (Z.testbit g n); done.
Qed.

Lemma land_lor_new m f : Z.land (Z.lor m f) f = f.
Proof. rewrite Z.land_lor_distr_l, Z.land_diag. apply Z.bits_inj_iff'. intros n Hn.
  rewrite Z.lor_spec, Z.land_spec. by destruct (Z.testbit m n), (Z.testbit f n). Qed.

(** Every preferred format is in the mask. *)
Record allow_ok (p : cw_codec_pref) (m : Z) (fs : list Z) : Prop := {
  ok_rep : pref_rep p fs;
  ok_mask : Forall (fun f => Z.land m f = f) fs;
}.

Lemma pref_zero_rep : pref_rep pref_zero [].
Proof. split; [done|constructor|constructor]. Qed.

Lemma allow_token_ok allowing p m fs name :
  allow_ok p m fs ->
  exists p' m' fs', allow_token allowing (Some p, Some m) name = Some (Some p', Some m')
                    /\ allow_ok p' m' fs'.
Proof.
  intros [Hr Hm]. unfold allow_token.
  destruct (Z.ltb_spec 0 (cw_getformatbyname name)) as [Hp|_]; [|by eauto 6 using Build_allow_ok].
  destruct (strcaseeq name "all") eqn:Ea; cbn [negb fmap option_fmap option_map].
  - destruct allowing; cbn [negb]; do 3 eexists; (split; [done|]).
    + split; [done|]. eapply Forall_impl; [done|]. intros f. apply land_lor_keep.
    + split; [apply pref_zero_rep|constructor].
  - pose proof (getformatbyname_known name Ea Hp) as Hk.
    set (f := cw_getformatbyname name) in *. destruct allowing.
    + destruct (pref_append_rep p fs f Hr Hk) as (p' & E & Hr'). rewrite E.
      do 3 eexists. split; [done|]. split; [done|]. apply Forall_app. split.
      * apply Forall_filter_weaken. eapply Forall_impl; [done|]. intros g. apply land_lor_keep.
      * constructor; [apply land_lor_new|constructor].
    + destruct (pref_remove_rep p fs f Hr) as (p' & E & Hr'). rewrite E.
      do 3 eexists. split; [done|]. split; [done|].
      apply Forall_forall. intros g [Hne Hg]%list_elem_of_filter.
      rewrite Forall_forall in Hm. apply land_lnot_disjoint; [by apply Hm|].
      destruct Hr as [_ _ Hkn]. rewrite Forall_forall in Hkn.
      apply known_disjoint; [by apply Hkn|done|done].
Qed.

(** ** Properties of names and preferences *)

(** The byte array of a preference list implements a duplicate-free list
    of formats: removing filters it, appending moves the format to the end
    (and returns its position), indexing reads it, and choosing takes the
    first preferred format among those offered, else the best codec or 0.  No
    operation leaves its arrays. *)
Theorem pref_refines p fs :
  pref_rep p fs ->
  (forall f, exists p', cw_codec_pref_remove p f = Some p'
                        /\ pref_rep p' (filter (fun g => g <> f) fs))
  /\ (forall f, f ∈ known_formats ->
      let kept := filter (fun g => g <> f) fs in
      exists p', cw_codec_pref_append p f = Some (Z.of_nat (length kept), p')
                 /\ pref_rep p' (kept ++ [f]))
  /\ (forall i : nat, cw_codec_pref_index p (Z.of_nat i) = Some (nth i fs 0))
  /\ (forall formats best,
      cw_codec_choose p formats best
      = Some match List.find (fun f => negb (Z.land formats f =? 0)) fs with
             | Some f => f
             | None => if best then cw_best_codec formats else 0
             end).
Proof.
  intros Hr. split; [intros f; by apply pref_remove_rep|].
  split; [intros f; by apply pref_append_rep|].
  pose proof Hr as [Ho Hn Hk]. pose proof (rep_length _ Hn Hk) as Hl. split.
  - intros i. unfold cw_codec_pref_index, pref_slot. rewrite Ho, Nat2Z.id.
    destruct (decide (i < length fs)%nat) as [Hi|Hi].
    + destruct (lookup_lt_is_Some_2 fs i Hi) as [f Ef].
      assert (E : nth i ((slot_of <$> fs) ++ replicate (pref_size - length fs) 0) 0 = slot_of f).
      { apply nth_lookup_Some. rewrite lookup_app_l by (by rewrite length_fmap).
        by rewrite list_lookup_fmap, Ef. }
      rewrite E. replace ((0 <=? Z.of_nat i) && (Z.of_nat i <? Z.of_nat pref_size)) with true
        by (unfold pref_size; symmetry; apply andb_true_iff; split; [apply Z.leb_le|apply Z.ltb_lt]; lia).
      rewrite Forall_forall in Hk. destruct (known_slot f) as (Hz & e & Ee & Eb).
      { apply Hk. by eapply list_elem_of_lookup_2. }
      destruct (Z.eqb_spec (slot_of f) 0); [done|]. rewrite Ee. simpl.
      f_equal. rewrite Eb. symmetry. by apply nth_lookup_Some.
    + rewrite (nth_overflow fs) by lia.
      rewrite app_nth2 by (rewrite length_fmap; lia). rewrite nth_lookup.
      destruct (replicate _ _ !! _) as [z|] eqn:Ez; [apply lookup_replicate_1 in Ez as [-> _]|];
        simpl; by destruct (_ && _).
  - intros formats best. unfold cw_codec_choose.
    rewrite Ho, take_rep by (unfold list_size, pref_size; simpl; lia).
    rewrite choose_scan_spec by done.
    destruct (List.find _ fs) as [f|] eqn:Ef; [|done]. simpl.
    apply List.find_some in Ef as [_ Ef]. destruct (Z.eqb_spec f 0) as [->|]; [|done].
    by rewrite Z.land_0_r in Ef.
Qed.

Definition wit_pref : cw_codec_pref :=
  mk_pref ([format_newindex CW_FORMAT_GSM; format_newindex CW_FORMAT_ULAW] ++ replicate 30 0).

Lemma wit_pref_rep : pref_rep wit_pref [CW_FORMAT_GSM; CW_FORMAT_ULAW].
Proof.
  split; [done| |].
  - apply (bool_decide_unpack _). vm_compute. exact I.
  - repeat constructor; apply (bool_decide_unpack _); vm_compute; exact I.
Qed.

Lemma pref_refines_witness :
  cw_codec_choose wit_pref (Z.lor CW_FORMAT_ULAW CW_FORMAT_ALAW) true = Some CW_FORMAT_ULAW
  /\ cw_codec_pref_index wit_pref 0 = Some CW_FORMAT_GSM.
Proof.
  destruct (pref_refines wit_pref _ wit_pref_rep) as (_ & _ & Hi & Hc).
  split; [exact (Hc _ true)|exact (Hi 0%nat)].
Defined.

(** Whatever the text of an "allow" or "disallow" line, it is processed
    without leaving an array, the preferences stay a duplicate-free list of
    known formats, and every preferred format stays allowed by the mask. *)
Theorem allow_line_consistent p m fs line allowing :
  allow_ok p m fs ->
  exists p' m' fs', cw_parse_allow_disallow (Some p) (Some m) line allowing
                    = Some (Some p', Some m')
                    /\ allow_ok p' m' fs'.
Proof.
  unfold cw_parse_allow_disallow. generalize (strsplit "," line) as names.
  intros names. revert p m fs. induction names as [|name names IH]; intros p m fs Hok.
  - by exists p, m, fs.
  - destruct (allow_token_ok allowing p m fs name Hok) as (p1 & m1 & fs1 & E & Hok1).
    cbn [allow_tokens]. rewrite E. by apply (IH _ _ fs1).
Qed.

Lemma allow_line_consistent_witness :
  exists p' m' fs', cw_parse_allow_disallow (Some pref_zero) (Some 0) "gsm,all,ULAW" true
                    = Some (Some p', Some m')
                    /\ allow_ok p' m' fs'.
Proof.
  exact (allow_line_consistent pref_zero 0 [] "gsm,all,ULAW" true
    (Build_allow_ok _ _ _ pref_zero_rep (Forall_nil_2 _))).
Defined.

Lemma find_visible name e :
  List.find (fun e => visible e && name_matches name e) cw_format_list = Some e ->
  e ∈ cw_format_list /\ visible e = true /\ name_matches name e = true.
Proof.
  intros F. apply List.find_some in F as [Hin Hm]. apply andb_true_iff in Hm as [Hv Hm].
  split; [by apply list_elem_of_In|done].
Qed.

Lemma getformatname_entry f e : format_entry f = Some e -> cw_getformatname f = fmt_name e.
Proof. intros E. unfold cw_getformatname. by rewrite E. Qed.

Lemma name_of_lookup name :
  strcaseeq name "all" = false -> 0 < cw_getformatbyname name ->
  exists e, visible e = true /\ cw_getformatname (cw_getformatbyname name) = fmt_name e
            /\ name_matches name e = true.
Proof.
  intros Ea Hp. pose proof (getformatbyname_find name Ea) as E.
  destruct (List.find _ _) as [e|] eqn:F; [|lia].
  apply find_visible in F as (Hin & Hv & Hm). exists e. split; [done|]. split; [|done].
  rewrite E. apply getformatname_entry. by apply visible_known.
Qed.

Lemma lookup_of_name e :
  e ∈ cw_format_list -> visible e = true ->
  cw_getformatbyname (cw_getformatname (bits e)) = bits e.
Proof.
  assert (H : Forall (fun e => visible e = true ->
    cw_getformatbyname (cw_getformatname (bits e)) = bits e) cw_format_list).
  { repeat (apply Forall_cons_2; [first [discriminate | intros _; vm_compute; reflexivity]|]).
    constructor. }
  rewrite Forall_forall in H. apply H.
Qed.

(** Names and formats match: any name a lookup accepts (other than
    "all") stands for exactly one known format, whose own name is the text
    itself, up to case, or the text's alias; and looking up the name of a
    visible format gives that format back. *)
Theorem format_names_roundtrip :
  (forall name, strcaseeq name "all" = false -> 0 < cw_getformatbyname name ->
     cw_getformatbyname name ∈ known_formats
     /\ (strcaseeq (cw_getformatname (cw_getformatbyname name)) name = true
         \/ strcaseeq (cw_getformatname (cw_getformatbyname name))
              (cw_expand_codec_alias name) = true))
  /\ (forall e, e ∈ cw_format_list -> visible e = true ->
        cw_getformatbyname (cw_getformatname (bits e)) = bits e).
Proof.
  split; [|exact lookup_of_name].
  intros name Ea Hp. split; [by apply getformatbyname_known|].
  destruct (name_of_lookup name Ea Hp) as (e & _ & E & Hm). rewrite E.
  apply orb_true_iff. exact Hm.
Qed.

Lemma format_names_roundtrip_witness :
  (cw_getformatbyname "G723" ∈ known_formats
   /\ (strcaseeq (cw_getformatname (cw_getformatbyname "G723")) "G723" = true
       \/ strcaseeq (cw_getformatname (cw_getformatbyname "G723"))
            (cw_expand_codec_alias "G723") = true))
  /\ cw_getformatbyname (cw_getformatname 4) = 4.
Proof.
  split; [exact (proj1 format_names_roundtrip "G723" eq_refl eq_refl)|].
  exact (proj2 format_names_roundtrip
    (mk_format true CW_FORMAT_ULAW "ulaw" "G.711 u-law" 8000)
    ltac:(apply list_elem_of_In; do 2 right; left; reflexivity) eq_refl).
Defined.

(** An unknown format is appended as slot -1, and the next use of the list
    reads outside the table. *)
Lemma pref_append_unknown :
  exists p, cw_codec_pref_append pref_zero 8192 = Some (0, p)
            /\ cw_codec_pref_index p 0 = None /\ cw_codec_choose p 4 true = None.
Proof. eexists. split; [vm_compute; reflexivity|]. by split. Qed.

(** "disallow" without a preference list clears a NULL pointer. *)
Lemma disallow_without_pref : cw_parse_allow_disallow None (Some 4) "gsm" false = None.
Proof. reflexivity. Qed.

(** A text that fills the buffer exactly is terminated one byte behind it. *)
Lemma pref_string_overflow : cw_codec_pref_string wit_pref 4 = None.
Proof. vm_compute. reflexivity. Qed.

(** ** Bit streams *)

(** Bit [i] of a byte string, most significant bit of a byte first. *)
Definition bit_at (data : list Z) (i : Z) : bool :=
  Z.testbit (nth (Z.to_nat (i / 8)) data 0) (7 - i mod 8).

Lemma byte_at_Some data i :
  0 <= i < Z.of_nat (length data) -> byte_at data i = Some (nth (Z.to_nat i) data 0).
Proof.
  intros Hi. unfold byte_at. destruct (Z.leb_spec 0 i); [|lia].
  destruct (lookup_lt_is_Some_2 data (Z.to_nat i)) as [b Hb]; [lia|].
  rewrite Hb. f_equal. symmetry. by apply nth_lookup_Some.
Qed.

Lemma byte_at_inv data i b :
  byte_at data i = Some b -> 0 <= i < Z.of_nat (length data) /\ b = nth (Z.to_nat i) data 0.
Proof.
  unfold byte_at. destruct (Z.leb_spec 0 i); [|done]. intros Hb.
  split; [apply lookup_lt_Some in Hb; lia|]. symmetry. by apply nth_lookup_Some.
Qed.

Lemma bits_mask n : 1 <= n <= 8 -> Z.shiftr 255 (8 - n) = Z.ones n.
Proof.
  intros Hn. assert (n = 1 \/ n = 2 \/ n = 3 \/ n = 4 \/ n = 5 \/ n = 6 \/ n = 7 \/ n = 8)
    as Hc by lia.
  repeat destruct Hc as [->|Hc]; try reflexivity. by subst.
Qed.

Lemma u8_testbit z k : 0 <= k < 8 -> Z.testbit (u8 z) k = Z.testbit z k.
Proof. intros Hk. unfold wrap_u. by rewrite Z.mod_pow2_bits_low by lia. Qed.

Lemma byte_testbit_high b k : is_byte b -> 8 <= k -> Z.testbit b k = false.
Proof.
  intros Hb Hk. unfold is_byte in Hb.
  rewrite <- (Z.mod_small b (2 ^ 8)) by (simpl; lia).
  by apply Z.mod_pow2_bits_high.
Qed.

Lemma is_byte_nth data i : Forall is_byte data -> is_byte (nth i data 0).
Proof.
  intros H. rewrite nth_lookup. destruct (data !! i) as [b|] eqn:E; simpl.
  - by apply (Forall_lookup_1 is_byte data i).
  - unfold is_byte. lia.
Qed.

Lemma bit_pos_div bit j :
  0 <= bit -> 0 <= j -> bit mod 8 + j < 8 ->
  (bit + j) / 8 = bit / 8 /\ (bit + j) mod 8 = bit mod 8 + j.
Proof.
  intros Hb Hj Hs. pose proof (Z.div_mod bit 8 ltac:(lia)). pose proof (Z.mod_pos_bound bit 8 ltac:(lia)).
  split; symmetry; [apply (Z.div_unique _ _ _ (bit mod 8 + j))|
                    apply (Z.mod_unique _ _ (bit / 8))]; lia.
Qed.

Lemma bit_pos_next bit j :
  0 <= bit -> 8 <= bit mod 8 + j < 16 ->
  (bit + j) / 8 = bit / 8 + 1 /\ (bit + j) mod 8 = bit mod 8 + j - 8.
Proof.
  intros Hb Hs. pose proof (Z.div_mod bit 8 ltac:(lia)). pose proof (Z.mod_pos_bound bit 8 ltac:(lia)).
  split; symmetry; [apply (Z.div_unique _ _ _ (bit mod 8 + j - 8))|
                    apply (Z.mod_unique _ _ (bit / 8 + 1))]; lia.
Qed.

Lemma land_ones_facts v n : 0 <= n ->
  0 <= Z.land v (Z.ones n) < 2 ^ n
  /\ forall k, 0 <= k < n -> Z.testbit (Z.land v (Z.ones n)) k = Z.testbit v k.
Proof.
  intros Hn. rewrite Z.land_ones by done. split.
  - apply Z.mod_pos_bound. by apply Z.pow_pos_nonneg.
  - intros k Hk. apply Z.mod_pow2_bits_low. lia.
Qed.

(** What [get_n_bits_at] returns, with the bytes it has read. *)
Lemma get_n_bits_spec data n bit :
  Forall is_byte data -> 1 <= n <= 8 -> 0 <= bit -> bit + n <= 8 * Z.of_nat (length data) ->
  exists v, get_n_bits_at data n bit = Some v /\ 0 <= v < 2 ^ n
    /\ forall k, 0 <= k < n -> Z.testbit v k = bit_at data (bit + (n - 1 - k)).
Proof.
  intros Hd Hn Hb Hlen. unfold get_n_bits_at.
  rewrite Z.quot_div_nonneg, Z.rem_mod_nonneg by lia.
  pose proof (Z.div_mod bit 8 ltac:(lia)) as Hdm.
  pose proof (Z.mod_pos_bound bit 8 ltac:(lia)) as Hr.
  destruct (Z.leb_spec n 0); [lia|]. destruct (Z.ltb_spec 8 n); [lia|]. cbn [orb].
  rewrite bits_mask by done.
  destruct (Z.ltb_spec (8 - bit mod 8) n) as [Hlt|Hge].
  - rewrite !byte_at_Some by lia. eexists. split; [done|].
    match goal with |- context [Z.land ?v (Z.ones n)] =>
      destruct (land_ones_facts v n ltac:(lia)) as [H1 H2] end.
    split; [done|]. intros k Hk. rewrite H2 by done. clear H1 H2.
    rewrite u8_testbit by lia. rewrite Z.lor_spec. rewrite u8_testbit by lia.
    rewrite Z.shiftl_spec, Z.shiftr_spec by lia. unfold bit_at.
    destruct (Z.lt_ge_cases k (n - (8 - bit mod 8))).
    + rewrite Z.testbit_neg_r by lia. cbn [orb].
      destruct (bit_pos_next bit (n - 1 - k)) as [-> ->]; [lia|lia|].
      f_equal. lia.
    + rewrite (byte_testbit_high _ _ (is_byte_nth data (Z.to_nat (bit / 8 + 1)) Hd)) by lia.
      rewrite orb_false_r.
      destruct (bit_pos_div bit (n - 1 - k)) as [-> ->]; [lia|lia|lia|].
      f_equal. lia.
  - rewrite !byte_at_Some by lia. eexists. split; [done|].
    match goal with |- context [Z.land ?v (Z.ones n)] =>
      destruct (land_ones_facts v n ltac:(lia)) as [H1 H2] end.
    split; [done|]. intros k Hk. rewrite H2 by done. clear H1 H2.
    rewrite u8_testbit by lia. rewrite Z.shiftr_spec by lia. unfold bit_at.
    destruct (bit_pos_div bit (n - 1 - k)) as [-> ->]; [lia|lia|lia|].
    f_equal. lia.
Qed.

Lemma nth_table_nonneg l (c : nat) : Forall (fun x => 0 <= x) l -> 0 <= nth c l 0.
Proof.
  intros H. rewrite nth_lookup. destruct (l !! c) as [x|] eqn:E; simpl; [|lia].
  by apply (Forall_lookup_1 (fun x => 0 <= x) l c).
Qed.

Section scans.
Context (data : list Z) (len : Z).
Hypothesis Hdata : Forall is_byte data.

Lemma speex_wb_here_spec off :
  len <= Z.of_nat (length data) -> 0 <= off ->
  exists r, speex_wb_here data len off = Some r /\ match r with Some sz => 0 <= sz | None => True end.
Proof.
  intros Hl Ho. unfold speex_wb_here. destruct (Z.leb_spec 5 (len * 8 - off)); [|by eexists].
  destruct (get_n_bits_spec data 1 off) as (v & -> & Hv & _); [done|lia|lia|lia|].
  destruct (get_n_bits_spec data 3 (off + 1)) as (c & -> & _ & _); [done|lia|lia|lia|].
  destruct v; [by eexists| |]; (eexists; split; [done|]); apply nth_table_nonneg; repeat constructor; lia.
Qed.

Lemma speex_get_wb_sz_spec bit :
  len <= Z.of_nat (length data) -> 0 <= bit ->
  exists off, speex_get_wb_sz_at data len bit = Some off.
Proof.
  intros Hl Hb. unfold speex_get_wb_sz_at.
  destruct (speex_wb_here_spec bit) as ([sz|] & -> & H1); [done|done| |by eexists].
  destruct (speex_wb_here_spec (bit + sz)) as ([sz'|] & -> & H2); [done|lia| |by eexists].
  unfold speex_wb_third. destruct (Z.leb_spec 5 (len * 8 - (bit + sz + sz'))); [|by eexists].
  destruct (get_n_bits_spec data 1 (bit + sz + sz')) as (v & -> & _ & _); [done|lia|lia|lia|].
  destruct (negb (v =? 0)); by eexists.
Qed.

(** Every round of the loop reads within one byte behind [len] and moves on
    by at least the five control bits. *)
Lemma speex_loop_spec fuel bit cnt :
  len + 1 <= Z.of_nat (length data) -> 0 <= bit -> 0 <= cnt <= 32 * bit -> cnt <= 256 * len ->
  (Z.to_nat (len * 8 - bit) < fuel)%nat ->
  exists n, speex_loop fuel data len bit cnt = Samples n /\ 0 <= n <= 256 * len.
Proof.
  intros Hl. revert bit cnt. induction fuel as [|fuel IH]; intros bit cnt Hb Hc Hm Hf; [lia|].
  cbn [speex_loop]. destruct (Z.leb_spec 5 (len * 8 - bit)); [|eexists; split; [done|lia]].
  destruct (speex_get_wb_sz_spec bit) as [off ->]; [lia|lia|].
  destruct (Z.ltb_spec off 0); [eexists; split; [done|lia]|].
  destruct (Z.ltb_spec (len * 8 - (bit + off)) 5); [eexists; split; [done|lia]|].
  destruct (get_n_bits_spec data 5 (bit + off)) as (c & -> & Hcc & _); [done|lia|lia|lia|].
  destruct (c =? 15); [eexists; split; [done|lia]|].
  destruct (c =? 14).
  { destruct (get_n_bits_spec data 4 (bit + off + 5)) as (c' & -> & _ & _); [done|lia|lia|lia|].
    assert (0 <= nth (Z.to_nat c') SpeexInBandSz 0)
      by (apply nth_table_nonneg; repeat constructor; lia).
    apply IH; lia. }
  destruct (c =? 13).
  { destruct (get_n_bits_spec data 5 (bit + off + 5)) as (c' & -> & Hc' & _); [done|lia|lia|lia|].
    apply IH; lia. }
  destruct (Z.ltb_spec 8 c); [eexists; split; [done|lia]|].
  assert (0 <= nth (Z.to_nat c) SpeexSubModeSz 0 - 5).
  { assert (c = 0 \/ c = 1 \/ c = 2 \/ c = 3 \/ c = 4 \/ c = 5 \/ c = 6 \/ c = 7 \/ c = 8)
      as Hcs by lia. repeat destruct Hcs as [->|Hcs]; try (simpl; lia). subst. simpl. lia. }
  apply IH; lia.
Qed.

Lemma g723_loop_spec fuel pos samples :
  len <= Z.of_nat (length data) -> 0 <= pos -> 0 <= samples <= 60 * pos -> samples <= 60 * (len + 3) ->
  (Z.to_nat (len - pos) < fuel)%nat ->
  exists n, g723_loop fuel data len pos samples = Samples n /\ 0 <= n <= 60 * (len + 3).
Proof.
  intros Hl. revert pos samples.
  induction fuel as [|fuel IH]; intros pos samples Hp Hs Hm Hf; [lia|].
  cbn [g723_loop]. destruct (Z.ltb_spec pos len); [|eexists; split; [done|lia]].
  rewrite byte_at_Some by lia. destruct (Z.leb_spec (g723_len (nth (Z.to_nat pos) data 0)) 0).
  - eexists; split; [done|lia].
  - assert (4 <= g723_len (nth (Z.to_nat pos) data 0)).
    { revert H0. unfold g723_len. repeat case_if; lia. }
    apply IH; lia.
Qed.

End scans.

(** [get_n_bits_at] reads the [n] bits from position [bit] of the byte
    string, most significant first, also across a byte boundary, and touches
    no byte outside them. *)
Theorem get_n_bits_correct data n bit :
  Forall is_byte data -> 1 <= n <= 8 -> 0 <= bit -> bit + n <= 8 * Z.of_nat (length data) ->
  exists v, get_n_bits_at data n bit = Some v /\ 0 <= v < 2 ^ n
    /\ forall k, 0 <= k < n -> Z.testbit v k = bit_at data (bit + (n - 1 - k)).
Proof. exact (get_n_bits_spec data n bit). Qed.

Lemma get_n_bits_correct_witness :
  exists v, get_n_bits_at [1; 128] 5 6 = Some v /\ 0 <= v < 2 ^ 5
    /\ forall k, 0 <= k < 5 -> Z.testbit v k = bit_at [1; 128] (6 + (5 - 1 - k)).
Proof.
  exact (get_n_bits_correct [1; 128] 5 6 ltac:(repeat constructor; unfold is_byte; lia)
    ltac:(lia) ltac:(lia) ltac:(simpl; lia)).
Defined.

(** The sample counters of Speex and G.723.1 frames stop on every input
    and their result is bounded by the length of the frame; G.723.1 reads
    only the frame, Speex at most one byte behind it. *)
Theorem sample_scans_total data len :
  Forall is_byte data -> 0 <= len ->
  (len <= Z.of_nat (length data) ->
     exists n, g723_samples data len = Samples n /\ 0 <= n <= 60 * (len + 3))
  /\ (len + 1 <= Z.of_nat (length data) ->
     exists n, speex_samples data len = Samples n /\ 0 <= n <= 256 * len).
Proof.
  intros Hd Hl. split; intros Hn.
  - apply g723_loop_spec; [done|lia..].
  - apply speex_loop_spec; [done|done|lia..].
Qed.

Lemma sample_scans_total_witness :
  exists n, speex_samples [8; 0; 0] 2 = Samples n /\ 0 <= n <= 256 * 2.
Proof.
  exact (proj2 (sample_scans_total [8; 0; 0] 2 ltac:(repeat constructor; unfold is_byte; lia)
    ltac:(lia)) ltac:(simpl; lia)).
Defined.

(** A frame that ends in the middle of an in-band request is read past its
    end. *)
Lemma speex_overread : speex_samples [112] 1 = Bad_read.
Proof. reflexivity. Qed.

(** The codecs with a fixed number of samples per byte or per block, the
    samples of a block and its bytes. *)
Definition block_codecs : list (Z * (Z * Z)) :=
  [ (CW_FORMAT_ILBC, (240, 50)); (CW_FORMAT_GSM, (160, 33)); (CW_FORMAT_G729A, (8, 1));
    (CW_FORMAT_SLINEAR, (1, 2)); (CW_FORMAT_ULAW, (1, 1)); (CW_FORMAT_ALAW, (1, 1));
    (CW_FORMAT_DVI_ADPCM, (2, 1)); (CW_FORMAT_G726, (2, 1)) ].

Lemma block_codec_len fmt u v k :
  (fmt, (u, v)) ∈ block_codecs -> 0 <= k <= 1000000 ->
  cw_codec_get_len fmt (k * u) = k * v
  /\ forall f, f_subclass f = fmt -> f_datalen f = k * v -> cw_codec_get_samples f = Samples (k * u).
Proof.
  intros Hin Hk. unfold block_codecs in Hin.
  apply list_elem_of_In in Hin. simpl in Hin.
  repeat destruct Hin as [[= <- <- <-]|Hin]; try done;
    (split; [unfold cw_codec_get_len
            |intros f Es Ed; unfold cw_codec_get_samples; rewrite Es, Ed; cbv zeta]);
    simpl; rewrite ?Z.quot_mul by lia; rewrite ?s32_id by (unfold INT_MIN, INT_MAX; lia);
    try (f_equal; lia).
Qed.

(** For every codec with a fixed relation between samples and bytes,
    [cw_codec_get_len] and [cw_codec_get_samples] invert each other on whole
    blocks. *)
Theorem codec_len_roundtrip fmt u v k f :
  (fmt, (u, v)) ∈ block_codecs -> 0 <= k <= 1000000 ->
  f_subclass f = fmt -> f_datalen f = cw_codec_get_len fmt (k * u) ->
  cw_codec_get_samples f = Samples (k * u) /\ cw_codec_get_len fmt (k * u) = k * v.
Proof.
  intros Hin Hk Es Ed. destruct (block_codec_len fmt u v k Hin Hk) as [E H].
  rewrite E in *. split; [by apply H|done].
Qed.

Definition wit_gsm : cw_frame :=
  (cw_fr_init_ex CW_FRAME_VOICE CW_FORMAT_GSM None) <| f_datalen := 66 |>.

Lemma codec_len_roundtrip_witness :
  cw_codec_get_samples wit_gsm = Samples 320 /\ cw_codec_get_len CW_FORMAT_GSM 320 = 66.
Proof.
  exact (codec_len_roundtrip CW_FORMAT_GSM 160 33 2 wit_gsm
    ltac:(apply list_elem_of_In; right; left; reflexivity) ltac:(lia) eq_refl eq_refl).
Defined.
