(* ===== verification/Smoother.v ===== *)
(** * The smoother (corelib/frame.c)

    A smoother turns a stream of voice frames of any size into frames of
    [size] bytes.  The byte array [data\[SMOOTHER_SIZE\]] and the fill level
    [len] are kept as the code has them; [opt] is the frame that is handed
    through unchanged.  The frame a read returns is a value (the code reuses
    one header and one buffer inside the smoother).  [samplesperbyte] is a
    single-precision float.  A write outside the array makes the result
    [None]. *)

From S2P Require Import Prelude Time CStr Frame Codec.
From Stdlib Require Import SpecFloat.

Definition SMOOTHER_SIZE : Z := 8000.
Definition CW_SMOOTHER_FLAG_G729 : Z := 1.
Definition CW_SMOOTHER_FLAG_BE : Z := 2.

(** Single precision: 24 bits of mantissa, exponents up to 128. *)
Definition float_of_int (z : Z) : spec_float := binary_normalize 24 128 z 0 false.
Definition float_div (a b : spec_float) : spec_float := SFdiv 24 128 a b.
Definition float_mul (a b : spec_float) : spec_float := SFmul 24 128 a b.

(** Conversion to [int]; the processor's value for what does not fit. *)
Definition int_of_float (a : spec_float) : Z :=
  match a with
  | S754_zero _ => 0
  | S754_finite s m e =>
    let v := if 0 <=? e then Z.pos m * 2 ^ e else Z.pos m / 2 ^ (- e) in
    let v := if s then - v else v in
    if (INT_MIN <=? v) && (v <=? INT_MAX) then v else INT_MIN
  | _ => INT_MIN
  end.

Record cw_smoother := mk_smoother {
  sm_size : Z;
  sm_format : Z;
  optimizablestream : Z;
  sm_flags : Z;
  samplesperbyte : spec_float;
  sm_delivery : timeval;
  sm_data : list Z;
  sm_opt : option cw_frame;
  sm_len : Z;
}.

#[export] Instance eta_cw_smoother : Eta cw_smoother := fun s =>
  mk_smoother (sm_size s) (sm_format s) (optimizablestream s) (sm_flags s) (samplesperbyte s)
    (sm_delivery s) (sm_data s) (sm_opt s) (sm_len s).

Definition cw_smoother_reset (size : Z) : cw_smoother :=
  mk_smoother size 0 0 0 (S754_zero false) (cw_tv 0 0)
    (replicate (Z.to_nat SMOOTHER_SIZE) 0) None 0.

Definition cw_smoother_new (malloc_ok : bool) (size : Z) : option cw_smoother :=
  if size <? 1 then None
  else if malloc_ok then Some (cw_smoother_reset size) else None.

Definition cw_smoother_get_flags (s : cw_smoother) : Z := sm_flags s.
Definition cw_smoother_set_flags (s : cw_smoother) (flags : Z) : cw_smoother :=
  s <| sm_flags := flags |>.
Definition cw_smoother_test_flag (s : cw_smoother) (flag : Z) : Z := Z.land (sm_flags s) flag.

(** Store [bytes] at offset [i] of an array. *)
Definition arr_write (i : Z) (bytes arr : list Z) : option (list Z) :=
  if (0 <=? i) && (i + Z.of_nat (length bytes) <=? Z.of_nat (length arr)) then
    Some (take (Z.to_nat i) arr ++ bytes ++ drop (Z.to_nat i + length bytes) arr)
  else None.

Definition is_g729 (s : cw_smoother) : bool :=
  negb (cw_smoother_test_flag s CW_SMOOTHER_FLAG_G729 =? 0).

(** The end of [__cw_smoother_feed]: copy the data behind what is there. *)
Definition feed_copy (s : cw_smoother) (f : cw_frame) (swap : bool)
    : option (Z * cw_smoother) :=
  let bytes := default [] (f_data f) in
  match (if swap then cw_swapcopy_samples bytes (f_samples f)
         else mem_read (f_datalen f) bytes) with
  | None => None
  | Some copy =>
    match arr_write (sm_len s) copy (sm_data s) with
    | None => None
    | Some data =>
      let s := s <| sm_data := data |> in
      let s :=
        if (sm_len s =? 0) || cw_tvzero (f_delivery f) || cw_tvzero (sm_delivery s)
        then s <| sm_delivery := f_delivery f |> else s in
      Some (0, s <| sm_len := sm_len s + f_datalen f |>)
    end
  end.

Definition feed_g729 (s : cw_smoother) (f : cw_frame) (swap : bool)
    : option (Z * cw_smoother) :=
  if is_g729 s && negb (Z.rem (sm_len s) 10 =? 0) then Some (0, s) else feed_copy s f swap.

(** Can [f] be handed through as it is? *)
Definition feed_optimizable (s : cw_smoother) (f : cw_frame) : bool :=
  ((f_datalen f =? sm_size s) || ((f_datalen f <? 10) && is_g729 s))
  && bool_decide (sm_opt s = None)
  && (CW_MIN_OFFSET <=? f_offset f).

Definition feed_store (s : cw_smoother) (f : cw_frame) (swap : bool)
    : option (Z * cw_smoother) :=
  if feed_optimizable s f then
    if sm_len s =? 0 then Some (0, s <| sm_opt := Some f |>)
    else
      let s := s <| optimizablestream := optimizablestream s + 1 |> in
      if 10 <? optimizablestream s then Some (0, s <| sm_len := 0 |> <| sm_opt := Some f |>)
      else feed_g729 s f swap
  else feed_g729 (s <| optimizablestream := 0 |>) f swap.

Definition __cw_smoother_feed (s : cw_smoother) (f : cw_frame) (swap : bool)
    : option (Z * cw_smoother) :=
  if negb (f_frametype f =? CW_FRAME_VOICE) then Some (-1, s)
  else
    let first := sm_format s =? 0 in
    if negb first && negb (sm_format s =? f_subclass f) then Some (-1, s)
    else
      let s :=
        if first then
          s <| sm_format := f_subclass f |>
            <| samplesperbyte := float_div (float_of_int (f_samples f)) (float_of_int (f_datalen f)) |>
        else s in
      if SMOOTHER_SIZE <? sm_len s + f_datalen f then Some (-1, s)
      else feed_store s f swap.

Section read.
Variable top_bit : Z -> Z.

Definition read_frame (s : cw_smoother) (len : Z) : cw_frame :=
  (cw_fr_init_ex CW_FRAME_VOICE (sm_format s) None)
    <| f_data := Some (take (Z.to_nat len) (sm_data s)) |>
    <| f_offset := CW_FRIENDLY_OFFSET |>
    <| f_datalen := len |>
    <| f_samples := int_of_float (float_mul (float_of_int len) (samplesperbyte s)) |>
    <| f_delivery := sm_delivery s |>.

(** The result is the frame or NULL; the outer [None] is a bad sample rate
    index. *)
Definition cw_smoother_read (s : cw_smoother) : option (option cw_frame * cw_smoother) :=
  match sm_opt s with
  | Some opt => Some (Some opt, s <| sm_opt := None |>)
  | None =>
    if (sm_len s <? sm_size s) && negb (is_g729 s && negb (Z.rem (sm_size s) 10 =? 0))
    then Some (None, s)
    else
      let len := if sm_len s <? sm_size s then sm_len s else sm_size s in
      let f := read_frame s len in
      let s := s <| sm_len := sm_len s - len |> in
      if sm_len s =? 0 then Some (Some f, s)
      else
        match arr_write 0 (take (Z.to_nat (sm_len s)) (drop (Z.to_nat len) (sm_data s)))
                (sm_data s) with
        | None => None
        | Some data =>
          let s := s <| sm_data := data |> in
          if cw_tvzero (sm_delivery s) then Some (Some f, s)
          else
            match cw_codec_sample_rate top_bit f with
            | None => None
            | Some rate =>
              Some (Some f,
                    s <| sm_delivery := cw_tvadd (sm_delivery s) (cw_samp2tv (f_samples f) rate) |>)
            end
        end
  end.
End read.

(** ** The smoother as a queue of bytes *)

Definition frame_bytes (f : cw_frame) : list Z :=
  take (Z.to_nat (f_datalen f)) (default [] (f_data f)).

Definition good_frame (f : cw_frame) : Prop :=
  0 <= f_datalen f <= Z.of_nat (length (default [] (f_data f))).

(** The bytes fed and not read yet. *)
Definition pending (s : cw_smoother) : list Z :=
  match sm_opt s with Some f => frame_bytes f | None => [] end
  ++ take (Z.to_nat (sm_len s)) (sm_data s).

Record smoother_wf (s : cw_smoother) : Prop := {
  wf_size : 1 <= sm_size s;
  wf_g729 : is_g729 s = false;
  wf_data : Z.of_nat (length (sm_data s)) = SMOOTHER_SIZE;
  wf_len : 0 <= sm_len s <= SMOOTHER_SIZE;
  wf_opt : forall f, sm_opt s = Some f -> good_frame f /\ f_datalen f = sm_size s;
}.

Lemma take_arr_write i bytes arr arr' :
  arr_write i bytes arr = Some arr' ->
  length arr' = length arr /\ take (Z.to_nat i + length bytes) arr' = take (Z.to_nat i) arr ++ bytes.
Proof.
  unfold arr_write. case_if; [|done]. b2p. intros [= <-].
  rewrite !length_app, length_take, length_drop. split; [lia|].
  rewrite app_assoc, take_app_le; [|rewrite length_app, length_take; lia].
  apply take_ge. rewrite length_app, length_take. lia.
Qed.

Lemma arr_write_ok i bytes arr :
  0 <= i -> i + Z.of_nat (length bytes) <= Z.of_nat (length arr) ->
  exists arr', arr_write i bytes arr = Some arr'.
Proof.
  intros Hi Hl. unfold arr_write. case_if; [by eexists|].
  apply andb_false_iff in E as [E|E]; b2p; lia.
Qed.

Lemma mem_read_good f :
  good_frame f -> mem_read (f_datalen f) (default [] (f_data f)) = Some (frame_bytes f)
                  /\ Z.of_nat (length (frame_bytes f)) = f_datalen f.
Proof.
  intros [H0 H1]. unfold mem_read, frame_bytes. rewrite length_take. split; [|lia].
  case_if; [done|]. apply andb_false_iff in E as [E|E]; b2p; lia.
Qed.

Lemma feed_copy_spec s f :
  smoother_wf s -> good_frame f -> sm_len s + f_datalen f <= SMOOTHER_SIZE ->
  exists s', feed_copy s f false = Some (0, s') /\ smoother_wf s'
             /\ pending s' = pending s ++ frame_bytes f.
Proof.
  intros [Hs Hg Hd Hl Ho] Hf Hsum. destruct (mem_read_good f Hf) as [Em El].
  unfold feed_copy. rewrite Em.
  destruct (arr_write_ok (sm_len s) (frame_bytes f) (sm_data s)) as [arr Ea]; [lia|lia|].
  rewrite Ea. apply take_arr_write in Ea as [Hlen Htake]. destruct Hf as [Hf0 _].
  destruct (_ || _ || _); (eexists; split; [done|]); (split;
    [split; cbn; [done|done|lia|lia|done]|]);
    unfold pending; cbn; rewrite <- app_assoc; f_equal; rewrite <- Htake; f_equal; lia.
Qed.

Lemma feed_g729_spec s f :
  smoother_wf s -> feed_g729 s f false = feed_copy s f false.
Proof. intros [_ Hg _ _ _]. unfold feed_g729. by rewrite Hg. Qed.

Lemma feed_store_spec s f :
  smoother_wf s -> good_frame f -> optimizablestream s < 10 ->
  sm_len s + f_datalen f <= SMOOTHER_SIZE ->
  exists s', feed_store s f false = Some (0, s') /\ smoother_wf s'
             /\ pending s' = pending s ++ frame_bytes f.
Proof.
  intros Hwf Hf Hopt Hsum. pose proof Hwf as [Hs Hg Hd Hl Ho]. unfold feed_store.
  assert (Hcopy : forall n, exists s', feed_g729 (s <| optimizablestream := n |>) f false = Some (0, s')
     /\ smoother_wf s' /\ pending s' = pending s ++ frame_bytes f).
  { intros n. rewrite feed_g729_spec by by split.
    exact (feed_copy_spec (s <| optimizablestream := n |>) f ltac:(by split) Hf Hsum). }
  destruct (feed_optimizable s f) eqn:Eo; [|apply Hcopy].
  unfold feed_optimizable in Eo. rewrite Hg, andb_false_r, orb_false_r in Eo. b2p.
  match goal with H : bool_decide _ = true |- _ => apply bool_decide_eq_true in H as En end.
  destruct (Z.eqb_spec (sm_len s) 0) as [El|_].
  - eexists. split; [done|]. split.
    + split; cbn; try done. by intros ? [= <-].
    + unfold pending. cbn. rewrite En, El. cbn. by rewrite app_nil_r.
  - cbn. destruct (Z.ltb_spec 10 (optimizablestream s + 1)); [lia|]. apply Hcopy.
Qed.

(** A feed that is accepted queues the bytes of the frame, one that is not
    leaves the queue as it is; leftover bytes are given up only in the
    eleventh feed of whole frames in a row. *)
Lemma feed_spec s f :
  smoother_wf s -> good_frame f -> optimizablestream s < 10 ->
  exists r s', __cw_smoother_feed s f false = Some (r, s') /\ smoother_wf s'
    /\ ((r = 0 /\ pending s' = pending s ++ frame_bytes f)
        \/ (r = -1 /\ pending s' = pending s)).
Proof.
  intros Hwf Hf Hopt. unfold __cw_smoother_feed.
  destruct (f_frametype f =? CW_FRAME_VOICE); cbn [negb]; [|by exists (-1), s; eauto].
  destruct (negb (sm_format s =? 0) && negb (sm_format s =? f_subclass f)).
  { by exists (-1), s; eauto. }
  match goal with |- context [sm_len ?t + f_datalen f] => set (s1 := t) end.
  assert (H1 : smoother_wf s1 /\ optimizablestream s1 < 10 /\ pending s1 = pending s).
  { destruct Hwf. unfold s1. destruct (sm_format s =? 0); split; try done; by split. }
  destruct H1 as (Hwf1 & Ho1 & <-).
  destruct (Z.ltb_spec SMOOTHER_SIZE (sm_len s1 + f_datalen f)).
  - exists (-1), s1. eauto.
  - destruct (feed_store_spec s1 f Hwf1 Hf Ho1) as (s' & E & Hwf' & Hp); [done|].
    exists 0, s'. eauto.
Qed.

Section fifo.
Variable top_bit : Z -> Z.
(** spandsp: the position of the most significant bit that is set. *)
Hypothesis top_bit_spec : forall x, 0 < x -> top_bit x = Z.log2 x.

Lemma sample_rate_ok f : exists r, cw_codec_sample_rate top_bit f = Some r.
Proof.
  unfold cw_codec_sample_rate. case_if; [by eexists|].
  destruct (Z.eqb_spec (Z.land (f_subclass f) CW_AUDIO_CODEC_MASK) 0) as [|Hz]; [by eexists|].
  set (c := Z.land _ _) in *.
  assert (Hc : 0 < c < 2 ^ 16).
  { assert (0 <= c < 2 ^ 16); [|lia]. unfold c. change CW_AUDIO_CODEC_MASK with (Z.ones 16).
    rewrite Z.land_ones by lia. apply Z.mod_pos_bound. lia. }
  rewrite top_bit_spec by lia. unfold format_at.
  pose proof (Z.log2_nonneg c). assert (Z.log2 c < 16) by (apply Z.log2_lt_pow2; lia).
  destruct (Z.leb_spec 0 (Z.log2 c)); [|lia].
  destruct (lookup_lt_is_Some_2 cw_format_list (Z.to_nat (Z.log2 c))) as [e ->]; [simpl; lia|].
  by eexists.
Qed.

Lemma read_spec s :
  smoother_wf s ->
  exists fo s', cw_smoother_read top_bit s = Some (fo, s') /\ smoother_wf s'
    /\ match fo with
       | Some f => good_frame f /\ f_datalen f = sm_size s
                   /\ pending s = frame_bytes f ++ pending s'
       | None => s' = s /\ Z.of_nat (length (pending s)) < sm_size s
       end.
Proof.
  intros Hwf. pose proof Hwf as [Hs Hg Hd Hl Ho]. unfold cw_smoother_read, pending.
  destruct (sm_opt s) as [f|] eqn:Eo.
  { do 2 eexists. split; [done|]. destruct (Ho f eq_refl) as [Hf Hsz].
    split; [by split; cbn|]. by split_and!. }
  rewrite Hg. cbn [negb andb]. rewrite andb_true_r.
  destruct (Z.ltb_spec (sm_len s) (sm_size s)) as [Hlt|Hge].
  { do 2 eexists. split; [done|]. split; [done|]. split; [done|].
    cbn [app]. rewrite length_take. lia. }
  set (f := read_frame s (sm_size s)).
  assert (Hfb : frame_bytes f = take (Z.to_nat (sm_size s)) (sm_data s)).
  { unfold frame_bytes, f. cbn. by rewrite take_take, Nat.min_id. }
  assert (Hfg : good_frame f).
  { unfold good_frame, f. cbn. rewrite length_take. lia. }
  cbn [sm_len upd]. destruct (Z.eqb_spec (sm_len s - sm_size s) 0) as [Ez|Hnz].
  { do 2 eexists. split; [done|]. split; [split; [done|done|cbn; lia|cbn; lia|intros ? Hx; cbn in Hx; congruence]|]. split; [done|].
    split; [done|]. cbn. rewrite Eo, Hfb. cbn. rewrite Ez, take_0, app_nil_r. f_equal. lia. }
  set (rest := take (Z.to_nat (sm_len s - sm_size s)) (drop (Z.to_nat (sm_size s)) (sm_data s))).
  assert (Hrl : Z.of_nat (length rest) = sm_len s - sm_size s).
  { unfold rest. rewrite length_take, length_drop. lia. }
  cbn [sm_data sm_len sm_delivery upd]. fold rest. destruct (arr_write_ok 0 rest (sm_data s)) as [arr Ea]; [lia|lia|].
  rewrite Ea. apply take_arr_write in Ea as [Hal Hat].
  change (take (length rest) arr = rest) in Hat.
  destruct (sample_rate_ok f) as [rate Er]. rewrite Er. cbn [sm_delivery upd].
  assert (Hpend : take (Z.to_nat (sm_len s)) (sm_data s)
    = frame_bytes f ++ take (Z.to_nat (sm_len s - sm_size s)) arr).
  { rewrite Hfb. replace (Z.to_nat (sm_len s - sm_size s)) with (length rest) by lia.
    rewrite Hat. unfold rest. rewrite take_take_drop. f_equal. lia. }
  destruct (cw_tvzero (sm_delivery s)); (do 2 eexists; split; [done|]);
    (split; [split; [done|done|cbn; lia|cbn; lia|intros ? Hx; cbn in Hx; congruence]|]); (split; [done|]); (split; [done|]);
    cbn; by rewrite Eo.
Qed.

(** A history of a smoother without the G.729 flag: the bytes of the frames
    it accepted and the frames it gave out. *)
Inductive smoother_io (size : Z) : cw_smoother -> list Z -> list cw_frame -> Prop :=
  | io_new s :
      cw_smoother_new true size = Some s -> smoother_io size s [] []
  | io_feed s i o f s' :
      smoother_io size s i o -> good_frame f -> optimizablestream s < 10 ->
      __cw_smoother_feed s f false = Some (0, s') ->
      smoother_io size s' (i ++ frame_bytes f) o
  | io_refused s i o f s' :
      smoother_io size s i o -> good_frame f -> optimizablestream s < 10 ->
      __cw_smoother_feed s f false = Some (-1, s') ->
      smoother_io size s' i o
  | io_read s i o f s' :
      smoother_io size s i o -> cw_smoother_read top_bit s = Some (Some f, s') ->
      smoother_io size s' i (o ++ [f]).

Lemma smoother_new_wf size s :
  cw_smoother_new true size = Some s -> smoother_wf s /\ pending s = [] /\ sm_size s = size.
Proof.
  unfold cw_smoother_new. case_if; [done|]. b2p. intros [= <-]. split; [|done].
  by split.
Qed.

Lemma feed_size s f r s' :
  __cw_smoother_feed s f false = Some (r, s') -> sm_size s' = sm_size s.
Proof.
  unfold __cw_smoother_feed, feed_store, feed_g729, feed_copy.
  repeat (case_if || (match goal with |- context [match ?x with _ => _ end] => destruct x end));
    by intros [= <- <-].
Qed.

Lemma read_size s fo s' : cw_smoother_read top_bit s = Some (fo, s') -> sm_size s' = sm_size s.
Proof.
  unfold cw_smoother_read. destruct (sm_opt s); [by intros [= <- <-]|].
  case_if; [by intros [= <- <-]|]. cbv zeta.
  repeat (case_if || (match goal with |- context [match ?x with _ => _ end] => destruct x end));
    by intros [= <- <-].
Qed.

(** The smoother is a first-in first-out queue of bytes: the bytes of
    all frames it gave out, followed by those it still holds, are the bytes of
    the frames it accepted, in order; every frame it gives out has exactly the
    configured size, and a read gives none only when fewer bytes are held. *)
Theorem smoother_fifo size s i o :
  smoother_io size s i o ->
  i = (o ≫= frame_bytes) ++ pending s
  /\ Forall (fun f => f_datalen f = size /\ Z.of_nat (length (frame_bytes f)) = size) o
  /\ (forall s', cw_smoother_read top_bit s = Some (None, s') ->
        s' = s /\ Z.of_nat (length (pending s)) < size).
Proof.
  intros H. assert (Hinv : smoother_wf s /\ sm_size s = size /\ i = (o ≫= frame_bytes) ++ pending s
    /\ Forall (fun f => f_datalen f = size /\ Z.of_nat (length (frame_bytes f)) = size) o).
  { induction H as [s Hs|s i o f s' _ (Hw & Hz & Hi & Ho) Hf Hopt E
                   |s i o f s' _ (Hw & Hz & Hi & Ho) Hf Hopt E|s i o f s' _ (Hw & Hz & Hi & Ho) E].
    - destruct (smoother_new_wf _ _ Hs) as (? & -> & ?). by split_and!.
    - destruct (feed_spec s f Hw Hf Hopt) as (r & s1 & E1 & Hw1 & Hr).
      rewrite E in E1. simplify_eq. destruct Hr as [[_ Hp]|[? _]]; [|done].
      split_and!; [done|by erewrite feed_size| |done]. by rewrite Hp, app_assoc.
    - destruct (feed_spec s f Hw Hf Hopt) as (r & s1 & E1 & Hw1 & Hr).
      rewrite E in E1. simplify_eq. destruct Hr as [[? _]|[_ Hp]]; [done|].
      split_and!; [done|by erewrite feed_size| |done]. by rewrite Hp.
    - destruct (read_spec s Hw) as (fo & s1 & E1 & Hw1 & Hr). rewrite E in E1. simplify_eq.
      destruct Hr as (Hg & Hd & Hp). split_and!; [done|by erewrite read_size| |].
      + rewrite bind_app, bind_singleton, <- app_assoc, <- Hp. done.
      + apply Forall_app. split; [done|]. constructor; [|constructor]. split; [done|].
        rewrite <- Hd. by apply mem_read_good. }
  destruct Hinv as (Hw & Hz & Hi & Ho). split; [done|]. split; [done|].
  intros s' E. destruct (read_spec s Hw) as (fo & s1 & E1 & _ & Hr). rewrite E in E1.
  simplify_eq. done.
Qed.

End fifo.

Definition wit_voice (n : nat) : cw_frame :=
  (cw_fr_init_ex CW_FRAME_VOICE CW_FORMAT_ULAW None)
    <| f_datalen := Z.of_nat n |> <| f_samples := Z.of_nat n |>
    <| f_data := Some (replicate n 7) |>.

Definition wit_sm0 : cw_smoother := cw_smoother_reset 20.
Definition wit_sm1 : cw_smoother :=
  match __cw_smoother_feed wit_sm0 (wit_voice 30) false with Some (_, s) => s | None => wit_sm0 end.
Definition wit_sm2 : cw_smoother :=
  match cw_smoother_read Z.log2 wit_sm1 with Some (_, s) => s | None => wit_sm0 end.
Definition wit_out : cw_frame :=
  match cw_smoother_read Z.log2 wit_sm1 with Some (Some f, _) => f | _ => cw_fr_init end.

Lemma wit_io : smoother_io Z.log2 20 wit_sm2 (replicate 30 7) [wit_out].
Proof.
  change [wit_out] with ([] ++ [wit_out]). apply (io_read _ _ wit_sm1); [|vm_compute; reflexivity].
  change (replicate 30 7) with ([] ++ frame_bytes (wit_voice 30)).
  apply (io_feed _ _ wit_sm0); [by apply io_new|unfold good_frame; simpl; lia|simpl; lia|].
  vm_compute. reflexivity.
Qed.

Lemma smoother_fifo_witness :
  replicate 30 7 = ([wit_out] ≫= frame_bytes) ++ pending wit_sm2.
Proof. exact (proj1 (smoother_fifo Z.log2 (fun x _ => eq_refl) 20 _ _ _ wit_io)). Defined.

(** With the G.729 flag and a size that is no multiple of ten, reading an
    empty smoother gives an empty frame and changes nothing: a caller that
    reads until NULL does not stop.  With a multiple of ten the frame with
    voice activity detection that the comment speaks of is not sent. *)
Lemma smoother_g729_read :
  let s := cw_smoother_set_flags (cw_smoother_reset 25) CW_SMOOTHER_FLAG_G729 in
  let s' := (cw_smoother_set_flags (cw_smoother_reset 20) CW_SMOOTHER_FLAG_G729)
              <| sm_len := 12 |> in
  (exists f, cw_smoother_read Z.log2 s = Some (Some f, s) /\ f_datalen f = 0)
  /\ cw_smoother_read Z.log2 s' = Some (None, s').
Proof. split; [eexists; split; reflexivity|reflexivity]. Qed.
