(* ===== verification/JbSpeakup.v ===== *)
(** * The SpeakUp jitter buffer (corelib/jitterbuffer/jitterbuf_speakup.c)

    The third buffer behind the generic layer.  It sorts the delays and the
    timestamps of the last 500 voice frames in two arrays, picks a target delay
    from the sorted delays by an estimate of the speech quality, and plays
    frames out while it grows or shrinks its delay towards the target.

    The circular list [voiceframes] is a list, earliest first, [controlframes]
    likewise.  [long] is 64 bits wide and kept as [Z]; [hist_pointer] counts the
    frames since the last reset and is assumed below 2^31.  [malloc]'s outcome is
    an argument.  The search for a timestamp may read one element behind the end of
    its array: the value found there is the argument [beyond].  The output hooks
    are not modelled. *)

From S2P Require Import Prelude JbScx TopBuf JbStevek Codec Smoother.
From Stdlib Require Import SpecFloat.

Definition JB_HISTORY_SIZE : Z := 500.
Definition JB_MIN_SIZE : Z := 0.
Definition JB_MAX_SIZE : Z := 0.
Definition JB_MAX_SUCCESSIVE_INTERP : Z := 0.
Definition JB_ALLOW_EXTRA_DELAY : Z := 30.
Definition JB_WAIT_GROW : Z := 60.
Definition JB_WAIT_SHRINK : Z := 250.
Definition JB_MAX_DIFF : Z := 6000.
Definition LONG_MAX : Z := 2 ^ 63 - 1.
Definition LONG_MIN : Z := - 2 ^ 63.

Record jb_hist_element := mk_hist { he_delay : Z; he_ts : Z; he_ms : Z; he_codec : Z }.

Record jb_speakup_settings := mk_settings {
  min_jb : Z;
  max_jb : Z;
  max_successive_interp : Z;
  extra_delay : Z;
  wait_grow : Z;
  wait_shrink : Z;
  max_diff : Z;
}.

#[export] Instance eta_jb_speakup_settings : Eta jb_speakup_settings := fun s =>
  mk_settings (min_jb s) (max_jb s) (max_successive_interp s) (extra_delay s) (wait_grow s)
    (wait_shrink s) (max_diff s).

Section speakup.
Context {D : Type}.

(** [jb_frame] of generic_jb.h with its codec. *)
Record voice_frame := mk_voice { vf_data : D; vf_ts : Z; vf_ms : Z; vf_type : Z; vf_codec : Z }.

Record speakup_jitterbuffer := mk_speakup {
  hist : list jb_hist_element;
  hist_sorted_delay : list Z;
  hist_sorted_timestamp : list Z;
  hist_pointer : Z;
  last_adjustment : Z;
  next_voice_time : Z;
  cnt_successive_interp : Z;
  silence_begin_ts : Z;
  sp_min : Z;
  sp_current : Z;
  sp_target : Z;
  last_delay : Z;
  sp_next : Z;
  voiceframes : list voice_frame;
  controlframes : list voice_frame;
  settings : jb_speakup_settings;
  sp_info : cw_jb_info;
}.

#[export] Instance eta_speakup : Eta speakup_jitterbuffer := fun j =>
  mk_speakup (hist j) (hist_sorted_delay j) (hist_sorted_timestamp j) (hist_pointer j)
    (last_adjustment j) (next_voice_time j) (cnt_successive_interp j) (silence_begin_ts j)
    (sp_min j) (sp_current j) (sp_target j) (last_delay j) (sp_next j) (voiceframes j)
    (controlframes j) (settings j) (sp_info j).

Definition stat (g : cw_jb_info -> cw_jb_info) (jb : speakup_jitterbuffer) : speakup_jitterbuffer :=
  jb <| sp_info := g (sp_info jb) |>.

Definition in_silence (jb : speakup_jitterbuffer) : bool := negb (i_silence (sp_info jb) =? 0).

(** ** Creation and settings *)

Definition default_settings : jb_speakup_settings :=
  mk_settings JB_MIN_SIZE JB_MAX_SIZE JB_MAX_SUCCESSIVE_INTERP JB_ALLOW_EXTRA_DELAY JB_WAIT_GROW
    JB_WAIT_SHRINK JB_MAX_DIFF.

Definition set_default_settings (jb : speakup_jitterbuffer) : speakup_jitterbuffer :=
  jb <| settings := default_settings |>.

Definition reset (jb : speakup_jitterbuffer) : speakup_jitterbuffer :=
  stat (fun i => i <| i_silence := 1 |>) (jb <| hist_pointer := 0 |> <| silence_begin_ts := 0 |>).

(** [calloc] *)
Definition zero_buffer : speakup_jitterbuffer :=
  mk_speakup (replicate (Z.to_nat JB_HISTORY_SIZE) (mk_hist 0 0 0 0))
    (replicate (Z.to_nat JB_HISTORY_SIZE) 0) (replicate (Z.to_nat JB_HISTORY_SIZE) 0)
    0 0 0 0 0 0 0 0 0 0 [] [] (mk_settings 0 0 0 0 0 0 0) jb_info_zero.

Definition jb_speakup_new (calloc_ok : bool) : option speakup_jitterbuffer :=
  if calloc_ok then Some (reset (set_default_settings zero_buffer)) else None.

(** What was freed, and the buffer. *)
Definition jb_speakup_reset (jb : speakup_jitterbuffer) : list D * speakup_jitterbuffer :=
  (vf_data <$> voiceframes jb, reset (jb <| voiceframes := [] |> <| sp_info := jb_info_zero |>)).

Definition jb_reset_all (jb : speakup_jitterbuffer) : list D * speakup_jitterbuffer :=
  let '(freed, jb') := jb_speakup_reset (jb <| controlframes := [] |>) in
  ((vf_data <$> controlframes jb) ++ freed, set_default_settings jb').

Definition jb_speakup_destroy (jb : speakup_jitterbuffer) : list D := (jb_reset_all jb).1.

(** A setting of zero is not a setting. *)
Definition jb_speakup_set_settings (jb : speakup_jitterbuffer) (s : jb_speakup_settings) : speakup_jitterbuffer :=
  let pick new old := if new =? 0 then old else new in
  let o := settings jb in
  jb <| settings := mk_settings (pick (min_jb s) (min_jb o)) (pick (max_jb s) (max_jb o))
          (pick (max_successive_interp s) (max_successive_interp o))
          (pick (extra_delay s) (extra_delay o)) (pick (wait_grow s) (wait_grow o))
          (pick (wait_shrink s) (wait_shrink o)) (pick (max_diff s) (max_diff o)) |>.

Definition jb_speakup_get_settings (jb : speakup_jitterbuffer) : jb_speakup_settings := settings jb.

Definition jb_speakup_has_frames (jb : speakup_jitterbuffer) : Z :=
  match controlframes jb, voiceframes jb with [], [] => JB_EMPTY | _, _ => JB_OK end.

(** ** Sorted arrays *)

(** [array[i]], inside the array. *)
Definition at_ (array : list Z) (i : Z) : Z := nth (Z.to_nat i) array 0.

Fixpoint find_loop (fuel : nat) (array : list Z) (low high value : Z) : Z :=
  match fuel with
  | O => low
  | S fuel =>
    if low <=? high then
      let mid := Z.quot (low + high) 2 in
      if at_ array mid <? value then find_loop fuel array (mid + 1) high value
      else if value <? at_ array mid then find_loop fuel array low (mid - 1) value
      else mid
    else low
  end.

(** A round takes an element. *)
Definition find_pointer (array : list Z) (max_index value : Z) : Z :=
  find_loop (S (length array)) array 0 max_index value.

(** [memmove] of what is behind position [p] onto it. *)
Definition shift_down (p : Z) (array : list Z) : list Z :=
  take (Z.to_nat p) array ++ drop (S (Z.to_nat p)) array ++ drop (Z.to_nat (JB_HISTORY_SIZE - 1)) array.

(** [memmove] of what is from position [p] on to the next one, and a value put
    there. *)
Definition shift_up (p value : Z) (array : list Z) : list Z :=
  take (Z.to_nat p) array ++ value :: take (Z.to_nat (JB_HISTORY_SIZE - (p + 1))) (drop (Z.to_nat p) array).

Definition delete_value (array : list Z) (max_index value : Z) : list Z :=
  let pointer := find_pointer array max_index value in
  if pointer <? max_index then shift_down pointer array else array.

Definition add_value (array : list Z) (max_index value : Z) : list Z :=
  if (max_index =? 0) || (at_ array (max_index - 1) <=? value)
  then <[Z.to_nat max_index := value]> array
  else shift_up (find_pointer array (max_index - 1) value) value array.

(** The highest index used with the next frame. *)
Definition top_index (jb : speakup_jitterbuffer) : Z :=
  if hist_pointer jb <? JB_HISTORY_SIZE then hist_pointer jb else JB_HISTORY_SIZE - 1.

Definition put_history (jb : speakup_jitterbuffer) (ts now ms codec : Z) : speakup_jitterbuffer :=
  let max_index := top_index jb in
  let location := Z.to_nat (Z.rem (hist_pointer jb) JB_HISTORY_SIZE) in
  let full := JB_HISTORY_SIZE - 1 <? hist_pointer jb in
  let out := nth location (hist jb) (mk_hist 0 0 0 0) in
  let delete a v := if full then delete_value a max_index v else a in
  let in_ := mk_hist (now - ts) ts ms codec in
  jb <| hist_sorted_delay :=
          add_value (delete (hist_sorted_delay jb) (he_delay out)) max_index (he_delay in_) |>
     <| hist_sorted_timestamp :=
          add_value (delete (hist_sorted_timestamp jb) (he_ts out)) max_index (he_ts in_) |>
     <| hist := <[location := in_]> (hist jb) |>
     <| hist_pointer := hist_pointer jb + 1 |>.

(** ** The target delay *)

(** Double precision, for the constants and the estimate; the result is cut to
    single precision. *)
Definition double_of_int (z : Z) : spec_float := binary_normalize 53 1024 z 0 false.
Definition double_mul := SFmul 53 1024.
Definition double_sub := SFsub 53 1024.

(** The double next to a decimal fraction. *)
Definition decimal (num den : Z) : spec_float := SFdiv 53 1024 (double_of_int num) (double_of_int den).

Definition float_of_double (a : spec_float) : spec_float :=
  match a with
  | S754_finite s m e => binary_normalize 24 128 (cond_Zopp s (Z.pos m)) e s
  | _ => a
  end.

(** [p] is a percentage, a small integer, and exact in every precision. *)
Definition jb_speakup_guess_mos (p d codec : Z) : spec_float :=
  let formula base loss :=
    float_of_double
      (double_sub (double_sub base (double_mul loss (double_of_int p)))
         (double_mul (decimal 71 10000) (double_of_int d))) in
  if codec =? CW_FORMAT_GSM then formula (decimal 431 100) (decimal 23 100)
  else if codec =? CW_FORMAT_G723_1 then formula (decimal 399 100) (decimal 16 100)
  else if codec =? CW_FORMAT_G729A then formula (decimal 413 100) (decimal 14 100)
  else if codec =? CW_FORMAT_ALAW then formula (decimal 442 100) (decimal 87 1000)
  else if codec =? CW_FORMAT_ULAW then formula (decimal 442 100) (decimal 87 1000)
  else formula (decimal 442 100) (decimal 63 100).

(** [do ... while]: the next smaller delay, but not beyond half of the history. *)
Fixpoint next_delay (fuel : nat) (delays : list Z) (min max_index d1 n : Z) : Z * Z :=
  match fuel with
  | O => (n, d1)
  | S fuel =>
    let n := n + 1 in
    let d2 := at_ delays (max_index - n) - min in
    if (d1 <=? d2) && (n * 2 <? max_index) then next_delay fuel delays min max_index d1 n else (n, d2)
  end.

(** The best delay found so far is [d], with estimate [A]. *)
Fixpoint best_delay (fuel : nat) (delays : list Z) (min size max_n codec n d2 d : Z) (A : spec_float) : Z :=
  match fuel with
  | O => d
  | S fuel =>
    if (10 <? size - 1) && (n <? max_n) then
      let B := jb_speakup_guess_mos (Z.quot (n * 100) size) d2 codec in
      let '(d, A) := if SFltb A B then (d2, B) else (d, A) in
      let '(n, d2) := next_delay (length delays) delays min (size - 1) d2 n in
      best_delay fuel delays min size max_n codec n d2 d A
    else d
  end.

(** The share of the history that is looked at. *)
Definition tail_percent (iqr : Z) : Z :=
  if 200 <? iqr then 25 else if 100 <? iqr then 20 else if 50 <? iqr then 11 else 5.

(** [p1 * size / 100] in single precision. *)
Definition tail_size (iqr size : Z) : Z :=
  int_of_float (float_div (float_mul (float_of_int (tail_percent iqr)) (float_of_int size)) (float_of_int 100)).

Definition calculate_info (jb : speakup_jitterbuffer) (ts now codec : Z) : speakup_jitterbuffer :=
  let size := if hist_pointer jb <? JB_HISTORY_SIZE then hist_pointer jb else JB_HISTORY_SIZE in
  let max_index := size - 1 in
  let delays := hist_sorted_delay jb in
  let iqr := at_ delays (Z.quot (max_index * 3) 4) - at_ delays (Z.quot max_index 4) in
  let diff := if last_delay jb =? 0 then 0 else now - ts - last_delay jb in
  let diff := if diff <? 0 then - diff else diff in
  let jb := stat (fun i => i <| i_iqr := iqr |>
                             <| i_jitter := i_jitter i + Z.quot (diff - i_jitter i) 16 |>)
              (jb <| last_delay := now - ts |>) in
  let min := at_ delays (Z.quot (max_index * 2) 100) in
  let top := at_ delays max_index - min in
  let d := best_delay (length delays) delays min size (tail_size iqr size) codec 0 top top
             (float_of_int LONG_MIN) in
  let s := settings jb in
  let target :=
    if negb (min_jb s =? 0) && (d <? min_jb s) then min + min_jb s
    else if negb (max_jb s =? 0) && (max_jb s <? d) then min + max_jb s
    else min + d in
  jb <| sp_min := min |> <| sp_target := target |>.

(** Skip the positions of the value itself. *)
Fixpoint skip_equal (fuel : nat) (array : list Z) (pointer max_index value : Z) : Z :=
  match fuel with
  | O => pointer
  | S fuel =>
    if (pointer <=? max_index) && (value =? at_ array pointer)
    then skip_equal fuel array (pointer + 1) max_index value else pointer
  end.

Definition jb_speakup_get_info (jb : speakup_jitterbuffer) : cw_jb_info * speakup_jitterbuffer :=
  let max_index := top_index jb in
  let losspct :=
    if 1 <? max_index then
      let pointer := find_pointer (hist_sorted_delay jb) max_index (sp_current jb) in
      let pointer := skip_equal (length (hist_sorted_delay jb)) (hist_sorted_delay jb) pointer max_index
                       (sp_current jb) in
      let pct := Z.quot ((max_index - pointer) * 100) max_index in
      if pct <? 0 then 0 else pct
    else 0 in
  let jb := stat (fun i => i <| i_delay := sp_current jb - sp_min jb |>
                             <| i_delay_target := sp_target jb - sp_min jb |>
                             <| i_losspct := losspct |>) jb in
  (sp_info jb, jb).

(** ** Putting *)

(** Behind the last frame that is not later. *)
Fixpoint insert_frame (ts : Z) (frame : voice_frame) (l : list voice_frame) : list voice_frame :=
  match l with
  | [] => [frame]
  | p :: l => if ts <? vf_ts p then frame :: p :: l else p :: insert_frame ts frame l
  end.

(** The circular list is searched from its end; what comes back are the frames
    before and behind the place. *)
Fixpoint voice_walk (ts : Z) (before after : list voice_frame) : list voice_frame * list voice_frame :=
  match before with
  | [] => ([], after)
  | p :: prev => if ts <? vf_ts p then voice_walk ts prev (p :: after) else (before, after)
  end.

Definition put_control (malloc_ok : bool) (jb : speakup_jitterbuffer) (frame : voice_frame)
    : speakup_jitterbuffer :=
  if malloc_ok then jb <| controlframes := insert_frame (vf_ts frame) frame (controlframes jb) |> else jb.

Definition put_voice (malloc_ok : bool) (jb : speakup_jitterbuffer) (frame : voice_frame)
    : speakup_jitterbuffer :=
  if negb malloc_ok then jb
  else
    let ts := vf_ts frame in
    match voiceframes jb with
    | [] => jb <| voiceframes := [frame] |>
    | p :: l =>
      let jb := if ts <? vf_ts (List.last l p) then stat (fun i => i <| i_frames_ooo := i_frames_ooo i + 1 |>) jb
                else jb in
      if ts <? vf_ts p then jb <| voiceframes := frame :: p :: l |>
      else
        let '(before, after) := voice_walk ts (reverse (p :: l)) [] in
        jb <| voiceframes := reverse before ++ frame :: after |>
    end.

(** What becomes of the data of a put. *)
Inductive put_fate := Stored | Freed | Leaked.

Definition fate_of (malloc_ok : bool) : put_fate := if malloc_ok then Stored else Leaked.

Definition jb_speakup_put (beyond : Z) (malloc_ok : bool) (jb : speakup_jitterbuffer) (data : D)
    (type ms ts now codec : Z) : put_fate * speakup_jitterbuffer :=
  let jb := stat (fun i => i <| i_frames_received := i_frames_received i + 1 |>) jb in
  let frame := mk_voice data ts ms type codec in
  if type =? JB_TYPE_CONTROL then (fate_of malloc_ok, put_control malloc_ok jb frame)
  else if type =? JB_TYPE_VOICE then
    let pointer := find_pointer (hist_sorted_timestamp jb) (top_index jb) ts in
    let found := if pointer <? JB_HISTORY_SIZE then at_ (hist_sorted_timestamp jb) pointer else beyond in
    if found =? ts then (Freed, stat (fun i => i <| i_frames_dropped_twice := i_frames_dropped_twice i + 1 |>) jb)
    else (fate_of malloc_ok, put_voice malloc_ok (calculate_info (put_history jb ts now ms codec) ts now codec) frame)
  else if type =? JB_TYPE_SILENCE then (fate_of malloc_ok, put_voice malloc_ok jb frame)
  else (Freed, jb).

(** ** Getting *)

(** The result code, the data handed out, the data freed on the way, the buffer. *)
Definition got_frame : Type := Z * option D * list D * speakup_jitterbuffer.

Definition get_control (jb : speakup_jitterbuffer) : option (D * speakup_jitterbuffer) :=
  match controlframes jb with
  | [] => None
  | f :: l => Some (vf_data f, jb <| controlframes := l |>)
  end.

Definition get_next_frametype (jb : speakup_jitterbuffer) (ts : Z) : Z :=
  match voiceframes jb with
  | f :: _ => if vf_ts f <=? ts then vf_type f else 0
  | [] => 0
  end.

Definition get_next_framets (jb : speakup_jitterbuffer) : Z :=
  match voiceframes jb with f :: _ => vf_ts f | [] => LONG_MAX end.

Definition get_frame (jb : speakup_jitterbuffer) (ts : Z) : option (voice_frame * speakup_jitterbuffer) :=
  match voiceframes jb with
  | f :: l => if vf_ts f <=? ts then Some (f, jb <| voiceframes := l |>) else None
  | [] => None
  end.

Definition get_all_frames (jb : speakup_jitterbuffer) : option (voice_frame * speakup_jitterbuffer) :=
  match voiceframes jb with
  | f :: l => Some (f, jb <| voiceframes := l |>)
  | [] => None
  end.

Definition also_freed (x : D) (r : outcome got_frame) : outcome got_frame :=
  match r with Ret (res, o, freed, jb) => Ret (res, o, x :: freed, jb) | r => r end.

(** Growing: by the difference or by a frame. *)
Definition grow (jb : speakup_jitterbuffer) (now interpl diff : Z) : speakup_jitterbuffer :=
  jb <| sp_current := sp_current jb + (if diff <? Z.quot interpl 2 then diff else interpl) |>
     <| last_adjustment := now |>.

(** No frame although it is time: after too many of them there is silence. *)
Definition interpolate (jb : speakup_jitterbuffer) (interpl : Z) : speakup_jitterbuffer :=
  let s := settings jb in
  let jb := jb <| cnt_successive_interp := cnt_successive_interp jb + 1 |> in
  let jb := if negb (max_successive_interp s =? 0) && (max_successive_interp s <=? cnt_successive_interp jb)
            then stat (fun i => i <| i_silence := 1 |>) (jb <| silence_begin_ts := next_voice_time jb |>)
            else jb in
  jb <| next_voice_time := next_voice_time jb + interpl |>.

(** [rec] is the call of [get_voice]. *)
Definition get_voicecase (rec : speakup_jitterbuffer -> outcome got_frame) (jb : speakup_jitterbuffer)
    (now interpl diff : Z) : outcome got_frame :=
  let s := settings jb in
  if (max_diff s <? diff) || (max_diff s <? - diff) then Ret (JB_NOFRAME, None, [], reset jb)
  else if (0 <? diff) && ((last_adjustment jb + wait_grow s <? now)
                          || (now + sp_current jb + interpl <? get_next_framets jb))
  then rec (grow jb now interpl diff)
  else if (diff <? 0) && (last_adjustment jb + wait_shrink s <? now) && (extra_delay s <? - diff) then
    let jb := jb <| last_adjustment := now |> in
    match get_frame jb (now - sp_current jb) with
    | Some (f, jb) =>
      also_freed (vf_data f)
        (rec (stat (fun i => i <| i_frames_dropped := i_frames_dropped i + 1 |>)
                (jb <| sp_current := sp_current jb - vf_ms f |>)))
    | None => rec (jb <| sp_current := sp_current jb - interpl |>)
    end
  else if now - sp_current jb <? next_voice_time jb then Ret (JB_NOFRAME, None, [], jb)
  else
    match get_frame jb (now - sp_current jb) with
    | Some (f, jb) =>
      if vf_ts f <? next_voice_time jb then
        also_freed (vf_data f) (rec (stat (fun i => i <| i_frames_late := i_frames_late i + 1 |>) jb))
      else
        Ret (JB_OK, Some (vf_data f), [],
             jb <| next_voice_time := vf_ts f + vf_ms f |> <| cnt_successive_interp := 0 |>)
    | None => Ret (JB_INTERP, None, [], interpolate jb interpl)
    end.

Fixpoint get_voice (fuel : nat) (jb : speakup_jitterbuffer) (now interpl : Z) : outcome got_frame :=
  match fuel with
  | O => Out_of_fuel
  | S fuel =>
    let rec jb := get_voice fuel jb now interpl in
    let diff := sp_target jb - sp_current jb in
    if get_next_frametype jb (now - sp_current jb) =? JB_TYPE_SILENCE then
      match get_frame jb (now - sp_current jb) with
      | Some (f, jb) =>
        Ret (JB_OK, Some (vf_data f), [],
             stat (fun i => i <| i_silence := 1 |>) (jb <| silence_begin_ts := vf_ts f |>))
      | None => Assert_failed
      end
    else if in_silence jb then
      let jb := if diff =? 0 then jb else jb <| sp_current := sp_target jb |> in
      match get_frame jb (now - sp_current jb) with
      | Some (f, jb) =>
        if negb (silence_begin_ts jb =? 0) && (vf_ts f <? silence_begin_ts jb) then
          also_freed (vf_data f) (rec (stat (fun i => i <| i_frames_late := i_frames_late i + 1 |>) jb))
        else
          Ret (JB_OK, Some (vf_data f), [],
               stat (fun i => i <| i_silence := 0 |> <| i_last_voice_ms := vf_ms f |>)
                 (jb <| silence_begin_ts := 0 |> <| next_voice_time := vf_ts f + vf_ms f |>))
      | None => Ret (JB_EMPTY, None, [], jb)
      end
    else get_voicecase rec jb now interpl diff
  end.

Definition jb_speakup_get (fuel : nat) (jb : speakup_jitterbuffer) (now interpl : Z) : outcome got_frame :=
  match get_control jb with
  | Some (d, jb) => Ret (JB_OK, Some d, [], jb)
  | None => get_voice fuel jb now interpl
  end.

Definition jb_speakup_get_all (jb : speakup_jitterbuffer) : Z * option D * speakup_jitterbuffer :=
  match get_all_frames jb with
  | Some (f, jb) => (JB_OK, Some (vf_data f), jb)
  | None => (JB_EMPTY, None, jb)
  end.

(** Enough: a frame leaves, the buffer shrinks once, or it grows a step, of which
    there are at most [max_diff] between the others. *)
Definition get_fuel (jb : speakup_jitterbuffer) : nat :=
  ((length (voiceframes jb) + 2) * (Z.to_nat (max_diff (settings jb)) + 2))%nat.

End speakup.
Arguments voice_frame : clear implicits.
Arguments speakup_jitterbuffer : clear implicits.
Arguments got_frame : clear implicits.

(** ** The search in a sorted array *)

Abbreviation sorted := (StronglySorted Z.le).
Abbreviation len_of l := (Z.of_nat (length l)).

Lemma at_take l n i : 0 <= i < n -> at_ (take (Z.to_nat n) l) i = at_ l i.
Proof. intros Hi. unfold at_. rewrite !nth_lookup. by rewrite lookup_take_lt by lia. Qed.

Lemma at_app_l l k i : 0 <= i < len_of l -> at_ (l ++ k) i = at_ l i.
Proof. intros Hi. unfold at_. by rewrite app_nth1 by lia. Qed.

Lemma sorted_at l i j : sorted l -> 0 <= i <= j -> j < len_of l -> at_ l i <= at_ l j.
Proof.
  intros Hs. revert i j. induction Hs as [|x l Hs IH Hx]; intros i j Hij Hj; [simpl in Hj; lia|].
  cbn [length] in Hj. unfold at_ in *.
  destruct (decide (j = 0)) as [->|Hj0]; [by replace i with 0 by lia|].
  replace (Z.to_nat j) with (S (Z.to_nat (j - 1))) by lia. cbn [nth].
  destruct (decide (i = 0)) as [->|Hi0].
  - cbn. eapply Forall_forall; [exact Hx|]. rewrite list_elem_of_In. apply nth_In. lia.
  - replace (Z.to_nat i) with (S (Z.to_nat (i - 1))) by lia. cbn [nth]. apply IH; lia.
Qed.

(** What the search finds: the value, or the place where it belongs. *)
Definition found_at (a : list Z) (k v p : Z) : Prop :=
  0 <= p <= k /\ at_ a p = v \/
  0 <= p <= k + 1 /\ (forall i, 0 <= i < p -> at_ a i < v) /\ (forall i, p <= i <= k -> v < at_ a i).

Lemma find_loop_spec a k v fuel : forall low high,
  (forall i j, 0 <= i <= j -> j <= k -> at_ a i <= at_ a j) ->
  high - low + 1 < Z.of_nat fuel -> 0 <= low <= high + 1 -> high <= k ->
  (forall i, 0 <= i < low -> at_ a i < v) -> (forall i, high < i <= k -> v < at_ a i) ->
  found_at a k v (find_loop fuel a low high v).
Proof.
  induction fuel as [|fuel IH]; intros low high Hs Hf Hl Hh Hlow Hhigh; [lia|]. cbn [find_loop].
  destruct (Z.leb_spec low high) as [Hle|Hgt].
  2: { right. split; [lia|]. split; [done|]. intros i Hi. apply Hhigh. lia. }
  rewrite Z.quot_div_nonneg by lia.
  assert (low <= (low + high) / 2 <= high) as Hmid.
  { split; [apply Z.div_le_lower_bound; lia|apply Z.div_le_upper_bound; lia]. }
  set (mid := (low + high) / 2) in *.
  destruct (Z.ltb_spec (at_ a mid) v) as [Hlt|Hge].
  { apply IH; try done; try lia. intros i Hi. pose proof (Hs i mid). lia. }
  destruct (Z.ltb_spec v (at_ a mid)) as [Hlt|Hge'].
  { apply IH; try done; try lia. intros i Hi. pose proof (Hs mid i). lia. }
  left. split; lia.
Qed.

Lemma find_pointer_spec a k v :
  sorted (take (Z.to_nat (k + 1)) a) -> -1 <= k < len_of a -> found_at a k v (find_pointer a k v).
Proof.
  intros Hs Hk. apply find_loop_spec; try lia.
  intros i j Hi Hj. rewrite <- (at_take a (k + 1) i), <- (at_take a (k + 1) j) by lia.
  apply sorted_at; [done|lia|]. rewrite length_take. lia.
Qed.

(** ** The sorted histories *)

Abbreviation SIZE := (Z.to_nat JB_HISTORY_SIZE).

Lemma take_at a (p : Z) : 0 <= p < len_of a ->
  a = take (Z.to_nat p) a ++ at_ a p :: drop (S (Z.to_nat p)) a.
Proof.
  intros Hp. unfold at_. rewrite <- (take_drop (Z.to_nat p) a) at 1. f_equal.
  destruct (nth_lookup_or_length a (Z.to_nat p) 0) as [E|]; [|lia]. by apply drop_S.
Qed.

(** Splitting a sorted list at the place of a value keeps it sorted with the value
    there. *)
Lemma sorted_insert a k v p :
  sorted (take (Z.to_nat (k + 1)) a) -> -1 <= k < len_of a -> found_at a k v p -> p <= k + 1 ->
  sorted (take (Z.to_nat p) a ++ v :: drop (Z.to_nat p) (take (Z.to_nat (k + 1)) a)).
Proof.
  intros Hs Hk Hp Hpk. set (t := take (Z.to_nat (k + 1)) a) in *.
  assert (take (Z.to_nat p) a = take (Z.to_nat p) t) as ->
    by (unfold t; rewrite take_take; f_equal; destruct Hp as [[? _]|[? _]]; lia).
  rewrite <- (take_drop (Z.to_nat p) t) in Hs. apply StronglySorted_app_iff in Hs as (H1 & H2 & H12).
  assert (len_of t = k + 1) as Hlt by (unfold t; rewrite length_take; lia).
  assert (0 <= p) as Hp0 by (destruct Hp as [[? _]|[? _]]; lia).
  assert (forall i, 0 <= i <= k -> at_ t i = at_ a i) as Hta by (intros i Hi; apply at_take; lia).
  assert (forall i j, 0 <= i <= j -> j <= k -> at_ a i <= at_ a j) as Hmono.
  { intros i j Hi Hj. rewrite <- !Hta by lia. apply sorted_at; [|lia|lia].
    rewrite <- (take_drop (Z.to_nat p) t). apply StronglySorted_app_iff. done. }
  assert (forall x, x ∈ take (Z.to_nat p) t -> x <= v) as Hle.
  { intros x (i & Hi)%list_elem_of_lookup. apply lookup_take_Some in Hi as [Hi Hip].
    assert (x = at_ a (Z.of_nat i)) as ->.
    { rewrite <- Hta by lia. unfold at_. rewrite Nat2Z.id. symmetry. by apply nth_lookup_Some. }
    destruct Hp as [[? <-]|(? & Hlow & _)]; [apply Hmono; lia|]. apply Z.lt_le_incl, Hlow. lia. }
  assert (forall x, x ∈ drop (Z.to_nat p) t -> v <= x) as Hge.
  { intros x (i & Hi)%list_elem_of_lookup. rewrite lookup_drop in Hi.
    pose proof (lookup_lt_Some _ _ _ Hi) as Hlen.
    assert (x = at_ a (p + Z.of_nat i)) as ->.
    { rewrite <- Hta by lia. unfold at_. replace (Z.to_nat (p + Z.of_nat i)) with (Z.to_nat p + i)%nat by lia.
      symmetry. by apply nth_lookup_Some. }
    destruct Hp as [[? <-]|(? & _ & Hhigh)]; [apply Hmono; lia|]. apply Z.lt_le_incl, Hhigh. lia. }
  apply StronglySorted_app_iff. split_and!; [done| |].
  - constructor; [done|]. by apply Forall_forall.
  - intros x y Hx [->|Hy]%elem_of_cons; [by apply Hle|]. by apply H12.
Qed.

(** The first [n] elements with a value added. *)
Lemma add_value_ok a n v :
  len_of a = JB_HISTORY_SIZE -> 0 <= n < JB_HISTORY_SIZE -> sorted (take (Z.to_nat n) a) ->
  let a' := add_value a n v in
  len_of a' = JB_HISTORY_SIZE /\ sorted (take (Z.to_nat (n + 1)) a') /\
  take (Z.to_nat (n + 1)) a' ≡ₚ v :: take (Z.to_nat n) a.
Proof.
  intros Hl Hn Hs. unfold add_value. unfold JB_HISTORY_SIZE in *.
  destruct ((n =? 0) || (at_ a (n - 1) <=? v)) eqn:E.
  - rewrite length_insert. split; [done|].
    assert (take (Z.to_nat (n + 1)) (<[Z.to_nat n := v]> a) = take (Z.to_nat n) a ++ [v]) as ->.
    { replace (Z.to_nat (n + 1)) with (S (Z.to_nat n)) by lia.
      rewrite (take_S_r _ _ v) by (apply list_lookup_insert_eq; lia). by rewrite take_insert_ge. }
    split; [|by rewrite Permutation_app_comm]. apply StronglySorted_app_iff.
    split_and!; [done|repeat constructor|]. intros x y Hx ->%list_elem_of_singleton.
    apply list_elem_of_lookup in Hx as (i & Hi). pose proof (lookup_lt_Some _ _ _ Hi) as Hin.
    rewrite length_take in Hin. apply orb_true_iff in E as [->%Z.eqb_eq|E%Z.leb_le]; [simpl in Hin; lia|].
    pose proof (sorted_at _ (Z.of_nat i) (n - 1) Hs ltac:(lia) ltac:(rewrite length_take; lia)) as Hle.
    rewrite (at_take a n (n - 1)) in Hle by lia. unfold at_ at 1 in Hle. rewrite Nat2Z.id in Hle.
    rewrite (nth_lookup_Some _ _ _ _ Hi) in Hle. lia.
  - apply orb_false_iff in E as [E1%Z.eqb_neq E2%Z.leb_gt].
    assert (sorted (take (Z.to_nat (n - 1 + 1)) a)) as Hs' by by replace (n - 1 + 1) with n by lia.
    pose proof (find_pointer_spec a (n - 1) v Hs' ltac:(lia)) as Hp. set (p := find_pointer _ _ _) in *.
    assert (0 <= p < n) as Hpn.
    { destruct Hp as [[? _]|(? & Hlow & _)]; [lia|]. destruct (decide (p = n)) as [Ep|]; [|lia].
      specialize (Hlow (n - 1)). lia. }
    pose proof (sorted_insert a (n - 1) v p Hs' ltac:(lia) Hp ltac:(lia)) as Hins.
    replace (n - 1 + 1) with n in Hins by lia.
    assert (take (Z.to_nat (n + 1)) (shift_up p v a) =
            take (Z.to_nat p) a ++ v :: drop (Z.to_nat p) (take (Z.to_nat n) a)) as Et.
    { unfold shift_up. rewrite take_app_ge by (rewrite length_take; lia). f_equal. rewrite length_take.
      replace (Z.to_nat (n + 1) - Z.to_nat p `min` length a)%nat with (S (Z.to_nat (n - p))) by lia.
      cbn [take firstn]. f_equal. rewrite take_take, take_drop_commute. do 2 f_equal. unfold JB_HISTORY_SIZE. lia. }
    split; [|split].
    + unfold shift_up. rewrite length_app, length_take. cbn [length]. rewrite length_take, length_drop.
      unfold JB_HISTORY_SIZE. lia.
    + by rewrite Et.
    + rewrite Et. rewrite <- Permutation_middle. f_equiv.
      assert (take (Z.to_nat p) a = take (Z.to_nat p) (take (Z.to_nat n) a)) as -> by (rewrite take_take; f_equal; lia).
      by rewrite take_drop.
Qed.

(** A full array with one of its values taken out. *)
Lemma delete_value_ok a v :
  len_of a = JB_HISTORY_SIZE -> sorted a -> v ∈ a ->
  let a' := delete_value a (JB_HISTORY_SIZE - 1) v in
  len_of a' = JB_HISTORY_SIZE /\ sorted (take (SIZE - 1) a') /\ v :: take (SIZE - 1) a' ≡ₚ a.
Proof.
  intros Hl Hs Hv. unfold delete_value. unfold JB_HISTORY_SIZE in *. 
  assert (sorted (take (Z.to_nat (500 - 1 + 1)) a)) as Hs' by (rewrite take_ge by lia; done).
  pose proof (find_pointer_spec a (500 - 1) v Hs' ltac:(lia)) as Hp. set (p := find_pointer _ _ _) in *.
  assert (0 <= p < 500 /\ at_ a p = v) as [Hpr Hpv].
  { destruct Hp as [[? ?]|(? & Hlow & Hhigh)]; [split; lia|]. exfalso.
    apply list_elem_of_lookup in Hv as (i & Hi). pose proof (lookup_lt_Some _ _ _ Hi) as Hin.
    assert (at_ a (Z.of_nat i) = v) as Hat by (unfold at_; rewrite Nat2Z.id; by apply nth_lookup_Some).
    destruct (Z.lt_ge_cases (Z.of_nat i) p) as [Hlt|Hge]; [specialize (Hlow (Z.of_nat i))|specialize (Hhigh (Z.of_nat i))]; lia. }
  pose proof (take_at a p ltac:(lia)) as Ea. rewrite Hpv in Ea.
  assert (sorted (take (Z.to_nat p) a ++ drop (S (Z.to_nat p)) a)) as Hsr.
  { rewrite Ea in Hs. apply StronglySorted_app_iff in Hs as (H1 & H2 & H12).
    apply StronglySorted_app_iff. apply StronglySorted_inv in H2 as [H2 _]. split_and!; [done|done|].
    intros x y Hx Hy. apply H12; [done|by right]. }
  assert (length (take (Z.to_nat p) a ++ drop (S (Z.to_nat p)) a) = 499)%nat as Hl'
    by (rewrite length_app, length_take, length_drop; lia).
  assert (take 499 (if p <? 500 - 1 then shift_down p a else a) = take (Z.to_nat p) a ++ drop (S (Z.to_nat p)) a) as Et.
  { destruct (Z.ltb_spec p (500 - 1)).
    - unfold shift_down. rewrite app_assoc, take_app_le by (rewrite Hl'; done). by rewrite take_ge by (rewrite Hl'; done).
    - assert (p = 499) as Ep by lia. rewrite Ep. rewrite (drop_ge a) by lia. by rewrite app_nil_r. }
  change (Z.to_nat 500 - 1)%nat with 499%nat. rewrite Et. split_and!; [|done|].
  - destruct (Z.ltb_spec p (500 - 1)); [|done]. unfold shift_down.
    rewrite app_assoc, length_app, Hl', length_drop. unfold JB_HISTORY_SIZE. lia.
  - rewrite Ea at 3. by rewrite Permutation_middle.
Qed.

(** An array has the values of the first [n] entries of the history, sorted. *)
Definition window (key : jb_hist_element -> Z) (a : list Z) (h : list jb_hist_element) (n : nat) : Prop :=
  len_of a = JB_HISTORY_SIZE /\ sorted (take n a) /\ take n a ≡ₚ key <$> take n h.

Lemma window_put key a h hp in_ d :
  len_of h = JB_HISTORY_SIZE -> 0 <= hp -> window key a h (Z.to_nat (Z.min hp JB_HISTORY_SIZE)) ->
  let max_index := if hp <? JB_HISTORY_SIZE then hp else JB_HISTORY_SIZE - 1 in
  let location := Z.to_nat (Z.rem hp JB_HISTORY_SIZE) in
  window key
    (add_value (if JB_HISTORY_SIZE - 1 <? hp then delete_value a max_index (key (nth location h d)) else a)
       max_index (key in_))
    (<[location := in_]> h) (Z.to_nat (Z.min (hp + 1) JB_HISTORY_SIZE)).
Proof.
  intros Hh Hp (Hl & Hs & Hperm). unfold window. cbv zeta.
  destruct (Z.ltb_spec hp JB_HISTORY_SIZE) as [Hlt|Hge].
  - rewrite (proj2 (Z.ltb_ge _ hp)) by lia. rewrite (Z.min_l hp) in Hs, Hperm by lia. rewrite (Z.min_l (hp + 1)) by lia.
    rewrite Z.rem_small by lia.
    destruct (add_value_ok a hp (key in_) Hl ltac:(lia) Hs) as (Hl' & Hs' & Hp').
    split_and!; [done|done|]. rewrite Hp', Hperm. replace (Z.to_nat (hp + 1)) with (S (Z.to_nat hp)) by lia.
    rewrite (take_S_r _ _ in_) by (apply list_lookup_insert_eq; lia). rewrite take_insert_ge by done.
    rewrite fmap_app. by rewrite Permutation_app_comm.
  - rewrite (proj2 (Z.ltb_lt _ hp)) by lia. rewrite (Z.min_r hp) in Hs, Hperm by lia. rewrite (Z.min_r (hp + 1)) by lia.
    rewrite !take_ge in * by (rewrite ?length_insert; unfold JB_HISTORY_SIZE in *; lia).
    pose proof (Z.rem_bound_pos hp JB_HISTORY_SIZE Hp ltac:(done)) as Hr.
    set (loc := Z.to_nat (Z.rem hp JB_HISTORY_SIZE)).
    destruct (nth_lookup_or_length h loc d) as [Hout|]; [|unfold loc, JB_HISTORY_SIZE in *; lia].
    set (out := nth loc h d) in *.
    assert (h = take loc h ++ out :: drop (S loc) h) as Eh by (rewrite <- (drop_S _ _ _ Hout), take_drop; done).
    assert (key out ∈ a) as Hin.
    { rewrite Hperm. apply list_elem_of_fmap. exists out. split; [done|]. by eapply list_elem_of_lookup_2. }
    destruct (delete_value_ok a (key out) Hl Hs Hin) as (Hl1 & Hs1 & Hp1).
    set (a1 := delete_value a (JB_HISTORY_SIZE - 1) (key out)) in *.
    destruct (add_value_ok a1 (JB_HISTORY_SIZE - 1) (key in_) Hl1 ltac:(done)) as (Hl2 & Hs2 & Hp2).
    { by replace (Z.to_nat (JB_HISTORY_SIZE - 1)) with (SIZE - 1)%nat by done. }
    rewrite !(take_ge (add_value _ _ _)) in * by (unfold JB_HISTORY_SIZE in *; lia).
    split_and!; [done|done|]. rewrite Hp2. replace (Z.to_nat (JB_HISTORY_SIZE - 1)) with (SIZE - 1)%nat by done.
    rewrite (take_ge (<[loc := in_]> h)) by (rewrite length_insert; unfold JB_HISTORY_SIZE in *; lia).
    rewrite insert_take_drop by (unfold loc, JB_HISTORY_SIZE in *; lia).
    rewrite fmap_app, fmap_cons, <- Permutation_middle. f_equiv.
    apply (Permutation_cons_inv (a := key out)). rewrite Hp1, Hperm. rewrite Eh at 1.
    by rewrite fmap_app, fmap_cons, <- Permutation_middle.
Qed.

Section invariant.
Context {D : Type}.
Implicit Types jb : speakup_jitterbuffer D.

(** The histories, and the queues ordered by their timestamps. *)
Record speakup_ok (jb : speakup_jitterbuffer D) : Prop := {
  sk_hist : len_of (hist jb) = JB_HISTORY_SIZE;
  sk_pointer : 0 <= hist_pointer jb;
  sk_delay : window he_delay (hist_sorted_delay jb) (hist jb) (Z.to_nat (Z.min (hist_pointer jb) JB_HISTORY_SIZE));
  sk_ts : window he_ts (hist_sorted_timestamp jb) (hist jb) (Z.to_nat (Z.min (hist_pointer jb) JB_HISTORY_SIZE));
  sk_voice : sorted (vf_ts <$> voiceframes jb);
  sk_control : sorted (vf_ts <$> controlframes jb);
}.

Lemma put_history_ok jb ts now ms codec : speakup_ok jb -> speakup_ok (put_history jb ts now ms codec).
Proof.
  intros [H1 H2 H3 H4 H5 H6]. split; cbn; try done.
  - by rewrite length_insert.
  - lia.
  - by apply (window_put he_delay _ _ _ (mk_hist (now - ts) ts ms codec)).
  - by apply (window_put he_ts _ _ _ (mk_hist (now - ts) ts ms codec)).
Qed.

(** What the histories and the queues are made of did not change. *)
Definition same_data (jb jb' : speakup_jitterbuffer D) : Prop :=
  hist jb' = hist jb /\ hist_sorted_delay jb' = hist_sorted_delay jb /\
  hist_sorted_timestamp jb' = hist_sorted_timestamp jb /\ hist_pointer jb' = hist_pointer jb /\
  voiceframes jb' = voiceframes jb /\ controlframes jb' = controlframes jb.

Lemma same_data_ok jb jb' : same_data jb jb' -> speakup_ok jb -> speakup_ok jb'.
Proof. intros (E1 & E2 & E3 & E4 & E5 & E6) [? ? ? ? ? ?]. split; congruence. Qed.

Lemma calculate_info_same jb ts now codec : same_data jb (calculate_info jb ts now codec).
Proof. by repeat split. Qed.

Lemma insert_frame_spec ts (f : voice_frame D) l :
  exists l1 l2, l = l1 ++ l2 /\ insert_frame ts f l = l1 ++ f :: l2 /\
    Forall (fun p => vf_ts p <= ts) l1 /\ match l2 with [] => True | p :: _ => ts < vf_ts p end.
Proof.
  induction l as [|p l (l1 & l2 & -> & E & H1 & H2)]; cbn [insert_frame].
  { by exists [], []. }
  destruct (Z.ltb_spec ts (vf_ts p)).
  - by exists [], (p :: l1 ++ l2).
  - exists (p :: l1), l2. rewrite E. split_and!; [done|done|by constructor|done].
Qed.

Lemma voice_walk_spec ts (before after : list (voice_frame D)) :
  let '(b, a) := voice_walk ts before after in
  reverse before ++ after = reverse b ++ a /\
  match b with [] => True | p :: _ => vf_ts p <= ts end /\
  (Forall (fun p => ts < vf_ts p) after -> Forall (fun p => ts < vf_ts p) a).
Proof.
  revert after. induction before as [|p before IH]; intros after; cbn [voice_walk]; [done|].
  destruct (Z.ltb_spec ts (vf_ts p)); [|done]. specialize (IH (p :: after)).
  destruct (voice_walk _ _ _) as [b a]. destruct IH as (E & Hb & Ha). split_and!; [|done|].
  - rewrite <- E. by rewrite reverse_cons, <- app_assoc.
  - intros Hf. apply Ha. by constructor.
Qed.

(** A frame put at its place. *)
Definition put_at (f : voice_frame D) (l l' : list (voice_frame D)) : Prop :=
  exists l1 l2, l = l1 ++ l2 /\ l' = l1 ++ f :: l2 /\
    (forall p, p ∈ l1 -> vf_ts p <= vf_ts f) /\ (forall p, p ∈ l2 -> vf_ts f < vf_ts p).

Lemma put_at_sorted f l l' : sorted (vf_ts <$> l) -> put_at f l l' -> sorted (vf_ts <$> l').
Proof.
  intros Hs (l1 & l2 & -> & -> & H1 & H2). rewrite fmap_app in *. rewrite fmap_cons.
  apply StronglySorted_app_iff in Hs as (Hs1 & Hs2 & H12). apply StronglySorted_app_iff. split_and!; [done| |].
  - constructor; [done|]. apply Forall_forall. intros x (p & -> & Hp)%list_elem_of_fmap. specialize (H2 p Hp). lia.
  - intros x y Hx Hy. apply elem_of_cons in Hy as [->|Hy]; [|by apply H12].
    apply list_elem_of_fmap in Hx as (p & -> & Hp). by apply H1.
Qed.

Lemma insert_frame_at f l : sorted (vf_ts <$> l) -> put_at f l (insert_frame (vf_ts f) f l).
Proof.
  intros Hs. destruct (insert_frame_spec (vf_ts f) f l) as (l1 & l2 & -> & -> & H1 & H2).
  exists l1, l2. split_and!; [done|done| |].
  - intros p Hp. by eapply Forall_forall in H1.
  - rewrite fmap_app in Hs. apply StronglySorted_app_iff in Hs as (_ & Hs & _). destruct l2 as [|q l2]; [by intros p ?%not_elem_of_nil|].
    intros p [->|Hp]%elem_of_cons; [done|]. rewrite fmap_cons in Hs. apply StronglySorted_inv in Hs as [_ Hq].
    eapply Forall_forall in Hq; [|apply list_elem_of_fmap; by eexists]. lia.
Qed.

(** What putting a frame in the queue does. *)
Definition queued_into (f : voice_frame D) (jb jb' : speakup_jitterbuffer D) : Prop :=
  put_at f (voiceframes jb) (voiceframes jb') /\ same_data jb (jb' <| voiceframes := voiceframes jb |>).

Lemma put_voice_at jb f : sorted (vf_ts <$> voiceframes jb) -> queued_into f jb (put_voice true jb f).
Proof.
  intros Hs. unfold put_voice. cbn [negb]. unfold queued_into. destruct (voiceframes jb) as [|p l] eqn:El.
  { split; [|by repeat split]. exists [], []. split_and!; [done|done|by intros ? ?%not_elem_of_nil..]. }
  set (jb1 := if _ : bool then _ else jb). assert (same_data jb jb1) as Hsame by (unfold jb1; case_if; by repeat split).
  destruct Hsame as (E1 & E2 & E3 & E4 & E5 & E6). destruct (Z.ltb_spec (vf_ts f) (vf_ts p)) as [Hlt|Hge].
  - split; [|by repeat split]. exists [], (p :: l). split_and!; [done|done|by intros ? ?%not_elem_of_nil|].
    intros q [->|Hq]%elem_of_cons; [done|]. rewrite fmap_cons in Hs. apply StronglySorted_inv in Hs as [_ Hp].
    eapply Forall_forall in Hp; [|apply list_elem_of_fmap; by eexists]. lia.
  - pose proof (voice_walk_spec (vf_ts f) (reverse (p :: l)) []) as Hw.
    destruct (voice_walk _ _ _) as [b a]. destruct Hw as (E & Hb & Ha). rewrite reverse_involutive, app_nil_r in E.
    split; [|by repeat split]. exists (reverse b), a. split_and!; [done|done| |].
    + rewrite E, fmap_app in Hs. apply StronglySorted_app_iff in Hs as (Hs & _ & _).
      destruct b as [|q b]; [by intros ? ?%not_elem_of_nil|]. rewrite reverse_cons, fmap_app in Hs.
      apply StronglySorted_app_iff in Hs as (_ & _ & Hq). intros x Hx. rewrite reverse_cons in Hx.
      apply elem_of_app in Hx as [Hx| ->%list_elem_of_singleton]; [|done].
      specialize (Hq (vf_ts x) (vf_ts q)). etrans; [apply Hq|done]; [apply list_elem_of_fmap; by eexists|by left].
    + specialize (Ha ltac:(constructor)). by apply Forall_forall.
Qed.

Lemma queued_ok f jb jb' : queued_into f jb jb' -> speakup_ok jb -> speakup_ok jb'.
Proof.
  intros [Hp (E1 & E2 & E3 & E4 & _ & E6)] [? ? ? ? Hv ?]. cbn in *.
  split; try congruence. by apply (put_at_sorted f (voiceframes jb)).
Qed.

Lemma put_ok beyond malloc_ok jb d type ms ts now codec :
  speakup_ok jb -> speakup_ok (jb_speakup_put beyond malloc_ok jb d type ms ts now codec).2.
Proof.
  intros Hok. unfold jb_speakup_put. set (jb1 := stat _ jb).
  assert (speakup_ok jb1) as Hok1 by (eapply same_data_ok; [|exact Hok]; by repeat split).
  assert (forall f jb, speakup_ok jb -> speakup_ok (put_voice malloc_ok jb f)) as Hpv.
  { intros f jb2 Hok2. destruct malloc_ok; [|done]. eapply queued_ok; [|done]. apply put_voice_at, Hok2. }
  destruct (type =? JB_TYPE_CONTROL); [|destruct (type =? JB_TYPE_VOICE); [|destruct (type =? JB_TYPE_SILENCE)]]; cbn [snd].
  - unfold put_control. destruct malloc_ok; [|done]. destruct Hok1. split; try done. cbn.
    eapply put_at_sorted; [done|]. by apply (insert_frame_at (mk_voice d ts ms type codec)).
  - destruct (_ =? ts); cbn [snd]; [by eapply same_data_ok; [|exact Hok1]; repeat split|].
    apply Hpv. eapply same_data_ok; [apply calculate_info_same|]. by apply put_history_ok.
  - by apply Hpv.
  - done.
Qed.

(** ** Playing out *)

(** The timestamp below which a voice frame is late; it binds unless the buffer is
    in a silence that has no beginning. *)
Definition floor (jb : speakup_jitterbuffer D) : Z :=
  if in_silence jb then silence_begin_ts jb else next_voice_time jb.

Definition anchored (jb : speakup_jitterbuffer D) : Prop := in_silence jb = false \/ silence_begin_ts jb <> 0.

(** What [get_voice] may do: frames leave from the front of the queue, the last of
    them is handed out when one is, and the others are freed. *)
Record voice_got (now : Z) (jb : speakup_jitterbuffer D) (res : Z) (o : option D) (freed : list D)
    (jb' : speakup_jitterbuffer D) (popped : list (voice_frame D)) : Prop := {
  vg_queue : voiceframes jb = popped ++ voiceframes jb';
  vg_data : vf_data <$> popped = freed ++ option_list o;
  vg_hist : hist jb' = hist jb /\ hist_sorted_delay jb' = hist_sorted_delay jb /\
    hist_sorted_timestamp jb' = hist_sorted_timestamp jb /\
    (hist_pointer jb' = hist_pointer jb \/ hist_pointer jb' = 0);
  vg_control : controlframes jb' = controlframes jb;
  vg_settings : settings jb' = settings jb;
  vg_result : match o with
    | Some _ => res = JB_OK /\ exists f, last popped = Some f /\ vf_ts f <= now - sp_current jb' /\
        (vf_type f <> JB_TYPE_SILENCE ->
           (anchored jb -> floor jb <= vf_ts f) /\ in_silence jb' = false /\ next_voice_time jb' = vf_ts f + vf_ms f)
    | None => res <> JB_OK /\ (anchored jb -> anchored jb' -> floor jb <= floor jb')
    end;
}.

(** The states [get_voice] is called again with. *)
Definition again (jb jb1 : speakup_jitterbuffer D) (popped : list (voice_frame D)) : Prop :=
  voiceframes jb = popped ++ voiceframes jb1 /\ hist jb1 = hist jb /\
  hist_sorted_delay jb1 = hist_sorted_delay jb /\ hist_sorted_timestamp jb1 = hist_sorted_timestamp jb /\
  hist_pointer jb1 = hist_pointer jb /\ controlframes jb1 = controlframes jb /\ settings jb1 = settings jb /\
  floor jb1 = floor jb /\ (anchored jb -> anchored jb1).

Lemma got_again now jb jb1 p res o freed jb' popped :
  again jb jb1 p -> voice_got now jb1 res o freed jb' popped ->
  voice_got now jb res o ((vf_data <$> p) ++ freed) jb' (p ++ popped).
Proof.
  intros (Eq & E1 & E2 & E3 & E4 & E5 & E6 & Ef & Hg) [H1 H2 (H3 & H4 & H5 & H6) H7 H8 H9].
  split; try congruence.
  - by rewrite Eq, H1, app_assoc.
  - by rewrite fmap_app, H2, app_assoc.
  - split_and!; [congruence..|]. destruct H6; [left|right]; congruence.
  - destruct o as [d|].
    + destruct H9 as (? & f & Hl & Ht & Hv). split; [done|]. exists f. split_and!; [|done|].
      * rewrite last_app, Hl. done.
      * intros Hty. destruct (Hv Hty) as (Hfl & ? & ?). split_and!; [|done|done]. intros Hgd. rewrite <- Ef. auto.
    + destruct H9 as [? Hfl]. split; [done|]. intros ? ?. rewrite <- Ef. auto.
Qed.

Lemma also_freed_ret (x : D) r res o freed jb' :
  also_freed x r = Ret (res, o, freed, jb') -> exists freed', r = Ret (res, o, freed', jb') /\ freed = x :: freed'.
Proof. destruct r as [[[[? ?] ?] ?]| |]; try done. intros [= <- <- <- <-]. by eexists. Qed.

Lemma get_frame_some jb ts f jb' :
  get_frame jb ts = Some (f, jb') ->
  voiceframes jb = f :: voiceframes jb' /\ vf_ts f <= ts /\ jb' = jb <| voiceframes := voiceframes jb' |>.
Proof.
  unfold get_frame. destruct (voiceframes jb) as [|g l]; [done|]. destruct (Z.leb_spec (vf_ts g) ts); [|done].
  intros [= -> <-]. done.
Qed.

(** A frame that is freed before the buffer is asked again. *)
Lemma freed_again jb ts f jb1 jb2 :
  get_frame jb ts = Some (f, jb1) -> same_data jb1 jb2 -> settings jb2 = settings jb ->
  floor jb2 = floor jb -> (anchored jb -> anchored jb2) -> again jb jb2 [f].
Proof.
  intros (Eq & _ & E)%get_frame_some (E1 & E2 & E3 & E4 & E5 & E6) Es Ef Hg. rewrite E in E1, E2, E3, E4, E6.
  cbn in E1, E2, E3, E4, E6. repeat split; try done; try congruence. cbn. congruence.
Qed.

Lemma got_nothing now jb res jb' :
  same_data jb jb' -> settings jb' = settings jb -> res <> JB_OK ->
  (anchored jb -> anchored jb' -> floor jb <= floor jb') -> voice_got now jb res None [] jb' [].
Proof.
  intros (E1 & E2 & E3 & E4 & E5 & E6) Es Hr Hf. split; try done. split_and!; auto.
Qed.

Lemma got_one now jb ts f jb1 jb' :
  get_frame jb ts = Some (f, jb1) -> same_data jb1 jb' -> settings jb' = settings jb ->
  ts = now - sp_current jb' ->
  (vf_type f <> JB_TYPE_SILENCE ->
     (anchored jb -> floor jb <= vf_ts f) /\ in_silence jb' = false /\ next_voice_time jb' = vf_ts f + vf_ms f) ->
  voice_got now jb JB_OK (Some (vf_data f)) [] jb' [f].
Proof.
  intros (Eq & Hts & E)%get_frame_some (E1 & E2 & E3 & E4 & E5 & E6) Es Et Hv. rewrite E in E1, E2, E3, E4, E6.
  cbn in E1, E2, E3, E4, E6. split; try done.
  - cbn. congruence.
  - split_and!; auto.
  - split; [done|]. exists f. split_and!; [done|lia|done].
Qed.

(** The result of a further call counts as the result of this one. *)
Lemma through_again now interpl fuel jb jb1 res o freed jb' p :
  (forall jb res o freed jb', get_voice fuel jb now interpl = Ret (res, o, freed, jb') ->
     exists popped, voice_got now jb res o freed jb' popped) ->
  again jb jb1 p -> get_voice fuel jb1 now interpl = Ret (res, o, freed, jb') ->
  exists popped, voice_got now jb res o ((vf_data <$> p) ++ freed) jb' popped.
Proof. intros IH Ha Hg. destruct (IH _ _ _ _ _ Hg) as [popped Hp]. eexists. by eapply got_again. Qed.

Section got.
Context (fuel : nat) (now interpl : Z) (Hi : 0 <= interpl).
Context (IH : forall jb res o freed jb', get_voice fuel jb now interpl = Ret (res, o, freed, jb') ->
  exists popped, voice_got now jb res o freed jb' popped).

Lemma silence_got jb res o freed jb' :
  in_silence jb = true ->
  match get_frame jb (now - sp_current jb) with
  | Some (f, jb) =>
    if negb (silence_begin_ts jb =? 0) && (vf_ts f <? silence_begin_ts jb) then
      also_freed (vf_data f)
        (get_voice fuel (stat (fun i => i <| i_frames_late := i_frames_late i + 1 |>) jb) now interpl)
    else
      Ret (JB_OK, Some (vf_data f), [],
           stat (fun i => i <| i_silence := 0 |> <| i_last_voice_ms := vf_ms f |>)
             (jb <| silence_begin_ts := 0 |> <| next_voice_time := vf_ts f + vf_ms f |>))
  | None => Ret (JB_EMPTY, None, [], jb)
  end = Ret (res, o, freed, jb') -> exists popped, voice_got now jb res o freed jb' popped.
Proof.
  intros Esil. destruct (get_frame jb (now - sp_current jb)) as [[f jb1]|] eqn:Eg.
  2: { intros [= <- <- <- <-]. exists []. by apply got_nothing. }
  destruct (get_frame_some _ _ _ _ Eg) as (Eq & Hts & E).
  destruct (negb (silence_begin_ts jb1 =? 0) && (vf_ts f <? silence_begin_ts jb1)) eqn:El.
  - intros (freed' & Hr & ->)%also_freed_ret. eapply (through_again _ _ _ jb _ _ _ _ _ [f]) in Hr; [done|done|].
    eapply freed_again; [exact Eg|by repeat split|by rewrite E|by rewrite E|]. intros [?|?]; [left|right]; by rewrite E.
  - intros [= <- <- <- <-]. exists [f]. eapply got_one; [exact Eg|by repeat split|by rewrite E|by rewrite E|].
    intros _. split_and!; [|done|done]. intros Hg. unfold floor. rewrite Esil. destruct Hg as [?|Hg]; [congruence|].
    rewrite E in El. cbn in El. rewrite (proj2 (Z.eqb_neq _ _) Hg) in El. cbn in El. lia.
Qed.

Lemma interpolate_same jb : same_data jb (interpolate jb interpl) /\ settings (interpolate jb interpl) = settings jb /\
  (in_silence jb = false -> floor jb <= floor (interpolate jb interpl)).
Proof.
  unfold interpolate. cbv zeta. set (c := _ && _). destruct c.
  - split; [by repeat split|]. split; [done|]. intros Es. unfold floor. rewrite Es. cbn. lia.
  - split; [by repeat split|]. split; [done|]. intros Es. unfold floor. rewrite Es.
    match goal with |- context [in_silence ?t] => change (in_silence t) with (in_silence jb) end. rewrite Es. cbn. lia.
Qed.

(** Changes that leave the place in the stream alone. *)
Lemma moved_again jb c a : in_silence jb = false -> again jb (jb <| sp_current := c |> <| last_adjustment := a |>) [].
Proof. intros Es. repeat split. intros _. by left. Qed.

Lemma voicecase_got jb diff res o freed jb' :
  in_silence jb = false ->
  get_voicecase (fun jb => get_voice fuel jb now interpl) jb now interpl diff = Ret (res, o, freed, jb') ->
  exists popped, voice_got now jb res o freed jb' popped.
Proof.
  intros Es. unfold get_voicecase. destruct (_ || _).
  { intros [= <- <- <- <-]. exists []. split; try done; [by split_and!; auto|].
    split; [done|]. intros _ [?|?]; done. }
  destruct ((0 <? diff) && _).
  { intros Hr. eapply (through_again _ _ _ jb _ _ _ _ _ []) in Hr; [done|done|]. by apply moved_again. }
  destruct ((diff <? 0) && _ && _).
  { destruct (get_frame _ _) as [[f jb1]|] eqn:Eg.
    - destruct (get_frame_some _ _ _ _ Eg) as (Eq & _ & E).
      intros (freed' & Hr & ->)%also_freed_ret. eapply (through_again _ _ _ jb _ _ _ _ _ [f]) in Hr; [done|done|].
      assert (get_frame jb (now - sp_current jb) = Some (f, jb <| voiceframes := voiceframes jb1 |>)) as Eg'.
      { revert Eg. unfold get_frame. cbn. destruct (voiceframes jb) as [|g l]; [done|].
        case_if; [|done]. by intros [= -> <-]. }
      eapply freed_again; [exact Eg'|rewrite E; by repeat split|by rewrite E|by rewrite E|].
      intros _. left. by rewrite E.
    - intros Hr. eapply (through_again _ _ _ jb _ _ _ _ _ []) in Hr; [done|done|].
      repeat split. intros _. by left. }
  destruct (Z.ltb_spec (now - sp_current jb) (next_voice_time jb)).
  { intros [= <- <- <- <-]. exists []. by apply got_nothing. }
  destruct (get_frame _ _) as [[f jb1]|] eqn:Eg.
  2: { intros [= <- <- <- <-]. exists []. destruct (interpolate_same jb) as (H1 & H2 & H3). apply got_nothing; auto. }
  destruct (get_frame_some _ _ _ _ Eg) as (Eq & _ & E).
  destruct (Z.ltb_spec (vf_ts f) (next_voice_time jb1)) as [Hlt|Hge].
  - intros (freed' & Hr & ->)%also_freed_ret. eapply (through_again _ _ _ jb _ _ _ _ _ [f]) in Hr; [done|done|].
    eapply freed_again; [exact Eg|by repeat split|by rewrite E|by rewrite E|]. intros _. left. by rewrite E.
  - intros [= <- <- <- <-]. exists [f]. eapply got_one; [exact Eg|by repeat split|by rewrite E|by rewrite E|].
    intros _. split_and!; [|by rewrite E|done]. intros _. unfold floor. rewrite Es. rewrite E in Hge. exact Hge.
Qed.

End got.

Lemma get_voice_got fuel : forall jb now interpl res o freed jb', 0 <= interpl ->
  get_voice fuel jb now interpl = Ret (res, o, freed, jb') -> exists popped, voice_got now jb res o freed jb' popped.
Proof.
  induction fuel as [|fuel IH]; [done|]. intros jb now interpl res o freed jb' Hi. cbn [get_voice].
  assert (forall jb res o freed jb', get_voice fuel jb now interpl = Ret (res, o, freed, jb') ->
     exists popped, voice_got now jb res o freed jb' popped) as IH' by (intros; by eapply IH). clear IH.
  destruct (Z.eqb_spec (get_next_frametype jb (now - sp_current jb)) JB_TYPE_SILENCE) as [Ety|_].
  { destruct (get_frame jb (now - sp_current jb)) as [[f jb1]|] eqn:Eg; [|done]. intros [= <- <- <- <-].
    exists [f]. destruct (get_frame_some _ _ _ _ Eg) as (Eq & Hts & E). eapply got_one; [exact Eg|by repeat split|by rewrite E|by rewrite E|].
    intros Hnt. exfalso. apply Hnt. unfold get_next_frametype in Ety. rewrite Eq in Ety.
    rewrite (proj2 (Z.leb_le _ _)) in Ety by done. done. }
  destruct (in_silence jb) eqn:Esil; [|by apply voicecase_got].
  destruct (_ =? 0); [by apply silence_got|]. intros Hr.
  apply (silence_got fuel now interpl IH' (jb <| sp_current := sp_target jb |>)) in Hr as [popped Hp]; [|done].
  exists popped. eapply (got_again now jb _ [] _ _ _ _ _) in Hp; [exact Hp|]. by repeat split.
Qed.

(** ** Playing out ends *)

Definition can_shrink (now : Z) (jb : speakup_jitterbuffer D) : nat :=
  if last_adjustment jb + wait_shrink (settings jb) <? now then 1 else 0.

(** What is left to grow, when it is not too much. *)
Definition to_grow (jb : speakup_jitterbuffer D) : nat :=
  let diff := sp_target jb - sp_current jb in
  if diff <=? max_diff (settings jb) then Z.to_nat diff else 0.

Definition step_bound (jb : speakup_jitterbuffer D) : nat := (Z.to_nat (max_diff (settings jb)) + 2)%nat.

Definition get_measure (now : Z) (jb : speakup_jitterbuffer D) : nat :=
  ((length (voiceframes jb) + can_shrink now jb) * step_bound jb + to_grow jb)%nat.

Lemma to_grow_bound jb : (to_grow jb + 2 <= step_bound jb)%nat.
Proof. unfold to_grow, step_bound. destruct (Z.leb_spec (sp_target jb - sp_current jb) (max_diff (settings jb))); lia. Qed.

(** Fewer frames, or a chance to shrink less, pays for growing anew. *)
Lemma measure_drops now jb jb1 :
  (length (voiceframes jb1) + can_shrink now jb1 < length (voiceframes jb) + can_shrink now jb)%nat ->
  settings jb1 = settings jb -> (get_measure now jb1 < get_measure now jb)%nat.
Proof.
  intros Hlt Es. unfold get_measure. pose proof (to_grow_bound jb1) as Hb.
  assert (step_bound jb1 = step_bound jb) as Eb by (unfold step_bound; by rewrite Es). rewrite Eb in *.
  assert ((length (voiceframes jb1) + can_shrink now jb1 + 1) * step_bound jb
          <= (length (voiceframes jb) + can_shrink now jb) * step_bound jb)%nat by (apply Nat.mul_le_mono_r; lia).
  lia.
Qed.

Lemma measure_grows now interpl jb :
  1 <= interpl -> 0 <= wait_shrink (settings jb) ->
  let diff := sp_target jb - sp_current jb in
  0 < diff -> diff <= max_diff (settings jb) ->
  (get_measure now (grow jb now interpl diff) < get_measure now jb)%nat.
Proof.
  intros Hi Hw diff Hd Hm. unfold get_measure.
  assert (can_shrink now (grow jb now interpl diff) = 0%nat) as ->.
  { unfold can_shrink, grow. cbn. by rewrite (proj2 (Z.ltb_ge _ _)) by lia. }
  change (step_bound (grow jb now interpl diff)) with (step_bound jb).
  change (voiceframes (grow jb now interpl diff)) with (voiceframes jb).
  assert (to_grow (grow jb now interpl diff) < to_grow jb)%nat as Hg.
  { unfold to_grow at 2. fold diff. rewrite (proj2 (Z.leb_le diff _)) by done. unfold to_grow, grow. cbn.
    assert (Z.quot interpl 2 <= interpl) by (apply Z.quot_le_upper_bound; lia).
    destruct (Z.ltb_spec diff (Z.quot interpl 2)); destruct (_ <=? _); unfold diff in *; lia. }
  nia.
Qed.

Lemma get_frame_shorter now jb ts f jb1 jb2 :
  get_frame jb ts = Some (f, jb1) -> voiceframes jb2 = voiceframes jb1 -> settings jb2 = settings jb ->
  last_adjustment jb2 = last_adjustment jb \/ last_adjustment jb2 = now /\ 0 <= wait_shrink (settings jb) ->
  (get_measure now jb2 < get_measure now jb)%nat.
Proof.
  intros (Eq & _ & E)%get_frame_some Ev Es Ea. apply measure_drops; [|done]. rewrite Ev, Eq. cbn [length].
  assert (can_shrink now jb2 <= can_shrink now jb)%nat; [|lia].
  unfold can_shrink. rewrite Es. destruct Ea as [->|[-> Hw]]; [done|].
  rewrite (proj2 (Z.ltb_ge (now + _) _)) by lia. lia.
Qed.

Lemma also_freed_some (x : D) r : (exists g, r = Ret g) -> exists g, also_freed x r = Ret g.
Proof. intros [[[[? ?] ?] ?] ->]. by eexists. Qed.

Lemma get_voice_returns fuel : forall jb now interpl,
  1 <= interpl -> 0 <= wait_shrink (settings jb) -> (get_measure now jb < fuel)%nat ->
  exists g, get_voice fuel jb now interpl = Ret g.
Proof.
  induction fuel as [|fuel IH]; intros jb now interpl Hi Hw Hf; [lia|]. cbn [get_voice].
  assert (forall jb1, (get_measure now jb1 < get_measure now jb)%nat -> settings jb1 = settings jb ->
            exists g, get_voice fuel jb1 now interpl = Ret g) as IH'.
  { intros jb1 Hm Es. apply IH; [done|by rewrite Es|lia]. }
  clear IH. destruct (Z.eqb_spec (get_next_frametype jb (now - sp_current jb)) JB_TYPE_SILENCE) as [Ety|_].
  { revert Ety. unfold get_next_frametype, get_frame, JB_TYPE_SILENCE. destruct (voiceframes jb) as [|f l]; [done|].
    destruct (_ <=? _); [by eexists|done]. }
  destruct (in_silence jb).
  { set (jb0 := if _ =? 0 then jb else _).
    assert (voiceframes jb0 = voiceframes jb /\ settings jb0 = settings jb /\ last_adjustment jb0 = last_adjustment jb)
      as (Ev & Es & Ea) by (unfold jb0; by case_if).
    destruct (get_frame jb0 _) as [[f jb1]|] eqn:Eg; [|by eexists].
    destruct (get_frame_some _ _ _ _ Eg) as (Eq & _ & E). case_if; [|by eexists].
    apply also_freed_some, IH'; [|rewrite E; done]. apply measure_drops; [|by rewrite E].
    rewrite <- Ev, Eq. unfold can_shrink. rewrite E. cbn. rewrite Es, Ea. lia. }
  unfold get_voicecase. set (diff := sp_target jb - sp_current jb). destruct (_ || _) eqn:Hwk; [by eexists|].
  apply orb_false_iff in Hwk as [Hwk%Z.ltb_ge _].
  destruct ((0 <? diff) && _) eqn:Eg.
  { apply andb_prop in Eg as [Eg%Z.ltb_lt _]. apply IH'; [|done]. by apply measure_grows. }
  destruct ((diff <? 0) && (_ <? now) && _) eqn:Esh.
  { apply andb_prop in Esh as [[_ Esh]%andb_prop _].
    destruct (get_frame _ _) as [[f jb1]|] eqn:Egf.
    - destruct (get_frame_some _ _ _ _ Egf) as (Eq & _ & E). apply also_freed_some, IH'; [|by rewrite E].
      apply measure_drops; [|by rewrite E]. cbn in Eq. rewrite Eq. unfold can_shrink. rewrite E, Esh. cbn.
      rewrite (proj2 (Z.ltb_ge (now + _) _)) by lia. lia.
    - apply IH'; [|done]. apply measure_drops; [|done]. unfold can_shrink. rewrite Esh. cbn.
      rewrite (proj2 (Z.ltb_ge (now + _) _)) by lia. lia. }
  case_if; [by eexists|]. destruct (get_frame _ _) as [[f jb1]|] eqn:Egf; [|by eexists].
  case_if; [|by eexists]. destruct (get_frame_some _ _ _ _ Egf) as (Eq & _ & Ej).
  apply also_freed_some, IH'; [|by rewrite Ej]. eapply get_frame_shorter; [exact Egf|done|by rewrite Ej|left; by rewrite Ej].
Qed.

Lemma fuel_enough now jb : (get_measure now jb < get_fuel jb)%nat.
Proof.
  unfold get_measure, get_fuel. fold (step_bound jb). pose proof (to_grow_bound jb).
  assert (can_shrink now jb <= 1)%nat by (unfold can_shrink; case_if; lia).
  assert ((length (voiceframes jb) + can_shrink now jb) * step_bound jb <= (length (voiceframes jb) + 1) * step_bound jb)%nat
    by (apply Nat.mul_le_mono_r; lia). lia.
Qed.

(** Getting a frame ends: the buffer grows, shrinks and drops late frames a bounded
    number of times only. *)
Theorem speakup_get_ends jb now interpl :
  1 <= interpl -> 0 <= wait_shrink (settings jb) ->
  exists g, jb_speakup_get (get_fuel jb) jb now interpl = Ret g.
Proof.
  intros Hi Hw. unfold jb_speakup_get. destruct (get_control jb) as [[? ?]|]; [by eexists|].
  apply get_voice_returns; [done|done|apply fuel_enough].
Qed.

(** ** Reachable states *)

Inductive speakup_step : speakup_jitterbuffer D -> speakup_jitterbuffer D -> Prop :=
  | ss_put beyond malloc_ok jb d type ms ts now codec :
      speakup_step jb (jb_speakup_put beyond malloc_ok jb d type ms ts now codec).2
  | ss_get fuel jb now interpl res o freed jb' :
      0 <= interpl -> jb_speakup_get fuel jb now interpl = Ret (res, o, freed, jb') -> speakup_step jb jb'
  | ss_get_all jb : speakup_step jb (jb_speakup_get_all jb).2
  | ss_reset jb : speakup_step jb (jb_speakup_reset jb).2
  | ss_settings jb s : speakup_step jb (jb_speakup_set_settings jb s)
  | ss_info jb : speakup_step jb (jb_speakup_get_info jb).2.

Lemma window_zero key a h : len_of a = JB_HISTORY_SIZE -> window key a h 0.
Proof. intros Ha. split_and!; [done|constructor|done]. Qed.

Lemma got_ok now jb res o freed jb' popped : voice_got now jb res o freed jb' popped -> speakup_ok jb -> speakup_ok jb'.
Proof.
  intros [Eq _ (E1 & E2 & E3 & E4) E5 _ _] [H1 H2 H3 H4 H5 H6].
  rewrite Eq, fmap_app in H5. apply StronglySorted_app_iff in H5 as (_ & H5 & _).
  split; [congruence|destruct E4 as [->| ->]; lia| | |done|congruence].
  - rewrite E1, E2. destruct E4 as [->| ->]; [done|]. apply window_zero, H3.
  - rewrite E1, E3. destruct E4 as [->| ->]; [done|]. apply window_zero, H4.
Qed.

Lemma speakup_step_ok jb jb' : speakup_step jb jb' -> speakup_ok jb -> speakup_ok jb'.
Proof.
  intros [beyond malloc_ok jb0 d type ms ts now codec|fuel jb0 now interpl res o freed jb1 Hi Hg|jb0|jb0|jb0 s|jb0] Hok.
  - by apply put_ok.
  - unfold jb_speakup_get, get_control in Hg. destruct (controlframes jb0) as [|c l] eqn:Ec.
    + destruct (get_voice_got _ _ _ _ _ _ _ _ Hi Hg) as [popped Hp]. by eapply got_ok.
    + injection Hg as <- <- <- <-. destruct Hok as [? ? ? ? ? Hc]. split; try done. cbn.
      rewrite Ec, fmap_cons in Hc. by apply StronglySorted_inv in Hc as [? _].
  - unfold jb_speakup_get_all, get_all_frames. destruct (voiceframes jb0) as [|f l] eqn:Ev; [done|].
    destruct Hok as [? ? ? ? Hv ?]. split; try done. cbn. rewrite Ev, fmap_cons in Hv. by apply StronglySorted_inv in Hv as [? _].
  - destruct Hok as [? ? Hd Ht ? ?]. split; try done; cbn; [apply window_zero, Hd|apply window_zero, Ht|constructor].
  - by destruct Hok.
  - by destruct Hok.
Qed.

Lemma speakup_new_ok : speakup_ok (reset (set_default_settings zero_buffer)).
Proof. split; try done; cbn; [by apply window_zero..|constructor|constructor]. Qed.

(** In every state a new buffer can get to, the two arrays are the delays and the
    timestamps of the last 500 voice frames since the last reset in order, and the
    queues are in order of their timestamps. *)
Theorem speakup_reachable_ok jb0 jb :
  jb_speakup_new true = Some jb0 -> rtc speakup_step jb0 jb -> speakup_ok jb.
Proof.
  intros [= <-] Hr. assert (speakup_ok (reset (set_default_settings (@zero_buffer D)))) as Hok by apply speakup_new_ok.
  induction Hr as [|x y z Hs _ IH]; [done|]. apply IH. by eapply speakup_step_ok.
Qed.

(** ** A stream *)

(** Voice frames arrive and are asked for. *)
Inductive stream_op :=
  | Arrive (beyond : Z) (d : D) (ms ts now codec : Z)
  | Ask (now interpl : Z).

Definition arrive (jb : speakup_jitterbuffer D) (beyond : Z) (d : D) (ms ts now codec : Z) : speakup_jitterbuffer D :=
  (jb_speakup_put beyond true jb d JB_TYPE_VOICE ms ts now codec).2.

(** The frames played: a frame handed out stood behind those freed. *)
Fixpoint play (jb : speakup_jitterbuffer D) (ops : list stream_op)
    : outcome (list (voice_frame D) * speakup_jitterbuffer D) :=
  match ops with
  | [] => Ret ([], jb)
  | Arrive beyond d ms ts now codec :: ops => play (arrive jb beyond d ms ts now codec) ops
  | Ask now interpl :: ops =>
    match jb_speakup_get (get_fuel jb) jb now interpl with
    | Ret (_, o, freed, jb') =>
      match play jb' ops with
      | Ret (log, jb'') =>
        Ret ((match o with Some _ => option_list (voiceframes jb !! length freed) | None => [] end) ++ log, jb'')
      | r => r
      end
    | Assert_failed => Assert_failed
    | Out_of_fuel => Out_of_fuel
    end
  end.

(** The buffer is never reset because its delay is off by more than [max_diff]:
    a reset is what makes it forget where it was. *)
Fixpoint steady (jb : speakup_jitterbuffer D) (ops : list stream_op) : Prop :=
  match ops with
  | [] => True
  | Arrive beyond d ms ts now codec :: ops => steady (arrive jb beyond d ms ts now codec) ops
  | Ask now interpl :: ops =>
    match jb_speakup_get (get_fuel jb) jb now interpl with
    | Ret (_, _, _, jb') => (anchored jb -> anchored jb') /\ steady jb' ops
    | _ => True
    end
  end.

Definition asks_ok (op : stream_op) : Prop := match op with Ask _ interpl => 1 <= interpl | _ => True end.

(** From [e] on, each frame starts when the one before it is over. *)
Fixpoint in_turn (e : option Z) (log : list (voice_frame D)) : Prop :=
  match log with
  | [] => True
  | f :: log => match e with Some e => e <= vf_ts f | None => True end /\ in_turn (Some (vf_ts f + vf_ms f)) log
  end.

Definition all_voice (jb : speakup_jitterbuffer D) : Prop :=
  controlframes jb = [] /\ Forall (fun f => vf_type f = JB_TYPE_VOICE) (voiceframes jb) /\
  0 <= wait_shrink (settings jb) /\ sorted (vf_ts <$> voiceframes jb).

Lemma put_voice_shape jb f :
  exists l i, put_voice true jb f = jb <| voiceframes := l |> <| sp_info := i |> /\ i_silence i = i_silence (sp_info jb).
Proof.
  unfold put_voice. cbn [negb]. destruct (voiceframes jb) as [|p l]; [by eexists _, (sp_info jb)|].
  destruct (vf_ts f <? vf_ts (List.last l p)), (vf_ts f <? vf_ts p), (voice_walk (vf_ts f) (reverse (p :: l)) []);
    cbn; eexists _, _; by split.
Qed.

(** What the place in the stream depends on, and the queues. *)
Definition keeps_place (jb jb' : speakup_jitterbuffer D) : Prop :=
  next_voice_time jb' = next_voice_time jb /\ silence_begin_ts jb' = silence_begin_ts jb /\
  i_silence (sp_info jb') = i_silence (sp_info jb) /\ settings jb' = settings jb /\
  controlframes jb' = controlframes jb.

Lemma put_history_keeps jb ts now ms codec :
  keeps_place jb (put_history jb ts now ms codec) /\ voiceframes (put_history jb ts now ms codec) = voiceframes jb.
Proof. unfold put_history. cbv zeta. by repeat split. Qed.

Lemma calculate_info_keeps jb ts now codec :
  keeps_place jb (calculate_info jb ts now codec) /\ voiceframes (calculate_info jb ts now codec) = voiceframes jb.
Proof.
  unfold calculate_info. cbv zeta. by repeat split.
Qed.

Lemma arrive_cases jb beyond d ms ts now codec :
  sorted (vf_ts <$> voiceframes jb) ->
  let jb' := arrive jb beyond d ms ts now codec in
  keeps_place jb jb' /\
  (voiceframes jb' = voiceframes jb \/ put_at (mk_voice d ts ms JB_TYPE_VOICE codec) (voiceframes jb) (voiceframes jb')).
Proof.
  intros Hs. unfold arrive, jb_speakup_put. cbn [Z.eqb JB_TYPE_VOICE JB_TYPE_CONTROL]. set (jb1 := stat _ jb).
  assert (keeps_place jb jb1 /\ voiceframes jb1 = voiceframes jb) as [H1 E1] by (by repeat split).
  clearbody jb1. destruct (_ =? ts); cbn [snd].
  { split; [|by left]. destruct H1 as (? & ? & ? & ? & ?). by repeat split. }
  destruct (put_history_keeps jb1 ts now ms codec) as [H2 E2]. set (jb2 := put_history _ _ _ _ _) in *. clearbody jb2.
  destruct (calculate_info_keeps jb2 ts now codec) as [H3 E3]. set (jb3 := calculate_info _ _ _ _) in *. clearbody jb3.
  rewrite <- E1, <- E2, <- E3 in *. set (f := mk_voice _ _ _ _ _).
  destruct (put_voice_at jb3 f Hs) as [Hp _]. destruct (put_voice_shape jb3 f) as (l & i & E & Ei).
  rewrite E in *. split; [|by right]. destruct H1 as (? & ? & ? & ? & ?), H2 as (? & ? & ? & ? & ?), H3 as (? & ? & ? & ? & ?).
  repeat split; cbn; congruence.
Qed.

Lemma keeps_floor jb jb' : keeps_place jb jb' -> floor jb' = floor jb /\ (anchored jb -> anchored jb').
Proof.
  intros (E1 & E2 & E3 & _). unfold floor, anchored, in_silence. rewrite E1, E2, E3. done.
Qed.

Lemma arrive_voice jb beyond d ms ts now codec : all_voice jb -> all_voice (arrive jb beyond d ms ts now codec).
Proof.
  intros (Hc & Hv & Hw & Hs). destruct (arrive_cases jb beyond d ms ts now codec Hs) as [(_ & _ & _ & Es & Ec) Hq].
  split; [congruence|]. destruct Hq as [Eq|Hq].
  { rewrite Eq, Es. done. }
  split_and!; [|by rewrite Es|by eapply put_at_sorted].
  destruct Hq as (l1 & l2 & E & -> & _). rewrite E in Hv. apply Forall_app in Hv as [? ?]. apply Forall_app.
  split; [done|]. by constructor.
Qed.

Lemma got_voice now jb res o freed jb' popped :
  voice_got now jb res o freed jb' popped -> all_voice jb -> all_voice jb'.
Proof.
  intros Hg (Hc & Hv & Hw & Hs). destruct Hg as [Eq _ _ Ec Es _]. rewrite Eq in *.
  apply Forall_app in Hv as [_ Hv]. rewrite fmap_app in Hs. apply StronglySorted_app_iff in Hs as (_ & Hs & _).
  split_and!; [congruence|done|by rewrite Es|done].
Qed.

(** The frame behind those freed is the last one that left. *)
Lemma got_played now jb res d freed jb' popped :
  voice_got now jb res (Some d) freed jb' popped -> exists f, voiceframes jb !! length freed = Some f /\
    last popped = Some f /\ f ∈ popped.
Proof.
  intros [Eq Ed _ _ _ (_ & f & Hl & _)]. exists f. apply (f_equal length) in Ed. rewrite length_fmap, length_app in Ed. cbn in Ed.
  rewrite last_lookup in Hl. replace (pred (length popped)) with (length freed) in Hl by lia.
  split_and!; [|by rewrite last_lookup; replace (pred (length popped)) with (length freed) by lia|by eapply list_elem_of_lookup_2].
  rewrite Eq. by apply lookup_app_l_Some.
Qed.

Lemma play_in_turn ops : forall jb,
  all_voice jb -> Forall asks_ok ops ->
  exists log jb', play jb ops = Ret (log, jb') /\
    (steady jb ops -> forall e, match e with Some e => anchored jb /\ e <= floor jb | None => True end ->
     in_turn e log).
Proof.
  induction ops as [|op ops IH]; intros jb Hav Hok; [by exists [], jb|].
  apply Forall_cons in Hok as [Hop Hok]. destruct op as [beyond d ms ts now codec|now interpl]; cbn [play steady] in *.
  { destruct (arrive_cases jb beyond d ms ts now codec) as [[Ef Hgd]%keeps_floor _]; [apply Hav|].
    destruct (IH _ (arrive_voice _ beyond d ms ts now codec Hav) Hok) as (log & jb' & -> & Ht).
    eexists _, _. split; [done|]. intros Hst e He. apply (Ht Hst e).
    destruct e as [e|]; [|done]. destruct He as [Hg He]. rewrite Ef. auto. }
  cbn in Hop. destruct (Hav) as (Hc & Hv & Hw & _).
  assert (Hg : exists g, jb_speakup_get (get_fuel jb) jb now interpl = Ret g).
  { unfold jb_speakup_get, get_control. rewrite Hc. apply get_voice_returns; [done|done|apply fuel_enough]. }
  destruct Hg as [[[[res o] freed] jb'] Hg]. rewrite Hg. assert (Eg := Hg).
  unfold jb_speakup_get, get_control in Eg. rewrite Hc in Eg.
  destruct (get_voice_got (get_fuel jb) jb now interpl res o freed jb' ltac:(lia) Eg) as [popped Hp].
  destruct (IH jb' (got_voice _ _ _ _ _ _ _ Hp Hav) Hok) as (log & jb'' & -> & Hlog).
  eexists _, _. split; [done|]. intros [Hgd Hst] e He. destruct o as [d|].
  - destruct (got_played _ _ _ _ _ _ _ Hp) as (f & Hf & Hl & Hin). destruct (vg_result _ _ _ _ _ _ _ Hp) as (_ & f' & Hl' & _ & Hn).
    assert (f' = f) as -> by congruence. destruct Hn as (Hfl & Es & En).
    { assert (f ∈ voiceframes jb) as Hfv by by eapply list_elem_of_lookup_2.
      eapply Forall_forall in Hv; [|exact Hfv]. by rewrite Hv. }
    rewrite Hf. cbn. split.
    + destruct e as [e|]; [|done]. destruct He as [Hga He]. specialize (Hfl Hga). lia.
    + apply (Hlog Hst). split; [by left|]. unfold floor. rewrite Es, En. lia.
  - destruct (vg_result _ _ _ _ _ _ _ Hp) as (_ & Hfl). apply (Hlog Hst).
    destruct e as [e|]; [|done]. destruct He as [Hga He]. specialize (Hgd Hga). specialize (Hfl Hga Hgd). split; [done|lia].
Qed.

(** C33: a new buffer, with whatever settings (those of the generic layer among them),
    to which voice frames come in any order and however late: every request for a frame
    returns, and the frames are played in turn, none before the one before it is over, as
    long as the buffer does not forget its place, which it does when its delay is off by
    more than [max_diff] and it starts afresh.  The time to wait before shrinking is
    not negative and what is asked for is at least a millisecond. *)
Theorem speakup_plays_in_turn jb0 s ops :
  jb_speakup_new true = Some jb0 -> 0 <= wait_shrink s -> Forall asks_ok ops ->
  let jb1 := jb_speakup_set_settings jb0 s in
  exists log jb, play jb1 ops = Ret (log, jb) /\ (steady jb1 ops -> in_turn None log).
Proof.
  intros [= <-] Hw Hok. destruct (play_in_turn ops (jb_speakup_set_settings (reset (set_default_settings zero_buffer)) s))
    as (log & jb & Hp & Ht); [|done|].
  - split_and!; [done|constructor| |constructor]. cbn -[default_settings]. case_if; [done|lia].
  - exists log, jb. split; [done|]. intros Hst. by apply (Ht Hst None).
Qed.

End invariant.

(** ** The target *)

(** Single precision is enough to count the tail of the history. *)
Lemma tail_size_exact iqr size : 0 <= size <= JB_HISTORY_SIZE -> tail_size iqr size = tail_percent iqr * size / 100.
Proof.
  intros Hs. unfold tail_size.
  assert (forallb (fun p => forallb (fun size =>
            int_of_float (float_div (float_mul (float_of_int p) (float_of_int size)) (float_of_int 100)) =? p * size / 100)
            (seqZ 0 501)) [5; 11; 20; 25] = true) as Hall by (vm_compute; reflexivity).
  rewrite forallb_forall in Hall. assert (In (tail_percent iqr) [5; 11; 20; 25]) as Hin.
  { unfold tail_percent. destruct (200 <? iqr), (100 <? iqr), (50 <? iqr); cbn; auto. }
  specialize (Hall _ Hin). rewrite forallb_forall in Hall. apply Z.eqb_eq, Hall.
  apply list_elem_of_In, elem_of_seqZ. unfold JB_HISTORY_SIZE in Hs. lia.
Qed.

Section target.
Context (delays : list Z) (min size : Z).
Abbreviation max_index := (size - 1).

(** A delay of the history, not below the first few. *)
Definition tail_delay (d : Z) : Prop :=
  exists k, Z.quot (max_index * 2) 100 <= k <= max_index /\ d = at_ delays k - min.

Lemma next_delay_tail fuel : forall d1 n n' d2,
  10 < max_index -> 0 <= n -> n * 4 < size -> tail_delay d1 ->
  next_delay fuel delays min max_index d1 n = (n', d2) -> tail_delay d2 /\ n <= n'.
Proof.
  intros d1 n n' d2 Hm Hn Hn4 Hd1.
  enough (forall fuel m, n <= m -> (n < m -> (m - 1) * 2 < max_index \/ m = n + 1) -> m * 2 < max_index \/ m = n ->
            next_delay fuel delays min max_index d1 m = (n', d2) -> tail_delay d2 /\ n <= n') as Hgen.
  { apply (Hgen fuel n); [lia|lia|by right]. }
  clear fuel. induction fuel as [|fuel IH]; intros m Hnm _ Hm2; cbn [next_delay]; [by intros [= <- <-]|].
  destruct ((d1 <=? _) && (_ <? max_index)) eqn:E.
  - apply andb_prop in E as [_ E%Z.ltb_lt]. apply IH; lia.
  - intros [= <- <-]. split; [|lia]. eexists. split; [|done]. rewrite Z.quot_div_nonneg by lia.
    assert (max_index * 2 / 100 <= max_index / 4) by (apply Z.div_le_lower_bound; [lia|]; pose proof (Z.mul_div_le (max_index * 2) 100); lia).
    pose proof (Z.mul_div_le max_index 4). lia.
Qed.

Lemma best_delay_tail fuel : forall max_n codec n d2 d A,
  0 <= n -> max_n * 4 <= size -> tail_delay d2 -> tail_delay d ->
  tail_delay (best_delay fuel delays min size max_n codec n d2 d A).
Proof.
  induction fuel as [|fuel IH]; intros max_n codec n d2 d A Hn Hmax Hd2 Hd; [done|]. cbn [best_delay].
  destruct ((10 <? size - 1) && (n <? max_n)) eqn:E; [|done]. apply andb_prop in E as [E1%Z.ltb_lt E2%Z.ltb_lt].
  destruct (if SFltb A _ then _ else _) as [d' A'] eqn:Ed.
  assert (tail_delay d') as Hd' by (destruct (SFltb A _); by injection Ed as <- <-).
  destruct (next_delay _ _ _ _ _ _) as [n' d2'] eqn:En.
  destruct (next_delay_tail _ _ _ _ _ E1 Hn ltac:(lia) Hd2 En) as [Hd2' Hn'].
  apply IH; [lia|done|done|done].
Qed.

End target.

(** A delay between the limits. *)
Definition clamp (s : jb_speakup_settings) (d : Z) : Z :=
  if negb (min_jb s =? 0) && (d <? min_jb s) then min_jb s
  else if negb (max_jb s =? 0) && (max_jb s <? d) then max_jb s else d.

Lemma calculate_target {D} (j : speakup_jitterbuffer D) ts now codec size :
  (if hist_pointer j <? JB_HISTORY_SIZE then hist_pointer j else JB_HISTORY_SIZE) = size ->
  1 <= size <= JB_HISTORY_SIZE ->
  let delays := hist_sorted_delay j in
  let min := at_ delays (Z.quot ((size - 1) * 2) 100) in
  sp_min (calculate_info j ts now codec) = min /\
  exists d, tail_delay delays min size d /\ sp_target (calculate_info j ts now codec) = min + clamp (settings j) d.
Proof.
  intros Es Hs. cbv zeta. unfold calculate_info. cbv zeta. rewrite Es. split; [done|].
  match goal with |- context [best_delay ?a ?b ?c ?e ?f ?g ?h ?i ?k ?l] =>
    pose proof (best_delay_tail b c e a f g h i k l) as Hb; set (d := best_delay a b c e f g h i k l) in * end.
  exists d. split.
  - assert (tail_delay (hist_sorted_delay j) (at_ (hist_sorted_delay j) (Z.quot ((size - 1) * 2) 100)) size
              (at_ (hist_sorted_delay j) (size - 1) - at_ (hist_sorted_delay j) (Z.quot ((size - 1) * 2) 100))) as Htop.
    { exists (size - 1). split; [|done]. split; [|lia]. rewrite Z.quot_div_nonneg by lia.
      apply Z.div_le_upper_bound; lia. }
    apply Hb; [lia| |done|done]. rewrite tail_size_exact by lia.
    set (p := tail_percent _). assert (0 <= p <= 25) as Hp by (unfold p, tail_percent; repeat case_if; lia).
    pose proof (Z.mul_div_le (p * size) 100). nia.
  - cbn. unfold clamp. change (settings (_ <| last_delay := now - ts |>)) with (settings j).
    clearbody d. destruct (negb (min_jb (settings j) =? 0) && (d <? min_jb (settings j))); [done|].
    by destruct (negb (max_jb (settings j) =? 0) && (max_jb (settings j) <? d)).
Qed.

(** A new frame makes the minimum one of the recorded delays.  Without limits the
    target is one of them too, not below the minimum; with limits that are in order it
    is kept between them. *)
Theorem speakup_target_bounds {D} (jb : speakup_jitterbuffer D) ts now ms codec :
  speakup_ok jb ->
  let jb' := calculate_info (put_history jb ts now ms codec) ts now codec in
  let seen := he_delay <$> take (Z.to_nat (Z.min (hist_pointer jb') JB_HISTORY_SIZE)) (hist jb') in
  let lo := min_jb (settings jb) in
  let hi := max_jb (settings jb) in
  sp_min jb' ∈ seen /\
  (lo = 0 -> hi = 0 -> sp_target jb' ∈ seen /\ sp_min jb' <= sp_target jb') /\
  (lo <> 0 -> hi = 0 \/ lo <= hi -> lo <= sp_target jb' - sp_min jb') /\
  (hi <> 0 -> lo <= hi -> sp_target jb' - sp_min jb' <= hi).
Proof.
  intros Hok. pose proof (put_history_ok jb ts now ms codec Hok) as [Hh Hp (Hl & Hs & Hperm) _ _ _].
  set (j := put_history jb ts now ms codec) in *.
  assert (settings j = settings jb) as Es by done. assert (0 < hist_pointer j) as Hpos.
  { change (hist_pointer j) with (hist_pointer jb + 1). pose proof (sk_pointer _ Hok). lia. }
  intros jb' seen lo hi. change (hist_pointer jb') with (hist_pointer j) in *. change (hist jb') with (hist j) in *.
  assert (seen = he_delay <$> take (Z.to_nat (Z.min (hist_pointer j) JB_HISTORY_SIZE)) (hist j)) as Eseen by done.
  clearbody seen. rewrite <- Eseen in Hperm. clear Eseen.
  set (size := Z.min (hist_pointer j) JB_HISTORY_SIZE) in *.
  assert (1 <= size <= JB_HISTORY_SIZE) as Hsz by (unfold size, JB_HISTORY_SIZE; lia).
  assert (forall k, 0 <= k < size -> at_ (hist_sorted_delay j) k ∈ seen) as Hseen.
  { intros k Hk. rewrite <- Hperm, <- (at_take _ size) by lia. unfold at_. rewrite list_elem_of_In. apply nth_In.
    rewrite length_take. lia. }
  assert ((if hist_pointer j <? JB_HISTORY_SIZE then hist_pointer j else JB_HISTORY_SIZE) = size) as Esize
    by (unfold size; destruct (Z.ltb_spec (hist_pointer j) JB_HISTORY_SIZE); lia).
  destruct (calculate_target j ts now codec size Esize Hsz) as (Emin & d & (k & Hk & Ed) & Etgt).
  fold jb' in Emin, Etgt. clearbody jb'. rewrite Es in Etgt.
  rewrite Z.quot_div_nonneg in * by lia. assert (0 <= (size - 1) * 2 / 100 <= size - 1) as Hix.
  { split; [apply Z.div_pos; lia|]. apply Z.div_le_upper_bound; lia. }
  assert (at_ (hist_sorted_delay j) ((size - 1) * 2 / 100) <= at_ (hist_sorted_delay j) k) as Hle.
  { rewrite <- (at_take _ size k), <- (at_take _ size ((size - 1) * 2 / 100)) by lia.
    apply sorted_at; [done|lia|]. rewrite length_take. lia. }
  split; [rewrite Emin; apply Hseen; lia|]. unfold clamp in Etgt. fold lo hi in Etgt. split_and!.
  - intros E1 E2. rewrite E1, E2 in Etgt. cbn [negb andb Z.eqb] in Etgt. rewrite Ed in Etgt.
    replace (sp_target jb') with (at_ (hist_sorted_delay j) k) by lia. split; [apply Hseen; lia|]. by rewrite Emin.
  - intros E1 E2. rewrite (proj2 (Z.eqb_neq _ _) E1) in Etgt. cbn [negb andb] in Etgt.
    destruct (Z.ltb_spec d lo); [lia|]. destruct (Z.eqb_spec hi 0); cbn [negb andb] in Etgt; [lia|].
    destruct (Z.ltb_spec hi d); lia.
  - intros E1 E2. rewrite (proj2 (Z.eqb_neq _ _) E1) in Etgt. cbn [negb andb] in Etgt.
    destruct (negb (lo =? 0) && (d <? lo)); [lia|]. destruct (Z.ltb_spec hi d); lia.
Qed.

(** ** Runs *)

Definition new_buffer : speakup_jitterbuffer nat := reset (set_default_settings zero_buffer).

(** As the generic layer sets a buffer up. *)
Definition generic_settings : jb_speakup_settings := mk_settings 20 200 10 0 0 0 0.

(** Frames out of order, one of them too late. *)
Definition stream : list (@stream_op nat) :=
  [Arrive 0 1%nat 20 20 100 CW_FORMAT_ALAW; Arrive 0 3%nat 20 60 145 CW_FORMAT_ALAW;
   Ask 110 20; Arrive 0 2%nat 20 40 146 CW_FORMAT_ALAW; Ask 160 20; Ask 180 20;
   Arrive 0 9%nat 20 45 190 CW_FORMAT_ALAW; Arrive 0 4%nat 20 80 191 CW_FORMAT_ALAW; Ask 250 20].

Example stream_played :
  (match play new_buffer stream with Ret (log, _) => (fun f => (vf_data f, vf_ts f)) <$> log | _ => [] end) =
  [(1%nat, 20); (2%nat, 40); (3%nat, 60); (4%nat, 80)].
Proof. vm_compute. reflexivity. Qed.

Lemma speakup_plays_in_turn_witness :
  let jb1 := jb_speakup_set_settings new_buffer generic_settings in
  steady jb1 stream /\ exists log jb, play jb1 stream = Ret (log, jb) /\ in_turn None log.
Proof.
  assert (Hs : steady (jb_speakup_set_settings new_buffer generic_settings) stream).
  { vm_compute. repeat split; intros H; first [exact H | left; reflexivity | right; discriminate]. }
  split; [exact Hs|].
  destruct (speakup_plays_in_turn new_buffer generic_settings stream) as (log & jb & H1 & H2).
  - reflexivity.
  - vm_compute. discriminate.
  - repeat constructor; vm_compute; discriminate.
  - exists log, jb. split; [exact H1|exact (H2 Hs)].
Defined.

Lemma speakup_get_ends_witness :
  exists g, jb_speakup_get (get_fuel (arrive new_buffer 0 1%nat 20 20 100 CW_FORMAT_ALAW))
    (arrive new_buffer 0 1%nat 20 20 100 CW_FORMAT_ALAW) 110 20 = Ret g.
Proof. apply speakup_get_ends; vm_compute; discriminate. Defined.

Lemma speakup_reachable_ok_witness : speakup_ok (arrive new_buffer 0 1%nat 20 20 100 CW_FORMAT_ALAW).
Proof.
  apply (speakup_reachable_ok new_buffer); [reflexivity|]. apply rtc_once, (ss_put 0 true new_buffer).
Defined.

Lemma speakup_target_bounds_witness :
  sp_min (calculate_info (put_history new_buffer 20 100 20 8) 20 100 8) ∈
  he_delay <$> take 1 (hist (put_history new_buffer 20 100 20 8)).
Proof.
  destruct (speakup_target_bounds new_buffer 20 100 20 8 speakup_new_ok) as [H _]. exact H.
Defined.

(** The timestamps are looked for one element further than there are any, and a new
    history is all zeros: a stream that starts at 0 loses its first frame. *)
Example first_frame_lost :
  (jb_speakup_put 0 true new_buffer 7%nat JB_TYPE_VOICE 20 0 100 CW_FORMAT_ALAW).1 = Freed.
Proof. vm_compute. reflexivity. Qed.

(** Once the history is full, the search for the timestamp of a frame that is newer
    than all of it ends behind the array, and what is found there decides about the
    frame. *)
Theorem full_history_overread {D} (jb : speakup_jitterbuffer D) beyond d ms ts now codec :
  speakup_ok jb -> JB_HISTORY_SIZE <= hist_pointer jb -> Forall (fun h => he_ts h < ts) (hist jb) ->
  find_pointer (hist_sorted_timestamp jb) (top_index jb) ts = JB_HISTORY_SIZE /\
  (jb_speakup_put beyond true jb d JB_TYPE_VOICE ms ts now codec).1 = if beyond =? ts then Freed else Stored.
Proof.
  intros Hok Hf Hts. destruct (sk_ts _ Hok) as (Hl & Hs & Hp). rewrite Z.min_r in Hs, Hp by done.
  assert (top_index jb = JB_HISTORY_SIZE - 1) as Et by (unfold top_index; by rewrite (proj2 (Z.ltb_ge _ _))).
  assert (forall i, 0 <= i < JB_HISTORY_SIZE -> at_ (hist_sorted_timestamp jb) i < ts) as Hall.
  { pose proof (sk_hist _ Hok) as Hh. unfold JB_HISTORY_SIZE in *.
    rewrite (take_ge (hist jb)), (take_ge (hist_sorted_timestamp jb)) in Hp by lia. intros i Hi.
    assert (at_ (hist_sorted_timestamp jb) i ∈ hist_sorted_timestamp jb) as Hin
      by (unfold at_; rewrite list_elem_of_In; apply nth_In; lia). rewrite Hp in Hin at 2.
    apply list_elem_of_fmap in Hin as (h & -> & Hin). by eapply Forall_forall in Hts. }
  assert (find_pointer (hist_sorted_timestamp jb) (top_index jb) ts = JB_HISTORY_SIZE) as Ep.
  { rewrite Et. destruct (find_pointer_spec (hist_sorted_timestamp jb) (JB_HISTORY_SIZE - 1) ts) as [[Hr Hv]|(Hr & _ & Hhi)].
    - by replace (JB_HISTORY_SIZE - 1 + 1) with JB_HISTORY_SIZE by lia.
    - unfold JB_HISTORY_SIZE in *. lia.
    - set (p := find_pointer _ _ _) in *. pose proof (Hall p ltac:(lia)). lia.
    - destruct (decide (find_pointer (hist_sorted_timestamp jb) (JB_HISTORY_SIZE - 1) ts = JB_HISTORY_SIZE)) as [|Hne]; [done|].
      set (p := find_pointer _ _ _) in *. pose proof (Hhi p ltac:(lia)). pose proof (Hall p ltac:(lia)). lia. }
  split; [done|]. unfold jb_speakup_put. cbn [Z.eqb JB_TYPE_VOICE JB_TYPE_CONTROL].
  match goal with |- context [find_pointer (hist_sorted_timestamp ?t) (top_index ?t) ts] =>
    change (hist_sorted_timestamp t) with (hist_sorted_timestamp jb); change (top_index t) with (top_index jb) end.
  rewrite Ep. rewrite (proj2 (Z.ltb_ge _ _)) by lia. by destruct (beyond =? ts).
Qed.
