(* ===== verification/GenericJb.v ===== *)
(** * The generic jitter buffer layer (corelib/jitterbuffer/generic_jb.c)

    A channel in a bridge owns a [cw_jb]; the layer decides whether it is
    used, creates it with the first frame, and plays out of it.  The layer
    calls an implementation only through the function table [cw_jb_impl];
    [JbLaws] states what it relies on; the implementations of JbScx and JbStevek
    discharge it, and that of JbSpeakup does not.  [gettimeofday], the outcome of allocations and
    the frames [cw_write] sends are arguments and results.  [Assert_failed]
    stands for every abnormal end (a failed assertion, [CRASH], a memory
    fault).  The frame log files are not modelled. *)

From S2P Require Import Prelude Time CStr Utils JbScx TopBuf JbStevek Frame Codec Smoother JbSpeakup.

Definition CW_GENERIC_JB_ENABLED : Z := Z.shiftl 1 0.
Definition CW_GENERIC_JB_FORCED : Z := Z.shiftl 1 1.
Definition CW_GENERIC_JB_LOG : Z := Z.shiftl 1 2.
Definition CW_GENERIC_JB_IMPL_NAME_SIZE : nat := 12.

Definition JB_USE : Z := Z.shiftl 1 0.
Definition JB_TIMEBASE_INITIALIZED : Z := Z.shiftl 1 1.
Definition JB_CREATED : Z := Z.shiftl 1 2.

Definition JB_IMPL_OK : Z := 0.
Definition JB_IMPL_DROP : Z := 1.
Definition JB_IMPL_INTERP : Z := 2.
Definition JB_IMPL_NOFRAME : Z := 3.

Record cw_jb_conf := mk_gconf {
  g_flags : Z;
  min_size : Z;
  max_size : Z;
  g_resync_threshold : Z;
  timing_compensation : Z;
  conf_impl : string;
}.

#[export] Instance eta_cw_jb_conf : Eta cw_jb_conf := fun c =>
  mk_gconf (g_flags c) (min_size c) (max_size c) (g_resync_threshold c)
    (timing_compensation c) (conf_impl c).

(** The table of functions of an implementation with objects [Obj].  The first
    argument of [create], [put_first] and [put] is the allocator's answer. *)
Record cw_jb_impl (Obj : Type) := mk_impl {
  impl_name : string;
  impl_create : bool -> cw_jb_conf -> Z -> option Obj;
  impl_destroy : Obj -> outcome unit;
  impl_put_first : bool -> Obj -> cw_frame -> Z -> Z -> outcome (Z * Obj);
  impl_put : bool -> Obj -> cw_frame -> Z -> Z -> outcome (Z * Obj);
  impl_get : Obj -> Z -> Z -> outcome (Z * option cw_frame * Obj);
  impl_next : Obj -> Z * Obj;
  impl_remove : Obj -> outcome (Z * option cw_frame * Obj);
  impl_force_resync : Obj -> Obj;
  impl_info : Obj -> cw_jb_info * Obj;
}.
Arguments mk_impl {Obj}.
Arguments impl_name {Obj}.
Arguments impl_create {Obj}.
Arguments impl_destroy {Obj}.
Arguments impl_put_first {Obj}.
Arguments impl_put {Obj}.
Arguments impl_get {Obj}.
Arguments impl_next {Obj}.
Arguments impl_remove {Obj}.
Arguments impl_force_resync {Obj}.
Arguments impl_info {Obj}.

Definition test_flag (flags flag : Z) : bool := negb (Z.land flags flag =? 0).
Definition set_flag (flags flag : Z) : Z := Z.lor flags flag.
Definition clear_flag (flags flag : Z) : Z := Z.land flags (Z.lnot flag).

Section generic.
Context {Obj : Type}.
Variable avail_impl : list (cw_jb_impl Obj).

Record cw_jb := mk_cw_jb {
  gconf : cw_jb_conf;
  impl : option (cw_jb_impl Obj);
  jbobj : option Obj;
  timebase : timeval;
  jb_next_time : Z;
  last_format : Z;
  jb_flags : Z;
}.

#[export] Instance eta_cw_jb : Eta cw_jb := fun j =>
  mk_cw_jb (gconf j) (impl j) (jbobj j) (timebase j) (jb_next_time j) (last_format j) (jb_flags j).

(** What the layer sees of a channel. *)
Record jb_chan := mk_chan {
  c_jb : cw_jb;
  wants_jitter : bool;
  creates_jitter : bool;
}.

Definition in_use (jb : cw_jb) : bool := test_flag (jb_flags jb) JB_USE.
Definition created (jb : cw_jb) : bool := test_flag (jb_flags jb) JB_CREATED.
Definition based (jb : cw_jb) : bool := test_flag (jb_flags jb) JB_TIMEBASE_INITIALIZED.

(** The implementation with the configured name, else the first one. *)
Definition jb_choose_impl (jb : cw_jb) : cw_jb :=
  let dflt := head avail_impl in
  match conf_impl (gconf jb) with
  | EmptyString => jb <| impl := dflt |>
  | name =>
    match List.find (fun i => bool_decide (name = impl_name i)) avail_impl with
    | Some i => jb <| impl := Some i |>
    | None => jb <| impl := dflt |>
    end
  end.

(** One half of [cw_jb_do_usecheck]: channel [c] towards [peer].  All flags
    are those read at the start of the function; [peer_base] is the peer's
    timebase at this point. *)
Definition usecheck_half (c peer : jb_chan) (peer_base now : timeval) : cw_jb :=
  let jb := c_jb c in
  let conf := gconf jb in
  if ((negb (wants_jitter c) && creates_jitter peer)
      || test_flag (g_flags conf) CW_GENERIC_JB_FORCED)
     && test_flag (g_flags conf) CW_GENERIC_JB_ENABLED
  then
    let jb' := jb <| jb_flags := set_flag (jb_flags jb) JB_USE |> in
    let jb' :=
      if based jb then jb'
      else
        (jb' <| timebase := if based (c_jb peer) then peer_base else now |>)
             <| jb_flags := set_flag (jb_flags jb') JB_TIMEBASE_INITIALIZED |> in
    if created jb then jb' else jb_choose_impl jb'
  else jb.

Definition cw_jb_do_usecheck (c0 c1 : jb_chan) (now0 now1 : timeval) : cw_jb * cw_jb :=
  let jb0 := usecheck_half c0 c1 (timebase (c_jb c1)) now0 in
  let jb1 := usecheck_half c1 c0 (timebase jb0) now1 in
  (jb0, jb1).

(** The [double] quotient of two [int]-sized numbers, cut to [long]. *)
Definition get_now (jb : cw_jb) (tv : timeval) : Z :=
  (tv_sec tv - tv_sec (timebase jb)) * 1000
  + Z.quot (tv_usec tv - tv_usec (timebase jb)) 1000.

Definition jb_wait (jb : cw_jb) (tv : timeval) (time_left : Z) : Z :=
  if in_use jb && created jb then s32 (jb_next_time jb - get_now jb tv) else time_left.

Definition cw_jb_get_when_to_wakeup (jb0 jb1 : cw_jb) (tv : timeval) (time_left : Z) : Z :=
  let time_left := if time_left <? 0 then INT_MAX else time_left in
  let wait0 := jb_wait jb0 tv time_left in
  let wait1 := jb_wait jb1 tv time_left in
  let wait := if wait0 <? wait1 then wait0 else wait1 in
  let wait := if wait <? time_left then wait else time_left in
  if wait =? INT_MAX then -1 else if wait <? 1 then 1 else wait.

(** What happens to the frame handed to the layer. *)
Inductive put_frame :=
  | Frame_queued
  | Frame_freed.

Definition create_jb (alloc_ok put_ok bridged : bool) (jb : cw_jb) (i : cw_jb_impl Obj)
    (frr : cw_frame) (codec : Z) (tv : timeval) : outcome (option (put_frame * cw_jb)) :=
  match impl_create i alloc_ok (gconf jb) (g_resync_threshold (gconf jb)) with
  | None => Ret None
  | Some o =>
    match impl_put_first i put_ok o frr (get_now jb tv) codec with
    | Ret (res, o) =>
      let '(next, o) := impl_next i o in
      let jb := jb <| jbobj := Some o |> <| jb_next_time := next |>
                   <| last_format := f_subclass frr |> in
      if test_flag (g_flags (gconf jb)) CW_GENERIC_JB_LOG && negb bridged then Assert_failed
      else Ret (Some (if res =? JB_IMPL_OK then Frame_queued else Frame_freed, jb))
    | Assert_failed => Assert_failed
    | Out_of_fuel => Out_of_fuel
    end
  end.

(** The allocator's answers a put may need. *)
Record put_env := mk_env { dup_ok : bool; alloc_ok : bool; node_ok : bool; has_bridge : bool }.

(** 0 with what became of the copy, or -1 when the caller has to deliver the
    frame itself. *)
Definition cw_jb_put (env : put_env) (jb : cw_jb) (f : cw_frame) (codec : Z) (tv : timeval)
    : outcome (Z * option put_frame * cw_jb) :=
  if negb (in_use jb) then Ret (-1, None, jb)
  else if negb (f_frametype f =? CW_FRAME_VOICE) then
    if (f_frametype f =? CW_FRAME_DTMF) && created jb then
      match impl jb, jbobj jb with
      | Some i, Some o => Ret (-1, None, jb <| jbobj := Some (impl_force_resync i o) |>)
      | _, _ => Assert_failed
      end
    else Ret (-1, None, jb)
  else if negb (f_has_timing_info f) || (f_len f <? 2) || (f_ts f <? 0) then Ret (-1, None, jb)
  else
    match cw_frdup (dup_ok env) f with
    | None => Assert_failed
    | Some None => Ret (-1, None, jb)
    | Some (Some frr) =>
      match impl jb with
      | None => Assert_failed
      | Some i =>
        if negb (created jb) then
          match create_jb (alloc_ok env) (node_ok env) (has_bridge env) jb i frr codec tv with
          | Ret None => Ret (-1, None, jb <| jbobj := None |>
                                         <| jb_flags := clear_flag (jb_flags jb) JB_USE |>)
          | Ret (Some (fate, jb)) =>
            Ret (0, Some fate, jb <| jb_flags := set_flag (jb_flags jb) JB_CREATED |>)
          | Assert_failed => Assert_failed
          | Out_of_fuel => Out_of_fuel
          end
        else
          match jbobj jb with
          | None => Assert_failed
          | Some o =>
            match impl_put i (node_ok env) o frr (get_now jb tv) codec with
            | Ret (res, o) =>
              let jb := jb <| jbobj := Some o |> in
              if negb (res =? JB_IMPL_OK) then Ret (0, Some Frame_freed, jb)
              else
                let '(next, o) := impl_next i o in
                Ret (0, Some Frame_queued, jb <| jbobj := Some o |> <| jb_next_time := next |>)
            | Assert_failed => Assert_failed
            | Out_of_fuel => Out_of_fuel
            end
          end
      end
    end.

(** What a round of play-out did. *)
Inductive played :=
  | Delivered (f : cw_frame)
  | Dropped (f : cw_frame)
  | Interpolated (f : cw_frame).

Definition interp_frame (jb : cw_jb) (interpolation_len : Z) : cw_frame :=
  (cw_fr_init_ex CW_FRAME_VOICE (last_format jb) (Some "JB interpolation"))
    <| f_samples := interpolation_len * 8 |>
    <| f_delivery := cw_tvadd (timebase jb) (cw_samp2tv (jb_next_time jb) 1000) |>
    <| f_offset := CW_FRIENDLY_OFFSET |>.

Definition deliver_result : Type := outcome (list played * bool * cw_jb).

(** The loop [while (now >= jb->next)]; the flag tells whether it was left
    because the implementation had no frame. *)
Fixpoint deliver_loop (fuel : nat) (i : cw_jb_impl Obj) (jb : cw_jb) (o : Obj) (now : Z)
    : deliver_result :=
  match fuel with
  | O => Out_of_fuel
  | S fuel =>
    if now <? jb_next_time jb then Ret ([], false, jb <| jbobj := Some o |>)
    else
      let interpolation_len := cw_codec_interp_len (last_format jb) in
      match impl_get i o now interpolation_len with
      | Assert_failed => Assert_failed
      | Out_of_fuel => Out_of_fuel
      | Ret (res, fo, o) =>
        let continue (ev : played) (jb : cw_jb) : deliver_result :=
          let '(next, o) := impl_next i o in
          match deliver_loop fuel i (jb <| jb_next_time := next |>) o now with
          | Ret (evs, none, jb) => Ret (ev :: evs, none, jb)
          | r => r
          end in
        if (res =? JB_IMPL_OK) || (res =? JB_IMPL_DROP) then
          match fo with
          | None => Assert_failed
          | Some f =>
            continue (if res =? JB_IMPL_OK then Delivered f else Dropped f)
              (jb <| last_format := f_subclass f |>)
          end
        else if res =? JB_IMPL_INTERP then
          continue (Interpolated (interp_frame jb interpolation_len)) jb
        else if res =? JB_IMPL_NOFRAME then Ret ([], true, jb <| jbobj := Some o |>)
        else Assert_failed
      end
  end.

(** The time played out for: [now] is moved to the next delivery if that is
    closer than the timing compensation. *)
Definition nudge (jb : cw_jb) (now next : Z) : Z :=
  if negb (now =? next) && (c_abs (now - next) <? timing_compensation (gconf jb)) then next else now.

Definition jb_get_and_deliver (fuel : nat) (jb : cw_jb) (tv : timeval) : deliver_result :=
  match impl jb, jbobj jb with
  | Some i, Some o =>
    let '(next, o) := impl_next i o in
    let jb := jb <| jb_next_time := next |> in
    deliver_loop fuel i jb o (nudge jb (get_now jb tv) next)
  | _, _ => Assert_failed
  end.

Definition cw_jb_get_and_deliver (fuel : nat) (jb0 jb1 : cw_jb) (tv0 tv1 : timeval)
    : outcome ((list played * cw_jb) * (list played * cw_jb)) :=
  let half jb tv :=
    if in_use jb && created jb then
      match jb_get_and_deliver fuel jb tv with
      | Ret (evs, _, jb) => Ret (evs, jb)
      | Assert_failed => Assert_failed
      | Out_of_fuel => Out_of_fuel
      end
    else Ret ([], jb) in
  match half jb0 tv0 with
  | Ret r0 => match half jb1 tv1 with Ret r1 => Ret (r0, r1)
              | Assert_failed => Assert_failed | Out_of_fuel => Out_of_fuel end
  | Assert_failed => Assert_failed
  | Out_of_fuel => Out_of_fuel
  end.

(** Remove frames until there is none: the frames freed. *)
Fixpoint drain (fuel : nat) (i : cw_jb_impl Obj) (o : Obj) : outcome (list cw_frame * Obj) :=
  match fuel with
  | O => Out_of_fuel
  | S fuel =>
    match impl_remove i o with
    | Ret (res, Some f, o) =>
      if res =? JB_IMPL_OK then
        match drain fuel i o with
        | Ret (fs, o) => Ret (f :: fs, o)
        | r => r
        end
      else Ret ([], o)
    | Ret (res, None, o) => if res =? JB_IMPL_OK then Assert_failed else Ret ([], o)
    | Assert_failed => Assert_failed
    | Out_of_fuel => Out_of_fuel
    end
  end.

Definition cw_jb_destroy (fuel : nat) (jb : cw_jb) : outcome (list cw_frame * cw_jb) :=
  if created jb then
    match impl jb, jbobj jb with
    | Some i, Some o =>
      match drain fuel i o with
      | Ret (fs, o) =>
        match impl_destroy i o with
        | Ret _ => Ret (fs, jb <| jbobj := None |>
                               <| jb_flags := clear_flag (jb_flags jb) JB_CREATED |>)
        | Assert_failed => Assert_failed
        | Out_of_fuel => Out_of_fuel
        end
      | Assert_failed => Assert_failed
      | Out_of_fuel => Out_of_fuel
      end
    | _, _ => Assert_failed
    end
  else Ret ([], jb).

Definition cw_jb_configure (jb : cw_jb) (conf : cw_jb_conf) : cw_jb := jb <| gconf := conf |>.
Definition cw_jb_get_config (jb : cw_jb) : cw_jb_conf := gconf jb.
Definition cw_jb_is_active (jb : cw_jb) : bool := created jb.

Definition cw_jb_get_info (jb : cw_jb) : outcome (cw_jb_info * cw_jb) :=
  match impl jb, jbobj jb with
  | Some i, Some o => let '(info, o) := impl_info i o in Ret (info, jb <| jbobj := Some o |>)
  | _, _ => Assert_failed
  end.

End generic.
Arguments cw_jb : clear implicits.
Arguments jb_chan : clear implicits.

(** ** Configuration *)

Definition cw_jb_default_config : cw_jb_conf := mk_gconf 0 60 (-1) (-1) 5 "".

Definition CW_GENERIC_JB_CONF_PREFIX : string := "jb-".

(** 0 if the variable was one of the layer's, else -1. *)
Definition cw_jb_read_conf (conf : cw_jb_conf) (varname value : string) : Z * cw_jb_conf :=
  match strip CW_GENERIC_JB_CONF_PREFIX varname with
  | None => (-1, conf)
  | Some name =>
    let flag f := if cw_true value then conf <| g_flags := set_flag (g_flags conf) f |> else conf in
    let tmp := atoi value in
    if bool_decide (name = "enable") then (0, flag CW_GENERIC_JB_ENABLED)
    else if bool_decide (name = "force") then (0, flag CW_GENERIC_JB_FORCED)
    else if bool_decide (name = "min-size") then
      (0, if 0 <? tmp then conf <| min_size := tmp |> else conf)
    else if bool_decide (name = "max-size") then
      (0, if 0 <? tmp then conf <| max_size := tmp |> else conf)
    else if bool_decide (name = "resynch-threshold") then
      (0, if 0 <? tmp then conf <| g_resync_threshold := tmp |> else conf)
    else if bool_decide (name = "impl") then
      (0, match value with
          | EmptyString => conf
          | _ => conf <| conf_impl := strtake (CW_GENERIC_JB_IMPL_NAME_SIZE - 1) value |>
          end)
    else if bool_decide (name = "log") then (0, flag CW_GENERIC_JB_LOG)
    else if bool_decide (name = "timing-compensation") then
      (0, conf <| timing_compensation := tmp |>)
    else (-1, conf)
  end.

(** ** The implementations behind the table *)

Definition scx_to_abstract_code : list Z :=
  [JB_IMPL_OK; JB_IMPL_DROP; JB_IMPL_INTERP; JB_IMPL_NOFRAME].
Definition stevek_to_abstract_code : list Z :=
  [JB_IMPL_OK; JB_IMPL_NOFRAME; JB_IMPL_NOFRAME; JB_IMPL_INTERP; JB_IMPL_DROP; JB_IMPL_OK].

Definition to_code (table : list Z) (res : Z) : Z := nth (Z.to_nat res) table (-1).

Definition map_outcome {A B} (g : A -> B) (o : outcome A) : outcome B :=
  match o with Ret x => Ret (g x) | Assert_failed => Assert_failed | Out_of_fuel => Out_of_fuel end.

Definition scx_obj : Type := scx_jb cw_frame.

Definition jb_create_scx (ok : bool) (general_config : cw_jb_conf) (resynch_threshold : Z)
    : option scx_obj :=
  scx_jb_new ok (mk_scx_conf (max_size general_config) resynch_threshold).

Definition jb_put_first_scx (_ : bool) (jb : scx_obj) (fin : cw_frame) (now codec : Z) :=
  map_outcome (fun '(res, jb) => (to_code scx_to_abstract_code res, jb))
    (scx_jb_put_first jb fin (f_len fin) (f_ts fin) now).

Definition jb_put_scx (_ : bool) (jb : scx_obj) (fin : cw_frame) (now codec : Z) :=
  map_outcome (fun '(res, jb) => (to_code scx_to_abstract_code res, jb))
    (scx_jb_put jb fin (f_len fin) (f_ts fin) now).

Definition jb_get_scx (jb : scx_obj) (now interpl : Z) :=
  map_outcome (fun '(res, fr, jb) => (to_code scx_to_abstract_code res, sf_data <$> fr, jb))
    (scx_jb_get jb now interpl).

Definition jb_remove_scx (jb : scx_obj) : outcome (Z * option cw_frame * scx_obj) :=
  let '(res, fr, jb) := scx_jb_remove jb in
  Ret (to_code scx_to_abstract_code res, sf_data <$> fr, jb).

Definition fixed_impl : cw_jb_impl scx_obj :=
  mk_impl "fixed" jb_create_scx scx_jb_destroy jb_put_first_scx jb_put_scx jb_get_scx
    (fun jb => (scx_jb_next jb, jb)) jb_remove_scx scx_jb_set_force_resynch
    (fun jb => (jb_info_zero, jb)).

Definition stevek_obj : Type := jitterbuf cw_frame.

(** The memory [jb_new] resets is arbitrary: it is part of the argument. *)
Definition jb_create_stevek (uninit : stevek_obj) (ok : bool) (general_config : cw_jb_conf)
    (resynch_threshold : Z) : option stevek_obj :=
  (fun jb => snd (jb_setconf jb (mk_jb_conf (max_size general_config) (min_size general_config)
                                   (g_resync_threshold general_config) 10)))
    <$> jb_new ok uninit.

Definition jb_put_stevek (ok : bool) (jb : stevek_obj) (fin : cw_frame) (now codec : Z)
    : outcome (Z * stevek_obj) :=
  let '(res, jb) := jb_put ok jb fin JB_TYPE_VOICE (f_len fin) (f_ts fin) now in
  Ret (to_code stevek_to_abstract_code res, jb).

Definition jb_get_stevek (jb : stevek_obj) (now interpl : Z)
    : outcome (Z * option cw_frame * stevek_obj) :=
  let '((res, fr, jb), _) := jb_get jb now interpl in
  Ret (to_code stevek_to_abstract_code res, jf_data <$> fr, jb).

Definition jb_remove_stevek (jb : stevek_obj) : outcome (Z * option cw_frame * stevek_obj) :=
  let '(res, fr, jb) := jb_getall jb in
  Ret (to_code stevek_to_abstract_code res, jf_data <$> fr, jb).

Definition jb_force_resynch_stevek (jb : stevek_obj) : stevek_obj := jb <| force_resync := true |>.

Definition jb_info_stevek (jb : stevek_obj) : cw_jb_info * stevek_obj :=
  let '(_, info, jb) := jb_getinfo jb in (info, jb).

Definition jb_destroy_stevek (jb : stevek_obj) : outcome unit :=
  let freed := jb_destroy jb in Ret tt.

Definition adaptive_impl (uninit : stevek_obj) : cw_jb_impl stevek_obj :=
  mk_impl "adaptive" (jb_create_stevek uninit) jb_destroy_stevek jb_put_stevek jb_put_stevek
    jb_get_stevek jb_next jb_remove_stevek jb_force_resynch_stevek jb_info_stevek.

Definition speakup_obj : Type := speakup_jitterbuffer cw_frame.

Definition jb_create_speakup (ok : bool) (general_config : cw_jb_conf) (resynch_threshold : Z)
    : option speakup_obj :=
  (fun jb => jb_speakup_set_settings jb
               (mk_settings (min_size general_config) (max_size general_config) 10 0 0 0 0))
    <$> jb_speakup_new ok.

(** The answer is always that the frame was taken. *)
Definition jb_put_speakup (beyond : Z) (ok : bool) (jb : speakup_obj) (fin : cw_frame) (now codec : Z)
    : outcome (Z * speakup_obj) :=
  Ret (JB_IMPL_OK, (jb_speakup_put beyond ok jb fin JB_TYPE_VOICE (f_len fin) (f_ts fin) now codec).2).

Definition jb_get_speakup (jb : speakup_obj) (now interpl : Z) : outcome (Z * option cw_frame * speakup_obj) :=
  map_outcome (fun '(res, fo, _, jb) => (to_code stevek_to_abstract_code res, fo, jb <| sp_next := now + interpl |>))
    (jb_speakup_get (get_fuel jb) jb now interpl).

Definition jb_next_speakup (jb : speakup_obj) : Z := next_voice_time jb + sp_current jb.

Definition jb_remove_speakup (jb : speakup_obj) : outcome (Z * option cw_frame * speakup_obj) :=
  let '(res, fo, jb) := jb_speakup_get_all jb in Ret (to_code stevek_to_abstract_code res, fo, jb).

Definition jb_destroy_speakup (jb : speakup_obj) : outcome unit :=
  let freed := jb_speakup_destroy jb in Ret tt.

Definition speakup_impl (beyond : Z) : cw_jb_impl speakup_obj :=
  mk_impl "speakup" jb_create_speakup jb_destroy_speakup (jb_put_speakup beyond) (jb_put_speakup beyond)
    jb_get_speakup (fun jb => (jb_next_speakup jb, jb)) jb_remove_speakup (fun jb => jb) jb_speakup_get_info.

(** ** What the layer relies on

    [queued] are the frames that wait, the next one to play first; [ok] is
    the implementation's invariant; [left now o] bounds how often play-out at
    time [now] can be asked to interpolate before a frame leaves. *)

Class JbLaws {Obj : Type} (i : cw_jb_impl Obj) (ok : Obj -> Prop)
    (queued : Obj -> list cw_frame) (left : Z -> Obj -> nat) : Prop := {
  law_create conf thr : exists o, impl_create i true conf thr = Some o /\ ok o /\ queued o = [];
  law_put_first o f now codec :
    ok o -> queued o = [] -> 2 <= f_len f -> 0 <= f_ts f -> 0 <= now ->
    exists code o', impl_put_first i true o f now codec = Ret (code, o') /\ ok o'
      /\ (code = JB_IMPL_OK /\ queued o' ≡ₚ f :: queued o
          \/ code = JB_IMPL_DROP /\ queued o' = queued o);
  law_put o f now codec :
    ok o -> 2 <= f_len f -> 0 <= f_ts f -> 0 <= now ->
    exists code o', impl_put i true o f now codec = Ret (code, o') /\ ok o'
      /\ (code = JB_IMPL_OK /\ queued o' ≡ₚ f :: queued o
          \/ code = JB_IMPL_DROP /\ queued o' = queued o);
  law_next o :
    ok o -> let '(n, o') := impl_next i o in
    ok o' /\ queued o' = queued o /\ fst (impl_next i o') = n
    /\ forall now, left now o' = left now o;
  law_get o now interpl :
    ok o -> 0 <= now -> 2 <= interpl ->
    exists code fo o', impl_get i o now interpl = Ret (code, fo, o') /\ ok o'
      /\ match fo with
         | Some f => queued o = f :: queued o' /\ (code = JB_IMPL_OK \/ code = JB_IMPL_DROP)
         | None => queued o' = queued o
                   /\ (code = JB_IMPL_NOFRAME
                       \/ code = JB_IMPL_INTERP
                          /\ (fst (impl_next i o) <= now -> (left now o' < left now o)%nat))
         end;
  law_remove o :
    ok o -> exists code fo o', impl_remove i o = Ret (code, fo, o') /\ ok o'
      /\ match fo with
         | Some f => code = JB_IMPL_OK /\ queued o = f :: queued o'
         | None => code = JB_IMPL_NOFRAME /\ queued o = [] /\ queued o' = []
         end;
  law_destroy o : ok o -> queued o = [] -> impl_destroy i o = Ret tt;
  law_resync o : ok o -> ok (impl_force_resync i o) /\ queued (impl_force_resync i o) = queued o;
}.

(** *** The fixed buffer obeys *)

Definition scx_queued (jb : scx_obj) : list cw_frame := sf_data <$> sj_frames jb.
Definition scx_left (now : Z) (jb : scx_obj) : nat := Z.to_nat (now + 1 - next_delivery jb).

Lemma scx_put_law (jb : scx_obj) f now :
  scx_wf jb -> 2 <= f_len f -> 0 <= f_ts f -> 0 <= now ->
  exists code o', map_outcome (fun '(res, jb) => (to_code scx_to_abstract_code res, jb))
      (scx_jb_put jb f (f_len f) (f_ts f) now) = Ret (code, o') /\ scx_wf o'
    /\ (code = JB_IMPL_OK /\ scx_queued o' ≡ₚ f :: scx_queued jb
        \/ code = JB_IMPL_DROP /\ scx_queued o' = scx_queued jb).
Proof.
  intros Hwf Hl Ht Hn. rewrite scx_jb_put_eq by done.
  pose proof (scx_put_spec_wf jb f (f_len f) (f_ts f) now Hwf Hl) as Hwf'.
  pose proof (scx_put_spec_data jb f (f_len f) (f_ts f) now Hwf) as Hd.
  destruct (scx_put_spec jb f (f_len f) (f_ts f) now) as [res jb']. cbn [snd] in Hwf'.
  cbn [map_outcome]. eexists _, _. split; [done|]. split; [done|].
  destruct Hd as [[-> Hd]|[-> Hd]]; [left|right]; by split.
Qed.

#[export] Instance scx_laws : JbLaws fixed_impl scx_wf scx_queued scx_left.
Proof.
  split.
  - intros conf thr. cbn. unfold jb_create_scx, scx_jb_new. eexists. split; [done|].
    split; [|done]. split; cbn; try constructor; case_if; b2p; unfold SCX_JB_RESYNCH_THRESHOLD_DEFAULT,
      SCX_JB_SIZE_DEFAULT; lia.
  - intros o f now codec Hok Hq Hl Ht Hn. cbn. unfold jb_put_first_scx, scx_jb_put_first,
      scx_jb_put_first_with. unfold scx_queued in Hq. apply fmap_nil_inv in Hq.
    refine (scx_put_law (o <| rxcore := now - f_ts f |> <| next_delivery := now + delay o |>)
      f now _ Hl Ht Hn). destruct Hok. split; cbn; rewrite ?Hq in *; done.
  - intros o f now codec Hok Hl Ht Hn. by apply scx_put_law.
  - intros o Hok. by cbn.
  - intros o now interpl Hok Hn Hi. cbn. unfold jb_get_scx.
    destruct (scx_get_cases o now interpl Hok Hn Hi) as (code & fo & jb' & -> & Hwf & Hc).
    cbn [map_outcome]. do 3 eexists. split; [done|]. split; [done|]. unfold scx_queued.
    destruct fo as [f|]; cbn [fmap option_fmap option_map].
    + destruct Hc as (-> & _ & _ & _ & [[-> _]|[-> _]]); split; auto.
    + destruct Hc as (-> & [(-> & _ & _)|(-> & Hle & Hnext & _)]); split; auto.
      right. split; [done|]. intros _. unfold scx_left. rewrite Hnext. lia.
  - intros o Hok. cbn. unfold jb_remove_scx, scx_jb_remove.
    destruct (get_jb_head o) as [[f jb']|] eqn:E.
    + do 3 eexists. split; [done|]. split; [by eapply get_jb_head_wf|]. cbn. split; [done|].
      unfold get_jb_head in E. unfold scx_queued. destruct (sj_frames o); [done|].
      by injection E as -> <-.
    + do 3 eexists. split; [done|]. split; [done|]. cbn. split; [done|].
      unfold get_jb_head in E. unfold scx_queued. by destruct (sj_frames o).
  - intros o Hok Hq. cbn. unfold scx_jb_destroy. unfold scx_queued in Hq.
    apply fmap_nil_inv in Hq. by rewrite Hq.
  - intros o Hok. cbn. split; [by destruct Hok|done].
Qed.

(** *** The adaptive buffer obeys *)

Definition stevek_queued (jb : stevek_obj) : list cw_frame := jf_data <$> frames jb.
Definition silent (jb : stevek_obj) : bool := negb (i_silence_begin_ts (info jb) =? 0).
Definition stevek_left (now : Z) (jb : stevek_obj) : nat :=
  if silent jb then 0%nat else S (Z.to_nat (now + 1 - i_next_voice_ts (info jb))).

(** The estimate of the jitter does not touch the play-out position. *)
Lemma history_get_position (jb : stevek_obj) :
  i_silence_begin_ts (info (history_get jb)) = i_silence_begin_ts (info jb)
  /\ i_next_voice_ts (info (history_get jb)) = i_next_voice_ts (info jb)
  /\ i_target (info (history_get jb)) = i_target (info jb)
  /\ i_current (info (history_get jb)) = i_current (info jb)
  /\ i_last_adjustment (info (history_get jb)) = i_last_adjustment (info jb)
  /\ frames (history_get jb) = frames jb.
Proof.
  unfold history_get, history_calc_maxbuf. cbv zeta.
  destruct (hist_maxbuf_valid jb); [|destruct (hist_ptr jb =? 0)]; case_if; done.
Qed.

Lemma jb_retarget_position (jb : stevek_obj) :
  i_silence_begin_ts (info (jb_retarget jb)) = i_silence_begin_ts (info jb)
  /\ i_next_voice_ts (info (jb_retarget jb)) = i_next_voice_ts (info jb).
Proof.
  destruct (history_get_position jb) as (H1 & H2 & _). unfold jb_retarget.
  set (j := history_get jb) in *. clearbody j. cbv zeta. case_if; done.
Qed.

Lemma jb_interp_silence_next (jb : stevek_obj) :
  i_next_voice_ts (info (jb_interp_silence jb)) = i_next_voice_ts (info jb).
Proof. unfold jb_interp_silence. case_if; done. Qed.

Lemma jb_get_voice_interp (jb : stevek_obj) fr diff now interpl fo jb' :
  jb_get_voice jb fr diff now interpl = (JB_INTERP, fo, jb') ->
  i_next_voice_ts (info jb') = i_next_voice_ts (info jb) + interpl.
Proof.
  unfold jb_get_voice. destruct fr as [f|]; [destruct (_ <? _)|].
  - case_if; by intros [=].
  - destruct (0 <? jf_ms f); case_if; by intros [=].
  - case_if; [by intros [=]|]. intros [= _ <-]. by rewrite jb_interp_silence_next.
Qed.

Lemma jb_get_interp (jb : stevek_obj) now interpl fo jb' :
  _jb_get jb now interpl = (JB_INTERP, fo, jb') ->
  silent jb = false /\ i_next_voice_ts (info jb') = i_next_voice_ts (info jb) + interpl.
Proof.
  unfold _jb_get, silent. destruct (jb_retarget_position jb) as [Hs Hn].
  set (j := jb_retarget jb) in *. clearbody j. cbv zeta. rewrite Hs.
  destruct (i_silence_begin_ts (info jb) =? 0).
  - intros H. split; [done|]. rewrite <- Hn. clear Hs Hn. revert H. unfold jb_get_nonsilent.
    case_if; [intros [= _ <-]; by rewrite jb_interp_silence_next|].
    unfold queue_get, _queue_get. destruct (frames j) as [|f l]; [apply jb_get_voice_interp|].
    cbn [orb]. destruct (_ <=? _); [|apply jb_get_voice_interp].
    case_if; [case_if; by intros [=]|]. intros H. by apply jb_get_voice_interp in H.
  - unfold jb_get_silent. cbv zeta. set (j1 := if _ : bool then _ else j). clearbody j1.
    unfold queue_get, _queue_get. destruct (frames j1); [by intros [=]|].
    cbn [orb]. repeat case_if; by intros [=].
Qed.

Lemma inserted_perm f l l' :
  inserted f l l' -> jf_data <$> l' ≡ₚ jf_data (D := cw_frame) f :: (jf_data <$> l).
Proof.
  intros (l1 & l2 & -> & -> & _). rewrite !fmap_app, fmap_cons. by rewrite Permutation_middle.
Qed.

Lemma stevek_put_law (jb : stevek_obj) f now codec :
  jb_ok jb ->
  exists code o', jb_put_stevek true jb f now codec = Ret (code, o') /\ jb_ok o'
    /\ (code = JB_IMPL_OK /\ stevek_queued o' ≡ₚ f :: stevek_queued jb
        \/ code = JB_IMPL_DROP /\ stevek_queued o' = stevek_queued jb).
Proof.
  intros Hok. unfold jb_put_stevek.
  pose proof (jb_step_ok _ _ (js_put true jb f JB_TYPE_VOICE (f_len f) (f_ts f) now) Hok) as Hok'.
  pose proof (jb_put_cases jb f JB_TYPE_VOICE (f_len f) (f_ts f) now (ok_queue _ Hok)) as Hc.
  destruct (jb_put _ _ _ _ _ _ _) as [res jb']. do 2 eexists. split; [done|]. split; [done|].
  unfold stevek_queued. destruct Hc as [[-> ->]|[Hi [[-> _]|[-> _]]]]; [by right|left|left];
    (split; [done|]); by apply inserted_perm in Hi.
Qed.

#[export] Instance stevek_laws uninit :
  JbLaws (adaptive_impl uninit) jb_ok stevek_queued stevek_left.
Proof.
  split.
  - intros conf thr. cbn. eexists. split; [done|]. split; [apply jb_reset_ok|done].
  - intros o f now codec Hok _ _ _ _. by apply stevek_put_law.
  - intros o f now codec Hok _ _ _. by apply stevek_put_law.
  - intros o Hok. cbn. pose proof (jb_step_ok _ _ (js_next o) Hok) as Hok'.
    destruct (history_get_position o) as (H1 & H2 & H3 & H4 & H5 & H6).
    unfold jb_next, queue_next in *. set (j := history_get o) in *. clearbody j.
    destruct (i_silence_begin_ts (info o) =? 0) eqn:Es; cbn [negb] in *.
    { split; [done|]. split; [done|]. by rewrite Es. }
    destruct (0 <=? match frames o with [] => -1 | head :: _ => jf_ts head end) eqn:E0.
    2:{ cbn [snd] in *. split; [done|]. split; [done|]. rewrite Es. cbn [negb]. by rewrite E0. }
    destruct (i_target (info j) - i_current (info j) <? - JB_TARGET_EXTRA) eqn:Et;
      cbn [snd] in *; (split; [done|]); unfold stevek_queued; rewrite H6;
      (split; [done|]); rewrite H1, Es; cbn [negb]; rewrite E0.
    all: destruct (history_get_position j) as (G1 & G2 & G3 & G4 & G5 & G6).
    all: rewrite G3, G4, Et; cbn [fst]; rewrite ?G5; (split; [done|]).
    all: intros now; unfold stevek_left, silent; by rewrite H1, H2.
  - intros o now interpl Hok Hn Hi. cbn. unfold jb_get_stevek, jb_get.
    pose proof (_jb_get_outcome o now interpl (ok_hist _ Hok)) as Ho.
    destruct (_jb_get o now interpl) as [[res fr] jb'] eqn:E.
    destruct Ho as (Hq & Hl & Hh & Hf). do 3 eexists. split; [done|].
    split; [split; [by apply Hq, Hok|done|by apply Hl, Hok]|]. unfold stevek_queued.
    destruct fr as [f|]; cbn [fmap option_fmap option_map].
    + destruct Hf as [-> [->| ->]]; split; auto.
    + destruct Hf as [-> [->| ->]]; split; auto. right. split; [done|].
      apply jb_get_interp in E as [Es En]. unfold jb_next, silent in *. rewrite Es.
      intros Hle. cbn [fst] in Hle. unfold stevek_left, silent. rewrite Es, En.
      case_if; lia.
  - intros o Hok. cbn. unfold jb_remove_stevek, jb_getall.
    pose proof (jb_step_ok _ _ (js_getall o) Hok) as Hok'. unfold jb_getall in Hok'.
    unfold queue_getall, _queue_get in *. unfold stevek_queued.
    destruct (frames o) as [|f l] eqn:Ef; cbn [orb] in *;
      (do 3 eexists; split; [done|]; split; [done|]); cbn; rewrite ?Ef; done.
  - done.
  - intros o Hok. split; [|done]. exact (jb_step_ok _ _ (js_force o) Hok).
Qed.

(** *** The SpeakUp buffer does not *)

Definition speakup_queued (jb : speakup_obj) : list cw_frame := vf_data <$> voiceframes jb.

(** A voice frame of 20 ms at the very beginning of a stream. *)
Definition first_frame : cw_frame :=
  (cw_fr_init_ex CW_FRAME_VOICE CW_FORMAT_ALAW None) <| f_len := 20 |> <| f_ts := 0 |>.

Lemma first_frame_taken beyond conf o :
  jb_create_speakup true conf 0 = Some o ->
  exists o', jb_put_speakup beyond true o first_frame 100 CW_FORMAT_ALAW = Ret (JB_IMPL_OK, o') /\ speakup_queued o' = [].
Proof. intros [= <-]. eexists. split; [reflexivity|]. vm_compute. reflexivity. Qed.

(** Whatever its invariant is taken to be: a frame that the buffer frees is
    reported as taken. *)
Theorem speakup_breaks_laws beyond ok left : ~ JbLaws (speakup_impl beyond) ok speakup_queued left.
Proof.
  intros L. destruct (law_create (JbLaws := L) cw_jb_default_config 0) as (o & Ho & Hok & Hq).
  destruct (first_frame_taken beyond cw_jb_default_config o Ho) as (o' & Hp & Hq').
  destruct (law_put (JbLaws := L) o first_frame 100 CW_FORMAT_ALAW Hok) as (code & o'' & Hp' & _ & Hc); [cbn; lia..|].
  cbn [speakup_impl impl_put] in Hp'. rewrite Hp in Hp'. injection Hp' as <- <-. rewrite Hq, Hq' in Hc.
  destruct Hc as [[_ Hc]|[? _]]; [|done]. apply Permutation_length in Hc. done.
Qed.

(** A maximum that is not configured is -1, which the buffer takes for a limit: a
    stream with 60 ms of jitter and more gets a target below its smallest delay. *)
Lemma speakup_default_max_clamps o d :
  jb_create_speakup true cw_jb_default_config 0 = Some o ->
  clamp (settings o) d = if d <? 60 then 60 else -1.
Proof.
  intros [= <-]. unfold clamp. cbn. destruct (Z.ltb_spec d 60); [done|].
  by rewrite (proj2 (Z.ltb_lt (-1) d)) by lia.
Qed.

(** ** The layer against the laws *)

(** The queued frames that a sequence of play-out rounds used up. *)
Definition consumed (evs : list played) : list cw_frame :=
  evs ≫= (fun ev => match ev with Delivered f | Dropped f => [f] | Interpolated _ => [] end).

Lemma interp_len_pos fmt : 2 <= cw_codec_interp_len fmt.
Proof. unfold cw_codec_interp_len. case_if; lia. Qed.

Lemma test_clear_flag flags flag : test_flag (clear_flag flags flag) flag = false.
Proof.
  unfold test_flag, clear_flag. apply negb_false_iff, Z.eqb_eq.
  rewrite <- Z.land_assoc, (Z.land_comm (Z.lnot flag)), Z.land_lnot_diag. apply Z.land_0_r.
Qed.

Lemma test_set_flag flags flag : flag <> 0 -> test_flag (set_flag flags flag) flag = true.
Proof.
  intros Hf. unfold test_flag, set_flag. apply negb_true_iff, Z.eqb_neq.
  by rewrite land_lor_new.
Qed.

Section layer.
Context {Obj : Type} (i : cw_jb_impl Obj) (ok : Obj -> Prop)
  (queued : Obj -> list cw_frame) (left : Z -> Obj -> nat).
Context `{!JbLaws i ok queued left}.
Implicit Types (jb : cw_jb Obj) (o : Obj).

Definition plays_out o now evs none jb' o' : Prop :=
  jbobj jb' = Some o' /\ ok o' /\ queued o = consumed evs ++ queued o'
  /\ (none = false -> now < jb_next_time jb').

(** A computation that returns one result for all large enough fuel. *)
Definition deliver_ends (run : nat -> deliver_result) o now : Prop :=
  exists n evs none jb' o',
    (forall fuel, (n <= fuel)%nat -> run fuel = Ret (evs, none, jb'))
    /\ plays_out o now evs none jb' o'.

(** The rest of the loop after a round that did [ev] and left object [o1]. *)
Definition deliver_rest jb1 o1 ev now fuel : deliver_result :=
  let '(next, o2) := impl_next i o1 in
  match deliver_loop fuel i (jb1 <| jb_next_time := next |>) o2 now with
  | Ret (evs, none, jb) => Ret (ev :: evs, none, jb)
  | r => r
  end.

Lemma deliver_rest_ends jb1 o1 ev now o :
  ok o1 -> queued o = consumed [ev] ++ queued o1 ->
  (forall jb2 o2, ok o2 -> queued o2 = queued o1 -> left now o2 = left now o1 ->
     fst (impl_next i o2) = jb_next_time jb2 ->
     deliver_ends (fun fuel => deliver_loop fuel i jb2 o2 now) o2 now) ->
  deliver_ends (deliver_rest jb1 o1 ev now) o now.
Proof.
  intros Hok1 Hqo IH. unfold deliver_rest. pose proof (law_next o1 Hok1) as Hl.
  destruct (impl_next i o1) as [next o2]. destruct Hl as (Hok2 & Hq2 & Hn2 & Hleft).
  set (jb2 := jb1 <| jb_next_time := next |>).
  destruct (IH jb2 o2 Hok2 Hq2 (Hleft now) Hn2)
    as (n & evs & none & jb' & o' & Hf & Hp1 & Hp2 & Hp3 & Hp4).
  exists n, (ev :: evs), none, jb', o'. split; [intros fuel Hfu; by rewrite Hf|].
  split; [done|]. split; [done|]. split; [|done].
  rewrite Hqo, <- Hq2, Hp3. unfold consumed. rewrite bind_cons. cbn.
  by rewrite !app_nil_r, <- app_assoc.
Qed.

Lemma deliver_loop_S fuel jb o now :
  jb_next_time jb <= now ->
  deliver_loop (S fuel) i jb o now
  = let il := cw_codec_interp_len (last_format jb) in
    match impl_get i o now il with
    | Assert_failed => Assert_failed
    | Out_of_fuel => Out_of_fuel
    | Ret (res, fo, o1) =>
      if (res =? JB_IMPL_OK) || (res =? JB_IMPL_DROP) then
        match fo with
        | None => Assert_failed
        | Some f => deliver_rest (jb <| last_format := f_subclass f |>) o1
                      (if res =? JB_IMPL_OK then Delivered f else Dropped f) now fuel
        end
      else if res =? JB_IMPL_INTERP then
        deliver_rest jb o1 (Interpolated (interp_frame jb il)) now fuel
      else if res =? JB_IMPL_NOFRAME then Ret ([], true, jb <| jbobj := Some o1 |>)
      else Assert_failed
    end.
Proof.
  intros Hle. cbn [deliver_loop]. by destruct (Z.ltb_spec now (jb_next_time jb)); [lia|].
Qed.

Lemma deliver_ends_S run o now jb o0 now0 :
  (forall fuel, deliver_loop (S fuel) i jb o0 now0 = run fuel) ->
  deliver_ends run o now -> deliver_ends (fun fuel => deliver_loop fuel i jb o0 now0) o now.
Proof.
  intros E (n & evs & none & jb' & o' & Hf & Hp).
  exists (S n), evs, none, jb', o'. split; [|done]. intros [|fuel] Hfu; [lia|].
  rewrite E. apply Hf. lia.
Qed.

(** The induction: frames that wait, then rounds of interpolation left. *)
Lemma deliver_loop_spec q m jb o now :
  length (queued o) = q -> left now o = m -> ok o -> 0 <= now ->
  fst (impl_next i o) = jb_next_time jb ->
  deliver_ends (fun fuel => deliver_loop fuel i jb o now) o now.
Proof.
  revert m jb o. induction q as [q IHq] using lt_wf_ind.
  intros m. induction m as [m IHm] using lt_wf_ind. intros jb o Hq Hm Hok Hn Hnext.
  destruct (Z.lt_ge_cases now (jb_next_time jb)) as [Hlt|Hge].
  { exists 1%nat, [], false, (jb <| jbobj := Some o |>), o. split; [|by split_and!].
    intros [|fuel] Hf; [lia|]. cbn [deliver_loop].
    by destruct (Z.ltb_spec now (jb_next_time jb)); [|lia]. }
  destruct (law_get o now (cw_codec_interp_len (last_format jb)) Hok Hn (interp_len_pos _))
    as (code & fo & o1 & Eg & Hok1 & Hfo).
  destruct fo as [f|]; [destruct Hfo as [Hqo Hcode]|destruct Hfo as [Hqo [->|[-> Hleft]]]].
  - apply (deliver_ends_S (deliver_rest (jb <| last_format := f_subclass f |>) o1
      (if code =? JB_IMPL_OK then Delivered f else Dropped f) now)).
    + intros fuel. rewrite deliver_loop_S by done. cbv zeta. rewrite Eg.
      by destruct Hcode as [->| ->].
    + apply deliver_rest_ends; [done|by rewrite Hqo; destruct (code =? _)|].
      intros jb2 o2 Hok2 Hq2 Hl2 Hn2. eapply (IHq (length (queued o1))); try done;
        [rewrite <- Hq, Hqo; cbn; lia|by rewrite Hq2].
  - exists 1%nat, [], true, (jb <| jbobj := Some o1 |>), o1. split; [|by split_and!].
    intros [|fuel] Hfu; [lia|]. rewrite deliver_loop_S by done. cbv zeta. by rewrite Eg.
  - apply (deliver_ends_S (deliver_rest jb o1
      (Interpolated (interp_frame jb (cw_codec_interp_len (last_format jb)))) now)).
    + intros fuel. rewrite deliver_loop_S by done. cbv zeta. by rewrite Eg.
    + apply deliver_rest_ends; [done|done|].
      intros jb2 o2 Hok2 Hq2 Hl2 Hn2. eapply (IHm (left now o1)); try done;
        [rewrite <- Hm; apply Hleft; lia|by rewrite Hq2, Hqo].
Qed.

Lemma drain_spec o fuel :
  ok o -> (length (queued o) < fuel)%nat ->
  exists o', drain fuel i o = Ret (queued o, o') /\ ok o' /\ queued o' = [].
Proof.
  revert o. induction fuel as [|fuel IH]; intros o Hok Hf; [lia|].
  cbn [drain]. destruct (law_remove o Hok) as (code & fo & o1 & -> & Hok1 & Hfo).
  destruct fo as [f|].
  - destruct Hfo as [-> Hq]. rewrite Hq in Hf. cbn [length] in Hf.
    destruct (IH o1 Hok1 ltac:(lia)) as (o' & E & Hok' & Hq'). exists o'.
    change (JB_IMPL_OK =? JB_IMPL_OK) with true. cbv iota. by rewrite E, Hq.
  - destruct Hfo as (-> & Hq & Hq'). exists o1.
    change (JB_IMPL_NOFRAME =? JB_IMPL_OK) with false. cbv iota. by rewrite Hq.
Qed.

(** The copy the layer queues has the timing of the frame. *)
Lemma frdup_timing f frr :
  cw_frdup true f = Some (Some frr) -> f_has_timing_info f = true ->
  f_len frr = f_len f /\ f_ts frr = f_ts f /\ f_subclass frr = f_subclass f
  /\ f_frametype frr = f_frametype f.
Proof.
  intros E Ht. unfold cw_frdup in E. cbn [negb] in E. rewrite Ht in E.
  destruct (f_src f) as [[|c s]|];
    (destruct (f_data f) as [d|];
     [destruct (mem_read (f_datalen f) d); [|done]|]); injection E as <-; done.
Qed.

(** What the layer may assume of the state of a channel. *)
Definition jb_valid jb : Prop :=
  impl jb = Some i
  /\ (created jb = true -> exists o, jbobj jb = Some o /\ ok o).

(** The allocator never fails and the bridge exists. *)
Definition env_ok : put_env := mk_env true true true true.

(** The frames a put takes: doc of cw_jb_put in generic_jb.h. *)
Definition acceptable (f : cw_frame) : Prop :=
  f_frametype f = CW_FRAME_VOICE /\ f_has_timing_info f = true /\ 2 <= f_len f /\ 0 <= f_ts f.

Definition put_queue jb : list cw_frame :=
  match jbobj jb with Some o => if created jb then queued o else [] | None => [] end.

Lemma acceptable_tests f :
  acceptable f ->
  (f_frametype f =? CW_FRAME_VOICE) = true
  /\ (negb (f_has_timing_info f) || (f_len f <? 2) || (f_ts f <? 0)) = false.
Proof.
  intros (-> & -> & Hl & Ht). split; [done|]. cbn [negb orb].
  apply orb_false_iff; split; apply Z.ltb_ge; lia.
Qed.

(** What a put does with the frame [frr], an accepted copy. *)
Definition put_effect jb frr (fate : put_frame) jb' : Prop :=
  jb_valid jb' /\ created jb' = true
  /\ match fate with
     | Frame_queued => put_queue jb' ≡ₚ frr :: put_queue jb
     | Frame_freed => put_queue jb' = put_queue jb
     end.

Lemma create_jb_spec jb frr codec tv :
  impl jb = Some i -> created jb = false -> 2 <= f_len frr -> 0 <= f_ts frr ->
  0 <= get_now jb tv ->
  exists fate jb', create_jb true true true jb i frr codec tv = Ret (Some (fate, jb'))
       /\ put_effect jb frr fate (jb' <| jb_flags := set_flag (jb_flags jb') JB_CREATED |>).
Proof.
  intros Hi Hc Hl Ht Hn. unfold create_jb.
  destruct (law_create (gconf jb) (g_resync_threshold (gconf jb))) as (o & -> & Hok & Hq).
  destruct (law_put_first o frr (get_now jb tv) codec Hok Hq Hl Ht Hn) as (code & o1 & -> & Hok1 & Hp).
  pose proof (law_next o1 Hok1) as Hnx. destruct (impl_next i o1) as [next o2].
  destruct Hnx as (Hok2 & Hq2 & _ & _). cbn [negb]. rewrite andb_false_r.
  do 2 eexists. split; [done|].
  assert (Hcr : test_flag (set_flag (jb_flags jb) JB_CREATED) JB_CREATED = true)
    by by apply test_set_flag.
  assert (Hpq : put_queue jb = []) by (unfold put_queue; rewrite Hc; by destruct (jbobj jb)).
  split; [split; [exact Hi|intros _; by exists o2]|]. split; [exact Hcr|].
  rewrite Hpq. unfold put_queue, created. cbn [jbobj jb_flags upd]. rewrite Hcr, Hq2.
  destruct Hp as [[-> Hp]|[-> Hp]]; rewrite Hq in Hp; [exact Hp|exact Hp].
Qed.

(** While no allocation fails, a put to a channel in use takes exactly
    the voice frames with timing information, a length of 2 ms or more and a
    timestamp that is not negative, and answers 0 for them: its copy, with the
    same timing, joins the frames that wait (all of which stay), or is freed;
    the buffer exists from then on. *)
Theorem jb_put_takes jb f codec tv :
  jb_valid jb -> in_use jb = true -> 0 <= get_now jb tv ->
  (f_data f = None \/ exists d, f_data f = Some d /\ 0 <= f_datalen f <= Z.of_nat (length d)) ->
  (acceptable f ->
     exists frr fate jb', cw_frdup true f = Some (Some frr)
       /\ f_len frr = f_len f /\ f_ts frr = f_ts f
       /\ cw_jb_put env_ok jb f codec tv = Ret (0, Some fate, jb')
       /\ put_effect jb frr fate jb')
  /\ (~ acceptable f ->
       exists jb', cw_jb_put env_ok jb f codec tv = Ret (-1, None, jb')
                   /\ put_queue jb' = put_queue jb).
Proof.
  intros [Hi Hv] Hu Hn Hd. split.
  - intros Ha. destruct (acceptable_tests f Ha) as [E1 E2]. destruct Ha as (_ & Ht & Hl & Hts).
    assert (exists frr, cw_frdup true f = Some (Some frr)) as [frr Ed].
    { unfold cw_frdup. cbn [negb]. destruct Hd as [->|(d & -> & Hd)]; [by eexists|].
      unfold mem_read. case_if; [by eexists|]. apply andb_false_iff in E as [E|E]; b2p; lia. }
    destruct (frdup_timing f frr Ed Ht) as (El & Et & _). exists frr.
    unfold cw_jb_put, env_ok. cbn [dup_ok alloc_ok node_ok has_bridge].
    rewrite Hu, E1, E2, Ed, Hi. cbn [negb].
    destruct (created jb) eqn:Ec; cbn [negb].
    + destruct (Hv eq_refl) as (o & Eo & Hok). rewrite Eo.
      destruct (law_put o frr (get_now jb tv) codec Hok ltac:(lia) ltac:(lia) Hn)
        as (code & o1 & -> & Hok1 & Hp).
      pose proof (law_next o1 Hok1) as Hnx. destruct (impl_next i o1) as [next o2].
      destruct Hnx as (Hok2 & Hq2 & _ & _). unfold put_effect, put_queue. rewrite Eo, Ec.
      destruct Hp as [[-> Hp]|[-> Hp]]; do 2 eexists; (do 4 (split; [done|]));
        (split; [split; [exact Hi|intros _; eexists; by split]|]); (split; [exact Ec|]);
        unfold created in *; cbn [jbobj jb_flags upd]; rewrite Ec, ?Hq2; exact Hp.
    + destruct (create_jb_spec jb frr codec tv Hi Ec ltac:(lia) ltac:(lia) Hn)
        as (fate & jb' & -> & He).
      do 2 eexists. by do 4 (split; [done|]).
  - intros Hna. unfold cw_jb_put. rewrite Hu. cbn [negb].
    destruct (Z.eqb_spec (f_frametype f) CW_FRAME_VOICE) as [Ev|]; cbn [negb].
    + case_if; [by eexists|]. exfalso. apply Hna. apply orb_false_iff in E as [E E2].
      apply orb_false_iff in E as [E0 E1]. b2p. by split_and!.
    + case_if; [|by eexists]. b2p. destruct (Hv H0) as (o & Eo & Hok). rewrite Hi, Eo.
      eexists. split; [done|]. unfold put_queue, created in *. cbn [jbobj jb_flags upd].
      rewrite Eo, H0. by apply law_resync.
Qed.

(** C34: playing out always ends, whatever the clock says: the frames that
    waited are the ones delivered or dropped, in their order and once each,
    followed by the ones still waiting; and unless the implementation had no
    frame for now, the next delivery is later than the time played out for. *)
Theorem jb_play_out_ends jb o tv :
  impl jb = Some i -> jbobj jb = Some o -> ok o ->
  0 <= nudge jb (get_now jb tv) (fst (impl_next i o)) ->
  exists n evs none jb' o',
    (forall fuel, (n <= fuel)%nat -> jb_get_and_deliver fuel jb tv = Ret (evs, none, jb'))
    /\ jbobj jb' = Some o' /\ ok o'
    /\ queued o = consumed evs ++ queued o'
    /\ (none = false -> nudge jb (get_now jb tv) (fst (impl_next i o)) < jb_next_time jb').
Proof.
  intros Hi Ho Hok Hn. unfold jb_get_and_deliver. rewrite Hi, Ho.
  pose proof (law_next o Hok) as Hnx. destruct (impl_next i o) as [next o1].
  destruct Hnx as (Hok1 & Hq1 & Hn1 & _). cbn [fst] in *.
  set (jb1 := jb <| jb_next_time := next |>).
  destruct (deliver_loop_spec _ _ jb1 o1 (nudge jb (get_now jb tv) next) eq_refl eq_refl Hok1 Hn Hn1)
    as (n & evs & none & jb' & o' & Hf & H1 & H2 & H3 & H4).
  exists n, evs, none, jb', o'. rewrite <- Hq1. by do 3 (split; [done|]).
Qed.

(** Destroying the buffer of a channel frees every frame that still
    waits, in order, leaves the implementation's object empty before it is
    destroyed (the fixed buffer asserts that) and marks it as gone. *)
Theorem jb_destroy_frees_all jb fuel :
  jb_valid jb -> created jb = true -> (length (put_queue jb) < fuel)%nat ->
  exists jb', cw_jb_destroy fuel jb = Ret (put_queue jb, jb')
    /\ created jb' = false /\ jbobj jb' = None /\ put_queue jb' = [].
Proof.
  intros [Hi Hv] Hc Hf. destruct (Hv Hc) as (o & Eo & Hok).
  unfold cw_jb_destroy, put_queue in *. rewrite Hc, Eo in *. rewrite Hi.
  destruct (drain_spec o fuel Hok Hf) as (o' & -> & Hok' & Hq').
  rewrite (law_destroy o' Hok' Hq'). eexists. split; [done|]. split; [|done].
  unfold created. cbn [jb_flags upd]. apply test_clear_flag.
Qed.

End layer.

Lemma if_ltb_min a b : (if a <? b then a else b) = Z.min a b.
Proof. destruct (Z.ltb_spec a b); lia. Qed.

Lemma wakeup_min {Obj} (jb0 jb1 : cw_jb Obj) tv time_left :
  let tl := if time_left <? 0 then INT_MAX else time_left in
  let m := Z.min (Z.min (jb_wait jb0 tv tl) (jb_wait jb1 tv tl)) tl in
  cw_jb_get_when_to_wakeup jb0 jb1 tv time_left = if m =? INT_MAX then -1 else Z.max 1 m.
Proof.
  intros tl m. unfold cw_jb_get_when_to_wakeup. fold tl. rewrite !if_ltb_min. fold m.
  destruct (m =? INT_MAX); [done|]. destruct (Z.ltb_spec m 1); lia.
Qed.

(** The time to sleep between two play-outs is never 0: it is -1 for
    ever, or at least 1 ms; it does not exceed a time limit of 1 ms or more,
    nor the time to the next delivery of a buffer in use when that is still
    ahead. *)
Theorem jb_wakeup_bounds {Obj} (jb0 jb1 : cw_jb Obj) tv time_left :
  INT_MIN <= time_left <= INT_MAX ->
  let w := cw_jb_get_when_to_wakeup jb0 jb1 tv time_left in
  (w = -1 \/ 1 <= w)
  /\ (1 <= time_left < INT_MAX -> 1 <= w <= time_left)
  /\ (forall jb, jb = jb0 \/ jb = jb1 -> in_use jb = true -> created jb = true ->
        let d := jb_next_time jb - get_now jb tv in
        1 <= d < INT_MAX -> 1 <= w <= d)
  /\ (in_use jb0 = false -> in_use jb1 = false -> 1 <= time_left < INT_MAX -> w = time_left).
Proof.
  intros Ht w. unfold w. rewrite wakeup_min.
  set (tl := if time_left <? 0 then INT_MAX else time_left).
  assert (Htl : 0 <= tl <= INT_MAX /\ (0 <= time_left -> tl = time_left))
    by (unfold tl, INT_MIN, INT_MAX in *; case_if; b2p; lia).
  assert (Hd : forall jb : cw_jb Obj, in_use jb = true -> created jb = true ->
    jb_wait jb tv tl = s32 (jb_next_time jb - get_now jb tv))
    by (intros jb E1 E2; unfold jb_wait; by rewrite E1, E2).
  assert (Hw : forall jb : cw_jb Obj, in_use jb = false -> jb_wait jb tv tl = tl)
    by (intros jb E; unfold jb_wait; by rewrite E).
  clearbody tl. set (m := Z.min (Z.min _ _) tl).
  assert (Hm : m <= jb_wait jb0 tv tl /\ m <= jb_wait jb1 tv tl /\ m <= tl) by (unfold m; lia).
  split; [case_if; lia|]. split; [intros Hl; case_if; b2p; lia|]. split.
  - intros jb Hjb Hu Hc Hdd. specialize (Hd jb Hu Hc).
    rewrite s32_id in Hd by (unfold INT_MIN, INT_MAX in *; lia).
    assert (m <= jb_next_time jb - get_now jb tv) by (destruct Hjb as [->| ->]; lia).
    case_if; b2p; unfold INT_MAX in *; lia.
  - intros U0 U1 Hl. assert (m = time_left) as -> by (unfold m; rewrite !Hw by done; lia).
    case_if; b2p; lia.
Qed.

(** ** Witnesses *)

Definition wit_gconf : cw_jb_conf := mk_gconf CW_GENERIC_JB_ENABLED 60 200 1000 5 "fixed".

Definition wit_gframe : cw_frame :=
  (cw_fr_init_ex CW_FRAME_VOICE CW_FORMAT_ULAW (Some "test"))
    <| f_datalen := 2 |> <| f_data := Some [1; 2] |> <| f_has_timing_info := true |>
    <| f_ts := 0 |> <| f_len := 20 |>.

(** A channel that uses the fixed buffer, before the first frame. *)
Definition wit_gjb0 : cw_jb scx_obj :=
  mk_cw_jb wit_gconf (Some fixed_impl) None (cw_tv 100 0) 0 0
    (Z.lor JB_USE JB_TIMEBASE_INITIALIZED).

Definition wit_gscx : scx_obj :=
  mk_scx [mk_scx_frame wit_gframe 0 20 250] (mk_scx_conf 200 1000) 50 200 250 false.

(** The same channel with one frame waiting. *)
Definition wit_gjb1 : cw_jb scx_obj :=
  wit_gjb0 <| jbobj := Some wit_gscx |> <| jb_next_time := 250 |> <| jb_flags := 7 |>.

Lemma wit_gscx_wf : scx_wf wit_gscx.
Proof. split; cbn; try lia; repeat constructor; cbn; lia. Qed.

Lemma wit_gjb0_valid : jb_valid fixed_impl scx_wf wit_gjb0.
Proof. by split. Qed.

Lemma wit_gjb1_valid : jb_valid fixed_impl scx_wf wit_gjb1.
Proof. split; [done|]. intros _. exists wit_gscx. split; [done|apply wit_gscx_wf]. Qed.

Lemma wit_gframe_acceptable : acceptable wit_gframe.
Proof. unfold acceptable. cbn. by split_and!. Qed.

Lemma wit_gframe_data :
  f_data wit_gframe = None
  \/ exists d, f_data wit_gframe = Some d /\ 0 <= f_datalen wit_gframe <= Z.of_nat (length d).
Proof. right. exists [1; 2]. split; [done|]. cbn. lia. Qed.

Lemma jb_put_takes_witness :
  exists frr fate jb', cw_frdup true wit_gframe = Some (Some frr)
    /\ f_len frr = 20 /\ f_ts frr = 0
    /\ cw_jb_put env_ok wit_gjb0 wit_gframe 4 (cw_tv 100 50000) = Ret (0, Some fate, jb')
    /\ put_effect fixed_impl scx_wf scx_queued wit_gjb0 frr fate jb'.
Proof.
  exact (proj1 (jb_put_takes fixed_impl scx_wf scx_queued scx_left wit_gjb0 wit_gframe 4
    (cw_tv 100 50000) wit_gjb0_valid eq_refl ltac:(vm_compute; discriminate)
    wit_gframe_data) wit_gframe_acceptable).
Defined.

Lemma jb_play_out_ends_witness :
  exists n evs none jb' o',
    (forall fuel, (n <= fuel)%nat ->
       jb_get_and_deliver fuel wit_gjb1 (cw_tv 100 260000) = Ret (evs, none, jb'))
    /\ jbobj jb' = Some o' /\ scx_wf o'
    /\ scx_queued wit_gscx = consumed evs ++ scx_queued o'
    /\ (none = false ->
        nudge wit_gjb1 (get_now wit_gjb1 (cw_tv 100 260000)) (fst (impl_next fixed_impl wit_gscx))
        < jb_next_time jb').
Proof.
  exact (jb_play_out_ends fixed_impl scx_wf scx_queued scx_left wit_gjb1 wit_gscx
    (cw_tv 100 260000) eq_refl eq_refl wit_gscx_wf ltac:(vm_compute; discriminate)).
Defined.

Lemma jb_destroy_frees_all_witness :
  exists jb', cw_jb_destroy 2 wit_gjb1 = Ret ([wit_gframe], jb')
    /\ created jb' = false /\ jbobj jb' = None /\ put_queue scx_queued jb' = [].
Proof.
  exact (jb_destroy_frees_all fixed_impl scx_wf scx_queued scx_left wit_gjb1 2
    wit_gjb1_valid eq_refl ltac:(vm_compute; constructor)).
Defined.

Lemma jb_wakeup_bounds_witness :
  cw_jb_get_when_to_wakeup wit_gjb0 wit_gjb1 (cw_tv 100 240000) 1000 = -1
  \/ 1 <= cw_jb_get_when_to_wakeup wit_gjb0 wit_gjb1 (cw_tv 100 240000) 1000.
Proof.
  exact (proj1 (jb_wakeup_bounds wit_gjb0 wit_gjb1 (cw_tv 100 240000) 1000
    ltac:(unfold INT_MIN, INT_MAX; lia))).
Defined.
