(* ===== verification/Pattern.v ===== *)
(** * Extension patterns (corelib/pbx.c)

    [cw_extension_pattern_match] compares a dialled number with the name of an
    extension: a literal, or a pattern that starts with an underscore.  The
    loop over the two strings is cut by fuel, the length of the pattern being
    enough.  [char] is signed. *)

From S2P Require Import Prelude CStr.

Inductive extension_match :=
  | EXTENSION_MATCH_FAILURE
  | EXTENSION_MATCH_EXACT
  | EXTENSION_MATCH_OVERLENGTH
  | EXTENSION_MATCH_INCOMPLETE
  | EXTENSION_MATCH_STRETCHABLE
  | EXTENSION_MATCH_POSSIBLE.

#[export] Instance extension_match_eq_dec : EqDecision extension_match.
Proof. solve_decision. Defined.

Definition cw_extension_match_to_str (m : extension_match) : string :=
  match m with
  | EXTENSION_MATCH_FAILURE => "Failure"
  | EXTENSION_MATCH_EXACT => "Exact"
  | EXTENSION_MATCH_OVERLENGTH => "Overlength"
  | EXTENSION_MATCH_INCOMPLETE => "Incomplete"
  | EXTENSION_MATCH_STRETCHABLE => "Stretchable"
  | EXTENSION_MATCH_POSSIBLE => "Possible"
  end.

Definition in_range (c lo hi : ascii) : bool := (schar lo <=? schar c) && (schar c <=? schar hi).

Fixpoint skip_dashes (d : string) : string :=
  match d with
  | String "-" d' => skip_dashes d'
  | _ => d
  end.

(** The loop over the characters between the brackets. *)
Fixpoint class_match (d : ascii) (cls : string) : bool :=
  match cls with
  | EmptyString => false
  | String c0 ((String c1 (String c2 rest)) as tl) =>
    if char_eqb c1 "-" then
      if in_range d c0 c2 then true else class_match d rest
    else if char_eqb d c0 then true else class_match d tl
  | String c0 tl => if char_eqb d c0 then true else class_match d tl
  end.

Definition pattern_ends (p : string) : bool :=
  match p with
  | EmptyString => true
  | String c _ => char_eqb c "/"
  end.

(** After the loop. *)
Definition match_end (d p : string) : extension_match :=
  match d with
  | EmptyString =>
    match p with
    | String "!" _ => EXTENSION_MATCH_POSSIBLE
    | _ => if pattern_ends p then EXTENSION_MATCH_EXACT else EXTENSION_MATCH_INCOMPLETE
    end
  | _ => if pattern_ends p then EXTENSION_MATCH_OVERLENGTH else EXTENSION_MATCH_FAILURE
  end.

(** What one pattern character, at the digit [dc], asks for. *)
Inductive pat_step :=
  | Take (after : string)
  | Keep (after : string)
  | Stop (m : extension_match).

Definition pattern_step (dc pc : ascii) (p' : string) : pat_step :=
  let digit lo := if (schar dc <? lo) || (57 <? schar dc) then Stop EXTENSION_MATCH_FAILURE
                  else Take p' in
  let up := code (toupper pc) in
  if up =? 91 then
    match strcut "]" p' with
    | (_, None) => Stop EXTENSION_MATCH_FAILURE
    | (cls, Some after) =>
      if class_match dc cls then Take after else Stop EXTENSION_MATCH_FAILURE
    end
  else if up =? 88 then digit 48
  else if up =? 90 then digit 49
  else if up =? 78 then digit 50
  else if (up =? 46) || (up =? 126) then Stop EXTENSION_MATCH_STRETCHABLE
  else if up =? 33 then Stop EXTENSION_MATCH_POSSIBLE
  else if (up =? 32) || (up =? 45) then Keep p'
  else if char_eqb dc pc then Take p' else Stop EXTENSION_MATCH_FAILURE.

(** The main loop; no fuel left stands for a loop that does not end. *)
Fixpoint match_loop (fuel : nat) (d p : string) : option extension_match :=
  match fuel with
  | O => None
  | S fuel =>
    match d, p with
    | String _ _, String pc p' =>
      if char_eqb pc "/" then Some (match_end d p)
      else
        match skip_dashes d with
        | EmptyString => Some (match_end EmptyString p)
        | String dc d' =>
          match pattern_step dc pc p' with
          | Take after => match_loop fuel d' after
          | Keep after => match_loop fuel (String dc d') after
          | Stop m => Some m
          end
        end
    | _, _ => Some (match_end d p)
    end
  end.

(** [memcmp] of the first [strlen(pre)] characters. *)
Fixpoint starts_with (pre s : string) : bool :=
  match pre, s with
  | EmptyString, _ => true
  | String c pre, String d s => char_eqb c d && starts_with pre s
  | _, EmptyString => false
  end.

Definition literal_match (destination pattern : string) : extension_match :=
  let pattern_len := String.length pattern in
  let destination_len := String.length destination in
  if (destination_len <? pattern_len)%nat then
    if starts_with destination pattern then EXTENSION_MATCH_INCOMPLETE
    else EXTENSION_MATCH_FAILURE
  else if negb (starts_with pattern destination) then EXTENSION_MATCH_FAILURE
  else if (pattern_len =? destination_len)%nat then EXTENSION_MATCH_EXACT
  else EXTENSION_MATCH_OVERLENGTH.

Definition pattern_match_fuel (destination pattern : string) : option extension_match :=
  match destination with
  | EmptyString =>
    Some match pattern with
         | EmptyString => EXTENSION_MATCH_EXACT
         | _ => EXTENSION_MATCH_INCOMPLETE
         end
  | _ =>
    match pattern with
    | String "_" p =>
      match skip_dashes destination with
      | EmptyString => Some EXTENSION_MATCH_INCOMPLETE
      | d => match_loop (S (String.length p)) d p
      end
    | _ => Some (literal_match destination pattern)
    end
  end.

Definition cw_extension_pattern_match (destination pattern : string) : extension_match :=
  default EXTENSION_MATCH_FAILURE (pattern_match_fuel destination pattern).

Definition cw_extension_match (pattern data : string) : Z :=
  match cw_extension_pattern_match data pattern with
  | EXTENSION_MATCH_POSSIBLE => 2
  | EXTENSION_MATCH_EXACT | EXTENSION_MATCH_STRETCHABLE => 1
  | _ => 0
  end.

Definition matchcid (cidpattern : string) (callerid : option string) : bool :=
  match callerid with
  | None => match cidpattern with EmptyString => true | _ => false end
  | Some callerid =>
    match cw_extension_pattern_match callerid cidpattern with
    | EXTENSION_MATCH_EXACT | EXTENSION_MATCH_STRETCHABLE | EXTENSION_MATCH_POSSIBLE => true
    | _ => false
    end
  end.

(** ** The loop ends *)

Lemma append_cons c d s : (String c d ++ s = String c (d ++ s))%string.
Proof. reflexivity. Qed.

Lemma append_nil s : ("" ++ s = s)%string.
Proof. reflexivity. Qed.

(** Each round that goes on has a shorter pattern. *)
Lemma pattern_step_shrinks dc pc p' after :
  (pattern_step dc pc p' = Take after \/ pattern_step dc pc p' = Keep after) ->
  (String.length after <= String.length p')%nat.
Proof.
  unfold pattern_step. destruct (strcut "]" p') as [cls [b|]] eqn:Ec.
  - apply strcut_length in Ec. intros H. repeat case_if_in H; destruct H; simplify_eq; lia.
  - intros H. repeat case_if_in H; destruct H; simplify_eq; lia.
Qed.

Lemma match_loop_total fuel d p :
  (String.length p < fuel)%nat -> exists m, match_loop fuel d p = Some m.
Proof.
  revert d p. induction fuel as [|fuel IH]; intros d p Hf; [lia|].
  destruct d as [|c d], p as [|pc p']; cbn [match_loop String.length] in *; eauto.
  destruct (char_eqb pc "/"); [eauto|].
  destruct (skip_dashes (String c d)) as [|dc d']; [eauto|].
  pose proof (pattern_step_shrinks dc pc p') as Hs.
  destruct (pattern_step dc pc p') as [a|a|m]; [| |eauto];
    apply IH; specialize (Hs a ltac:(auto)); lia.
Qed.

Lemma pattern_step_stop dc pc p' :
  pattern_step dc pc p' <> Stop EXTENSION_MATCH_EXACT.
Proof.
  unfold pattern_step. intros H. destruct (strcut "]" p') as [cls [b|]];
    repeat case_if_in H; done.
Qed.

(** ** One more digit *)

(** What may become of a result when the dialled number grows by [s]. *)
Definition extends (s : string) (m m' : extension_match) : Prop :=
  match m with
  | EXTENSION_MATCH_INCOMPLETE => True
  | EXTENSION_MATCH_EXACT =>
    m' = match s with EmptyString => EXTENSION_MATCH_EXACT | _ => EXTENSION_MATCH_OVERLENGTH end
  | _ => m' = m
  end.

Lemma extends_nil m : extends "" m m.
Proof. by destruct m. Qed.

Lemma skip_dashes_app d s :
  skip_dashes (d ++ s) =
  match skip_dashes d with EmptyString => skip_dashes s | d' => (d' ++ s)%string end.
Proof.
  induction d as [|c d IH]; [done|]. rewrite append_cons.
  destruct (char_eqb c "-") eqn:E.
  - apply char_eqb_eq in E as ->. exact IH.
  - assert (forall e, skip_dashes (String c e) = String c e) as H.
    { intros e. destruct c as [[] [] [] [] [] [] [] []]; done. }
    by rewrite !H.
Qed.

Lemma match_end_extends d p s : d <> ""%string -> extends s (match_end d p) (match_end (d ++ s) p).
Proof.
  destruct d as [|c d]; [done|]. intros _. rewrite append_cons. unfold match_end.
  by destruct (pattern_ends p).
Qed.

(** The loop at the end of the dialled number, against the loop one [s] later. *)
Lemma match_loop_end_extends fuel p s m' :
  match_loop (S fuel) s p = Some m' -> extends s (match_end "" p) m'.
Proof.
  destruct s as [|c s]; [cbn [match_loop]; intros [= <-]; apply extends_nil|].
  destruct p as [|pc p']; cbn [match_loop]; [by intros [= <-]|].
  destruct (char_eqb pc "/") eqn:Es.
  { apply char_eqb_eq in Es as ->. by intros [= <-]. }
  destruct (char_eqb pc "!") eqn:Ee.
  { apply char_eqb_eq in Ee as ->. destruct (skip_dashes (String c s)); by intros [= <-]. }
  intros _. unfold match_end. simpl. rewrite Es.
  destruct pc as [[] [] [] [] [] [] [] []]; done.
Qed.

Lemma match_loop_extends fuel d p s m m' :
  match_loop fuel d p = Some m -> match_loop fuel (d ++ s) p = Some m' -> extends s m m'.
Proof.
  revert d p. induction fuel as [|fuel IH]; intros d p; [done|].
  destruct d as [|c d].
  { rewrite append_nil. intros H H'. apply match_loop_end_extends in H'.
    assert (m = match_end "" p) as ->; [|done]. by destruct p; simpl in H; simplify_eq. }
  pose proof (skip_dashes_app (String c d) s) as Hsk. rewrite append_cons in Hsk |- *.
  destruct p as [|pc p']; cbn [match_loop]; [by intros [= <-] [= <-]|].
  destruct (char_eqb pc "/") eqn:Es.
  { apply char_eqb_eq in Es as ->. by intros [= <-] [= <-]. }
  rewrite Hsk. destruct (skip_dashes (String c d)) as [|dc d'].
  - intros [= <-] H'. destruct s as [|c' s]; [simpl in H'; simplify_eq; apply extends_nil|].
    apply (match_loop_end_extends fuel (String pc p')). cbn [match_loop].
    rewrite Es. exact H'.
  - rewrite append_cons. destruct (pattern_step dc pc p') as [a|a|m0] eqn:Ep; intros H H'.
    + eapply IH; [exact H|exact H'].
    + eapply IH; [exact H|]. by rewrite append_cons.
    + injection H as <-. injection H' as <-.
      pose proof (pattern_step_stop dc pc p'). by destruct m0.
Qed.

(** Only the first characters of the number are compared with a literal. *)
Lemma starts_with_extends d s p :
  (String.length p <= String.length d)%nat -> starts_with p (d ++ s) = starts_with p d.
Proof.
  revert d. induction p as [|c p IH]; intros [|e d] H; simpl in H; try done; [lia|].
  rewrite append_cons. cbn [starts_with]. rewrite IH by lia. done.
Qed.

Lemma starts_with_shorter d s p :
  starts_with d p = false -> (String.length d < String.length p)%nat ->
  starts_with (d ++ s) p = false /\ starts_with p (d ++ s) = false.
Proof.
  revert p. induction d as [|c d IH]; intros [|e p] H Hl; simpl in Hl; try lia; [done|].
  rewrite append_cons. cbn [starts_with] in *. unfold char_eqb in *.
  rewrite (Z.eqb_sym (code e)). destruct (code c =? code e); [|done].
  apply IH; [done|lia].
Qed.

Lemma literal_match_extends d s p :
  extends s (literal_match d p) (literal_match (d ++ s) p).
Proof.
  unfold literal_match. rewrite length_append.
  destruct (Nat.ltb_spec (String.length d) (String.length p)) as [Hl|Hl].
  - destruct (starts_with d p) eqn:E; [done|].
    destruct (starts_with_shorter d s p E Hl) as [E1 E2]. rewrite E1, E2. simpl. by case_if.
  - destruct (Nat.ltb_spec (String.length d + String.length s) (String.length p)); [lia|].
    rewrite starts_with_extends by lia.
    destruct (starts_with p d); [|done]. cbn [negb].
    destruct (Nat.eqb_spec (String.length p) (String.length d)).
    + destruct (Nat.eqb_spec (String.length p) (String.length d + String.length s));
        destruct s; simpl in *; done || lia.
    + destruct (Nat.eqb_spec (String.length p) (String.length d + String.length s)); [lia|done].
Qed.

(** ** The answer for a dialled number and for its continuations *)

Lemma pattern_match_total d p : pattern_match_fuel d p = Some (cw_extension_pattern_match d p).
Proof.
  assert (exists m, pattern_match_fuel d p = Some m) as [m Hm].
  { unfold pattern_match_fuel. destruct d as [|c d]; [eauto|].
    destruct p as [|pc p]; [eauto|].
    destruct (char_eqb pc "_") eqn:E.
    - apply char_eqb_eq in E as ->. destruct (skip_dashes (String c d)); [eauto|].
      apply match_loop_total. lia.
    - destruct pc as [[] [] [] [] [] [] [] []]; eauto; done. }
  unfold cw_extension_pattern_match. by rewrite Hm.
Qed.

Lemma pattern_match_pattern c d p :
  pattern_match_fuel (String c d) (String "_" p) =
  match skip_dashes (String c d) with
  | EmptyString => Some EXTENSION_MATCH_INCOMPLETE
  | d => match_loop (S (String.length p)) d p
  end.
Proof. done. Qed.

Lemma pattern_match_literal c d p :
  (forall p', p <> String "_" p') ->
  pattern_match_fuel (String c d) p = Some (literal_match (String c d) p).
Proof.
  intros H. destruct p as [|pc p]; [done|].
  unfold pattern_match_fuel. destruct pc as [[] [] [] [] [] [] [] []]; try done.
  by destruct (H p).
Qed.

Lemma pattern_cases p : (exists p', p = String "_" p') \/ (forall p', p <> String "_" p').
Proof.
  destruct p as [|pc p]; [by right|]. destruct (char_eqb pc "_") eqn:E.
  - left. apply char_eqb_eq in E as ->. eauto.
  - right. intros p' [= -> ->]. done.
Qed.

(** Dialling on never revives an answer: a failure, an overlong match and
    the two open matches ([.] and [!]) stay what they are, an exact match
    becomes overlong; only an incomplete one is undecided. *)
Theorem pattern_match_extends destination s pattern :
  pattern_match_fuel destination pattern
    = Some (cw_extension_pattern_match destination pattern) /\
  extends s (cw_extension_pattern_match destination pattern)
            (cw_extension_pattern_match (destination ++ s) pattern).
Proof.
  split; [apply pattern_match_total|].
  pose proof (pattern_match_total destination pattern) as H.
  pose proof (pattern_match_total (destination ++ s) pattern) as H'.
  revert H H'. generalize (cw_extension_pattern_match destination pattern).
  generalize (cw_extension_pattern_match (destination ++ s) pattern). intros m' m H H'.
  destruct destination as [|c d].
  { rewrite append_nil in H'. simpl in H. injection H as <-.
    destruct pattern; [|done]. destruct s; simpl in H'; by simplify_eq. }
  rewrite append_cons in H'. destruct (pattern_cases pattern) as [[p ->]|Hp].
  - rewrite pattern_match_pattern in H, H'. rewrite <- append_cons, skip_dashes_app in H'.
    destruct (skip_dashes (String c d)) as [|dc d']; [by injection H as <-|].
    rewrite append_cons in H'. eapply match_loop_extends; [exact H|]. by rewrite append_cons.
  - rewrite pattern_match_literal in H, H' by done. rewrite <- append_cons in H'.
    injection H as <-. injection H' as <-. apply literal_match_extends.
Qed.

(** ** Patterns, position by position *)

(** What a bracket expression lists: single characters, and ranges of them. *)
Inductive class_item := Single (c : ascii) | Span (lo hi : ascii).

(** One position of a pattern: a digit from [lo] up ([X], [Z], [N]), a bracket
    expression, or a character that stands for itself. *)
Inductive token :=
  | TDigit (pc : ascii)
  | TClass (items : list class_item)
  | TChar (c : ascii).

Definition digit_floor (pc : ascii) : option Z :=
  match toupper pc with
  | "X"%char => Some 48
  | "Z"%char => Some 49
  | "N"%char => Some 50
  | _ => None
  end.

Definition special (c : ascii) : bool :=
  existsb (Z.eqb (code (toupper c))) [91; 88; 90; 78; 46; 126; 33; 32; 45; 47].

(** Characters that can be listed: ASCII, not the closing bracket, and no dash
    where it would be read as that of a range. *)
Definition item_wf (i : class_item) : Prop :=
  match i with
  | Single c => c <> "]"%char /\ c <> "-"%char
  | Span lo hi => lo <> "]"%char /\ lo <> "-"%char /\ hi <> "]"%char /\ code lo < 128 /\ code hi < 128
  end.

Definition token_wf (t : token) : Prop :=
  match t with
  | TDigit pc => digit_floor pc <> None
  | TClass items => Forall item_wf items
  | TChar c => special c = false
  end.

Definition item_ok (d : ascii) (i : class_item) : bool :=
  match i with
  | Single c => code d =? code c
  | Span lo hi => (code lo <=? code d) && (code d <=? code hi)
  end.

Definition token_ok (t : token) (d : ascii) : bool :=
  match t with
  | TDigit pc => (default 0 (digit_floor pc) <=? code d) && (code d <=? 57)
  | TClass items => existsb (item_ok d) items
  | TChar c => code d =? code c
  end.

Definition show_item (i : class_item) (rest : string) : string :=
  match i with
  | Single c => String c rest
  | Span lo hi => String lo (String "-" (String hi rest))
  end.

Definition show_items (items : list class_item) : string := foldr show_item EmptyString items.

Definition show_token (t : token) (rest : string) : string :=
  match t with
  | TDigit pc => String pc rest
  | TClass items => String "[" (show_items items ++ String "]" rest)
  | TChar c => String c rest
  end.

Definition show_pattern (ts : list token) : string := foldr show_token EmptyString ts.

(** The reference: position by position, then the lengths; a dash behind the last
    digit counts as one digit too many. *)
Fixpoint chars (s : string) : list ascii :=
  match s with EmptyString => [] | String c s => c :: chars s end.

Definition dialled (d : string) : list ascii :=
  filter (fun c => c <> "-"%char) (chars d).

Fixpoint ends_in_dash (d : string) : bool :=
  match d with
  | EmptyString => false
  | String c EmptyString => char_eqb c "-"
  | String _ d => ends_in_dash d
  end.

Definition tokens_match (d : string) (ts : list token) : extension_match :=
  let ds := dialled d in
  if forallb (fun '(t, c) => token_ok t c) (zip ts ds) then
    match (length ds ?= length ts)%nat with
    | Lt => EXTENSION_MATCH_INCOMPLETE
    | Eq => if ends_in_dash d then EXTENSION_MATCH_OVERLENGTH else EXTENSION_MATCH_EXACT
    | Gt => EXTENSION_MATCH_OVERLENGTH
    end
  else EXTENSION_MATCH_FAILURE.

Lemma schar_signed c : schar c = if code c <? 128 then code c else code c - 256.
Proof. destruct c as [[] [] [] [] [] [] [] []]; reflexivity. Qed.

Lemma in_range_code d lo hi : code lo < 128 -> code hi < 128 ->
  in_range d lo hi = (code lo <=? code d) && (code d <=? code hi).
Proof.
  intros Hl Hh. unfold in_range. rewrite !schar_signed. pose proof (code_bound d). pose proof (code_bound lo).
  rewrite (proj2 (Z.ltb_lt _ _) Hl), (proj2 (Z.ltb_lt _ _) Hh). apply eq_true_iff_eq.
  destruct (Z.ltb_spec (code d) 128); lia.
Qed.

Lemma char_neq_eqb c d : c <> d -> char_eqb c d = false.
Proof. intros H. apply not_true_iff_false. by rewrite char_eqb_eq. Qed.

Lemma class_match_single d c items : Forall item_wf items ->
  class_match d (String c (show_items items)) =
  if char_eqb d c then true else class_match d (show_items items).
Proof.
  destruct 1 as [|[c1|lo hi] items Hi Hw]; [done| |]; cbn [show_items foldr show_item].
  - destruct Hi as [_ Hd]. cbn [class_match]. destruct (foldr show_item EmptyString items); [done|].
    by rewrite (char_neq_eqb _ _ Hd).
  - destruct Hi as (_ & Hd & _). cbn [class_match]. by rewrite (char_neq_eqb _ _ Hd).
Qed.

(** The loop over the text of a bracket expression finds what it lists. *)
Lemma class_match_items d items : Forall item_wf items ->
  class_match d (show_items items) = existsb (item_ok d) items.
Proof.
  induction 1 as [|i items Hi Hw IH]; [done|]. cbn [show_items foldr existsb]. fold (show_items items).
  destruct i as [c|lo hi]; cbn [show_item item_ok].
  - rewrite <- IH, class_match_single by done. by unfold char_eqb.
  - destruct Hi as (_ & _ & _ & Hl & Hh). cbn [class_match]. rewrite char_eqb_refl, in_range_code by done.
    rewrite IH. by destruct ((code lo <=? code d) && (code d <=? code hi)).
Qed.

Lemma strcut_class items rest : Forall item_wf items ->
  strcut "]" (show_items items ++ String "]" rest) = (show_items items, Some rest).
Proof.
  induction 1 as [|i items Hi Hw IH]; [done|]. cbn [show_items foldr]. fold (show_items items).
  destruct i as [c|lo hi]; cbn [show_item]; rewrite !append_cons; cbn [strcut]; rewrite IH.
  - destruct Hi as [Hc _]. by rewrite (char_neq_eqb _ _ Hc).
  - destruct Hi as (Hlo & _ & Hhi & _). rewrite (char_neq_eqb _ _ Hlo), (char_neq_eqb _ _ Hhi).
    by rewrite (char_neq_eqb "-" "]").
Qed.

(** The step for one token takes the digit it allows. *)
Lemma pattern_step_token t d rest :
  token_wf t ->
  exists pc p', show_token t rest = String pc p' /\ char_eqb pc "/" = false /\
    char_eqb pc "!" = false /\
    pattern_step d pc p' =
      if token_ok t d then Take rest else Stop EXTENSION_MATCH_FAILURE.
Proof.
  destruct t as [pc|items|c]; cbn [token_wf show_token token_ok]; intros Hw.
  - exists pc, rest. unfold digit_floor in *. unfold pattern_step.
    assert (toupper pc = "X"%char \/ toupper pc = "Z"%char \/ toupper pc = "N"%char) as Hu.
    { destruct (toupper pc) as [[] [] [] [] [] [] [] []]; auto; done. }
    assert (char_eqb pc "/" = false /\ char_eqb pc "!" = false) as [E1 E2].
    { split; apply not_true_iff_false; intros E; apply char_eqb_eq in E as ->;
        by destruct Hu as [?|[?|?]]. }
    split_and!; [done..|].
    assert (forall lo, 0 <= lo -> (lo <=? code d) && (code d <=? 57)
                       = negb ((schar d <? lo) || (57 <? schar d))) as Hr.
    { intros lo Hlo. rewrite schar_signed. pose proof (code_bound d). destruct (Z.ltb_spec (code d) 128); lia. }
    rewrite Hr by (destruct Hu as [->|[->| ->]]; cbn; lia). destruct Hu as [->|[->| ->]]; cbn -[schar Z.ltb Z.leb];
      by destruct (schar d <? 48), (schar d <? 49), (schar d <? 50), (57 <? schar d).
  - eexists _, _. split_and!; [done..|]. unfold pattern_step. cbn -[class_match strcut].
    by rewrite strcut_class, class_match_items.
  - exists c, rest. split_and!; [done|..].
    + apply not_true_iff_false. intros E. by apply char_eqb_eq in E as ->.
    + apply not_true_iff_false. intros E. by apply char_eqb_eq in E as ->.
    + unfold special in Hw. cbn [existsb] in Hw. unfold pattern_step.
      repeat match type of Hw with
      | _ || _ = false => let E := fresh in apply orb_false_iff in Hw as [E Hw]; rewrite ?E
      end. done.
Qed.

Lemma skip_dashes_dialled d :
  match skip_dashes d with
  | EmptyString => dialled d = []
  | String dc d' => dialled d = dc :: dialled d'
  end.
Proof.
  unfold dialled. induction d as [|c d IH]; [done|].
  destruct (char_eqb c "-") eqn:E.
  - apply char_eqb_eq in E as ->. exact IH.
  - assert (skip_dashes (String c d) = String c d) as ->.
    { destruct c as [[] [] [] [] [] [] [] []]; done. }
    cbn [chars]. rewrite filter_cons_True; [done|]. intros ->. done.
Qed.

Lemma dialled_skip d : dialled (skip_dashes d) = dialled d.
Proof.
  unfold dialled. induction d as [|c d IH]; [done|].
  destruct (char_eqb c "-") eqn:E.
  - apply char_eqb_eq in E as ->. exact IH.
  - destruct c as [[] [] [] [] [] [] [] []]; done.
Qed.

Lemma skip_dashes_twice d : skip_dashes (skip_dashes d) = skip_dashes d.
Proof.
  induction d as [|c d IH]; [done|]. destruct (char_eqb c "-") eqn:E.
  - apply char_eqb_eq in E as ->. exact IH.
  - destruct c as [[] [] [] [] [] [] [] []]; done.
Qed.

(** The rest behind the next digit ends in a dash as the whole does. *)
Lemma ends_in_dash_skip d dc d' : skip_dashes d = String dc d' -> ends_in_dash d' = ends_in_dash d.
Proof.
  revert dc d'. induction d as [|c d IH]; intros dc d'; [done|].
  destruct (char_eqb c "-") eqn:E.
  - apply char_eqb_eq in E as ->. change (skip_dashes (String "-" d)) with (skip_dashes d). intros H.
    rewrite (IH _ _ H). destruct d; [done|]. reflexivity.
  - assert (skip_dashes (String c d) = String c d) as ->.
    { destruct c as [[] [] [] [] [] [] [] []]; done. }
    intros [= <- <-]. destruct d; [simpl; by rewrite E|done].
Qed.

(** What is left consists of dashes. *)
Lemma only_dashes c d : skip_dashes (String c d) = EmptyString -> ends_in_dash (String c d) = true.
Proof.
  revert c. induction d as [|e d IH]; intros c H; destruct (char_eqb c "-") eqn:E;
    try (destruct c as [[] [] [] [] [] [] [] []]; done).
  apply char_eqb_eq in E as ->. apply (IH e H).
Qed.

Lemma match_loop_tokens fuel d ts :
  Forall token_wf ts -> (String.length (show_pattern ts) < fuel)%nat ->
  match_loop fuel d (show_pattern ts) = Some (tokens_match d ts).
Proof.
  intros Hw. revert fuel d. induction Hw as [|t ts Ht Hw IH]; intros fuel d Hf;
    (destruct fuel as [|fuel]; [simpl in Hf; lia|]); unfold tokens_match.
  { destruct d as [|c d]; [done|]. cbn [show_pattern foldr match_loop match_end pattern_ends].
    pose proof (skip_dashes_dialled (String c d)) as Hd.
    destruct (skip_dashes (String c d)) as [|dc d'] eqn:Hs; rewrite Hd; [|done].
    by rewrite (only_dashes c d Hs). }
  cbn [show_pattern foldr] in *. change (foldr show_token EmptyString ts) with (show_pattern ts) in *.
  pose proof (skip_dashes_dialled d) as Hd. destruct d as [|c d].
  - destruct (pattern_step_token t "0" (show_pattern ts) Ht) as (pc & p' & -> & E1 & E2 & _).
    cbn [match_loop]. unfold match_end. cbn [pattern_ends]. rewrite E1.
    destruct pc as [[] [] [] [] [] [] [] []]; done.
  - destruct (skip_dashes (String c d)) as [|dc d'] eqn:Hs; rewrite Hd.
    + destruct (pattern_step_token t "0" (show_pattern ts) Ht) as (pc & p' & -> & E1 & E2 & _).
      cbn [match_loop]. rewrite E1, Hs. unfold match_end. cbn [pattern_ends]. rewrite E1.
      destruct pc as [[] [] [] [] [] [] [] []]; done.
    + destruct (pattern_step_token t dc (show_pattern ts) Ht) as (pc & p' & Hp & E1 & _ & Hst).
      pose proof (pattern_step_shrinks dc pc p' (show_pattern ts)) as Hl.
      rewrite Hp in *. cbn [match_loop String.length] in *. rewrite E1, Hs, Hst.
      cbn [zip zip_with forallb]. destruct (token_ok t dc) eqn:Eok; [|done].
      specialize (Hl ltac:(auto)). rewrite IH by lia. unfold tokens_match.
      by rewrite (ends_in_dash_skip _ _ _ Hs).
Qed.

(** C39: a pattern of digit classes, bracket expressions and plain characters is
    matched position by position with the dialled digits, dashes left out: [X], [Z] and
    [N] take the digits up to 9 from 0, 1 and 2, a bracket expression the characters it
    lists and those of the ranges it lists, any other character itself.  The first position
    that disagrees is a failure, and where none does the answer is given by the lengths
    alone, but for a dash behind the last digit of a number of the right length, which
    makes it overlong.  The number has a character that is not a dash; the classes list
    ASCII characters, no closing bracket, and a dash only as the end of a range. *)
Theorem pattern_match_positions destination ts :
  dialled destination <> [] -> Forall token_wf ts ->
  cw_extension_pattern_match destination (String "_" (show_pattern ts)) = tokens_match destination ts.
Proof.
  intros Hd Hw. destruct destination as [|c d]; [done|].
  pose proof (pattern_match_total (String c d) (String "_" (show_pattern ts))) as H.
  rewrite pattern_match_pattern in H. pose proof (skip_dashes_dialled (String c d)) as Hs.
  destruct (skip_dashes (String c d)) as [|dc d'] eqn:E; [done|].
  rewrite match_loop_tokens in H by (done || lia). injection H as <-. unfold tokens_match.
  assert (skip_dashes (String dc d') = String dc d') as Hk by (rewrite <- E; apply skip_dashes_twice).
  by rewrite <- (dialled_skip (String c d)), E, <- (ends_in_dash_skip _ _ _ E), <- (ends_in_dash_skip _ _ _ Hk).
Qed.

Lemma pattern_match_positions_witness :
  cw_extension_pattern_match "020-7" "_0[1-37]XNz" = EXTENSION_MATCH_INCOMPLETE.
Proof.
  exact (pattern_match_positions "020-7"
    [TChar "0"; TClass [Span "1" "3"; Single "7"]; TDigit "X"; TDigit "N"; TDigit "z"] ltac:(done)
    ltac:(repeat constructor; done)).
Defined.
