(* ===== verification/Timing.v ===== *)
(** * Time restrictions of the dialplan (corelib/pbx.c)

    An include or a [GotoIfTime] carries the text [times,days,mdays,months];
    [cw_build_timing] turns it into bit masks and [cw_check_timing] looks the
    local time up in them.  The loops over the masks are cut by fuel, one round
    per position of the dial.  [Calendar] says what a restriction means, in a
    grammar of its own, and that the code reads it so. *)

From S2P Require Import Prelude CStr.

Record cw_timing := {
  hastime : Z;
  monthmask : Z;
  daymask : Z;
  dowmask : Z;
  minmask : list Z;
}.

#[export] Instance cw_timing_eta : Eta cw_timing :=
  fun r => {| hastime := hastime r; monthmask := monthmask r; daymask := daymask r;
              dowmask := dowmask r; minmask := minmask r |}.

(** [struct tm], the fields the code reads. *)
Record tm := {
  tm_min : Z;
  tm_hour : Z;
  tm_mday : Z;
  tm_mon : Z;
  tm_wday : Z;
}.

(** ** [sscanf] *)

Fixpoint skip_digits (s : string) : string :=
  match s with
  | String c s' => if isdigit c then skip_digits s' else s
  | EmptyString => EmptyString
  end.

Definition starts_digit (s : string) : bool :=
  match s with String c _ => isdigit c | EmptyString => false end.

(** The conversion [%d], with what is left of the input. *)
Definition scan_int (s : string) : option (Z * string) :=
  let s' := skip_spaces s in
  let body := match s' with
              | String "-" r | String "+" r => r
              | _ => s'
              end in
  if starts_digit body then Some (atoi s', skip_digits body) else None.

(** [sscanf(s, "%d:%d", &a, &b) == 2] *)
Definition scan_time (s : string) : option (Z * Z) :=
  match scan_int s with
  | Some (a, String ":" r) =>
    match scan_int r with
    | Some (b, _) => Some (a, b)
    | None => None
    end
  | _ => None
  end.

(** ** The text of a field *)

(** A field restricts nothing, or to the positions from [s] to [e] around the
    dial, or is not understood. *)
Inductive range :=
  | Always
  | Between (s e : Z)
  | Never.

(** [cw_strlen_zero(s) || !strcmp(s, "*")] *)
Definition is_star (s : string) : bool :=
  match s with
  | EmptyString => true
  | String "*" EmptyString => true
  | _ => false
  end.

Fixpoint skip_nondigits (s : string) : string :=
  match s with
  | String c s' => if isdigit c then s else skip_nondigits s'
  | EmptyString => EmptyString
  end.

(** The reading of the times, in units of two minutes. *)
Definition timerange (times : string) : range :=
  if is_star times then Always
  else
    match strcut "-" times with
    | (_, None) => Never
    | (times, Some e) =>
      match skip_nondigits e with
      | EmptyString => Never
      | e =>
        match scan_time times with
        | None => Never
        | Some (s1, s2) =>
          match scan_time e with
          | None => Never
          | Some (e1, e2) =>
            let s1 := s32 (s1 * 30 + Z.quot s2 2) in
            if (s1 <? 0) || (s1 >=? 24 * 30) then Never
            else
              let e1 := s32 (e1 * 30 + Z.quot e2 2) in
              if (e1 <? 0) || (e1 >=? 24 * 30) then Never else Between s1 e1
          end
        end
      end
    end.

Definition days : list string := ["sun"; "mon"; "tue"; "wed"; "thu"; "fri"; "sat"].

Definition months : list string :=
  ["jan"; "feb"; "mar"; "apr"; "may"; "jun"; "jul"; "aug"; "sep"; "oct"; "nov"; "dec"].

(** [while (s < n && strcasecmp(name, names[s])) s++], [None] for [s >= n]. *)
Fixpoint name_index (name : string) (names : list string) : option Z :=
  match names with
  | [] => None
  | x :: names => if strcaseeq name x then Some 0 else Z.succ <$> name_index name names
  end.

Definition dowrange (dow : string) : range :=
  if is_star dow then Always
  else
    let '(dow, c) := strcut "-" dow in
    match name_index dow days with
    | None => Never
    | Some s =>
      match c with
      | Some c =>
        match name_index c days with
        | None => Never
        | Some e => Between s e
        end
      | None => Between s s
      end
    end.

Definition scan_day (day : string) : option Z :=
  match scan_int day with
  | Some (s, _) => if (s <? 1) || (s >? 31) then None else Some (s - 1)
  | None => None
  end.

Definition dayrange (day : string) : range :=
  if is_star day then Always
  else
    let '(day, c) := strcut "-" day in
    match scan_day day with
    | None => Never
    | Some s =>
      match c with
      | Some c =>
        match scan_day c with
        | None => Never
        | Some e => Between s e
        end
      | None => Between s s
      end
    end.

(** The end of the range is looked up by the name of its start ([mon], not
    [c]). *)
Definition monthrange (mon : string) : range :=
  if is_star mon then Always
  else
    let '(mon, c) := strcut "-" mon in
    match name_index mon months with
    | None => Never
    | Some s =>
      match c with
      | Some c =>
        match name_index mon months with
        | None => Never
        | Some e => Between s e
        end
      | None => Between s s
      end
    end.

(** ** The masks *)

(** [for (x = s; x != e; x = (x + 1) % n) set(x);] and the last one. *)
Fixpoint dial_loop {A} (set : Z -> A -> A) (fuel : nat) (n x e : Z) (a : A) : option A :=
  if x =? e then Some (set x a)
  else match fuel with
       | O => None
       | S fuel => dial_loop set fuel n ((x + 1) mod n) e (set x a)
       end.

(** [mask |= 1 << x] *)
Definition set_bit (x mask : Z) : Z := Z.lor mask (Z.shiftl 1 x).

Definition range_mask (n all : Z) (r : range) : option Z :=
  match r with
  | Always => Some all
  | Never => Some 0
  | Between s e => dial_loop set_bit (Z.to_nat n) n s e 0
  end.

Definition get_dow (dow : string) : option Z := range_mask 7 (2 ^ 7 - 1) (dowrange dow).

Definition get_day (day : string) : option Z :=
  range_mask 31 (2 ^ 30 + (2 ^ 30 - 1)) (dayrange day).

Definition get_month (mon : string) : option Z :=
  range_mask 12 (2 ^ 12 - 1) (monthrange mon).

(** [minmask[x / 30] |= 1 << (x % 30)] *)
Definition set_minute (x : Z) (m : list Z) : list Z :=
  alter (fun w => Z.lor w (Z.shiftl 1 (x mod 30))) (Z.to_nat (x / 30)) m.

Definition get_timerange (times : string) : option (list Z) :=
  match timerange times with
  | Always => Some (replicate 24 (2 ^ 30 - 1))
  | Never => Some (replicate 24 0)
  | Between s e => dial_loop set_minute (Z.to_nat (24 * 30)) (24 * 30) s e (replicate 24 0)
  end.

(** ** The operations *)

(** [FIND_NEXT] is [strcut ","]; the result is the return value and the
    structure, [None] a loop that does not end. *)
Definition cw_build_timing (i : cw_timing) (info_in : string) : option (Z * cw_timing) :=
  match info_in with
  | EmptyString => Some (0, i)
  | _ =>
    let info := strtake 255 info_in in
    let i := i <| monthmask := 2 ^ 12 - 1 |> <| daymask := 2 ^ 30 - 1 + 2 ^ 30 |>
               <| dowmask := 2 ^ 7 - 1 |> in
    let '(info, c) := strcut "," info in
    mins ← get_timerange info;
    let i := i <| minmask := mins |> in
    match c with
    | None => Some (1, i)
    | Some info =>
      let '(info, c) := strcut "," info in
      dow ← get_dow info;
      let i := i <| dowmask := dow |> in
      match c with
      | None => Some (1, i)
      | Some info =>
        let '(info, c) := strcut "," info in
        day ← get_day info;
        let i := i <| daymask := day |> in
        match c with
        | None => Some (1, i)
        | Some info =>
          let '(info, _) := strcut "," info in
          month ← get_month info;
          Some (1, i <| monthmask := month |>)
        end
      end
    end
  end.

Definition has_bit (mask x : Z) : bool := negb (Z.land mask (Z.shiftl 1 x) =? 0).

(** The local time is an argument. *)
Definition cw_check_timing (i : cw_timing) (now : tm) : bool :=
  if negb (has_bit (monthmask i) (tm_mon now)) then false
  else if negb (has_bit (daymask i) (tm_mday now - 1)) then false
  else if negb (has_bit (dowmask i) (tm_wday now)) then false
  else if (tm_hour now <? 0) || (tm_hour now >? 23) then false
  else has_bit (nth (Z.to_nat (tm_hour now)) (minmask i) 0) (Z.quot (tm_min now) 2).

(** ** Ranges around the dial *)

(** [k] is met on the way from [s] to [e]; the way may pass the end of the
    dial. *)
Definition circ (s e k : Z) : bool :=
  if s <=? e then (s <=? k) && (k <=? e) else (s <=? k) || (k <=? e).

Definition allows (r : range) (k : Z) : bool :=
  match r with
  | Always => true
  | Between s e => circ s e k
  | Never => false
  end.

(** A field whose range is on a dial of [n] positions. *)
Definition range_wf (n : Z) (r : range) : Prop :=
  match r with
  | Between s e => 0 <= s < n /\ 0 <= e < n
  | _ => True
  end.

Lemma circ_same x k : circ x x k = (k =? x).
Proof.
  unfold circ. rewrite Z.leb_refl. apply eq_true_iff_eq.
  rewrite andb_true_iff, !Z.leb_le, Z.eqb_eq. lia.
Qed.

Lemma circ_step n x e k :
  0 <= x < n -> 0 <= e < n -> 0 <= k < n -> x <> e ->
  circ x e k = (k =? x) || circ ((x + 1) mod n) e k.
Proof.
  intros Hx He Hk Hne. apply eq_true_iff_eq. unfold circ.
  destruct (Z.eq_dec (x + 1) n) as [Hn|Hn].
  - rewrite Hn, Z_mod_same_full.
    destruct (Z.leb_spec x e), (Z.leb_spec 0 e); lia.
  - rewrite (Z.mod_small (x + 1)) by lia.
    destruct (Z.leb_spec x e), (Z.leb_spec (x + 1) e); lia.
Qed.

Section dial.
Context {A : Type} (set : Z -> A -> A) (get : A -> Z -> bool) (inv : A -> Prop) (n : Z).
Hypothesis set_inv : forall x a, 0 <= x < n -> inv a -> inv (set x a).
Hypothesis get_set : forall x a k, 0 <= x < n -> 0 <= k < n -> inv a ->
  get (set x a) k = get a k || (k =? x).

(** The loop ends, and has set the positions of the range and no other. *)
Lemma dial_loop_spec fuel x e a :
  0 <= x < n -> 0 <= e < n -> inv a -> (e - x) mod n <= Z.of_nat fuel ->
  exists a', dial_loop set fuel n x e a = Some a' /\ inv a' /\
    forall k, 0 <= k < n -> get a' k = get a k || circ x e k.
Proof.
  revert x a. induction fuel as [|fuel IH]; intros x a Hx He Ha Hf; cbn [dial_loop];
    destruct (Z.eqb_spec x e) as [->|Hne].
  1, 3: eexists; split_and!; [done|auto|]; intros k Hk; by rewrite circ_same, get_set.
  - exfalso. assert ((e - x) mod n = 0) as H by (pose proof (Z.mod_pos_bound (e - x) n); lia).
    apply Z.mod_divide in H as [q Hq]; [|lia].
    assert (q = 0) by nia. lia.
  - destruct (IH ((x + 1) mod n) (set x a)) as (a' & -> & Ha' & Hk).
    + apply Z.mod_pos_bound. lia.
    + done.
    + auto.
    + rewrite Zminus_mod_idemp_r.
      replace (e - (x + 1)) with (e - x - 1) by lia.
      assert (0 < (e - x) mod n) as Hpos.
      { destruct (Z.mod_pos_bound (e - x) n) as [H0 _]; [lia|].
        destruct (Z.eq_dec ((e - x) mod n) 0) as [H|]; [|lia].
        apply Z.mod_divide in H as [q Hq]; [|lia]. assert (q = 0) by nia. lia. }
      rewrite <- Zminus_mod_idemp_l, Z.mod_small; [lia|].
      pose proof (Z.mod_pos_bound (e - x) n). lia.
    + exists a'. split_and!; [done..|]. intros k Hk0.
      rewrite Hk, get_set, (circ_step n x) by done. by rewrite orb_assoc.
Qed.

Lemma dial_loop_full s e a :
  0 <= s < n -> 0 <= e < n -> inv a ->
  exists a', dial_loop set (Z.to_nat n) n s e a = Some a' /\ inv a' /\
    forall k, 0 <= k < n -> get a' k = get a k || circ s e k.
Proof.
  intros. apply dial_loop_spec; [done..|].
  pose proof (Z.mod_pos_bound (e - s) n). lia.
Qed.
End dial.

Lemma set_bit_testbit x mask k : 0 <= x -> 0 <= k ->
  Z.testbit (set_bit x mask) k = Z.testbit mask k || (k =? x).
Proof.
  intros. unfold set_bit. rewrite Z.lor_spec, Z.shiftl_1_l, Z.pow2_bits_eqb by lia.
  by rewrite Z.eqb_sym.
Qed.

Lemma has_bit_testbit mask x : 0 <= x -> has_bit mask x = Z.testbit mask x.
Proof. intros Hx. unfold has_bit. rewrite Z.shiftl_1_l. by apply land_pow2_testbit. Qed.

Lemma range_mask_spec n all r :
  range_wf n r -> (forall k, 0 <= k < n -> Z.testbit all k = true) ->
  exists mask, range_mask n all r = Some mask /\
    forall k, 0 <= k < n -> has_bit mask k = allows r k.
Proof.
  intros Hr Hall. destruct r as [|s e|]; simpl in *.
  - eexists. split; [done|]. intros k Hk. rewrite has_bit_testbit by lia. auto.
  - destruct (dial_loop_full set_bit Z.testbit (fun _ => True) n) with (s := s) (e := e) (a := 0)
      as (mask & -> & _ & Hk); [done|intros; apply set_bit_testbit; lia|lia|lia|done|].
    eexists. split; [done|]. intros k Hk0. rewrite has_bit_testbit, Hk by lia.
    by rewrite Z.bits_0.
  - eexists. split; [done|]. intros k Hk. rewrite has_bit_testbit by lia. apply Z.bits_0.
Qed.

(** ** The minutes *)

Definition minute (m : list Z) (k : Z) : bool :=
  Z.testbit (nth (Z.to_nat (k / 30)) m 0) (k mod 30).

Lemma set_minute_spec x m k :
  0 <= x < 720 -> 0 <= k < 720 -> length m = 24%nat ->
  minute (set_minute x m) k = minute m k || (k =? x).
Proof.
  intros Hx Hk Hm. unfold minute, set_minute.
  pose proof (Z.div_mod x 30) as Dx. pose proof (Z.div_mod k 30) as Dk.
  pose proof (Z.mod_pos_bound x 30). pose proof (Z.mod_pos_bound k 30).
  assert (0 <= k / 30 < 24 /\ 0 <= x / 30 < 24) as [Bk Bx]
    by (split; (split; [apply Z.div_pos|apply Z.div_lt_upper_bound]; lia)).
  rewrite !nth_lookup.
  destruct (Z.eq_dec (x / 30) (k / 30)) as [E|E].
  - rewrite E, list_lookup_alter_eq.
    destruct (lookup_lt_is_Some_2 m (Z.to_nat (k / 30))) as [w ->]; [lia|]. simpl.
    rewrite (set_bit_testbit (x mod 30) w) by lia. f_equal. lia.
  - rewrite list_lookup_alter_ne by lia.
    assert ((k =? x) = false) as -> by (apply Z.eqb_neq; congruence).
    by rewrite orb_false_r.
Qed.

Lemma minute_replicate w k :
  0 <= k < 720 -> minute (replicate 24 w) k = Z.testbit w (k mod 30).
Proof.
  intros Hk. unfold minute. rewrite nth_lookup, lookup_replicate_2; [done|].
  assert (0 <= k / 30 < 24)
    by (split; [apply Z.div_pos|apply Z.div_lt_upper_bound]; lia). lia.
Qed.

Lemma ones_testbit n k : 0 <= k < n -> Z.testbit (2 ^ n - 1) k = true.
Proof.
  intros. replace (2 ^ n - 1) with (Z.ones n) by (rewrite Z.ones_equiv; lia).
  apply Z.ones_spec_low. lia.
Qed.

Lemma timerange_wf times : range_wf 720 (timerange times).
Proof.
  unfold timerange. destruct (is_star times); [done|].
  destruct (strcut "-" times) as [t [e|]]; [|done].
  destruct (skip_nondigits e) as [|c r]; [done|].
  destruct (scan_time t) as [[s1 s2]|]; [|done].
  destruct (scan_time (String c r)) as [[e1 e2]|]; [|done].
  repeat (case_if; [done|]). b2p. simpl. lia.
Qed.

Lemma name_index_bound name names i :
  name_index name names = Some i -> 0 <= i < Z.of_nat (length names).
Proof.
  revert i. induction names as [|x names IH]; intros i; simpl; [done|].
  destruct (strcaseeq name x); [intros [= <-]; lia|].
  destruct (name_index name names) as [j|]; simpl; [|done].
  intros [= <-]. specialize (IH j eq_refl). lia.
Qed.

Lemma scan_day_bound day s : scan_day day = Some s -> 0 <= s < 31.
Proof.
  unfold scan_day. destruct (scan_int day) as [[v r]|]; [|done].
  case_if; [done|]. intros [= <-]. b2p. lia.
Qed.

#[local] Ltac field_wf :=
  case_if; [done|]; destruct (strcut _ _) as [? []];
  repeat match goal with
  | |- context [match ?o with Some _ => _ | None => _ end] =>
    let E := fresh in destruct o eqn:E
  end; try done; simpl;
  repeat match goal with
  | H : name_index _ _ = Some _ |- _ => apply name_index_bound in H; simpl in H
  | H : scan_day _ = Some _ |- _ => apply scan_day_bound in H
  end; lia.

Lemma dowrange_wf dow : range_wf 7 (dowrange dow).
Proof. unfold dowrange. field_wf. Qed.

Lemma dayrange_wf day : range_wf 31 (dayrange day).
Proof. unfold dayrange. field_wf. Qed.

Lemma monthrange_wf mon : range_wf 12 (monthrange mon).
Proof. unfold monthrange. field_wf. Qed.

Lemma get_timerange_spec times :
  exists m, get_timerange times = Some m /\
    forall k, 0 <= k < 720 -> minute m k = allows (timerange times) k.
Proof.
  unfold get_timerange. pose proof (timerange_wf times) as Hw.
  destruct (timerange times) as [|s e|]; simpl in Hw.
  - eexists. split; [done|]. intros k Hk. rewrite minute_replicate by done.
    apply ones_testbit. apply Z.mod_pos_bound. lia.
  - destruct (dial_loop_full set_minute minute (fun m => length m = 24%nat) 720)
      with (s := s) (e := e) (a := replicate 24 0) as (m & H & _ & Hk).
    + intros x a _ Ha. unfold set_minute. by rewrite length_alter.
    + intros. by apply set_minute_spec.
    + lia.
    + lia.
    + done.
    + exists m. split; [exact H|]. intros k Hk0. rewrite Hk by done.
      by rewrite minute_replicate, Z.bits_0.
  - eexists. split; [done|]. intros k Hk. rewrite minute_replicate by done. apply Z.bits_0.
Qed.

Lemma get_dow_spec dow : exists mask, get_dow dow = Some mask /\
  forall k, 0 <= k < 7 -> has_bit mask k = allows (dowrange dow) k.
Proof. apply range_mask_spec; [apply dowrange_wf|apply ones_testbit]. Qed.

Lemma get_day_spec day : exists mask, get_day day = Some mask /\
  forall k, 0 <= k < 31 -> has_bit mask k = allows (dayrange day) k.
Proof. apply range_mask_spec; [apply dayrange_wf|apply (ones_testbit 31)]. Qed.

Lemma get_month_spec mon : exists mask, get_month mon = Some mask /\
  forall k, 0 <= k < 12 -> has_bit mask k = allows (monthrange mon) k.
Proof. apply range_mask_spec; [apply monthrange_wf|apply ones_testbit]. Qed.

(** ** The fields, as the readers read them *)

Record tm_wf (now : tm) : Prop := {
  wf_min : 0 <= tm_min now < 60;
  wf_hour : 0 <= tm_hour now < 24;
  wf_mday : 1 <= tm_mday now <= 31;
  wf_mon : 0 <= tm_mon now < 12;
  wf_wday : 0 <= tm_wday now < 7;
}.

(** A field that is not there restricts nothing. *)
Definition field_allows (read : string -> range) (f : option string) (k : Z) : bool :=
  match f with None => true | Some f => allows (read f) k end.

(** The four fields of the text, each a range around its dial: two-minute
    slots of the day, days of the week, days of the month, months. *)
Definition text_allows (info : string) (now : tm) : bool :=
  let f := strsplit "," (strtake 255 info) in
  field_allows timerange (f !! 0%nat) (tm_hour now * 30 + tm_min now / 2) &&
  field_allows dowrange (f !! 1%nat) (tm_wday now) &&
  field_allows dayrange (f !! 2%nat) (tm_mday now - 1) &&
  field_allows monthrange (f !! 3%nat) (tm_mon now).

Lemma check_timing_masks i now :
  tm_wf now ->
  cw_check_timing i now =
    minute (minmask i) (tm_hour now * 30 + tm_min now / 2) &&
    has_bit (dowmask i) (tm_wday now) && has_bit (daymask i) (tm_mday now - 1) &&
    has_bit (monthmask i) (tm_mon now).
Proof.
  intros []. unfold cw_check_timing.
  rewrite (Z.quot_div_nonneg (tm_min now)) by lia.
  assert (0 <= tm_min now / 2 < 30)
    by (split; [apply Z.div_pos|apply Z.div_lt_upper_bound]; lia).
  rewrite (has_bit_testbit (nth _ _ _)) by lia.
  unfold minute. rewrite Z.div_add_l, (Z.div_small (_ / 2) 30), Z.add_0_r by lia.
  rewrite Z.add_comm, Z.mod_add, (Z.mod_small (_ / 2) 30) by lia.
  assert ((tm_hour now <? 0) || (tm_hour now >? 23) = false) as -> by lia.
  destruct (has_bit (monthmask i) _), (has_bit (daymask i) _), (has_bit (dowmask i) _);
    simpl; by rewrite ?andb_true_r, ?andb_false_r.
Qed.

Lemma slot_bound now : tm_wf now -> 0 <= tm_hour now * 30 + tm_min now / 2 < 720.
Proof.
  intros []. assert (0 <= tm_min now / 2 < 30)
    by (split; [apply Z.div_pos|apply Z.div_lt_upper_bound]; lia). lia.
Qed.

(** The masks that are not read from the text allow everything. *)
Lemma default_masks now :
  tm_wf now ->
  has_bit (2 ^ 12 - 1) (tm_mon now) = true /\
  has_bit (2 ^ 30 - 1 + 2 ^ 30) (tm_mday now - 1) = true /\
  has_bit (2 ^ 7 - 1) (tm_wday now) = true.
Proof.
  intros []. rewrite !has_bit_testbit by lia.
  split_and!; [apply ones_testbit; lia| |apply ones_testbit; lia].
  apply (ones_testbit 31). lia.
Qed.

Lemma build_timing_spec i info now :
  info <> EmptyString -> tm_wf now ->
  exists i', cw_build_timing i info = Some (1, i') /\
    cw_check_timing i' now = text_allows info now.
Proof.
  intros Hi Hn. unfold cw_build_timing, text_allows.
  destruct info as [|c0 info]; [done|].
  pose proof (slot_bound now Hn) as Hs. destruct (default_masks now Hn) as (Dm & Dd & Dw).
  assert (Hn' := Hn). destruct Hn' as [_ _ Hd Hm Hw].
  rewrite strsplit_cut. destruct (strcut "," (strtake 255 _)) as [t c1].
  destruct (get_timerange_spec t) as (mins & -> & Ht).
  destruct c1 as [c1|].
  2: { eexists; split; [done|]. rewrite check_timing_masks by done. simpl in *.
       by rewrite Ht, Dm, Dd, Dw. }
  rewrite strsplit_cut. destruct (strcut "," c1) as [dow c2].
  destruct (get_dow_spec dow) as (dows & Edow & Hdow).
  destruct c2 as [c2|].
  2: { rewrite Edow. eexists; split; [done|]. rewrite check_timing_masks by done. simpl in *.
       by rewrite Ht, Dm, Dd, Hdow. }
  rewrite strsplit_cut. destruct (strcut "," c2) as [day c3].
  destruct (get_day_spec day) as (ds & Eday & Hday).
  destruct c3 as [c3|].
  2: { cbn [mbind option_bind]. rewrite Edow. cbn [mbind option_bind]. rewrite Eday.
       eexists; split; [done|]. rewrite check_timing_masks by done.
       simpl in *. by rewrite Ht, Dm, Hday, Hdow by lia. }
  rewrite strsplit_cut. destruct (strcut "," c3) as [mon c4].
  destruct (get_month_spec mon) as (ms & Emon & Hmon).
  cbn [mbind option_bind]. rewrite Edow. cbn [mbind option_bind]. rewrite Eday.
  cbn [mbind option_bind]. rewrite Emon.
  eexists; split; [done|]. rewrite check_timing_masks by done. simpl in *.
  by rewrite Ht, Hmon, Hday, Hdow by lia.
Qed.

Definition no_timing : cw_timing :=
  {| hastime := 0; monthmask := 0; daymask := 0; dowmask := 0; minmask := replicate 24 0 |}.

(** Twenty past eight in the evening of Tuesday the 5th of March. *)
Definition some_evening : tm :=
  {| tm_min := 20; tm_hour := 20; tm_mday := 5; tm_mon := 2; tm_wday := 2 |}.

(** ** What a restriction means to those who write it

    A grammar of restrictions and their meaning on the calendar, neither of which
    uses the readers of the code.  The clock is told in minutes of the day, the
    code keeps it in steps of two minutes. *)

Module Calendar.

(** Digits, the most significant first. *)
Inductive decimal : string -> Z -> Prop :=
  | decimal_one d : 0 <= d < 10 -> decimal (String (chr (48 + d)) "") d
  | decimal_more s n d : decimal s n -> 0 <= d < 10 -> decimal (s ++ String (chr (48 + d)) "") (10 * n + d).

(** A name in which letters may be capital. *)
Inductive spelled : string -> string -> Prop :=
  | spelled_end : spelled "" ""
  | spelled_same c s t : spelled s t -> spelled (String c s) (String c t)
  | spelled_upper c s t : spelled s t -> spelled (String (toupper c) s) (String c t).

Inductive weekday := Sunday | Monday | Tuesday | Wednesday | Thursday | Friday | Saturday.

Definition weekday_name (d : weekday) : string :=
  match d with
  | Sunday => "sun" | Monday => "mon" | Tuesday => "tue" | Wednesday => "wed"
  | Thursday => "thu" | Friday => "fri" | Saturday => "sat"
  end.

(** [tm_wday] *)
Definition weekday_number (d : weekday) : Z :=
  match d with
  | Sunday => 0 | Monday => 1 | Tuesday => 2 | Wednesday => 3
  | Thursday => 4 | Friday => 5 | Saturday => 6
  end.

Inductive month :=
  | January | February | March | April | May | June
  | July | August | September | October | November | December.

Definition month_name (m : month) : string :=
  match m with
  | January => "jan" | February => "feb" | March => "mar" | April => "apr"
  | May => "may" | June => "jun" | July => "jul" | August => "aug"
  | September => "sep" | October => "oct" | November => "nov" | December => "dec"
  end.

(** [tm_mon] *)
Definition month_number (m : month) : Z :=
  match m with
  | January => 0 | February => 1 | March => 2 | April => 3
  | May => 4 | June => 5 | July => 6 | August => 7
  | September => 8 | October => 9 | November => 10 | December => 11
  end.

(** The minute of the day, written [hours:minutes]. *)
Definition clock_written (s : string) (minute : Z) : Prop :=
  exists a h b m, decimal a h /\ decimal b m /\ 0 <= h < 24 /\ 0 <= m < 60 /\
    s = (a ++ String ":" b)%string /\ minute = 60 * h + m.

Definition mday_written (s : string) (d : Z) : Prop := decimal s d /\ 1 <= d <= 31.
Definition weekday_written (s : string) (d : weekday) : Prop := spelled s (weekday_name d).
Definition month_written (s : string) (m : month) : Prop := spelled s (month_name m).

(** A field: nothing or a star, one of its kind, or from one to another. *)
Inductive span (A : Type) := Any | One (a : A) | FromTo (a b : A).
Arguments Any {A}.
Arguments One {A}.
Arguments FromTo {A}.

Inductive span_written {A} (wr : string -> A -> Prop) : string -> span A -> Prop :=
  | written_empty : span_written wr "" Any
  | written_star : span_written wr "*" Any
  | written_one s a : wr s a -> span_written wr s (One a)
  | written_range s a t b : wr s a -> wr t b -> span_written wr (s ++ String "-" t) (FromTo a b).

Record restriction := {
  r_times : option (Z * Z);
  r_wday : span weekday;
  r_mday : span Z;
  r_month : span month;
}.

(** Times are a range or nothing. *)
Definition times_span (t : option (Z * Z)) : span Z :=
  match t with Some (a, b) => FromTo a b | None => Any end.

(** The text of a restriction; fields at the end may be left away. *)
Inductive written : string -> restriction -> Prop :=
  | written_times t T :
    span_written clock_written t (times_span T) ->
    written t {| r_times := T; r_wday := Any; r_mday := Any; r_month := Any |}
  | written_wday t T d D :
    span_written clock_written t (times_span T) -> span_written weekday_written d D ->
    written (t ++ String "," d) {| r_times := T; r_wday := D; r_mday := Any; r_month := Any |}
  | written_mday t T d D m M :
    span_written clock_written t (times_span T) -> span_written weekday_written d D ->
    span_written mday_written m M ->
    written (t ++ String "," (d ++ String "," m))
      {| r_times := T; r_wday := D; r_mday := M; r_month := Any |}
  | written_month t T d D m M o O :
    span_written clock_written t (times_span T) -> span_written weekday_written d D ->
    span_written mday_written m M -> span_written month_written o O ->
    written (t ++ String "," (d ++ String "," (m ++ String "," o)))
      {| r_times := T; r_wday := D; r_mday := M; r_month := O |}.

(** [k] is met on the way from [a] forward to [b], on a dial of [n] positions. *)
Definition within (n a b k : Z) : bool := (k - a) mod n <=? (b - a) mod n.

Definition span_means {A} (number : A -> Z) (n : Z) (sp : span A) (k : Z) : bool :=
  match sp with
  | Any => true
  | One a => k =? number a
  | FromTo a b => within n (number a) (number b) k
  end.

(** From the even minute at or before the first time to the odd minute at or after
    the second, over midnight if the second is before the first. *)
Definition times_mean (t : option (Z * Z)) (minute : Z) : bool :=
  match t with
  | None => true
  | Some (a, b) => within 1440 (2 * (a / 2)) (2 * (b / 2) + 1) minute
  end.

Definition means (r : restriction) (now : tm) : bool :=
  times_mean (r_times r) (60 * tm_hour now + tm_min now) &&
  span_means weekday_number 7 (r_wday r) (tm_wday now) &&
  span_means id 31 (r_mday r) (tm_mday now) &&
  span_means month_number 12 (r_month r) (tm_mon now).

(** The restriction with a range of months cut down to its first month. *)
Definition first_month_only (r : restriction) : restriction :=
  {| r_times := r_times r; r_wday := r_wday r; r_mday := r_mday r;
     r_month := match r_month r with FromTo a _ => One a | sp => sp end |}.

(** *** The readers read what is written *)

(** [s] has no [c] in it. *)
Definition free_of (c : ascii) (s : string) : Prop := strcut c s = (s, None).

Lemma free_cut c s t : free_of c s -> strcut c (s ++ String c t) = (s, Some t).
Proof.
  unfold free_of. induction s as [|d s IH]; intros H.
  - rewrite string_nil_app. cbn [strcut]. by rewrite char_eqb_refl.
  - rewrite string_cons_app. cbn [strcut] in *. destruct (char_eqb d c); [done|].
    destruct (strcut c s) as [a b] eqn:E. injection H as -> ->. by rewrite IH.
Qed.

Lemma free_app c s t : free_of c s -> free_of c t -> free_of c (s ++ t).
Proof.
  unfold free_of. induction s as [|d s IH]; intros H Ht; [done|].
  rewrite string_cons_app. cbn [strcut] in *. destruct (char_eqb d c); [done|].
  destruct (strcut c s) as [a b]. injection H as -> ->. by rewrite IH.
Qed.

Lemma free_cons c d s : char_eqb d c = false -> free_of c s -> free_of c (String d s).
Proof. unfold free_of. cbn [strcut]. intros -> H. by rewrite H. Qed.

Lemma digit_spec d : 0 <= d < 10 ->
  isdigit (chr (48 + d)) = true /\ code (chr (48 + d)) - 48 = d.
Proof. intros H. unfold isdigit. rewrite code_chr by lia. lia. Qed.

Lemma decimal_lacks c s n : isdigit c = false -> decimal s n -> free_of c s.
Proof.
  intros Hc. assert (Hd : forall d, 0 <= d < 10 -> free_of c (String (chr (48 + d)) "")).
  { intros d [Hd _]%digit_spec. apply free_cons; [|done]. destruct (char_eqb _ c) eqn:E; [|done].
    apply char_eqb_eq in E. rewrite E in Hd. by rewrite Hc in Hd. }
  induction 1; [auto|]. apply free_app; auto.
Qed.

Lemma decimal_nonneg s n : decimal s n -> 0 <= n.
Proof. induction 1; lia. Qed.

Lemma decimal_digits s n rest : decimal s n -> digits 0 (s ++ rest) = digits n rest.
Proof.
  intros H. revert rest. induction H as [d Hd|s n d _ IH Hd]; intros rest;
    destruct (digit_spec d Hd) as [H1 H2].
  - rewrite string_cons_app, string_nil_app. cbn [digits]. by rewrite H1, H2.
  - rewrite string_app_assoc, IH, string_cons_app, string_nil_app. cbn [digits]. by rewrite H1, H2.
Qed.

Lemma decimal_skip s n rest : decimal s n -> skip_digits (s ++ rest) = skip_digits rest.
Proof.
  intros H. revert rest. induction H as [d Hd|s n d _ IH Hd]; intros rest;
    destruct (digit_spec d Hd) as [H1 H2].
  - rewrite string_cons_app, string_nil_app. cbn [skip_digits]. by rewrite H1.
  - rewrite string_app_assoc, IH, string_cons_app, string_nil_app. cbn [skip_digits]. by rewrite H1.
Qed.

Lemma decimal_head s n : decimal s n -> exists c s', s = String c s' /\ isdigit c = true.
Proof.
  induction 1 as [d Hd|s n d _ (c & s' & -> & Hc) Hd].
  - eexists _, _. split; [done|]. by apply digit_spec.
  - rewrite string_cons_app. by eexists _, _.
Qed.

Lemma digit_plain c s : isdigit c = true ->
  skip_spaces (String c s) = String c s /\ skip_nondigits (String c s) = String c s /\
  is_star (String c s) = false /\
  (match String c s with String "-" r | String "+" r => r | _ => String c s end) = String c s.
Proof.
  intros H. cbn [skip_spaces skip_nondigits]. rewrite H.
  destruct c as [[] [] [] [] [] [] [] []]; try discriminate H; split_and!; reflexivity.
Qed.

Lemma atoi_digit c s : isdigit c = true ->
  atoi (String c s) = s32 (Z.max (- 2 ^ 63) (Z.min (2 ^ 63 - 1) (digits 0 (String c s)))).
Proof.
  intros H. unfold atoi. destruct (digit_plain c s H) as (-> & _).
  destruct c as [[] [] [] [] [] [] [] []]; try discriminate H; reflexivity.
Qed.

Lemma decimal_scan s n rest : decimal s n -> n <= INT_MAX -> starts_digit rest = false ->
  scan_int (s ++ rest) = Some (n, rest).
Proof.
  intros H Hn Hr. pose proof (decimal_nonneg _ _ H) as Hn0.
  pose proof (decimal_digits s n rest H) as Hd. pose proof (decimal_skip s n rest H) as Hk.
  destruct (decimal_head _ _ H) as (c & s' & -> & Hc). rewrite string_cons_app in *.
  destruct (digit_plain c (s' ++ rest) Hc) as (H1 & _ & _ & H4).
  unfold scan_int. rewrite H1, H4. cbn [starts_digit]. rewrite Hc.
  assert (Hrest : digits n rest = n /\ skip_digits rest = rest).
  { destruct rest as [|d rest]; [done|]. cbn [starts_digit digits skip_digits] in *. by rewrite Hr. }
  destruct Hrest as [R1 R2]. rewrite Hk, R2, atoi_digit, Hd, R1 by done. unfold INT_MAX in Hn.
  by rewrite Z.min_r, Z.max_r, s32_id by (unfold INT_MIN, INT_MAX; lia).
Qed.


Lemma clock_scan s t : clock_written s t ->
  exists h m, scan_time s = Some (h, m) /\ 0 <= h < 24 /\ 0 <= m < 60 /\ t = 60 * h + m.
Proof.
  intros (a & h & b & m & Ha & Hb & Hh & Hm & -> & ->). exists h, m. split; [|done].
  unfold scan_time. rewrite (decimal_scan a h) by (done || unfold INT_MAX; lia).
  rewrite <- (string_app_nil b), (decimal_scan b m) by (done || unfold INT_MAX; lia). done.
Qed.

Lemma clock_lacks c s t : isdigit c = false -> char_eqb ":" c = false -> clock_written s t -> free_of c s.
Proof.
  intros H1 H2 (a & h & b & m & Ha & Hb & _ & _ & -> & _).
  apply free_app; [by eapply decimal_lacks|]. apply free_cons; [done|]. by eapply decimal_lacks.
Qed.

Lemma clock_head s t rest : clock_written s t -> is_star (s ++ rest) = false /\
  skip_nondigits (s ++ rest) = (s ++ rest)%string /\ s <> ""%string.
Proof.
  intros (a & h & b & m & Ha & _ & _ & _ & -> & _).
  destruct (decimal_head _ _ Ha) as (c & a' & -> & Hc). rewrite !string_cons_app.
  by destruct (digit_plain c ((a' ++ String ":" b) ++ rest) Hc) as (_ & -> & -> & _).
Qed.

Lemma timerange_written t a b : clock_written t a -> forall e, clock_written e b ->
  timerange (t ++ String "-" e) = Between (a / 2) (b / 2).
Proof.
  intros Ht e He. destruct (clock_head t a (String "-" e) Ht) as (Hs & _ & _).
  destruct (clock_head e b "" He) as (_ & Hn & Hne). rewrite string_app_nil in Hn.
  unfold timerange. rewrite Hs, (free_cut "-" t e) by (by eapply clock_lacks). rewrite Hn.
  destruct (clock_scan t a Ht) as (h & m & -> & Hh & Hm & ->).
  destruct (clock_scan e b He) as (h' & m' & E & Hh' & Hm' & ->).
  destruct e as [|c e]; [done|]. rewrite E.
  rewrite !Z.quot_div_nonneg by lia. pose proof (Z.div_mod m 2). pose proof (Z.mod_pos_bound m 2).
  pose proof (Z.div_mod m' 2). pose proof (Z.mod_pos_bound m' 2).
  rewrite !s32_id by (unfold INT_MIN, INT_MAX; lia).
  replace ((60 * h + m) / 2) with (h * 30 + m / 2)
    by (apply (Z.div_unique _ _ _ (m mod 2)); lia).
  replace ((60 * h' + m') / 2) with (h' * 30 + m' / 2)
    by (apply (Z.div_unique _ _ _ (m' mod 2)); lia).
  assert ((h * 30 + m / 2 <? 0) || (h * 30 + m / 2 >=? 24 * 30) = false) as -> by lia.
  assert ((h' * 30 + m' / 2 <? 0) || (h' * 30 + m' / 2 >=? 24 * 30) = false) as -> by lia.
  done.
Qed.

Lemma upper_not_separator c d : d = ","%char \/ d = "-"%char ->
  char_eqb c d = false -> char_eqb (toupper c) d = false.
Proof.
  intros Hd Hc. unfold toupper. destruct ((97 <=? code c) && (code c <=? 122)) eqn:E; [|done].
  b2p. unfold char_eqb. rewrite code_chr by lia. apply Z.eqb_neq. destruct Hd as [-> | ->]; cbn in *; unfold code in *; cbn; lia.
Qed.

Lemma toupper_tolower c : char_eqb (tolower (toupper c)) (tolower c) = true.
Proof. destruct c as [[] [] [] [] [] [] [] []]; reflexivity. Qed.

Lemma spelled_lacks d s t : d = ","%char \/ d = "-"%char -> spelled s t -> free_of d t -> free_of d s.
Proof.
  intros Hd. induction 1 as [|c s t _ IH|c s t _ IH]; intros Ht; [done| |];
    unfold free_of in Ht; cbn [strcut] in Ht; destruct (char_eqb c d) eqn:E; try done;
    destruct (strcut d t) as [a b] eqn:Et; injection Ht as -> ->;
    apply free_cons; auto using upper_not_separator.
Qed.

Lemma spelled_strcaseeq s t : spelled s t -> strcaseeq s t = true.
Proof.
  induction 1; cbn [strcaseeq]; [done|by rewrite char_eqb_refl|]. by rewrite toupper_tolower.
Qed.

Lemma spelled_index s t names : spelled s t -> name_index s names = name_index t names.
Proof.
  intros H%spelled_strcaseeq. induction names as [|x names IH]; [done|]. cbn [name_index].
  by rewrite (strcaseeq_trans _ _ _ H), IH.
Qed.

Lemma spelled_plain s t rest : spelled s t -> String.length t = 3%nat ->
  is_star (s ++ rest) = false.
Proof.
  intros H Ht. assert (String.length s = 3%nat) as Hs.
  { rewrite <- Ht. clear Ht. induction H; cbn; congruence. }
  destruct s as [|c [|c' s]]; try done. by destruct c as [[] [] [] [] [] [] [] []].
Qed.

Lemma span_lacks {A} (wr : string -> A -> Prop) s sp :
  (forall s a, wr s a -> free_of "," s) -> span_written wr s sp -> free_of "," s.
Proof.
  intros Hl. induction 1; [done|done|eauto|]. apply free_app; [eauto|]. apply free_cons; [done|eauto].
Qed.

Lemma circ_within n s e k : 0 <= s < n -> 0 <= e < n -> 0 <= k < n -> circ s e k = within n s e k.
Proof.
  intros Hs He Hk. unfold circ, within.
  assert (Hm : forall x, 0 <= x < n -> (x - s) mod n = if s <=? x then x - s else x - s + n).
  { intros x Hx. destruct (Z.leb_spec s x); [apply Z.mod_small; lia|].
    rewrite <- (Z_mod_plus_full _ 1), Z.mod_small by lia. lia. }
  rewrite !Hm by done. apply eq_true_iff_eq.
  destruct (Z.leb_spec s e), (Z.leb_spec s k); lia.
Qed.

Lemma minutes_within a b h m : 0 <= a < 1440 -> 0 <= b < 1440 -> 0 <= h < 24 -> 0 <= m < 60 ->
  circ (a / 2) (b / 2) (h * 30 + m / 2) = within 1440 (2 * (a / 2)) (2 * (b / 2) + 1) (60 * h + m).
Proof.
  intros Ha Hb Hh Hm.
  pose proof (Z.div_mod a 2). pose proof (Z.mod_pos_bound a 2).
  pose proof (Z.div_mod b 2). pose proof (Z.mod_pos_bound b 2).
  pose proof (Z.div_mod m 2). pose proof (Z.mod_pos_bound m 2).
  rewrite <- circ_within by lia. unfold circ. apply eq_true_iff_eq.
  destruct (Z.leb_spec (a / 2) (b / 2)), (Z.leb_spec (2 * (a / 2)) (2 * (b / 2) + 1)); lia.
Qed.

Lemma clock_bound s t : clock_written s t -> 0 <= t < 1440.
Proof. intros (a & h & b & m & _ & _ & Hh & Hm & _ & ->). lia. Qed.

Lemma times_read t T now : span_written clock_written t (times_span T) -> tm_wf now ->
  allows (timerange t) (tm_hour now * 30 + tm_min now / 2) = times_mean T (60 * tm_hour now + tm_min now).
Proof.
  intros H []. destruct T as [[a b]|]; cbn [times_span] in H; inversion H; subst; try done.
  erewrite timerange_written by done. cbn [allows times_mean].
  apply minutes_within; [by eapply clock_bound|by eapply clock_bound|done|done].
Qed.

(** A written name of three letters, as the readers find it. *)
Lemma name_read s nm names i :
  spelled s nm -> String.length nm = 3%nat -> free_of "-" nm -> name_index nm names = Some i ->
  name_index s names = Some i /\ strcut "-" s = (s, None) /\ is_star s = false /\
  forall t, is_star (s ++ String "-" t) = false /\ strcut "-" (s ++ String "-" t) = (s, Some t).
Proof.
  intros H H3 Hl Hi. assert (Hs : free_of "-" s) by (eapply spelled_lacks; [by right|done|done]). split_and!.
  - by rewrite (spelled_index _ _ _ H).
  - exact Hs.
  - rewrite <- (string_app_nil s). by eapply spelled_plain.
  - intros t. split; [by eapply spelled_plain|]. by apply free_cut.
Qed.

Lemma weekday_read d D now : span_written weekday_written d D -> tm_wf now ->
  allows (dowrange d) (tm_wday now) = span_means weekday_number 7 D (tm_wday now).
Proof.
  intros H []. assert (Hi : forall s x, weekday_written s x -> _)
    by (intros s x Hx; apply (name_read s _ days (weekday_number x) Hx); by destruct x).
  assert (Hb : forall x, 0 <= weekday_number x < 7) by (intros []; cbn; lia).
  unfold dowrange. inversion H as [| |s a Ha|s a t b Ha Hb']; subst; try done;
    destruct (Hi _ _ Ha) as (Hn & Hl & Hs & Hr).
  - rewrite Hs, Hl, Hn. apply circ_same.
  - destruct (Hr t) as [-> ->], (Hi _ _ Hb') as (Hn' & _). rewrite Hn, Hn'. by apply circ_within.
Qed.

(** Of a range of months only the first is read. *)
Lemma month_read o O now : span_written month_written o O -> tm_wf now ->
  allows (monthrange o) (tm_mon now) =
  span_means month_number 12 (match O with FromTo a _ => One a | sp => sp end) (tm_mon now).
Proof.
  intros H []. assert (Hi : forall s x, month_written s x -> _)
    by (intros s x Hx; apply (name_read s _ months (month_number x) Hx); by destruct x).
  unfold monthrange. inversion H as [| |s a Ha|s a t b Ha _]; subst; try done;
    destruct (Hi _ _ Ha) as (Hn & Hl & Hs & Hr).
  - rewrite Hs, Hl, Hn. apply circ_same.
  - destruct (Hr t) as [-> ->]. rewrite Hn. apply circ_same.
Qed.

Lemma mday_plain s d : mday_written s d ->
  scan_day s = Some (d - 1) /\ strcut "-" s = (s, None) /\ forall rest, is_star (s ++ rest) = false.
Proof.
  intros [H Hd]. split_and!.
  - unfold scan_day. rewrite <- (string_app_nil s), (decimal_scan s d) by (done || unfold INT_MAX; lia).
    by assert ((d <? 1) || (d >? 31) = false) as -> by lia.
  - by eapply decimal_lacks.
  - intros rest. destruct (decimal_head _ _ H) as (c & s' & -> & Hc). rewrite string_cons_app.
    by destruct (digit_plain c (s' ++ rest) Hc) as (_ & _ & -> & _).
Qed.

Lemma mday_read m M now : span_written mday_written m M -> tm_wf now ->
  allows (dayrange m) (tm_mday now - 1) = span_means id 31 M (tm_mday now).
Proof.
  intros H []. unfold dayrange. inversion H as [| |s a Ha|s a t b Ha Hb]; subst; try done;
    destruct (mday_plain _ _ Ha) as (Hn & Hl & Hs).
  - specialize (Hs ""%string). rewrite string_app_nil in Hs. rewrite Hs, Hl, Hn.
    cbn [allows span_means id]. rewrite circ_same. apply eq_true_iff_eq. unfold id. lia.
  - rewrite Hs, (free_cut _ _ _ Hl), Hn. destruct (mday_plain _ _ Hb) as (-> & _ & _).
    destruct Ha as [_ Ha], Hb as [_ Hb]. cbn [allows span_means]. rewrite (circ_within 31) by lia.
    unfold within, id. f_equal; f_equal; lia.
Qed.

Lemma split_lacks c s : free_of c s -> strsplit c s = [s].
Proof. intros H. by rewrite strsplit_cut, H. Qed.

Lemma split_cons c s t : free_of c s -> strsplit c (s ++ String c t) = s :: strsplit c t.
Proof. intros H. by rewrite strsplit_cut, (free_cut _ _ _ H). Qed.

Lemma written_lacks :
  (forall t T, span_written clock_written t T -> free_of "," t) /\
  (forall d D, span_written weekday_written d D -> free_of "," d) /\
  (forall m M, span_written mday_written m M -> free_of "," m) /\
  (forall o O, span_written month_written o O -> free_of "," o).
Proof.
  split_and!; intros s sp; apply span_lacks; intros x a.
  - by apply clock_lacks.
  - intros H. eapply spelled_lacks; [by left|exact H|]. by destruct a.
  - intros [H _]. by eapply decimal_lacks.
  - intros H. eapply spelled_lacks; [by left|exact H|]. by destruct a.
Qed.

(** What the readers find in a written restriction. *)
Lemma text_allows_means info r now :
  written info r -> (String.length info <= 255)%nat -> tm_wf now ->
  text_allows info now = means (first_month_only r) now.
Proof.
  intros H Hl Hn. unfold text_allows, means, first_month_only. rewrite (strtake_all 255 info Hl).
  destruct written_lacks as (Lt & Ld & Lm & Lo).
  destruct H as [t T Ht|t T d D Ht Hd|t T d D m M Ht Hd Hm|t T d D m M o O Ht Hd Hm Ho];
    rewrite ?split_cons by eauto; rewrite split_lacks by eauto; cbn -[timerange dowrange dayrange monthrange];
    rewrite (times_read t T now Ht Hn); rewrite ?(weekday_read _ _ now Hd Hn);
    rewrite ?(mday_read _ _ now Hm Hn); rewrite ?(month_read _ _ now Ho Hn);
    try done; by destruct O.
Qed.

(** C40: a restriction written as a range of times of day, days of the week, days of
    the month and months, each of them a star or empty, one, or from one to another,
    names in any case and fields at the end left away, is read as it is written: the
    masks built from it let exactly the minutes through that lie from the even minute
    at or before the first time to the odd minute at or after the second, over midnight
    if need be, on the days and in the months named, ranges of days going round the
    week and the month.  Of a range of months only the first counts
    ([first_month_only], a defect of [get_month]).  The text has at most 255 characters;
    times that are not a range hh:mm-hh:mm are no part of this: they allow nothing,
    though the warning says they restrict nothing ([timerange_bad]). *)
Theorem timing_as_written i info r now :
  written info r -> info <> EmptyString -> (String.length info <= 255)%nat -> tm_wf now ->
  exists i', cw_build_timing i info = Some (1, i') /\
    cw_check_timing i' now = means (first_month_only r) now.
Proof.
  intros Hw Hi Hl Hn. rewrite <- (text_allows_means info r now Hw Hl Hn). by apply build_timing_spec.
Qed.

Lemma decimal_two a b s : 0 <= a < 10 -> 0 <= b < 10 ->
  s = String (chr (48 + a)) (String (chr (48 + b)) "") -> decimal s (10 * a + b).
Proof. intros Ha Hb ->. apply (decimal_more (String (chr (48 + a)) "") a b); [by apply decimal_one|done]. Qed.

Lemma timing_as_written_witness :
  exists i', cw_build_timing no_timing "18:00-06:31,Mon-fri,1-15,mar-may" = Some (1, i') /\
    cw_check_timing i' some_evening = true.
Proof.
  apply (timing_as_written no_timing "18:00-06:31,Mon-fri,1-15,mar-may"
    {| r_times := Some (1080, 391); r_wday := FromTo Monday Friday; r_mday := FromTo 1 15;
       r_month := FromTo March May |} some_evening); [|discriminate|simpl; lia|constructor; simpl; lia].
  apply (written_month "18:00-06:31" _ "Mon-fri" _ "1-15" _ "mar-may").
  - apply (written_range _ "18:00" _ "06:31").
    + exists "18"%string, 18, "00"%string, 0. split_and!; try lia; try done;
        [by apply (decimal_two 1 8)|by apply (decimal_two 0 0)].
    + exists "06"%string, 6, "31"%string, 31. split_and!; try lia; try done;
        [by apply (decimal_two 0 6)|by apply (decimal_two 3 1)].
  - apply (written_range _ "Mon" _ "fri"); [apply (spelled_upper "m")|]; repeat apply spelled_same; apply spelled_end.
  - apply (written_range _ "1" _ "15"); (split; [|lia]); [by apply (decimal_one 1)|by apply (decimal_two 1 5)].
  - apply (written_range _ "mar" _ "may"); repeat apply spelled_same; apply spelled_end.
Defined.

End Calendar.

(** ** The names of days and months *)

Lemma dow_names_range :
  Forall (fun a => Forall (fun b =>
    dowrange (nth a days "" ++ String "-" (nth b days ""))
      = Between (Z.of_nat a) (Z.of_nat b)) (seq 0 7)) (seq 0 7).
Proof. repeat constructor. Qed.

Lemma month_names_cut c :
  Forall (fun a => strcut "-" (nth a months "" ++ String "-" c) = (nth a months "", Some c) /\
    name_index (nth a months "") months = Some (Z.of_nat a) /\
    is_star (nth a months "" ++ String "-" c) = false) (seq 0 12).
Proof. repeat constructor. Qed.

(** A range of months is its first month alone, whatever follows the dash,
    while a range of days of the week is the days from the first to the
    second. *)
Lemma month_range_first_only a b c :
  (a < 12)%nat -> (b < 7)%nat -> (c < 7)%nat ->
  (forall text, monthrange (nth a months "" ++ String "-" text) = Between (Z.of_nat a) (Z.of_nat a)) /\
  dowrange (nth b days "" ++ String "-" (nth c days "")) = Between (Z.of_nat b) (Z.of_nat c).
Proof.
  intros Ha Hb Hc. split.
  - intros text. pose proof (month_names_cut text) as H. rewrite Forall_forall in H.
    destruct (H a) as (H1 & H2 & H3); [apply elem_of_seq; lia|].
    unfold monthrange. by rewrite H3, H1, H2.
  - pose proof dow_names_range as H. rewrite Forall_forall in H.
    specialize (H b ltac:(apply elem_of_seq; lia)). rewrite Forall_forall in H.
    apply H, elem_of_seq. lia.
Qed.

(** A time that is not a range is never, not always. *)
Lemma timerange_bad times :
  is_star times = false -> snd (strcut "-" times) = None -> timerange times = Never.
Proof.
  intros H1 H2. unfold timerange. rewrite H1. by destruct (strcut "-" times) as [? []].
Qed.
