(* ===== verification/Translate.v ===== *)
(** * Codec translation (corelib/translate.c)

    Translators are edges between formats.  [rebuild_matrix] closes the table
    of direct translations under composition, [cw_translator_build_path] follows
    the table to a chain of translators, [cw_translator_best_choice] picks a
    pair of formats by cost, [cw_translate] runs a frame through a chain and
    keeps the delivery times in line.

    A translator's callbacks are fields of its record: [newpvt] and [sample]
    get the number of the call in the operation under way, as their results
    may differ from call to call.  Signed overflow of a sum of costs is an
    outcome of its own; the loop of [rebuild_matrix] is cut after one round per
    format, the one of [cw_translator_build_path] likewise.  [bottom_bit] is
    spandsp's and a parameter. *)

From S2P Require Import Prelude Time Frame.
From stdpp Require Import gmap.
Open Scope Z_scope.

Definition MAX_FORMAT : Z := 32.
Definition CW_FRAME_CNG : Z := 10.

Definition formats : list Z := seqZ 0 MAX_FORMAT.

(** A loop over the formats whose body may fail. *)
Fixpoint for_each {A} (f : Z -> A -> option A) (l : list Z) (a : A) : option A :=
  match l with
  | [] => Some a
  | x :: l => f x a ≫= for_each f l
  end.

Inductive outcome (A : Type) :=
  | Done (a : A)
  | Overflow
  | NoFuel.
Arguments Done {A} a.
Arguments Overflow {A}.
Arguments NoFuel {A}.

(** ** Loops over the formats *)

Section loops.
Context {A : Type}.
Implicit Types f : Z -> A -> option A.

Lemma for_each_ind (P : A -> Prop) f l a a' :
  (forall x b b', x ∈ l -> P b -> f x b = Some b' -> P b') ->
  P a -> for_each f l a = Some a' -> P a'.
Proof.
  revert a. induction l as [|x l IH]; intros a Hf Ha; simpl; [by intros [= <-]|].
  destruct (f x a) as [b|] eqn:E; simpl; [|done]. apply IH.
  - intros y c c' Hy. apply Hf. by constructor.
  - eapply Hf; [|exact Ha|exact E]. constructor.
Qed.

Context (R : relation A) `{!PreOrder R}.

Lemma for_each_rel f l a a' :
  (forall x b b', f x b = Some b' -> R b b') -> for_each f l a = Some a' -> R a a'.
Proof.
  intros Hf. apply for_each_ind; [|reflexivity].
  intros x b b' _ H E. etrans; [exact H|by eapply Hf].
Qed.

(** Every round of the loop happens, between the first state and the last. *)
Lemma for_each_hit f l a a' x :
  (forall x b b', f x b = Some b' -> R b b') -> x ∈ l -> for_each f l a = Some a' ->
  exists b b', R a b /\ f x b = Some b' /\ R b' a'.
Proof.
  intros Hf Hx. revert a. induction Hx as [x l|x y l Hx IH]; intros a; simpl.
  - destruct (f x a) as [b|] eqn:E; simpl; [|done]. intros H.
    exists a, b. split_and!; [reflexivity|done|by eapply for_each_rel].
  - destruct (f y a) as [b|] eqn:E; simpl; [|done]. intros H.
    destruct (IH b H) as (c & c' & ? & ? & ?). exists c, c'.
    split_and!; [|done..]. etrans; [by eapply Hf|done].
Qed.
End loops.

Section translate.
Context {S : Type}.

Record cw_translator := {
  t_addr : Z;
  t_name : string;
  src_format : Z;
  src_rate : Z;
  dst_format : Z;
  dst_rate : Z;
  newpvt : nat -> option S;
  framein : S -> cw_frame -> S;
  frameout : S -> option cw_frame * S;
  has_destroy : bool;
  sample : option (nat -> option cw_frame);
  t_cost : Z;
}.

#[export] Instance cw_translator_eta : Eta cw_translator := fun t =>
  {| t_addr := t_addr t; t_name := t_name t; src_format := src_format t;
     src_rate := src_rate t; dst_format := dst_format t; dst_rate := dst_rate t;
     newpvt := newpvt t; framein := framein t; frameout := frameout t;
     has_destroy := has_destroy t; sample := sample t; t_cost := t_cost t |}.

(** A cell of the matrix with a step; a cell without one is absent. *)
Record cw_translator_dir := { step : cw_translator; cost : Z }.

Abbreviation matrix := (gmap (Z * Z) cw_translator_dir).

(** ** The matrix *)

(** The first loop of [rebuild_matrix]: the cheapest direct translators. *)
Definition add_direct (m : matrix) (t : cw_translator) : matrix :=
  let put := <[(src_format t, dst_format t) := {| step := t; cost := t_cost t |}]> m in
  match m !! (src_format t, dst_format t) with
  | None => put
  | Some c => if cost c >? t_cost t then put else m
  end.

Definition in_int (z : Z) : bool := (INT_MIN <=? z) && (z <=? INT_MAX).

(** The innermost statement; [None] is a sum that overflows. *)
Definition relax (x y z : Z) (st : matrix * Z) : option (matrix * Z) :=
  let '(m, changed) := st in
  match m !! (x, y), m !! (y, z) with
  | Some a, Some b =>
    let sum := cost a + cost b in
    if negb (in_int sum) then None
    else
      let put := (<[(x, z) := {| step := step a; cost := sum |}]> m, changed + 1) in
      match m !! (x, z) with
      | None => Some put
      | Some c => if sum <? cost c then Some put else Some st
      end
  | _, _ => Some st
  end.

(** One round of the three loops. *)
Definition sweep (m : matrix) : option (matrix * Z) :=
  for_each (fun x =>
    for_each (fun y st =>
      if x =? y then Some st
      else for_each (fun z st =>
             if (x =? z) || (y =? z) then Some st else relax x y z st) formats st)
      formats) formats (m, 0).

Fixpoint close_matrix (fuel : nat) (m : matrix) : outcome matrix :=
  match sweep m with
  | None => Overflow
  | Some (m', changed) =>
    if changed =? 0 then Done m'
    else match fuel with
         | O => NoFuel
         | Datatypes.S fuel => close_matrix fuel m'
         end
  end.

(** ** Costs *)

(** [while ((out = t->frameout(pvt)))], [None] when it does not end. *)
Fixpoint drain_frames (fuel : nat) (t : cw_translator) (pvt : S) (sofar : Z) : option (S * Z) :=
  match fuel with
  | O => None
  | Datatypes.S fuel =>
    match frameout t pvt with
    | (None, pvt) => Some (pvt, sofar)
    | (Some out, pvt) => drain_frames fuel t pvt (s32 (sofar + f_samples out))
    end
  end.

(** The loop over the samples: [Some None] when a sample could not be made. *)
Fixpoint cost_loop (fuel n : nat) (t : cw_translator) (smp : nat -> option cw_frame)
    (limit : Z) (pvt : S) (sofar : Z) : option (option unit) :=
  if negb (sofar <? limit) then Some (Some tt)
  else
    match fuel with
    | O => None
    | Datatypes.S fuel =>
      match smp n with
      | None => Some None
      | Some f =>
        '(pvt, sofar) ← drain_frames fuel t (framein t pvt f) sofar;
        cost_loop fuel (Datatypes.S n) t smp limit pvt sofar
      end
    end.

(** The clock before and after the loop is an argument. *)
Definition calc_cost (fuel : nat) (start stop : timeval) (t : cw_translator) (secs : Z)
    : option cw_translator :=
  let secs := if secs <? 1 then 1 else secs in
  match sample t with
  | None => Some (t <| t_cost := 99999 |>)
  | Some smp =>
    match newpvt t 0%nat with
    | None => Some (t <| t_cost := 99999 |>)
    | Some pvt =>
      done ← cost_loop fuel 0 t smp (s32 (secs * dst_rate t)) pvt 0;
      match done with
      | None => Some (t <| t_cost := 99999 |>)
      | Some _ =>
        let c := Z.quot (cw_tvdiff_ms stop start) secs in
        Some (t <| t_cost := if c <=? 0 then 1 else c |>)
      end
    end
  end.

(** ** Registration *)

Record trans_state := {
  list_ : list cw_translator;
  tr_matrix : matrix;
}.

(** The first loop measures every translator when [samples] is not 0;
    [clock] gives the times around the measurement of a translator. *)
Definition measure_all (fuel : nat) (clock : Z -> timeval * timeval) (samples : Z)
    (l : list cw_translator) : option (list cw_translator) :=
  if samples =? 0 then Some l
  else mapM (fun t => calc_cost fuel (clock (t_addr t)).1 (clock (t_addr t)).2 t samples) l.

Definition rebuild_matrix (fuel : nat) (clock : Z -> timeval * timeval) (samples : Z)
    (l : list cw_translator) : outcome trans_state :=
  match measure_all fuel clock samples l with
  | None => NoFuel
  | Some l =>
    match close_matrix (Z.to_nat MAX_FORMAT) (foldl add_direct ∅ l) with
    | Done m => Done {| list_ := l; tr_matrix := m |}
    | Overflow => Overflow
    | NoFuel => NoFuel
    end
  end.

Section register.
Variable bottom_bit : Z -> Z.
Variable fuel : nat.
Variable clock : Z -> timeval * timeval.

(** The result and the state; the caller's structure is in the state, with its
    formats replaced by bit numbers. *)
Definition cw_register_translator (st : trans_state) (t : cw_translator)
    : outcome (Z * trans_state) :=
  let t := t <| src_format := bottom_bit (src_format t) |>
             <| dst_format := bottom_bit (dst_format t) |> in
  if src_format t >=? MAX_FORMAT then Done (-1, st)
  else if dst_format t >=? MAX_FORMAT then Done (-1, st)
  else
    match calc_cost fuel (clock (t_addr t)).1 (clock (t_addr t)).2 t 1 with
    | None => NoFuel
    | Some t =>
      match rebuild_matrix fuel clock 0 (t :: list_ st) with
      | Done st => Done (0, st)
      | Overflow => Overflow
      | NoFuel => NoFuel
      end
    end.

(** The list without the first translator at the address. *)
Fixpoint unlink_translator (addr : Z) (l : list cw_translator) : option (list cw_translator) :=
  match l with
  | [] => None
  | u :: l => if t_addr u =? addr then Some l else cons u <$> unlink_translator addr l
  end.

Definition cw_unregister_translator (st : trans_state) (addr : Z) : outcome (Z * trans_state) :=
  let '(ret, l) := match unlink_translator addr (list_ st) with
                   | Some l => (0, l)
                   | None => (-1, list_ st)
                   end in
  match rebuild_matrix fuel clock 0 l with
  | Done st => Done (ret, st)
  | Overflow => Overflow
  | NoFuel => NoFuel
  end.

End register.

(** ** Paths *)

Record cw_trans_pvt := {
  p_step : cw_translator;
  p_state : S;
  nextin : timeval;
  nextout : timeval;
}.

#[export] Instance cw_trans_pvt_eta : Eta cw_trans_pvt := fun p =>
  {| p_step := p_step p; p_state := p_state p; nextin := nextin p; nextout := nextout p |}.

(** The states [cw_translator_free_path] gives to their [destroy]; the nodes
    are all freed. *)
Definition cw_translator_free_path (p : list cw_trans_pvt) : list S :=
  p_state <$> filter (fun q => has_destroy (p_step q) = true) p.

Inductive built :=
  | Built (path : list cw_trans_pvt)
  | NoPath (left_over : list cw_trans_pvt)
  | NoMemory (freed : list cw_trans_pvt)
  | Endless.

(** [alloc n] tells whether the [n]-th node can be allocated; [acc] is the path
    so far, the last node first. *)
Fixpoint path_loop (fuel : nat) (alloc : nat -> bool) (m : matrix) (source dest : Z)
    (acc : list cw_trans_pvt) : built :=
  if source =? dest then Built (reverse acc)
  else
    match fuel with
    | O => Endless
    | Datatypes.S fuel =>
      match m !! (source, dest) with
      | None => NoPath (reverse acc)
      | Some c =>
        if negb (alloc (length acc)) then NoMemory (reverse acc)
        else
          match newpvt (step c) (length acc) with
          | None => NoMemory (reverse acc)
          | Some s =>
            let tmp := {| p_step := step c; p_state := s;
                          nextin := cw_tv 0 0; nextout := cw_tv 0 0 |} in
            path_loop fuel alloc m (dst_format (step c)) dest (tmp :: acc)
          end
      end
    end.

Definition cw_translator_build_path (bottom_bit : Z -> Z) (alloc : nat -> bool) (m : matrix)
    (dest source : Z) : built :=
  path_loop (Z.to_nat MAX_FORMAT) alloc m (bottom_bit source) (bottom_bit dest) [].

(** ** The best pair of formats *)

(** [for (y = 0; ...; cur <<= 1) if (cur & common) bestdst = best = cur] *)
Fixpoint common_loop (n : nat) (cur common : Z) (best : Z * Z) : Z * Z :=
  match n with
  | O => best
  | Datatypes.S n =>
    common_loop n (s32 (Z.shiftl cur 1)) common
      (if negb (Z.land cur common =? 0) then (cur, cur) else best)
  end.

(** The best source, destination and cost so far. *)
Definition choice : Type := (Z * Z * Z).

Definition choice_step (m : matrix) (srcs cur y x : Z) (b : choice) : choice :=
  let '(_, _, besttime) := b in
  match m !! (x, y) with
  | Some c =>
    if negb (Z.land srcs (s32 (Z.shiftl 1 x)) =? 0) && (cost c <? besttime)
    then (s32 (Z.shiftl 1 x), cur, cost c) else b
  | None => b
  end.

Fixpoint choice_loop (m : matrix) (srcs dst : Z) (ys : list Z) (cur : Z) (b : choice) : choice :=
  match ys with
  | [] => b
  | y :: ys =>
    choice_loop m srcs dst ys (s32 (Z.shiftl cur 1))
      (if negb (Z.land cur dst =? 0)
       then foldl (fun b x => choice_step m srcs cur y x b) b formats else b)
  end.

(** The return value, and the new [*dst] and [*srcs]. *)
Definition cw_translator_best_choice (m : matrix) (dst srcs : Z) : Z * Z * Z :=
  let common := Z.land dst srcs in
  let '(best, bestdst) :=
    if negb (common =? 0) then common_loop (Z.to_nat MAX_FORMAT) 1 common (-1, 0)
    else
      let '(best, bestdst, _) := choice_loop m srcs dst formats 1 (-1, 0, INT_MAX) in
      (best, bestdst) in
  if best >? -1 then (0, bestdst, best) else (best, dst, srcs).

(** ** Translating a frame *)

(** The prediction of the first node when a frame comes in. *)
Definition predict_in (p : cw_trans_pvt) (f : cw_frame) : cw_trans_pvt :=
  if cw_tvzero (f_delivery f) then p
  else
    let p :=
      if negb (cw_tvzero (nextin p)) then
        if negb (cw_tveq (nextin p) (f_delivery f)) then
          (if negb (cw_tvzero (nextout p))
           then p <| nextout := cw_tvadd (nextout p) (cw_tvsub (f_delivery f) (nextin p)) |>
           else p) <| nextin := f_delivery f |>
        else p
      else p <| nextin := f_delivery f |> <| nextout := f_delivery f |> in
    p <| nextin := cw_tvadd (nextin p) (cw_samp2tv (f_samples f) 8000) |>.

(** Every node takes the frame of the one before; [None] when one has none to
    give. *)
Fixpoint run_path (p : cw_trans_pvt) (rest : list cw_trans_pvt)
    : option cw_frame * list cw_trans_pvt :=
  let '(out, s) := frameout (p_step p) (p_state p) in
  let p := p <| p_state := s |> in
  match out with
  | None => (None, p :: rest)
  | Some out =>
    match rest with
    | [] => (Some out, [p])
    | q :: rest =>
      let '(r, rest) := run_path (q <| p_state := framein (p_step q) (p_state q) out |>) rest in
      (r, p :: rest)
    end
  end.

(** The last node's frame: its delivery time, and the next prediction. *)
Definition deliver_out (now delivery : timeval) (f : cw_frame) (head : cw_trans_pvt)
    (out : cw_frame) : cw_frame * cw_trans_pvt :=
  let '(out, head) :=
    if negb (cw_tvzero delivery) then
      let head := if cw_tvzero (nextout head) then head <| nextout := now |> else head in
      (out <| f_delivery := nextout head |>,
       head <| nextout := cw_tvadd (nextout head) (cw_samp2tv (f_samples out) 8000) |>)
    else (out <| f_delivery := cw_tv 0 0 |>, head) in
  let head := if f_frametype out =? CW_FRAME_CNG then head <| nextout := cw_tv 0 0 |> else head in
  let out := out <| f_has_timing_info := f_has_timing_info f |> in
  let out := if f_has_timing_info f
             then out <| f_ts := f_ts f |> <| f_len := f_len f |> <| f_seq_no := f_seq_no f |>
             else out in
  (out, head).

(** The frame, the path, and the frame that was freed; [path] is not empty. *)
Definition cw_translate (now : timeval) (head : cw_trans_pvt) (rest : list cw_trans_pvt)
    (f : cw_frame) (consume : bool) : option cw_frame * list cw_trans_pvt * option cw_frame :=
  let p := predict_in (head <| p_state := framein (p_step head) (p_state head) f |>) f in
  let freed := if consume then Some f else None in
  match run_path p rest with
  | (Some out, head :: rest) =>
    let '(out, head) := deliver_out now (f_delivery f) f head out in
    (Some out, head :: rest, freed)
  | (_, path) => (None, path, freed)
  end.

(** ** Chains of translators *)

Definition is_format (x : Z) : Prop := 0 <= x < MAX_FORMAT.

(** What registration makes sure of, for formats with a bit. *)
Definition good (t : cw_translator) : Prop :=
  is_format (src_format t) /\ is_format (dst_format t) /\ 1 <= t_cost t.

(** The translators that can be used between two formats. *)
Definition edge (ts : list cw_translator) (t : cw_translator) : Prop :=
  t ∈ ts /\ src_format t <> dst_format t.

Fixpoint chain (x : Z) (l : list cw_translator) (z : Z) : Prop :=
  match l with
  | [] => x = z
  | t :: l => src_format t = x /\ chain (dst_format t) l z
  end.

Definition cost_of (l : list cw_translator) : Z := foldr (fun t c => t_cost t + c) 0 l.

(** A way from [x] to [z] with the translators [ts]. *)
Definition way (ts : list cw_translator) (x : Z) (l : list cw_translator) (z : Z) : Prop :=
  Forall (edge ts) l /\ chain x l z.

(** ** Walks *)

Section ways.
Context (ts : list cw_translator) (Hts : Forall good ts).

Lemma edge_good t : edge ts t -> good t.
Proof using Hts. intros [H _]. by eapply Forall_forall in Hts. Qed.

Lemma cost_of_app l k : cost_of (l ++ k) = cost_of l + cost_of k.
Proof. induction l as [|t l IH]; simpl; [done|]. rewrite IH. lia. Qed.

Lemma cost_of_nonneg l : Forall (edge ts) l -> 0 <= cost_of l.
Proof using Hts.
  induction 1 as [|t l Ht _ IH]; simpl; [lia|].
  apply edge_good in Ht as (_ & _ & ?). lia.
Qed.

Lemma chain_app x l k z : chain x (l ++ k) z <-> exists y, chain x l y /\ chain y k z.
Proof.
  revert x. induction l as [|t l IH]; intros x; simpl.
  - split; [by exists x|]. by intros (y & -> & ?).
  - rewrite IH. split.
    + intros (? & y & ? & ?). eauto.
    + intros (y & [? ?] & ?). eauto.
Qed.

Lemma way_app x l y k z : way ts x l y -> way ts y k z -> way ts x (l ++ k) z.
Proof.
  intros [? ?] [? ?]. split; [by apply Forall_app|]. apply chain_app. eauto.
Qed.

Lemma way_cons x t l z :
  way ts x (t :: l) z <-> edge ts t /\ src_format t = x /\ way ts (dst_format t) l z.
Proof. unfold way. rewrite Forall_cons. simpl. tauto. Qed.

Lemma way_format x l z : way ts x l z -> l <> [] -> is_format x /\ is_format z.
Proof using Hts.
  revert x. induction l as [|t l IH]; intros x Hw Hl; [done|].
  apply way_cons in Hw as (Ht & <- & Hw). apply edge_good in Ht as (? & ? & _).
  split; [done|]. destruct l as [|u l]; [by destruct Hw as [_ <-]|].
  by eapply IH.
Qed.

(** A list of formats without repetition is not longer than [MAX_FORMAT]. *)
Lemma formats_bound l : NoDup l -> Forall is_format l -> (length l <= 32)%nat.
Proof.
  intros Hd Hf. change 32%nat with (length formats). apply NoDup_incl_length.
  - by apply NoDup_ListNoDup.
  - intros x Hx. apply list_elem_of_In in Hx. eapply Forall_forall in Hf; [|exact Hx].
    apply list_elem_of_In, elem_of_seqZ. unfold is_format, MAX_FORMAT in *. lia.
Qed.

Lemma not_NoDup_split {A} `{EqDecision A} (f : cw_translator -> A) l :
  ~ NoDup (f <$> l) -> exists l1 t l2 u l3, l = l1 ++ t :: l2 ++ u :: l3 /\ f t = f u.
Proof.
  induction l as [|t l IH]; intros Hn; [by destruct Hn; constructor|].
  destruct (decide (f t ∈ f <$> l)) as [Hin|Hin].
  - apply list_elem_of_fmap in Hin as (u & Hu & Hin).
    apply list_elem_of_split in Hin as (l2 & l3 & ->). by exists [], t, l2, u, l3.
  - destruct IH as (l1 & t' & l2 & u & l3 & -> & ?).
    { intros Hd. apply Hn. by constructor. }
    by exists (t :: l1), t', l2, u, l3.
Qed.

(** Every way has one that is no longer than [MAX_FORMAT] and costs no more. *)
Lemma short_way x l z :
  way ts x l z -> x <> z ->
  exists l', way ts x l' z /\ cost_of l' <= cost_of l /\ (length l' <= 32)%nat /\ l' <> [].
Proof using Hts.
  remember (length l) as n eqn:En. revert l En.
  induction n as [n IH] using lt_wf_ind. intros l En Hw Hxz.
  destruct (decide (NoDup (src_format <$> l))) as [Hd|Hd].
  - exists l. split_and!; [done|lia| |by intros ->; destruct Hw].
    erewrite <- length_fmap. apply formats_bound; [exact Hd|].
    apply Forall_fmap. destruct Hw as [He _]. eapply Forall_impl; [exact He|].
    intros t Ht. by apply edge_good in Ht as (? & _).
  - apply not_NoDup_split in Hd as (l1 & t & l2 & u & l3 & -> & Hs).
    destruct Hw as [He Hc]. 
    apply chain_app in Hc as (y & Hc1 & [Hy Hc2]). apply chain_app in Hc2 as (w & Hc2 & Hc3).
    apply Forall_app in He as [He1 He2]. apply Forall_cons in He2 as [Het He2].
    apply Forall_app in He2 as [He2 He3].
    destruct (IH (length (l1 ++ u :: l3))) with (l := l1 ++ u :: l3) as (l' & ? & Hcost & ? & ?).
    + subst n. rewrite !length_app. simpl. rewrite length_app. simpl. lia.
    + done.
    + split; [by apply Forall_app|]. apply chain_app. exists y. split; [done|].
      destruct Hc3 as [Hw Hc3]. split; [by rewrite <- Hs|done].
    + done.
    + exists l'. split_and!; [done| |done..]. apply edge_good in Het as (_ & _ & ?).
      pose proof (cost_of_nonneg l2 He2).
      rewrite cost_of_app in *. simpl. rewrite cost_of_app. simpl in *. lia.
Qed.
End ways.

(** ** The closure of the matrix *)

(** Every cell is backed by a way that starts with its step. *)
Definition sound (ts : list cw_translator) (m : matrix) : Prop :=
  forall x z c, m !! (x, z) = Some c -> x <> z ->
    exists l, way ts x (step c :: l) z /\ cost c = cost_of (step c :: l).

(** No way of at most [k] steps is cheaper than its cell. *)
Definition upto (ts : list cw_translator) (k : nat) (m : matrix) : Prop :=
  forall x l z, way ts x l z -> x <> z -> (length l <= k)%nat ->
    exists c, m !! (x, z) = Some c /\ cost c <= cost_of l.

(** The matrix of the cheapest ways. *)
Definition matrix_ok (ts : list cw_translator) (m : matrix) : Prop :=
  sound ts m /\ forall k, upto ts k m.

Definition improves (m m' : matrix) : Prop :=
  forall p c, m !! p = Some c -> exists c', m' !! p = Some c' /\ cost c' <= cost c.

#[export] Instance improves_preorder : PreOrder improves.
Proof.
  split; [by intros m p c H; exists c|]. intros m1 m2 m3 H1 H2 p c H.
  apply H1 in H as (c' & H & ?). apply H2 in H as (c'' & ? & ?).
  exists c''. split; [done|lia].
Qed.

Lemma improves_insert (m : matrix) p c :
  (forall c', m !! p = Some c' -> cost c <= cost c') -> improves m (<[p := c]> m).
Proof.
  intros Hc q d Hd. destruct (decide (q = p)) as [->|].
  - exists c. rewrite lookup_insert_eq. auto.
  - exists d. by rewrite lookup_insert_ne.
Qed.

(** The state of the rounds: no change is counted only if there was none. *)
Definition grows (st st' : matrix * Z) : Prop :=
  improves st.1 st'.1 /\ st.2 <= st'.2 /\ (st.2 = st'.2 -> st.1 = st'.1).

#[export] Instance grows_preorder : PreOrder grows.
Proof.
  split; [by intros st; split_and!|].
  intros a b c (I1 & L1 & E1) (I2 & L2 & E2). split_and!; [by etrans|lia|].
  intros E. rewrite E1, E2; [done|lia|lia].
Qed.

Lemma relax_grows x y z st st' : relax x y z st = Some st' -> grows st st'.
Proof.
  destruct st as [m ch]. unfold relax.
  destruct (m !! (x, y)) as [a|]; [|by intros [= <-]].
  destruct (m !! (y, z)) as [b|]; [|by intros [= <-]].
  case_if; [done|]. destruct (m !! (x, z)) as [c|] eqn:Ec.
  - case_if; intros [= <-]; [|done]. b2p. split_and!; simpl; [|lia..].
    apply improves_insert. intros c' Hc'. simplify_eq. simpl. lia.
  - intros [= <-]. split_and!; simpl; [|lia..]. apply improves_insert.
    intros c' Hc'. by rewrite Hc' in Ec.
Qed.

Lemma relax_hit x y z m ch m' ch' a b :
  relax x y z (m, ch) = Some (m', ch') -> m !! (x, y) = Some a -> m !! (y, z) = Some b ->
  exists c, m' !! (x, z) = Some c /\ cost c <= cost a + cost b.
Proof.
  unfold relax. intros H Ha Hb. rewrite Ha, Hb in H. case_if_in H; [done|].
  destruct (m !! (x, z)) as [c|] eqn:Ec; [case_if_in H|]; simplify_eq.
  - eexists. rewrite lookup_insert_eq. split; [done|simpl; lia].
  - exists c. b2p. split; [done|lia].
  - eexists. rewrite lookup_insert_eq. split; [done|simpl; lia].
Qed.

Lemma relax_sound ts x y z m ch m' ch' :
  sound ts m -> x <> y -> y <> z -> x <> z ->
  relax x y z (m, ch) = Some (m', ch') -> sound ts m'.
Proof.
  intros Hs Hxy Hyz Hxz. unfold relax.
  destruct (m !! (x, y)) as [a|] eqn:Ea; [|by intros [= <- <-]].
  destruct (m !! (y, z)) as [b|] eqn:Eb; [|by intros [= <- <-]].
  case_if; [done|].
  assert (sound ts (<[(x, z) := {| step := step a; cost := cost a + cost b |}]> m)) as Hput.
  { intros x' z' c Hc Hne. destruct (decide ((x', z') = (x, z))) as [[= -> ->]|Hd].
    - rewrite lookup_insert_eq in Hc. simplify_eq. simpl.
      destruct (Hs _ _ _ Ea Hxy) as (la & Wa & Ca). destruct (Hs _ _ _ Eb Hyz) as (lb & Wb & Cb).
      exists (la ++ step b :: lb). split; [exact (way_app ts x (step a :: la) y _ z Wa Wb)|].
      rewrite Ca, Cb. symmetry. apply (cost_of_app (step a :: la)).
    - rewrite lookup_insert_ne in Hc by congruence. exact (Hs _ _ _ Hc Hne). }
  destruct (m !! (x, z)); [case_if|]; intros [= <- <-]; done.
Qed.

(** The body of one round, for three different formats. *)
Lemma sweep_body (P : matrix * Z -> Prop) m st' :
  (forall x y z st st', x <> y -> y <> z -> x <> z -> P st -> relax x y z st = Some st' -> P st') ->
  P (m, 0) -> sweep m = Some st' -> P st'.
Proof.
  intros Hr Hp. apply for_each_ind; [|done]. intros x b b' _ Hb. apply for_each_ind; [|done].
  intros y c c' _ Hc. destruct (Z.eqb_spec x y) as [->|]; [by intros [= <-]|].
  apply for_each_ind; [|done]. intros z d d' _ Hd.
  destruct (Z.eqb_spec x z) as [->|]; [by intros [= <-]|].
  destruct (Z.eqb_spec y z) as [->|]; [by intros [= <-]|]. simpl. by apply Hr.
Qed.

Lemma sweep_grows m st : sweep m = Some st -> grows (m, 0) st.
Proof.
  apply (sweep_body (grows (m, 0))); [|done].
  intros x y z st0 st' _ _ _ Hg Hr. etrans; [exact Hg|by eapply relax_grows].
Qed.

Lemma sweep_sound ts m m' ch : sound ts m -> sweep m = Some (m', ch) -> sound ts m'.
Proof.
  intros Hs H. refine (sweep_body (fun st => sound ts st.1) m (m', ch) _ _ H); [|done].
  intros x y z [m1 c1] [m2 c2] ? ? ? Hp. by eapply relax_sound.
Qed.

Lemma sweep_hit x y z m m' ch :
  is_format x -> is_format y -> is_format z -> x <> y -> y <> z -> x <> z ->
  sweep m = Some (m', ch) ->
  exists st st', grows (m, 0) st /\ relax x y z st = Some st' /\ grows st' (m', ch).
Proof.
  intros Hx Hy Hz Hxy Hyz Hxz H.
  assert (forall u, is_format u -> u ∈ formats) as Hin.
  { intros u Hu. apply elem_of_seqZ. unfold is_format in Hu. lia. }
  assert (forall x y z b b', (if (x =? z) || (y =? z) then Some b else relax x y z b) = Some b' ->
            grows b b') as G1.
  { intros x' y' z' b b'. case_if; [by intros [= <-]|apply relax_grows]. }
  assert (forall x y b b', (if x =? y then Some b else for_each (fun z st =>
            if (x =? z) || (y =? z) then Some st else relax x y z st) formats b) = Some b' ->
            grows b b') as G2.
  { intros x' y' b b'. case_if; [by intros [= <-]|]. apply for_each_rel; [apply _|]. apply G1. }
  unfold sweep in H. eapply (for_each_hit grows _ _ _ _ x) in H as (b & b' & Gb & H & Gb');
    [|intros x' c c'; apply for_each_rel; [apply _|]; apply G2|auto].
  eapply (for_each_hit grows _ _ _ _ y) in H as (c & c' & Gc & H & Gc'); [|apply G2|auto].
  destruct (Z.eqb_spec x y); [done|].
  eapply (for_each_hit grows _ _ _ _ z) in H as (d & d' & Gd & H & Gd'); [|apply G1|auto].
  destruct (Z.eqb_spec x z); [done|]. destruct (Z.eqb_spec y z); [done|].
  exists d, d'. split_and!; [|done|].
  - etrans; [exact Gb|]. by etrans.
  - etrans; [exact Gd'|]. by etrans.
Qed.

(** A round looks one step further. *)
Lemma sweep_upto ts k m m' ch :
  Forall good ts -> (1 <= k)%nat -> upto ts k m -> sweep m = Some (m', ch) ->
  upto ts (Datatypes.S k) m'.
Proof.
  intros Hts Hk Hu H x l z Hw Hxz Hl.
  pose proof (sweep_grows _ _ H) as [Hi _]. simpl in Hi.
  assert (forall l', way ts x l' z -> (length l' <= k)%nat -> cost_of l' <= cost_of l ->
    exists c, m' !! (x, z) = Some c /\ cost c <= cost_of l) as Hshort.
  { intros l' Hw' Hl' Hc. destruct (Hu _ _ _ Hw' Hxz Hl') as (c & Hc1 & ?).
    apply Hi in Hc1 as (c' & ? & ?). exists c'. split; [done|lia]. }
  destruct l as [|t l]; [by destruct Hw|]. simpl in Hl.
  assert (Hw' := Hw). apply way_cons in Hw' as (Ht & Hx & Hwl).
  assert (way ts x [t] (dst_format t)) as Hw1
    by (split; [by apply Forall_singleton|by split]).
  assert (Hwl' := Hwl). destruct Hwl' as [Hel _].
  pose proof (cost_of_nonneg ts Hts l Hel). pose proof (proj2 Ht) as Hne. rewrite Hx in Hne.
  destruct (decide (dst_format t = z)) as [Hd|Hd].
  { rewrite Hd in Hw1. apply (Hshort [t]); simpl; [done|lia|lia]. }
  destruct (Hu _ _ _ Hw1 Hne) as (a & Ha & Ca); [simpl; lia|].
  destruct (Hu _ _ _ Hwl Hd) as (b & Hb & Cb); [lia|].
  destruct (way_format ts Hts _ _ _ Hw) as [Fx Fz]; [done|].
  destruct (way_format ts Hts _ _ _ Hw1) as [_ Fy]; [done|].
  destruct (sweep_hit x (dst_format t) z m m' ch) as ([m1 c1] & [m2 c2] & (I1 & _) & Hr & (I2 & _));
    [done..|]. simpl in I1, I2.
  apply I1 in Ha as (a' & Ha & ?). apply I1 in Hb as (b' & Hb & ?).
  destruct (relax_hit _ _ _ _ _ _ _ _ _ Hr Ha Hb) as (c & Hc & ?).
  apply I2 in Hc as (c' & Hc & ?). exists c'. split; [done|]. simpl in *. lia.
Qed.

(** A round that changes nothing has everything. *)
Lemma sweep_fixed ts m : Forall good ts -> upto ts 1 m -> sweep m = Some (m, 0) ->
  forall k, upto ts k m.
Proof.
  intros Hts H1 Hs k. induction k as [|k IH].
  - intros x l z Hw Hxz Hl. apply (H1 x l z); [done..|lia].
  - destruct k as [|k]; [done|]. eapply sweep_upto; [done| |exact IH|exact Hs]. lia.
Qed.

(** A matrix of the cheapest ways is not changed. *)
Lemma sweep_ok_unchanged ts m st :
  matrix_ok ts m -> sweep m = Some st -> st = (m, 0).
Proof.
  intros [Hs Hu]. apply (sweep_body (fun st => st = (m, 0))); [|done].
  intros x y z st0 st' Hxy Hyz Hxz -> Hr. unfold relax in Hr.
  destruct (m !! (x, y)) as [a|] eqn:Ea; [|by simplify_eq].
  destruct (m !! (y, z)) as [b|] eqn:Eb; [|by simplify_eq].
  destruct (Hs _ _ _ Ea Hxy) as (la & Wa & Ca). destruct (Hs _ _ _ Eb Hyz) as (lb & Wb & Cb).
  pose proof (way_app ts _ _ _ _ _ Wa Wb) as W.
  destruct (Hu _ _ _ _ W Hxz ltac:(reflexivity)) as (c & Hc & Cc).
  rewrite cost_of_app in Cc. rewrite Hc in Hr.
  case_if_in Hr; [done|]. case_if_in Hr; [b2p; lia|]. by simplify_eq.
Qed.

Lemma upto_all ts m : Forall good ts -> upto ts 32 m -> forall k, upto ts k m.
Proof.
  intros Hts H k x l z Hw Hxz _.
  destruct (short_way ts Hts x l z Hw Hxz) as (l' & Hw' & ? & Hl' & _).
  destruct (H x l' z Hw' Hxz Hl') as (c & ? & ?). exists c. split; [done|lia].
Qed.

(** The rounds end with the cheapest ways, unless a sum of costs overflows. *)
Lemma close_matrix_ok ts fuel k m :
  Forall good ts -> sound ts m -> upto ts k m -> (1 <= k)%nat -> (32 <= k + fuel)%nat ->
  close_matrix fuel m = Overflow \/
  exists m', close_matrix fuel m = Done m' /\ matrix_ok ts m'.
Proof.
  intros Hts. revert k m. induction fuel as [|fuel IH]; intros k m Hs Hu Hk Hf; cbn [close_matrix];
    destruct (sweep m) as [[m' ch]|] eqn:E; try by left.
  all: pose proof (sweep_grows _ _ E) as (_ & _ & Hch); simpl in Hch.
  all: destruct (Z.eqb_spec ch 0) as [->|Hne];
    [rewrite <- Hch in * by done; right; exists m; split; [done|]; split; [done|];
     apply sweep_fixed; [done| |done]; intros x l z ? ? ?; apply Hu; [done..|lia]|].
  - exfalso. apply Hne.
    assert (matrix_ok ts m) as Hok.
    { split; [done|]. apply upto_all; [done|]. intros x l z ? ? ?. apply Hu; [done..|lia]. }
    apply (sweep_ok_unchanged ts m (m', ch)) in Hok; [|done]. by simplify_eq.
  - apply (IH (Datatypes.S k)); [by eapply sweep_sound|by eapply sweep_upto|lia|lia].
Qed.

(** ** The direct translators *)

Lemma add_direct_improves m t : improves m (add_direct m t).
Proof.
  unfold add_direct. destruct (m !! _) as [c|] eqn:E; [case_if; [|done]|]; apply improves_insert;
    intros c' Hc'; rewrite E in Hc'; simplify_eq; simpl; b2p; lia.
Qed.

Lemma add_direct_covers m t :
  exists c, add_direct m t !! (src_format t, dst_format t) = Some c /\ cost c <= t_cost t.
Proof.
  unfold add_direct. destruct (m !! (src_format t, dst_format t)) as [c|] eqn:E; [case_if|].
  - eexists. rewrite lookup_insert_eq. split; [done|simpl; lia].
  - exists c. b2p. split; [done|lia].
  - eexists. rewrite lookup_insert_eq. split; [done|simpl; lia].
Qed.

Lemma add_direct_sound ts m t : sound ts m -> t ∈ ts -> sound ts (add_direct m t).
Proof.
  intros Hs Ht.
  assert (sound ts (<[(src_format t, dst_format t) := {| step := t; cost := t_cost t |}]> m)) as Hp.
  { intros x z c Hc Hne. destruct (decide ((x, z) = (src_format t, dst_format t))) as [[= -> ->]|Hd].
    - rewrite lookup_insert_eq in Hc. simplify_eq. simpl. exists [].
      split; [|simpl; lia]. split; [by apply Forall_singleton|by split].
    - rewrite lookup_insert_ne in Hc by congruence. exact (Hs _ _ _ Hc Hne). }
  unfold add_direct. destruct (m !! _); [case_if|]; done.
Qed.

Lemma direct_improves l m : improves m (foldl add_direct m l).
Proof.
  revert m. induction l as [|t l IH]; intros m; simpl; [done|].
  etrans; [apply add_direct_improves|apply IH].
Qed.

Lemma direct_covers l m t :
  t ∈ l -> exists c, foldl add_direct m l !! (src_format t, dst_format t) = Some c /\
                     cost c <= t_cost t.
Proof.
  intros Ht. revert m. induction Ht as [t l|t u l Ht IH]; intros m; simpl; [|apply IH].
  destruct (add_direct_covers m t) as (c & Hc & ?).
  apply (direct_improves l) in Hc as (c' & ? & ?). exists c'. split; [done|lia].
Qed.

Lemma direct_sound ts l m : sound ts m -> l ⊆ ts -> sound ts (foldl add_direct m l).
Proof.
  revert m. induction l as [|t l IH]; intros m Hs Hl; simpl; [done|].
  apply IH; [apply add_direct_sound; set_solver|set_solver].
Qed.

Lemma direct_upto ts : upto ts 1 (foldl add_direct ∅ ts).
Proof.
  intros x [|t [|u l]] z Hw Hxz Hl; simpl in Hl; [by destruct Hw|..|lia].
  destruct Hw as [He [Hx Hz]]. simpl in Hz. subst x z. apply Forall_singleton in He as [Ht _].
  destruct (direct_covers ts ∅ t Ht) as (c & ? & ?). exists c. split; [done|simpl; lia].
Qed.

(** ** Registered translators *)

Definition trans_ok (st : trans_state) : Prop :=
  Forall good (list_ st) /\ matrix_ok (list_ st) (tr_matrix st).

Lemma rebuild_ok fuel clock samples l l' :
  measure_all fuel clock samples l = Some l' -> Forall good l' ->
  rebuild_matrix fuel clock samples l = Overflow \/
  exists st, rebuild_matrix fuel clock samples l = Done st /\ list_ st = l' /\ trans_ok st.
Proof.
  intros Hm Hg. unfold rebuild_matrix. rewrite Hm.
  destruct (close_matrix_ok l' (Z.to_nat MAX_FORMAT) 1 (foldl add_direct ∅ l'))
    as [->|(m & -> & Hok)]; [done| |apply direct_upto|lia|unfold MAX_FORMAT; lia|by left|].
  - apply direct_sound; [|done]. intros x z c Hc. by rewrite lookup_empty in Hc.
  - right. eexists. split_and!; [done..|]. by split.
Qed.

Lemma calc_cost_spec fuel start stop t secs t' :
  calc_cost fuel start stop t secs = Some t' ->
  1 <= t_cost t' /\ src_format t' = src_format t /\ dst_format t' = dst_format t.
Proof.
  unfold calc_cost. intros H.
  assert (forall c, 1 <= c -> t' = t <| t_cost := c |> ->
    1 <= t_cost t' /\ src_format t' = src_format t /\ dst_format t' = dst_format t) as Hc
    by (intros c ? ->; simpl; done).
  destruct (sample t) as [smp|]; [|simplify_eq; by eapply (Hc 99999)].
  destruct (newpvt t 0%nat) as [pvt|]; [|simplify_eq; by eapply (Hc 99999)].
  destruct (cost_loop _ _ _ _ _ _ _) as [[]|]; simpl in H; simplify_eq.
  - eapply Hc; [|done]. case_if; b2p; lia.
  - by eapply (Hc 99999).
Qed.

Lemma measure_all_good fuel clock samples l l' :
  measure_all fuel clock samples l = Some l' -> Forall good l -> Forall good l'.
Proof.
  unfold measure_all. case_if; [by intros [= <-]|]. intros H Hl.
  apply mapM_Some in H. induction H as [|t t' l l' Ht H IH]; [done|].
  apply Forall_cons in Hl as [(? & ? & _) Hl]. constructor; [|auto].
  apply calc_cost_spec in Ht as (? & E1 & E2). unfold good. by rewrite E1, E2.
Qed.

Lemma unlink_subset addr l l' : unlink_translator addr l = Some l' -> l' ⊆ l.
Proof.
  revert l'. induction l as [|u l IH]; intros l'; simpl; [done|].
  case_if; [intros [= <-]; set_solver|].
  destruct (unlink_translator addr l) as [k|]; simpl; [|done].
  intros [= <-]. intros t Ht. apply elem_of_cons in Ht as [->|Ht]; [constructor|].
  constructor. by apply (IH k eq_refl).
Qed.

(** ** The way the matrix leads *)

Definition dist (m : matrix) (x z : Z) : Z :=
  if x =? z then 0 else match m !! (x, z) with Some c => cost c | None => 0 end.

Section path.
Context (ts : list cw_translator) (m : matrix) (Hts : Forall good ts) (Hok : matrix_ok ts m).

(** After the step of a cell the rest of the way is as cheap as promised. *)
Lemma cell_next x z c :
  m !! (x, z) = Some c -> x <> z ->
  edge ts (step c) /\ src_format (step c) = x /\
  dist m (dst_format (step c)) z = cost c - t_cost (step c) /\
  (dst_format (step c) = z \/ exists d, m !! (dst_format (step c), z) = Some d).
Proof using Hts Hok.
  intros Hc Hxz. destruct Hok as [Hs Hu].
  destruct (Hs _ _ _ Hc Hxz) as (l & Hw & Hcost). assert (Hw' := Hw).
  apply way_cons in Hw' as (He & Hsrc & Hl). split_and!; [done..| |].
  2: { destruct (decide (dst_format (step c) = z)) as [|Hd]; [by left|right].
       destruct (Hu (length l) _ l _ Hl Hd) as (d & ? & _); [done|]. by exists d. }
  unfold dist. destruct (Z.eqb_spec (dst_format (step c)) z) as [Hz|Hd].
  - assert (way ts x [step c] z) as H1 by (split; [by apply Forall_singleton|by split]).
    destruct (Hu 1%nat _ _ _ H1 Hxz) as (c' & Hc' & ?); [done|]. simplify_eq.
    destruct Hl as [Hl _]. pose proof (cost_of_nonneg ts Hts l Hl). simpl in *. lia.
  - destruct (Hu (length l) _ l _ Hl Hd) as (d & Hd1 & Hd2); [done|]. rewrite Hd1.
    destruct (Hs _ _ _ Hd1 Hd) as (l' & Hw' & Hcost').
    assert (way ts x (step c :: step d :: l') z) as H2 by (apply way_cons; auto).
    destruct (Hu _ _ _ _ H2 Hxz ltac:(reflexivity)) as (c' & Hc' & ?). simplify_eq.
    simpl in *. lia.
Qed.

(** What the loop may end with. *)
Definition path_result (alloc : nat -> bool) (source dest : Z) (acc : list cw_trans_pvt)
    (r : built) : Prop :=
  match r with
  | Built p => exists q, p = reverse acc ++ q /\
      way ts source (p_step <$> q) dest /\ cost_of (p_step <$> q) = dist m source dest
  | NoPath left_over => left_over = [] /\ source <> dest /\ m !! (source, dest) = None
  | NoMemory freed =>
      alloc (length freed) = false \/ exists t, edge ts t /\ newpvt t (length freed) = None
  | Endless => False
  end.

Lemma path_loop_ok fuel alloc source dest acc visited :
  is_format source -> Forall is_format visited -> NoDup visited ->
  Forall (fun v => dist m source dest < dist m v dest) visited ->
  (32 <= length visited + fuel)%nat ->
  acc = [] \/ source = dest \/ (exists c, m !! (source, dest) = Some c) ->
  path_result alloc source dest acc (path_loop fuel alloc m source dest acc).
Proof using Hts Hok.
  revert source acc visited. induction fuel as [|fuel IH];
    intros source acc visited Hf Hfv Hnd Hv Hl Hacc; cbn [path_loop];
    destruct (Z.eqb_spec source dest) as [->|Hne].
  1, 3: exists []; rewrite app_nil_r; unfold dist; rewrite Z.eqb_refl; split_and!; done.
  - assert (source ∉ visited) as Hn.
    { intros Hin. eapply Forall_forall in Hv; [|exact Hin]. simpl in Hv. lia. }
    pose proof (formats_bound (source :: visited)) as Hb. simpl in Hb.
    specialize (Hb ltac:(by constructor) ltac:(by constructor)). lia.
  - destruct (m !! (source, dest)) as [c|] eqn:Ec.
    2: { simpl. destruct Hacc as [->|[?|[c ?]]]; done. }
    destruct (cell_next source dest c Ec Hne) as (He & Hsrc & Hd & Hnext).
    destruct (alloc (length acc)) eqn:Ea.
    2: { simpl. left. by rewrite length_reverse. }
    simpl. destruct (newpvt (step c) (length acc)) as [s0|] eqn:Es.
    2: { simpl. right. exists (step c). by rewrite length_reverse. }
    assert (dist m source dest = cost c) as Hds.
    { unfold dist. destruct (Z.eqb_spec source dest); [done|]. by rewrite Ec. }
    destruct (edge_good ts Hts _ He) as (_ & Hfd & Hpos).
    assert (Forall (fun v => dist m (dst_format (step c)) dest < dist m v dest)
              (source :: visited)) as Hv'.
    { constructor; [lia|]. eapply Forall_impl; [exact Hv|]. simpl. intros. lia. }
    assert (source ∉ visited) as Hn.
    { intros Hin. eapply Forall_forall in Hv; [|exact Hin]. simpl in Hv. lia. }
    set (tmp := {| p_step := step c; p_state := s0; nextin := _; nextout := _ |}).
    specialize (IH (dst_format (step c)) (tmp :: acc) (source :: visited) Hfd
      ltac:(by constructor) ltac:(by constructor) Hv' ltac:(simpl; lia) ltac:(auto)).
    destruct (path_loop _ _ _ _ _ _) as [p|lo|fr|]; simpl in *; [|..|done].
    + destruct IH as (q & -> & Hw & Hcost). exists (tmp :: q).
      rewrite reverse_cons, <- app_assoc. split; [done|]. split.
      * rewrite fmap_cons. apply way_cons. auto.
      * rewrite fmap_cons, Hds. change (t_cost (step c) + cost_of (p_step <$> q) = cost c). lia.
    + destruct IH as (-> & Hdd & Hmm). destruct Hnext as [?|[d Hd']]; [done|].
      by rewrite Hmm in Hd'.
    + exact IH.
Qed.

End path.

(** ** The best choice *)

Section choice.
Context (m : matrix) (dst srcs : Z) (Hd : 0 <= dst < 2 ^ 31) (Hs : 0 <= srcs < 2 ^ 31).

Lemma bit_of_int v k :
  0 <= v < 2 ^ 31 -> 0 <= k < 32 ->
  negb (Z.land (s32 (2 ^ k)) v =? 0) = Z.testbit v k.
Proof.
  intros Hv Hk. destruct (Z.eq_dec k 31) as [->|].
  - rewrite (Z.bits_above_log2 v 31).
    + change (s32 (2 ^ 31)) with (Z.lnot (Z.ones 31)). rewrite Z.land_comm, <- Z.ldiff_land.
      rewrite Z.ldiff_ones_r, Z.shiftr_div_pow2, Z.div_small, Z.shiftl_0_l by lia. done.
    + lia.
    + destruct (Z.eq_dec v 0) as [->|]; [simpl; lia|]. apply Z.log2_lt_pow2; lia.
  - rewrite s32_id, Z.land_comm; [apply land_pow2_testbit; lia|].
    unfold INT_MIN, INT_MAX. assert (0 < 2 ^ k <= 2 ^ 30); [|lia].
    split; [apply Z.pow_pos_nonneg; lia|apply Z.pow_le_mono_r; lia].
Qed.

Lemma next_cur k : 0 <= k < 31 -> s32 (Z.shiftl (s32 (2 ^ k)) 1) = s32 (2 ^ (k + 1)).
Proof.
  intros Hk. assert (0 < 2 ^ k <= 2 ^ 30)
    by (split; [apply Z.pow_pos_nonneg; lia|apply Z.pow_le_mono_r; lia]).
  rewrite (s32_id (2 ^ k)) by (unfold INT_MIN, INT_MAX; lia).
  rewrite Z.shiftl_mul_pow2, Z.pow_add_r by lia. done.
Qed.

Lemma common_loop_spec n k common b :
  0 < common < 2 ^ 31 -> 0 <= k -> k + Z.of_nat n = 32 ->
  common_loop n (s32 (2 ^ k)) common b =
    if k <=? Z.log2 common then (2 ^ Z.log2 common, 2 ^ Z.log2 common) else b.
Proof.
  intros Hc. assert (0 <= Z.log2 common < 31)
    by (split; [apply Z.log2_nonneg|apply Z.log2_lt_pow2; lia]).
  revert k b. induction n as [|n IH]; intros k b Hk Hn; cbn [common_loop].
  { destruct (Z.leb_spec k (Z.log2 common)); [lia|done]. }
  rewrite bit_of_int by lia.
  destruct n as [|n].
  { cbn [common_loop]. rewrite Z.bits_above_log2 by lia.
    destruct (Z.leb_spec k (Z.log2 common)); [lia|done]. }
  rewrite next_cur, IH by lia.
  destruct (Z.leb_spec (k + 1) (Z.log2 common)), (Z.leb_spec k (Z.log2 common)); try lia; [done| |].
  - replace k with (Z.log2 common) by lia. rewrite Z.bit_log2 by lia.
    rewrite s32_id; [done|]. unfold INT_MIN, INT_MAX.
    assert (0 < 2 ^ Z.log2 common <= common) by (split; [apply Z.pow_pos_nonneg|apply Z.log2_spec]; lia).
    lia.
  - by rewrite Z.bits_above_log2 by lia.
Qed.

(** A source and a destination that are asked for and have a way. *)
Definition avail (x y : Z) (c : cw_translator_dir) : Prop :=
  Z.testbit srcs x = true /\ Z.testbit dst y = true /\ m !! (x, y) = Some c.

(** [b] is the cheapest of the pairs in [P]. *)
Definition best_of (P : Z -> Z -> Prop) (b : choice) : Prop :=
  (b = (-1, 0, INT_MAX) /\ forall x y c, P x y -> avail x y c -> False) \/
  exists x y c, b = (2 ^ x, 2 ^ y, cost c) /\ avail x y c /\ cost c < INT_MAX /\
    forall x' y' c', P x' y' -> avail x' y' c' -> cost c <= cost c'.

Lemma best_of_weaken (P Q : Z -> Z -> Prop) b :
  (forall x y, Z.testbit dst y = true -> Q x y -> P x y) -> best_of P b -> best_of Q b.
Proof.
  intros HQ [[-> Hb]|(x0 & y0 & c0 & -> & A0 & L0 & Hb)]; [left|right].
  - split; [done|]. intros x y c Hq A. eapply Hb; [apply HQ; [apply A|exact Hq]|exact A].
  - exists x0, y0, c0. do 3 (split; [done|]). intros x y c Hq A.
    eapply Hb; [apply HQ; [apply A|exact Hq]|exact A].
Qed.

Hypothesis Hcost : forall p c, m !! p = Some c -> cost c < INT_MAX.

Lemma pow2_int x : Z.testbit srcs x = true -> 0 <= x -> s32 (2 ^ x) = 2 ^ x /\ x < 31.
Proof using Hd Hs.
  intros Hx H0. assert (x < 31).
  { destruct (Z.lt_ge_cases x 31) as [|Hge]; [done|]. rewrite Z.bits_above_log2 in Hx; [done|lia|].
    destruct (Z.eq_dec srcs 0) as [->|]; [simpl; lia|].
    assert (Z.log2 srcs < 31) by (apply Z.log2_lt_pow2; lia). lia. }
  split; [|done]. apply s32_id. unfold INT_MIN, INT_MAX.
  assert (0 < 2 ^ x <= 2 ^ 30)
    by (split; [apply Z.pow_pos_nonneg; lia|apply Z.pow_le_mono_r; lia]). lia.
Qed.

Lemma choice_step_best P b x y :
  is_format x -> 0 <= y -> Z.testbit dst y = true -> best_of P b ->
  best_of (fun x' y' => P x' y' \/ (x' = x /\ y' = y)) (choice_step m srcs (2 ^ y) y x b).
Proof using Hd Hs Hcost.
  intros Hx Hy Hdy Hb. unfold is_format, MAX_FORMAT in Hx. unfold choice_step.
  destruct b as [[bs bd] bt].
  rewrite Z.shiftl_1_l, Z.land_comm, bit_of_int by lia.
  assert (forall c, avail x y c <-> Z.testbit srcs x = true /\ m !! (x, y) = Some c) as Ha
    by (intros c; unfold avail; tauto).
  destruct (m !! (x, y)) as [c|] eqn:E.
  2: { destruct Hb as [[-> Hb]|(x0 & y0 & c0 & -> & A0 & L0 & Hb)]; [left|right].
       - split; [done|]. intros x' y' c' [HP|[-> ->]] A; [eauto|]. by apply Ha in A as [_ ?].
       - exists x0, y0, c0. do 3 (split; [done|]). intros x' y' c' [HP|[-> ->]] A; [eauto|].
         by apply Ha in A as [_ ?]. }
  destruct (Z.testbit srcs x) eqn:Ex; simpl.
  2: { destruct Hb as [[-> Hb]|(x0 & y0 & c0 & -> & A0 & L0 & Hb)]; [left|right].
       - split; [done|]. intros x' y' c' [HP|[-> ->]] A; [eauto|]. by apply Ha in A as [? _].
       - exists x0, y0, c0. do 3 (split; [done|]). intros x' y' c' [HP|[-> ->]] A; [eauto|].
         by apply Ha in A as [? _]. }
  destruct (pow2_int x Ex ltac:(lia)) as [-> _]. pose proof (Hcost _ _ E).
  case_if; b2p; right.
  - exists x, y, c. split; [done|]. split; [by apply Ha|]. split; [done|].
    intros x' y' c' [HP|[-> ->]] A; [|apply Ha in A as [_ A]; simplify_eq; lia].
    destruct Hb as [[[= -> -> ->] Hb]|(x0 & y0 & c0 & [= -> -> ->] & A0 & L0 & Hb)];
      [by destruct (Hb _ _ _ HP A)|]. specialize (Hb _ _ _ HP A). lia.
  - destruct Hb as [[[= -> -> ->] Hb]|(x0 & y0 & c0 & [= -> -> ->] & A0 & L0 & Hb)]; [lia|].
    exists x0, y0, c0. do 3 (split; [done|]). intros x' y' c' [HP|[-> ->]] A; [eauto|].
    apply Ha in A as [_ A]. simplify_eq. lia.
Qed.

Lemma choice_row_best P b y xs :
  Forall is_format xs -> 0 <= y -> Z.testbit dst y = true -> best_of P b ->
  best_of (fun x' y' => P x' y' \/ (x' ∈ xs /\ y' = y))
    (foldl (fun b x => choice_step m srcs (2 ^ y) y x b) b xs).
Proof using Hd Hs Hcost.
  intros Hxs Hy Hdy. revert P b. induction Hxs as [|x xs Hx _ IH]; intros P b Hb; simpl.
  - eapply best_of_weaken; [|exact Hb]. intros x' y' _. set_solver.
  - eapply best_of_weaken; [|apply IH, choice_step_best; [exact Hx|done|done|exact Hb]].
    intros x' y' _. simpl. set_solver.
Qed.

Lemma choice_loop_best n k P b :
  0 <= k -> k + Z.of_nat n = 32 -> best_of P b ->
  best_of (fun x y => P x y \/ (is_format x /\ k <= y < 32))
    (choice_loop m srcs dst (seqZ k (Z.of_nat n)) (s32 (2 ^ k)) b).
Proof using Hd Hs Hcost.
  revert k P b. induction n as [|n IH]; intros k P b Hk Hn Hb.
  { eapply best_of_weaken; [|exact Hb]. simpl. intros x y _ [?|?]; [done|lia]. }
  rewrite seqZ_cons by lia. cbn [choice_loop]. rewrite bit_of_int by lia.
  replace (Z.pred (Z.of_nat (Datatypes.S n))) with (Z.of_nat n) by lia.
  assert (forall b', best_of (fun x y => P x y \/ (is_format x /\ y = k)) b' ->
    best_of (fun x y => P x y \/ (is_format x /\ k <= y < 32))
      (choice_loop m srcs dst (seqZ (Z.succ k) (Z.of_nat n)) (s32 (Z.shiftl (s32 (2 ^ k)) 1)) b'))
    as Hrest.
  { intros b' Hb'. destruct n as [|n].
    - eapply best_of_weaken; [|exact Hb']. intros x y _ [?|[? ?]]; [by left|right]. split; [done|lia].
    - rewrite next_cur by lia. eapply best_of_weaken; [|apply IH; [lia|lia|exact Hb']].
      intros x y _ [?|[? ?]]; [auto|]. destruct (decide (y = k)) as [->|]; [auto|].
      right. split; [done|lia]. }
  apply Hrest. destruct (Z.testbit dst k) eqn:Ek.
  - assert (s32 (2 ^ k) = 2 ^ k) as ->.
    { apply s32_id. unfold INT_MIN, INT_MAX.
      assert (k < 31).
      { destruct (Z.eq_dec k 31) as [->|]; [|lia]. rewrite Z.bits_above_log2 in Ek; [done|lia|].
        destruct (Z.eq_dec dst 0) as [->|]; [simpl; lia|]. apply Z.log2_lt_pow2; lia. }
      assert (0 < 2 ^ k <= 2 ^ 30)
        by (split; [apply Z.pow_pos_nonneg; lia|apply Z.pow_le_mono_r; lia]). lia. }
    eapply best_of_weaken; [|apply choice_row_best; [|done|done|exact Hb]].
    + intros x y _ [?|[? ?]]; [auto|]. right. split; [|done]. apply elem_of_seqZ.
      unfold is_format in *. lia.
    + apply Forall_forall. intros x Hx. apply elem_of_seqZ in Hx. unfold is_format. lia.
  - eapply best_of_weaken; [|exact Hb]. intros x y Hdy [?|[? ->]]; [done|]. by rewrite Ek in Hdy.
Qed.

(** Formats in common win, the one with the highest bit; otherwise the
    cheapest pair of formats that are asked for and have a way is chosen, and
    the answer is -1, with both sets unchanged, exactly when there is none. *)
Theorem best_choice_cheapest :
  let '(ret, dst', srcs') := cw_translator_best_choice m dst srcs in
  if negb (Z.land dst srcs =? 0) then
    ret = 0 /\ dst' = 2 ^ Z.log2 (Z.land dst srcs) /\ srcs' = dst'
  else
    (ret = -1 /\ dst' = dst /\ srcs' = srcs /\
       forall x y c, is_format x -> is_format y -> avail x y c -> False) \/
    (ret = 0 /\ exists x y c, dst' = 2 ^ y /\ srcs' = 2 ^ x /\ avail x y c /\
       forall x' y' c', is_format x' -> is_format y' -> avail x' y' c' -> cost c <= cost c').
Proof using Hd Hs Hcost.
  unfold cw_translator_best_choice. destruct (Z.eqb_spec (Z.land dst srcs) 0) as [E|E]; simpl negb;
    cbv iota.
  - pose proof (choice_loop_best 32 0 (fun _ _ => False) (-1, 0, INT_MAX)) as H.
    destruct H as [[H Hn]|(x & y & c & H & A & L & Hmin)]; [lia|done|left; by split|..];
      change (seqZ 0 (Z.of_nat 32)) with formats in H; change (s32 (2 ^ 0)) with 1 in H; rewrite H.
    + left. do 3 (split; [done|]). intros x y c Hx Hy. apply Hn. right. split; [done|].
      unfold is_format, MAX_FORMAT in Hy. lia.
    + destruct (Z.gtb_spec (2 ^ x) (-1)); [|pose proof (Z.pow_nonneg 2 x); lia].
      right. split; [done|]. exists x, y, c. do 3 (split; [done|]).
      intros x' y' c' Hx Hy. apply Hmin. right. split; [done|].
      unfold is_format, MAX_FORMAT in Hy. lia.
  - assert (0 <= Z.land dst srcs) by (apply Z.land_nonneg; lia).
    assert (Z.land dst srcs < 2 ^ 31).
    { assert (dst <> 0) by (intros ->; by rewrite Z.land_0_l in E).
      assert (Z.log2 dst < 31) by (apply Z.log2_lt_pow2; lia).
      pose proof (Z.log2_land dst srcs). apply Z.log2_lt_pow2; lia. }
    pose proof (common_loop_spec 32 0 (Z.land dst srcs) (-1, 0)) as H1.
    change (s32 (2 ^ 0)) with 1 in H1. change (Z.to_nat MAX_FORMAT) with 32%nat. rewrite H1 by lia.
    pose proof (Z.log2_nonneg (Z.land dst srcs)).
    destruct (Z.leb_spec 0 (Z.log2 (Z.land dst srcs))); [|lia].
    pose proof (Z.pow_nonneg 2 (Z.log2 (Z.land dst srcs))) as Hv.
    revert Hv. generalize (2 ^ Z.log2 (Z.land dst srcs)). intros v Hv.
    assert ((v >? -1) = true) as -> by lia. split_and!; reflexivity.
Qed.

End choice.

(** ** Delivery times *)

(** The frames of [fs] through a path, in order: what comes out, and the path.
    [clock] gives the time of each call. *)
Fixpoint translate_all (clock : nat -> timeval) (path : list cw_trans_pvt) (fs : list cw_frame)
    : list cw_frame * list cw_trans_pvt :=
  match fs, path with
  | f :: fs, head :: rest =>
    let '(out, path, _) := cw_translate (clock (length fs)) head rest f false in
    let '(outs, path) := translate_all clock path fs in
    (option_list out ++ outs, path)
  | _, _ => ([], path)
  end.

(** Each frame is delivered when the one before has been played. *)
Fixpoint contiguous (t : timeval) (fs : list cw_frame) : Prop :=
  match fs with
  | [] => True
  | f :: fs => f_delivery f = t /\ contiguous (cw_tvadd t (cw_samp2tv (f_samples f) 8000)) fs
  end.

Lemma samp2tv_nonneg n : 0 <= tv_sec (cw_samp2tv n 8000).
Proof.
  unfold cw_samp2tv. simpl. apply Z.quot_pos; [|done]. by apply wrap_u_bound.
Qed.

Lemma tvfix_sec t : tv_sec t <= tv_sec (tvfix t).
Proof.
  unfold tvfix, ONE_MILLION. case_if; b2p; simpl; [|case_if; simpl; lia].
  pose proof (Z.rem_nonneg (tv_usec t) 1000000). lia.
Qed.

Lemma tvadd_later t n : 0 < tv_sec t -> 0 < tv_sec (cw_tvadd t (cw_samp2tv n 8000)).
Proof.
  intros Ht. unfold cw_tvadd. pose proof (tvfix_sec t). pose proof (tvfix_sec (cw_samp2tv n 8000)).
  pose proof (samp2tv_nonneg n). case_if; simpl; lia.
Qed.

Lemma later_not_zero t : 0 < tv_sec t -> cw_tvzero t = false.
Proof. intros Ht. unfold cw_tvzero. destruct (Z.eqb_spec (tv_sec t) 0); [lia|done]. Qed.

Lemma tveq_refl t : cw_tveq t t = true.
Proof. unfold cw_tveq. by rewrite !Z.eqb_refl. Qed.

(** Only the states of the nodes change on the way. *)
Lemma run_path_head p rest :
  exists p' rest', (run_path p rest).2 = p' :: rest' /\ nextin p' = nextin p /\ nextout p' = nextout p.
Proof.
  destruct rest as [|q rest]; cbn [run_path];
    destruct (frameout (p_step p) (p_state p)) as [[out|] s0]; eauto.
  destruct (run_path _ rest) as [r rest']. eexists _, _. by split_and!.
Qed.

(** One call on a path whose next times are known. *)
Lemma translate_once now head rest f :
  0 < tv_sec (nextout head) -> 0 < tv_sec (nextin head) -> f_delivery f = nextin head ->
  exists out head' rest', cw_translate now head rest f false = (out, head' :: rest', None) /\
    nextin head' = cw_tvadd (nextin head) (cw_samp2tv (f_samples f) 8000) /\
    match out with
    | None => nextout head' = nextout head
    | Some o => f_delivery o = nextout head /\
        (f_frametype o <> CW_FRAME_CNG ->
         nextout head' = cw_tvadd (nextout head) (cw_samp2tv (f_samples o) 8000))
    end.
Proof.
  intros Ho Hi Hf. unfold cw_translate.
  set (p := predict_in _ f).
  assert (nextin p = cw_tvadd (nextin head) (cw_samp2tv (f_samples f) 8000) /\
          nextout p = nextout head) as [Hpi Hpo].
  { unfold p, predict_in. rewrite Hf, (later_not_zero (nextin head)) by done. simpl.
    rewrite (later_not_zero (nextin head)) by done. simpl. by rewrite tveq_refl. }
  clearbody p. destruct (run_path_head p rest) as (p' & rest' & Hr & E1 & E2).
  destruct (run_path p rest) as [[o|] path]; simpl in Hr; subst path.
  - destruct (deliver_out now (f_delivery f) f p' o) as [o' h'] eqn:Ed.
    exists (Some o'), h', rest'. split; [done|].
    unfold deliver_out in Ed. rewrite Hf, (later_not_zero (nextin head)) in Ed by done.
    rewrite E2, Hpo, later_not_zero in Ed by done. simpl in Ed.
    rewrite ?E2, ?Hpo in Ed.
    destruct (Z.eqb_spec (f_frametype o) CW_FRAME_CNG) as [Ec|Ec], (f_has_timing_info f);
      injection Ed as <- <-; simpl; split_and!; try done; by rewrite E1, Hpi.
  - exists None, p', rest'. split; [done|]. by rewrite E1, E2, Hpi, Hpo.
Qed.

Lemma translate_all_contiguous clock head rest fs :
  0 < tv_sec (nextout head) -> 0 < tv_sec (nextin head) -> contiguous (nextin head) fs ->
  let outs := (translate_all clock (head :: rest) fs).1 in
  Forall (fun o => f_frametype o <> CW_FRAME_CNG) outs -> contiguous (nextout head) outs.
Proof.
  revert head rest. induction fs as [|f fs IH]; intros head rest Ho Hi Hc; [done|].
  destruct Hc as [Hf Hc]. cbn [translate_all].
  destruct (translate_once (clock (length fs)) head rest f Ho Hi Hf)
    as (out & head' & rest' & -> & Ei & Eo).
  specialize (IH head' rest'). rewrite Ei in IH.
  destruct (translate_all clock (head' :: rest') fs) as [outs path]. simpl in *.
  destruct out as [o|]; simpl in *.
  - intros Hcng. apply Forall_cons in Hcng as [Hn Hcng]. destruct Eo as [Ed Eo].
    rewrite Eo in IH by done. split; [done|].
    apply IH; [by apply tvadd_later|by apply tvadd_later|done|done].
  - rewrite Eo in IH. apply IH; [done|by apply tvadd_later|done].
Qed.

(** C36: frames that follow each other without a gap come out of a new path
    without a gap, starting at the time of the first, however the translators split, join
    or hold them back, as long as none of the frames that come out is comfort noise
    (behind such a frame the prediction is given up and the next is timed by the clock). *)
Theorem translate_keeps_timing clock head rest f fs :
  nextin head = cw_tv 0 0 -> nextout head = cw_tv 0 0 ->
  0 < tv_sec (f_delivery f) -> contiguous (f_delivery f) (f :: fs) ->
  Forall (fun o => f_frametype o <> CW_FRAME_CNG) (translate_all clock (head :: rest) (f :: fs)).1 ->
  contiguous (f_delivery f) (translate_all clock (head :: rest) (f :: fs)).1.
Proof.
  intros Hi Ho Hd Hc.
  set (head1 := (head <| nextin := f_delivery f |>) <| nextout := f_delivery f |>).
  assert (translate_all clock (head :: rest) (f :: fs)
          = translate_all clock (head1 :: rest) (f :: fs)) as ->.
  { cbn [translate_all]. assert (forall now, cw_translate now head rest f false
      = cw_translate now head1 rest f false) as ->; [|done].
    intros now. unfold cw_translate. f_equal. unfold predict_in.
    rewrite (later_not_zero (f_delivery f)) by done. simpl.
    rewrite Hi, (later_not_zero (f_delivery f)) by done. simpl. by rewrite tveq_refl. }
  apply (translate_all_contiguous clock head1 rest (f :: fs)); done.
Qed.

Section reach.
Variable bottom_bit : Z -> Z.
Variable fuel : nat.
Variable clock : Z -> timeval * timeval.

(** Registration, of translators between formats with a bit, removal, and the
    measurement of all translators from the command line. *)
Inductive trans_step : trans_state -> trans_state -> Prop :=
  | step_register st t ret st' :
    0 <= bottom_bit (src_format t) -> 0 <= bottom_bit (dst_format t) ->
    cw_register_translator bottom_bit fuel clock st t = Done (ret, st') -> trans_step st st'
  | step_unregister st addr ret st' :
    cw_unregister_translator fuel clock st addr = Done (ret, st') -> trans_step st st'
  | step_recalc st samples st' :
    rebuild_matrix fuel clock samples (list_ st) = Done st' -> trans_step st st'.

Definition no_translators : trans_state := {| list_ := []; tr_matrix := ∅ |}.

Lemma rebuild_done samples l st :
  rebuild_matrix fuel clock samples l = Done st -> Forall good l -> trans_ok st.
Proof.
  intros H Hl. destruct (measure_all fuel clock samples l) as [l'|] eqn:E.
  - destruct (rebuild_ok fuel clock samples l l' E) as [H'|(st' & H' & _ & Hok)];
      [by eapply measure_all_good|by rewrite H in H'|]. rewrite H in H'. by simplify_eq.
  - unfold rebuild_matrix in H. by rewrite E in H.
Qed.

Lemma rebuild_plain l :
  Forall good l ->
  rebuild_matrix fuel clock 0 l = Overflow \/
  exists st, rebuild_matrix fuel clock 0 l = Done st /\ list_ st = l /\ trans_ok st.
Proof. by apply rebuild_ok. Qed.

Lemma register_cases st t :
  trans_ok st -> 0 <= bottom_bit (src_format t) -> 0 <= bottom_bit (dst_format t) ->
  match cw_register_translator bottom_bit fuel clock st t with
  | Done (ret, st') => trans_ok st' /\
      (ret = -1 /\ st' = st \/ ret = 0 /\ exists t', list_ st' = t' :: list_ st)
  | Overflow => True
  | NoFuel => calc_cost fuel (clock (t_addr t)).1 (clock (t_addr t)).2
      (t <| src_format := bottom_bit (src_format t) |>
         <| dst_format := bottom_bit (dst_format t) |>) 1 = None
  end.
Proof.
  intros Hok Hs Hd. unfold cw_register_translator.
  set (t0 := t <| src_format := _ |> <| dst_format := _ |>).
  assert (src_format t0 = bottom_bit (src_format t)) as Es by done.
  assert (dst_format t0 = bottom_bit (dst_format t)) as Ed by done.
  assert (t_addr t0 = t_addr t) as -> by done. clearbody t0.
  case_if; [auto|]. case_if; [auto|].
  destruct (calc_cost _ _ _ t0 1) as [t1|] eqn:Ec; [|done].
  apply calc_cost_spec in Ec as (? & E1 & E2). b2p.
  destruct (rebuild_plain (t1 :: list_ st)) as [->|(st' & -> & Hl & Hok')]; [|done|].
  - constructor; [|apply Hok]. unfold good, is_format. lia.
  - eauto 6.
Qed.

Lemma unregister_cases st addr :
  trans_ok st ->
  match cw_unregister_translator fuel clock st addr with
  | Done (ret, st') => trans_ok st' /\
      (ret = 0 /\ unlink_translator addr (list_ st) = Some (list_ st') \/
       ret = -1 /\ unlink_translator addr (list_ st) = None /\ list_ st' = list_ st)
  | Overflow => True
  | NoFuel => False
  end.
Proof.
  intros [Hg _]. unfold cw_unregister_translator.
  destruct (unlink_translator addr (list_ st)) as [l|] eqn:E.
  - destruct (rebuild_plain l) as [->|(st' & -> & <- & Hok)]; [|done|auto].
    apply unlink_subset in E. apply Forall_forall. intros t Ht.
    eapply Forall_forall in Hg; [exact Hg|by apply E].
  - destruct (rebuild_plain (list_ st)) as [->|(st' & -> & Hl & Hok)]; [done|done|].
    auto 6.
Qed.

Lemma trans_step_ok st st' : trans_step st st' -> trans_ok st -> trans_ok st'.
Proof.
  intros [st0 t ret st1 Hs Hd H|st0 addr ret st1 H|st0 samples st1 H] Hok.
  - pose proof (register_cases st0 t Hok Hs Hd) as Hc. rewrite H in Hc. apply Hc.
  - pose proof (unregister_cases st0 addr Hok) as Hc. rewrite H in Hc. apply Hc.
  - eapply rebuild_done; [exact H|apply Hok].
Qed.

Lemma trans_reachable_ok st : rtc trans_step no_translators st -> trans_ok st.
Proof.
  intros H. eapply (rtc_ind_r trans_ok); [| |exact H].
  - split; [constructor|]. split; [by intros ? ? ? ?|].
    intros k x [|t l] z Hw Hxz; [by destruct Hw|].
    apply way_cons in Hw as ([Ht _] & _). by apply elem_of_nil in Ht.
  - intros. by eapply trans_step_ok.
Qed.

(** C35: after any sequence of registrations, removals and measurements the
    matrix has a cell between two different formats exactly if translators
    lead from one to the other; its step starts a way of exactly its cost, and
    no way is cheaper.  The rebuilding of the matrix always ends. *)
Theorem translate_cheapest st x z :
  rtc trans_step no_translators st -> x <> z ->
  match tr_matrix st !! (x, z) with
  | Some c => (exists l, way (list_ st) x (step c :: l) z /\ cost c = cost_of (step c :: l)) /\
              (forall l, way (list_ st) x l z -> cost c <= cost_of l)
  | None => forall l, ~ way (list_ st) x l z
  end /\
  (forall addr, cw_unregister_translator fuel clock st addr <> NoFuel).
Proof.
  intros Hr Hxz. apply trans_reachable_ok in Hr as Hok. destruct Hok as [Hg [Hs Hu]].
  split.
  - destruct (tr_matrix st !! (x, z)) as [c|] eqn:E.
    + split; [by apply Hs|]. intros l Hl.
      destruct (Hu _ _ _ _ Hl Hxz ltac:(reflexivity)) as (c' & Hc' & ?). by simplify_eq.
    + intros l Hl. destruct (Hu _ _ _ _ Hl Hxz ltac:(reflexivity)) as (c' & Hc' & _).
      by rewrite E in Hc'.
  - intros addr H. apply trans_reachable_ok, (unregister_cases st addr) in Hr. by rewrite H in Hr.
Qed.

(** A path is built for every pair of formats, or nothing is left over:
    the loop ends; a path that is built goes from the source to the
    destination at the least cost; when there is none, that shows before
    anything was allocated; and otherwise a node or a translator's state could
    not be had. *)
Theorem translate_path_built st alloc dest source :
  rtc trans_step no_translators st -> is_format (bottom_bit source) ->
  match cw_translator_build_path bottom_bit alloc (tr_matrix st) dest source with
  | Built p =>
      way (list_ st) (bottom_bit source) (p_step <$> p) (bottom_bit dest) /\
      forall l, way (list_ st) (bottom_bit source) l (bottom_bit dest) ->
                cost_of (p_step <$> p) <= cost_of l
  | NoPath left_over => left_over = [] /\
      forall l, ~ way (list_ st) (bottom_bit source) l (bottom_bit dest)
  | NoMemory freed => alloc (length freed) = false \/
      exists t, t ∈ list_ st /\ newpvt t (length freed) = None
  | Endless => False
  end.
Proof.
  intros Hr Hf. apply trans_reachable_ok in Hr as [Hg Hok]. assert (Hok' := Hok).
  destruct Hok' as [Hs Hu]. unfold cw_translator_build_path.
  pose proof (path_loop_ok (list_ st) (tr_matrix st) Hg Hok (Z.to_nat MAX_FORMAT) alloc
    (bottom_bit source) (bottom_bit dest) [] [] Hf ltac:(constructor) ltac:(constructor)
    ltac:(constructor) ltac:(unfold MAX_FORMAT; simpl; lia) ltac:(auto)) as H.
  destruct (path_loop _ _ _ _ _ _) as [p|lo|fr|]; simpl in H; [..|done].
  - destruct H as (q & -> & Hw & Hc). split; [done|]. intros l Hl. simpl. rewrite Hc.
    unfold dist. destruct (Z.eqb_spec (bottom_bit source) (bottom_bit dest)) as [|Hne].
    + apply (cost_of_nonneg (list_ st) Hg). apply Hl.
    + destruct (Hu _ _ _ _ Hl Hne ltac:(reflexivity)) as (c & -> & ?). done.
  - destruct H as (-> & Hne & Hm). split; [done|]. intros l Hl.
    destruct (Hu _ _ _ _ Hl Hne ltac:(reflexivity)) as (c & Hc & _). by rewrite Hm in Hc.
  - destruct H as [|(t & [? _] & ?)]; eauto.
Qed.

End reach.
End translate.
Arguments cw_translator : clear implicits.
Arguments cw_translator_dir : clear implicits.

(** ** Witnesses *)

(** spandsp's [bottom_bit]: the number of the lowest bit, -1 for none. *)
Definition lowest_bit (z : Z) : Z := if z =? 0 then -1 else Z.log2 (Z.land z (- z)).

Definition toy_translator (addr src dst : Z) : cw_translator unit :=
  {| t_addr := addr; t_name := "toy"; src_format := src; src_rate := 8000; dst_format := dst;
     dst_rate := 8000; newpvt := fun _ => Some tt; framein := fun s _ => s;
     frameout := fun s => (None, s); has_destroy := false; sample := None; t_cost := 0 |}.

Definition toy_clock (_ : Z) : timeval * timeval := (cw_tv 0 0, cw_tv 0 0).

Definition toy_register (st : @trans_state unit) (t : cw_translator unit) : trans_state :=
  match cw_register_translator lowest_bit 1 toy_clock st t with
  | Done (_, st) => st
  | _ => st
  end.

(** G.711 u-law (4) to signed linear (64) and on to a-law (8). *)
Definition toy_state1 : @trans_state unit := toy_register no_translators (toy_translator 1 4 64).
Definition toy_state : @trans_state unit := toy_register toy_state1 (toy_translator 2 64 8).

Lemma toy_reachable : rtc (trans_step lowest_bit 1 toy_clock) no_translators toy_state.
Proof.
  eapply rtc_l; [|apply rtc_once].
  - apply (step_register _ _ _ _ (toy_translator 1 4 64) 0 toy_state1); [done|done|].
    vm_compute. reflexivity.
  - apply (step_register _ _ _ _ (toy_translator 2 64 8) 0); [done|done|].
    vm_compute. reflexivity.
Qed.

Lemma translate_cheapest_witness :
  (cost <$> tr_matrix toy_state !! (2, 3)) = Some 199998 /\
  (forall l, way (list_ toy_state) 2 l 3 -> 199998 <= cost_of l).
Proof.
  destruct (tr_matrix toy_state !! (2, 3)) as [c|] eqn:E; [|exfalso; vm_compute in E; discriminate].
  pose proof (translate_cheapest lowest_bit 1 toy_clock toy_state 2 3 toy_reachable
    ltac:(discriminate)) as [H _].
  rewrite E in H. destruct H as [_ H].
  assert (cost c = 199998) as Hc by (vm_compute in E; by injection E as <-).
  simpl. rewrite Hc in *. split; [reflexivity|exact H].
Defined.

Lemma translate_path_built_witness :
  match cw_translator_build_path lowest_bit (fun _ => true) (tr_matrix toy_state) 8 4 with
  | Built p => way (list_ toy_state) 2 (p_step <$> p) 3
  | _ => False
  end.
Proof.
  pose proof (translate_path_built lowest_bit 1 toy_clock toy_state (fun _ => true) 8 4
    toy_reachable ltac:(split; vm_compute; congruence)) as H.
  destruct (cw_translator_build_path _ _ _ _ _) as [p| | |] eqn:E;
    [exact (proj1 H)|vm_compute in E; discriminate..].
Defined.

Lemma best_choice_cheapest_witness :
  exists x y c, snd (fst (cw_translator_best_choice (tr_matrix toy_state) 8 68)) = 2 ^ y /\
    snd (cw_translator_best_choice (tr_matrix toy_state) 8 68) = 2 ^ x /\
    avail (tr_matrix toy_state) 8 68 x y c.
Proof.
  assert (forall p c, tr_matrix toy_state !! p = Some c -> cost c < INT_MAX) as Hc.
  { assert (map_Forall (fun _ c => cost c < INT_MAX) (tr_matrix toy_state)) as H
      by (apply (bool_decide_unpack _); vm_compute; exact I). exact H. }
  pose proof (best_choice_cheapest (tr_matrix toy_state) 8 68 ltac:(lia) ltac:(lia) Hc) as H.
  destruct (cw_translator_best_choice (tr_matrix toy_state) 8 68) as [[ret d] sr] eqn:E.
  destruct H as [(-> & _)|(_ & x & y & c & ? & ? & ? & _)].
  - exfalso. vm_compute in E. discriminate.
  - exists x, y, c. auto.
Defined.

(** A translator that hands frames on, twice in a path. *)
Definition echo_node : @cw_trans_pvt (option cw_frame) :=
  {| p_step := {| t_addr := 1; t_name := "echo"; src_format := 2; src_rate := 8000;
                  dst_format := 6; dst_rate := 8000; newpvt := fun _ => Some None;
                  framein := fun _ f => Some f; frameout := fun s => (s, None);
                  has_destroy := false; sample := None; t_cost := 1 |};
     p_state := None; nextin := cw_tv 0 0; nextout := cw_tv 0 0 |}.

Definition voice_at (t : timeval) : cw_frame :=
  mk_cw_frame 2 4 160 160 8000 0 0 None None t false 0 0 0 0.

Lemma translate_keeps_timing_witness :
  contiguous (cw_tv 7 990000)
    (translate_all (fun _ => cw_tv 0 0) [echo_node; echo_node]
       [voice_at (cw_tv 7 990000); voice_at (cw_tv 8 10000)]).1.
Proof.
  exact (translate_keeps_timing (fun _ => cw_tv 0 0) echo_node [echo_node]
    (voice_at (cw_tv 7 990000)) [voice_at (cw_tv 8 10000)] eq_refl eq_refl eq_refl
    ltac:(by split_and!) ltac:(repeat constructor; vm_compute; discriminate)).
Defined.
