(* ===== verification/Hash.v ===== *)
(** * Hashed names (corelib/callweaver_hash.c, corelib/chanvars.c)

    Contexts, applications and variables are recognised by a 31-bit hash of
    their names.  [char] is signed, [unsigned int] wraps at 32 bits.  [None] is
    the NULL pointer. *)

From S2P Require Import Prelude CStr.

Definition CWHASH_SIGNIFICANT_CHARS : nat := 32.

(** [hash = ch + (hash << 6) + (hash << 16) - hash] *)
Definition hash_step (hash : Z) (c : ascii) : Z :=
  u32 (schar c + u32 (Z.shiftl hash 6) + u32 (Z.shiftl hash 16) - hash).

(** The loop over the first [len] characters; [conv] is the conversion of a
    character. *)
Fixpoint hash_loop (conv : ascii -> ascii) (len : nat) (hash : Z) (s : string) : Z :=
  match len, s with
  | S len, String c s => hash_loop conv len (hash_step hash (conv c)) s
  | _, _ => hash
  end.

Definition hash_with (conv : ascii -> ascii) (limit : nat) (s : option string) : Z :=
  match s with
  | None => 0
  | Some s => Z.land (hash_loop conv limit 0 s) (2 ^ 31 - 1)
  end.

Definition cw_hash_string (s : option string) : Z := hash_with id CWHASH_SIGNIFICANT_CHARS s.

#[global] Arguments cw_hash_string : simpl never.

(** The case conversions are written out on signed [char]s. *)
Definition ch_tolower (c : ascii) : ascii :=
  if (schar c <=? 90) && (65 <=? schar c) then chr (u8 (schar c + 32)) else c.

Definition ch_toupper (c : ascii) : ascii :=
  if (97 <=? schar c) && (schar c <=? 122) then chr (u8 (schar c - 32)) else c.

Definition cw_hash_string_tolower (s : option string) : Z :=
  hash_with ch_tolower CWHASH_SIGNIFICANT_CHARS s.

Definition cw_hash_string_toupper (s : option string) : Z :=
  hash_with ch_toupper CWHASH_SIGNIFICANT_CHARS s.

Definition cw_hash_string_with_limit (s : option string) (limit : nat) : Z :=
  hash_with id limit s.

(** ** Variables *)

Record cw_var_t := {
  var_hash : Z;
  var_name : string;
  var_value : string;
}.

(** [alloc] is the outcome of [calloc]. *)
Definition cw_var_assign (alloc : bool) (name value : string) : option cw_var_t :=
  if alloc then
    Some {| var_hash := cw_hash_string (Some name); var_name := name; var_value := value |}
  else None.

(** The name without the leading underscores, which are for inheritance. *)
Definition nametail (name : string) : string :=
  match name with
  | String "_" (String "_" n) => n
  | String "_" n => n
  | n => n
  end.

Definition cw_var_name (var : option cw_var_t) : option string :=
  match var with
  | None => None
  | Some v => Some (nametail (var_name v))
  end.

Definition cw_var_full_name (var : option cw_var_t) : option string := var_name <$> var.

Definition cw_var_value (var : option cw_var_t) : option string := var_value <$> var.

(** ** Lemmas *)

Lemma hash_with_bound conv limit s : 0 <= hash_with conv limit s < 2 ^ 31.
Proof.
  unfold hash_with. destruct s as [s|]; [|lia].
  change (2 ^ 31 - 1) with (Z.ones 31). rewrite Z.land_ones by lia.
  apply Z.mod_pos_bound. lia.
Qed.

Lemma cw_hash_string_bound s : 0 <= cw_hash_string s < 2 ^ 31.
Proof. apply hash_with_bound. Qed.

(** The characters of a name behind the significant ones do not count. *)
Lemma hash_prefix limit s : hash_with id limit (Some s) = hash_with id limit (Some (strtake limit s)).
Proof.
  unfold hash_with. f_equal. generalize 0. revert s.
  induction limit as [|n IH]; intros [|c s] h; simpl; auto.
Qed.

(** ASCII letters are where the signed and the unsigned [char] agree. *)
Lemma schar_code c : schar c = if code c <? 128 then code c else code c - 256.
Proof.
  unfold schar, wrap_s. pose proof (code_bound c). change (2 ^ 8) with 256. change (2 ^ (8 - 1)) with 128.
  rewrite Z.mod_small by lia. done.
Qed.

Lemma ch_tolower_tolower c : ch_tolower c = tolower c.
Proof.
  unfold ch_tolower, tolower. rewrite schar_code. pose proof (code_bound c).
  destruct (Z.ltb_spec (code c) 128).
  - rewrite (andb_comm (code c <=? 90)). case_if; [|done]. b2p.
    rewrite wrap_u_small by lia. done.
  - destruct (Z.leb_spec (code c - 256) 90), (Z.leb_spec 65 (code c - 256)),
      (Z.leb_spec (code c) 90), (Z.leb_spec 65 (code c)); simpl; done || lia.
Qed.

Lemma ch_toupper_toupper c : ch_toupper c = toupper c.
Proof.
  unfold ch_toupper, toupper. rewrite schar_code. pose proof (code_bound c).
  destruct (Z.ltb_spec (code c) 128).
  - case_if; [|done]. b2p. rewrite wrap_u_small by lia. done.
  - destruct (Z.leb_spec 97 (code c - 256)), (Z.leb_spec (code c - 256) 122),
      (Z.leb_spec 97 (code c)), (Z.leb_spec (code c) 122); simpl; done || lia.
Qed.
