(* ===== verification/Exten.v ===== *)
(** * The extensions of a context (corelib/pbx.c)

    A context keeps its extensions in a list of lists: the first entry of each
    extension is linked by [next], the further priorities of the same
    extension hang on it by [peer].  Both links are fields of every entry, and
    what the code leaves in them matters, so the entries live in a heap of
    nodes with addresses.  Each context has a heap of its own: no two contexts
    share an entry.  A read or write through an address that is not allocated
    makes the result [None], and so does a loop that does not end.

    [malloc] is an argument: the address of the new entry or [None]; [lock] says
    whether the lock of the context was obtained.  What is done to the hints is
    reported as events. *)

From S2P Require Import Prelude CStr Hash.
From stdpp Require Import gmap.
Open Scope Z_scope.

Definition PRIORITY_HINT : Z := -1.

Inductive errno := ENOMEM | EBUSY | EEXIST | EINVAL | ENOENT.

(** [struct cw_exten] without its links; [data] is a pointer. *)
Record exten := {
  x_exten : string;
  x_hash : Z;
  x_matchcid : bool;
  x_cidmatch : string;
  x_priority : Z;
  x_label : option string;
  x_app : string;
  x_data : Z;
  x_registrar : string;
}.

Record cw_exten := {
  n_val : exten;
  n_peer : option Z;
  n_next : option Z;
}.

#[export] Instance cw_exten_eta : Eta cw_exten := fun n =>
  {| n_val := n_val n; n_peer := n_peer n; n_next := n_next n |}.

Abbreviation heap := (gmap Z cw_exten).

(** The [root] of a context, and the entries. *)
Record ext_store := {
  s_heap : heap;
  s_root : option Z;
}.

Definition set_next (a : Z) (v : option Z) (h : heap) : option heap :=
  _ ← h !! a; Some (alter (fun n => n <| n_next := v |>) a h).

Definition set_peer (a : Z) (v : option Z) (h : heap) : option heap :=
  _ ← h !! a; Some (alter (fun n => n <| n_peer := v |>) a h).

Inductive hint_event :=
  | AddHint (e : Z)
  | ChangeHint (oe ne : Z)
  | RemoveHint (e : Z).

(** The outcome of an operation: 0 or the error, the store, the data that was
    given to its destructor, and the events. *)
Record ext_result := {
  r_ret : option errno;
  r_store : ext_store;
  r_destroyed : list Z;
  r_hints : list hint_event;
}.

(** ** Adding *)

(** The copy without spaces of at most [len - 1] characters. *)
Fixpoint strip_spaces (s : string) : string :=
  match s with
  | EmptyString => EmptyString
  | String " " s => strip_spaces s
  | String c s => String c (strip_spaces s)
  end.

Definition ext_strncpy (src : string) (len : nat) : string := strip_spaces (strtake (len - 1) src).

Definition is_pattern (s : string) : bool :=
  match s with String c _ => char_eqb c "_" | EmptyString => false end.

(** The order of the list: where the entry [e] stands to the new entry [tmp],
    added under the name [extension]. *)
Definition ext_cmp (e : exten) (extension : string) (tmp : exten) : comparison :=
  let res :=
    if negb (is_pattern (x_exten e)) && is_pattern extension then Lt
    else if is_pattern (x_exten e) && negb (is_pattern extension) then Gt
    else strcmp (x_exten e) extension in
  match res with
  | Eq =>
    if negb (x_matchcid e) && negb (x_matchcid tmp) then Eq
    else if x_matchcid tmp && negb (x_matchcid e) then Gt
    else if x_matchcid e && negb (x_matchcid tmp) then Lt
    else strcasecmp (x_cidmatch e) (x_cidmatch tmp)
  | r => r
  end.

Definition hint_if (tmp : exten) (ev : list hint_event) : list hint_event :=
  if x_priority tmp =? PRIORITY_HINT then ev else [].

Definition added (h : heap) (root : option Z) (ev : list hint_event) : option ext_result :=
  Some {| r_ret := None; r_store := {| s_heap := h; s_root := root |};
          r_destroyed := []; r_hints := ev |}.

(** [if (el) el->next = v; else con->root = v;] *)
Definition relink (el v : option Z) (h : heap) (root : option Z) : option (heap * option Z) :=
  match el with
  | Some el => h ← set_next el v h; Some (h, root)
  | None => Some (h, v)
  end.

Section add.
Variables (ta : Z) (tmp : exten) (extension : string) (replace : bool).

(** [e] has the priority of the new entry and is replaced by it. *)
Definition replace_entry (h : heap) (root el ep : option Z) (ea : Z) (n : cw_exten)
    : option ext_result :=
  '(h, root) ←
    match ep with
    | Some ep =>
      h ← set_peer ep (Some ta) h; h ← set_peer ta (n_peer n) h; Some (h, root)
    | None =>
      '(h, root) ← relink el (Some ta) h root;
      h ← set_next ta (n_next n) h; h ← set_peer ta (n_peer n) h; Some (h, root)
    end;
  Some {| r_ret := None; r_store := {| s_heap := delete ea h; s_root := root |};
          r_destroyed := [x_data (n_val n)];
          r_hints := hint_if tmp [ChangeHint ea ta; ChangeHint ea ta] |}.

(** The new entry goes before [e]. *)
Definition slip_in (h : heap) (root el ep : option Z) (ea : Z) (n : cw_exten)
    : option ext_result :=
  match ep, el with
  | Some ep, _ =>
    h ← set_peer ep (Some ta) h; h ← set_peer ta (Some ea) h;
    added h root (hint_if tmp [AddHint ta])
  | None, Some el =>
    h ← set_next el (Some ta) h; h ← set_next ta (n_next n) h;
    h ← set_next ea None h; h ← set_peer ta (Some ea) h;
    added h root (hint_if tmp [AddHint ta])
  | None, None =>
    r ← root; rn ← h !! r; h ← set_next ta (n_next rn) h; h ← set_peer ta (Some r) h;
    added h (Some ta) (hint_if tmp [AddHint ta])
  end.

(** The loop over the priorities of one extension. *)
Fixpoint add_peer (fuel : nat) (h : heap) (root el ep e : option Z) : option ext_result :=
  match e with
  | None =>
    ep ← ep; h ← set_peer ep (Some ta) h; added h root (hint_if tmp [AddHint ta])
  | Some ea =>
    match fuel with
    | O => None
    | S fuel =>
      n ← h !! ea;
      if x_priority (n_val n) =? x_priority tmp then
        if replace then replace_entry h root el ep ea n
        else Some {| r_ret := Some EEXIST; r_store := {| s_heap := delete ta h; s_root := root |};
                     r_destroyed := [x_data tmp]; r_hints := [] |}
      else if x_priority tmp <? x_priority (n_val n) then slip_in h root el ep ea n
      else add_peer fuel h root el (Some ea) (n_peer n)
    end
  end.

(** The new entry is linked behind [el]. *)
Definition link_after (h : heap) (root el : option Z) : option ext_result :=
  '(h, root) ← relink el (Some ta) h root; added h root (hint_if tmp [AddHint ta]).

(** The loop over the extensions. *)
Fixpoint add_loop (fuel : nat) (h : heap) (root el e : option Z) : option ext_result :=
  match e with
  | None => link_after h root el
  | Some ea =>
    match fuel with
    | O => None
    | S fuel' =>
      n ← h !! ea;
      match ext_cmp (n_val n) extension tmp with
      | Eq => add_peer fuel h root el None (Some ea)
      | Gt => h ← set_next ta (Some ea) h; link_after h root el
      | Lt => add_loop fuel' h root (Some ea) (n_next n)
      end
    end
  end.

End add.

Definition new_exten (extension : string) (priority : Z) (label callerid : option string)
    (application : string) (data : Z) (registrar : string) : exten :=
  {| x_exten := ext_strncpy extension (String.length extension + 1);
     x_hash := cw_hash_string (Some extension);
     x_matchcid := match callerid with Some _ => true | None => false end;
     x_cidmatch := match callerid with
                   | Some c => ext_strncpy c (String.length c + 1)
                   | None => EmptyString
                   end;
     x_priority := priority; x_label := label; x_app := application; x_data := data;
     x_registrar := registrar |}.

Definition cw_add_extension2 (st : ext_store) (malloc : option Z) (lock replace : bool)
    (extension : string) (priority : Z) (label callerid : option string)
    (application : string) (data : Z) (registrar : string) : option ext_result :=
  match malloc with
  | None => Some {| r_ret := Some ENOMEM; r_store := st; r_destroyed := []; r_hints := [] |}
  | Some ta =>
    let tmp := new_exten extension priority label callerid application data registrar in
    let h := <[ta := {| n_val := tmp; n_peer := None; n_next := None |}]> (s_heap st) in
    if negb lock then
      Some {| r_ret := Some EBUSY; r_store := st; r_destroyed := [data]; r_hints := [] |}
    else
    add_loop ta tmp extension replace (size h) h (s_root st) None (s_root st)
  end.

(** ** Removing *)

Definition removed (h : heap) (root : option Z) (destroyed : list Z) (ev : list hint_event)
    : option ext_result :=
  Some {| r_ret := None; r_store := {| s_heap := h; s_root := root |};
          r_destroyed := destroyed; r_hints := ev |}.

(** [!registrar || !strcmp(r, registrar)] *)
Definition registrar_ok (registrar : option string) (x : exten) : bool :=
  match registrar with
  | None => true
  | Some r => streq (x_registrar x) r
  end.

(** All priorities of an extension are freed; [!p == PRIORITY_HINT] compares 0
    or 1 with -1, so no hint is removed. *)
Fixpoint free_peers (fuel : nat) (h : heap) (peer : option Z) (destroyed : list Z)
    : option (heap * list Z) :=
  match peer with
  | None => Some (h, destroyed)
  | Some a =>
    match fuel with
    | O => None
    | S fuel => n ← h !! a; free_peers fuel (delete a h) (n_peer n) (destroyed ++ [x_data (n_val n)])
    end
  end.

Section remove.
Variables (extension : string) (priority : Z) (registrar : option string).

(** The first entry [exten] of an extension, at [ea], is taken out of its
    place in the list behind [prev]. *)
Definition unlink_first (h : heap) (root prev : option Z) (exten peer : cw_exten)
    : option (heap * option Z) :=
  match prev with
  | Some prev =>
    match n_peer peer with
    | Some p => h ← set_next prev (Some p) h; h ← set_next p (n_next exten) h; Some (h, root)
    | None => h ← set_next prev (n_next exten) h; Some (h, root)
    end
  | None =>
    match n_peer peer with
    | Some p => Some (h, Some p)
    | None => Some (h, n_next exten)
    end
  end.

Fixpoint remove_peer (fuel : nat) (h : heap) (root prev : option Z) (exten : cw_exten)
    (previous_peer peer : option Z) : option ext_result :=
  match peer with
  | None => Some {| r_ret := Some EINVAL; r_store := {| s_heap := h; s_root := root |};
                    r_destroyed := []; r_hints := [] |}
  | Some a =>
    match fuel with
    | O => None
    | S fuel =>
      n ← h !! a;
      if (x_priority (n_val n) =? priority) && registrar_ok registrar (n_val n) then
        '(h, root) ← match previous_peer with
                     | None => unlink_first h root prev exten n
                     | Some pp => h ← set_peer pp (n_peer n) h; Some (h, root)
                     end;
        removed (delete a h) root [x_data (n_val n)] (hint_if (n_val n) [RemoveHint a])
      else remove_peer fuel h root prev exten (Some a) (n_peer n)
    end
  end.

Fixpoint remove_loop (fuel : nat) (h : heap) (root prev e : option Z) : option ext_result :=
  match e with
  | None => Some {| r_ret := Some EINVAL; r_store := {| s_heap := h; s_root := root |};
                    r_destroyed := []; r_hints := [] |}
  | Some ea =>
    match fuel with
    | O => None
    | S fuel' =>
      n ← h !! ea;
      if streq (x_exten (n_val n)) extension && registrar_ok registrar (n_val n)
      then
        if priority =? 0 then
          '(h, root) ← relink prev (n_next n) h root;
          '(h, destroyed) ← free_peers fuel h (Some ea) [];
          removed h root destroyed []
        else remove_peer fuel h root prev n None (Some ea)
      else remove_loop fuel' h root (Some ea) (n_next n)
    end
  end.

End remove.

(** The code returns -1 without an error number; [EINVAL] stands for it. *)
Definition cw_context_remove_extension2 (st : ext_store) (lock : bool) (extension : string) (priority : Z)
    (registrar : option string) : option ext_result :=
  if negb lock then
    Some {| r_ret := Some EINVAL; r_store := st; r_destroyed := []; r_hints := [] |}
  else
    remove_loop extension priority registrar (size (s_heap st)) (s_heap st) (s_root st) None
      (s_root st).

(** ** Reading *)

(** The entries met from [p] on along a link. *)
Fixpoint walk (link : cw_exten -> option Z) (fuel : nat) (h : heap) (p : option Z)
    : option (list (Z * exten)) :=
  match p with
  | None => Some []
  | Some a =>
    match fuel with
    | O => None
    | S fuel => n ← h !! a; cons (a, n_val n) <$> walk link fuel h (link n)
    end
  end.

(** The extensions of a context with their priorities, in the order of the two
    nested loops. *)
Definition extensions (st : ext_store) : option (list (list (Z * exten))) :=
  heads ← walk n_next (size (s_heap st)) (s_heap st) (s_root st);
  mapM (fun '(a, _) => walk n_peer (size (s_heap st)) (s_heap st) (Some a)) heads.

(** ** Linked segments *)

Abbreviation entry := (Z * exten)%type.

(** From [p] the link leads through the entries [l] to [q]. *)
Fixpoint lseg (link : cw_exten -> option Z) (h : heap) (p q : option Z) (l : list entry) : Prop :=
  match l with
  | [] => p = q
  | (a, x) :: l => p = Some a /\ exists n, h !! a = Some n /\ n_val n = x /\ lseg link h (link n) q l
  end.

Section segments.
Context (link : cw_exten -> option Z).

Lemma lseg_app h p q l k :
  lseg link h p q (l ++ k) <-> exists r, lseg link h p r l /\ lseg link h r q k.
Proof.
  revert p. induction l as [|[a x] l IH]; intros p; simpl.
  - split; [by exists p|]. by intros (r & -> & ?).
  - split.
    + intros (-> & n & Hn & Hx & H). apply IH in H as (r & ? & ?). eauto 8.
    + intros (r & (-> & n & ? & ? & ?) & ?). split; [done|]. exists n. rewrite IH. eauto.
Qed.

(** What a segment sees of an entry. *)
Definition lk (h : heap) (a : Z) : option (exten * option Z) :=
  (fun n => (n_val n, link n)) <$> h !! a.

Lemma lseg_cons h p q a x l :
  lseg link h p q ((a, x) :: l) <->
  p = Some a /\ exists r, lk h a = Some (x, r) /\ lseg link h r q l.
Proof.
  simpl. unfold lk. split.
  - intros (-> & n & -> & <- & H). simpl. eauto.
  - intros (-> & r & Hr & H). destruct (h !! a) as [n|] eqn:E; simplify_eq/=. eauto.
Qed.

Lemma lseg_ext h h' p q l :
  (forall b, b ∈ l.*1 -> lk h' b = lk h b) -> lseg link h p q l -> lseg link h' p q l.
Proof.
  revert p. induction l as [|[b x] l IH]; intros p Hh; [done|].
  rewrite !lseg_cons. intros (-> & r & Hr & H). split; [done|]. exists r.
  rewrite Hh by (simpl; left). split; [done|]. apply IH; [|done].
  intros c Hc. apply Hh. simpl. by right.
Qed.

Lemma lseg_dom h p q l a : lseg link h p q l -> a ∈ l.*1 -> is_Some (h !! a).
Proof.
  revert p. induction l as [|[b x] l IH]; intros p; simpl; [by intros _ ?%elem_of_nil|].
  intros (-> & n & Hn & _ & H) Ha. apply elem_of_cons in Ha as [->|Ha]; eauto.
Qed.

Lemma walk_lseg h p l fuel :
  lseg link h p None l -> (length l <= fuel)%nat -> walk link fuel h p = Some l.
Proof.
  revert p fuel. induction l as [|[a x] l IH]; intros p fuel; simpl.
  - intros -> _. by destruct fuel.
  - intros (-> & n & Hn & <- & H) Hl. destruct fuel as [|fuel]; [lia|]. simpl.
    rewrite Hn. simpl. rewrite IH; [done|done|lia].
Qed.

End segments.

(** ** The shape of a store *)

Definition heads (gs : list (list entry)) : list entry := omap head gs.

Definition addresses (gs : list (list entry)) : list Z := (concat gs).*1.

(** A group is linked from its first entry by [peer]. *)
Definition grp (h : heap) (g : list entry) : Prop :=
  exists a x k, g = (a, x) :: k /\ lseg n_peer h (Some a) None g.

(** The groups [gs] are what the store holds, and the heap has nothing else. *)
Record shape (st : ext_store) (gs : list (list entry)) : Prop := {
  shape_next : lseg n_next (s_heap st) (s_root st) None (heads gs);
  shape_peer : Forall (grp (s_heap st)) gs;
  shape_nodup : NoDup (addresses gs);
  shape_dom : forall a, is_Some (s_heap st !! a) -> a ∈ addresses gs;
}.

Lemma heads_app gs ks : heads (gs ++ ks) = heads gs ++ heads ks.
Proof. apply omap_app. Qed.

Lemma heads_cons y g gs : heads ((y :: g) :: gs) = y :: heads gs.
Proof. reflexivity. Qed.

Lemma addresses_app gs ks : addresses (gs ++ ks) = addresses gs ++ addresses ks.
Proof. unfold addresses. by rewrite concat_app, fmap_app. Qed.

Lemma addresses_cons g gs : addresses (g :: gs) = g.*1 ++ addresses gs.
Proof. unfold addresses. simpl. by rewrite fmap_app. Qed.

Lemma heads_addresses gs a : a ∈ (heads gs).*1 -> a ∈ addresses gs.
Proof.
  unfold heads. induction gs as [|[|[b x] g] gs IH]; simpl; [done|done|].
  rewrite addresses_cons. simpl. intros Ha. apply elem_of_cons in Ha as [->|Ha]; [left|].
  right. apply elem_of_app. right. by apply IH.
Qed.

Lemma heads_nodup gs : NoDup (addresses gs) -> NoDup (heads gs).*1.
Proof.
  induction gs as [|[|[a x] k] gs IH]; [intros _; apply NoDup_nil_2|done|].
  rewrite addresses_cons, heads_cons. simpl. intros Hd. apply NoDup_cons in Hd as [Ha Hd].
  apply NoDup_app in Hd as (_ & _ & Hd). constructor; [|auto].
  intros Hin. apply Ha, elem_of_app. right. by apply heads_addresses.
Qed.

(** The entries of the groups are allocated. *)
Lemma grp_alloc h gs a : Forall (grp h) gs -> a ∈ addresses gs -> is_Some (h !! a).
Proof.
  intros Hp Ha. unfold addresses in Ha. apply list_elem_of_fmap in Ha as ([b x] & -> & Ha).
  apply list_elem_of_In, in_concat in Ha as (g & Hg & Hb).
  eapply Forall_forall in Hp; [|by apply list_elem_of_In].
  destruct Hp as (c & y & k & -> & H). eapply lseg_dom; [exact H|].
  apply list_elem_of_fmap. exists (b, x). split; [done|by apply list_elem_of_In].
Qed.

(** Only the entries of a heap are as many as it has places for. *)
Lemma shape_size st gs : shape st gs -> (length (concat gs) <= size (s_heap st))%nat.
Proof.
  intros [_ Hp Hn _]. rewrite <- (length_fmap fst). fold (addresses gs).
  assert (forall a, a ∈ addresses gs -> is_Some (s_heap st !! a)) as Hd.
  { intros a. by apply grp_alloc. }
  rewrite <- (size_list_to_set (C := gset Z) (addresses gs)) by done.
  rewrite <- (size_dom (D := gset Z)). apply subseteq_size.
  intros a Ha. apply elem_of_list_to_set in Ha. apply elem_of_dom. auto.
Qed.

(** Reading a store gives its groups. *)
Lemma extensions_shape st gs : shape st gs -> extensions st = Some gs.
Proof.
  intros H. pose proof (shape_size st gs H) as Hs. destruct H as [Hn Hp _ _].
  unfold extensions.
  assert (length (heads gs) <= length (concat gs))%nat as Hl.
  { clear. induction gs as [|[|y g] gs IH]; [simpl; lia|done|].
    rewrite heads_cons. simpl. rewrite length_app. lia. }
  rewrite (walk_lseg n_next _ _ (heads gs)) by (done || lia). simpl. clear Hn Hl.
  induction Hp as [|g gs (a & x & k & -> & Hg) _ IH]; [done|].
  simpl in Hs. rewrite length_app in Hs. specialize (IH ltac:(lia)).
  rewrite heads_cons. revert IH. generalize (heads gs). intros hs IH. simpl.
  rewrite (walk_lseg n_peer _ (Some a) ((a, x) :: k)); [|done|simpl; lia].
  simpl. by rewrite IH.
Qed.

(** ** Writes, seen through the links *)

Abbreviation Next := (lk n_next).
Abbreviation Peer := (lk n_peer).

Lemma lk_is_Some link h a : is_Some (lk link h a) <-> is_Some (h !! a).
Proof. unfold lk. apply fmap_is_Some. Qed.

Lemma set_next_spec a v h :
  is_Some (h !! a) -> exists h', set_next a v h = Some h' /\
    (forall b, Peer h' b = Peer h b) /\ (forall b, b <> a -> Next h' b = Next h b) /\
    (forall x r, Next h a = Some (x, r) -> Next h' a = Some (x, v)).
Proof.
  intros [n Hn]. unfold set_next. rewrite Hn. simpl. eexists. split; [done|].
  unfold lk. split_and!.
  - intros b. rewrite lookup_alter. case_decide as E; [subst|done]. by rewrite Hn.
  - intros b Hb. by rewrite lookup_alter_ne.
  - intros x r H. rewrite lookup_alter_eq, Hn in *. simpl in *. by simplify_eq.
Qed.

Lemma set_peer_spec a v h :
  is_Some (h !! a) -> exists h', set_peer a v h = Some h' /\
    (forall b, Next h' b = Next h b) /\ (forall b, b <> a -> Peer h' b = Peer h b) /\
    (forall x r, Peer h a = Some (x, r) -> Peer h' a = Some (x, v)).
Proof.
  intros [n Hn]. unfold set_peer. rewrite Hn. simpl. eexists. split; [done|].
  unfold lk. split_and!.
  - intros b. rewrite lookup_alter. case_decide as E; [subst|done]. by rewrite Hn.
  - intros b Hb. by rewrite lookup_alter_ne.
  - intros x r H. rewrite lookup_alter_eq, Hn in *. simpl in *. by simplify_eq.
Qed.

Lemma lk_delete link h a b : b <> a -> lk link (delete a h) b = lk link h b.
Proof. intros Hb. unfold lk. by rewrite lookup_delete_ne. Qed.

(** Equal views have equal domains. *)
Lemma lk_dom link h h' b : lk link h' b = lk link h b -> is_Some (h' !! b) <-> is_Some (h !! b).
Proof. intros H. by rewrite <- !(lk_is_Some link), H. Qed.

Lemma relink_spec v h root q l :
  lseg n_next h root q l -> NoDup l.*1 ->
  exists h' root', relink (fst <$> last l) v h root = Some (h', root') /\
    lseg n_next h' root' v l /\ (forall b, Peer h' b = Peer h b) /\
    (forall b, b ∉ l.*1 -> Next h' b = Next h b).
Proof.
  intros Hl Hn. destruct l as [|[a x] l _] using rev_ind.
  { simpl. exists h, v. by split_and!. }
  rewrite last_snoc. simpl. rewrite fmap_app in Hn |- *. simpl in *.
  apply NoDup_app in Hn as (_ & Hd & _).
  apply lseg_app in Hl as (r & H1 & H2). apply lseg_cons in H2 as (-> & r & Hr & ->).
  destruct (set_next_spec a v h) as (h' & -> & Hp & Hnx & Ha); [eapply lk_is_Some; eauto|].
  simpl. exists h', root. split_and!; [done| |done|].
  - apply lseg_app. exists (Some a). split.
    + eapply lseg_ext; [|exact H1]. intros b Hb. apply Hnx. intros ->. apply (Hd a Hb). left.
    + apply lseg_cons. split; [done|]. exists v. split; [by eapply Ha|done].
  - intros b Hb. apply Hnx. intros ->. apply Hb, elem_of_app. right. left.
Qed.

(** ** The abstract operations *)

Lemma grp_ext h h' gs :
  (forall b, b ∈ addresses gs -> Peer h' b = Peer h b) -> Forall (grp h) gs -> Forall (grp h') gs.
Proof.
  intros Hh H. induction H as [|g gs (a & x & k & -> & Hg) _ IH]; constructor.
  - exists a, x, k. split; [done|]. eapply lseg_ext; [|exact Hg]. intros b Hb. apply Hh.
    rewrite addresses_cons. apply elem_of_app. by left.
  - apply IH. intros b Hb. apply Hh. rewrite addresses_cons. apply elem_of_app. by right.
Qed.

Lemma next_ext h h' p q gs :
  (forall b, b ∈ addresses gs -> Next h' b = Next h b) ->
  lseg n_next h p q (heads gs) -> lseg n_next h' p q (heads gs).
Proof. intros Hh. apply lseg_ext. intros b Hb. by apply Hh, heads_addresses. Qed.

(** The parts of a list of groups around one of them. *)
Lemma next_split h root pre a x k post :
  lseg n_next h root None (heads (pre ++ ((a, x) :: k) :: post)) <->
  lseg n_next h root (Some a) (heads pre) /\
  exists q, Next h a = Some (x, q) /\ lseg n_next h q None (heads post).
Proof.
  rewrite heads_app, heads_cons, lseg_app. setoid_rewrite lseg_cons. split.
  - intros (r & H1 & -> & q & ? & ?). eauto.
  - intros (H1 & q & ? & ?). eauto 8.
Qed.

(** A group with a new entry; [None] when the priority is taken. *)
Fixpoint abs_peers (t : entry) (replace : bool) (g : list entry)
    : option (list entry * list Z * list hint_event) :=
  match g with
  | [] => Some ([t], [], hint_if t.2 [AddHint t.1])
  | y :: g =>
    if x_priority y.2 =? x_priority t.2 then
      if replace then Some (t :: g, [x_data y.2], hint_if t.2 [ChangeHint y.1 t.1; ChangeHint y.1 t.1])
      else None
    else if x_priority t.2 <? x_priority y.2 then Some (t :: y :: g, [], hint_if t.2 [AddHint t.1])
    else '(g, d, ev) ← abs_peers t replace g; Some (y :: g, d, ev)
  end.

Fixpoint abs_add (t : entry) (extension : string) (replace : bool) (gs : list (list entry))
    : option (list (list entry) * list Z * list hint_event) :=
  match gs with
  | ((y :: _) as g) :: gs =>
    match ext_cmp y.2 extension t.2 with
    | Eq => '(g, d, ev) ← abs_peers t replace g; Some (g :: gs, d, ev)
    | Gt => Some ([t] :: g :: gs, [], hint_if t.2 [AddHint t.1])
    | Lt => '(gs, d, ev) ← abs_add t extension replace gs; Some (g :: gs, d, ev)
    end
  | _ => Some ([t] :: gs, [], hint_if t.2 [AddHint t.1])
  end.

(** ** Adding implements the abstract operation *)

Lemma shape_intro h root pre a x k post q :
  lseg n_next h root (Some a) (heads pre) -> Next h a = Some (x, q) ->
  lseg n_next h q None (heads post) ->
  Forall (grp h) pre -> lseg n_peer h (Some a) None ((a, x) :: k) -> Forall (grp h) post ->
  NoDup (addresses (pre ++ ((a, x) :: k) :: post)) ->
  (forall b, is_Some (h !! b) -> b ∈ addresses (pre ++ ((a, x) :: k) :: post)) ->
  shape {| s_heap := h; s_root := root |} (pre ++ ((a, x) :: k) :: post).
Proof.
  intros H1 H2 H3 Hp Hk Hq Hn Hd. split; simpl; [|..|done|done].
  - apply next_split. eauto.
  - apply Forall_app. split; [done|]. constructor; [|done]. by exists a, x, k.
Qed.

Lemma addresses_insert pre gp ta tmp gr post :
  addresses (pre ++ (gp ++ (ta, tmp) :: gr) :: post) ≡ₚ ta :: addresses (pre ++ (gp ++ gr) :: post).
Proof.
  rewrite !addresses_app, !addresses_cons, !fmap_app. simpl.
  rewrite <- !app_assoc. simpl. by rewrite !Permutation_middle.
Qed.

(** Membership in lists put together from known parts. *)
Ltac mem := rewrite ?elem_of_app, ?elem_of_cons, ?elem_of_app, ?elem_of_cons; tauto.

(** What is outside a group is not inside. *)
Lemma nodup_around (P G Q : list Z) :
  NoDup (P ++ G ++ Q) -> (forall b, b ∈ P ++ Q -> b ∉ G) /\ NoDup G.
Proof.
  intros Hd. apply NoDup_app in Hd as (_ & Hx & Hd). apply NoDup_app in Hd as (Hg & Hy & _).
  split; [|done]. intros b Hb Hin. apply elem_of_app in Hb as [Hb|Hb].
  - apply (Hx b Hb), elem_of_app. by left.
  - by apply (Hy b Hin).
Qed.

Section refine.
Context (ta : Z) (tmp : exten) (extension : string) (replace : bool).

(** The store with the groups [gs] and the new entry, not linked yet. *)
Record ready (h : heap) (root : option Z) (gs : list (list entry)) : Prop := {
  rd_next : lseg n_next h root None (heads gs);
  rd_peer : Forall (grp h) gs;
  rd_nodup : NoDup (ta :: addresses gs);
  rd_tan : Next h ta = Some (tmp, None);
  rd_tap : Peer h ta = Some (tmp, None);
  rd_dom : forall a, is_Some (h !! a) -> a ∈ ta :: addresses gs;
}.

Definition outcome_is (o : option ext_result) (ret : option errno) (gs : list (list entry))
    (d : list Z) (ev : list hint_event) : Prop :=
  exists r, o = Some r /\ r_ret r = ret /\ shape (r_store r) gs /\ r_destroyed r = d /\ r_hints r = ev.

(** The group in focus and its surroundings. *)
Lemma ready_focus h root pre a x k post :
  ready h root (pre ++ ((a, x) :: k) :: post) ->
  lseg n_next h root (Some a) (heads pre) /\
  (exists q, Next h a = Some (x, q) /\ lseg n_next h q None (heads post)) /\
  Forall (grp h) pre /\ lseg n_peer h (Some a) None ((a, x) :: k) /\ Forall (grp h) post.
Proof.
  intros [Hn Hp _ _ _ _]. apply next_split in Hn as (H1 & H2).
  apply Forall_app in Hp as [? Hp]. apply Forall_cons in Hp as [(b & y & j & [= <- <- <-] & ?) ?].
  by split_and!.
Qed.

Lemma ready_fresh h root gs b : ready h root gs -> b ∈ addresses gs -> b <> ta.
Proof. intros [_ _ Hn _ _ _] Hb ->. apply NoDup_cons in Hn as [Hn _]. done. Qed.

Lemma ready_ta_some h root gs : ready h root gs -> is_Some (h !! ta).
Proof. intros H. apply (lk_is_Some n_next). rewrite (rd_tan _ _ _ H). eauto. Qed.

(** The refused entry is freed again. *)
Lemma refuse_ok h root gs :
  ready h root gs -> shape {| s_heap := delete ta h; s_root := root |} gs.
Proof.
  intros H. assert (forall b, b ∈ addresses gs -> b <> ta) as Hf
    by (intros b; by eapply ready_fresh).
  destruct H as [Hn Hp Hd Ht1 Ht2 Hdom].
  split; simpl.
  - eapply next_ext; [|exact Hn]. intros b Hb. apply lk_delete. eauto.
  - eapply grp_ext; [|exact Hp]. intros b Hb. apply lk_delete. eauto.
  - by apply NoDup_cons in Hd as [_ Hd].
  - intros a [n Ha]. apply lookup_delete_Some in Ha as [Hne Ha].
    pose proof (Hdom a (mk_is_Some _ _ Ha)) as Hc. apply elem_of_cons in Hc as [->|]; done.
Qed.

(** A new group before [post]. *)
Lemma link_ok h root pre post q :
  ready h root (pre ++ post) -> lseg n_next h root q (heads pre) ->
  lseg n_next h q None (heads post) ->
  forall h1, (forall b, Peer h1 b = Peer h b) -> (forall b, b <> ta -> Next h1 b = Next h b) ->
  Next h1 ta = Some (tmp, q) ->
  outcome_is (link_after ta tmp h1 root (fst <$> last (heads pre))) None
    (pre ++ [(ta, tmp)] :: post) [] (hint_if tmp [AddHint ta]).
Proof.
  intros H H1 H2 h1 Hp1 Hn1 Ht1.
  assert (forall b, b ∈ addresses (pre ++ post) -> b <> ta) as Hf
    by (intros b; by eapply ready_fresh).
  destruct H as [Hn Hp Hd _ Htp Hdom]. rewrite addresses_app in Hf.
  apply Forall_app in Hp as [Hpre Hpost].
  assert (NoDup (heads pre).*1) as Hnd.
  { apply NoDup_cons in Hd as [_ Hd]. rewrite addresses_app in Hd. apply NoDup_app in Hd as [Hd _].
    by apply heads_nodup. }
  assert (lseg n_next h1 root q (heads pre)) as H1'.
  { eapply next_ext; [|exact H1]. intros b Hb. apply Hn1, Hf, elem_of_app. by left. }
  destruct (relink_spec (Some ta) h1 root q (heads pre) H1' Hnd)
    as (h2 & root2 & E & Hl & Hp2 & Hn2).
  unfold link_after. rewrite E. simpl. eexists. split_and!; [done|done| |done|done]. simpl.
  assert (forall b, b ∈ addresses pre -> (b ∉ addresses post) /\ b <> ta) as Hdis.
  { apply NoDup_cons in Hd as [Hta Hd]. rewrite addresses_app in Hd, Hta.
    apply NoDup_app in Hd as (_ & Hx & _). intros b Hb. split; [by apply Hx|].
    intros ->. apply Hta, elem_of_app. by left. }
  assert (forall b, Peer h2 b = Peer h b) as Hpp by (intros b; by rewrite Hp2, Hp1).
  eapply shape_intro; [exact Hl| | | | | |..].
  - rewrite Hn2; [exact Ht1|]. intros Hin. apply heads_addresses in Hin.
    by destruct (Hdis _ Hin) as [_ ?].
  - eapply next_ext; [|exact H2]. intros b Hb. rewrite Hn2.
    + apply Hn1, Hf, elem_of_app. by right.
    + intros Hin. apply heads_addresses in Hin. by destruct (Hdis _ Hin).
  - eapply grp_ext; [|exact Hpre]. auto.
  - apply lseg_cons. split; [done|]. exists None. rewrite Hpp. done.
  - eapply grp_ext; [|exact Hpost]. auto.
  - pose proof (addresses_insert pre [] ta tmp [] post) as Hperm. simpl in Hperm.
    rewrite Hperm. clear -Hd. rewrite !addresses_app, !addresses_cons in *. simpl. done.
  - intros b Hb. rewrite addresses_app, addresses_cons. simpl.
    apply (lk_dom n_peer _ h) in Hb; [|done]. apply Hdom in Hb. rewrite addresses_app in Hb.
    apply elem_of_cons in Hb as [->|Hb]; [apply elem_of_app; right; left|].
    apply elem_of_app in Hb as [?|?]; apply elem_of_app; [by left|right; by right].
Qed.

(** In the middle of a group the new entry goes behind [ep] and, if it replaces
    one, takes the place of the entries [gd]. *)
Lemma peer_mid h root pre gp ep x gd gr post h2 q :
  let old := pre ++ ((gp ++ [(ep, x)]) ++ gd ++ gr) :: post in
  ready h root old -> lseg n_peer h q None gr ->
  (forall b, b ∉ gd.*1 -> Next h2 b = Next h b) ->
  (forall b, b ∉ gd.*1 -> b <> ep -> b <> ta -> Peer h2 b = Peer h b) ->
  Peer h2 ep = Some (x, Some ta) -> Peer h2 ta = Some (tmp, q) ->
  (forall b, b ∈ gd.*1 -> h2 !! b = None) ->
  shape {| s_heap := h2; s_root := root |}
    (pre ++ ((gp ++ [(ep, x)]) ++ (ta, tmp) :: gr) :: post).
Proof.
  intros old H Hq Hn2 Hp2 Hep Hta Hdel.
  assert (exists a0 x0 k0, (gp ++ [(ep, x)]) ++ gd ++ gr = (a0, x0) :: k0 /\
    exists k1, (gp ++ [(ep, x)]) ++ (ta, tmp) :: gr = (a0, x0) :: k1) as
    (a0 & x0 & k0 & Ek & k1 & Ek1).
  { destruct gp as [|[a0 x0] gp]; simpl; eauto 8. }
  assert (Hr := H). unfold old in Hr. rewrite Ek in Hr.
  apply ready_focus in Hr as (H1 & (qn & H2 & H3) & Hpre & Hg & Hpost).
  rewrite <- Ek in Hg. destruct H as [_ _ Hd _ _ Hdom]. unfold old in Hd, Hdom.
  apply NoDup_cons in Hd as [Hta0 Hd]. revert Hta0 Hd Hdom.
  rewrite !addresses_app, !addresses_cons, !fmap_app. simpl. intros Hta0 Hd Hdom.
  assert (forall b, b ∈ addresses pre ++ addresses post ->
            (b ∉ gd.*1) /\ b <> ep /\ b <> ta) as Hout.
  { intros b Hb. destruct (nodup_around _ _ _ Hd) as [Ho _].
    split_and!; [intros Hin|intros ->|intros ->]; [| |apply Hta0; revert Hb; mem];
      apply (Ho _ Hb); mem. }
  destruct (nodup_around _ _ _ Hd) as [_ Hgd]. rewrite <- app_assoc in Hgd. simpl in Hgd.
  apply NoDup_app in Hgd as (Hg1 & Hg2 & Hg3). apply NoDup_cons in Hg3 as [Hg3 Hg4].
  apply NoDup_app in Hg4 as (Hg4 & Hg5 & Hg6).
  rewrite Ek1. eapply shape_intro with (q := qn).
  - eapply next_ext; [|exact H1]. intros b Hb. apply Hn2, Hout. mem.
  - rewrite Hn2; [exact H2|]. destruct gp as [|[a1 x1] gp]; simpl in Ek; simplify_eq.
    + intros Hin. apply Hg3. mem.
    + intros Hin. apply (Hg2 a0); simpl; mem.
  - eapply next_ext; [|exact H3]. intros b Hb. apply Hn2, Hout. mem.
  - eapply grp_ext; [|exact Hpre]. intros b Hb. apply Hp2; apply Hout; mem.
  - rewrite <- Ek1, <- app_assoc. apply lseg_app in Hg as (r & Hg & _).
    apply lseg_app in Hg as (r' & Hg & Hg'). apply lseg_cons in Hg' as (-> & _).
    apply lseg_app. exists (Some ep). split.
    + eapply lseg_ext; [|exact Hg]. intros b Hb. apply Hp2.
      * intros Hin. apply (Hg2 b Hb). mem.
      * intros ->. apply (Hg2 ep Hb). mem.
      * intros ->. apply Hta0. mem.
    + cbn [app]. apply lseg_cons. split; [done|]. exists (Some ta). split; [done|].
      apply lseg_cons. split; [done|]. exists q. split; [done|].
      eapply lseg_ext; [|exact Hq]. intros b Hb. apply Hp2.
      * intros Hin. exact (Hg5 b Hin Hb).
      * intros ->. apply Hg3. mem.
      * intros ->. apply Hta0. mem.
  - eapply grp_ext; [|exact Hpost]. intros b Hb. apply Hp2; apply Hout; mem.
  - rewrite <- Ek1, addresses_insert. constructor.
    + rewrite addresses_app, addresses_cons, !fmap_app. simpl. revert Hta0. mem.
    + rewrite addresses_app, addresses_cons, !fmap_app. simpl.
      eapply sublist_NoDup; [exact Hd|].
      apply sublist_app; [done|]. apply sublist_app; [|done]. apply sublist_app; [done|].
      apply sublist_inserts_l. done.
  - intros b Hb. rewrite <- Ek1. destruct (decide (b ∈ gd.*1)) as [Hin|Hin].
    { rewrite (Hdel b Hin) in Hb. by destruct Hb. }
    apply (lk_dom n_next h) in Hb; [|by apply Hn2]. apply Hdom in Hb.
    rewrite addresses_insert, addresses_app, addresses_cons, !fmap_app. simpl.
    revert Hb Hin. mem.
Qed.

(** The new entry becomes the first of its group. *)
Lemma peer_head h root pre a x k gd gr post h2 root2 q qn :
  ready h root (pre ++ ((a, x) :: k) :: post) -> (a, x) :: k = gd ++ gr ->
  Next h a = Some (x, qn) -> lseg n_peer h q None gr ->
  lseg n_next h2 root2 (Some ta) (heads pre) -> Next h2 ta = Some (tmp, qn) ->
  (forall b, b ∈ addresses post -> Next h2 b = Next h b) ->
  (forall b, b ∉ gd.*1 -> b <> ta -> Peer h2 b = Peer h b) -> Peer h2 ta = Some (tmp, q) ->
  (forall b, b ∈ gd.*1 -> h2 !! b = None) ->
  shape {| s_heap := h2; s_root := root2 |} (pre ++ ((ta, tmp) :: gr) :: post).
Proof.
  intros H Ek Hqn Hq Hpre2 Hta2 Hn2 Hp2 Htp2 Hdel.
  destruct (ready_focus _ _ _ _ _ _ _ H) as (_ & (qn' & H2 & H3) & Hpre & _ & Hpost).
  rewrite Hqn in H2. injection H2 as <-.
  destruct H as [_ _ Hd _ _ Hdom]. rewrite Ek in Hd, Hdom.
  apply NoDup_cons in Hd as [Hta0 Hd]. revert Hta0 Hd Hdom.
  rewrite !addresses_app, !addresses_cons, !fmap_app. intros Hta0 Hd Hdom.
  destruct (nodup_around _ _ _ Hd) as [Ho Hgd].
  assert (forall b, b ∈ addresses pre ++ addresses post -> (b ∉ gd.*1) /\ b <> ta) as Hout.
  { intros b Hb. split; [intros Hin; apply (Ho _ Hb); mem|intros ->].
    apply Hta0. revert Hb. mem. }
  apply NoDup_app in Hgd as (_ & Hgd & _).
  eapply shape_intro with (q := qn).
  - done.
  - done.
  - eapply next_ext; [|exact H3]. auto.
  - eapply grp_ext; [|exact Hpre]. intros b Hb. apply Hp2; apply Hout; mem.
  - apply lseg_cons. split; [done|]. exists q. split; [done|].
    eapply lseg_ext; [|exact Hq]. intros b Hb. apply Hp2.
    + intros Hin. exact (Hgd b Hin Hb).
    + intros ->. apply Hta0. mem.
  - eapply grp_ext; [|exact Hpost]. intros b Hb. apply Hp2; apply Hout; mem.
  - rewrite (addresses_insert pre [] ta tmp gr post). constructor.
    + rewrite addresses_app, addresses_cons. simpl. revert Hta0. mem.
    + rewrite addresses_app, addresses_cons. simpl. eapply sublist_NoDup; [exact Hd|].
      apply sublist_app; [done|]. apply sublist_app; [|done]. by apply sublist_inserts_l.
  - intros b Hb. destruct (decide (b ∈ gd.*1)) as [Hin|Hin].
    { rewrite (Hdel b Hin) in Hb. by apply is_Some_None in Hb. }
    rewrite (addresses_insert pre [] ta tmp gr post), addresses_app, addresses_cons.
    simpl. destruct (decide (b = ta)) as [->|Hbt]; [left|].
    apply (lk_dom n_peer h) in Hb; [|by apply Hp2]. apply Hdom in Hb.
    revert Hb Hin. mem.
Qed.

(** ** The loop over the priorities *)

Lemma ready_relink h root pre a x k post v :
  ready h root (pre ++ ((a, x) :: k) :: post) ->
  exists h' root', relink (fst <$> last (heads pre)) v h root = Some (h', root') /\
    lseg n_next h' root' v (heads pre) /\ (forall b, Peer h' b = Peer h b) /\
    (forall b, b ∉ addresses pre -> Next h' b = Next h b).
Proof.
  intros H. destruct (ready_focus _ _ _ _ _ _ _ H) as (H1 & _).
  pose proof (rd_nodup _ _ _ H) as Hd. apply NoDup_cons in Hd as [_ Hd].
  rewrite addresses_app in Hd. apply NoDup_app in Hd as [Hd _].
  destruct (relink_spec v h root (Some a) (heads pre) H1) as (h' & root' & E & Hl & Hp & Hn);
    [by apply heads_nodup|].
  exists h', root'. split_and!; [done..|]. intros b Hb. apply Hn. intros Hin.
  by apply Hb, heads_addresses.
Qed.

(** The fresh entry and the entries of the group are outside of the others. *)
Lemma ready_apart h root pre g post :
  ready h root (pre ++ g :: post) ->
  (forall b, b ∈ ta :: g.*1 -> (b ∉ addresses pre) /\ (b ∉ addresses post)) /\ (ta ∉ g.*1) /\
  (forall b, b ∈ addresses post -> b ∉ addresses pre).
Proof.
  intros H. pose proof (rd_nodup _ _ _ H) as Hd. revert Hd.
  rewrite addresses_app, addresses_cons. intros Hd. apply NoDup_cons in Hd as [Ht Hd].
  destruct (nodup_around _ _ _ Hd) as [Ho _].
  split_and!.
  - intros b Hb. apply elem_of_cons in Hb as [->|Hb]; [revert Ht; mem|].
    split; intros Hin; (apply (Ho b); [revert Hin; mem|done]).
  - revert Ht. mem.
  - intros b Hb Hin. apply NoDup_app in Hd as (_ & Hd & _). apply (Hd b Hin). mem.
Qed.

(** Behind the last entry of a group, or between two. *)
Lemma insert_mid_ok h root pre gp ep x gr post q :
  ready h root (pre ++ ((gp ++ [(ep, x)]) ++ gr) :: post) -> lseg n_peer h q None gr ->
  exists h1, set_peer ep (Some ta) h = Some h1 /\
  forall h2, (forall b, Next h2 b = Next h1 b) -> (forall b, b <> ta -> Peer h2 b = Peer h1 b) ->
    Peer h2 ta = Some (tmp, q) ->
  shape {| s_heap := h2; s_root := root |}
    (pre ++ ((gp ++ [(ep, x)]) ++ (ta, tmp) :: gr) :: post).
Proof.
  intros H Hq. destruct (ready_apart _ _ _ _ _ H) as (_ & Ht & _).
  assert (ep <> ta) as Hne. { intros ->. apply Ht. rewrite !fmap_app. simpl. mem. }
  assert (exists r, Peer h ep = Some (x, r)) as [r Hep].
  { pose proof (rd_peer _ _ _ H) as Hp. apply Forall_app in Hp as [_ Hp].
    apply Forall_cons in Hp as [(b & y & j & E & Hg) _].
    apply lseg_app in Hg as (r & Hg & _). apply lseg_app in Hg as (r' & _ & Hg).
    apply lseg_cons in Hg as (_ & r2 & ? & _). eauto. }
  destruct (set_peer_spec ep (Some ta) h) as (h1 & E & Hn1 & Hp1 & Hat);
    [apply (lk_is_Some n_peer); rewrite Hep; eauto|].
  exists h1. split; [done|]. intros h2 Hn2 Hp2 Hta.
  eapply (peer_mid h root pre gp ep x [] gr post h2 q); [done|done|..].
  - intros b _. by rewrite Hn2.
  - intros b _ Hb Hb'. rewrite Hp2 by done. by apply Hp1.
  - rewrite Hp2 by done. by eapply Hat.
  - done.
  - by intros b Hb%elem_of_nil.
Qed.

Lemma append_ok h root pre gp ep x post :
  ready h root (pre ++ (gp ++ [(ep, x)]) :: post) ->
  outcome_is (h1 ← set_peer ep (Some ta) h; added h1 root (hint_if tmp [AddHint ta])) None
    (pre ++ ((gp ++ [(ep, x)]) ++ [(ta, tmp)]) :: post) [] (hint_if tmp [AddHint ta]).
Proof.
  intros H. assert (Hn := H). rewrite <- (app_nil_r (gp ++ [(ep, x)])) in H.
  destruct (insert_mid_ok h root pre gp ep x [] post None H eq_refl) as (h1 & E & Hs).
  destruct (ready_apart _ _ _ _ _ Hn) as (_ & Ht & _).
  unfold set_peer in *. destruct (h !! ep) as [n|] eqn:En; [|done]. simpl in *.
  eexists. split_and!; [done|done| |done|done]. simpl. simplify_eq. apply Hs; [done|done|].
  unfold lk. rewrite lookup_alter_ne; [apply (rd_tap _ _ _ Hn)|].
  intros ->. apply Ht. rewrite fmap_app. simpl. mem.
Qed.

Lemma slip_mid_ok h root el pre gp ep x ea y gr post n :
  ready h root (pre ++ ((gp ++ [(ep, x)]) ++ (ea, y) :: gr) :: post) ->
  lseg n_peer h (Some ea) None ((ea, y) :: gr) ->
  outcome_is (slip_in ta tmp h root el (Some ep) ea n) None
    (pre ++ ((gp ++ [(ep, x)]) ++ (ta, tmp) :: (ea, y) :: gr) :: post) []
    (hint_if tmp [AddHint ta]).
Proof.
  intros H Hq.
  destruct (insert_mid_ok h root pre gp ep x ((ea, y) :: gr) post (Some ea) H Hq) as (h1 & E & Hs).
  unfold slip_in. rewrite E. simpl.
  assert (exists r, Peer h1 ta = Some (tmp, r)) as [r Hta].
  { destruct (set_peer_spec ep (Some ta) h) as (h1' & E' & _ & Hp1 & Hat).
    { unfold set_peer in E. by destruct (h !! ep). }
    rewrite E in E'. injection E' as <-. destruct (decide (ta = ep)) as [<-|Hne].
    - eexists. eapply Hat, (rd_tap _ _ _ H).
    - rewrite Hp1 by done. eexists. apply (rd_tap _ _ _ H). }
  destruct (set_peer_spec ta (Some ea) h1) as (h2 & -> & Hn2 & Hp2 & Hat);
    [apply (lk_is_Some n_peer); rewrite Hta; eauto|].
  simpl. eexists. split_and!; [done|done| |done|done]. simpl. apply Hs; [done|auto|].
  by eapply Hat.
Qed.

Lemma replace_mid_ok h root el pre gp ep x ea y gr post n :
  ready h root (pre ++ ((gp ++ [(ep, x)]) ++ [(ea, y)] ++ gr) :: post) ->
  h !! ea = Some n -> n_val n = y -> lseg n_peer h (n_peer n) None gr ->
  outcome_is (replace_entry ta tmp h root el (Some ep) ea n) None
    (pre ++ ((gp ++ [(ep, x)]) ++ (ta, tmp) :: gr) :: post) [x_data y]
    (hint_if tmp [ChangeHint ea ta; ChangeHint ea ta]).
Proof.
  intros H Hn <- Hq. destruct (ready_apart _ _ _ _ _ H) as (_ & Ht & _).
  rewrite !fmap_app in Ht. simpl in Ht.
  assert (ep <> ta /\ ea <> ta) as [Hne1 Hne2] by (split; intros ->; apply Ht; mem).
  assert (ep <> ea) as Hne3.
  { intros ->. pose proof (rd_nodup _ _ _ H) as Hd. apply NoDup_cons in Hd as [_ Hd].
    revert Hd. rewrite addresses_app, addresses_cons. intros Hd.
    destruct (nodup_around _ _ _ Hd) as [_ Hg]. rewrite !fmap_app in Hg. simpl in Hg.
    rewrite <- app_assoc in Hg. simpl in Hg. apply NoDup_app in Hg as (_ & _ & Hg).
    apply NoDup_cons in Hg as [Hg _]. apply Hg. left. }
  assert (exists r, Peer h ep = Some (x, r)) as [r Hep].
  { pose proof (rd_peer _ _ _ H) as Hp. apply Forall_app in Hp as [_ Hp].
    apply Forall_cons in Hp as [(b & y & j & E & Hg) _].
    apply lseg_app in Hg as (r & Hg & _). apply lseg_app in Hg as (r' & _ & Hg).
    apply lseg_cons in Hg as (_ & r2 & ? & _). eauto. }
  unfold replace_entry.
  destruct (set_peer_spec ep (Some ta) h) as (h1 & -> & Hn1 & Hp1 & Hat1);
    [apply (lk_is_Some n_peer); rewrite Hep; eauto|]. simpl.
  pose proof (rd_tap _ _ _ H) as Htp. rewrite <- Hp1 in Htp by done.
  destruct (set_peer_spec ta (n_peer n) h1) as (h2 & -> & Hn2 & Hp2 & Hat2);
    [apply (lk_is_Some n_peer); rewrite Htp; eauto|]. simpl.
  eexists. split_and!; [done|done| |done|done]. simpl.
  eapply (peer_mid h root pre gp ep x [(ea, n_val n)] gr post _ (n_peer n)); [done|done|..]; simpl.
  - intros b Hb. rewrite lk_delete by (intros ->; apply Hb; left). by rewrite Hn2, Hn1.
  - intros b Hb Hb1 Hb2. rewrite lk_delete by (intros ->; apply Hb; left). by rewrite Hp2, Hp1.
  - rewrite lk_delete, Hp2 by done. by eapply Hat1.
  - rewrite lk_delete by done. by eapply Hat2.
  - intros b Hb. apply list_elem_of_singleton in Hb as ->. apply lookup_delete_eq.
Qed.

Lemma replace_head_ok h root pre ea y gr post n :
  ready h root (pre ++ ((ea, y) :: gr) :: post) -> h !! ea = Some n -> n_val n = y ->
  outcome_is (replace_entry ta tmp h root (fst <$> last (heads pre)) None ea n) None
    (pre ++ ((ta, tmp) :: gr) :: post) [x_data y]
    (hint_if tmp [ChangeHint ea ta; ChangeHint ea ta]).
Proof.
  intros H Hn <-. destruct (ready_apart _ _ _ _ _ H) as (Ha & Ht & Hpp). simpl in *.
  assert (ea <> ta) as Hne by (intros ->; apply Ht; left).
  destruct (ready_focus _ _ _ _ _ _ _ H) as (_ & (qn & Hqn & _) & _ & Hg & _).
  apply lseg_cons in Hg as (_ & q & Hq & Hgr). unfold lk in Hqn, Hq. rewrite Hn in Hqn, Hq.
  simpl in Hqn, Hq. injection Hqn as Hqn. injection Hq as Hq.
  destruct (ready_relink _ _ _ _ _ _ _ (Some ta) H) as (h1 & root1 & E & Hl & Hp1 & Hn1).
  unfold replace_entry. rewrite E. simpl.
  pose proof (rd_tan _ _ _ H) as Htn. rewrite <- Hn1 in Htn by (apply Ha; left).
  destruct (set_next_spec ta (n_next n) h1) as (h2 & -> & Hp2 & Hn2 & Hat2);
    [apply (lk_is_Some n_next); rewrite Htn; eauto|]. simpl.
  pose proof (rd_tap _ _ _ H) as Htp. rewrite <- Hp1, <- Hp2 in Htp.
  destruct (set_peer_spec ta (n_peer n) h2) as (h3 & -> & Hn3 & Hp3 & Hat3);
    [apply (lk_is_Some n_peer); rewrite Htp; eauto|]. simpl.
  eexists. split_and!; [done|done| |done|done]. simpl.
  eapply (peer_head h root pre ea (n_val n) gr [(ea, n_val n)] gr post _ root1 (n_peer n) (n_next n));
    [done|done|..]; simpl.
  - unfold lk. by rewrite Hn.
  - by rewrite Hq.
  - eapply next_ext; [|exact Hl]. intros b Hb. rewrite lk_delete, Hn3, Hn2.
    + done.
    + intros ->. by destruct (Ha ta) as [? _]; [left|].
    + intros ->. by destruct (Ha ea) as [? _]; [right; left|].
  - rewrite lk_delete, Hn3 by done. by eapply Hat2.
  - intros b Hb. rewrite lk_delete, Hn3, Hn2, Hn1; [done|auto|..].
    + intros ->. by destruct (Ha ta) as [_ ?]; [left|].
    + intros ->. by destruct (Ha ea) as [_ ?]; [right; left|].
  - intros b Hb Hbt. rewrite lk_delete by (intros ->; apply Hb; left). by rewrite Hp3, Hp2, Hp1.
  - rewrite lk_delete by done. by eapply Hat3.
  - intros b Hb. apply list_elem_of_singleton in Hb as ->. apply lookup_delete_eq.
Qed.

Lemma slip_head_ok h root pre ea y gr post n :
  ready h root (pre ++ ((ea, y) :: gr) :: post) -> h !! ea = Some n -> n_val n = y ->
  outcome_is (slip_in ta tmp h root (fst <$> last (heads pre)) None ea n) None
    (pre ++ ((ta, tmp) :: (ea, y) :: gr) :: post) [] (hint_if tmp [AddHint ta]).
Proof.
  intros H Hn <-. destruct (ready_apart _ _ _ _ _ H) as (Ha & Ht & Hpp). simpl in *.
  assert (ea <> ta) as Hne by (intros ->; apply Ht; left).
  destruct (ready_focus _ _ _ _ _ _ _ H) as (Hroot & _ & _ & Hg & _).
  assert (Next h ea = Some (n_val n, n_next n)) as Hqn by (unfold lk; by rewrite Hn).
  assert (Ha1 := Ha ta ltac:(left)). assert (Ha2 := Ha ea ltac:(right; left)).
  destruct Ha1 as [Ha1 Ha1'], Ha2 as [Ha2 Ha2'].
  destruct (ready_relink _ _ _ _ _ _ _ (Some ta) H) as (h1 & root1 & E & Hl & Hp1 & Hn1).
  unfold slip_in, relink in *. destruct (last (heads pre)) as [[el xl]|] eqn:El; simpl in *.
  - destruct (set_next el (Some ta) h) as [h1'|]; simpl in E; [|done]. injection E as -> ->. simpl.
    pose proof (rd_tan _ _ _ H) as Htn. rewrite <- Hn1 in Htn by done.
    destruct (set_next_spec ta (n_next n) h1) as (h2 & -> & Hp2 & Hn2 & Hat2);
      [apply (lk_is_Some n_next); rewrite Htn; eauto|]. simpl.
    assert (Next h2 ea = Some (n_val n, n_next n)) as Hea by by rewrite Hn2, Hn1.
    destruct (set_next_spec ea None h2) as (h3 & -> & Hp3 & Hn3 & _);
      [apply (lk_is_Some n_next); rewrite Hea; eauto|]. simpl.
    pose proof (rd_tap _ _ _ H) as Htp. rewrite <- Hp1, <- Hp2, <- Hp3 in Htp.
    destruct (set_peer_spec ta (Some ea) h3) as (h4 & -> & Hn4 & Hp4 & Hat4);
      [apply (lk_is_Some n_peer); rewrite Htp; eauto|]. simpl.
    eexists. split_and!; [done|done| |done|done]. simpl.
    eapply (peer_head h root1 pre ea (n_val n) gr [] _ post _ root1 (Some ea) (n_next n));
      [done|done|done|done|..].
    + eapply next_ext; [|exact Hl]. intros b Hb. rewrite Hn4, Hn3, Hn2; [done|..];
        intros ->; done.
    + rewrite Hn4, Hn3 by done. by eapply Hat2.
    + intros b Hb. rewrite Hn4, Hn3, Hn2, Hn1; [done|auto|..]; intros ->; done.
    + intros b _ Hbt. by rewrite Hp4, Hp3, Hp2, Hp1.
    + by eapply Hat4.
    + by intros b Hb%elem_of_nil.
  - apply last_None in El. rewrite El in Hroot, Hl. simpl in Hroot. subst root. simpl.
    rewrite Hn. simpl. pose proof (rd_tan _ _ _ H) as Htn.
    destruct (set_next_spec ta (n_next n) h) as (h2 & -> & Hp2 & Hn2 & Hat2);
      [apply (lk_is_Some n_next); rewrite Htn; eauto|]. simpl.
    pose proof (rd_tap _ _ _ H) as Htp. rewrite <- Hp2 in Htp.
    destruct (set_peer_spec ta (Some ea) h2) as (h4 & -> & Hn4 & Hp4 & Hat4);
      [apply (lk_is_Some n_peer); rewrite Htp; eauto|]. simpl.
    eexists. split_and!; [done|done| |done|done]. simpl.
    eapply (peer_head h (Some ea) pre ea (n_val n) gr [] _ post _ (Some ta) (Some ea) (n_next n));
      [done|done|done|done|..].
    + by rewrite El.
    + rewrite Hn4. by eapply Hat2.
    + intros b Hb. rewrite Hn4, Hn2; [done|]. by intros ->.
    + intros b _ Hbt. by rewrite Hp4, Hp2.
    + by eapply Hat4.
    + by intros b Hb%elem_of_nil.
Qed.

Lemma add_peer_ok fuel h root pre gp gr post :
  ready h root (pre ++ (gp ++ gr) :: post) -> gp ++ gr <> [] -> (length gr <= fuel)%nat ->
  lseg n_peer h (fst <$> head gr) None gr ->
  let o := add_peer ta tmp replace fuel h root (fst <$> last (heads pre)) (fst <$> last gp)
             (fst <$> head gr) in
  match abs_peers (ta, tmp) replace gr with
  | Some (gr', d, ev) => outcome_is o None (pre ++ (gp ++ gr') :: post) d ev
  | None => outcome_is o (Some EEXIST) (pre ++ (gp ++ gr) :: post) [x_data tmp] []
  end.
Proof.
  revert fuel gp. induction gr as [|[ea y] gr IH]; intros fuel gp H Hne Hf Hl.
  - destruct gp as [|[ep x] gp _] using rev_ind; [done|]. rewrite app_nil_r in H.
    cbn [head fmap option_fmap option_map]. rewrite last_snoc. destruct fuel; simpl;
      by apply append_ok.
  - destruct fuel as [|fuel]; [simpl in Hf; lia|]. simpl in Hf.
    apply lseg_cons in Hl as (_ & q & Hq & Hl). unfold lk in Hq.
    destruct (h !! ea) as [n|] eqn:En; [|done]. simpl in Hq. injection Hq as Hy Hq.
    cbn [abs_peers add_peer head fmap option_fmap option_map fst snd]. rewrite En. simpl.
    rewrite Hy. destruct (x_priority y =? x_priority tmp) eqn:Ep.
    + destruct replace.
      * destruct gp as [|[ep x] gp _] using rev_ind; simpl.
        -- by apply replace_head_ok.
        -- rewrite last_snoc. apply replace_mid_ok; [done|done|done|by rewrite Hq].
      * eexists. split_and!; [done|done| |done|done]. by apply refuse_ok.
    + destruct (x_priority tmp <? x_priority y) eqn:Es.
      * destruct gp as [|[ep x] gp _] using rev_ind; simpl.
        -- by apply slip_head_ok.
        -- rewrite last_snoc. eapply slip_mid_ok; [done|].
           apply lseg_cons. split; [done|]. exists q. unfold lk. rewrite En. simpl.
           by rewrite Hy, Hq.
      * rewrite Hq. assert (q = fst <$> head gr) as Hqh.
        { destruct gr as [|[b z] gr]; [done|]. by apply lseg_cons in Hl as (-> & _). }
        specialize (IH fuel (gp ++ [(ea, y)])). rewrite <- app_assoc in IH. simpl in IH.
        rewrite last_snoc in IH. simpl in IH. rewrite <- Hqh in IH.
        specialize (IH H ltac:(by destruct gp) ltac:(lia) Hl).
        destruct (abs_peers (ta, tmp) replace gr) as [[[gr' d] ev]|]; simpl; [|done].
        by rewrite <- app_assoc in IH.
Qed.

Lemma add_loop_ok fuel h root pre rest :
  ready h root (pre ++ rest) -> (length (concat rest) <= fuel)%nat ->
  let o := add_loop ta tmp extension replace fuel h root (fst <$> last (heads pre))
             (fst <$> head (heads rest)) in
  match abs_add (ta, tmp) extension replace rest with
  | Some (rest', d, ev) => outcome_is o None (pre ++ rest') d ev
  | None => outcome_is o (Some EEXIST) (pre ++ rest) [x_data tmp] []
  end.
Proof.
  revert fuel pre. induction rest as [|g rest IH]; intros fuel pre H Hf.
  - simpl. assert (add_loop ta tmp extension replace fuel h root (fst <$> last (heads pre)) None
      = link_after ta tmp h root (fst <$> last (heads pre))) as -> by by destruct fuel.
    assert (Hr := H). rewrite app_nil_r in Hr.
    eapply (link_ok h root pre [] None); [done|apply Hr|done|done|done|apply (rd_tan _ _ _ H)].
  - assert (exists a x k, g = (a, x) :: k) as (ea & y & k & ->).
    { pose proof (rd_peer _ _ _ H) as Hp. apply Forall_app in Hp as [_ Hp].
      apply Forall_cons in Hp as [(b & z & j & -> & _) _]. eauto. }
    destruct (ready_focus _ _ _ _ _ _ _ H) as (Hpre & (qn & Hqn & Hrest) & _ & Hg & _).
    simpl in Hf. rewrite length_app in Hf. destruct fuel as [|fuel]; [lia|].
    rewrite heads_cons. cbn [add_loop abs_add head fmap option_fmap option_map fst snd].
    assert (exists n, h !! ea = Some n /\ n_val n = y /\ n_next n = qn) as (n & Hn & Hy & Hnx).
    { unfold lk in Hqn. destruct (h !! ea) as [n|]; simplify_eq/=. eauto. }
    rewrite Hn. cbn [mbind option_bind]. rewrite Hy. destruct (ext_cmp y extension tmp).
    + pose proof (add_peer_ok (S fuel) h root pre [] ((ea, y) :: k) rest H ltac:(done)
        ltac:(simpl; lia) Hg) as Hp.
      cbn [head fmap option_fmap option_map fst last] in Hp.
      destruct (abs_peers (ta, tmp) replace ((ea, y) :: k)) as [[[g' d] ev]|]; exact Hp.
    + rewrite Hnx. specialize (IH fuel (pre ++ [(ea, y) :: k])).
      rewrite <- app_assoc in IH. simpl in IH. specialize (IH H ltac:(lia)).
      rewrite heads_app, heads_cons in IH. change (heads []) with (@nil entry) in IH.
      rewrite last_snoc in IH. cbn [fmap option_fmap option_map fst] in IH.
      assert (qn = fst <$> head (heads rest)) as Hqh.
      { destruct (heads rest) as [|[b z] hs]; [done|]. by apply lseg_cons in Hrest as (-> & _). }
      rewrite <- Hqh in IH.
      destruct (abs_add (ta, tmp) extension replace rest) as [[[rest' d] ev]|]; simpl; [|done].
      by rewrite <- app_assoc in IH.
    + destruct (set_next_spec ta (Some ea) h) as (h1 & -> & Hp1 & Hn1 & Hat);
        [by eapply ready_ta_some|]. simpl.
      eapply (link_ok h root pre _ (Some ea)); [done|done| |done|done|].
      * rewrite heads_cons. apply lseg_cons. split; [done|]. eauto.
      * eapply Hat, (rd_tan _ _ _ H).
Qed.

End refine.

Lemma add_ready st gs ta tmp :
  shape st gs -> s_heap st !! ta = None ->
  ready ta tmp (<[ta := {| n_val := tmp; n_peer := None; n_next := None |}]> (s_heap st))
    (s_root st) gs.
Proof.
  intros H Hf. assert (ta ∉ addresses gs) as Hta.
  { intros Hin. destruct (grp_alloc _ _ _ (shape_peer _ _ H) Hin) as [n Hn]. by rewrite Hf in Hn. }
  destruct H as [Hn Hp Hd Hdom]. split.
  - eapply next_ext; [|exact Hn]. intros b Hb. unfold lk. rewrite lookup_insert_ne by congruence. done.
  - eapply grp_ext; [|exact Hp]. intros b Hb. unfold lk. rewrite lookup_insert_ne by congruence. done.
  - by constructor.
  - unfold lk. by rewrite lookup_insert_eq.
  - unfold lk. by rewrite lookup_insert_eq.
  - intros a Ha. destruct (decide (a = ta)) as [->|]; [left|right].
    apply Hdom. by rewrite lookup_insert_ne in Ha.
Qed.

(** The whole operation, as an operation on the groups. *)
Lemma add_extension2_ok st gs ta replace extension priority label callerid application data registrar :
  shape st gs -> s_heap st !! ta = None ->
  let tmp := new_exten extension priority label callerid application data registrar in
  let o := cw_add_extension2 st (Some ta) true replace extension priority label callerid application
             data registrar in
  match abs_add (ta, tmp) extension replace gs with
  | Some (gs', d, ev) => outcome_is o None gs' d ev
  | None => outcome_is o (Some EEXIST) gs [data] []
  end.
Proof.
  intros H Hf tmp o. pose proof (add_ready st gs ta tmp H Hf) as Hr.
  pose proof (shape_size st gs H) as Hs.
  set (h := <[ta := _]> (s_heap st)) in Hr.
  assert (length (concat gs) <= size h)%nat as Hl.
  { unfold h. rewrite map_size_insert_None by done. lia. }
  pose proof (add_loop_ok ta tmp extension replace (size h) h (s_root st) [] gs Hr Hl) as Hm.
  assert (s_root st = fst <$> head (heads gs)) as Hroot.
  { destruct H as [Hn _ _ _]. destruct (heads gs) as [|[b z] hs]; [done|].
    by apply lseg_cons in Hn as (-> & _). }
  cbn [head last fmap option_fmap option_map app] in Hm. rewrite <- Hroot in Hm. exact Hm.
Qed.

(** ** The order of the entries *)

Definition key_cmp (e t : exten) : comparison := ext_cmp e (x_exten t) t.

Lemma key_cmp_antisym e t : key_cmp t e = CompOpp (key_cmp e t).
Proof.
  unfold key_cmp, ext_cmp. rewrite (strcmp_antisym (x_exten e)).
  pose proof (strcasecmp_antisym (x_cidmatch e) (x_cidmatch t)) as Hc.
  destruct (is_pattern (x_exten e)), (is_pattern (x_exten t)); simpl; try done;
    destruct (strcmp (x_exten e) (x_exten t)); simpl; try done;
    destruct (x_matchcid e), (x_matchcid t); simpl; done.
Qed.

Lemma key_cmp_refl e : key_cmp e e = Eq.
Proof. pose proof (key_cmp_antisym e e) as H. by destruct (key_cmp e e). Qed.

Lemma key_cmp_eq_l e t u : key_cmp e t = Eq -> key_cmp e u = key_cmp t u.
Proof.
  unfold key_cmp, ext_cmp. intros H.
  assert (x_exten e = x_exten t) as Hx.
  { apply strcmp_eq. destruct (is_pattern (x_exten e)), (is_pattern (x_exten t)); simpl in H;
      try done; by destruct (strcmp (x_exten e) (x_exten t)). }
  rewrite Hx in *. rewrite !andb_negb_l, !andb_negb_r in H.
  rewrite (proj2 (strcmp_eq _ _) eq_refl) in H.
  destruct (x_matchcid e), (x_matchcid t); simpl in *; [|done..|by destruct (x_matchcid u)].
  destruct (x_matchcid u); simpl; [|done]. by rewrite (strcasecmp_eq_l _ _ _ H).
Qed.

Lemma key_cmp_trans e t u : key_cmp e t = Lt -> key_cmp t u = Lt -> key_cmp e u = Lt.
Proof.
  unfold key_cmp, ext_cmp. intros H1 H2.
  destruct (is_pattern (x_exten e)), (is_pattern (x_exten t)), (is_pattern (x_exten u));
    simpl in *; try done.
  all: destruct (strcmp (x_exten e) (x_exten t)) eqn:E1; [|..|done];
    [apply strcmp_eq in E1; rewrite E1; destruct (strcmp (x_exten t) (x_exten u)); [|done..];
     destruct (x_matchcid e), (x_matchcid t), (x_matchcid u); simpl in *; try done;
     by apply (strcasecmp_trans _ (x_cidmatch t))|].
  all: destruct (strcmp (x_exten t) (x_exten u)) eqn:E2; [|..|done];
    [apply strcmp_eq in E2; by rewrite <- E2, E1|by rewrite (strcmp_trans _ _ _ E1 E2)].
Qed.

(** The priorities of a group ascend, and all its entries have one key. *)
Definition group_ordered (g : list entry) : Prop :=
  StronglySorted (fun y z => x_priority y.2 < x_priority z.2) g /\
  forall y z, y ∈ g -> z ∈ g -> key_cmp y.2 z.2 = Eq.

Fixpoint ordered (gs : list (list entry)) : Prop :=
  match gs with
  | [] => True
  | g :: gs =>
    (exists y k, g = y :: k /\ group_ordered g /\
       Forall (fun z => key_cmp y.2 z.2 = Lt) (heads gs)) /\ ordered gs
  end.

Lemma abs_peers_elems t replace g g' d ev :
  abs_peers t replace g = Some (g', d, ev) ->
  t ∈ g' /\ (forall y, y ∈ g' -> y = t \/ y ∈ g) /\
  (forall y k, g = y :: k -> head g' = Some t \/ head g' = Some y).
Proof.
  revert g' d ev. induction g as [|y g IH]; intros g' d ev; simpl.
  - intros [= <- <- <-]. split_and!; [left| |done]. intros y Hy.
    apply list_elem_of_singleton in Hy. by left.
  - case_if.
    { destruct replace; [|done]. intros [= <- <- <-]. split_and!; [left| |by left].
      intros z Hz. apply elem_of_cons in Hz as [->|Hz]; [by left|right; by right]. }
    case_if.
    { intros [= <- <- <-]. split_and!; [left| |by left].
      intros z Hz. apply elem_of_cons in Hz as [->|Hz]; [by left|by right]. }
    destruct (abs_peers t replace g) as [[[g1 d1] ev1]|]; simpl; [|done].
    intros [= <- <- <-]. destruct (IH _ _ _ eq_refl) as (H1 & H2 & _).
    split_and!; [by right| |].
    + intros z Hz. apply elem_of_cons in Hz as [->|Hz]; [right; left|].
      destruct (H2 z Hz); [by left|right; by right].
    + intros z k [= -> ->]. by right.
Qed.

Lemma abs_peers_ordered t replace g g' d ev :
  abs_peers t replace g = Some (g', d, ev) -> group_ordered g ->
  Forall (fun y => key_cmp y.2 t.2 = Eq) g -> group_ordered g'.
Proof.
  intros H [Hs Hk] Hf. split.
  - revert g' d ev H. clear Hk Hf.
    induction Hs as [|y g Hs IH Hy]; intros g' d ev; simpl.
    { intros [= <- <- <-]. repeat constructor. }
    case_if.
    { destruct replace; [|done]. intros [= <- <- <-]. b2p. constructor; [done|].
      eapply Forall_impl; [exact Hy|]. simpl. intros. lia. }
    case_if.
    { intros [= <- <- <-]. b2p. constructor; [by constructor|]. constructor; [done|].
      eapply Forall_impl; [exact Hy|]. simpl. intros. lia. }
    destruct (abs_peers t replace g) as [[[g1 d1] ev1]|] eqn:Eg; simpl; [|done].
    intros [= <- <- <-]. b2p. constructor; [by eapply IH|]. apply Forall_forall.
    intros z Hz. destruct (abs_peers_elems _ _ _ _ _ _ Eg) as (_ & H2 & _).
    destruct (H2 z Hz) as [->|Hz']; [lia|]. by eapply Forall_forall in Hy.
  - destruct (abs_peers_elems _ _ _ _ _ _ H) as (_ & H2 & _).
    assert (forall y, y ∈ g' -> key_cmp y.2 t.2 = Eq) as Ht.
    { intros y Hy. destruct (H2 y Hy) as [->|Hy']; [apply key_cmp_refl|].
      by eapply Forall_forall in Hf. }
    intros y z Hy Hz. rewrite (key_cmp_eq_l _ t.2) by auto.
    rewrite key_cmp_antisym, Ht by done. done.
Qed.

Lemma abs_add_heads t extension replace gs gs' d ev (P : entry -> Prop) :
  abs_add t extension replace gs = Some (gs', d, ev) ->
  P t -> Forall P (heads gs) -> Forall P (heads gs').
Proof.
  intros H Ht. revert gs' d ev H. induction gs as [|[|y k] gs IH]; intros gs' d ev; cbn [abs_add].
  - intros [= <- <- <-] _. rewrite heads_cons. by constructor.
  - intros [= <- <- <-] Hg. rewrite heads_cons. by constructor.
  - rewrite heads_cons. intros H Hg. apply Forall_cons in Hg as [Hy Hg].
    destruct (ext_cmp y.2 extension t.2).
    + destruct (abs_peers t replace (y :: k)) as [[[g1 d1] ev1]|] eqn:Eg; simpl in H; [|done].
      simplify_eq. destruct (abs_peers_elems _ _ _ _ _ _ Eg) as (Hin & _ & Hh).
      destruct g1 as [|z g1]; [by apply elem_of_nil in Hin|]. rewrite heads_cons.
      constructor; [|done]. by destruct (Hh y k eq_refl) as [[= ->]|[= ->]].
    + destruct (abs_add t extension replace gs) as [[[gs1 d1] ev1]|] eqn:Eg; simpl in H; [|done].
      simplify_eq. rewrite heads_cons. constructor; [done|]. by eapply IH.
    + simplify_eq. rewrite !heads_cons. by repeat constructor.
Qed.

Lemma abs_add_ordered t extension replace gs gs' d ev :
  abs_add t extension replace gs = Some (gs', d, ev) -> x_exten t.2 = extension ->
  ordered gs -> ordered gs'.
Proof.
  intros H <-. revert gs' d ev H. induction gs as [|g gs IH]; intros gs' d ev.
  - intros [= <- <- <-] _. simpl. split; [|done]. exists t, []. split_and!; [done| |constructor].
    split; [repeat constructor|]. intros y z Hy Hz.
    apply list_elem_of_singleton in Hy as ->. apply list_elem_of_singleton in Hz as ->.
    apply key_cmp_refl.
  - intros H [(y & k & -> & Hg & Hy) Hgs]. cbn [abs_add] in H.
    fold (key_cmp y.2 t.2) in H. destruct (key_cmp y.2 t.2) eqn:Ek.
    + destruct (abs_peers t replace (y :: k)) as [[[g1 d1] ev1]|] eqn:Eg; simpl in H; [|done].
      simplify_eq. destruct (abs_peers_elems _ _ _ _ _ _ Eg) as (Hin & _ & Hh).
      destruct g1 as [|z g1]; [by apply elem_of_nil in Hin|].
      split; [|done]. exists z, g1. split_and!; [done| |].
      * eapply abs_peers_ordered; [exact Eg|done|]. apply Forall_forall. intros w Hw.
        rewrite (key_cmp_eq_l w.2 y.2); [done|]. apply Hg; [done|left].
      * destruct (Hh y k eq_refl) as [[= ->]|[= ->]]; [|done].
        eapply Forall_impl; [exact Hy|]. intros w Hw. simpl in *.
        by rewrite <- (key_cmp_eq_l y.2).
    + destruct (abs_add t (x_exten t.2) replace gs) as [[[gs1 d1] ev1]|] eqn:Eg; simpl in H; [|done].
      simplify_eq. split; [|by eapply IH]. exists y, k. split_and!; [done|done|].
      by eapply abs_add_heads.
    + simplify_eq. split.
      * exists t, []. split_and!; [done| |].
        -- split; [repeat constructor|]. intros w z Hw Hz.
           apply list_elem_of_singleton in Hw as ->. apply list_elem_of_singleton in Hz as ->.
           apply key_cmp_refl.
        -- assert (key_cmp t.2 y.2 = Lt) as Hty by by rewrite key_cmp_antisym, Ek.
           rewrite heads_cons. constructor; [done|]. eapply Forall_impl; [exact Hy|].
           intros w Hw. by eapply key_cmp_trans.
      * split; [|done]. by exists y, k.
Qed.

(** ** Removing implements the abstract operation *)

Section removal.
Context (extension : string) (priority : Z) (registrar : option string).

Definition names (x : exten) : bool :=
  streq (x_exten x) extension && registrar_ok registrar x.

Definition picks (x : exten) : bool := (x_priority x =? priority) && registrar_ok registrar x.

(** A group without the first entry of the priority. *)
Fixpoint abs_pick (g : list entry) : option (list entry * entry) :=
  match g with
  | [] => None
  | y :: g => if picks y.2 then Some (g, y) else '(g, z) ← abs_pick g; Some (y :: g, z)
  end.

(** Without the extension, or without one of its priorities. *)
Fixpoint abs_remove (gs : list (list entry)) : option (list (list entry) * list entry) :=
  match gs with
  | ((y :: _) as g) :: gs =>
    if names y.2 then
      if priority =? 0 then Some (gs, g)
      else '(g, z) ← abs_pick g; Some (match g with [] => gs | _ => g :: gs end, [z])
    else '(gs, zs) ← abs_remove gs; Some (g :: gs, zs)
  | _ => None
  end.

(** The case the code does not handle: the first priority of the very first
    extension, when it has more. *)
Definition first_of_first (gs : list (list entry)) : bool :=
  match gs with
  | (y :: _ :: _) :: _ => names y.2 && negb (priority =? 0) && picks y.2
  | _ => false
  end.

Lemma shape_focus h root pre a x k post :
  shape {| s_heap := h; s_root := root |} (pre ++ ((a, x) :: k) :: post) ->
  lseg n_next h root (Some a) (heads pre) /\
  (exists q, Next h a = Some (x, q) /\ lseg n_next h q None (heads post)) /\
  Forall (grp h) pre /\ lseg n_peer h (Some a) None ((a, x) :: k) /\ Forall (grp h) post.
Proof.
  intros [Hn Hp _ _]. cbn [s_heap s_root] in *. apply next_split in Hn as (H1 & H2).
  apply Forall_app in Hp as [? Hp]. apply Forall_cons in Hp as [(b & y & j & [= <- <- <-] & ?) ?].
  by split_and!.
Qed.

(** The surroundings of a group. *)
Lemma shape_apart st pre g post :
  shape st (pre ++ g :: post) ->
  (forall b, b ∈ g.*1 -> (b ∉ addresses pre) /\ (b ∉ addresses post)) /\ NoDup g.*1 /\
  (forall b, b ∈ addresses post -> b ∉ addresses pre) /\ NoDup (addresses (pre ++ post)) /\
  NoDup (addresses pre).
Proof.
  intros [_ _ Hd _]. rewrite addresses_app, addresses_cons in Hd.
  destruct (nodup_around _ _ _ Hd) as [Ho Hg]. split_and!; [|done|..].
  - intros b Hb. split; intros Hin; (apply (Ho b); [mem|done]).
  - intros b Hb Hin. apply NoDup_app in Hd as (_ & Hd & _). apply (Hd b Hin). mem.
  - rewrite addresses_app. eapply sublist_NoDup; [exact Hd|].
    apply sublist_app; [done|]. by apply sublist_inserts_l.
  - by apply NoDup_app in Hd as [Hd _].
Qed.

(** A whole group is unlinked and freed. *)
Lemma free_peers_ok fuel h g p d :
  lseg n_peer h p None g -> NoDup g.*1 -> (length g <= fuel)%nat ->
  exists h', free_peers fuel h p d = Some (h', d ++ ((fun y => x_data y.2) <$> g)) /\
    (forall b, b ∉ g.*1 -> h' !! b = h !! b) /\ (forall b, b ∈ g.*1 -> h' !! b = None).
Proof.
  revert fuel h p d. induction g as [|[a x] g IH]; intros fuel h p d Hl Hn Hf.
  - simpl in Hl. subst p. exists h. rewrite app_nil_r. split_and!; [by destruct fuel|done|].
    by intros b Hb%elem_of_nil.
  - destruct fuel as [|fuel]; [simpl in Hf; lia|]. simpl in Hf, Hn.
    apply NoDup_cons in Hn as [Ha Hn]. destruct Hl as (-> & n & Hn1 & Hx & Hl).
    simpl. rewrite Hn1. simpl.
    destruct (IH fuel (delete a h) (n_peer n) (d ++ [x_data (n_val n)])) as (h' & -> & H1 & H2).
    + eapply lseg_ext; [|exact Hl]. intros b Hb. apply lk_delete. by intros ->.
    + done.
    + lia.
    + exists h'. rewrite Hx, <- app_assoc. split_and!; [done|..].
      * intros b Hb. rewrite H1 by (revert Hb; mem). apply lookup_delete_ne. intros ->.
        apply Hb. left.
      * intros b Hb. apply elem_of_cons in Hb as [->|Hb]; [|auto].
        rewrite H1 by done. apply lookup_delete_eq.
Qed.

Lemma shape_drop h root pre a x k post h1 root1 qn h2 :
  let g := (a, x) :: k in
  shape {| s_heap := h; s_root := root |} (pre ++ g :: post) -> Next h a = Some (x, qn) ->
  lseg n_next h1 root1 qn (heads pre) -> (forall b, Peer h1 b = Peer h b) ->
  (forall b, b ∉ addresses pre -> Next h1 b = Next h b) ->
  (forall b, b ∉ g.*1 -> h2 !! b = h1 !! b) -> (forall b, b ∈ g.*1 -> h2 !! b = None) ->
  shape {| s_heap := h2; s_root := root1 |} (pre ++ post).
Proof.
  intros g H Hqn Hl Hp1 Hn1 Hsame Hgone. destruct (shape_apart _ _ _ _ H) as (Ha & _ & Hpp & Hnd & _).
  destruct (shape_focus _ _ _ _ _ _ _ H) as (_ & (q & Hq & Hpost) & Gpre & _ & Gpost).
  rewrite Hqn in Hq. injection Hq as <-.
  assert (forall b, b ∈ addresses pre -> b ∉ g.*1) as A1.
  { intros b Hb Hin. by destruct (Ha b Hin). }
  assert (forall b, b ∈ addresses post -> b ∉ g.*1) as A2.
  { intros b Hb Hin. by destruct (Ha b Hin). }
  assert (forall link b, b ∉ g.*1 -> lk link h2 b = lk link h1 b) as Hlk.
  { intros link b Hb. unfold lk. by rewrite Hsame. }
  split; simpl; [|..|done|].
  - rewrite heads_app. apply lseg_app. exists qn. split.
    + eapply next_ext; [|exact Hl]. intros b Hb. by apply Hlk, A1.
    + eapply next_ext; [|exact Hpost]. intros b Hb. rewrite Hlk by auto. apply Hn1. auto.
  - apply Forall_app. split; (eapply grp_ext; [|eassumption]); intros b Hb;
      rewrite Hlk by auto; apply Hp1.
  - intros b Hb. destruct (decide (b ∈ g.*1)) as [Hin|Hin].
    { rewrite Hgone in Hb by done. by apply is_Some_None in Hb. }
    rewrite Hsame in Hb by done. apply (lk_dom n_peer h) in Hb; [|done].
    apply (shape_dom _ _ H) in Hb. revert Hb Hin. rewrite !addresses_app, addresses_cons. mem.
Qed.

(** Behind another entry of its group an entry is cut out. *)
Lemma cut_mid h root pre gp ep x a y gr post h1 q :
  shape {| s_heap := h; s_root := root |}
    (pre ++ ((gp ++ [(ep, x)]) ++ (a, y) :: gr) :: post) ->
  lseg n_peer h q None gr -> (forall b, Next h1 b = Next h b) ->
  (forall b, b <> ep -> Peer h1 b = Peer h b) -> Peer h1 ep = Some (x, q) ->
  shape {| s_heap := delete a h1; s_root := root |}
    (pre ++ ((gp ++ [(ep, x)]) ++ gr) :: post).
Proof.
  intros H Hq Hn1 Hp1 Hep. destruct (shape_apart _ _ _ _ H) as (Ha & Hgn & Hpp & _ & _).
  assert (exists a0 x0 k0, (gp ++ [(ep, x)]) ++ (a, y) :: gr = (a0, x0) :: k0 /\
    exists k1, (gp ++ [(ep, x)]) ++ gr = (a0, x0) :: k1 /\ a0 ∈ gp.*1 ++ [ep]) as
    (a0 & x0 & k0 & Ek & k1 & Ek1 & Ha0).
  { destruct gp as [|[a0 x0] gp]; simpl; eexists _, _, _; (split; [done|]); eexists;
      (split; [done|left]). }
  assert (Hr := H). rewrite Ek in Hr.
  apply shape_focus in Hr as (H1 & (qn & H2 & H3) & Hpre & Hg & Hpost). rewrite <- Ek in Hg.
  rewrite !fmap_app in Ha, Hgn. simpl in Ha, Hgn. rewrite <- app_assoc in Hgn. simpl in Hgn.
  apply NoDup_app in Hgn as (Hg1 & Hg2 & Hg3). apply NoDup_cons in Hg3 as [Hg3 Hg4].
  apply NoDup_cons in Hg4 as [Hg4 Hg5].
  assert (forall b, b ∈ addresses pre ++ addresses post -> b <> a /\ b <> ep) as Hout.
  { intros b Hb. split; intros ->; [destruct (Ha a)|destruct (Ha ep)]; try mem;
      apply elem_of_app in Hb as [?|?]; done. }
  assert (a0 <> a) as Hne.
  { intros ->. apply elem_of_app in Ha0 as [Ha0|Ha0].
    - apply (Hg2 a Ha0). mem.
    - apply list_elem_of_singleton in Ha0 as ->. apply Hg3. left. }
  pose proof (shape_nodup _ _ H) as Hnd. pose proof (shape_dom _ _ H) as Hdom. simpl in Hdom.
  rewrite Ek1. eapply shape_intro with (q := qn).
  - eapply next_ext; [|exact H1]. intros b Hb. rewrite lk_delete by (apply Hout; mem). apply Hn1.
  - by rewrite lk_delete, Hn1.
  - eapply next_ext; [|exact H3]. intros b Hb. rewrite lk_delete by (apply Hout; mem). apply Hn1.
  - eapply grp_ext; [|exact Hpre]. intros b Hb. rewrite lk_delete by (apply Hout; mem).
    apply Hp1, Hout. mem.
  - rewrite <- Ek1, <- app_assoc. apply lseg_app in Hg as (r & Hg & _).
    apply lseg_app in Hg as (r' & Hg & Hg'). apply lseg_cons in Hg' as (-> & _).
    apply lseg_app. exists (Some ep). split.
    + eapply lseg_ext; [|exact Hg]. intros b Hb. rewrite lk_delete.
      * apply Hp1. intros ->. apply (Hg2 ep Hb). left.
      * intros ->. apply (Hg2 a Hb). mem.
    + cbn [app]. apply lseg_cons. split; [done|]. exists q. split.
      * rewrite lk_delete; [done|]. intros ->. apply Hg3. left.
      * eapply lseg_ext; [|exact Hq]. intros b Hb. rewrite lk_delete.
        -- apply Hp1. intros ->. apply Hg3. mem.
        -- by intros ->.
  - eapply grp_ext; [|exact Hpost]. intros b Hb. rewrite lk_delete by (apply Hout; mem).
    apply Hp1, Hout. mem.
  - rewrite <- Ek1. eapply sublist_NoDup; [exact Hnd|].
    rewrite !addresses_app, !addresses_cons, !fmap_app. simpl.
    apply sublist_app; [done|]. apply sublist_app; [|done]. apply sublist_app; [done|].
    by apply sublist_cons.
  - intros b [n Hb]. apply lookup_delete_Some in Hb as [Hba Hb]. rewrite <- Ek1.
    assert (is_Some (h !! b)) as Hb'.
    { apply (lk_dom n_next h h1); [done|]. eauto. }
    apply Hdom in Hb'. revert Hb'. rewrite !addresses_app, !addresses_cons, !fmap_app. simpl.
    rewrite ?elem_of_app, ?elem_of_cons, ?elem_of_app, ?elem_of_cons. intros Hx. naive_solver.
Qed.

(** The first entry of a group goes, the next one takes its place. *)
Lemma cut_head h root pre a x b z k post h1 h2 root1 qn :
  shape {| s_heap := h; s_root := root |} (pre ++ ((a, x) :: (b, z) :: k) :: post) ->
  Next h a = Some (x, qn) ->
  lseg n_next h1 root1 (Some b) (heads pre) -> (forall c, Peer h1 c = Peer h c) ->
  (forall c, c ∉ addresses pre -> Next h1 c = Next h c) ->
  (forall c, Peer h2 c = Peer h1 c) -> (forall c, c <> b -> Next h2 c = Next h1 c) ->
  Next h2 b = Some (z, qn) ->
  shape {| s_heap := delete a h2; s_root := root1 |} (pre ++ ((b, z) :: k) :: post).
Proof.
  intros H Hqn Hl Hp1 Hn1 Hp2 Hn2 Hb.
  destruct (shape_apart _ _ _ _ H) as (Ha & Hgn & Hpp & _ & _).
  destruct (shape_focus _ _ _ _ _ _ _ H) as (_ & (q & Hq & Hpost) & Gpre & Hg & Gpost).
  rewrite Hqn in Hq. injection Hq as <-.
  apply lseg_cons in Hg as (_ & r & _ & Hg). assert (Hg' := Hg).
  apply lseg_cons in Hg' as (-> & _). simpl in Ha, Hgn.
  apply NoDup_cons in Hgn as [Hg1 Hg2].
  destruct (Ha a ltac:(left)) as [Aa Aa'], (Ha b ltac:(right; left)) as [Ab Ab'].
  assert (b <> a) as Hba by (intros ->; apply Hg1; left).
  pose proof (shape_nodup _ _ H) as Hnd. pose proof (shape_dom _ _ H) as Hdom. simpl in Hdom.
  eapply shape_intro with (q := qn).
  - eapply next_ext; [|exact Hl]. intros c Hc. rewrite lk_delete by (by intros ->).
    apply Hn2. by intros ->.
  - by rewrite lk_delete.
  - eapply next_ext; [|exact Hpost]. intros c Hc. rewrite lk_delete by (by intros ->).
    rewrite Hn2 by (by intros ->). apply Hn1. auto.
  - eapply grp_ext; [|exact Gpre]. intros c Hc. rewrite lk_delete by (by intros ->).
    by rewrite Hp2.
  - eapply lseg_ext; [|exact Hg]. intros c Hc. rewrite lk_delete by (by intros ->).
    by rewrite Hp2.
  - eapply grp_ext; [|exact Gpost]. intros c Hc. rewrite lk_delete by (by intros ->).
    by rewrite Hp2.
  - eapply sublist_NoDup; [exact Hnd|]. rewrite !addresses_app, !addresses_cons. simpl.
    apply sublist_app; [done|]. by apply sublist_cons.
  - intros c [n Hc]. apply lookup_delete_Some in Hc as [Hca Hc].
    assert (is_Some (h !! c)) as Hc'.
    { apply (lk_dom n_peer h h2); [by rewrite Hp2|]. eauto. }
    apply Hdom in Hc'. revert Hc'. rewrite !addresses_app, !addresses_cons. simpl.
    rewrite !elem_of_app, !elem_of_cons. naive_solver.
Qed.

Lemma shape_relink h root pre a x k post v :
  shape {| s_heap := h; s_root := root |} (pre ++ ((a, x) :: k) :: post) ->
  exists h' root', relink (fst <$> last (heads pre)) v h root = Some (h', root') /\
    lseg n_next h' root' v (heads pre) /\ (forall b, Peer h' b = Peer h b) /\
    (forall b, b ∉ addresses pre -> Next h' b = Next h b).
Proof.
  intros H. destruct (shape_focus _ _ _ _ _ _ _ H) as (H1 & _).
  destruct (shape_apart _ _ _ _ H) as (_ & _ & _ & _ & Hd).
  destruct (relink_spec v h root (Some a) (heads pre) H1) as (h' & root' & E & Hl & Hp & Hn);
    [by apply heads_nodup|].
  exists h', root'. split_and!; [done..|]. intros b Hb. apply Hn. intros Hin.
  by apply Hb, heads_addresses.
Qed.

(** The first entry of a group, taken out by [unlink_first]. *)
Lemma unlink_first_ok h root pre a n k post :
  shape {| s_heap := h; s_root := root |} (pre ++ ((a, n_val n) :: k) :: post) ->
  h !! a = Some n -> (pre = [] -> k = []) ->
  exists h' root', unlink_first h root (fst <$> last (heads pre)) n n = Some (h', root') /\
    shape {| s_heap := delete a h'; s_root := root' |}
      (pre ++ match k with [] => post | _ => k :: post end).
Proof.
  intros H Hn Hpre. destruct (shape_focus _ _ _ _ _ _ _ H) as (_ & _ & Gpre & Hg & _).
  assert (Next h a = Some (n_val n, n_next n)) as Hqn by (unfold lk; by rewrite Hn).
  apply lseg_cons in Hg as (_ & q & Hq & Hg). unfold lk in Hq. rewrite Hn in Hq.
  simpl in Hq. injection Hq as Hq. subst q. unfold unlink_first.
  destruct k as [|[b z] k].
  - simpl in Hg. rewrite Hg.
    destruct (shape_relink _ _ _ _ _ _ _ (n_next n) H) as (h1 & root1 & E & Hl & Hp1 & Hn1).
    exists h1, root1. split; [by destruct (last (heads pre))|].
    eapply (shape_drop h root pre a (n_val n) [] post h1); [done..| |].
    + intros c Hc. apply lookup_delete_ne. intros ->. apply Hc. left.
    + intros c Hc. apply list_elem_of_singleton in Hc as ->. apply lookup_delete_eq.
  - apply lseg_cons in Hg as (-> & q & Hb & _).
    destruct (shape_relink _ _ _ _ _ _ _ (Some b) H) as (h1 & root1 & E & Hl & Hp1 & Hn1).
    destruct (shape_apart _ _ _ _ H) as (Ha & _). simpl in Ha.
    assert (exists r, Next h1 b = Some (z, r)) as [r Hr].
    { rewrite Hn1 by (apply Ha; right; left). unfold lk in *.
      destruct (h !! b); simplify_eq/=. eauto. }
    destruct (set_next_spec b (n_next n) h1) as (h2 & E2 & Hp2 & Hn2 & Hat);
      [apply (lk_is_Some n_next); rewrite Hr; eauto|].
    exists h2, root1. split.
    + destruct (last (heads pre)) as [[pa px]|] eqn:El; simpl in *.
      * destruct (set_next pa (Some b) h) as [h1'|]; simpl in *; [|done]. simplify_eq.
        rewrite E2. done.
      * exfalso. apply last_None in El. destruct pre as [|g pre]; [by specialize (Hpre eq_refl)|].
        apply Forall_cons in Gpre as [(? & ? & ? & -> & _) _]. done.
    + eapply cut_head; [exact H|done|exact Hl|done|done|done|done|]. by eapply Hat.
Qed.

Lemma remove_peer_ok fuel h root pre gp gr post a n k :
  shape {| s_heap := h; s_root := root |} (pre ++ (gp ++ gr) :: post) ->
  gp ++ gr = (a, n_val n) :: k -> h !! a = Some n -> (length gr <= fuel)%nat ->
  lseg n_peer h (fst <$> head gr) None gr ->
  (gp = [] -> pre = [] -> picks (n_val n) = true -> k = []) ->
  let o := remove_peer priority registrar fuel h root (fst <$> last (heads pre)) n
             (fst <$> last gp) (fst <$> head gr) in
  match abs_pick gr with
  | Some (gr', z) =>
    outcome_is o None (pre ++ match gp ++ gr' with [] => post | _ => (gp ++ gr') :: post end) [x_data z.2]
      (hint_if z.2 [RemoveHint z.1])
  | None => outcome_is o (Some EINVAL) (pre ++ (gp ++ gr) :: post) [] []
  end.
Proof.
  revert fuel gp. induction gr as [|[ea y] gr IH]; intros fuel gp H Ek Hn Hf Hl Hff.
  - cbn [head fmap option_fmap option_map abs_pick]. destruct fuel; eexists; (split_and!; done).
  - destruct fuel as [|fuel]; [simpl in Hf; lia|]. simpl in Hf.
    assert (Hl' := Hl). apply lseg_cons in Hl as (_ & q & Hq & Hl). unfold lk in Hq.
    destruct (h !! ea) as [m|] eqn:Em; [|done]. simpl in Hq. injection Hq as Hy Hq.
    cbn [abs_pick remove_peer head fmap option_fmap option_map fst snd]. rewrite Em.
    cbn [mbind option_bind]. fold (picks (n_val m)). rewrite Hy. destruct (picks y) eqn:Ep.
    + destruct gp as [|[ep x] gp _] using rev_ind.
      * cbn [app] in *. injection Ek as -> -> ->. rewrite Hn in Em. injection Em as <-.
        destruct (unlink_first_ok h root pre a n k post H Hn) as (h1 & root1 & E & Hs); [auto|].
        cbn [last fmap option_fmap option_map]. rewrite E. cbn [mbind option_bind fst snd].
        eexists. split_and!; [done|done|exact Hs|done|done].
      * rewrite last_snoc. cbn [fmap option_fmap option_map fst].
        assert (exists r, Peer h ep = Some (x, r)) as [r Hep].
        { pose proof (shape_peer _ _ H) as Hp. apply Forall_app in Hp as [_ Hp].
          apply Forall_cons in Hp as [(b & z & j & E & Hg) _].
          apply lseg_app in Hg as (r & Hg & _). apply lseg_app in Hg as (r' & _ & Hg).
          apply lseg_cons in Hg as (_ & r2 & ? & _). eauto. }
        destruct (set_peer_spec ep (n_peer m) h) as (h1 & -> & Hn1 & Hp1 & Hat);
          [apply (lk_is_Some n_peer); rewrite Hep; eauto|].
        cbn [mbind option_bind fst snd].
        assert (exists g0 gs0, (gp ++ [(ep, x)]) ++ gr = g0 :: gs0) as (g0 & gs0 & E0)
          by (destruct gp; simpl; eauto).
        rewrite E0, <- E0. rewrite <- Hy. eexists. split_and!; [done|done| |done|done].
        eapply cut_mid; [exact H|exact Hl|done|done|]. rewrite <- Hq. by eapply Hat.
    + rewrite Hq. assert (q = fst <$> head gr) as Hqh.
      { destruct gr as [|[b z] gr]; [done|]. by apply lseg_cons in Hl as (-> & _). }
      specialize (IH fuel (gp ++ [(ea, y)])). rewrite <- app_assoc in IH. cbn [app] in IH.
      rewrite last_snoc in IH. cbn [fmap option_fmap option_map fst] in IH. rewrite <- Hqh in IH.
      specialize (IH H Ek Hn ltac:(lia) Hl ltac:(by destruct gp)).
      destruct (abs_pick gr) as [[gr' z]|]; cbn [mbind option_bind]; [|done].
      by rewrite <- app_assoc in IH.
Qed.

Lemma remove_loop_ok fuel h root pre rest :
  shape {| s_heap := h; s_root := root |} (pre ++ rest) -> (length (concat rest) <= fuel)%nat ->
  first_of_first (pre ++ rest) = false ->
  let o := remove_loop extension priority registrar fuel h root (fst <$> last (heads pre))
             (fst <$> head (heads rest)) in
  match abs_remove rest with
  | Some (rest', zs) =>
    outcome_is o None (pre ++ rest') ((fun z => x_data z.2) <$> zs)
      (if priority =? 0 then [] else zs ≫= fun z => hint_if z.2 [RemoveHint z.1])
  | None => outcome_is o (Some EINVAL) (pre ++ rest) [] []
  end.
Proof.
  revert fuel pre. induction rest as [|g rest IH]; intros fuel pre H Hf Hff.
  - destruct fuel; eexists; (split_and!; done).
  - assert (exists a x k, g = (a, x) :: k) as (ea & y & k & ->).
    { pose proof (shape_peer _ _ H) as Hp. apply Forall_app in Hp as [_ Hp].
      apply Forall_cons in Hp as [(b & z & j & -> & _) _]. eauto. }
    destruct (shape_focus _ _ _ _ _ _ _ H) as (Hpre & (qn & Hqn & Hrest) & _ & Hg & _).
    simpl in Hf. rewrite length_app in Hf. destruct fuel as [|fuel]; [lia|].
    rewrite heads_cons. cbn [remove_loop abs_remove head fmap option_fmap option_map fst snd].
    assert (exists n, h !! ea = Some n /\ n_val n = y /\ n_next n = qn) as (n & Hn & Hy & Hnx).
    { unfold lk in Hqn. destruct (h !! ea) as [n|]; simplify_eq/=. eauto. }
    rewrite Hn. cbn [mbind option_bind]. rewrite Hy. fold (names y). destruct (names y) eqn:Ey.
    + destruct (priority =? 0) eqn:E0.
      * destruct (shape_relink _ _ _ _ _ _ _ (n_next n) H) as (h1 & root1 & E & Hl & Hp1 & Hn1).
        rewrite E. cbn [mbind option_bind].
        destruct (shape_apart _ _ _ _ H) as (_ & Hnd & _).
        destruct (free_peers_ok (S fuel) h1 ((ea, y) :: k) (Some ea) []) as (h2 & E2 & Hs & Hd).
        { eapply lseg_ext; [|exact Hg]. auto. } { done. } { simpl; lia. }
        rewrite E2. cbn [mbind option_bind].
        eexists. split_and!; [done|done| |done|done].
        eapply shape_drop; [exact H| |exact Hl|done|done|done|done]. by rewrite Hnx.
      * pose proof (remove_peer_ok (S fuel) h root pre [] ((ea, y) :: k) rest ea n k) as Hr.
        rewrite Hy in Hr. specialize (Hr H eq_refl Hn ltac:(simpl; lia) Hg).
        cbn [head fmap option_fmap option_map fst last app] in Hr.
        assert (@nil entry = [] -> pre = [] -> picks y = true -> k = []) as Hk.
        { intros _ -> Hp. destruct k; [done|]. simpl in Hff. by rewrite Ey, E0, Hp in Hff. }
        specialize (Hr Hk).
        destruct (abs_pick ((ea, y) :: k)) as [[g' z]|]; cbn [mbind option_bind]; [|exact Hr].
        cbn [fmap list_fmap mbind list_bind]. by rewrite app_nil_r.
    + rewrite Hnx. specialize (IH fuel (pre ++ [(ea, y) :: k])).
      rewrite <- app_assoc in IH. cbn [app] in IH. specialize (IH H ltac:(lia) Hff).
      rewrite heads_app, heads_cons in IH. change (heads []) with (@nil entry) in IH.
      rewrite last_snoc in IH. cbn [fmap option_fmap option_map fst] in IH.
      assert (qn = fst <$> head (heads rest)) as Hqh.
      { destruct (heads rest) as [|[b z] hs]; [done|]. by apply lseg_cons in Hrest as (-> & _). }
      rewrite <- Hqh in IH.
      destruct (abs_remove rest) as [[rest' zs]|]; cbn [mbind option_bind]; [|done].
      by rewrite <- app_assoc in IH.
Qed.

End removal.

Lemma remove_extension2_ok st gs extension priority registrar :
  shape st gs -> first_of_first extension priority registrar gs = false ->
  let o := cw_context_remove_extension2 st true extension priority registrar in
  match abs_remove extension priority registrar gs with
  | Some (gs', zs) =>
    outcome_is o None gs' ((fun z => x_data z.2) <$> zs)
      (if priority =? 0 then [] else zs ≫= fun z => hint_if z.2 [RemoveHint z.1])
  | None => outcome_is o (Some EINVAL) gs [] []
  end.
Proof.
  intros H Hff o. pose proof (shape_size st gs H) as Hs.
  destruct st as [h root].
  pose proof (remove_loop_ok extension priority registrar (size h) h root [] gs H Hs Hff) as Hm.
  assert (root = fst <$> head (heads gs)) as Hroot.
  { destruct H as [Hn _ _ _]. simpl in Hn. destruct (heads gs) as [|[b z] hs]; [done|].
    by apply lseg_cons in Hn as (-> & _). }
  cbn [head last fmap option_fmap option_map app] in Hm. rewrite <- Hroot in Hm. exact Hm.
Qed.

(** Removing keeps the order. *)
Lemma abs_pick_sub priority registrar g g' z :
  abs_pick priority registrar g = Some (g', z) -> sublist g' g.
Proof.
  revert g'. induction g as [|y g IH]; intros g'; simpl; [done|].
  destruct (picks priority registrar y.2).
  - intros [= <- <-]. by apply sublist_cons.
  - destruct (abs_pick priority registrar g) as [[g1 z1]|]; simpl; [|done].
    intros [= <- <-]. apply sublist_skip. by apply IH.
Qed.

Lemma group_ordered_sub g g' : sublist g' g -> group_ordered g -> group_ordered g'.
Proof.
  intros Hs [H1 H2]. split.
  - clear H2. induction Hs as [|y k k' Hs IH|y k k' Hs IH]; [done|..].
    + apply StronglySorted_inv in H1 as [H1 Hy]. constructor; [auto|].
      apply Forall_forall. intros z Hz. eapply Forall_forall in Hy; [exact Hy|].
      by eapply elem_of_sublist.
    + apply StronglySorted_inv in H1 as [H1 _]. auto.
  - intros y z Hy Hz. apply H2; (eapply elem_of_sublist; [|exact Hs]); done.
Qed.

Lemma abs_remove_heads extension priority registrar gs gs' zs (P : entry -> Prop) :
  abs_remove extension priority registrar gs = Some (gs', zs) -> ordered gs ->
  (forall y z, key_cmp y.2 z.2 = Eq -> P y -> P z) ->
  Forall P (heads gs) -> Forall P (heads gs').
Proof.
  intros H Ho HP. revert gs' zs H. induction gs as [|[|y k] gs IH]; intros gs' zs; [done..|].
  cbn [abs_remove]. destruct Ho as [(y0 & k0 & [= <- <-] & Hg & Hy) Ho]. rewrite heads_cons.
  intros H Hf. apply Forall_cons in Hf as [Hpy Hf].
  destruct (names extension registrar y.2).
  - destruct (priority =? 0); [by simplify_eq|].
    destruct (abs_pick priority registrar (y :: k)) as [[g z]|] eqn:Ep;
      cbn [mbind option_bind] in H; [|done].
    simplify_eq. apply abs_pick_sub in Ep. destruct g as [|w g]; [done|].
    rewrite heads_cons. constructor; [|done]. apply (HP y); [|done].
    apply Hg; [left|]. eapply elem_of_sublist; [left|exact Ep].
  - destruct (abs_remove extension priority registrar gs) as [[gs1 zs1]|];
      cbn [mbind option_bind] in H; [|done].
    simplify_eq. rewrite heads_cons. constructor; [done|]. by eapply IH.
Qed.

Lemma abs_remove_ordered extension priority registrar gs gs' zs :
  abs_remove extension priority registrar gs = Some (gs', zs) -> ordered gs -> ordered gs'.
Proof.
  revert gs' zs. induction gs as [|[|y k] gs IH]; intros gs' zs; [done..|].
  cbn [abs_remove]. intros H [(y0 & k0 & [= <- <-] & Hg & Hy) Ho].
  destruct (names extension registrar y.2).
  - destruct (priority =? 0); [by simplify_eq|].
    destruct (abs_pick priority registrar (y :: k)) as [[g z]|] eqn:Ep;
      cbn [mbind option_bind] in H; [|done].
    simplify_eq. apply abs_pick_sub in Ep. destruct g as [|w g]; [done|].
    split; [|done]. exists w, g. split; [done|]. split; [by eapply group_ordered_sub|].
    eapply Forall_impl; [exact Hy|]. intros u Hu. simpl in *.
    rewrite (key_cmp_eq_l w.2 y.2); [done|]. apply Hg; [|left].
    eapply elem_of_sublist; [left|exact Ep].
  - destruct (abs_remove extension priority registrar gs) as [[gs1 zs1]|] eqn:Er;
      cbn [mbind option_bind] in H; [|done].
    simplify_eq. split; [|by eapply IH]. exists y, k. split; [done|]. split; [done|].
    eapply abs_remove_heads; [exact Er|done| |exact Hy]. intros u v Huv Hu. simpl in *.
    rewrite key_cmp_antisym, <- (key_cmp_eq_l u.2 v.2), <- key_cmp_antisym; done.
Qed.

(** ** Names *)

Lemma ext_strncpy_all s : ext_strncpy s (String.length s + 1) = strip_spaces s.
Proof. unfold ext_strncpy. rewrite strtake_all; [done|lia]. Qed.

(** The context without extensions. *)
Definition empty_store : ext_store := {| s_heap := ∅; s_root := None |}.

Lemma empty_shape : shape empty_store [].
Proof.
  split; simpl; [done|constructor|constructor|]. intros a [n Ha]. by rewrite lookup_empty in Ha.
Qed.

(** The stores that come from the empty context by additions and removals: new
    entries get free addresses, names have no spaces, and the first priority of
    the first extension is only removed when it is the only one. *)
Inductive reach : ext_store -> Prop :=
  | reach_empty : reach empty_store
  | reach_add st malloc lock replace extension priority label callerid application data registrar r :
    reach st -> (forall ta, malloc = Some ta -> s_heap st !! ta = None) ->
    strip_spaces extension = extension ->
    cw_add_extension2 st malloc lock replace extension priority label callerid application data
      registrar = Some r ->
    reach (r_store r)
  | reach_remove st gs extension priority registrar r :
    reach st -> extensions st = Some gs -> first_of_first extension priority registrar gs = false ->
    cw_context_remove_extension2 st true extension priority registrar = Some r ->
    reach (r_store r).

Lemma reach_inv st :
  reach st -> exists gs, extensions st = Some gs /\ shape st gs /\ ordered gs.
Proof.
  assert ((exists gs, shape st gs /\ ordered gs) ->
          exists gs, extensions st = Some gs /\ shape st gs /\ ordered gs) as Hsuf.
  { intros (gs & ? & ?). exists gs. split_and!; [by apply extensions_shape|done..]. }
  intros H. apply Hsuf. clear Hsuf. induction H as
    [|st malloc lock replace extension priority label callerid application data registrar r _
       (gs & Hs & Ho) Hm Hn Hr
     |st gs extension priority registrar r _ (gs1 & Hs & Ho) Hg Hff Hr].
  - exists []. split; [apply empty_shape|done].
  - destruct malloc as [ta|]; [|injection Hr as <-; simpl; eauto].
    destruct lock; [|injection Hr as <-; simpl; eauto].
    pose proof (add_extension2_ok st gs ta replace extension priority label callerid application
      data registrar Hs (Hm ta eq_refl)) as Ha. cbv zeta in Ha. rewrite Hr in Ha.
    destruct (abs_add _ _ _ gs) as [[[gs' d] ev]|] eqn:Ea; destruct Ha as (r' & [= <-] & _ & Hs' & _).
    + exists gs'. split; [done|]. eapply abs_add_ordered; [exact Ea| |done].
      simpl. by rewrite ext_strncpy_all.
    + by exists gs.
  - rewrite (extensions_shape _ _ Hs) in Hg. injection Hg as ->.
    pose proof (remove_extension2_ok st gs extension priority registrar Hs Hff) as Ha.
    cbv zeta in Ha. rewrite Hr in Ha.
    destruct (abs_remove _ _ _ gs) as [[gs' zs]|] eqn:Ea; destruct Ha as (r' & [= <-] & _ & Hs' & _).
    + exists gs'. split; [done|]. by eapply abs_remove_ordered.
    + by exists gs.
Qed.

(** ** The theorems *)

(** Whatever is added to a context and removed from it, its two levels of
    links stay a well-formed list of lists: every entry that was not freed is
    found exactly once, the extensions stand in the order of the code's
    comparison, without two equal ones, and the priorities of each extension
    ascend without a repetition. *)
Theorem dialplan_ordered st :
  reach st -> exists gs, extensions st = Some gs /\ NoDup (addresses gs) /\
    (forall a, is_Some (s_heap st !! a) <-> a ∈ addresses gs) /\ ordered gs.
Proof.
  intros H. destruct (reach_inv st H) as (gs & Hg & Hs & Ho). exists gs.
  split; [done|]. split; [apply Hs|]. split; [|done]. intros a. split; [apply Hs|].
  apply grp_alloc, Hs.
Qed.

(** Three entries added to the empty context: 100 with the priorities 1 and 2,
    and 200. *)
Definition demo_step (st : ext_store) (ta : Z) (ext : string) (prio : Z) : ext_store :=
  match cw_add_extension2 st (Some ta) true false ext prio None None "NoOp" (1000 + ta) "cfg" with
  | Some r => r_store r
  | None => st
  end.

Definition demo : ext_store :=
  demo_step (demo_step (demo_step empty_store 1 "100" 1) 2 "200" 1) 3 "100" 2.

Definition demo_entry (ext : string) (prio data : Z) : exten :=
  new_exten ext prio None None "NoOp" data "cfg".

Definition demo_groups : list (list entry) :=
  [[(1, demo_entry "100" 1 1001); (3, demo_entry "100" 2 1003)]; [(2, demo_entry "200" 1 1002)]].

Lemma demo_step_reach st ta ext prio :
  reach st -> s_heap st !! ta = None -> strip_spaces ext = ext ->
  is_Some (cw_add_extension2 st (Some ta) true false ext prio None None "NoOp" (1000 + ta) "cfg") ->
  reach (demo_step st ta ext prio).
Proof.
  intros H Hf Hs [r Hr]. unfold demo_step. rewrite Hr. eapply reach_add; [exact H| |exact Hs|exact Hr].
  by intros a [= <-].
Qed.

Lemma demo_reach : reach demo.
Proof.
  repeat (apply demo_step_reach; [..|vm_compute; eauto]); [apply reach_empty|vm_compute; done..].
Qed.

Lemma demo_shape : shape demo demo_groups /\ ordered demo_groups.
Proof.
  destruct (reach_inv demo demo_reach) as (gs & Hg & Hs & Ho).
  assert (gs = demo_groups) as ->; [|done]. vm_compute in Hg. by injection Hg as <-.
Qed.

Lemma dialplan_ordered_witness :
  exists gs, extensions demo = Some gs /\ NoDup (addresses gs) /\
    (forall a, is_Some (s_heap demo !! a) <-> a ∈ addresses gs) /\ ordered gs.
Proof. apply (dialplan_ordered demo). exact demo_reach. Defined.

(** C15: Adding an extension, with all its pointer writes, does to the lists what
    the abstract insertion does: a new extension in its place of the order, a
    new priority in its place of the group, a replaced entry in the place of the
    old one, whose data is destroyed; a priority that is taken gives EEXIST, the
    lists stay and the new data is destroyed. *)
Theorem dialplan_add_refines st gs ta replace extension priority label callerid application data
    registrar :
  shape st gs -> s_heap st !! ta = None ->
  let tmp := new_exten extension priority label callerid application data registrar in
  exists r,
    cw_add_extension2 st (Some ta) true replace extension priority label callerid application data
      registrar = Some r /\
    match abs_add (ta, tmp) extension replace gs with
    | Some (gs', destroyed, ev) =>
      r_ret r = None /\ shape (r_store r) gs' /\ extensions (r_store r) = Some gs' /\
      r_destroyed r = destroyed /\ r_hints r = ev
    | None =>
      r_ret r = Some EEXIST /\ shape (r_store r) gs /\ extensions (r_store r) = Some gs /\
      r_destroyed r = [data] /\ r_hints r = []
    end.
Proof.
  intros Hs Hf tmp.
  pose proof (add_extension2_ok st gs ta replace extension priority label callerid application
    data registrar Hs Hf) as Ha. cbv zeta in Ha. fold tmp in Ha.
  destruct (abs_add (ta, tmp) extension replace gs) as [[[gs' d] ev]|];
    destruct Ha as (r & Hr & H1 & H2 & H3 & H4); exists r; (split; [done|]);
    (split_and!; [done|done|by apply extensions_shape|done|done]).
Qed.

Lemma dialplan_add_refines_witness :
  shape demo demo_groups /\ exists r,
    cw_add_extension2 demo (Some 4) true true "100" 2 None None "Dial" 1004 "cfg" = Some r /\
    r_ret r = None /\ r_destroyed r = [1003] /\
    extensions (r_store r) =
      Some [[(1, demo_entry "100" 1 1001);
             (4, new_exten "100" 2 None None "Dial" 1004 "cfg")];
            [(2, demo_entry "200" 1 1002)]].
Proof.
  split; [apply demo_shape|].
  destruct (dialplan_add_refines demo demo_groups 4 true "100" 2 None None "Dial" 1004 "cfg")
    as (r & Hr & H); [apply demo_shape|reflexivity|].
  exists r. split; [exact Hr|]. vm_compute in H. destruct H as (H1 & _ & H2 & H3 & _).
  split; [exact H1|]. split; [exact H3|exact H2].
Defined.

(** C16: Removing an extension (priority 0: all its priorities) or one priority
    of it does to the lists what the abstract removal does, on every branch of
    the unlinking, and destroys the data of what it removed; nothing else
    changes when there is no such entry.  Only the first priority of the very
    first extension is excepted when it has further ones. *)
Theorem dialplan_remove_refines st gs extension priority registrar :
  shape st gs -> first_of_first extension priority registrar gs = false ->
  exists r,
    cw_context_remove_extension2 st true extension priority registrar = Some r /\
    match abs_remove extension priority registrar gs with
    | Some (gs', zs) =>
      r_ret r = None /\ shape (r_store r) gs' /\ extensions (r_store r) = Some gs' /\
      r_destroyed r = ((fun z => x_data z.2) <$> zs)
    | None =>
      r_ret r = Some EINVAL /\ shape (r_store r) gs /\ extensions (r_store r) = Some gs /\
      r_destroyed r = []
    end.
Proof.
  intros Hs Hff. pose proof (remove_extension2_ok st gs extension priority registrar Hs Hff) as Ha.
  cbv zeta in Ha. destruct (abs_remove extension priority registrar gs) as [[gs' zs]|];
    destruct Ha as (r & Hr & H1 & H2 & H3 & _); exists r; (split; [done|]);
    (split_and!; [done|done|by apply extensions_shape|done]).
Qed.

Lemma dialplan_remove_refines_witness :
  first_of_first "100" 2 None demo_groups = false /\ exists r,
    cw_context_remove_extension2 demo true "100" 2 None = Some r /\ r_ret r = None /\
    extensions (r_store r) = Some [[(1, demo_entry "100" 1 1001)]; [(2, demo_entry "200" 1 1002)]].
Proof.
  split; [reflexivity|].
  destruct (dialplan_remove_refines demo demo_groups "100" 2 None) as (r & Hr & H);
    [apply demo_shape|reflexivity|].
  exists r. split; [exact Hr|]. vm_compute in H. destruct H as (H1 & _ & H2 & _).
  split; [exact H1|exact H2].
Defined.

(** Removing the first priority of the first extension of a context makes
    the next priority the root without giving it the [next] of the removed
    entry: the call succeeds, and all other extensions of the context are gone
    from its lists, while their entries stay allocated. *)
Theorem remove_first_loses st extension priority registrar a x b z k gs :
  shape st (((a, x) :: (b, z) :: k) :: gs) ->
  names extension registrar x = true -> priority <> 0 -> picks priority registrar x = true ->
  lk n_next (s_heap st) b = Some (z, None) ->
  exists r,
    cw_context_remove_extension2 st true extension priority registrar = Some r /\ r_ret r = None /\
    extensions (r_store r) = Some [(b, z) :: k] /\
    (forall c, c ∈ addresses gs -> is_Some (s_heap (r_store r) !! c)).
Proof.
  intros Hs Hn Hp Hpk Hb. pose proof (shape_apart st [] _ gs Hs) as (Hap & Hnd & _).
  pose proof (shape_size _ _ Hs) as Hsz.
  destruct st as [h root]. destruct (shape_focus h root [] a x ((b, z) :: k) gs Hs) as
    (Hr & (q & Hq & _) & _ & Hg & _). simpl in Hr, Hnd. subst root.
  apply NoDup_cons in Hnd as [Hnd _].
  assert (exists n, h !! a = Some n /\ n_val n = x /\ n_peer n = Some b) as (n & Hna & Hx & Hnb).
  { apply lseg_cons in Hg as (_ & r & Hr & Hg). apply lseg_cons in Hg as (-> & _).
    unfold lk in Hr. destruct (h !! a) as [n|]; simplify_eq/=. eauto. }
  assert (exists f, size h = S f) as [f Hf].
  { cbn [concat app length s_heap] in Hsz. destruct (size h); [lia|eauto]. }
  unfold cw_context_remove_extension2. cbn [s_heap s_root negb]. rewrite Hf. cbn [remove_loop].
  rewrite Hna. cbn [mbind option_bind]. rewrite Hx. fold (names extension registrar x). rewrite Hn.
  assert (priority =? 0 = false) as -> by lia. cbn [remove_peer]. rewrite Hna.
  cbn [mbind option_bind]. fold (picks priority registrar (n_val n)). rewrite Hx, Hpk.
  unfold unlink_first. rewrite Hnb. cbn [mbind option_bind].
  eexists. split; [done|]. split; [done|].
  cbn [r_store s_heap]. assert (b <> a) as Hba by (intros ->; apply Hnd; left).
  assert (size (delete a h) = f) as Hd by (rewrite map_size_delete, Hna, Hf; simpl; lia).
  split.
  - unfold extensions. cbn [s_heap s_root]. rewrite Hd.
    cbn [concat app length s_heap] in Hsz.
    rewrite (walk_lseg n_next _ _ [(b, z)]); [| |cbn [length]; lia].
    + cbn [mbind option_bind mapM]. rewrite (walk_lseg n_peer _ _ ((b, z) :: k)); [done| |].
      * apply lseg_cons in Hg as (_ & r & Hr & Hg). apply lseg_cons in Hg as (-> & Hg).
        eapply lseg_ext; [|apply lseg_cons; split; [done|exact Hg]].
        intros c Hc. apply lk_delete. by intros ->.
      * rewrite length_app in Hsz. cbn [length]. lia.
    + apply lseg_cons. split; [done|]. exists None. by rewrite lk_delete.
  - intros c Hc. pose proof (shape_peer _ _ Hs) as Hpe. apply Forall_cons in Hpe as [_ Hpe].
    assert (c <> a) as Hca.
    { intros ->. by destruct (Hap a ltac:(left)). }
    rewrite lookup_delete_ne by done.
    by eapply grp_alloc.
Qed.

Lemma remove_first_loses_witness :
  exists r, cw_context_remove_extension2 demo true "100" 1 None = Some r /\ r_ret r = None /\
    extensions (r_store r) = Some [[(3, demo_entry "100" 2 1003)]] /\
    is_Some (s_heap (r_store r) !! 2).
Proof.
  destruct (remove_first_loses demo "100" 1 None 1 (demo_entry "100" 1 1001) 3
    (demo_entry "100" 2 1003) [] [[(2, demo_entry "200" 1 1002)]]) as (r & Hr & H1 & H2 & H3);
    [apply demo_shape|reflexivity|lia|reflexivity|reflexivity|].
  exists r. split; [exact Hr|]. split; [exact H1|]. split; [exact H2|]. apply H3. left.
Defined.
