(* ===== verification/Dialplan.v ===== *)
(** * Contexts (corelib/pbx.c)

    The contexts of the dialplan, newest first, each with its extensions, its
    includes, its switches and its ignore patterns.  Contexts are found by the
    hash of their names.  A context is created either in the list in use or in
    a list a configuration is being read into, which is merged later.

    [lock] and [malloc] arguments are the outcomes of taking a lock and of
    allocating.  The depth of the recursive lock of the context list is a field of the
    state, so that unbalanced operations show.  A result [None] is a bad
    memory access or a loop that does not end; [EINVAL] stands for -1 without
    an error number. *)

From S2P Require Import Prelude CStr Hash Pattern Timing Exten.
From stdpp Require Import gmap.
Open Scope Z_scope.

(** [hastime] is the field of [struct cw_include], not the one inside the
    [timing]. *)
Record cw_include := {
  i_name : string;
  i_rname : string;
  i_registrar : string;
  i_hastime : bool;
  i_timing : cw_timing;
}.

(** [tmpdata], the buffer of the evaluated [data], is written before each use. *)
Record cw_sw := {
  sw_name : string;
  sw_data : string;
  sw_eval : bool;
  sw_registrar : string;
}.

(** The registrar of an ignore pattern is only compared as a pointer. *)
Record cw_ignorepat := {
  ip_registrar : Z;
  ip_pattern : string;
}.

Record cw_context := {
  c_name : string;
  c_hash : Z;
  c_registrar : string;
  c_exts : ext_store;
  c_includes : list cw_include;
  c_ignorepats : list cw_ignorepat;
  c_alts : list cw_sw;
}.

#[export] Instance cw_context_eta : Eta cw_context := fun c =>
  {| c_name := c_name c; c_hash := c_hash c; c_registrar := c_registrar c; c_exts := c_exts c;
     c_includes := c_includes c; c_ignorepats := c_ignorepats c; c_alts := c_alts c |}.

Record dialplan := {
  contexts : list cw_context;
  conlock : Z;
}.

#[export] Instance dialplan_eta : Eta dialplan := fun d =>
  {| contexts := contexts d; conlock := conlock d |}.

Definition cw_lock_contexts (d : dialplan) : dialplan := d <| conlock := conlock d + 1 |>.
Definition cw_unlock_contexts (d : dialplan) : dialplan := d <| conlock := conlock d - 1 |>.

(** ** Finding and creating *)

Fixpoint find_hash (hash : Z) (l : list cw_context) : option cw_context :=
  match l with
  | [] => None
  | c :: l => if hash =? c_hash c then Some c else find_hash hash l
  end.

Definition cw_context_find (d : dialplan) (name : option string) : option cw_context :=
  match name with
  | Some _ => find_hash (cw_hash_string name) (contexts d)
  | None => head (contexts d)
  end.

Definition new_context (name registrar : string) : cw_context :=
  {| c_name := name; c_hash := cw_hash_string (Some name); c_registrar := registrar;
     c_exts := empty_store; c_includes := []; c_ignorepats := []; c_alts := [] |}.

(** The list to create in is the second component when it is given.  When the
    name is taken the lock is released even if it was not taken, and released
    again if it was. *)
Definition cw_context_create (d : dialplan) (extcontexts : option (list cw_context))
    (malloc : bool) (name registrar : string)
    : option cw_context * dialplan * option (list cw_context) :=
  let d := match extcontexts with None => cw_lock_contexts d | Some _ => d end in
  let unlock d := match extcontexts with None => cw_unlock_contexts d | Some _ => d end in
  let local_contexts := match extcontexts with None => contexts d | Some l => l end in
  match find_hash (cw_hash_string (Some name)) local_contexts with
  | Some _ => (None, unlock (cw_unlock_contexts d), extcontexts)
  | None =>
    if malloc then
      let tmp := new_context name registrar in
      match extcontexts with
      | None => (Some tmp, unlock (d <| contexts := tmp :: contexts d |>), None)
      | Some l => (Some tmp, unlock d, Some (tmp :: l))
      end
    else (None, unlock d, extcontexts)
  end.

(** ** The operations on one context *)

Definition same_registrar (registrar : option string) (r : string) : bool :=
  match registrar with None => true | Some r' => streq r r' end.

(** The list without the first element that satisfies the test. *)
Fixpoint remove_first {A} (p : A -> bool) (l : list A) : option (list A) :=
  match l with
  | [] => None
  | x :: l => if p x then Some l else cons x <$> remove_first p l
  end.

(** The structure is zeroed before it is filled. *)
Definition new_include (value registrar : string) : option cw_include :=
  let '(rname, c) := strcut "," value in
  match c with
  | None => Some {| i_name := value; i_rname := rname; i_registrar := registrar;
                    i_hastime := false; i_timing := no_timing |}
  | Some info =>
    '(has, t) ← cw_build_timing no_timing info;
    Some {| i_name := value; i_rname := rname; i_registrar := registrar;
            i_hastime := negb (has =? 0); i_timing := t |}
  end.

Definition cw_context_add_include2 (con : cw_context) (malloc lock : bool) (value registrar : string)
    : option (option errno * cw_context) :=
  if negb malloc then Some (Some ENOMEM, con) else
  new_inc ← new_include value registrar;
  if negb lock then Some (Some EBUSY, con)
  else if existsb (fun i => strcaseeq (i_name i) (i_name new_inc)) (c_includes con)
  then Some (Some EEXIST, con)
  else Some (None, con <| c_includes := c_includes con ++ [new_inc] |>).

Definition cw_context_remove_include2 (con : cw_context) (lock : bool) (include : string)
    (registrar : option string) : option errno * cw_context :=
  if negb lock then (Some EINVAL, con) else
  match remove_first (fun i => streq (i_name i) include && same_registrar registrar (i_registrar i))
          (c_includes con) with
  | Some l => (None, con <| c_includes := l |>)
  | None => (Some EINVAL, con)
  end.

Definition cw_context_add_switch2 (con : cw_context) (malloc lock : bool) (value : string)
    (data : option string) (eval : bool) (registrar : string) : option errno * cw_context :=
  if negb malloc then (Some ENOMEM, con) else
  let new_sw := {| sw_name := value; sw_data := default EmptyString data; sw_eval := eval;
                   sw_registrar := registrar |} in
  if negb lock then (Some EBUSY, con)
  else if existsb (fun i => strcaseeq (sw_name i) (sw_name new_sw)
                            && strcaseeq (sw_data i) (sw_data new_sw)) (c_alts con)
  then (Some EEXIST, con)
  else (None, con <| c_alts := c_alts con ++ [new_sw] |>).

Definition cw_context_remove_switch2 (con : cw_context) (lock : bool) (sw data : string)
    (registrar : option string) : option errno * cw_context :=
  if negb lock then (Some EINVAL, con) else
  match remove_first (fun i => streq (sw_name i) sw && streq (sw_data i) data
                               && same_registrar registrar (sw_registrar i)) (c_alts con) with
  | Some l => (None, con <| c_alts := l |>)
  | None => (Some EINVAL, con)
  end.

Definition cw_context_add_ignorepat2 (con : cw_context) (malloc : bool) (value : string)
    (registrar : Z) : option errno * cw_context :=
  if negb malloc then (Some ENOMEM, con)
  else if existsb (fun i => strcaseeq (ip_pattern i) value) (c_ignorepats con)
  then (Some EEXIST, con)
  else (None, con <| c_ignorepats := c_ignorepats con ++
                       [{| ip_registrar := registrar; ip_pattern := value |}] |>).

Definition cw_context_remove_ignorepat2 (con : cw_context) (lock : bool) (ignorepat : string)
    (registrar : option Z) : option errno * cw_context :=
  if negb lock then (Some EBUSY, con) else
  match remove_first (fun i => streq (ip_pattern i) ignorepat &&
                               match registrar with None => true | Some r => r =? ip_registrar i end)
          (c_ignorepats con) with
  | Some l => (None, con <| c_ignorepats := l |>)
  | None => (Some EINVAL, con)
  end.

Definition cw_ignore_pattern (d : dialplan) (context pattern : string) : bool :=
  match cw_context_find d (Some context) with
  | None => false
  | Some con =>
    existsb (fun pat => match cw_extension_pattern_match pattern (ip_pattern pat) with
                        | EXTENSION_MATCH_EXACT | EXTENSION_MATCH_STRETCHABLE
                        | EXTENSION_MATCH_POSSIBLE => true
                        | _ => false
                        end) (c_ignorepats con)
  end.

(** ** The operations by the name of a context *)

(** The walk over the contexts up to the first with the hash. *)
Fixpoint on_first {R} (f : cw_context -> option (R * cw_context)) (hash : Z) (l : list cw_context)
    : option (option R * list cw_context) :=
  match l with
  | [] => Some (None, [])
  | c :: l =>
    if hash =? c_hash c then '(r, c) ← f c; Some (Some r, c :: l)
    else '(r, l) ← on_first f hash l; Some (r, c :: l)
  end.

(** [busy] is returned without the lock, [noent] without the context. *)
Definition with_context {R} (d : dialplan) (lock : bool) (context : string) (busy noent : R)
    (f : cw_context -> option (R * cw_context)) : option (R * dialplan) :=
  if negb lock then Some (busy, d) else
  let d := cw_lock_contexts d in
  '(r, l) ← on_first f (cw_hash_string (Some context)) (contexts d);
  Some (default noent r, cw_unlock_contexts (d <| contexts := l |>)).

Definition cw_context_add_include (d : dialplan) (lock malloc clock : bool)
    (context include registrar : string) : option (option errno * dialplan) :=
  with_context d lock context (Some EBUSY) (Some ENOENT)
    (fun c => cw_context_add_include2 c malloc clock include registrar).

Definition cw_context_remove_include (d : dialplan) (lock clock : bool)
    (context include : string) (registrar : option string) : option (option errno * dialplan) :=
  with_context d lock context (Some EINVAL) (Some EINVAL)
    (fun c => Some (cw_context_remove_include2 c clock include registrar)).

Definition cw_context_add_switch (d : dialplan) (lock malloc clock : bool) (context sw : string)
    (data : option string) (eval : bool) (registrar : string) : option (option errno * dialplan) :=
  with_context d lock context (Some EBUSY) (Some ENOENT)
    (fun c => Some (cw_context_add_switch2 c malloc clock sw data eval registrar)).

Definition cw_context_remove_switch (d : dialplan) (lock clock : bool) (context sw data : string)
    (registrar : option string) : option (option errno * dialplan) :=
  with_context d lock context (Some EINVAL) (Some EINVAL)
    (fun c => Some (cw_context_remove_switch2 c clock sw data registrar)).

Definition cw_context_add_ignorepat (d : dialplan) (lock malloc : bool) (con value : string)
    (registrar : Z) : option (option errno * dialplan) :=
  with_context d lock con (Some EBUSY) (Some ENOENT)
    (fun c => Some (cw_context_add_ignorepat2 c malloc value registrar)).

Definition cw_context_remove_ignorepat (d : dialplan) (lock clock : bool) (context ignorepat : string)
    (registrar : option Z) : option (option errno * dialplan) :=
  with_context d lock context (Some EBUSY) (Some ENOENT)
    (fun c => Some (cw_context_remove_ignorepat2 c clock ignorepat registrar)).

(** The outcome of an operation on extensions: the error, the destroyed data,
    the hints. *)
Record ext_ret := {
  xr_ret : option errno;
  xr_destroyed : list Z;
  xr_hints : list hint_event;
}.

Definition on_exts (c : cw_context) (o : option ext_result) : option (ext_ret * cw_context) :=
  r ← o;
  Some ({| xr_ret := r_ret r; xr_destroyed := r_destroyed r; xr_hints := r_hints r |},
        c <| c_exts := r_store r |>).

Definition no_ext (e : errno) : ext_ret :=
  {| xr_ret := Some e; xr_destroyed := []; xr_hints := [] |}.

Definition cw_add_extension (d : dialplan) (lock : bool) (malloc : option Z) (clock : bool)
    (context : string) (replace : bool) (extension : string) (priority : Z)
    (label callerid : option string) (application : string) (data : Z) (registrar : string)
    : option (ext_ret * dialplan) :=
  with_context d lock context (no_ext EBUSY) (no_ext ENOENT)
    (fun c => on_exts c (cw_add_extension2 (c_exts c) malloc clock replace extension priority label
                           callerid application data registrar)).

Definition cw_context_remove_extension (d : dialplan) (lock clock : bool) (context extension : string)
    (priority : Z) (registrar : option string) : option (ext_ret * dialplan) :=
  with_context d lock context (no_ext EINVAL) (no_ext EINVAL)
    (fun c => on_exts c (cw_context_remove_extension2 (c_exts c) clock extension priority registrar)).

(** ** Destroying *)

(** What was freed and what was called on the way. *)
Record freed := {
  f_data : list Z;
  f_hints : list hint_event;
}.

Definition free_none : freed := {| f_data := []; f_hints := [] |}.

Definition free_app (f g : freed) : freed :=
  {| f_data := f_data f ++ f_data g; f_hints := f_hints f ++ f_hints g |}.

(** The entry at [a]: its hint, its data, its memory. *)
Definition destroy_exten (h : heap) (a : Z) : option (heap * freed) :=
  n ← h !! a;
  Some (delete a h, {| f_data := [x_data (n_val n)]; f_hints := hint_if (n_val n) [RemoveHint a] |}).

Fixpoint destroy_peers (fuel : nat) (h : heap) (en : option Z) (f : freed) : option (heap * freed) :=
  match en with
  | None => Some (h, f)
  | Some el =>
    match fuel with
    | O => None
    | S fuel =>
      n ← h !! el; '(h, g) ← destroy_exten h el; destroy_peers fuel h (n_peer n) (free_app f g)
    end
  end.

(** The peers of each entry first, then the entry itself. *)
Fixpoint destroy_extens (fuel : nat) (h : heap) (e : option Z) (f : freed) : option (heap * freed) :=
  match e with
  | None => Some (h, f)
  | Some el =>
    match fuel with
    | O => None
    | S fuel' =>
      n ← h !! el;
      '(h, f) ← destroy_peers fuel h (n_peer n) f;
      n ← h !! el;
      '(h, g) ← destroy_exten h el;
      destroy_extens fuel' h (n_next n) (free_app f g)
    end
  end.

(** A context is taken out of the list and all it owns is freed. *)
Definition destroy_context (tmp : cw_context) : option freed :=
  let st := c_exts tmp in
  '(_, f) ← destroy_extens (size (s_heap st)) (s_heap st) (s_root st) free_none; Some f.

Definition doomed (con : option Z) (registrar : option string) (tmp : cw_context) : bool :=
  match con with Some hash => c_hash tmp =? hash | None => true end
  && match registrar with Some r => strcaseeq r (c_registrar tmp) | None => true end.

(** The contexts before the first doomed one, it, and those behind. *)
Fixpoint split_first {A} (p : A -> bool) (l : list A) : option (list A * A * list A) :=
  match l with
  | [] => None
  | x :: l => if p x then Some ([], x, l)
              else '(pre, y, post) ← split_first p l; Some (x :: pre, y, post)
  end.

(** [lock] says of each context whether its lock is obtained; when it is not the
    function returns with the list locked. *)
Fixpoint context_destroy_loop (fuel : nat) (d : dialplan) (lock : cw_context -> bool)
    (con : option Z) (registrar : option string) (f : freed) : option (dialplan * freed) :=
  match split_first (doomed con registrar) (contexts d) with
  | None => Some (cw_unlock_contexts d, f)
  | Some (pre, tmp, post) =>
    match fuel with
    | O => None
    | S fuel =>
      if negb (lock tmp) then Some (d, f)
      else
        let d := d <| contexts := pre ++ post |> in
        g ← destroy_context tmp;
        match con with
        | None => context_destroy_loop fuel d lock con registrar (free_app f g)
        | Some _ => Some (cw_unlock_contexts d, free_app f g)
        end
    end
  end.

(** [con] is only used for its hash. *)
Definition __cw_context_destroy (d : dialplan) (lock : cw_context -> bool) (con : option Z)
    (registrar : option string) : option (dialplan * freed) :=
  let d := cw_lock_contexts d in
  context_destroy_loop (length (contexts d)) d lock con registrar free_none.

Definition cw_context_destroy := __cw_context_destroy.

(** The loop over the new contexts when no registrar is given. *)
Fixpoint destroy_each (d : dialplan) (lock : cw_context -> bool) (l : list cw_context) (f : freed)
    : option (dialplan * freed) :=
  match l with
  | [] => Some (d, f)
  | tmp :: l =>
    '(d, g) ← __cw_context_destroy d lock (Some (c_hash tmp)) (Some (c_registrar tmp));
    destroy_each d lock l (free_app f g)
  end.

(** The part of [cw_merge_contexts_and_delete] between the saving and the
    restoring of the watchers of hints; the lists that remain are the result. *)
Definition merge_contexts (d : dialplan) (lock : cw_context -> bool) (extcontexts : list cw_context)
    (registrar : option string) : option (dialplan * list cw_context * freed) :=
  let d := cw_lock_contexts d in
  '(d, f) ← match registrar with
            | Some r => __cw_context_destroy d lock None (Some r)
            | None => destroy_each d lock extcontexts free_none
            end;
  let '(d, ext) :=
    match extcontexts with
    | [] => (d, [])
    | _ => (d <| contexts := extcontexts ++ contexts d |>, [])
    end in
  Some (cw_unlock_contexts d, ext, f).

(** ** Destroying frees everything *)

(** Each group is freed from its second entry on, the first one last. *)
Definition group_freed (g : list entry) : list entry :=
  match g with y :: k => k ++ [y] | [] => [] end.

Definition freed_of (l : list entry) : freed :=
  {| f_data := (fun y => x_data y.2) <$> l;
     f_hints := l ≫= fun y => hint_if y.2 [RemoveHint y.1] |}.

Lemma free_app_of l k : free_app (freed_of l) (freed_of k) = freed_of (l ++ k).
Proof. unfold free_app, freed_of. simpl. by rewrite fmap_app, bind_app. Qed.

Lemma free_app_assoc f g k : free_app (free_app f g) k = free_app f (free_app g k).
Proof. unfold free_app. simpl. by rewrite !app_assoc. Qed.

Lemma free_none_l f : free_app free_none f = f.
Proof. by destruct f. Qed.

Lemma free_none_r f : free_app f free_none = f.
Proof. destruct f. unfold free_app. simpl. by rewrite !app_nil_r. Qed.

Lemma destroy_exten_ok h a n :
  h !! a = Some n -> destroy_exten h a = Some (delete a h, freed_of [(a, n_val n)]).
Proof. intros Hn. unfold destroy_exten, freed_of. rewrite Hn. simpl. by rewrite app_nil_r. Qed.

Lemma destroy_peers_ok fuel h g p f :
  lseg n_peer h p None g -> NoDup g.*1 -> (length g <= fuel)%nat ->
  exists h', destroy_peers fuel h p f = Some (h', free_app f (freed_of g)) /\
    (forall b, b ∉ g.*1 -> h' !! b = h !! b) /\ (forall b, b ∈ g.*1 -> h' !! b = None).
Proof.
  revert fuel h p f. induction g as [|[a x] g IH]; intros fuel h p f Hl Hn Hf.
  - simpl in Hl. subst p. exists h. rewrite free_none_r. split_and!; [by destruct fuel|done|].
    by intros b Hb%elem_of_nil.
  - destruct fuel as [|fuel]; [simpl in Hf; lia|]. simpl in Hf, Hn.
    apply NoDup_cons in Hn as [Ha Hn]. destruct Hl as (-> & n & Hn1 & Hx & Hl).
    cbn [destroy_peers]. rewrite Hn1. cbn [mbind option_bind].
    rewrite (destroy_exten_ok _ _ _ Hn1). cbn [mbind option_bind]. rewrite Hx.
    destruct (IH fuel (delete a h) (n_peer n) (free_app f (freed_of [(a, x)])))
      as (h' & -> & H1 & H2).
    + eapply lseg_ext; [|exact Hl]. intros b Hb. apply lk_delete. by intros ->.
    + done.
    + lia.
    + exists h'. rewrite free_app_assoc, free_app_of. simpl. split_and!; [done|..].
      * intros b Hb. rewrite H1 by (revert Hb; mem). apply lookup_delete_ne. intros ->.
        apply Hb. left.
      * intros b Hb. apply elem_of_cons in Hb as [->|Hb]; [|auto].
        rewrite H1 by done. apply lookup_delete_eq.
Qed.

Lemma destroy_extens_ok fuel h gs p f :
  lseg n_next h p None (heads gs) -> Forall (grp h) gs -> NoDup (addresses gs) ->
  (length (concat gs) <= fuel)%nat ->
  exists h', destroy_extens fuel h p f = Some (h', free_app f (freed_of (gs ≫= group_freed))) /\
    (forall b, b ∉ addresses gs -> h' !! b = h !! b) /\
    (forall b, b ∈ addresses gs -> h' !! b = None).
Proof.
  revert fuel h p f. induction gs as [|g gs IH]; intros fuel h p f Hn Hp Hd Hf.
  - simpl in Hn. subst p. exists h. rewrite free_none_r. split_and!; [by destruct fuel|done|].
    by intros b Hb%elem_of_nil.
  - apply Forall_cons in Hp as [(a & x & k & -> & Hg) Hp]. rewrite heads_cons in Hn.
    simpl in Hf. rewrite length_app in Hf. destruct fuel as [|fuel]; [lia|].
    rewrite addresses_cons in Hd. simpl in Hd.
    apply NoDup_cons in Hd as [Ha Hd]. apply NoDup_app in Hd as (Hk & Hkg & Hd).
    destruct Hn as (-> & n & Hna & Hx & Hn). apply lseg_cons in Hg as (_ & q & Hq & Hg).
    unfold lk in Hq. rewrite Hna in Hq. simpl in Hq. injection Hq as _ Hq. subst q.
    cbn [destroy_extens]. rewrite Hna. cbn [mbind option_bind].
    destruct (destroy_peers_ok (S fuel) h k (n_peer n) f Hg Hk) as (h1 & -> & H1 & H1');
      [lia|]. cbn [mbind option_bind].
    assert (h1 !! a = Some n) as Hna1.
    { rewrite H1; [done|]. intros Hin. apply Ha. mem. }
    rewrite Hna1. cbn [mbind option_bind]. rewrite (destroy_exten_ok _ _ _ Hna1).
    cbn [mbind option_bind]. rewrite Hx.
    assert (forall b, b ∈ addresses gs -> delete a h1 !! b = h !! b) as Hsame.
    { intros b Hb. rewrite lookup_delete_ne by (intros ->; apply Ha; mem).
      apply H1. intros Hin. exact (Hkg b Hin Hb). }
    edestruct (IH fuel (delete a h1) (n_next n)) as (h2 & -> & H2 & H2').
    + eapply next_ext; [|exact Hn]. intros b Hb. unfold lk. by rewrite Hsame.
    + eapply grp_ext; [|exact Hp]. intros b Hb. unfold lk. by rewrite Hsame.
    + done.
    + lia.
    + exists h2. split_and!.
      * rewrite !free_app_assoc, !free_app_of. cbn [mbind list_bind group_freed].
        by rewrite !app_assoc.
      * intros b Hb. rewrite addresses_cons in Hb. simpl in Hb.
        rewrite H2 by (revert Hb; mem). rewrite lookup_delete_ne by (intros ->; apply Hb; left).
        apply H1. revert Hb. mem.
      * intros b Hb. rewrite addresses_cons in Hb. simpl in Hb.
        destruct (decide (b ∈ addresses gs)) as [Hin|Hin]; [auto|]. rewrite H2 by done.
        apply elem_of_cons in Hb as [->|Hb]; [apply lookup_delete_eq|].
        apply elem_of_app in Hb as [Hb|Hb]; [|done].
        rewrite lookup_delete_ne; [auto|]. intros ->. apply Ha. mem.
Qed.

Lemma destroy_context_ok c gs :
  shape (c_exts c) gs -> destroy_context c = Some (freed_of (gs ≫= group_freed)).
Proof.
  intros Hs. unfold destroy_context. pose proof (shape_size _ _ Hs) as Hl.
  destruct Hs as [Hn Hp Hd _].
  destruct (destroy_extens_ok _ _ gs _ free_none Hn Hp Hd Hl) as (h' & -> & _).
  cbn [mbind option_bind]. by rewrite free_none_l.
Qed.

(** ** Destroying and merging, as operations on lists *)

Definition context_freed (c : cw_context) : freed :=
  match extensions (c_exts c) with
  | Some gs => freed_of (gs ≫= group_freed)
  | None => free_none
  end.

Definition all_freed (l : list cw_context) (f : freed) : freed :=
  foldl (fun f c => free_app f (context_freed c)) f l.

Definition sound (c : cw_context) : Prop := exists gs, shape (c_exts c) gs.

Lemma destroy_context_sound c : sound c -> destroy_context c = Some (context_freed c).
Proof.
  intros [gs Hs]. rewrite (destroy_context_ok c gs Hs). unfold context_freed.
  by rewrite (extensions_shape _ _ Hs).
Qed.

Lemma split_first_spec {A} (p : A -> bool) l :
  match split_first p l with
  | None => Forall (fun x => p x = false) l
  | Some (pre, x, post) => l = pre ++ x :: post /\ p x = true /\ Forall (fun x => p x = false) pre
  end.
Proof.
  induction l as [|y l IH]; simpl; [constructor|]. destruct (p y) eqn:Ey; [by repeat split|].
  destruct (split_first p l) as [[[pre x] post]|]; simpl; [|by constructor].
  destruct IH as (-> & Hx & Hpre). repeat split; [done|]. by constructor.
Qed.

Lemma filter_none {A} (p : A -> bool) l : Forall (fun x => p x = false) l -> List.filter p l = [].
Proof. induction 1 as [|x l Hx _ IH]; simpl; [done|]. by rewrite Hx. Qed.

Lemma filter_all {A} (p : A -> bool) l : Forall (fun x => p x = true) l -> List.filter p l = l.
Proof. induction 1 as [|x l Hx _ IH]; simpl; [done|]. by rewrite Hx, IH. Qed.

Lemma filter_negb_split {A} (p : A -> bool) pre x post :
  p x = true -> Forall (fun x => p x = false) pre ->
  List.filter (fun y => negb (p y)) (pre ++ x :: post) =
    List.filter (fun y => negb (p y)) (pre ++ post) /\
  List.filter p (pre ++ x :: post) = x :: List.filter p (pre ++ post).
Proof.
  intros Hx Hpre. rewrite !List.filter_app. simpl. rewrite Hx. simpl.
  split; [done|]. by rewrite (filter_none p pre Hpre).
Qed.

Section destroy_all.
Context (lock : cw_context -> bool) (registrar : option string).

(** Without a context given all contexts of the registrar go. *)
Lemma destroy_loop_all fuel d f :
  Forall (fun c => lock c = true /\ sound c) (contexts d) -> (length (contexts d) <= fuel)%nat ->
  context_destroy_loop fuel d lock None registrar f =
    Some ({| contexts := List.filter (fun c => negb (doomed None registrar c)) (contexts d);
             conlock := conlock d - 1 |},
          all_freed (List.filter (doomed None registrar) (contexts d)) f).
Proof.
  revert d f. induction fuel as [|fuel IH]; intros d f Hall Hf; cbn [context_destroy_loop];
    pose proof (split_first_spec (doomed None registrar) (contexts d)) as Hs;
    destruct (split_first (doomed None registrar) (contexts d)) as [[[pre x] post]|].
  - destruct Hs as [Hs _]. rewrite Hs, length_app in Hf. simpl in Hf. lia.
  - rewrite (filter_none (doomed None registrar)) by done. rewrite filter_all; [done|].
    eapply Forall_impl; [exact Hs|]. simpl. by intros c ->.
  - destruct Hs as (Hs & Hx & Hpre). rewrite Hs in Hall, Hf.
    apply Forall_app in Hall as [Ha1 Ha2]. apply Forall_cons in Ha2 as [[Hl Hsx] Ha2].
    rewrite Hl, (destroy_context_sound x Hsx). cbn [negb mbind option_bind].
    rewrite length_app in Hf. simpl in Hf. rewrite IH; cbn [contexts conlock].
    + destruct (filter_negb_split (doomed None registrar) pre x post Hx Hpre) as [E1 E2].
      rewrite Hs, E1, E2. done.
    + by apply Forall_app.
    + simpl. rewrite length_app. lia.
  - rewrite (filter_none (doomed None registrar)) by done. rewrite filter_all; [done|].
    eapply Forall_impl; [exact Hs|]. simpl. by intros c ->.
Qed.

End destroy_all.

Lemma merge_contexts_spec d lock ext registrar :
  Forall (fun c => lock c = true /\ sound c) (contexts d) ->
  merge_contexts d lock ext (Some registrar) =
    Some ({| contexts := ext ++ List.filter (fun c => negb (strcaseeq registrar (c_registrar c)))
                                  (contexts d);
             conlock := conlock d |}, [],
          all_freed (List.filter (fun c => strcaseeq registrar (c_registrar c)) (contexts d))
            free_none).
Proof.
  intros Hall. unfold merge_contexts, __cw_context_destroy.
  rewrite destroy_loop_all; [|done|apply Nat.le_refl]. cbn [mbind option_bind contexts conlock cw_lock_contexts upd].
  unfold cw_unlock_contexts, doomed. destruct ext; simpl;
    by replace (conlock d + 1 + 1 - 1 - 1) with (conlock d) by lia.
Qed.

(** Merging a newly read configuration replaces the contexts of its
    registrar: they and all they own are freed, the new contexts stand before
    those of other registrars, in their order, and the list the configuration
    was read into is empty. *)
Theorem merge_replaces d lock ext registrar :
  Forall (fun c => lock c = true /\ sound c) (contexts d) ->
  merge_contexts d lock ext (Some registrar) =
    Some ({| contexts := ext ++ List.filter (fun c => negb (strcaseeq registrar (c_registrar c)))
                                  (contexts d);
             conlock := conlock d |}, [],
          all_freed (List.filter (fun c => strcaseeq registrar (c_registrar c)) (contexts d))
            free_none).
Proof. apply merge_contexts_spec. Qed.

(** ** The invariant *)

(** No two elements are the same. *)
Fixpoint distinct {A} (same : A -> A -> bool) (l : list A) : bool :=
  match l with
  | [] => true
  | x :: l => negb (existsb (same x) l) && distinct same l
  end.

Lemma distinct_snoc {A} (same : A -> A -> bool) l x :
  distinct same l = true -> existsb (fun y => same y x) l = false -> distinct same (l ++ [x]) = true.
Proof.
  induction l as [|y l IH]; simpl; [done|]. intros Hd He. b2p.
  rewrite existsb_app. simpl. rewrite H1, H, IH by done. done.
Qed.

Lemma existsb_remove_first {A} (q p : A -> bool) l l' :
  remove_first p l = Some l' -> existsb q l = false -> existsb q l' = false.
Proof.
  revert l'. induction l as [|y l IH]; intros l'; simpl; [done|]. intros H Hq. b2p.
  destruct (p y); [by simplify_eq|].
  destruct (remove_first p l) as [l1|]; simplify_eq/=. by rewrite H0, (IH l1).
Qed.

Lemma distinct_remove_first {A} (same : A -> A -> bool) p l l' :
  remove_first p l = Some l' -> distinct same l = true -> distinct same l' = true.
Proof.
  revert l'. induction l as [|y l IH]; intros l'; simpl; [done|]. intros H Hd. b2p.
  destruct (p y); [by simplify_eq|].
  destruct (remove_first p l) as [l1|] eqn:E; simplify_eq/=.
  rewrite (existsb_remove_first _ p l l1) by done. by rewrite (IH l1).
Qed.

Definition same_include (i j : cw_include) : bool := strcaseeq (i_name i) (i_name j).
Definition same_switch (i j : cw_sw) : bool :=
  strcaseeq (sw_name i) (sw_name j) && strcaseeq (sw_data i) (sw_data j).
Definition same_ignorepat (i j : cw_ignorepat) : bool := strcaseeq (ip_pattern i) (ip_pattern j).

Record wf_context (c : cw_context) : Prop := {
  wc_hash : c_hash c = cw_hash_string (Some (c_name c));
  wc_exts : exists gs, shape (c_exts c) gs /\ ordered gs;
  wc_includes : distinct same_include (c_includes c) = true;
  wc_alts : distinct same_switch (c_alts c) = true;
  wc_ignorepats : distinct same_ignorepat (c_ignorepats c) = true;
}.

Record wf (d : dialplan) : Prop := {
  wf_contexts : Forall wf_context (contexts d);
  wf_unique : NoDup (c_hash <$> contexts d);
}.

Lemma wf_sound c : wf_context c -> sound c.
Proof. intros [_ (gs & Hs & _) _ _ _]. by exists gs. Qed.

Lemma new_context_wf name registrar : wf_context (new_context name registrar).
Proof. split; simpl; [done| |done..]. exists []. split; [apply empty_shape|done]. Qed.

Lemma find_hash_spec hash l :
  match find_hash hash l with
  | Some c => c ∈ l /\ c_hash c = hash
  | None => hash ∉ c_hash <$> l
  end.
Proof.
  induction l as [|c l IH]; simpl; [by intros ?%elem_of_nil|].
  destruct (Z.eqb_spec hash (c_hash c)) as [->|Hne]; [split; [left|done]|].
  destruct (find_hash hash l).
  - destruct IH. split; [by right|done].
  - intros Hin. apply elem_of_cons in Hin as [?|?]; done.
Qed.

Lemma create_wf d malloc name registrar c d' ext' :
  wf d -> cw_context_create d None malloc name registrar = (c, d', ext') -> wf d'.
Proof.
  intros [Hc Hu]. unfold cw_context_create.
  pose proof (find_hash_spec (cw_hash_string (Some name)) (contexts (cw_lock_contexts d))) as Hf.
  destruct (find_hash _ _); [by intros [= <- <- <-]|].
  destruct malloc; intros [= <- <- <-]; [|by split].
  split; simpl; constructor; [apply new_context_wf|done|exact Hf|done].
Qed.

(** An operation on the context of a name that keeps its invariant and its hash
    keeps the dialplan's. *)
Lemma on_first_wf {R} (f : cw_context -> option (R * cw_context)) hash l :
  Forall wf_context l ->
  (forall c, c ∈ l -> c_hash c = hash -> find_hash hash l = Some c ->
     exists r c', f c = Some (r, c') /\ wf_context c' /\ c_hash c' = c_hash c) ->
  exists r l', on_first f hash l = Some (r, l') /\ Forall wf_context l' /\
    c_hash <$> l' = c_hash <$> l.
Proof.
  induction l as [|c l IH]; intros Hl Hf; simpl.
  - by exists None, [].
  - apply Forall_cons in Hl as [Hc Hl]. simpl in Hf.
    destruct (Z.eqb_spec hash (c_hash c)) as [->|Hne].
    + destruct (Hf c) as (r & c' & -> & Hc' & He); [left|done|done|]. simpl.
      eexists _, _. split; [done|]. split; [by constructor|]. by rewrite !fmap_cons, He.
    + destruct IH as (r & l' & -> & Hl' & He); [done| |].
      { intros c0 Hin Hh Hff. apply Hf; [by right|done..]. }
      simpl. eexists _, _. split; [done|]. split; [by constructor|]. by rewrite !fmap_cons, He.
Qed.

Lemma with_context_wf {R} d lock context (busy noent : R) f :
  wf d ->
  (forall c, find_hash (cw_hash_string (Some context)) (contexts d) = Some c -> wf_context c ->
     exists r c', f c = Some (r, c') /\ wf_context c' /\ c_hash c' = c_hash c) ->
  exists r d', with_context d lock context busy noent f = Some (r, d') /\ wf d' /\
    conlock d' = conlock d.
Proof.
  intros [Hc Hu] Hf. unfold with_context. destruct lock; cbn [negb]; [|by eexists _, _].
  change (contexts (cw_lock_contexts d)) with (contexts d).
  destruct (on_first_wf f (cw_hash_string (Some context)) (contexts d)) as (r & l' & -> & Hl & He).
  { done. } { intros c Hin _ Hff. apply Hf; [done|]. by eapply Forall_forall in Hc. }
  simpl. eexists _, _. split; [done|]. split; [|simpl; lia].
  split; simpl; [done|]. by rewrite He.
Qed.

Lemma new_include_total value registrar :
  exists i, new_include value registrar = Some i /\ i_name i = value /\
    i_rname i = (strcut "," value).1.
Proof.
  unfold new_include. destruct (strcut "," value) as [rname [info|]]; [|by eexists].
  destruct info as [|c0 info]; [by eexists|].
  destruct (build_timing_spec no_timing (String c0 info) some_evening) as (t & -> & _);
    [done|constructor; simpl; lia|]. simpl. by eexists.
Qed.

Lemma add_include2_wf c malloc lock value registrar :
  wf_context c -> exists r c', cw_context_add_include2 c malloc lock value registrar = Some (r, c') /\
    wf_context c' /\ c_hash c' = c_hash c.
Proof.
  intros Hc. unfold cw_context_add_include2. destruct malloc; cbn [negb]; [|by eexists _, _].
  destruct (new_include_total value registrar) as (i & -> & _ & _). cbn [mbind option_bind].
  destruct lock; cbn [negb]; [|by eexists _, _].
  destruct (existsb _ _) eqn:E; [by eexists _, _|]. eexists _, _. split; [done|].
  split; [|done]. destruct Hc. split; simpl; [done|done| |done|done].
  by apply distinct_snoc.
Qed.

(** Operations that append to one of the lists, or remove from it. *)
Ltac list_op_wf op :=
  intros Hc; unfold op; repeat case_match; simplify_eq; try done;
  (split; [|done]); destruct Hc; split; simpl; try done;
  first [by eapply distinct_remove_first | by apply distinct_snoc].

Lemma remove_include2_wf c lock include registrar :
  wf_context c -> let '(_, c') := cw_context_remove_include2 c lock include registrar in
    wf_context c' /\ c_hash c' = c_hash c.
Proof. list_op_wf cw_context_remove_include2. Qed.

Lemma add_switch2_wf c malloc lock value data eval registrar :
  wf_context c -> let '(_, c') := cw_context_add_switch2 c malloc lock value data eval registrar in
    wf_context c' /\ c_hash c' = c_hash c.
Proof. list_op_wf cw_context_add_switch2. Qed.

Lemma remove_switch2_wf c lock sw data registrar :
  wf_context c -> let '(_, c') := cw_context_remove_switch2 c lock sw data registrar in
    wf_context c' /\ c_hash c' = c_hash c.
Proof. list_op_wf cw_context_remove_switch2. Qed.

Lemma add_ignorepat2_wf c malloc value registrar :
  wf_context c -> let '(_, c') := cw_context_add_ignorepat2 c malloc value registrar in
    wf_context c' /\ c_hash c' = c_hash c.
Proof. list_op_wf cw_context_add_ignorepat2. Qed.

Lemma remove_ignorepat2_wf c lock ignorepat registrar :
  wf_context c -> let '(_, c') := cw_context_remove_ignorepat2 c lock ignorepat registrar in
    wf_context c' /\ c_hash c' = c_hash c.
Proof. list_op_wf cw_context_remove_ignorepat2. Qed.

Lemma on_exts_wf c o gs :
  wf_context c -> (exists r, o = Some r /\ shape (r_store r) gs) -> ordered gs ->
  exists r c', on_exts c o = Some (r, c') /\ wf_context c' /\ c_hash c' = c_hash c.
Proof.
  intros [] (r & -> & Hs) Ho. eexists _, _. split; [done|]. split; [|done].
  split; simpl; try done. by exists gs.
Qed.

Lemma add_extension_wf c malloc clock replace extension priority label callerid application data
    registrar :
  wf_context c -> strip_spaces extension = extension ->
  (forall ta, malloc = Some ta -> s_heap (c_exts c) !! ta = None) ->
  exists r c', on_exts c (cw_add_extension2 (c_exts c) malloc clock replace extension priority label
                            callerid application data registrar) = Some (r, c') /\
    wf_context c' /\ c_hash c' = c_hash c.
Proof.
  intros Hc Hn Hm. destruct (wc_exts c Hc) as (gs & Hs & Ho).
  destruct malloc as [ta|]; [|by eapply on_exts_wf; [|eexists|]].
  destruct clock; [|by eapply on_exts_wf; [|eexists|]].
  pose proof (add_extension2_ok (c_exts c) gs ta replace extension priority label callerid
    application data registrar Hs (Hm ta eq_refl)) as Ha. cbv zeta in Ha.
  destruct (abs_add _ _ _ gs) as [[[gs' d] ev]|] eqn:Ea; destruct Ha as (r & Hr & _ & Hs' & _).
  - eapply (on_exts_wf c _ gs'); [done|by exists r|]. eapply abs_add_ordered; [exact Ea| |done].
    simpl. by rewrite ext_strncpy_all.
  - eapply (on_exts_wf c _ gs); [done|by exists r|done].
Qed.

Lemma remove_extension_wf c clock extension priority registrar :
  wf_context c ->
  (forall gs, extensions (c_exts c) = Some gs ->
     first_of_first extension priority registrar gs = false) ->
  exists r c', on_exts c (cw_context_remove_extension2 (c_exts c) clock extension priority registrar)
    = Some (r, c') /\ wf_context c' /\ c_hash c' = c_hash c.
Proof.
  intros Hc Hff. destruct (wc_exts c Hc) as (gs & Hs & Ho).
  destruct clock; [|by eapply on_exts_wf; [|eexists|]].
  pose proof (remove_extension2_ok (c_exts c) gs extension priority registrar Hs) as Ha.
  specialize (Ha (Hff gs (extensions_shape _ _ Hs))). cbv zeta in Ha.
  destruct (abs_remove _ _ _ gs) as [[gs' zs]|] eqn:Ea; destruct Ha as (r & Hr & _ & Hs' & _).
  - eapply (on_exts_wf c _ gs'); [done|by exists r|by eapply abs_remove_ordered].
  - eapply (on_exts_wf c _ gs); [done|by exists r|done].
Qed.

(** Destroying, whatever locks are obtained, ends and takes contexts out. *)
Lemma destroy_loop_sub lock con registrar fuel d f :
  Forall sound (contexts d) -> (length (contexts d) <= fuel)%nat ->
  exists d' f', context_destroy_loop fuel d lock con registrar f = Some (d', f') /\
    sublist (contexts d') (contexts d).
Proof.
  revert d f. induction fuel as [|fuel IH]; intros d f Hall Hf; cbn [context_destroy_loop];
    pose proof (split_first_spec (doomed con registrar) (contexts d)) as Hs;
    destruct (split_first (doomed con registrar) (contexts d)) as [[[pre x] post]|];
    try by eexists _, _.
  - destruct Hs as [Hs _]. rewrite Hs, length_app in Hf. simpl in Hf. lia.
  - destruct Hs as (Hs & _ & _). destruct (lock x); cbn [negb]; [|by eexists _, _].
    rewrite Hs in Hall, Hf. apply Forall_app in Hall as [Ha1 Ha2].
    apply Forall_cons in Ha2 as [Hsx Ha2]. rewrite (destroy_context_sound x Hsx).
    cbn [mbind option_bind]. assert (sublist (pre ++ post) (contexts d)) as Hsub.
    { rewrite Hs. apply sublist_app; [done|]. by apply sublist_cons. }
    destruct con; [by eexists _, _|]. rewrite length_app in Hf. simpl in Hf.
    edestruct (IH (d <| contexts := pre ++ post |>)) as (d' & f' & -> & Hd').
    + simpl. by apply Forall_app.
    + simpl. rewrite length_app. lia.
    + eexists _, _. split; [done|]. by etrans.
Qed.

Lemma sublist_map {A B} (f : A -> B) l k : sublist l k -> sublist (f <$> l) (f <$> k).
Proof. induction 1; simpl; by constructor. Qed.

Lemma filter_sublist {A} (p : A -> bool) l : sublist (List.filter p l) l.
Proof. induction l as [|x l IH]; simpl; [done|]. destruct (p x); by constructor. Qed.

Lemma wf_sublist d l n : wf d -> sublist l (contexts d) -> wf {| contexts := l; conlock := n |}.
Proof.
  intros [Hc Hu] Hs. split; simpl.
  - apply Forall_forall. intros c Hin. eapply Forall_forall in Hc; [exact Hc|].
    by eapply elem_of_sublist.
  - eapply sublist_NoDup; [exact Hu|]. by apply sublist_map.
Qed.

Lemma context_destroy_wf d lock con registrar :
  wf d -> exists d' f, __cw_context_destroy d lock con registrar = Some (d', f) /\ wf d'.
Proof.
  intros Hw. unfold __cw_context_destroy.
  destruct (destroy_loop_sub lock con registrar (length (contexts d)) (cw_lock_contexts d) free_none)
    as (d' & f & E & Hs); [|done|].
  { destruct Hw as [Hc _]. eapply Forall_impl; [exact Hc|]. apply wf_sound. }
  exists d', f. split; [exact E|]. destruct d'. by eapply wf_sublist.
Qed.

(** ** Sequences of operations *)

Inductive dp_op :=
  | OpCreate (malloc : bool) (name registrar : string)
  | OpAddInclude (lock malloc clock : bool) (context include registrar : string)
  | OpRemoveInclude (lock clock : bool) (context include : string) (registrar : option string)
  | OpAddSwitch (lock malloc clock : bool) (context sw : string) (data : option string)
      (eval : bool) (registrar : string)
  | OpRemoveSwitch (lock clock : bool) (context sw data : string) (registrar : option string)
  | OpAddIgnorepat (lock malloc : bool) (context value : string) (registrar : Z)
  | OpRemoveIgnorepat (lock clock : bool) (context value : string) (registrar : option Z)
  | OpAddExtension (lock : bool) (malloc : option Z) (clock : bool) (context : string)
      (replace : bool) (extension : string) (priority : Z) (label callerid : option string)
      (application : string) (data : Z) (registrar : string)
  | OpRemoveExtension (lock clock : bool) (context extension : string) (priority : Z)
      (registrar : option string)
  | OpDestroy (lock : cw_context -> bool) (con : option Z) (registrar : option string)
  | OpMerge (ext : list cw_context) (registrar : string).

Definition dp_run (d : dialplan) (op : dp_op) : option dialplan :=
  match op with
  | OpCreate malloc name registrar => Some (cw_context_create d None malloc name registrar).1.2
  | OpAddInclude lock malloc clock context include registrar =>
    snd <$> cw_context_add_include d lock malloc clock context include registrar
  | OpRemoveInclude lock clock context include registrar =>
    snd <$> cw_context_remove_include d lock clock context include registrar
  | OpAddSwitch lock malloc clock context sw data eval registrar =>
    snd <$> cw_context_add_switch d lock malloc clock context sw data eval registrar
  | OpRemoveSwitch lock clock context sw data registrar =>
    snd <$> cw_context_remove_switch d lock clock context sw data registrar
  | OpAddIgnorepat lock malloc context value registrar =>
    snd <$> cw_context_add_ignorepat d lock malloc context value registrar
  | OpRemoveIgnorepat lock clock context value registrar =>
    snd <$> cw_context_remove_ignorepat d lock clock context value registrar
  | OpAddExtension lock malloc clock context replace extension priority label callerid application
      data registrar =>
    snd <$> cw_add_extension d lock malloc clock context replace extension priority label callerid
              application data registrar
  | OpRemoveExtension lock clock context extension priority registrar =>
    snd <$> cw_context_remove_extension d lock clock context extension priority registrar
  | OpDestroy lock con registrar => fst <$> __cw_context_destroy d lock con registrar
  | OpMerge ext registrar => (fun r => r.1.1) <$> merge_contexts d (fun _ => true) ext (Some registrar)
  end.

(** What an operation needs: fresh memory, a name without spaces, not the case
    that removal does not handle; a merged configuration is well formed itself
    and has no name of another registrar's context. *)
Definition op_ok (d : dialplan) (op : dp_op) : Prop :=
  match op with
  | OpAddExtension _ malloc _ _ _ extension _ _ _ _ _ _ =>
    strip_spaces extension = extension /\
    forall ta c, malloc = Some ta -> c ∈ contexts d -> s_heap (c_exts c) !! ta = None
  | OpRemoveExtension _ _ context extension priority registrar =>
    forall c gs, cw_context_find d (Some context) = Some c -> extensions (c_exts c) = Some gs ->
      first_of_first extension priority registrar gs = false
  | OpMerge ext registrar =>
    Forall wf_context ext /\ NoDup (c_hash <$> ext) /\
    forall c e, c ∈ contexts d -> e ∈ ext -> c_hash c = c_hash e ->
      strcaseeq registrar (c_registrar c) = true
  | _ => True
  end.

Lemma merge_wf d ext registrar :
  wf d -> op_ok d (OpMerge ext registrar) -> exists d', dp_run d (OpMerge ext registrar) = Some d' /\ wf d'.
Proof.
  intros Hw (He & Hn & Hx). simpl. unfold merge_contexts, __cw_context_destroy.
  rewrite destroy_loop_all; [|eapply Forall_impl; [apply Hw|]; intros; split; [done|by apply wf_sound]
                             |apply Nat.le_refl].
  cbn [mbind option_bind contexts]. set (l := List.filter _ _).
  assert (sublist l (contexts d)) as Hl by apply filter_sublist.
  assert (forall c, c ∈ l -> doomed None (Some registrar) c = false) as Hdm.
  { intros c Hin. apply list_elem_of_In, filter_In in Hin as [_ Hin]. by apply negb_true_iff in Hin. }
  assert (wf {| contexts := ext ++ l; conlock := conlock d |}) as [H1 H2].
  { pose proof (wf_sublist d l 0 Hw Hl) as [Hc' Hu']. simpl in Hc', Hu'.
    split; simpl; [by apply Forall_app|]. rewrite fmap_app. apply NoDup_app. split_and!; [done| |done].
    intros h H1 H2. apply list_elem_of_fmap in H1 as (e & -> & H1).
    apply list_elem_of_fmap in H2 as (c & Hce & H2). pose proof (Hdm c H2) as Hd.
    unfold doomed in Hd. rewrite (Hx c e) in Hd; [done| |done|done].
    by eapply elem_of_sublist. }
  destruct ext; (eexists; split; [done|]); split; done.
Qed.

Lemma with_context_run {R} d lock context (busy noent : R) f :
  wf d ->
  (forall c, find_hash (cw_hash_string (Some context)) (contexts d) = Some c -> wf_context c ->
     exists r c', f c = Some (r, c') /\ wf_context c' /\ c_hash c' = c_hash c) ->
  exists d', snd <$> with_context d lock context busy noent f = Some d' /\ wf d'.
Proof.
  intros Hw Hf. destruct (with_context_wf d lock context busy noent f Hw Hf) as (r & d' & -> & ? & _).
  by exists d'.
Qed.

Lemma with_context_run_pure {R} d lock context (busy noent : R) g :
  wf d ->
  (forall c, wf_context c -> let '(_, c') := g c in wf_context c' /\ c_hash c' = c_hash c) ->
  exists d', snd <$> with_context d lock context busy noent (fun c => Some (g c)) = Some d' /\ wf d'.
Proof.
  intros Hw Hg. apply with_context_run; [done|]. intros c _ Hc. specialize (Hg c Hc).
  destruct (g c) as [r c']. by exists r, c'.
Qed.

(** C14: The dialplan stays well formed: every operation that [op_ok] admits, on every
    branch, ends without a bad memory access; it keeps the contexts uniquely named,
    their hashes right, the extension lists of each context linked and ordered, and its
    includes, switches and ignore patterns free of repetitions.  Whatever memory and locks
    they obtain, all operations are admitted but these: adding an extension whose name
    has spaces or at an address that is in use; removing the first priority of the
    first extension of a context ([Exten.remove_first_loses]); and merging contexts that
    are not well formed, or share a name with each other or with a context of another
    registrar.  A merge obtains all locks and has a registrar. *)
Theorem dialplan_well_formed d op :
  wf d -> op_ok d op -> exists d', dp_run d op = Some d' /\ wf d'.
Proof.
  intros Hw Hok. destruct op.
  - eexists. split; [done|]. destruct (cw_context_create _ _ _ _ _) as [[c d'] ext'] eqn:E.
    by eapply create_wf.
  - apply with_context_run; [done|]. intros c _. apply add_include2_wf.
  - apply with_context_run_pure; [done|]. intros c. apply remove_include2_wf.
  - apply with_context_run_pure; [done|]. intros c. apply add_switch2_wf.
  - apply with_context_run_pure; [done|]. intros c. apply remove_switch2_wf.
  - apply with_context_run_pure; [done|]. intros c. apply add_ignorepat2_wf.
  - apply with_context_run_pure; [done|]. intros c. apply remove_ignorepat2_wf.
  - destruct Hok as [Hn Hm]. apply with_context_run; [done|]. intros c Hf Hc.
    apply add_extension_wf; [done|done|]. intros ta Hta. apply (Hm ta c Hta).
    pose proof (find_hash_spec (cw_hash_string (Some context)) (contexts d)) as Hs.
    rewrite Hf in Hs. apply Hs.
  - apply with_context_run; [done|]. intros c Hf Hc. apply remove_extension_wf; [done|].
    intros gs. by apply Hok.
  - destruct (context_destroy_wf d lock con registrar Hw) as (d' & f & E & Hd). exists d'.
    split; [|done]. simpl. by rewrite E.
  - by apply merge_wf.
Qed.

(** A context with the two extensions of the example. *)
Definition demo_context : cw_context :=
  (new_context "default" "cfg") <| c_exts := demo |>.

Definition demo_plan : dialplan := {| contexts := [demo_context]; conlock := 0 |}.

Lemma demo_plan_wf : wf demo_plan.
Proof.
  split; simpl; [|repeat constructor; by intros ?%elem_of_nil]. constructor; [|constructor].
  split; simpl; [done| |done..]. exists demo_groups. apply demo_shape.
Qed.

Lemma dialplan_well_formed_witness :
  exists d', dp_run demo_plan
    (OpAddExtension true (Some 9) true "default" false "_9X." 1 None None "Dial" 7 "cfg") = Some d' /\
    wf d'.
Proof.
  apply (dialplan_well_formed demo_plan); [apply demo_plan_wf|].
  split; [reflexivity|]. intros ta c [= <-] Hc. apply list_elem_of_singleton in Hc as ->.
  reflexivity.
Defined.

Lemma merge_replaces_witness :
  merge_contexts demo_plan (fun _ => true) [new_context "new" "CFG"] (Some "CFG"%string) =
    Some ({| contexts := [new_context "new" "CFG"]; conlock := 0 |}, [],
          {| f_data := [1003; 1001; 1002]; f_hints := [] |}).
Proof.
  rewrite (merge_replaces demo_plan (fun _ => true) [new_context "new" "CFG"] "CFG").
  - vm_compute. reflexivity.
  - constructor; [|constructor]. split; [reflexivity|]. exists demo_groups. apply demo_shape.
Defined.

(** Creating a context whose name is taken gives the lock of the context list
    up once more than it was taken, with a list given as without, so that a
    caller that holds the lock loses it; all other outcomes leave it as it
    was. *)
Theorem create_unlocks_twice d extcontexts malloc name registrar :
  let l := match extcontexts with Some l => l | None => contexts d end in
  let '(c, d', ext') := cw_context_create d extcontexts malloc name registrar in
  match find_hash (cw_hash_string (Some name)) l with
  | Some _ => c = None /\ contexts d' = contexts d /\ ext' = extcontexts /\
              conlock d' = conlock d - 1
  | None => conlock d' = conlock d /\
            (malloc = true -> c = Some (new_context name registrar) /\
               match extcontexts with
               | Some l => ext' = Some (new_context name registrar :: l) /\ contexts d' = contexts d
               | None => cw_context_find d' (Some name) = c /\
                         contexts d' = new_context name registrar :: contexts d
               end)
  end.
Proof.
  unfold cw_context_create, cw_context_find. destruct extcontexts as [l|]; simpl.
  - destruct (find_hash (cw_hash_string (Some name)) l); simpl; [by split_and!|].
    destruct malloc; simpl; by split.
  - destruct (find_hash (cw_hash_string (Some name)) (contexts d)); simpl; [repeat split; lia|].
    destruct malloc; simpl; (split; [lia|]); [|done]. intros _. rewrite Z.eqb_refl. done.
Qed.

(** An include added and taken back. *)
Lemma remove_first_snoc {A} (p : A -> bool) l x :
  Forall (fun y => p y = false) l -> p x = true -> remove_first p (l ++ [x]) = Some l.
Proof. induction 1 as [|y l Hy _ IH]; intros Hx; simpl; [by rewrite Hx|]. by rewrite Hy, IH. Qed.

(** An include that was added can be removed again under the name it was
    given, and the context is as before; a name that is there already, in any
    case, is refused. *)
Theorem include_roundtrip c value registrar :
  match cw_context_add_include2 c true true value registrar with
  | Some (None, c') => cw_context_remove_include2 c' true value (Some registrar) = (None, c)
  | Some (Some e, c') =>
    e = EEXIST /\ c' = c /\ exists i, i ∈ c_includes c /\ strcaseeq (i_name i) value = true
  | None => False
  end.
Proof.
  unfold cw_context_add_include2. simpl.
  destruct (new_include_total value registrar) as (i & Hi & Hn & _). rewrite Hi. simpl.
  assert (i_registrar i = registrar) as Hr.
  { unfold new_include in Hi. destruct (strcut "," value) as [rname [info|]]; [|by injection Hi as <-].
    destruct (cw_build_timing no_timing info) as [[has t]|]; [|done]. by injection Hi as <-. }
  rewrite Hn. destruct (existsb _ _) eqn:E.
  - apply existsb_exists in E as (j & Hj & E). split_and!; [done|done|].
    exists j. split; [by apply list_elem_of_In|done].
  - unfold cw_context_remove_include2. simpl. rewrite remove_first_snoc.
    + by destruct c.
    + apply Forall_forall. intros j Hj. apply andb_false_iff. left.
      destruct (streq (i_name j) value) eqn:Es; [|done]. apply streq_eq in Es.
      rewrite <- E. symmetry. apply existsb_exists. exists j. split; [by apply list_elem_of_In|].
      rewrite Es. apply strcaseeq_refl.
    + by rewrite Hn, Hr, !streq_refl.
Qed.
