(* ===== verification/Registry.v ===== *)
(** * The registries of applications, functions and switches (corelib/pbx.c)

    Applications and functions are found by the hash of their names, switches
    by their names without regard to case.  An entry is its address and what is
    read of it; the pointers to the code it registers are opaque, but for the
    functions of a switch, which the search for an extension calls.  The hash of
    names is chosen when the program is compiled and is an argument; so are the
    outcomes of locking and allocating. *)

From S2P Require Import Prelude CStr Hash.

(** ** Applications and functions *)

Record cw_app := {
  app_id : Z;
  app_name : string;
  app_hash : Z;
  app_execute : Z;
}.

Record cw_func := {
  func_id : Z;
  func_name : string;
  func_hash : Z;
  func_read : Z;
  func_write : Z;
}.

(** What a switch is asked: the context, the number, the priority, the caller and
    the data. *)
Abbreviation switch_fun := (option string -> string -> Z -> option string -> string -> Z).

Section registries.
Context (hash_app : string -> Z).

Fixpoint pbx_findapp (apps : list cw_app) (app : string) : option cw_app :=
  match apps with
  | [] => None
  | tmp :: l => if hash_app app =? app_hash tmp then Some tmp else pbx_findapp l app
  end.

(** Before the first application with a greater name. *)
Fixpoint app_insert (p : cw_app) (apps : list cw_app) : list cw_app :=
  match apps with
  | [] => [p]
  | q :: l => match strcmp (app_name p) (app_name q) with
              | Lt => p :: q :: l
              | _ => q :: app_insert p l
              end
  end.

(** [malloc] is the address of the new entry. *)
Definition cw_register_application (apps : list cw_app) (lock : bool) (malloc : option Z)
    (name : string) (execute : Z) : option cw_app * list cw_app :=
  if negb lock then (None, apps)
  else if existsb (fun p => streq (app_name p) name || (app_hash p =? hash_app name)) apps
  then (None, apps)
  else
    match malloc with
    | None => (None, apps)
    | Some a =>
      let p := {| app_id := a; app_name := name; app_hash := hash_app name;
                  app_execute := execute |} in
      (Some p, app_insert p apps)
    end.

(** The list without the entry at an address. *)
Fixpoint unlink {A} (id : A -> Z) (a : Z) (l : list A) : option (list A) :=
  match l with
  | [] => None
  | x :: l => if id x =? a then Some l else cons x <$> unlink id a l
  end.

Definition cw_unregister_application (apps : list cw_app) (lock : bool) (app : option Z)
    : Z * list cw_app :=
  match app with
  | None => (0, apps)
  | Some a =>
    if negb lock then (-1, apps)
    else match unlink app_id a apps with Some l => (0, l) | None => (-1, apps) end
  end.

Definition cw_function_find (funcs : list cw_func) (lock : bool) (name : string) : option cw_func :=
  if negb lock then None else List.find (fun p => func_hash p =? hash_app name) funcs.

Definition cw_register_function (funcs : list cw_func) (lock : bool) (malloc : option Z)
    (name : string) (read write : Z) : option cw_func * list cw_func :=
  if negb lock then (None, funcs)
  else if existsb (fun p => streq (func_name p) name || (func_hash p =? hash_app name)) funcs
  then (None, funcs)
  else
    match malloc with
    | None => (None, funcs)
    | Some a =>
      let p := {| func_id := a; func_name := name; func_hash := hash_app name; func_read := read;
                  func_write := write |} in
      (Some p, p :: funcs)
    end.

Definition cw_unregister_function (funcs : list cw_func) (lock : bool) (func : option Z)
    : Z * list cw_func :=
  match func with
  | None => (0, funcs)
  | Some a =>
    if negb lock then (-1, funcs)
    else match unlink func_id a funcs with Some l => (0, l) | None => (-1, funcs) end
  end.

(** ** Switches *)

(** [struct cw_switch]; a NULL pointer is [None]. *)
Record cw_switch := {
  swt_id : Z;
  swt_name : string;
  swt_exists : option switch_fun;
  swt_canmatch : option switch_fun;
  swt_exec : option switch_fun;
  swt_matchmore : option switch_fun;
}.

Fixpoint pbx_findswitch (switches : list cw_switch) (sw : string) : option cw_switch :=
  match switches with
  | [] => None
  | asw :: l => if strcaseeq (swt_name asw) sw then Some asw else pbx_findswitch l sw
  end.

Definition cw_register_switch (switches : list cw_switch) (lock : bool) (sw : cw_switch)
    : Z * list cw_switch :=
  if negb lock then (-1, switches)
  else match pbx_findswitch switches (swt_name sw) with
       | Some _ => (-1, switches)
       | None => (0, switches ++ [sw])
       end.

Definition cw_unregister_switch (switches : list cw_switch) (lock : bool) (sw : Z)
    : list cw_switch :=
  if negb lock then switches else default switches (unlink swt_id sw switches).

(** ** Lemmas *)

Lemma unlink_app {A} (id : A -> Z) l x k :
  id x ∉ id <$> l -> unlink id (id x) (l ++ x :: k) = Some (l ++ k).
Proof.
  induction l as [|y l IH]; simpl.
  - by rewrite Z.eqb_refl.
  - intros Hx. apply not_elem_of_cons in Hx as [Hy Hx].
    destruct (Z.eqb_spec (id y) (id x)) as [E|_]; [by rewrite E in Hy|]. by rewrite IH.
Qed.

(** The new entry stands behind entries that are not greater. *)
Lemma app_insert_split p apps :
  exists l k, apps = l ++ k /\ app_insert p apps = l ++ p :: k.
Proof.
  induction apps as [|q apps (l & k & -> & E)]; [by exists [], []|]. simpl.
  destruct (strcmp (app_name p) (app_name q)).
  - exists (q :: l), k. by rewrite E.
  - by exists [], (q :: l ++ k).
  - exists (q :: l), k. by rewrite E.
Qed.

Lemma findapp_app hash name l k :
  (forall q, q ∈ l -> hash_app name <> app_hash q) -> hash = hash_app name ->
  pbx_findapp (l ++ k) name = pbx_findapp k name.
Proof.
  intros H _. induction l as [|q l IH]; simpl; [done|].
  destruct (Z.eqb_spec (hash_app name) (app_hash q)) as [E|_]; [by destruct (H q ltac:(left))|].
  apply IH. intros q' Hq. apply H. by right.
Qed.

Definition by_name (p q : cw_app) : Prop := strcmp (app_name p) (app_name q) = Lt.

Record apps_ok (apps : list cw_app) : Prop := {
  ao_sorted : StronglySorted by_name apps;
  ao_hashes : NoDup (app_hash <$> apps);
  ao_ids : NoDup (app_id <$> apps);
}.

Lemma app_insert_sorted p apps :
  StronglySorted by_name apps -> Forall (fun q => app_name q <> app_name p) apps ->
  StronglySorted by_name (app_insert p apps).
Proof.
  induction 1 as [|q apps Hs IH Hq]; intros Hn; simpl; [repeat constructor|].
  apply Forall_cons in Hn as [Hpq Hn]. destruct (strcmp (app_name p) (app_name q)) eqn:E.
  - by apply strcmp_eq in E.
  - constructor; [by constructor|]. constructor; [done|]. eapply Forall_impl; [exact Hq|].
    intros r Hr. unfold by_name in *. by eapply strcmp_trans.
  - constructor; [by apply IH|]. destruct (app_insert_split p apps) as (l & k & -> & ->).
    apply Forall_app in Hq as [H1 H2]. apply Forall_app. split; [done|]. constructor; [|done].
    unfold by_name. by rewrite strcmp_antisym, E.
Qed.

(** The registry of applications keeps its order and its unique names and
    hashes; a registered application is found by its name, and unregistering it
    gives the old registry back. *)
Theorem application_roundtrip apps a name execute :
  apps_ok apps -> a ∉ app_id <$> apps ->
  match cw_register_application apps true (Some a) name execute with
  | (Some p, apps') =>
    app_id p = a /\ app_name p = name /\ apps_ok apps' /\ pbx_findapp apps' name = Some p /\
    cw_unregister_application apps' true (Some a) = (0, apps)
  | (None, apps') =>
    apps' = apps /\ exists q, q ∈ apps /\ (app_name q = name \/ app_hash q = hash_app name)
  end.
Proof.
  intros [Hs Hh Hi] Ha. unfold cw_register_application. cbn [negb].
  destruct (existsb _ apps) eqn:E.
  { split; [done|]. apply existsb_exists in E as (q & Hq & E). exists q.
    split; [by apply list_elem_of_In|]. apply orb_true_iff in E as [E|E]; [left|right].
    - by apply streq_eq.
    - by apply Z.eqb_eq. }
  assert (forall q, q ∈ apps -> app_name q <> name /\ app_hash q <> hash_app name) as Hnew.
  { intros q Hq. apply not_true_iff_false in E. split; intros Eq; apply E, existsb_exists;
      (exists q; split; [by apply list_elem_of_In|]); apply orb_true_iff;
      [left; by apply streq_eq|right; by apply Z.eqb_eq]. }
  set (p := {| app_id := a; app_name := name; app_hash := hash_app name; app_execute := execute |}).
  destruct (app_insert_split p apps) as (l & k & Hl & Hp).
  assert (app_hash p ∉ app_hash <$> apps) as Hph.
  { intros Hin. apply list_elem_of_fmap in Hin as (q & Hqh & Hq). by destruct (Hnew q Hq). }
  split_and!; [done|done|split| |].
  - apply app_insert_sorted; [done|]. apply Forall_forall. intros q Hq. by apply Hnew.
  - rewrite Hp, fmap_app, fmap_cons, Permutation_app_comm. simpl. constructor.
    + rewrite Hl, fmap_app in Hph. rewrite elem_of_app in *. tauto.
    + rewrite Hl, fmap_app, Permutation_app_comm in Hh. done.
  - rewrite Hp, fmap_app, fmap_cons, Permutation_app_comm. simpl. constructor.
    + rewrite Hl, fmap_app in Ha. rewrite elem_of_app in *. tauto.
    + rewrite Hl, fmap_app, Permutation_app_comm in Hi. done.
  - rewrite Hp, (findapp_app (hash_app name)); [|intros q Hq He; apply (Hnew q); [|done]|done].
    + simpl. by rewrite Z.eqb_refl.
    + rewrite Hl. apply elem_of_app. by left.
  - unfold cw_unregister_application. cbn [negb]. rewrite Hp. change a with (app_id p).
    rewrite unlink_app; [by rewrite Hl|]. rewrite Hl, fmap_app in Ha. simpl.
    rewrite elem_of_app in Ha. tauto.
Qed.

Lemma findswitch_none switches name :
  pbx_findswitch switches name = None ->
  Forall (fun s => strcaseeq (swt_name s) name = false) switches.
Proof.
  induction switches as [|s l IH]; simpl; [constructor|].
  destruct (strcaseeq (swt_name s) name) eqn:E; [done|]. intros H. constructor; auto.
Qed.

(** A switch is registered under a name that no other has, in any case, is
    found under it in any case, and can be taken back. *)
Theorem switch_roundtrip switches sw name :
  swt_id sw ∉ swt_id <$> switches ->
  match cw_register_switch switches true sw with
  | (0, l) =>
    (strcaseeq (swt_name sw) name = true -> pbx_findswitch l name = Some sw) /\
    cw_unregister_switch l true (swt_id sw) = switches
  | (_, l) => l = switches /\ exists s, s ∈ switches /\ strcaseeq (swt_name s) (swt_name sw) = true
  end.
Proof.
  intros Hid. unfold cw_register_switch. cbn [negb].
  destruct (pbx_findswitch switches (swt_name sw)) as [s|] eqn:E.
  - split; [done|]. exists s. revert E. clear Hid. induction switches as [|t l IH]; simpl; [done|].
    destruct (strcaseeq (swt_name t) (swt_name sw)) eqn:Et.
    + intros [= <-]. split; [left|done].
    + intros H. destruct (IH H). split; [by right|done].
  - split.
    + intros Hn. apply findswitch_none in E. induction E as [|t l Ht _ IH]; simpl; [by rewrite Hn|].
      assert (strcaseeq (swt_name t) name = false) as ->.
      { rewrite strcaseeq_sym, (strcaseeq_trans (swt_name sw) name _ Hn), strcaseeq_sym. done. }
      apply IH. simpl in Hid. apply not_elem_of_cons in Hid. tauto.
    + unfold cw_unregister_switch. cbn [negb].
      rewrite (unlink_app swt_id switches sw []) by done. simpl. by rewrite app_nil_r.
Qed.

End registries.
