(* ===== verification/Find.v ===== *)
(** * Finding an extension (corelib/pbx.c)

    [pbx_find_extension] looks for a dialled number in a context: in its own
    extensions, then in its switches, then in the contexts it includes, depth
    first.  The names of the contexts that were searched are kept on a stack
    that is never popped and serves as the set of visited contexts.

    Switches are called through the pointers they registered, with the channel;
    their answers are functions of the other arguments here, and so is the
    substitution of variables in the data of a switch, which is taken to return (Subst
    says when it does without a bad access).  The lists of a context
    are read by [extensions]; a result [None] is a bad memory access.  [num] is
    the dialled extension, [None] for a string the NULL pointer. *)

From S2P Require Import Prelude CStr Hash Pattern Timing Exten Dialplan Registry.
From stdpp Require Import gmap.
Open Scope Z_scope.

Definition CW_PBX_MAX_STACK : nat := 128.

Inductive helper :=
  | HELPER_EXISTS
  | HELPER_EXEC
  | HELPER_CANMATCH
  | HELPER_MATCHMORE
  | HELPER_FINDLABEL.

Definition STATUS_NO_CONTEXT : Z := 1.
Definition STATUS_NO_EXTENSION : Z := 2.
Definition STATUS_NO_PRIORITY : Z := 3.
Definition STATUS_NO_LABEL : Z := 4.
Definition STATUS_SUCCESS : Z := 5.

Definition include_valid (now : tm) (i : cw_include) : bool :=
  if negb (i_hastime i) then true else cw_check_timing (i_timing i) now.

(** What the search hands back through its pointers. *)
Record search := {
  sr_stack : list string;
  sr_status : Z;
  sr_swo : option cw_switch;
  sr_data : option string;
  sr_found : option string;
}.

#[export] Instance search_eta : Eta search := fun s =>
  {| sr_stack := sr_stack s; sr_status := sr_status s; sr_swo := sr_swo s; sr_data := sr_data s;
     sr_found := sr_found s |}.

(** The status only rises. *)
Definition raise (v : Z) (s : search) : search :=
  if sr_status s <? v then s <| sr_status := v |> else s.

Section find.
Context (switches : list cw_switch) (substitute : string -> string) (now : tm).
Context (num : string) (priority : Z) (label callerid : option string) (action : helper).

(** ** One context *)

(** Whether an extension of the result [match] is wanted, and whether it is an
    early match of [HELPER_MATCHMORE]. *)
Definition wanted (m : extension_match) (early : bool) : bool * bool :=
  match action with
  | HELPER_EXISTS | HELPER_EXEC | HELPER_FINDLABEL =>
    (match m with
     | EXTENSION_MATCH_POSSIBLE | EXTENSION_MATCH_EXACT | EXTENSION_MATCH_STRETCHABLE => true
     | _ => false
     end, early)
  | HELPER_CANMATCH =>
    (match m with
     | EXTENSION_MATCH_POSSIBLE | EXTENSION_MATCH_EXACT | EXTENSION_MATCH_STRETCHABLE
     | EXTENSION_MATCH_INCOMPLETE => true
     | _ => false
     end, early)
  | HELPER_MATCHMORE =>
    match m, early with
    | EXTENSION_MATCH_POSSIBLE, false => (false, true)
    | EXTENSION_MATCH_STRETCHABLE, _ | EXTENSION_MATCH_INCOMPLETE, _ => (true, early)
    | _, _ => (false, early)
    end
  end.

Definition label_is (x : exten) : bool :=
  match label, x_label x with
  | Some l, Some k => streq l k
  | _, _ => false
  end.

Definition entry_is (x : exten) : bool :=
  match action with HELPER_FINDLABEL => label_is x | _ => x_priority x =? priority end.

(** The loop over the priorities of an extension that matched. *)
Fixpoint scan_peers (g : list entry) (s : search) : option entry * search :=
  match g with
  | [] => (None, s)
  | e :: g =>
    let s := match action with HELPER_FINDLABEL => raise STATUS_NO_LABEL s | _ => s end in
    if entry_is e.2 then (Some e, s <| sr_status := STATUS_SUCCESS |>) else scan_peers g s
  end.

Definition cid_ok (x : exten) : bool :=
  negb (x_matchcid x && negb (matchcid (x_cidmatch x) callerid)).

(** The loop over the extensions of a context. *)
Fixpoint scan_exts (gs : list (list entry)) (early : bool) (s : search)
    : option entry * bool * search :=
  match gs with
  | [] => (None, early, s)
  | g :: gs =>
    match g with
    | [] => scan_exts gs early s
    | eroot :: _ =>
      let '(res, early) :=
        if cid_ok eroot.2 then wanted (cw_extension_pattern_match num (x_exten eroot.2)) early
        else (false, early) in
      if res then
        match scan_peers g (raise STATUS_NO_PRIORITY s) with
        | (Some e, s) => (Some e, early, s)
        | (None, s) => scan_exts gs early s
        end
      else scan_exts gs early s
    end
  end.

Definition switch_asked (asw : cw_switch) : option switch_fun :=
  match action with
  | HELPER_CANMATCH => swt_canmatch asw
  | HELPER_MATCHMORE => swt_matchmore asw
  | _ => swt_exists asw
  end.

(** The data handed to a switch. *)
Definition switch_data (sw : cw_sw) : string :=
  if sw_eval sw then substitute (sw_data sw) else sw_data sw.

Fixpoint scan_switches (context : option string) (l : list cw_sw) : option (cw_switch * string) :=
  match l with
  | [] => None
  | sw :: l =>
    match pbx_findswitch switches (sw_name sw) with
    | Some asw =>
      let res := match switch_asked asw with
                 | Some f => f context num priority callerid (switch_data sw)
                 | None => 0
                 end in
      if negb (res =? 0) then Some (asw, switch_data sw) else scan_switches context l
    | None => scan_switches context l
    end
  end.

(** ** The contexts *)

(** The loop over the includes; [rec] is the search in an included context. *)
Fixpoint scan_includes (rec : option string -> search -> option (option entry * search))
    (l : list cw_include) (s : search) : option (option entry * search) :=
  match l with
  | [] => Some (None, s)
  | i :: l =>
    if include_valid now i then
      '(e, s) ← rec (Some (i_rname i)) s;
      match e with
      | Some e => Some (Some e, s)
      | None => match sr_swo s with Some _ => Some (None, s) | None => scan_includes rec l s end
      end
    else scan_includes rec l s
  end.

Definition visited (context : option string) (stack : list string) : bool :=
  match context with
  | Some c => existsb (fun n => strcaseeq n c) stack
  | None => false
  end.

(** [strcasecmp] of the NULL pointer is only avoided on an empty stack. *)
Definition null_deref (context : option string) (stack : list string) : bool :=
  match context, stack with None, _ :: _ => true | _, _ => false end.

Definition start (s : search) : search :=
  match sr_stack s with
  | [] => s <| sr_status := STATUS_NO_CONTEXT |> <| sr_swo := None |> <| sr_data := None |>
  | _ => s
  end.

(** The search in one context, whose extensions are [gs]. *)
Definition scan_context (rec : option string -> search -> option (option entry * search))
    (context : option string) (tmp : cw_context) (s : search) : option (option entry * search) :=
  gs ← extensions (c_exts tmp);
  match scan_exts gs false (raise STATUS_NO_EXTENSION s) with
  | (Some e, _, s) => Some (Some e, s <| sr_found := context |>)
  | (None, true, s) => Some (None, s)
  | (None, false, s) =>
    match scan_switches context (c_alts tmp) with
    | Some (asw, data) =>
      Some (None, s <| sr_swo := Some asw |> <| sr_data := Some data |> <| sr_found := context |>)
    | None => scan_includes rec (c_includes tmp) (s <| sr_stack := sr_stack s ++ [c_name tmp] |>)
    end
  end.

Fixpoint pbx_find_extension (fuel : nat) (d : list cw_context) (bypass : option cw_context)
    (context : option string) (s : search) : option (option entry * search) :=
  match fuel with
  | O => None
  | S fuel =>
    let s := start s in
    if (CW_PBX_MAX_STACK <=? length (sr_stack s))%nat then Some (None, s)
    else if null_deref context (sr_stack s) then None
    else if visited context (sr_stack s) then Some (None, s)
    else
      match bypass with
      | Some tmp => scan_context (pbx_find_extension fuel d bypass) context tmp s
      | None =>
        match find_hash (cw_hash_string context) d with
        | Some tmp => scan_context (pbx_find_extension fuel d bypass) context tmp s
        | None => Some (None, s)
        end
      end
  end.

Definition no_search : search :=
  {| sr_stack := []; sr_status := 0; sr_swo := None; sr_data := None; sr_found := None |}.

(** The stack grows with each level, so its limit is enough. *)
Definition find (d : list cw_context) (bypass : option cw_context) (context : option string)
    : option (option entry * search) :=
  pbx_find_extension (S CW_PBX_MAX_STACK) d bypass context no_search.

End find.

(** ** The entry points *)

Definition CW_MAX_EXTENSION : nat := 80.
Definition CW_MAX_CONTEXT : nat := 80.

(** What the helper does: return a number, run an application after moving the
    channel to a place in the dialplan, or let a switch run the extension. *)
Inductive helper_result :=
  | HReturn (v : Z)
  | HRunApp (app : cw_app) (e : entry) (context num : string) (priority : Z)
  | HRunSwitch (exec : switch_fun) (context : option string) (num : string) (priority : Z)
      (callerid : option string) (data : option string).

Definition place (n : nat) (s : string) : string := strtake (n - 1) s.

Definition quiet (action : helper) : bool :=
  match action with HELPER_EXISTS | HELPER_CANMATCH | HELPER_MATCHMORE => true | _ => false end.

Section helpers.
Context (switches : list cw_switch) (substitute : string -> string) (now : tm).
Context (hash_app : string -> Z) (apps : list cw_app) (d : list cw_context).

Definition pbx_extension_helper (lock : bool) (con : option cw_context) (context : option string)
    (num : string) (priority : Z) (label callerid : option string) (action : helper)
    : option helper_result :=
  if negb lock then Some (HReturn (if quiet action then 0 else -1)) else
  '(e, s) ← find switches substitute now num priority label callerid action d con context;
  Some match e with
  | Some e =>
    match action with
    | HELPER_CANMATCH | HELPER_EXISTS | HELPER_MATCHMORE => HReturn (-1)
    | HELPER_FINDLABEL => HReturn (x_priority e.2)
    | HELPER_EXEC =>
      match pbx_findapp hash_app apps (x_app e.2) with
      | Some app => HRunApp app e (place CW_MAX_CONTEXT (default EmptyString context))
                      (place CW_MAX_EXTENSION num) priority
      | None => HReturn (-1)
      end
    end
  | None =>
    match sr_swo s with
    | Some sw =>
      match action with
      | HELPER_EXEC =>
        match swt_exec sw with
        | Some exec => HRunSwitch exec (match sr_found s with Some c => Some c | None => context end)
                         num priority callerid (sr_data s)
        | None => HReturn (-1)
        end
      | _ => HReturn (-1)
      end
    | None => HReturn (if quiet action then 0 else -1)
    end
  end.

Definition cw_hint_extension (lock : bool) (context : option string) (num : string)
    : option (option entry) :=
  if negb lock then Some None else
  fst <$> find switches substitute now num PRIORITY_HINT None (Some EmptyString) HELPER_EXISTS d
            None context.

Definition cw_exists_extension (lock : bool) (context num : string) (priority : Z)
    (callerid : option string) : option helper_result :=
  pbx_extension_helper lock None (Some context) num priority None callerid HELPER_EXISTS.

Definition cw_findlabel_extension (lock : bool) (context num label : string)
    (callerid : option string) : option helper_result :=
  pbx_extension_helper lock None (Some context) num 0 (Some label) callerid HELPER_FINDLABEL.

Definition cw_findlabel_extension2 (lock : bool) (con : cw_context) (num label : string)
    (callerid : option string) : option helper_result :=
  pbx_extension_helper lock (Some con) None num 0 (Some label) callerid HELPER_FINDLABEL.

Definition cw_canmatch_extension (lock : bool) (context num : string) (priority : Z)
    (callerid : option string) : option helper_result :=
  pbx_extension_helper lock None (Some context) num priority None callerid HELPER_CANMATCH.

Definition cw_matchmore_extension (lock : bool) (context num : string) (priority : Z)
    (callerid : option string) : option helper_result :=
  pbx_extension_helper lock None (Some context) num priority None callerid HELPER_MATCHMORE.

Definition cw_exec_extension (lock : bool) (context num : string) (priority : Z)
    (callerid : option string) : option helper_result :=
  pbx_extension_helper lock None (Some context) num priority None callerid HELPER_EXEC.

End helpers.

(** ** What a search in one context finds *)

Section theory.
Context (switches : list cw_switch) (substitute : string -> string) (now : tm).
Context (num : string) (priority : Z) (label callerid : option string) (action : helper).

Abbreviation find_ext := (pbx_find_extension switches substitute now num priority label callerid action).
Abbreviation scan_ctx := (scan_context switches substitute now num priority label callerid action).

(** The results of the match that the action is interested in. *)
Definition interesting (m : extension_match) : bool := (wanted action m false).1.

(** [e] is an entry the action looks for, of an extension that matches. *)
Definition hit (gs : list (list entry)) (e : entry) : Prop :=
  exists y k, (y :: k) ∈ gs /\ e ∈ (y :: k) /\ cid_ok callerid y.2 = true /\
    interesting (cw_extension_pattern_match num (x_exten y.2)) = true /\
    entry_is priority label action e.2 = true.

Lemma wanted_interesting m early : (wanted action m early).1 = interesting m.
Proof. unfold interesting, wanted. by destruct action, m, early. Qed.

(** What the scan of one context leaves alone. *)
Definition same_but_status (s s' : search) : Prop :=
  sr_stack s' = sr_stack s /\ sr_swo s' = sr_swo s /\ sr_data s' = sr_data s /\
  sr_found s' = sr_found s.

Lemma raise_same v s : same_but_status s (raise v s).
Proof. unfold raise. by destruct (sr_status s <? v). Qed.

Lemma same_trans s1 s2 s3 : same_but_status s1 s2 -> same_but_status s2 s3 -> same_but_status s1 s3.
Proof. unfold same_but_status. intros (-> & -> & -> & ->) (-> & -> & -> & ->). done. Qed.

Lemma scan_peers_spec g s :
  let '(o, s') := scan_peers priority label action g s in
  same_but_status s s' /\
  match o with
  | Some e => e ∈ g /\ entry_is priority label action e.2 = true /\ sr_status s' = STATUS_SUCCESS
  | None => forall e, e ∈ g -> entry_is priority label action e.2 = false
  end.
Proof.
  revert s. induction g as [|y g IH]; intros s; cbn [scan_peers].
  - split; [done|]. by intros e He%elem_of_nil.
  - set (s1 := match action with HELPER_FINDLABEL => _ | _ => s end).
    assert (same_but_status s s1) as H1.
    { unfold s1. destruct action; try done. apply raise_same. }
    destruct (entry_is priority label action y.2) eqn:E.
    { split; [by eapply same_trans|]. split; [left|done]. }
    specialize (IH s1). destruct (scan_peers priority label action g s1) as [[e|] s'].
    + destruct IH as (H2 & He & ?). split; [by eapply same_trans|]. split; [by right|done].
    + destruct IH as (H2 & He). split; [by eapply same_trans|]. intros e Hin.
      apply elem_of_cons in Hin as [->|Hin]; auto.
Qed.

Lemma scan_exts_spec gs early s :
  let '(o, early', s') := scan_exts num priority label callerid action gs early s in
  same_but_status s s' /\ (action <> HELPER_MATCHMORE -> early' = early) /\
  match o with
  | Some e => hit gs e /\ sr_status s' = STATUS_SUCCESS
  | None => forall e, ~ hit gs e
  end.
Proof.
  assert (forall g gs e, hit gs e -> hit (g :: gs) e) as Hmono.
  { intros g l e (y & k & Hin & ?). exists y, k. split; [by right|done]. }
  revert early s. induction gs as [|g gs IH]; intros early s; cbn [scan_exts].
  { split; [done|]. split; [done|]. intros e (y & k & Hin & _). by apply elem_of_nil in Hin. }
  destruct g as [|y k].
  { specialize (IH early s). destruct (scan_exts _ _ _ _ _ gs early s) as [[[e|] e'] s'];
      destruct IH as (? & ? & H); (split; [done|]); (split; [done|]).
    - destruct H. auto.
    - intros e (y & k & Hin & Hr). apply elem_of_cons in Hin as [?|Hin]; [done|].
      apply (H e). by exists y, k. }
  set (w := if cid_ok callerid y.2 then _ else _).
  assert (w.1 = cid_ok callerid y.2 && interesting (cw_extension_pattern_match num (x_exten y.2)) /\
          (action <> HELPER_MATCHMORE -> w.2 = early)) as [Hw1 Hw2].
  { unfold w. destruct (cid_ok callerid y.2); [|done]. rewrite wanted_interesting. split; [done|].
    unfold wanted. by destruct action. }
  destruct w as [res early1]. simpl in Hw1, Hw2.
  assert (forall e, hit ((y :: k) :: gs) e ->
            (res = true /\ e ∈ y :: k /\ entry_is priority label action e.2 = true) \/ hit gs e) as Hinv.
  { intros e (y' & k' & Hin & He & Hc & Hm & Hp). apply elem_of_cons in Hin as [[= -> ->]|Hin].
    - left. split; [|done]. by rewrite Hw1, Hc, Hm.
    - right. by exists y', k'. }
  assert (forall s0, same_but_status s s0 ->
    let '(o, early', s') := scan_exts num priority label callerid action gs early1 s0 in
    (forall e, e ∈ y :: k -> res = true -> entry_is priority label action e.2 = false) ->
    same_but_status s s' /\ (action <> HELPER_MATCHMORE -> early' = early) /\
    match o with
    | Some e => hit ((y :: k) :: gs) e /\ sr_status s' = STATUS_SUCCESS
    | None => forall e, ~ hit ((y :: k) :: gs) e
    end) as Hrest.
  { intros s0 Hs0. specialize (IH early1 s0).
    destruct (scan_exts _ _ _ _ _ gs early1 s0) as [[[e|] e'] s'];
      destruct IH as (Hs & He & H); intros Hno; (split; [by eapply same_trans|]);
      (split; [intros Ha; rewrite He, Hw2 by done; done|]).
    - destruct H. auto.
    - intros e Hh. destruct (Hinv e Hh) as [(Hr & Hin & Hp)|Hh']; [|by apply (H e)].
      by rewrite (Hno e Hin Hr) in Hp. }
  destruct res.
  - pose proof (scan_peers_spec (y :: k) (raise STATUS_NO_PRIORITY s)) as Hp.
    destruct (scan_peers priority label action (y :: k) _) as [[e|] s0]; destruct Hp as [Hs Hp].
    + split; [eapply same_trans; [apply raise_same|exact Hs]|]. split; [done|].
      destruct Hp as (Hin & Hpe & Hst). split; [|done]. exists y, k.
      symmetry in Hw1. apply andb_true_iff in Hw1 as [Hc Hm]. split_and!; [left|done..].
    + specialize (Hrest s0 ltac:(eapply same_trans; [apply raise_same|exact Hs])).
      destruct (scan_exts _ _ _ _ _ gs early1 s0) as [[o e'] s']. apply Hrest. auto.
  - specialize (Hrest s ltac:(done)).
    destruct (scan_exts _ _ _ _ _ gs early1 s) as [[o e'] s']. apply Hrest. done.
Qed.

(** ** The search ends *)

(** The stack only grows. *)
Definition grows (s s' : search) : Prop := exists new, sr_stack s' = sr_stack s ++ new.

Lemma grows_refl s s' : sr_stack s' = sr_stack s -> grows s s'.
Proof. intros H. exists []. by rewrite app_nil_r. Qed.

Lemma grows_trans s1 s2 s3 : grows s1 s2 -> grows s2 s3 -> grows s1 s3.
Proof. intros [n H1] [m H2]. exists (n ++ m). by rewrite H2, H1, app_assoc. Qed.

Lemma grows_length s s' : grows s s' -> (length (sr_stack s) <= length (sr_stack s'))%nat.
Proof. intros [n H]. rewrite H, length_app. lia. Qed.

Definition returns (o : option (option entry * search)) (s : search) : Prop :=
  exists e s', o = Some (e, s') /\ grows s s'.

Lemma scan_includes_returns rec l s n :
  (forall c s, (n <= length (sr_stack s))%nat -> returns (rec (Some c) s) s) ->
  (n <= length (sr_stack s))%nat -> returns (scan_includes now rec l s) s.
Proof.
  intros Hrec. revert s. induction l as [|i l IH]; intros s Hn; cbn [scan_includes].
  - exists None, s. split; [done|]. by apply grows_refl.
  - destruct (include_valid now i); [|by apply IH].
    destruct (Hrec (i_rname i) s Hn) as (e & s' & -> & Hg). cbn [mbind option_bind].
    destruct e; [by eexists _, _|]. destruct (sr_swo s'); [by eexists _, _|].
    destruct (IH s') as (e & s2 & -> & Hg2); [apply grows_length in Hg; lia|].
    eexists _, _. split; [done|]. by eapply grows_trans.
Qed.

Lemma start_stack s : sr_stack (start s) = sr_stack s.
Proof. unfold start. destruct (sr_stack s) eqn:E; [|done]. simpl. done. Qed.

(** Every context of the dialplan can be read. *)
Definition readable (c : cw_context) : Prop := is_Some (extensions (c_exts c)).

Lemma scan_context_returns rec context tmp s :
  readable tmp ->
  (forall c s', (S (length (sr_stack s)) <= length (sr_stack s'))%nat -> returns (rec (Some c) s') s') ->
  returns (scan_ctx rec context tmp s) s.
Proof.
  intros [gs Hgs] Hrec. unfold scan_context. rewrite Hgs. cbn [mbind option_bind].
  pose proof (scan_exts_spec gs false (raise STATUS_NO_EXTENSION s)) as Hs.
  destruct (scan_exts _ _ _ _ _ gs false _) as [[o e'] s1]. destruct Hs as ((Hst & _) & _ & _).
  assert (sr_stack s1 = sr_stack s) as H1.
  { rewrite Hst. apply (raise_same STATUS_NO_EXTENSION s). }
  destruct o as [e|]; [eexists _, _; split; [done|by apply grows_refl]|].
  destruct e'; [eexists _, _; split; [done|by apply grows_refl]|].
  destruct (scan_switches _ _ _ _ _ _ _ _) as [[asw data]|];
    [eexists _, _; split; [done|by apply grows_refl]|].
  edestruct (scan_includes_returns rec (c_includes tmp)) as (o & s2 & -> & Hg);
    [exact Hrec|simpl; rewrite H1, length_app; simpl; lia|].
  eexists _, _. split; [done|]. destruct Hg as [new Hg]. simpl in Hg. rewrite H1, <- app_assoc in Hg.
  by eexists.
Qed.

Section dialplan.
Context (d : list cw_context).
Hypothesis Hd : Forall readable d.

Lemma find_hash_readable hash c : find_hash hash d = Some c -> readable c.
Proof.
  intros H. pose proof (find_hash_spec hash d) as Hs. rewrite H in Hs. destruct Hs as [Hin _].
  by eapply Forall_forall in Hd.
Qed.

Lemma find_ext_returns bypass :
  (forall c, bypass = Some c -> readable c) -> forall fuel context s,
  (0 < fuel)%nat -> (CW_PBX_MAX_STACK < fuel + length (sr_stack s))%nat ->
  null_deref context (sr_stack s) = false -> returns (find_ext fuel d bypass context s) s.
Proof.
  intros Hb fuel. induction fuel as [|fuel IH]; intros context s H0 Hf Hnull; [lia|].
  cbn [pbx_find_extension]. rewrite !start_stack, Hnull.
  assert (returns (Some (None, start s)) s) as Hstop.
  { eexists _, _. split; [done|]. apply grows_refl, start_stack. }
  destruct (Nat.leb_spec CW_PBX_MAX_STACK (length (sr_stack s))); [done|].
  destruct (visited context (sr_stack s)); [done|].
  assert (forall tmp, readable tmp -> returns (scan_ctx (find_ext fuel d bypass) context tmp (start s)) s)
    as Hscan.
  { intros tmp Ht. destruct (scan_context_returns (find_ext fuel d bypass) context tmp (start s) Ht)
      as (e & s' & -> & Hg).
    - rewrite start_stack. intros c s' Hl. apply IH; [lia|lia|]. by destruct (sr_stack s').
    - eexists _, _. split; [done|]. destruct Hg as [n Hg]. rewrite start_stack in Hg. by exists n. }
  destruct bypass as [tmp|]; [by apply Hscan, Hb|].
  destruct (find_hash (cw_hash_string context) d) as [tmp|] eqn:Ef; [|done].
  apply Hscan. by eapply find_hash_readable.
Qed.

(** ** What is found *)

(** The contexts that can be reached through includes that are valid now. *)
Inductive reachable (context : option string) : cw_context -> Prop :=
  | reach_start c : find_hash (cw_hash_string context) d = Some c -> reachable context c
  | reach_include c i c' :
    reachable context c -> i ∈ c_includes c -> include_valid now i = true ->
    find_hash (cw_hash_string (Some (i_rname i))) d = Some c' -> reachable context c'.

Lemma reachable_trans context c i c' :
  find_hash (cw_hash_string context) d = Some c -> i ∈ c_includes c -> include_valid now i = true ->
  reachable (Some (i_rname i)) c' -> reachable context c'.
Proof.
  intros Hc Hi Hv H. induction H as [c1 H|c1 j c2 _ IH Hj Hv' H].
  - eapply reach_include; [by apply reach_start|done..].
  - by eapply reach_include.
Qed.

(** What the search hands out is such an entry, or a switch of such a context
    that claimed the number. *)
Definition claimed (context : option string) (c : cw_context) (sw : cw_switch) (data : string) : Prop :=
  scan_switches switches substitute num priority callerid action context (c_alts c) = Some (sw, data).

Definition good (context : option string) (e : option entry) (s' : search) : Prop :=
  match e with
  | Some e => exists c gs, reachable context c /\ extensions (c_exts c) = Some gs /\ hit gs e /\
                sr_status s' = STATUS_SUCCESS
  | None => forall sw, sr_swo s' = Some sw ->
              exists c ctx data, reachable context c /\ claimed ctx c sw data /\ sr_data s' = Some data
  end.

Lemma scan_includes_good rec context c l s e s' :
  find_hash (cw_hash_string context) d = Some c -> (forall i, i ∈ l -> i ∈ c_includes c) ->
  (forall r s e s', sr_swo s = None -> rec (Some r) s = Some (e, s') -> good (Some r) e s') ->
  sr_swo s = None -> scan_includes now rec l s = Some (e, s') -> good context e s'.
Proof.
  intros Hc Hl Hrec. revert s. induction l as [|i l IH]; intros s Hs; cbn [scan_includes].
  - intros [= <- <-]. simpl. by rewrite Hs.
  - destruct (include_valid now i) eqn:Hv; [|apply IH; [|done]; intros; apply Hl; by right].
    destruct (rec (Some (i_rname i)) s) as [[e1 s1]|] eqn:Er; cbn [mbind option_bind]; [|done].
    specialize (Hrec _ _ _ _ Hs Er). assert (i ∈ c_includes c) as Hi by (apply Hl; left).
    destruct e1 as [e1|].
    + intros [= <- <-]. destruct Hrec as (c' & gs & Hr & H). exists c', gs.
      split; [|done]. by eapply reachable_trans.
    + destruct (sr_swo s1) as [sw|] eqn:Esw.
      * intros [= <- <-] sw'. rewrite Esw. intros [= <-].
        destruct (Hrec sw Esw) as (c' & ctx & data & Hr & H). exists c', ctx, data.
        split; [|done]. by eapply reachable_trans.
      * apply IH; [|done]. intros; apply Hl; by right.
Qed.

Lemma start_swo s : sr_stack s <> [] -> sr_swo (start s) = sr_swo s.
Proof. unfold start. by destruct (sr_stack s). Qed.

Lemma find_ext_good fuel context s e s' :
  (sr_stack s = [] \/ sr_swo s = None) ->
  find_ext fuel d None context s = Some (e, s') -> good context e s'.
Proof.
  revert context s e s'. induction fuel as [|fuel IH]; intros context s e s' Hs; [done|].
  cbn [pbx_find_extension].
  assert (sr_swo (start s) = None) as Hs0.
  { unfold start. destruct (sr_stack s); [done|]. by destruct Hs. }
  assert (Some (None, start s) = Some (e, s') -> good context e s') as Hstop.
  { intros [= <- <-]. simpl. by rewrite Hs0. }
  destruct (_ <=? _)%nat; [done|]. destruct (null_deref _ _); [done|].
  destruct (visited _ _); [done|].
  destruct (find_hash (cw_hash_string context) d) as [tmp|] eqn:Ef; [|done]. clear Hstop.
  unfold scan_context. destruct (extensions (c_exts tmp)) as [gs|] eqn:Eg; cbn [mbind option_bind]; [|done].
  pose proof (scan_exts_spec gs false (raise STATUS_NO_EXTENSION (start s))) as Hx.
  destruct (scan_exts _ _ _ _ _ gs false _) as [[o e'] s1]. destruct Hx as (Hsame & _ & Ho).
  assert (sr_swo s1 = None) as Hs1.
  { destruct Hsame as (_ & -> & _). by destruct (raise_same STATUS_NO_EXTENSION (start s)) as (_ & -> & _). }
  destruct o as [x|].
  { intros [= <- <-]. destruct Ho. exists tmp, gs. split_and!; [by apply reach_start|done..]. }
  destruct e'; [intros [= <- <-]; simpl; by rewrite Hs1|].
  destruct (scan_switches _ _ _ _ _ _ _ _) as [[asw data]|] eqn:Esw.
  { intros [= <- <-]. simpl. intros sw [= <-]. exists tmp, context, data.
    split_and!; [by apply reach_start|done|done]. }
  apply (scan_includes_good _ context tmp); [done|done| |done].
  intros r s2 e2 s3 Hs2. apply IH. by right.
Qed.

(** ** Nothing is missed *)

Section complete.
Context (names : list string).
Hypothesis Haction : action <> HELPER_MATCHMORE.
Hypothesis Hhash : forall c, c ∈ d -> c_hash c = cw_hash_string (Some (c_name c)).
Hypothesis Hnames : forall c, c ∈ d -> c_name c ∈ names /\
  forall i, i ∈ c_includes c -> i_rname i ∈ names.
(** The hash and the comparison of names agree on the names in use. *)
Hypothesis Hagree : forall n m, n ∈ names -> m ∈ names ->
  cw_hash_string (Some n) = cw_hash_string (Some m) <-> strcaseeq n m = true.
Hypothesis Hsmall : (length d < CW_PBX_MAX_STACK)%nat.

(** A name on the stack whose context was searched to the end. *)
Definition searched (stack : list string) (n : string) : Prop :=
  forall c, find_hash (cw_hash_string (Some n)) d = Some c ->
    (forall gs e, extensions (c_exts c) = Some gs -> ~ hit gs e) /\
    forall i, i ∈ c_includes c -> include_valid now i = true ->
      visited (Some (i_rname i)) stack = true \/
      find_hash (cw_hash_string (Some (i_rname i))) d = None.

Lemma visited_app context stack new :
  visited context stack = true -> visited context (stack ++ new) = true.
Proof. destruct context; [|done]. simpl. rewrite existsb_app. by intros ->. Qed.

Lemma searched_app stack new n : searched stack n -> searched (stack ++ new) n.
Proof.
  intros H c Hc. destruct (H c Hc) as [H1 H2]. split; [done|]. intros i Hi Hv.
  destruct (H2 i Hi Hv) as [?|?]; [left; by apply visited_app|by right].
Qed.

Record stack_ok (stack : list string) : Prop := {
  so_nodup : NoDup stack;
  so_names : forall n, n ∈ stack -> n ∈ c_name <$> d;
}.

Lemma stack_small stack : stack_ok stack -> (length stack <= length d)%nat.
Proof.
  intros [Hn Hs]. rewrite <- (length_fmap c_name d).
  apply submseteq_length, NoDup_submseteq; done.
Qed.

(** A search that finds nothing has searched what it pushed. *)
Definition exhausted (context : option string) (s s' : search) : Prop :=
  sr_swo s' = None /\ stack_ok (sr_stack s') /\
  exists new, sr_stack s' = sr_stack s ++ new /\ Forall (searched (sr_stack s')) new /\
    (visited context (sr_stack s') = true \/ find_hash (cw_hash_string context) d = None).

Lemma scan_includes_exhausted rec l s s' :
  (forall i, i ∈ l -> i_rname i ∈ names) ->
  (forall r s s', r ∈ names -> sr_swo s = None -> stack_ok (sr_stack s) -> sr_stack s <> [] ->
     rec (Some r) s = Some (None, s') -> sr_swo s' = None -> exhausted (Some r) s s') ->
  sr_swo s = None -> stack_ok (sr_stack s) -> sr_stack s <> [] ->
  scan_includes now rec l s = Some (None, s') -> sr_swo s' = None ->
  stack_ok (sr_stack s') /\
  exists new, sr_stack s' = sr_stack s ++ new /\ Forall (searched (sr_stack s')) new /\
    forall i, i ∈ l -> include_valid now i = true ->
      visited (Some (i_rname i)) (sr_stack s') = true \/
      find_hash (cw_hash_string (Some (i_rname i))) d = None.
Proof.
  intros Hl Hrec. revert s. induction l as [|i l IH]; intros s Hs Hok Hne; cbn [scan_includes].
  - intros [= <-] _. split; [done|]. exists []. rewrite app_nil_r.
    split_and!; [done|constructor|]. by intros i Hi%elem_of_nil.
  - assert (forall j, j ∈ l -> i_rname j ∈ names) as Hl' by (intros; apply Hl; by right).
    destruct (include_valid now i) eqn:Hv.
    + destruct (rec (Some (i_rname i)) s) as [[[e1|] s1]|] eqn:Er; cbn [mbind option_bind]; try done.
      destruct (sr_swo s1) as [sw|] eqn:Esw; [intros [= <-]; by rewrite Esw|].
      destruct (Hrec (i_rname i) s s1) as (_ & Hok1 & new1 & E1 & F1 & V1); [apply Hl; left|done..|].
      intros H Hs'. destruct (IH Hl' s1) as (Hok' & new2 & E2 & F2 & V2); [done|done| |done|done|].
      { rewrite E1. by destruct (sr_stack s). }
      split; [done|]. exists (new1 ++ new2). rewrite E2, E1, app_assoc. split; [done|].
      rewrite E2, E1 in F2, V2. rewrite E1 in F1, V1. split.
      * apply Forall_app. split; [|done]. eapply Forall_impl; [exact F1|].
        intros n. apply searched_app.
      * intros j Hj Hvj. apply elem_of_cons in Hj as [->|Hj]; [|by apply V2].
        destruct V1 as [V1|V1]; [left; by apply visited_app|by right].
    + intros H Hs'. destruct (IH Hl' s Hs Hok Hne H Hs') as (Hok' & new & E & F & V).
      split; [done|]. exists new. split_and!; [done|done|]. intros j Hj Hvj.
      apply elem_of_cons in Hj as [->|Hj]; [by rewrite Hv in Hvj|by apply V].
Qed.

Lemma find_hash_name context c n :
  n ∈ names -> context = Some n -> find_hash (cw_hash_string context) d = Some c ->
  c ∈ d /\ strcaseeq (c_name c) n = true /\ find_hash (cw_hash_string (Some (c_name c))) d = Some c.
Proof.
  intros Hn -> H. pose proof (find_hash_spec (cw_hash_string (Some n)) d) as Hs. rewrite H in Hs.
  destruct Hs as [Hin Hh]. split; [done|]. rewrite (Hhash c Hin) in Hh.
  split; [|by rewrite Hh]. apply Hagree; [by apply Hnames|done|done].
Qed.

Lemma find_ext_exhausted fuel n s s' :
  n ∈ names -> (sr_stack s = [] \/ sr_swo s = None) -> stack_ok (sr_stack s) ->
  find_ext fuel d None (Some n) s = Some (None, s') -> sr_swo s' = None -> exhausted (Some n) s s'.
Proof.
  revert n s s'. induction fuel as [|fuel IH]; intros n s s' Hn Hs Hok; [done|].
  cbn [pbx_find_extension]. rewrite !start_stack. pose proof (stack_small _ Hok) as Hsm.
  destruct (Nat.leb_spec CW_PBX_MAX_STACK (length (sr_stack s))); [lia|].
  assert (null_deref (Some n) (sr_stack s) = false) as -> by by destruct (sr_stack s).
  assert (sr_swo (start s) = None) as Hs0.
  { unfold start. destruct (sr_stack s); [done|]. by destruct Hs. }
  assert (visited (Some n) (sr_stack s) = true \/ find_hash (cw_hash_string (Some n)) d = None ->
          exhausted (Some n) s (start s)) as Hstop.
  { intros Hv. unfold exhausted. rewrite start_stack. split_and!; [done|done|].
    exists []. rewrite app_nil_r. by split_and!. }
  destruct (visited (Some n) (sr_stack s)) eqn:Hv; [intros [= <-] _; by apply Hstop; left|].
  destruct (find_hash (cw_hash_string (Some n)) d) as [tmp|] eqn:Ef;
    [|intros [= <-] _; by apply Hstop; right]. clear Hstop.
  destruct (find_hash_name (Some n) tmp n Hn eq_refl Ef) as (Hin & Hcase & Hfn).
  unfold scan_context. destruct (extensions (c_exts tmp)) as [gs|] eqn:Eg; cbn [mbind option_bind]; [|done].
  pose proof (scan_exts_spec gs false (raise STATUS_NO_EXTENSION (start s))) as Hx.
  destruct (scan_exts _ _ _ _ _ gs false _) as [[[e|] e'] s1]; [done|].
  destruct Hx as ((Hst & Hsw & _) & He & Ho). rewrite (He Haction).
  destruct (raise_same STATUS_NO_EXTENSION (start s)) as (Hst0 & Hsw0 & _).
  rewrite Hst0, start_stack in Hst. rewrite Hsw0, Hs0 in Hsw.
  destruct (scan_switches _ _ _ _ _ _ _ _) as [[asw data]|]; [by intros [= <-]|].
  intros Hinc Hs'. apply scan_includes_exhausted in Hinc as (Hok' & new & E & F & V); cbn in *.
  - rewrite Hst in *. split_and!; [done|done|]. exists (c_name tmp :: new).
    rewrite <- app_assoc in E. split_and!; [done| |].
    + constructor; [|done]. intros c Hc. rewrite Hfn in Hc. injection Hc as <-.
      split; [|done]. intros gs' e Hg. rewrite Eg in Hg. injection Hg as <-. apply Ho.
    + left. simpl. rewrite E. apply existsb_exists. exists (c_name tmp). split; [|done].
      apply list_elem_of_In. mem.
  - intros i Hi. by apply (Hnames tmp Hin).
  - intros r s2 s3 Hr Hs2 Hok2 _. apply IH; [done|by right|done].
  - done.
  - rewrite Hst. destruct Hok as [Hnd Hsub]. split.
    + apply NoDup_app. split_and!; [done| |apply NoDup_singleton]. intros m Hm Hm'.
      apply list_elem_of_singleton in Hm' as ->. apply not_true_iff_false in Hv.
      apply Hv, existsb_exists.
      exists (c_name tmp). split; [by apply list_elem_of_In|done].
    + intros m Hm. apply elem_of_app in Hm as [Hm|Hm]; [auto|].
      apply list_elem_of_singleton in Hm as ->. apply list_elem_of_fmap. by exists tmp.
  - by destruct (sr_stack s1).
  - done.
Qed.

(** All that can be reached has been searched. *)
Lemma exhausted_all n s' c :
  n ∈ names -> exhausted (Some n) no_search s' -> reachable (Some n) c ->
  exists m, m ∈ sr_stack s' /\ find_hash (cw_hash_string (Some m)) d = Some c.
Proof.
  intros Hn (_ & Hok & new & E & F & V) H. simpl in E. rewrite <- E in F.
  assert (forall r c, r ∈ names -> find_hash (cw_hash_string (Some r)) d = Some c ->
            visited (Some r) (sr_stack s') = true \/ find_hash (cw_hash_string (Some r)) d = None ->
            exists m, m ∈ sr_stack s' /\ find_hash (cw_hash_string (Some m)) d = Some c) as Hvis.
  { intros r c0 Hr Hc0 [Hv|Hv]; [|by rewrite Hv in Hc0].
    apply existsb_exists in Hv as (m & Hm & Hcase). apply list_elem_of_In in Hm.
    exists m. split; [done|]. rewrite <- Hc0. f_equal. apply Hagree; [|done|done].
    pose proof (so_names _ Hok m Hm) as Hmn. apply list_elem_of_fmap in Hmn as (c1 & -> & Hc1).
    by apply Hnames. }
  induction H as [c H|c i c' _ (m & Hm & Hc) Hi Hv Hc'].
  - by apply (Hvis n).
  - pose proof (proj1 (Forall_forall _ _) F m Hm c Hc) as [_ Hinc]. apply (Hvis (i_rname i)).
    + pose proof (find_hash_spec (cw_hash_string (Some m)) d) as Hs. rewrite Hc in Hs.
      destruct Hs as [Hin _]. by apply (Hnames c Hin).
    + done.
    + by apply Hinc.
Qed.

End complete.

End dialplan.

End theory.

(** ** The theorems *)

Lemma wf_readable c : wf_context c -> readable c.
Proof. intros [_ (gs & Hs & _) _ _ _]. exists gs. by apply extensions_shape. Qed.

Lemma find_returns switches substitute now num priority label callerid action d bypass context :
  Forall wf_context d -> (forall c, bypass = Some c -> wf_context c) ->
  is_Some (find switches substitute now num priority label callerid action d bypass context).
Proof.
  intros Hd Hb. unfold find.
  destruct (find_ext_returns switches substitute now num priority label callerid action d
    ltac:(eapply Forall_impl; [exact Hd|apply wf_readable]) bypass
    ltac:(intros c Hc; by apply wf_readable, Hb) (S CW_PBX_MAX_STACK) context no_search)
    as (e & s' & -> & _); [lia|unfold CW_PBX_MAX_STACK; simpl; lia|by destruct context|by eexists].
Qed.

(** C2: Every search ends: with any includes, cyclic ones as well, with any
    switches and for every action, the helper behind exists, canmatch,
    matchmore, findlabel and exec comes to a result on a well-formed dialplan,
    without a bad memory access and within the 128 levels of the stack. *)
Theorem extension_helper_returns switches substitute now hash_app apps d lock con context num
    priority label callerid action :
  Forall wf_context d -> (forall c, con = Some c -> wf_context c) ->
  exists r, pbx_extension_helper switches substitute now hash_app apps d lock con context num
              priority label callerid action = Some r.
Proof.
  intros Hd Hc. unfold pbx_extension_helper. destruct lock; cbn [negb]; [|by eexists].
  destruct (find_returns switches substitute now num priority label callerid action d con context
    Hd Hc) as [[e s'] ->]. cbn [mbind option_bind]. by eexists.
Qed.

(** The names the search can meet. *)
Definition used_names (start : string) (d : list cw_context) : list string :=
  start :: (c_name <$> d) ++ (d ≫= fun c => i_rname <$> c_includes c).

(** Two names have the same hash exactly when they are the same up to case. *)
Definition names_agree (l : list string) : Prop :=
  forall n m, n ∈ l -> m ∈ l ->
    cw_hash_string (Some n) = cw_hash_string (Some m) <-> strcaseeq n m = true.

(** C1: The search decides: when the names in use (where it starts, of contexts and of
    includes) have the same hash exactly if they are the same up to case, when there are
    fewer than 128 contexts, as many as the stack has room for, and when it is not asked
    whether more digits could match (MATCHMORE): it hands out either an entry with the
    priority (or label) asked for, of an extension that matches, in a context reached
    through includes that are valid now; or a switch of such a context that claims the
    number; or nothing, and then no context that can be reached has such an entry.
    Names that differ in case only break it: [find_skips_case_variant]. *)
Theorem find_extension_decides switches substitute now num priority label callerid action d start :
  Forall wf_context d -> names_agree (used_names start d) ->
  (length d < CW_PBX_MAX_STACK)%nat -> action <> HELPER_MATCHMORE ->
  exists o s',
    find switches substitute now num priority label callerid action d None (Some start) = Some (o, s') /\
    match o, sr_swo s' with
    | Some e, _ =>
      exists c gs, reachable now d (Some start) c /\ extensions (c_exts c) = Some gs /\
        hit num priority label callerid action gs e
    | None, Some sw =>
      exists c ctx data, reachable now d (Some start) c /\
        claimed switches substitute num priority callerid action ctx c sw data
    | None, None =>
      forall c gs e, reachable now d (Some start) c -> extensions (c_exts c) = Some gs ->
        ~ hit num priority label callerid action gs e
    end.
Proof.
  intros Hd Ha Hl Hact.
  destruct (find_returns switches substitute now num priority label callerid action d None
    (Some start) Hd ltac:(done)) as [[o s'] E].
  exists o, s'. split; [done|]. unfold find in E.
  pose proof (find_ext_good switches substitute now num priority label callerid action d
    _ _ no_search o s' (or_introl eq_refl) E) as Hg.
  destruct o as [e|]; [by destruct Hg as (c & gs & ? & ? & ? & _); eexists _, _|].
  destruct (sr_swo s') as [sw|] eqn:Esw.
  { destruct (Hg sw Esw) as (c & ctx & data & ? & ? & _). by eexists _, _, _. }
  intros c gs e Hr Hgs. assert (Hn : forall c, c ∈ d -> c_name c ∈ used_names start d /\
    forall i, i ∈ c_includes c -> i_rname i ∈ used_names start d).
  { intros c0 Hc0. unfold used_names. split.
    - right. apply elem_of_app. left. apply list_elem_of_fmap. by exists c0.
    - intros i Hi. right. apply elem_of_app. right. apply list_elem_of_bind. exists c0.
      split; [|done]. apply list_elem_of_fmap. by exists i. }
  assert (Hh : forall c, c ∈ d -> c_hash c = cw_hash_string (Some (c_name c))).
  { intros c0 Hc0. eapply Forall_forall in Hd; [|exact Hc0]. apply Hd. }
  assert (start ∈ used_names start d) as Hs by left.
  pose proof (find_ext_exhausted switches substitute now num priority label callerid action d
    _ Hact Hh Hn Ha Hl _ start no_search s' Hs (or_introl eq_refl)
    ltac:(split; [constructor|by intros n ?%elem_of_nil]) E Esw) as Hex.
  destruct (exhausted_all now num priority label callerid action d _ Hn Ha start s' c Hs Hex Hr)
    as (m & Hm & Hc).
  destruct Hex as (_ & _ & new & En & F & _). simpl in En. rewrite <- En in F.
  eapply Forall_forall in F; [|exact Hm]. by apply (F c Hc).
Qed.

(** An example: "default" includes "sales" and itself. *)
Definition plain_include (name : string) : cw_include :=
  {| i_name := name; i_rname := name; i_registrar := "cfg"; i_hastime := false;
     i_timing := no_timing |}.

Definition with_includes (name : string) (l : list string) : cw_context :=
  (new_context name "cfg") <| c_includes := plain_include <$> l |>.

Definition sales_plan : list cw_context :=
  [with_includes "default" ["default"; "sales"]; (new_context "sales" "cfg") <| c_exts := demo |>].

Lemma new_context_with_wf name exts gs :
  shape exts gs -> ordered gs -> wf_context ((new_context name "cfg") <| c_exts := exts |>).
Proof. intros Hs Ho. split; simpl; [done| |done..]. by exists gs. Qed.

Lemma sales_plan_wf : Forall wf_context sales_plan.
Proof.
  constructor; [|constructor; [|constructor]].
  - split; simpl; [done| |done..]. exists []. split; [apply empty_shape|done].
  - eapply new_context_with_wf; apply demo_shape.
Qed.

Lemma names_agree_check l :
  forallb (fun n => forallb (fun m => eqb (cw_hash_string (Some n) =? cw_hash_string (Some m))
                                        (strcaseeq n m)) l) l = true -> names_agree l.
Proof.
  intros H n m Hn Hm. rewrite forallb_forall in H. specialize (H n (proj1 (list_elem_of_In _ _) Hn)).
  rewrite forallb_forall in H. specialize (H m (proj1 (list_elem_of_In _ _) Hm)).
  apply eqb_prop in H. rewrite <- H. apply iff_sym, Z.eqb_eq.
Qed.

Lemma find_extension_decides_witness :
  exists o s', find [] id some_evening "100" 2 None None HELPER_EXISTS sales_plan None
                 (Some "default"%string) = Some (o, s') /\
    match o with
    | Some e => exists c gs, reachable some_evening sales_plan (Some "default"%string) c /\
                  extensions (c_exts c) = Some gs /\ hit "100" 2 None None HELPER_EXISTS gs e
    | None => False
    end.
Proof.
  destruct (find_extension_decides [] id some_evening "100" 2 None None HELPER_EXISTS sales_plan
    "default") as (o & s' & E & H).
  - apply sales_plan_wf.
  - apply names_agree_check. vm_compute. reflexivity.
  - unfold CW_PBX_MAX_STACK. simpl. lia.
  - discriminate.
  - exists o, s'. split; [exact E|]. vm_compute in E. injection E as <- <-. exact H.
Defined.

Lemma extension_helper_returns_witness :
  exists r, pbx_extension_helper [] id some_evening (fun _ => 0) [] sales_plan true None
              (Some "default"%string) "999" 1 None None HELPER_MATCHMORE = Some r.
Proof. apply extension_helper_returns; [apply sales_plan_wf|discriminate]. Defined.

(** ** A context handed in *)

Lemma scan_includes_ext now rec rec' l s :
  (forall c s, rec c s = rec' c s) -> scan_includes now rec l s = scan_includes now rec' l s.
Proof.
  intros H. revert s. induction l as [|i l IH]; intros s; simpl; [done|].
  destruct (include_valid now i); [|done]. rewrite H.
  destruct (rec' (Some (i_rname i)) s) as [[[e|] s']|]; simpl; try done.
  by destruct (sr_swo s').
Qed.

Lemma find_ext_bypass switches substitute now num priority label callerid action con d d' fuel
    context s :
  pbx_find_extension switches substitute now num priority label callerid action fuel d (Some con)
    context s =
  pbx_find_extension switches substitute now num priority label callerid action fuel d' (Some con)
    context s.
Proof.
  revert context s. induction fuel as [|fuel IH]; intros context s; [done|].
  cbn [pbx_find_extension]. repeat (case_if; [done|]). unfold scan_context.
  destruct (extensions (c_exts con)) as [gs|]; cbn [mbind option_bind]; [|done].
  destruct (scan_exts _ _ _ _ _ gs false _) as [[[e|] []] s1]; try done.
  destruct (scan_switches _ _ _ _ _ _ _ _) as [[asw data]|]; [done|].
  by apply scan_includes_ext.
Qed.

(** A search for a label in a given context never looks into the contexts it
    includes: the answer is the same whatever other contexts exist, since each
    level of the search takes the given context again. *)
Theorem findlabel2_ignores_includes switches substitute now hash_app apps d d' lock con num label
    callerid :
  cw_findlabel_extension2 switches substitute now hash_app apps d lock con num label callerid =
  cw_findlabel_extension2 switches substitute now hash_app apps d' lock con num label callerid.
Proof.
  unfold cw_findlabel_extension2, pbx_extension_helper, find. destruct lock; [|done]. cbn [negb].
  by rewrite (find_ext_bypass _ _ _ _ _ _ _ _ con d d').
Qed.

(** ** Names that differ in case only

    Contexts are found by a hash that tells the cases apart, while the visited
    ones are compared without regard to case: of two included contexts whose
    names differ in case only the second is never searched. *)
Lemma find_skips_case_variant :
  let sales := (new_context "sales" "cfg") <| c_exts := demo |> in
  let d := [with_includes "default" ["Sales"; "office"]; with_includes "office" ["sales"];
            new_context "Sales" "cfg"; sales] in
  Forall wf_context d /\ reachable some_evening d (Some "default"%string) sales /\
  hit "100" 1 None None HELPER_EXISTS demo_groups (1, demo_entry "100" 1 1001) /\
  cw_exists_extension [] id some_evening (fun _ => 0) [] d true "default" "100" 1 None =
    Some (HReturn 0).
Proof.
  cbv zeta. split_and!.
  - repeat constructor; simpl; try done; try (by exists []; split; [apply empty_shape|done]).
    exists demo_groups. apply demo_shape.
  - eapply (reach_include _ _ _ _ (plain_include "sales"));
      [eapply (reach_include _ _ _ _ (plain_include "office")); [by apply reach_start|..]|..];
      [right; left|done|done|left|done|done].
  - eexists _, _. split_and!; [left|left|done|done|done].
  - vm_compute. reflexivity.
Qed.

(** ** What was added is found *)

Lemma on_first_find {R} (f : cw_context -> option (R * cw_context)) hash l r l' :
  on_first f hash l = Some (Some r, l') ->
  exists c c', find_hash hash l = Some c /\ f c = Some (r, c') /\
    (c_hash c' = c_hash c -> find_hash hash l' = Some c').
Proof.
  revert l'. induction l as [|c l IH]; intros l'; simpl; [done|].
  destruct (Z.eqb_spec hash (c_hash c)) as [->|Hne].
  - destruct (f c) as [[r0 c']|] eqn:Ec; simpl; [|done]. intros [= -> <-]. exists c, c'.
    split_and!; [done|done|]. intros H. simpl. rewrite H. by rewrite Z.eqb_refl.
  - destruct (on_first f hash l) as [[o l1]|]; simpl; [|done]. intros [= -> <-].
    destruct (IH l1 eq_refl) as (c0 & c' & ? & ? & Hf). exists c0, c'. split_and!; [done|done|].
    intros Hh. simpl. destruct (Z.eqb_spec hash (c_hash c)); [done|auto].
Qed.

Lemma abs_add_in t extension replace gs gs' destroyed ev :
  abs_add t extension replace gs = Some (gs', destroyed, ev) -> exists g, g ∈ gs' /\ t ∈ g.
Proof.
  revert gs' destroyed ev. induction gs as [|[|y k] gs IH]; intros gs' destroyed ev; cbn [abs_add].
  - intros [= <- <- <-]. exists [t]. split; left.
  - intros [= <- <- <-]. exists [t]. split; left.
  - destruct (ext_cmp y.2 extension t.2).
    + destruct (abs_peers t replace (y :: k)) as [[[g1 d1] ev1]|] eqn:Eg; simpl; [|done].
      intros [= <- <- <-]. exists g1. split; [left|]. by eapply abs_peers_elems.
    + destruct (abs_add t extension replace gs) as [[[gs1 d1] ev1]|]; simpl; [|done].
      intros [= <- <- <-]. destruct (IH _ _ _ eq_refl) as (g & ? & ?). exists g.
      split; [by right|done].
    + intros [= <- <- <-]. exists [t]. split; left.
Qed.

Lemma ordered_group gs g : ordered gs -> g ∈ gs -> exists y k, g = y :: k /\ group_ordered g.
Proof.
  induction gs as [|g0 gs IH]; [by intros _ ?%elem_of_nil|].
  intros [(y & k & -> & Hg & _) Ho] Hin. apply elem_of_cons in Hin as [->|Hin]; eauto.
Qed.

(** Entries with one key have one name, and match callers alike. *)
Lemma key_cmp_name e t : key_cmp e t = Eq -> x_exten e = x_exten t /\ x_matchcid e = x_matchcid t.
Proof.
  unfold key_cmp, ext_cmp. intros H.
  destruct (negb (is_pattern (x_exten e)) && is_pattern (x_exten t)); [done|].
  destruct (is_pattern (x_exten e) && negb (is_pattern (x_exten t))); [done|].
  destruct (strcmp (x_exten e) (x_exten t)) eqn:Es; try done. apply strcmp_eq in Es.
  split; [done|]. by destruct (x_matchcid e), (x_matchcid t).
Qed.

Lemma starts_with_refl s : starts_with s s = true.
Proof. induction s as [|c s IH]; simpl; [done|]. by rewrite char_eqb_refl. Qed.

Lemma literal_exact s :
  is_pattern s = false -> cw_extension_pattern_match s s = EXTENSION_MATCH_EXACT.
Proof.
  intros Hp. destruct s as [|c s]; [done|]. pose proof (pattern_match_total (String c s) (String c s)) as H.
  rewrite pattern_match_literal in H.
  - injection H as <-. unfold literal_match. rewrite Nat.ltb_irrefl, starts_with_refl, Nat.eqb_refl.
    done.
  - intros p' [= -> _]. done.
Qed.

(** A context with a hit of its own is not left without a result. *)
Lemma find_own switches substitute now num priority label callerid action d context c gs e :
  find_hash (cw_hash_string context) d = Some c -> extensions (c_exts c) = Some gs ->
  hit num priority label callerid action gs e ->
  exists e' s', find switches substitute now num priority label callerid action d None context
    = Some (Some e', s') /\ hit num priority label callerid action gs e' /\ sr_found s' = context.
Proof.
  intros Hc Hg Hh. unfold find. cbn [pbx_find_extension start no_search sr_stack upd].
  simpl. assert (visited context [] = false) as -> by by destruct context.
  assert (null_deref context [] = false) as -> by by destruct context.
  rewrite Hc. unfold scan_context. rewrite Hg. cbn [mbind option_bind].
  match goal with |- context [scan_exts _ _ _ _ _ gs false ?s] => set (s0 := s) end.
  pose proof (scan_exts_spec num priority label callerid action gs false s0) as Hx.
  destruct (scan_exts _ _ _ _ _ gs false s0) as [[[e'|] b] s1].
  - destruct Hx as (_ & _ & Hx & _). by eexists _, _.
  - destruct Hx as (_ & _ & Hx). by destruct (Hx e).
Qed.

(** C13: What is added to the dialplan can be dialled: after an extension with a
    plain name was added to a context, for all callers, the context has it for
    every caller, with that priority; adding, ordering, hashing, matching and
    searching fit together. *)
Theorem added_extension_exists switches substitute now hash_app apps dp ta context replace extension
    priority label application data registrar dp' r callerid :
  wf dp -> (forall c, c ∈ contexts dp -> s_heap (c_exts c) !! ta = None) ->
  is_pattern extension = false -> strip_spaces extension = extension ->
  cw_add_extension dp true (Some ta) true context replace extension priority label None application
    data registrar = Some (r, dp') -> xr_ret r = None ->
  cw_exists_extension switches substitute now hash_app apps (contexts dp') true context extension
    priority callerid = Some (HReturn (-1)).
Proof.
  intros [Hw _] Hf Hp Hn H Hr. unfold cw_add_extension, with_context in H. cbn [negb] in H.
  change (contexts (cw_lock_contexts dp)) with (contexts dp) in H.
  destruct (on_first _ _ (contexts dp)) as [[[r0|] l]|] eqn:E; cbn [mbind option_bind] in H;
    [|by injection H as <- <-|done].
  injection H as <- <-. apply on_first_find in E as (c & c' & Hc & Ef & Hc').
  pose proof (find_hash_spec (cw_hash_string (Some context)) (contexts dp)) as Hs.
  rewrite Hc in Hs. destruct Hs as [Hin _]. eapply Forall_forall in Hw; [|exact Hin].
  destruct (wc_exts c Hw) as (gs & Hs & Ho).
  set (t := (ta, new_exten extension priority label None application data registrar)).
  pose proof (add_extension2_ok (c_exts c) gs ta replace extension priority label None application
    data registrar Hs (Hf c Hin)) as Ha. cbv zeta in Ha. fold t in Ha.
  assert (x_exten t.2 = extension) as Hx by (simpl; by rewrite ext_strncpy_all).
  unfold on_exts in Ef.
  destruct (abs_add t extension replace gs) as [[[gs' ds] ev]|] eqn:Ea;
    destruct Ha as (r1 & Hr1 & Hret & Hs' & _); rewrite Hr1 in Ef; cbn [mbind option_bind] in Ef;
    injection Ef as <- <-; simpl in Hr; [|by rewrite Hret in Hr].
  destruct (abs_add_in _ _ _ _ _ _ _ Ea) as (g & Hg & Ht).
  pose proof (abs_add_ordered _ _ _ _ _ _ _ Ea Hx Ho) as Ho'.
  destruct (ordered_group _ _ Ho' Hg) as (y & k & -> & _ & Hk).
  destruct (key_cmp_name _ _ (Hk y t ltac:(left) Ht)) as [Hy1 Hy2]. rewrite Hx in Hy1. simpl in Hy2.
  assert (hit extension priority None callerid HELPER_EXISTS gs' t) as Hh.
  { exists y, k. split_and!; [done|done| | |simpl; apply Z.eqb_refl].
    - unfold cid_ok. by rewrite Hy2.
    - rewrite Hy1, literal_exact by done. done. }
  unfold cw_exists_extension, pbx_extension_helper. cbn [negb].
  match goal with |- context [contexts ?x] => change (contexts x) with l end.
  destruct (find_own switches substitute now extension priority None callerid HELPER_EXISTS l
    (Some context) _ gs' t (Hc' eq_refl) (extensions_shape _ _ Hs') Hh) as (e' & s' & -> & _).
  done.
Qed.

Lemma added_extension_exists_witness :
  exists r dp',
    cw_add_extension demo_plan true (Some 9) true "default" false "4711" 1 None None "Dial" 7 "cfg"
      = Some (r, dp') /\
    cw_exists_extension [] id some_evening (fun _ => 0) [] (contexts dp') true "default" "4711" 1
      (Some "555"%string) = Some (HReturn (-1)).
Proof.
  destruct (cw_add_extension demo_plan true (Some 9) true "default" false "4711" 1 None None "Dial"
    7 "cfg") as [[r dp']|] eqn:E; [|vm_compute in E; discriminate E].
  exists r, dp'. split; [reflexivity|].
  apply (added_extension_exists [] id some_evening (fun _ => 0) [] demo_plan 9 "default" false "4711"
    1 None "Dial" 7 "cfg" dp' r (Some "555"%string)).
  - apply demo_plan_wf.
  - intros c Hc. apply list_elem_of_singleton in Hc as ->. reflexivity.
  - reflexivity.
  - reflexivity.
  - exact E.
  - vm_compute in E. injection E as <- _. reflexivity.
Defined.
