(* ===== verification/Args.v ===== *)
(** * Splitting the arguments of an application ([cw_separate_app_args], corelib/app.c)

    The text of the arguments is cut in place into a vector of pointers.  The
    pieces never overlap, so a piece is a string and the vector a list. *)

From S2P Require Import Prelude CStr.

Definition backslash : ascii := "\".
Definition dquote : ascii := Ascii.ascii_of_nat 34.

Section separate.
Context (delim : ascii).

(** One argument: what is kept of it, and what follows its delimiter ([None] at
    the end of the text).  A backslash takes the next character as it is, quotes
    are dropped, and a delimiter inside quotes or parentheses does not count. *)
Fixpoint scan_arg (parens : Z) (inquote : bool) (next : string) : string * option string :=
  match next with
  | EmptyString => (EmptyString, None)
  | String c s =>
    if char_eqb c backslash then
      match s with
      | EmptyString => (EmptyString, None)
      | String d s => let '(a, r) := scan_arg parens inquote s in (String d a, r)
      end
    else if char_eqb c dquote then scan_arg parens (negb inquote) s
    else if char_eqb c "(" then
      let '(a, r) := scan_arg (parens + 1) inquote s in (String c a, r)
    else if char_eqb c ")" then
      let '(a, r) := scan_arg (parens - 1) inquote s in (String c a, r)
    else if char_eqb c delim && (parens =? 0) && negb inquote then (EmptyString, Some s)
    else let '(a, r) := scan_arg parens inquote s in (String c a, r)
  end.

(** Without the white space at the end. *)
Fixpoint rtrim (s : string) : string :=
  match s with
  | EmptyString => EmptyString
  | String c s =>
    match rtrim s with
    | EmptyString => if isspace c then EmptyString else String c EmptyString
    | t => String c t
    end
  end.

(** The loop; it runs at least once, and at most [max_args] times. *)
Fixpoint args_loop (max_args : nat) (start : string) : list string :=
  let '(a, r) := scan_arg 0 false (skip_spaces start) in
  rtrim a :: match max_args, r with
             | S n, Some s => if (0 <? n)%nat then args_loop n s else []
             | _, _ => []
             end.

(** [buf] is [None] for the NULL pointer; the last of the [max_args] slots is
    kept for the terminating NULL. *)
Definition cw_separate_app_args (buf : option string) (max_args : nat) : list string :=
  match buf with
  | None => []
  | Some s => match args_loop (max_args - 1) s with
              | [EmptyString] => []
              | argv => argv
              end
  end.

(** ** Quoting *)

(** The characters that mean something to the scanner. *)
Definition special (c : ascii) : bool :=
  char_eqb c backslash || char_eqb c dquote || char_eqb c "(" || char_eqb c ")" ||
  char_eqb c delim || isspace c.

Fixpoint escape (s : string) : string :=
  match s with
  | EmptyString => EmptyString
  | String c s => if special c then String backslash (String c (escape s)) else String c (escape s)
  end.

Fixpoint join (l : list string) : string :=
  match l with
  | [] => EmptyString
  | [a] => a
  | a :: l => (a ++ String delim (join l))%string
  end.

(** The delimiters for which quoting works: not the other special ones. *)
Definition delim_ok : Prop :=
  char_eqb delim backslash = false /\ char_eqb delim dquote = false /\
  char_eqb delim "(" = false /\ char_eqb delim ")" = false /\ isspace delim = false.

Lemma special_false c :
  special c = false ->
  char_eqb c backslash = false /\ char_eqb c dquote = false /\ char_eqb c "(" = false /\
  char_eqb c ")" = false /\ char_eqb c delim = false /\ isspace c = false.
Proof. unfold special. intros H. b2p. by split_and!. Qed.

(** What is read of a quoted text is the text. *)
Lemma scan_escape s rest :
  delim_ok ->
  scan_arg 0 false (escape s ++ rest)%string =
  let '(a, r) := scan_arg 0 false rest in ((s ++ a)%string, r).
Proof.
  intros Hd. induction s as [|c s IH]; cbn [escape].
  - rewrite string_nil_app. by destruct (scan_arg 0 false rest).
  - destruct (special c) eqn:E; rewrite !string_cons_app; cbn [scan_arg].
    + unfold backslash. rewrite char_eqb_refl, IH. by destruct (scan_arg 0 false rest).
    + apply special_false in E as (E1 & E2 & E3 & E4 & E5 & _).
      rewrite E1, E2, E3, E4, E5, IH. by destruct (scan_arg 0 false rest).
Qed.

Lemma scan_delim s : delim_ok -> scan_arg 0 false (String delim s) = (EmptyString, Some s).
Proof. intros (H1 & H2 & H3 & H4 & _). simpl. by rewrite H1, H2, H3, H4, char_eqb_refl. Qed.

(** A quoted text starts with no space. *)
Lemma skip_escape s rest :
  (s = EmptyString -> skip_spaces rest = rest) ->
  skip_spaces (escape s ++ rest) = (escape s ++ rest)%string.
Proof.
  destruct s as [|c s]; cbn [escape]; [auto|]. intros _.
  destruct (special c) eqn:E; rewrite !string_cons_app; [done|].
  apply special_false in E as (_ & _ & _ & _ & _ & E). simpl. by rewrite E.
Qed.

(** The loop gives quoted arguments back. *)
Lemma args_loop_join l max :
  delim_ok -> l <> [] -> (length l <= max)%nat -> Forall (fun a => rtrim a = a) l ->
  args_loop max (join (escape <$> l)) = l.
Proof.
  intros Hd. revert max. induction l as [|a l IH]; intros max Hl Hmax Ht; [done|].
  apply Forall_cons in Ht as [Ha Ht]. destruct l as [|b l].
  - simpl. rewrite <- (string_app_nil (escape a)).
    destruct max as [|max]; simpl in Hmax; [lia|]. simpl.
    rewrite skip_escape by done. rewrite scan_escape by done. simpl.
    rewrite string_app_nil, Ha. by destruct max.
  - destruct max as [|[|max]]; simpl in Hmax; [lia..|].
    assert (join (escape <$> a :: b :: l) =
            (escape a ++ String delim (join (escape <$> b :: l)))%string) as -> by done.
    remember (join (escape <$> b :: l)) as rest. cbn [args_loop].
    rewrite skip_escape.
    + rewrite scan_escape, scan_delim by done. rewrite string_app_nil, Ha. f_equal.
      subst rest. apply (IH (S max)); [done| |done]. simpl. lia.
    + intros _. simpl. destruct Hd as (_ & _ & _ & _ & ->). done.
Qed.

(** There are never more arguments than slots. *)
Lemma args_loop_length max s : (length (args_loop max s) <= Nat.max 1 max)%nat.
Proof.
  revert s. induction max as [|max IH]; intros s; simpl.
  - by destruct (scan_arg 0 false (skip_spaces s)).
  - destruct (scan_arg 0 false (skip_spaces s)) as [a r]. simpl.
    destruct r as [r|]; [|simpl; lia]. specialize (IH r).
    destruct max as [|max]; cbn [Nat.ltb Nat.leb length] in *; lia.
Qed.

(** Arguments that are quoted and joined are what splitting gives back, if
    there is a slot for each of them and none ends in white space, which is
    trimmed even when it is quoted; and the vector never takes more than its
    slots, the one for the final NULL left over. *)
Theorem separate_quoted l max_args :
  delim_ok -> (2 <= max_args)%nat ->
  (forall buf, (length (cw_separate_app_args buf max_args) < max_args)%nat) /\
  ((length l < max_args)%nat -> Forall (fun a => rtrim a = a) l -> l <> [EmptyString] ->
   cw_separate_app_args (Some (join (escape <$> l))) max_args = l).
Proof.
  intros Hd Hmax. split.
  - intros [s|]; simpl; [|lia]. pose proof (args_loop_length (max_args - 1) s) as H.
    destruct (args_loop (max_args - 1) s) as [|[|] [|]]; simpl in *; lia.
  - intros Hl Ht Hne. unfold cw_separate_app_args. destruct l as [|a l].
    + simpl. by destruct (max_args - 1)%nat.
    + rewrite args_loop_join by (done || (simpl in *; lia)). destruct a, l; done.
Qed.

End separate.

Definition demo_args : list string := ["a,b"; " (x"; "${FOO}\"]%string.

Lemma separate_quoted_witness :
  cw_separate_app_args "," (Some (join "," (escape "," <$> demo_args))) 100 = demo_args.
Proof.
  apply (separate_quoted "," demo_args 100).
  - repeat split; reflexivity.
  - lia.
  - simpl. lia.
  - repeat constructor.
  - done.
Defined.
