(* ===== verification/Expr.v ===== *)
(** * Dialplan expressions (corelib/callweaver_expr2.y, corelib/callweaver_expr2.l)

    [$[...]] is evaluated by a scanner and a parser that compute while they
    parse.  A value is an integer of 64 bits, a string that looks like a number
    and is converted when a number is wanted, or a string.  A conversion that
    overflows leaves a NULL pointer in place of the string.

    The parser is the table-driven one of the grammar; its stack is modelled by
    the frames of the rules begun, and its choice between shifting and reducing
    by the levels of the operators.  A state that can reduce does so on any
    token it cannot shift, the erroneous ones included, so that an error behind
    a whole expression comes too late to undo its value.

    [None] is a crash: a NULL pointer read, or a division that traps.  It also
    stands for what the scanner does with [${], whose states are not modelled
    (variables are replaced before an expression is evaluated).  The library's
    regular expressions are an argument; strings compare as in the C locale. *)

From S2P Require Import Prelude CStr.
From stdpp Require Import pretty.
Open Scope Z_scope.

(** ** Values *)

Definition QUAD_MIN : Z := - 2 ^ 63.
Definition QUAD_MAX : Z := 2 ^ 63 - 1.
Abbreviation s64 := (wrap_s 64).

Inductive val :=
  | CW_EXPR_integer (i : Z)
  | CW_EXPR_numeric_string (s : option string)
  | CW_EXPR_string (s : string).

(** [sprintf(tmp, "%ld", i)] *)
Definition print_ld (i : Z) : string := pretty i.

Definition make_integer (i : Z) : val := CW_EXPR_integer i.

Fixpoint all_digits (s : string) : bool :=
  match s with EmptyString => true | String c s => isdigit c && all_digits s end.

Definition make_str (s : string) : val :=
  match s with
  | String c t =>
    if (isdigit c || char_eqb c "-") && all_digits t then CW_EXPR_numeric_string (Some s)
    else CW_EXPR_string s
  | EmptyString => CW_EXPR_string s
  end.

(** [strtoll(s, NULL, 10)]; [None] when it sets [errno]. *)
Definition strtoll (s : string) : option Z :=
  let z := match skip_spaces s with
           | String "-" s' => - digits 0 s'
           | String "+" s' => digits 0 s'
           | s' => digits 0 s'
           end in
  if (QUAD_MIN <=? z) && (z <=? QUAD_MAX) then Some z else None.

(** The answer, and the value as it is left. *)
Definition to_integer (v : val) : option (bool * val) :=
  match v with
  | CW_EXPR_integer _ => Some (true, v)
  | CW_EXPR_string _ => Some (false, v)
  | CW_EXPR_numeric_string None => None
  | CW_EXPR_numeric_string (Some s) =>
    Some match strtoll s with
         | None => (false, CW_EXPR_numeric_string None)
         | Some i => (true, CW_EXPR_integer i)
         end
  end.

(** [vp->u.i] after [to_integer]; the NULL pointer reads as 0. *)
Definition u_i (v : val) : Z :=
  match v with CW_EXPR_integer i => i | _ => 0 end.

Definition last_is_quote (s : string) : bool :=
  match String.get (String.length s - 1) s with
  | Some c => char_eqb c (Ascii.ascii_of_nat 34)
  | None => false
  end.

Fixpoint drop_quotes (s : string) : string :=
  match s with
  | EmptyString => EmptyString
  | String c s =>
    if char_eqb c (Ascii.ascii_of_nat 34) then drop_quotes s else String c (drop_quotes s)
  end.

Definition strip_quotes (s : string) : string :=
  match s with
  | String c _ =>
    if char_eqb c (Ascii.ascii_of_nat 34) && last_is_quote s then drop_quotes s else s
  | EmptyString => s
  end.

(** [to_string], and the string read: [None] is the NULL pointer. *)
Definition to_string (v : val) : option string :=
  match v with
  | CW_EXPR_integer i => Some (print_ld i)
  | CW_EXPR_numeric_string s => s
  | CW_EXPR_string s => Some s
  end.

Definition isstring (v : val) : bool :=
  match v with CW_EXPR_string _ => true | _ => false end.

Definition is_zero_or_null (v : val) : option (bool * val) :=
  match v with
  | CW_EXPR_integer i => Some (i =? 0, v)
  | CW_EXPR_numeric_string None => None
  | CW_EXPR_numeric_string (Some EmptyString) | CW_EXPR_string EmptyString => Some (true, v)
  | _ => '(ok, v) ← to_integer v; Some (ok && (u_i v =? 0), v)
  end.

(** ** Operators *)

Definition op_or (a b : val) : option val :=
  '(z, a) ← is_zero_or_null a; Some (if z : bool then b else a).

Definition op_and (a b : val) : option val :=
  '(z, a) ← is_zero_or_null a;
  if z : bool then Some (make_integer 0)
  else '(z, _) ← is_zero_or_null b; Some (if z : bool then make_integer 0 else a).

(** The comparisons differ in the test of the outcome. *)
Definition op_cmp (test : comparison -> bool) (a b : val) : option val :=
  if isstring a || isstring b then
    s ← to_string a; t ← to_string b;
    Some (make_integer (Z.b2z (test (strcmp s t))))
  else
    '(_, a) ← to_integer a; '(_, b) ← to_integer b;
    Some (make_integer (Z.b2z (test (u_i a ?= u_i b)))).

Definition op_eq := op_cmp (fun c => match c with Eq => true | _ => false end).
Definition op_gt := op_cmp (fun c => match c with Gt => true | _ => false end).
Definition op_lt := op_cmp (fun c => match c with Lt => true | _ => false end).
Definition op_ge := op_cmp (fun c => match c with Lt => false | _ => true end).
Definition op_le := op_cmp (fun c => match c with Gt => false | _ => true end).
Definition op_ne := op_cmp (fun c => match c with Eq => false | _ => true end).

Definition two_quotes : string :=
  String (Ascii.ascii_of_nat 34) (String (Ascii.ascii_of_nat 34) EmptyString).

Definition op_cond (a b c : val) : option val :=
  match a with
  | CW_EXPR_string s =>
    Some (if negb (streq s "") && negb (streq s two_quotes) && negb (streq s "0") then b else c)
  | _ => '(_, a) ← to_integer a; Some (if negb (u_i a =? 0) then b else c)
  end.

(** Whether the machine's result [r] of an operation is wrong. *)
Definition chk_plus (a b r : Z) : bool :=
  ((0 <? a) && (0 <? b) && (r <=? 0)) || ((a <? 0) && (b <? 0) && (0 <=? r)).

Definition chk_minus (a b r : Z) : bool :=
  if b =? QUAD_MIN then 0 <=? a else chk_plus a (- b) r.

(** Division of machine integers: the quotient must be one. *)
Definition div64 (a b : Z) : option Z :=
  if (b =? 0) || ((a =? QUAD_MIN) && (b =? -1)) then None else Some (Z.quot a b).

Definition rem64 (a b : Z) : option Z :=
  if (b =? 0) || ((a =? QUAD_MIN) && (b =? -1)) then None else Some (Z.rem a b).

Definition chk_times (a b r : Z) : option bool :=
  if a =? 0 then Some false else q ← div64 r a; Some (negb (q =? b)).

Definition chk_div (a b : Z) : bool := (a =? QUAD_MIN) && (b =? -1).

Definition op_plus (a b : val) : option val :=
  '(ia, a) ← to_integer a;
  '(ib, b) ← to_integer b;
  Some (if negb ia then (if negb ib then make_integer 0 else b)
        else if negb ib then a
        else make_integer (s64 (u_i a + u_i b))).

Definition op_minus (a b : val) : option val :=
  '(ia, a) ← to_integer a;
  '(ib, b) ← to_integer b;
  Some (if negb ia then (if negb ib then make_integer 0 else make_integer (s64 (0 - u_i b)))
        else if negb ib then a
        else make_integer (s64 (u_i a - u_i b))).

Definition op_negate (a : val) : option val :=
  '(ia, a) ← to_integer a;
  Some (if negb ia then make_integer 0 else make_integer (s64 (- u_i a))).

Definition op_compl (a : val) : option val :=
  let zero s := streq s "" || streq s "0" in
  let v1 := match a with
            | CW_EXPR_integer i => negb (i =? 0)
            | CW_EXPR_string s => negb (zero s)
            | CW_EXPR_numeric_string s => match s with Some s => negb (zero s) | None => false end
            end in
  Some (make_integer (Z.b2z (negb v1))).

Definition op_times (a b : val) : option val :=
  '(ia, a) ← to_integer a;
  if negb ia then Some (make_integer 0) else
  '(ib, b) ← to_integer b;
  if negb ib then Some (make_integer 0) else
  let r := s64 (u_i a * u_i b) in
  _ ← chk_times (u_i a) (u_i b) r;
  Some (make_integer r).

Definition op_div (a b : val) : option val :=
  '(ia, a) ← to_integer a;
  if negb ia then Some (make_integer 0) else
  '(ib, b) ← to_integer b;
  if negb ib then Some (make_integer INT_MAX)
  else if u_i b =? 0 then Some (make_integer INT_MAX)
  else make_integer <$> div64 (u_i a) (u_i b).

Definition op_rem (a b : val) : option val :=
  '(ia, a) ← to_integer a;
  if negb ia then Some (make_integer 0) else
  '(ib, b) ← to_integer b;
  if negb ib then Some (make_integer 0)
  else if u_i b =? 0 then Some b
  else make_integer <$> rem64 (u_i a) (u_i b).

Section regex.
(** [regcomp] of the pattern and [regexec] on the subject: [None] if the
    pattern does not compile; the number of groups, and for a match where it is
    and where the first group is. *)
Context (regex : string -> string -> option (nat * option (Z * Z * option (Z * Z)))).

(** [anchored] is the test that the match starts the subject. *)
Definition op_match (anchored : bool) (a b : val) : option val :=
  s ← to_string a; t ← to_string b;
  let s := strip_quotes s in
  Some match regex (strip_quotes t) s with
  | None => make_str ""
  | Some (nsub, m) =>
    match m with
    | Some (so, eo, g) =>
      if negb anchored || (so =? 0) then
        match g with
        | Some (so1, eo1) => make_str (String.substring (Z.to_nat so1) (Z.to_nat (eo1 - so1)) s)
        | None => make_integer (eo - so)
        end
      else if (nsub =? 0)%nat then make_integer 0 else make_str ""
    | None => if (nsub =? 0)%nat then make_integer 0 else make_str ""
    end
  end.

Definition op_colon := op_match true.
Definition op_eqtilde := op_match false.

(** ** Tokens *)

Inductive binop :=
  | TOK_OR | TOK_AND | TOK_EQ | TOK_GT | TOK_LT | TOK_GE | TOK_LE | TOK_NE
  | TOK_PLUS | TOK_MINUS | TOK_MULT | TOK_DIV | TOK_MOD | TOK_COLON | TOK_EQTILDE.

Inductive token :=
  | TOKEN (v : val)
  | TOK (o : binop)
  | TOK_COND
  | TOK_COLONCOLON
  | TOK_COMPL
  | TOK_LP
  | TOK_RP
  | TOK_VAR.

Fixpoint span (p : ascii -> bool) (s : string) : string * string :=
  match s with
  | String c t => if p c then let '(a, b) := span p t in (String c a, b) else (EmptyString, s)
  | EmptyString => (EmptyString, EmptyString)
  end.

(** The class [[a-zA-Z0-9,.';\\_^$#@]]. *)
Definition is_word (c : ascii) : bool :=
  ((97 <=? code c) && (code c <=? 122)) || ((65 <=? code c) && (code c <=? 90)) || isdigit c ||
  existsb (char_eqb c) [","; "."; "'"; ";"; "\"; "_"; "^"; "$"; "#"; "@"]%char.

(** The operators; the longer one wins. *)
Definition lex_op (c : ascii) (s : string) : option (token * string) :=
  let two (d : ascii) (t1 t2 : token) :=
    match s with
    | String e s' => if char_eqb e d then Some (t2, s') else Some (t1, s)
    | EmptyString => Some (t1, s)
    end in
  if char_eqb c "|" then two "|"%char (TOK TOK_OR) (TOK TOK_OR)
  else if char_eqb c "&" then two "&"%char (TOK TOK_AND) (TOK TOK_AND)
  else if char_eqb c "=" then
    match s with
    | String "~" s' => Some (TOK TOK_EQTILDE, s')
    | _ => two "="%char (TOK TOK_EQ) (TOK TOK_EQ)
    end
  else if char_eqb c ">" then two "="%char (TOK TOK_GT) (TOK TOK_GE)
  else if char_eqb c "<" then two "="%char (TOK TOK_LT) (TOK TOK_LE)
  else if char_eqb c "!" then two "="%char TOK_COMPL (TOK TOK_NE)
  else if char_eqb c ":" then two ":"%char (TOK TOK_COLON) TOK_COLONCOLON
  else if char_eqb c "+" then Some (TOK TOK_PLUS, s)
  else if char_eqb c "-" then Some (TOK TOK_MINUS, s)
  else if char_eqb c "*" then Some (TOK TOK_MULT, s)
  else if char_eqb c "/" then Some (TOK TOK_DIV, s)
  else if char_eqb c "%" then Some (TOK TOK_MOD, s)
  else if char_eqb c "?" then Some (TOK_COND, s)
  else if char_eqb c "(" then Some (TOK_LP, s)
  else if char_eqb c ")" then Some (TOK_RP, s)
  else None.

Definition quoted (s : string) : string :=
  String (Ascii.ascii_of_nat 34) (s +:+ String (Ascii.ascii_of_nat 34) EmptyString).

(** The scanner.  White space, and by flex's default rule any character that
    starts no token, is skipped.  Each round takes a character at least. *)
Fixpoint lex (fuel : nat) (s : string) : list token :=
  match fuel with
  | O => []
  | S fuel =>
    match s with
    | EmptyString => []
    | String c s' =>
      match lex_op c s' with
      | Some (t, r) => t :: lex fuel r
      | None =>
        if char_eqb c "$" && match s' with String d _ => char_eqb d "{" | _ => false end
        then [TOK_VAR]
        else if char_eqb c (Ascii.ascii_of_nat 34) then
          match strcut (Ascii.ascii_of_nat 34) s' with
          | (a, Some r) => TOKEN (CW_EXPR_string (quoted a)) :: lex fuel r
          | (_, None) => lex fuel s'
          end
        else if is_word c then
          let '(w, r) := span is_word s in
          TOKEN (if all_digits w then CW_EXPR_numeric_string (Some w) else CW_EXPR_string w)
          :: lex fuel r
        else lex fuel s'
      end
    end
  end.

(** ** The parser *)

Definition op (o : binop) : val -> val -> option val :=
  match o with
  | TOK_OR => op_or
  | TOK_AND => op_and
  | TOK_EQ => op_eq
  | TOK_GT => op_gt
  | TOK_LT => op_lt
  | TOK_GE => op_ge
  | TOK_LE => op_le
  | TOK_NE => op_ne
  | TOK_PLUS => op_plus
  | TOK_MINUS => op_minus
  | TOK_MULT => op_times
  | TOK_DIV => op_div
  | TOK_MOD => op_rem
  | TOK_COLON => op_colon
  | TOK_EQTILDE => op_eqtilde
  end.

(** The declarations [%left] and [%right], the loosest first; [TOK_COMPL], with
    the unary minus, is level 7. *)
Definition level (o : binop) : nat :=
  match o with
  | TOK_OR => 2
  | TOK_AND => 3
  | TOK_EQ | TOK_GT | TOK_LT | TOK_GE | TOK_LE | TOK_NE => 4
  | TOK_PLUS | TOK_MINUS => 5
  | TOK_MULT | TOK_DIV | TOK_MOD => 6
  | TOK_COLON | TOK_EQTILDE => 8
  end.

Definition infix_level (t : option token) : option nat :=
  match t with
  | Some (TOK o) => Some (level o)
  | Some TOK_COND => Some 1%nat
  | _ => None
  end.

(** A rule of the grammar of which the tokens up to an operand were read. *)
Inductive frame :=
  | FBin (o : binop) (a : val)
  | FNeg
  | FCompl
  | FParen
  | FCond (a : val)
  | FElse (a b : val).

(** The level of a rule that ends with the operand. *)
Definition rule_level (f : frame) : option nat :=
  match f with
  | FBin o _ => Some (level o)
  | FNeg | FCompl => Some 7%nat
  | FElse _ _ => Some 1%nat
  | FParen | FCond _ => None
  end.

Definition action (f : frame) (v : val) : option val :=
  match f with
  | FBin o a => op o a v
  | FNeg => op_negate v
  | FCompl => op_compl v
  | FElse a b => op_cond a b v
  | FParen | FCond _ => Some v
  end.

(** Whether the token is shifted where the rule could be reduced: the levels of
    the infix operators associate to the left. *)
Definition shifts (t : option token) (rl : nat) : bool :=
  match infix_level t with Some q => (rl <? q)%nat | None => false end.

Fixpoint reduce (t : option token) (k : list frame) (v : val) : option (list frame * val) :=
  match k with
  | [] => Some ([], v)
  | f :: k' =>
    match rule_level f with
    | Some rl => if shifts t rl then Some (k, v) else v ← action f v; reduce t k' v
    | None => Some (k, v)
    end
  end.

(** Where an operand is due, and where one was read.  The result is [io.val],
    which stays NULL when an error comes before a whole expression. *)
Fixpoint operand (k : list frame) (ts : list token) {struct ts} : option (option val) :=
  match ts with
  | TOKEN v :: ts => operator k v ts
  | TOK_LP :: ts => operand (FParen :: k) ts
  | TOK TOK_MINUS :: ts => operand (FNeg :: k) ts
  | TOK_COMPL :: ts => operand (FCompl :: k) ts
  | TOK_VAR :: _ => None
  | _ => Some None
  end
with operator (k : list frame) (v : val) (ts : list token) {struct ts} : option (option val) :=
  '(k, v) ← reduce (head ts) k v;
  match ts with
  | TOK o :: ts => operand (FBin o v :: k) ts
  | TOK_COND :: ts => operand (FCond v :: k) ts
  | TOK_VAR :: _ => None
  | t :: ts =>
    match t, k with
    | _, [] => Some (Some v)
    | TOK_RP, FParen :: k => operator k v ts
    | TOK_COLONCOLON, FCond a :: k => operand (FElse a v :: k) ts
    | _, _ => Some None
    end
  | [] => Some match k with [] => Some v | _ => None end
  end.

Definition starts (t : token) : bool :=
  match t with TOKEN _ | TOK_LP | TOK TOK_MINUS | TOK_COMPL => true | _ => false end.

(** [cw_yyparse]: the empty rule is reduced on any token that starts no
    expression. *)
Definition cw_yyparse (ts : list token) : option (option val) :=
  match ts with
  | TOK_VAR :: _ => None
  | t :: _ => if starts t then operand [] ts else Some (Some (CW_EXPR_string ""))
  | [] => Some (Some (CW_EXPR_string ""))
  end.

(** The bytes the caller takes from the buffer, as many as the returned number;
    the last one of an integer that just does not fit is its terminator. *)
Definition give (val : option val) (length : Z) : option string :=
  match val with
  | None => Some (if 1 <? length then "0" else "")
  | Some (CW_EXPR_integer i) =>
    let s := print_ld i in
    let n := Z.of_nat (String.length s) in
    Some (if n <? length then s
          else if length <=? 0 then ""
          else strtake (Z.to_nat (length - 1)) s +:+ String Ascii.zero EmptyString)
  | Some (CW_EXPR_numeric_string None) => None
  | Some (CW_EXPR_numeric_string (Some s)) | Some (CW_EXPR_string s) =>
    if length <=? 0 then None else Some (strtake (Z.to_nat (length - 1)) s)
  end.

Definition cw_expr (expr : string) (length : Z) : option string :=
  r ← cw_yyparse (lex (String.length expr) expr); give r length.

End regex.

(** ** Overflow *)

Definition int64 (z : Z) : Prop := QUAD_MIN <= z <= QUAD_MAX.

Lemma s64_spec z : exists k, s64 z = z - k * 2 ^ 64 /\ int64 (s64 z).
Proof.
  unfold wrap_s, int64, QUAD_MIN, QUAD_MAX. pose proof (Z.mod_pos_bound z (2 ^ 64)) as Hb.
  pose proof (Z.div_mod z (2 ^ 64)) as Hd. change (2 ^ (64 - 1)) with (2 ^ 63).
  case_if; b2p; [exists (z / 2 ^ 64)|exists (z / 2 ^ 64 + 1)]; lia.
Qed.

Lemma s64_id z : int64 z -> s64 z = z.
Proof. unfold int64, QUAD_MIN, QUAD_MAX. intros. apply wrap_s_small; simpl; lia. Qed.

(** The product of a machine integer cannot hide a whole turn in the remainder
    of a division. *)
Lemma chk_times_exact a b :
  int64 a -> int64 b -> chk_times a b (s64 (a * b)) <> None ->
  chk_times a b (s64 (a * b)) = Some (negb (s64 (a * b) =? a * b)).
Proof.
  intros Ha Hb. unfold chk_times, div64.
  destruct (Z.eqb_spec a 0) as [->|Hz]; [by rewrite Z.mul_0_l|]. simpl.
  destruct (s64_spec (a * b)) as (k & Hk & Hr). revert Hk Hr. generalize (s64 (a * b)).
  intros r Hk Hr. case_if; [done|]. intros _. simpl. do 2 f_equal.
  unfold int64, QUAD_MIN, QUAD_MAX in *.
  destruct (Z.eqb_spec r (a * b)) as [->|Hne].
  - apply Z.eqb_eq. rewrite Z.mul_comm. by apply Z.quot_mul.
  - apply Z.eqb_neq. intros Hq. apply Hne.
    pose proof (Z.quot_rem' r a) as Hqr. pose proof (Z.rem_bound_abs r a Hz) as Hrem.
    rewrite Hq in Hqr. assert (k = 0) as ->; [|lia].
    assert (Z.abs (Z.rem r a) = Z.abs k * 2 ^ 64) as Hab by nia.
    nia.
Qed.

(** C20: the checks behind the additions, subtractions and multiplications of
    64-bit integers find exactly the results that are wrong, and that of a
    division comes after the division that traps. *)
Theorem overflow_checks_exact a b :
  int64 a -> int64 b ->
  chk_plus a b (s64 (a + b)) = negb (s64 (a + b) =? a + b) /\
  chk_minus a b (s64 (a - b)) = negb (s64 (a - b) =? a - b) /\
  (chk_times a b (s64 (a * b)) = None <-> a = -1 /\ b = QUAD_MIN) /\
  (chk_times a b (s64 (a * b)) <> None ->
   chk_times a b (s64 (a * b)) = Some (negb (s64 (a * b) =? a * b))) /\
  (b <> 0 -> chk_div a b = true <-> div64 a b = None).
Proof.
  intros Ha Hb. split_and!.
  - destruct (s64_spec (a + b)) as (k & -> & Hr). unfold int64, QUAD_MIN, QUAD_MAX in *.
    assert (k = 0 \/ k = 1 \/ k = -1) as [->|[->| ->]] by lia; unfold chk_plus;
      destruct (Z.ltb_spec 0 a), (Z.ltb_spec 0 b), (Z.ltb_spec a 0), (Z.ltb_spec b 0); simpl; lia.
  - destruct (s64_spec (a - b)) as (k & -> & Hr). unfold chk_minus, int64 in *.
    destruct (Z.eqb_spec b QUAD_MIN) as [->|Hm].
    + unfold QUAD_MIN, QUAD_MAX in *. lia.
    + unfold QUAD_MIN, QUAD_MAX in *.
      assert (k = 0 \/ k = 1 \/ k = -1) as [->|[->| ->]] by lia; unfold chk_plus;
      destruct (Z.ltb_spec 0 a), (Z.ltb_spec 0 (- b)), (Z.ltb_spec a 0), (Z.ltb_spec (- b) 0); simpl; lia.
  - unfold chk_times, div64. destruct (Z.eqb_spec a 0) as [->|Hz]; [split; [done|lia]|].
    destruct (s64_spec (a * b)) as (k & Hk & Hr).
    destruct (Z.eqb_spec a 0); [done|]. simpl.
    destruct (Z.eqb_spec (s64 (a * b)) QUAD_MIN) as [E|E], (Z.eqb_spec a (-1)) as [->|]; simpl;
      unfold int64, QUAD_MIN, QUAD_MAX in *; (split; [done|]) || idtac; try lia.
    all: split; [intros _; split; [done|]|done]. all: lia.
  - by apply chk_times_exact.
  - intros Hz. unfold chk_div, div64. apply Z.eqb_neq in Hz. rewrite Hz. simpl. by case_if.
Qed.

Lemma overflow_checks_exact_witness :
  chk_plus QUAD_MAX 1 (s64 (QUAD_MAX + 1)) = true /\ chk_minus QUAD_MIN 1 (s64 (QUAD_MIN - 1)) = true.
Proof.
  assert (int64 QUAD_MAX) by (unfold int64, QUAD_MIN, QUAD_MAX; lia).
  assert (int64 QUAD_MIN) by (unfold int64, QUAD_MIN, QUAD_MAX; lia).
  assert (int64 1) by (unfold int64, QUAD_MIN, QUAD_MAX; lia).
  split.
  - destruct (overflow_checks_exact QUAD_MAX 1) as [-> _]; [done|done|reflexivity].
  - destruct (overflow_checks_exact QUAD_MIN 1) as (_ & -> & _); [done|done|reflexivity].
Defined.


(** ** The parser follows the levels of the operators *)

Inductive ast :=
  | ALeaf (v : val)
  | ABin (o : binop) (a b : ast)
  | ANeg (a : ast)
  | ACompl (a : ast)
  | ACond (a b c : ast).

(** The order of the operators in doc/README.variables, in increasing
    precedence; the unary ones come before the last group, the conditional comes
    before all. *)
Definition documented : list (list binop) :=
  [[TOK_OR]; [TOK_AND]; [TOK_EQ; TOK_GT; TOK_GE; TOK_LT; TOK_LE; TOK_NE]; [TOK_PLUS; TOK_MINUS];
   [TOK_MULT; TOK_DIV; TOK_MOD]; []; [TOK_COLON; TOK_EQTILDE]].

#[export] Instance binop_eq_dec : EqDecision binop.
Proof. solve_decision. Defined.

Definition precedence (o : binop) : nat :=
  2 + default 0%nat (fst <$> list_find (fun g => o ∈ g) documented).
Arguments precedence : simpl never.

Lemma level_documented o : level o = precedence o.
Proof. by destruct o. Qed.


Definition alevel (e : ast) : nat :=
  match e with
  | ALeaf _ => 9
  | ABin o _ _ => precedence o
  | ANeg _ | ACompl _ => 7
  | ACond _ _ _ => 1
  end.

(** In parentheses where a tighter level is wanted. *)
Definition wrap_at (p : nat) (e : ast) (ts : list token) : list token :=
  if (alevel e <? p)%nat then TOK_LP :: ts ++ [TOK_RP] else ts.

(** The expression written with no more parentheses than the levels ask for. *)
Fixpoint unparse (e : ast) : list token :=
  match e with
  | ALeaf v => [TOKEN v]
  | ABin o a b =>
    wrap_at (precedence o) a (unparse a) ++ TOK o :: wrap_at (S (precedence o)) b (unparse b)
  | ANeg a => TOK TOK_MINUS :: wrap_at 7 a (unparse a)
  | ACompl a => TOK_COMPL :: wrap_at 7 a (unparse a)
  | ACond a b c =>
    wrap_at 1 a (unparse a) ++ TOK_COND :: unparse b ++ TOK_COLONCOLON :: wrap_at 2 c (unparse c)
  end.

Section parser.
Context (regex : string -> string -> option (nat * option (Z * Z * option (Z * Z)))).

(** What an expression means: its operators, innermost and leftmost first. *)
Fixpoint eval (e : ast) : option val :=
  match e with
  | ALeaf v => Some v
  | ABin o a b => x ← eval a; y ← eval b; op regex o x y
  | ANeg a => x ← eval a; op_negate x
  | ACompl a => x ← eval a; op_compl x
  | ACond a b c => x ← eval a; y ← eval b; z ← eval c; op_cond x y z
  end.

(** An operator of level [p] or more is shifted behind the frames. *)
Definition guard (k : list frame) (p : nat) : Prop :=
  forall f k' rl t q, k = f :: k' -> rule_level f = Some rl -> infix_level t = Some q ->
    (p <= q)%nat -> (rl < q)%nat.

(** What follows does not bind tighter than [p]. *)
Definition follow (p : nat) (ts : list token) : Prop :=
  forall q, infix_level (head ts) = Some q -> (q <= p)%nat.

Lemma guard_mono k p q : guard k p -> (p <= q)%nat -> guard k q.
Proof. intros H Hpq f k' rl t n Hk Hf Ht Hn. eapply (H f k' rl t n); eauto. lia. Qed.

Lemma follow_mono p q ts : follow p ts -> (p <= q)%nat -> follow q ts.
Proof. intros H Hpq n Hn. specialize (H n Hn). lia. Qed.

Lemma guard_paren k p : guard (FParen :: k) p.
Proof. by intros f k' rl t q [= <- <-]. Qed.

Lemma guard_cond a k p : guard (FCond a :: k) p.
Proof. by intros f k' rl t q [= <- <-]. Qed.

Lemma guard_rule f k p rl : rule_level f = Some rl -> (rl < p)%nat -> guard (f :: k) p.
Proof. intros Hf Hp g k' rl' t q [= <- <-] Hg _ Hq. rewrite Hf in Hg. injection Hg as <-. lia. Qed.

(** No infix operator has the level of the unary ones. *)
Lemma guard_unary f k : rule_level f = Some 7%nat -> guard (f :: k) 7.
Proof.
  intros Hf g k' rl t q [= <- <-] Hg Ht Hq. rewrite Hf in Hg. injection Hg as <-.
  destruct t as [[| [] | | | | | | ]|]; simpl in Ht; try done; injection Ht as <-; lia.
Qed.

#[local] Hint Resolve guard_paren guard_cond : core.

(** With an operator that is shifted nothing is reduced. *)
Lemma reduce_guard t k v p q :
  guard k p -> infix_level t = Some q -> (p <= q)%nat -> reduce regex t k v = Some (k, v).
Proof.
  intros Hg Ht Hq. destruct k as [|f k]; [done|]. simpl.
  destruct (rule_level f) as [rl|] eqn:Hf; [|done]. unfold shifts. rewrite Ht.
  assert ((rl <? q)%nat = true) as ->; [|done]. apply Nat.ltb_lt. by eapply Hg.
Qed.

(** With what follows a whole rule, the rule is reduced. *)
Lemma operator_reduce f k v rl ts :
  rule_level f = Some rl -> follow rl ts ->
  operator regex (f :: k) v ts = v ← action regex f v; operator regex k v ts.
Proof.
  intros Hf Hts. assert (shifts (head ts) rl = false) as Hs.
  { unfold shifts. destruct (infix_level (head ts)) as [q|] eqn:E; [|done].
    apply Nat.ltb_ge. by apply Hts. }
  assert (reduce regex (head ts) (f :: k) v = v ← action regex f v; reduce regex (head ts) k v) as Hr.
  { simpl. by rewrite Hf, Hs. }
  destruct ts as [|t ts]; cbn [operator]; rewrite Hr; by destruct (action regex f v).
Qed.

(** The parser reads [ts] as the operand [e]. *)
Definition reads (p : nat) (e : ast) (ts : list token) : Prop :=
  forall k rest, guard k p -> follow p rest ->
    operand regex k (ts ++ rest) = v ← eval e; operator regex k v rest.

Lemma reads_wrap e p : reads (alevel e) e (unparse e) -> reads p e (wrap_at p e (unparse e)).
Proof.
  intros IH k rest Hg Hf. unfold wrap_at. destruct (Nat.ltb_spec (alevel e) p).
  - cbn [app operand]. rewrite <- app_assoc. rewrite IH; [|done|done].
    destruct (eval e); done.
  - apply IH; [by eapply guard_mono|by eapply follow_mono].
Qed.

(** Behind an infix operator of the expression itself. *)
Lemma operator_shift k v o ts p :
  guard k p -> (p <= level o)%nat ->
  operator regex k v (TOK o :: ts) = operand regex (FBin o v :: k) ts.
Proof. intros Hg Hp. cbn [operator head]. by erewrite reduce_guard. Qed.

Lemma operator_cond k v ts :
  guard k 1 -> operator regex k v (TOK_COND :: ts) = operand regex (FCond v :: k) ts.
Proof. intros Hg. cbn [operator head]. by erewrite reduce_guard. Qed.

Lemma level_bound o : (2 <= level o <= 8)%nat.
Proof. destruct o; simpl; lia. Qed.

Lemma unparse_reads e : reads (alevel e) e (unparse e).
Proof.
  induction e as [v|o a IHa b IHb|a IHa|a IHa|a IHa b IHb c IHc]; intros k rest Hg Hf;
    cbn [alevel unparse eval] in *; rewrite <- ?level_documented in *.
  - done.
  - rewrite <- app_assoc. cbn [app].
    rewrite (reads_wrap a (level o) IHa) by (done || by intros q [= <-]).
    destruct (eval a) as [x|]; [cbn [mbind option_bind]|done]. erewrite operator_shift by done.
    rewrite (reads_wrap b (S (level o)) IHb);
      [|by eapply guard_rule; [reflexivity|lia]|by eapply follow_mono; [exact Hf|lia]].
    destruct (eval b) as [y|]; [cbn [mbind option_bind]|done]. by erewrite operator_reduce.
  - cbn [app operand]. rewrite (reads_wrap a 7 IHa) by (done || by apply guard_unary).
    destruct (eval a) as [x|]; [cbn [mbind option_bind]|done]. by erewrite operator_reduce.
  - cbn [app operand]. rewrite (reads_wrap a 7 IHa) by (done || by apply guard_unary).
    destruct (eval a) as [x|]; [cbn [mbind option_bind]|done]. by erewrite operator_reduce.
  - rewrite <- app_assoc. cbn [app].
    rewrite (reads_wrap a 1 IHa) by (done || by intros q [= <-]).
    destruct (eval a) as [x|]; [cbn [mbind option_bind]|done]. rewrite operator_cond by done.
    rewrite <- app_assoc. cbn [app]. rewrite IHb by done.
    destruct (eval b) as [y|]; [cbn [mbind option_bind]|done]. cbn [operator head reduce rule_level mbind option_bind].
    rewrite (reads_wrap c 2 IHc);
      [|by eapply guard_rule; [reflexivity|lia]|by eapply follow_mono; [exact Hf|lia]].
    destruct (eval c) as [z|]; [cbn [mbind option_bind]|done]. by erewrite operator_reduce.
Qed.

Lemma unparse_starts e : exists t ts, unparse e = t :: ts /\ starts t = true.
Proof.
  induction e as [v|o a [t [ts [Ht Hs]]] b _|a _|a _|a [t [ts [Ht Hs]]] b _ c _]; simpl; eauto;
    unfold wrap_at; rewrite Ht; case_if; simpl; eauto.
Qed.

(** The parser computes the meaning of an expression. *)
Lemma yyparse_unparse e : cw_yyparse regex (unparse e) = v ← eval e; Some (Some v).
Proof.
  destruct (unparse_starts e) as (t & ts & Ht & Hs). unfold cw_yyparse. rewrite Ht.
  destruct t; try done; rewrite ?Hs; rewrite <- Ht, <- (app_nil_r (unparse e));
    rewrite (unparse_reads e) by done; by destruct (eval e).
Qed.

End parser.

(** ** The scanner reads an expression that is written out *)

Definition op_text (o : binop) : string :=
  match o with
  | TOK_OR => "|" | TOK_AND => "&" | TOK_EQ => "=" | TOK_GT => ">" | TOK_LT => "<"
  | TOK_GE => ">=" | TOK_LE => "<=" | TOK_NE => "!=" | TOK_PLUS => "+" | TOK_MINUS => "-"
  | TOK_MULT => "*" | TOK_DIV => "/" | TOK_MOD => "%" | TOK_COLON => ":" | TOK_EQTILDE => "=~"
  end.

Definition tok_text (t : token) : string :=
  match t with
  | TOKEN (CW_EXPR_numeric_string (Some s)) | TOKEN (CW_EXPR_string s) => s
  | TOKEN _ | TOK_VAR => ""
  | TOK o => op_text o
  | TOK_COND => "?"
  | TOK_COLONCOLON => "::"
  | TOK_COMPL => "!"
  | TOK_LP => "("
  | TOK_RP => ")"
  end.

(** Every token followed by a space. *)
Definition render (ts : list token) : string :=
  foldr (fun t s => tok_text t +:+ String " " s) EmptyString ts.

Fixpoint all_word (s : string) : bool :=
  match s with EmptyString => true | String c s => is_word c && all_word s end.

(** The values that can be written: numbers, words that are no numbers, and
    strings in quotes. *)
Definition leaf_ok (v : val) : Prop :=
  match v with
  | CW_EXPR_integer _ | CW_EXPR_numeric_string None => False
  | CW_EXPR_numeric_string (Some s) => s <> EmptyString /\ all_digits s = true
  | CW_EXPR_string s =>
    (s <> EmptyString /\ all_word s = true /\ all_digits s = false) \/
    exists t, s = quoted t /\ drop_quotes t = t
  end.

Definition tok_ok (t : token) : Prop :=
  match t with TOKEN v => leaf_ok v | TOK_VAR => False | _ => True end.

Fixpoint ast_ok (e : ast) : Prop :=
  match e with
  | ALeaf v => leaf_ok v
  | ABin _ a b => ast_ok a /\ ast_ok b
  | ANeg a | ACompl a => ast_ok a
  | ACond a b c => ast_ok a /\ ast_ok b /\ ast_ok c
  end.

Lemma digit_word c : isdigit c = true -> is_word c = true.
Proof. unfold is_word. intros ->. by rewrite orb_true_r. Qed.

Lemma digits_word s : all_digits s = true -> all_word s = true.
Proof.
  induction s as [|c s IH]; simpl; [done|]. intros H. b2p. rewrite digit_word, IH by done. done.
Qed.

Lemma word_facts c s :
  is_word c = true ->
  lex_op c s = None /\ char_eqb c (Ascii.ascii_of_nat 34) = false /\ char_eqb c "{" = false.
Proof.
  destruct c as [[] [] [] [] [] [] [] []]; vm_compute; try done.
Qed.

Lemma span_word w rest : all_word w = true -> span is_word (w +:+ String " " rest) = (w, String " " rest).
Proof.
  induction w as [|c w IH]; [done|]. simpl. intros H. b2p.
  change (String c w +:+ String " " rest) with (String c (w +:+ String " " rest)). simpl.
  by rewrite H, IH.
Qed.

Lemma strcut_quoted t r :
  drop_quotes t = t ->
  strcut (Ascii.ascii_of_nat 34) ((t +:+ String (Ascii.ascii_of_nat 34) EmptyString) +:+ r) = (t, Some r).
Proof.
  induction t as [|c t IH]; [done|]. cbn [drop_quotes]. case_if.
  - intros H. exfalso. assert (String.length (drop_quotes t) <= String.length t)%nat as Hl.
    { clear. induction t as [|c t IH]; simpl; [lia|]. case_if; simpl; lia. }
    rewrite H in Hl. simpl in Hl. lia.
  - intros [= H].
    change ((String c t +:+ String (Ascii.ascii_of_nat 34) EmptyString) +:+ r)
      with (String c ((t +:+ String (Ascii.ascii_of_nat 34) EmptyString) +:+ r)).
    cbn [strcut]. rewrite E, IH by done. done.
Qed.

Lemma lex_word n w rest :
  w <> EmptyString -> all_word w = true ->
  lex (S n) (w +:+ String " " rest) =
  TOKEN (if all_digits w then CW_EXPR_numeric_string (Some w) else CW_EXPR_string w)
  :: lex n (String " " rest).
Proof.
  intros Hne Hw. destruct w as [|c w]; [done|]. pose proof (span_word _ rest Hw) as Hs.
  change (String c w +:+ String " " rest) with (String c (w +:+ String " " rest)) in *.
  simpl in Hw. b2p. rename H into Hc. rename H0 into Hw. cbn [lex].
  destruct (word_facts c (w +:+ String " " rest) Hc) as (-> & -> & _).
  assert (match w +:+ String " " rest with String d _ => char_eqb d "{" | _ => false end = false) as ->.
  { destruct w as [|d w]; [done|]. simpl in Hw. b2p. by apply word_facts. }
  rewrite andb_false_r, Hc, Hs. done.
Qed.

Lemma lex_token n t rest :
  tok_ok t -> lex (S n) (tok_text t +:+ String " " rest) = t :: lex n (String " " rest).
Proof.
  destruct t as [[i|[s|]|s]|o| | | | | |]; try done.
  - intros [Hne Hd]. cbn [tok_text]. rewrite lex_word by (done || by apply digits_word). by rewrite Hd.
  - intros [(Hne & Hw & Hd)|(t & -> & Ht)]; cbn [tok_text].
    + rewrite lex_word by done. by rewrite Hd.
    + change (quoted t +:+ String " " rest) with (String (Ascii.ascii_of_nat 34)
        ((t +:+ String (Ascii.ascii_of_nat 34) EmptyString) +:+ String " " rest)).
      cbn [lex]. change (lex_op (Ascii.ascii_of_nat 34) ?x) with (@None (token * string)).
      cbn [char_eqb andb]. by rewrite strcut_quoted.
  - by destruct o.
Qed.

Lemma lex_render ts n :
  Forall tok_ok ts -> (String.length (render ts) <= n)%nat -> lex n (render ts) = ts.
Proof.
  intros H. revert n. induction H as [|t ts Ht Hts IH]; intros n Hn; simpl in *.
  - by destruct n.
  - assert (exists m, n = S (S m) /\ (String.length (render ts) <= m)%nat) as (m & -> & Hm).
    { assert (tok_text t <> EmptyString).
      { destruct t as [[|[]|s]|[]| | | | | |]; simpl in *; try done; [by destruct Ht|].
        destruct Ht as [[? _]|(u & -> & _)]; done. }
      destruct (tok_text t) as [|c u]; [done|].
      rewrite string_cons_app in Hn. cbn [String.length] in Hn. rewrite length_append in Hn.
      simpl in Hn. exists (n - 2)%nat. lia. }
    rewrite lex_token by done. f_equal. cbn [lex lex_op]. change (lex (S m) (String " " (render ts))) with (lex m (render ts)).
    by apply IH.
Qed.

Lemma unparse_ok e : ast_ok e -> Forall tok_ok (unparse e).
Proof.
  assert (forall p a, Forall tok_ok (unparse a) -> Forall tok_ok (wrap_at p a (unparse a))) as Hw.
  { intros p a Ha. unfold wrap_at. case_if; [|done]. constructor; [done|].
    apply Forall_app. by repeat constructor. }
  induction e; simpl; intros; destruct_and?; repeat (constructor || apply Forall_app || split); auto.
Qed.

Lemma give_fits v s n :
  to_string v = Some s -> Z.of_nat (String.length s) < n -> give (Some v) n = Some s.
Proof.
  intros Hs Hn. destruct v as [i|[t|]|t]; simpl in *; simplify_eq.
  - by rewrite (proj2 (Z.ltb_lt _ _) Hn).
  - rewrite (proj2 (Z.leb_gt n 0)) by lia. by rewrite strtake_all by lia.
  - rewrite (proj2 (Z.leb_gt n 0)) by lia. by rewrite strtake_all by lia.
Qed.

(** No more is taken from the buffer than it holds. *)
Lemma cw_expr_length regex e n t :
  0 <= n -> cw_expr regex e n = Some t -> Z.of_nat (String.length t) <= n.
Proof.
  intros Hn. unfold cw_expr. destruct (cw_yyparse _ _) as [v|]; [cbn [mbind option_bind]|done].
  destruct v as [[i|[s|]|s]|]; simpl; try done.
  - intros [= <-]. cases_if; simpl; try lia. rewrite length_append. simpl.
    rewrite strtake_length. lia.
  - case_if; [done|]. intros [= <-]. b2p. rewrite strtake_length. lia.
  - case_if; [done|]. intros [= <-]. b2p. rewrite strtake_length. lia.
  - intros [= <-]. cases_if; simpl; lia.
Qed.

Lemma expr_spec regex e n :
  ast_ok e -> cw_expr regex (render (unparse e)) n = v ← eval regex e; give (Some v) n.
Proof.
  intros He. unfold cw_expr. rewrite lex_render by (done || by apply unparse_ok).
  rewrite yyparse_unparse. by destruct (eval regex e).
Qed.

(** C8: an expression written out with the parentheses that the precedence
    declared in the grammar asks for is scanned and parsed back and evaluated from the
    inside out, left to right; its text is what the buffer gets when it holds the text
    and one byte more.  The evaluation fails exactly if an operator crashes or the
    result is a number that was too long and has no text. *)
Theorem expr_evaluates regex e n :
  ast_ok e ->
  match eval regex e with
  | None => cw_expr regex (render (unparse e)) n = None
  | Some v =>
    match to_string v with
    | None => cw_expr regex (render (unparse e)) n = None
    | Some s => Z.of_nat (String.length s) < n -> cw_expr regex (render (unparse e)) n = Some s
    end
  end.
Proof.
  intros He. rewrite expr_spec by done. destruct (eval regex e) as [v|]; [|done]. cbn [mbind option_bind].
  destruct (to_string v) as [s|] eqn:Hs; [intros Hn; by apply give_fits|].
  by destruct v as [i|[t|]|t].
Qed.

(** The grammar has [=~] bind tighter than [!]: the text is matched first, and what
    comes out is negated. *)
Example compl_applies_last :
  let regex := fun (_ subject : string) =>
    Some (0%nat, if streq subject "One" then Some (0, 3, None) else None) in
  cw_expr regex "! One =~ On." 10 = Some "0" /\ cw_expr regex "! ( One =~ On. )" 10 = Some "0" /\
  cw_expr regex "! Two =~ On." 10 = Some "1" /\ cw_expr regex "( ! Two ) =~ On." 10 = Some "0".
Proof. vm_compute. split_and!; reflexivity. Qed.

Definition num (s : string) : ast := ALeaf (CW_EXPR_numeric_string (Some s)).

(** [1 - (2 - 3) * -4 = 5 ? "yes" :: no] *)
Definition demo_expr : ast :=
  ACond
    (ABin TOK_EQ (ABin TOK_MINUS (num "1") (ABin TOK_MULT (ABin TOK_MINUS (num "2") (num "3"))
       (ANeg (num "4")))) (num "5"))
    (ALeaf (CW_EXPR_string (quoted "yes"))) (ALeaf (CW_EXPR_string "no")).

Lemma expr_evaluates_witness :
  ast_ok demo_expr /\
  render (unparse demo_expr) =
    ("1 - ( 2 - 3 ) * - 4 = 5 ? " +:+ quoted "yes" +:+ " :: no ")%string /\
  cw_expr (fun _ _ => None) (render (unparse demo_expr)) 10 = Some "no".
Proof.
  assert (ast_ok demo_expr) as He.
  { repeat split; try done; [right; by exists "yes"%string|left; done]. }
  split; [exact He|]. split; [reflexivity|].
  pose proof (expr_evaluates (fun _ _ => None) demo_expr 10 He) as H.
  assert (eval (fun _ _ => None) demo_expr = Some (CW_EXPR_string "no")) as E by (vm_compute; reflexivity).
  rewrite E in H. apply H. simpl. lia.
Defined.

(** A number that does not fit in 64 bits leaves a NULL pointer behind, which
    the operators and the result read; the smallest integer divided by -1 traps,
    and so does the check of its product with -1; and an error behind a whole
    expression does not undo its value. *)
Theorem expr_crashes regex :
  cw_expr regex "99999999999999999999 | 1" 100 = None /\
  cw_expr regex "(0 - 9223372036854775807 - 1) / -1" 100 = None /\
  cw_expr regex "-1 * (0 - 9223372036854775807 - 1)" 100 = None /\
  cw_expr regex "1 + 1 )" 100 = Some "2" /\
  cw_expr regex "1 +" 100 = Some "0" /\
  cw_expr regex "+ 1" 100 = Some "".
Proof. repeat split. Qed.

(** The text of an integer that fills the space exactly is cut, and a NUL
    counted to it. *)
Theorem expr_off_by_one regex :
  cw_expr regex "12" 2 = Some "1" /\
  cw_expr regex "6 + 6" 2 = Some ("1" +:+ String Ascii.zero EmptyString).
Proof. by split. Qed.
