(* ===== verification/Vars.v ===== *)
(** * Channel and global variables (corelib/pbx.c)

    A channel and the program as a whole keep lists of variables, the newest
    first.  [pbx_builtin_setvar_helper] and its kin change them,
    [pbx_retrieve_variable] reads them and the variables that are built in.
    Variables are compared by the hash of their names, but for the ones of a
    channel when they are retrieved.

    [None] in place of a result is a bad memory access; a string is [None] for
    the NULL pointer.  Locks and warnings are left out. *)

From S2P Require Import Prelude CStr Hash Timing Registry Args.
From stdpp Require Import pretty.
Open Scope Z_scope.

(** ** The channel *)

Record cw_callerid := {
  cid_dnid : option string;
  cid_num : option string;
  cid_name : option string;
  cid_ani : option string;
  cid_rdnis : option string;
  cid_pres : Z;
  cid_ani2 : Z;
  cid_ton : Z;
  cid_tns : Z;
}.

Record cw_pbx := { dtimeout : Z; rtimeout : Z }.

(** What of [struct cw_channel] the dialplan reads and writes.  [ch_autoloop] is
    the flag [CW_FLAG_IN_AUTOLOOP]. *)
Record cw_channel := {
  ch_name : string;
  ch_language : string;
  ch_softhangup : Z;
  ch_whentohangup : Z;
  ch_state : Z;
  ch_cid : cw_callerid;
  ch_context : string;
  ch_exten : string;
  ch_priority : Z;
  ch_pbx : option cw_pbx;
  ch_accountcode : string;
  ch_uniqueid : string;
  ch_hangupcause : Z;
  ch_varshead : list cw_var_t;
  ch_autoloop : bool;
}.

#[export] Instance cw_pbx_eta : Eta cw_pbx := fun p =>
  {| dtimeout := dtimeout p; rtimeout := rtimeout p |}.

#[export] Instance cw_channel_eta : Eta cw_channel := fun c =>
  {| ch_name := ch_name c; ch_language := ch_language c; ch_softhangup := ch_softhangup c;
     ch_whentohangup := ch_whentohangup c; ch_state := ch_state c; ch_cid := ch_cid c;
     ch_context := ch_context c; ch_exten := ch_exten c; ch_priority := ch_priority c;
     ch_pbx := ch_pbx c; ch_accountcode := ch_accountcode c; ch_uniqueid := ch_uniqueid c;
     ch_hangupcause := ch_hangupcause c; ch_varshead := ch_varshead c;
     ch_autoloop := ch_autoloop c |}.

(** The wall clock: [time(NULL)], and what [localtime_r] makes of it. *)
Record clock := {
  k_time : Z;
  k_tm : tm;
  k_sec : Z;
  k_year : Z;
}.

(** What the functions of this file work on: the channel of the caller, or
    NULL; the list handed in place of a channel's; the globals; the clock. *)
Record vstate := {
  v_chan : option cw_channel;
  v_headp : option (list cw_var_t);
  v_globals : list cw_var_t;
  v_clock : clock;
}.

#[export] Instance vstate_eta : Eta vstate := fun v =>
  {| v_chan := v_chan v; v_headp := v_headp v; v_globals := v_globals v; v_clock := v_clock v |}.

(** ** Keywords (include/callweaver/callweaver_keywords.h) *)

Definition CW_KEYWORD_CALLERID := 0x00E173C6.
Definition CW_KEYWORD_CALLERIDNUM := 0x2AA80F40.
Definition CW_KEYWORD_CALLERIDNAME := 0x04C28AF1.
Definition CW_KEYWORD_CALLERANI := 0x275B0471.
Definition CW_KEYWORD_CALLINGPRES := 0x53038954.
Definition CW_KEYWORD_CALLINGANI2 := 0x172910FA.
Definition CW_KEYWORD_CALLINGTON := 0x16FA640F.
Definition CW_KEYWORD_CALLINGTNS := 0x16F963D5.
Definition CW_KEYWORD_DNID := 0x02813E45.
Definition CW_KEYWORD_HINT := 0x3A2B3507.
Definition CW_KEYWORD_HINTNAME := 0x47AF6B32.
Definition CW_KEYWORD_EXTEN := 0x76AF848A.
Definition CW_KEYWORD_RDNIS := 0x4437ACA6.
Definition CW_KEYWORD_CONTEXT := 0x7D8222EF.
Definition CW_KEYWORD_PRIORITY := 0x63565B44.
Definition CW_KEYWORD_CHANNEL := 0x5C7D4983.
Definition CW_KEYWORD_UNIQUEID := 0x4B6D096C.
Definition CW_KEYWORD_HANGUPCAUSE := 0x3926FB5C.
Definition CW_KEYWORD_ACCOUNTCODE := 0x047D129A.
Definition CW_KEYWORD_LANGUAGE := 0x75479ED8.
Definition CW_KEYWORD_SYSTEMNAME := 0x3D58527A.
Definition CW_KEYWORD_BUSY := 0x28F00BD9.
Definition CW_KEYWORD_CHANUNAVAIL := 0x61B1E464.
Definition CW_KEYWORD_CONGESTION := 0x0C09C847.
Definition CW_KEYWORD_EPOCH := 0x0000B089.
Definition CW_KEYWORD_DATETIME := 0x2F5B471B.
Definition CW_KEYWORD_TIMESTAMP := 0x138C4996.
Definition CW_KEYWORD_SKIP := 0x3AED4AFF.
Definition CW_KEYWORD_NOANSWER := 0x5ABF695F.
Definition CW_KEYWORD_BYEXTENSION := 0x3A9C6B28.

Definition cw_hash_var_name (name : string) : Z := cw_hash_string (Some name).

Definition keywords : list (string * Z) :=
  [("CALLERID", CW_KEYWORD_CALLERID); ("CALLERIDNUM", CW_KEYWORD_CALLERIDNUM);
   ("CALLERIDNAME", CW_KEYWORD_CALLERIDNAME); ("CALLERANI", CW_KEYWORD_CALLERANI);
   ("CALLINGPRES", CW_KEYWORD_CALLINGPRES); ("CALLINGANI2", CW_KEYWORD_CALLINGANI2);
   ("CALLINGTON", CW_KEYWORD_CALLINGTON); ("CALLINGTNS", CW_KEYWORD_CALLINGTNS);
   ("DNID", CW_KEYWORD_DNID); ("HINT", CW_KEYWORD_HINT); ("HINTNAME", CW_KEYWORD_HINTNAME);
   ("EXTEN", CW_KEYWORD_EXTEN); ("RDNIS", CW_KEYWORD_RDNIS); ("CONTEXT", CW_KEYWORD_CONTEXT);
   ("PRIORITY", CW_KEYWORD_PRIORITY); ("CHANNEL", CW_KEYWORD_CHANNEL);
   ("UNIQUEID", CW_KEYWORD_UNIQUEID); ("HANGUPCAUSE", CW_KEYWORD_HANGUPCAUSE);
   ("ACCOUNTCODE", CW_KEYWORD_ACCOUNTCODE); ("LANGUAGE", CW_KEYWORD_LANGUAGE);
   ("SYSTEMNAME", CW_KEYWORD_SYSTEMNAME); ("BUSY", CW_KEYWORD_BUSY);
   ("CHANUNAVAIL", CW_KEYWORD_CHANUNAVAIL); ("CONGESTION", CW_KEYWORD_CONGESTION);
   ("EPOCH", CW_KEYWORD_EPOCH); ("DATETIME", CW_KEYWORD_DATETIME);
   ("TIMESTAMP", CW_KEYWORD_TIMESTAMP); ("SKIP", CW_KEYWORD_SKIP);
   ("NOANSWER", CW_KEYWORD_NOANSWER); ("BYEXTENSION", CW_KEYWORD_BYEXTENSION)]%string.

Lemma keywords_ok : Forall (fun p => cw_hash_var_name p.1 = p.2) keywords.
Proof. repeat (constructor; [vm_compute; reflexivity|]). constructor. Qed.

(** ** Reading *)

Definition VAR_BUF_SIZE : Z := 4096.

(** A string put in a buffer of [size] bytes by [cw_copy_string] or [snprintf]:
    without room for the terminator the buffer is overrun, or read unwritten. *)
Definition put (size : Z) (s : string) : option string :=
  if size <=? 0 then None else Some (strtake (Z.to_nat (size - 1)) s).

(** The value of a built-in variable that may be missing. *)
Definition put_opt (size : Z) (s : option string) : option (option string) :=
  match s with None => Some None | Some s => Some <$> put size s end.

Definition print_d (z : Z) : string := pretty z.

Fixpoint zeros (n : nat) : string :=
  match n with O => EmptyString | S n => String "0" (zeros n) end.

(** [%0<w>d] of a number that is not negative. *)
Definition print_0d (w : nat) (z : Z) : string :=
  zeros (w - String.length (print_d z)) +:+ print_d z.

Definition dquoted (s : string) : string := String dquote s +:+ String dquote EmptyString.

Section retrieve.
(** The extension [cw_hint_extension] finds for a channel's place: its
    application and data.  [system_name] is [cw_config_CW_SYSTEM_NAME]. *)
Context (hint : cw_channel -> option (string * option string)) (system_name : string).

(** [cw_get_hint] for one of its two answers; [workspace] is what the buffer
    holds before. *)
Definition get_hint (size : Z) (c : cw_channel) : option (option string) :=
  match hint c with None => Some None | Some (app, _) => Some <$> put size app end.

Definition get_hint_name (workspace : string) (size : Z) (c : cw_channel) : option (option string) :=
  match hint c with
  | None => Some None
  | Some (_, Some data) => Some <$> put size data
  | Some (_, None) => Some (Some workspace)
  end.

(** The variables of a channel that are built in; [None] for any other hash. *)
Definition builtin_channel (hash : Z) (c : cw_channel) (workspace : string) (size : Z)
    : option (option (option string)) :=
  let cid := ch_cid c in
  if hash =? CW_KEYWORD_CALLERID then
    Some match cid_num cid, cid_name cid with
         | Some n, Some m =>
           Some <$> put size (dquoted m +:+ " <" +:+ n +:+ ">")
         | Some n, None => Some <$> put size n
         | None, m => put_opt size m
         end
  else if hash =? CW_KEYWORD_CALLERIDNUM then Some (put_opt size (cid_num cid))
  else if hash =? CW_KEYWORD_CALLERIDNAME then Some (put_opt size (cid_name cid))
  else if hash =? CW_KEYWORD_CALLERANI then Some (put_opt size (cid_ani cid))
  else if hash =? CW_KEYWORD_CALLINGPRES then Some (Some <$> put size (print_d (cid_pres cid)))
  else if hash =? CW_KEYWORD_CALLINGANI2 then Some (Some <$> put size (print_d (cid_ani2 cid)))
  else if hash =? CW_KEYWORD_CALLINGTON then Some (Some <$> put size (print_d (cid_ton cid)))
  else if hash =? CW_KEYWORD_CALLINGTNS then Some (Some <$> put size (print_d (cid_tns cid)))
  else if hash =? CW_KEYWORD_DNID then Some (put_opt size (cid_dnid cid))
  else if hash =? CW_KEYWORD_HINT then Some (get_hint size c)
  else if hash =? CW_KEYWORD_HINTNAME then Some (get_hint_name workspace size c)
  else if hash =? CW_KEYWORD_EXTEN then Some (Some <$> put size (ch_exten c))
  else if hash =? CW_KEYWORD_RDNIS then Some (put_opt size (cid_rdnis cid))
  else if hash =? CW_KEYWORD_CONTEXT then Some (Some <$> put size (ch_context c))
  else if hash =? CW_KEYWORD_PRIORITY then Some (Some <$> put size (print_d (ch_priority c)))
  else if hash =? CW_KEYWORD_CHANNEL then Some (Some <$> put size (ch_name c))
  else if hash =? CW_KEYWORD_UNIQUEID then Some (Some <$> put size (ch_uniqueid c))
  else if hash =? CW_KEYWORD_HANGUPCAUSE then Some (Some <$> put size (print_d (ch_hangupcause c)))
  else if hash =? CW_KEYWORD_ACCOUNTCODE then Some (Some <$> put size (ch_accountcode c))
  else if hash =? CW_KEYWORD_LANGUAGE then Some (Some <$> put size (ch_language c))
  else if hash =? CW_KEYWORD_SYSTEMNAME then Some (Some <$> put size system_name)
  else None.

(** The first variable of that name, in any case; names without their leading
    underscores. *)
Fixpoint find_name (var : string) (l : list cw_var_t) : option cw_var_t :=
  match l with
  | [] => None
  | v :: l =>
    match cw_var_name (Some v) with
    | Some n => if strcaseeq n var then Some v else find_name var l
    | None => find_name var l
    end
  end.

(** The last variable with that hash. *)
Fixpoint find_last (hash : Z) (l : list cw_var_t) : option cw_var_t :=
  match l with
  | [] => None
  | v :: l =>
    match find_last hash l with
    | Some w => Some w
    | None => if hash =? var_hash v then Some v else None
    end
  end.

(** The global variables, built-in and user defined. *)
Definition retrieve_global (hash : Z) (st : vstate) (size : Z) : option (option string) :=
  let k := v_clock st in
  let t := k_tm k in
  if hash =? CW_KEYWORD_EPOCH then Some <$> put size (print_d (u32 (k_time k)))
  else if hash =? CW_KEYWORD_DATETIME then
    Some <$> put size
      (print_0d 2 (tm_mday t) +:+ print_0d 2 (tm_mon t + 1) +:+ print_0d 4 (k_year k + 1900) +:+
       "-" +:+ print_0d 2 (tm_hour t) +:+ ":" +:+ print_0d 2 (tm_min t) +:+ ":" +:+
       print_0d 2 (k_sec k))
  else if hash =? CW_KEYWORD_TIMESTAMP then
    Some <$> put size
      (print_0d 4 (k_year k + 1900) +:+ print_0d 2 (tm_mon t + 1) +:+ print_0d 2 (tm_mday t) +:+
       "-" +:+ print_0d 2 (tm_hour t) +:+ print_0d 2 (tm_min t) +:+ print_0d 2 (k_sec k))
  else put_opt size (var_value <$> find_last hash (v_globals st)).

(** The branch for a name without a slice. *)
Definition retrieve_plain (st : vstate) (var workspace : string) (size : Z)
    : option (option string) :=
  let hash := cw_hash_var_name var in
  let user l := match find_name var l with
                | Some v => Some <$> put size (var_value v)
                | None => retrieve_global hash st size
                end in
  match v_chan st with
  | Some c =>
    match builtin_channel hash c workspace size with
    | Some r => r
    | None => user (ch_varshead c)
    end
  | None =>
    match v_headp st with
    | Some l => user l
    | None => retrieve_global hash st size
    end
  end.

(** The part of the value [ret], in a buffer of [size] bytes: [offset2]
    characters from [offset] on, or that far from its end. *)
Definition slice_cut (size : Z) (ret : string) (offset offset2 : Z) : option string :=
  let n := Z.of_nat (String.length ret) in
  let offset2 := if ((offset <? 0) && (- offset <? offset2)) ||
                    ((0 <=? offset) && (n <? wrap_u 64 (s32 (offset + offset2))))
                 then (if 0 <=? offset then n - offset else n + offset) else offset2 in
  let first := if 0 <=? offset then offset else n + offset in
  let cut := first + offset2 in
  if (cut <? 0) || (size <=? cut) then None
  else
    let rest := strdrop (Z.to_nat first) ret in
    Some (if offset2 <? 0 then rest else strtake (Z.to_nat offset2) rest).

(** [length] is the number behind the second colon. *)
Definition slice_at (size : Z) (ret : string) (offset : Z) (length : option Z) : option string :=
  let n := Z.of_nat (String.length ret) in
  let offset2 := match length with
                 | Some l => l
                 | None => if 0 <=? offset then s32 (n - offset) else s32 (Z.abs offset)
                 end in
  let offset := if n <? wrap_u 64 (s32 (Z.abs offset))
                then (if 0 <=? offset then n else - n) else offset in
  slice_cut size ret offset offset2.

(** The numbers are the text behind the first colon. *)
Definition slice (size : Z) (ret spec : string) : option string :=
  slice_at size ret (atoi spec) (atoi <$> (strcut ":" spec).2).

(** The name goes through a buffer of 80 bytes; a colon that did not fit leaves
    the offset to be read behind the buffer. *)
Definition pbx_retrieve_variable (st : vstate) (var workspace : string) (size : Z)
    : option (option string) :=
  match (strcut ":" var).2 with
  | Some _ =>
    let '(name, spec) := strcut ":" (strtake 79 var) in
    ret ← retrieve_plain st name workspace (size - 1);
    match ret, spec with
    | None, _ => Some None
    | Some _, None => None
    | Some ret, Some spec => Some <$> slice size ret spec
    end
  | None => retrieve_plain st var workspace size
  end.

End retrieve.

(** ** Writing *)

(** The list without the first variable of that hash. *)
Fixpoint remove_hash (hash : Z) (l : list cw_var_t) : list cw_var_t :=
  match l with
  | [] => []
  | v :: l => if hash =? var_hash v then l else v :: remove_hash hash l
  end.

(** [CW_LIST_INSERT_HEAD] of what [cw_var_assign] returned. *)
Definition insert_var (alloc : bool) (name value : string) (l : list cw_var_t)
    : option (list cw_var_t) :=
  v ← cw_var_assign alloc name value; Some (v :: l).

(** The list of the channel, or of the globals. *)
Definition on_head (c : bool) (f : list cw_var_t -> option (list cw_var_t)) (st : vstate)
    : option vstate :=
  match (if c then v_chan st else None) with
  | Some ch => l ← f (ch_varshead ch); Some (st <| v_chan := Some (ch <| ch_varshead := l |>) |>)
  | None => l ← f (v_globals st); Some (st <| v_globals := l |>)
  end.

(** [name[strlen(name) - 1] == ')'] *)
Definition ends_paren (name : string) : option bool :=
  match name with
  | EmptyString => None
  | _ => match String.get (String.length name - 1) name with
         | Some c => Some (char_eqb c ")")
         | None => None
         end
  end.

(** The text up to the last [c], and behind it. *)
Fixpoint strrcut (c : ascii) (s : string) : option (string * string) :=
  match s with
  | EmptyString => None
  | String d s' =>
    match strrcut c s' with
    | Some (a, b) => Some (String d a, b)
    | None => if char_eqb d c then Some (EmptyString, s') else None
    end
  end.

(** The name of a function and its arguments, of [NAME(ARGS)]. *)
Definition split_call (s : string) : string * option string :=
  match strcut "(" s with
  | (function, Some args) =>
    (function, Some match strrcut ")" args with Some (a, _) => a | None => args end)
  | (function, None) => (function, None)
  end.

(** What a dialplan function returns: NULL, or a string and whether it may be
    written to. *)
Abbreviation func_result := (option (string * bool)).

Section functions.
(** The code of the registered functions, by the pointers of the registry (0 is
    NULL). *)
Context (hash_app : string -> Z) (funcs : list cw_func).
Context (read : Z -> vstate -> list string -> func_result * vstate).
Context (write : Z -> vstate -> list string -> option string -> vstate).

Definition cw_func_read (lock : bool) (st : vstate) (text : string) : func_result * vstate :=
  let '(function, args) := split_call text in
  match cw_function_find hash_app funcs lock function with
  | Some f =>
    if func_read f =? 0 then (Some ("0"%string, false), st)
    else read (func_read f) st (cw_separate_app_args "," args 100)
  | None => (Some ("0"%string, false), st)
  end.

Definition cw_func_write (lock : bool) (st : vstate) (text : string) (value : option string) : vstate :=
  let '(function, args) := split_call text in
  match cw_function_find hash_app funcs lock function with
  | Some f =>
    if func_write f =? 0 then st
    else write (func_write f) st (cw_separate_app_args "," args 100) value
  | None => st
  end.

(** [c] tells whether the channel is the one of the state or NULL. *)
Definition func_write_on (lock c : bool) (st : vstate) (name : string) (value : option string)
    : vstate :=
  if c then cw_func_write lock st name value
  else (cw_func_write lock (st <| v_chan := None |>) name value) <| v_chan := v_chan st |>.

Definition pbx_builtin_pushvar_helper (lock alloc c : bool) (st : vstate) (name : string)
    (value : option string) : option vstate :=
  f ← ends_paren name;
  if f : bool then Some (func_write_on lock c st name value)
  else match value with
       | Some value => on_head c (insert_var alloc name value) st
       | None => Some st
       end.

Definition setvar_list (alloc : bool) (name : string) (value : option string) (l : list cw_var_t)
    : option (list cw_var_t) :=
  let l := remove_hash (cw_hash_var_name (nametail name)) l in
  match value with
  | Some value => insert_var alloc name value l
  | None => Some l
  end.

Definition pbx_builtin_setvar_helper (lock alloc c : bool) (st : vstate) (name : string)
    (value : option string) : option vstate :=
  f ← ends_paren name;
  if f : bool then Some (func_write_on lock c st name value)
  else on_head c (setvar_list alloc name value) st.

End functions.

(** ** Reading by hash *)

Definition find_first (hash : Z) (l : list cw_var_t) : option cw_var_t :=
  List.find (fun v => hash =? var_hash v) l.

(** [name] NULL finds nothing. *)
Definition pbx_builtin_getvar_helper (c : bool) (st : vstate) (name : option string) : option string :=
  match name with
  | None => None
  | Some name =>
    let hash := cw_hash_var_name name in
    match (if c then v_chan st else None) with
    | Some ch =>
      match find_first hash (ch_varshead ch) with
      | Some v => Some (var_value v)
      | None => var_value <$> find_first hash (v_globals st)
      end
    | None => var_value <$> find_first hash (v_globals st)
    end
  end.

Definition pbx_builtin_clear_globals (st : vstate) : vstate := st <| v_globals := [] |>.

(** [cw_build_string]: what is added, the space that is left; [None] is an error.
    A text that does not fit is cut without one. *)
Definition cw_build_string (space : Z) (text : string) : option (string * Z) :=
  if space =? 0 then None
  else
    let result := Z.of_nat (String.length text) in
    Some (strtake (Z.to_nat (space - 1)) text, if space <? result then 0 else space - result).

(** The text, and the number of variables in it. *)
Fixpoint serialize (space : Z) (l : list cw_var_t) : string * Z :=
  match l with
  | [] => (EmptyString, 0)
  | v :: l =>
    match cw_var_name (Some v) with
    | None => (EmptyString, 0)
    | Some name =>
      match cw_build_string space (name +:+ "=" +:+ var_value v +:+ String (chr 10) EmptyString) with
      | None => (EmptyString, 0)
      | Some (t, space) => let '(s, total) := serialize space l in (t +:+ s, total + 1)
      end
    end
  end.

Definition pbx_builtin_serialize_variables (chan : option cw_channel) (size : Z) : string * Z :=
  match chan with
  | None => (EmptyString, 0)
  | Some c => serialize size (ch_varshead c)
  end.

(** Empty is false, a number is itself, any other text is true. *)
Definition pbx_checkcondition (condition : option string) : Z :=
  match condition with
  | None => 0
  | Some EmptyString => 0
  | Some (String c s) => if isdigit c then atoi (String c s) else 1
  end.

(** ** Variables are stacks of values *)

(** The values of a hash, the newest first. *)
Definition stack (l : list cw_var_t) (h : Z) : list string :=
  var_value <$> filter (fun v => var_hash v = h) l.

Lemma find_first_stack h l : var_value <$> find_first h l = head (stack l h).
Proof.
  unfold find_first, stack. induction l as [|v l IH]; simpl; [done|].
  rewrite filter_cons. destruct (Z.eqb_spec h (var_hash v)) as [->|Hne].
  - by rewrite decide_True.
  - by rewrite decide_False.
Qed.

Lemma remove_hash_stack h l k :
  stack (remove_hash h l) k = if k =? h then tail (stack l k) else stack l k.
Proof.
  unfold stack. induction l as [|v l IH]; simpl; [by case_if|].
  destruct (Z.eqb_spec h (var_hash v)) as [->|Hne]; rewrite !filter_cons.
  - destruct (Z.eqb_spec k (var_hash v)) as [Hk|Hk]; [by rewrite decide_True|by rewrite decide_False].
  - destruct (decide (var_hash v = k)) as [Hk|Hk]; [|done]. rewrite !fmap_cons, IH.
    by rewrite (proj2 (Z.eqb_neq k h)) by congruence.
Qed.

Lemma insert_var_stack name value l l' k :
  insert_var true name value l = Some l' ->
  stack l' k = if k =? cw_hash_var_name name then value :: stack l k else stack l k.
Proof.
  intros [= <-]. unfold stack. rewrite filter_cons. simpl. unfold cw_hash_var_name.
  destruct (Z.eqb_spec k (cw_hash_string (Some name))) as [->|]; [by rewrite decide_True|].
  by rewrite decide_False.
Qed.

(** The values of a name, the newest first. *)
Definition values_of (l : list cw_var_t) (name : string) : list string :=
  var_value <$> filter (fun v => var_name v = name) l.

(** The variables as [cw_var_assign] makes them, none of them with the hash of
    [name] but another name. *)
Definition hash_apart (name : string) (l : list cw_var_t) : Prop :=
  Forall (fun v => var_hash v = cw_hash_var_name (var_name v) /\
                   (var_hash v = cw_hash_var_name name -> var_name v = name)) l.

Lemma stack_values name l : hash_apart name l -> stack l (cw_hash_var_name name) = values_of l name.
Proof.
  unfold stack, values_of. induction 1 as [|v l [Hh Ha] _ IH]; [done|]. rewrite !filter_cons.
  destruct (decide (var_name v = name)) as [E|E].
  - rewrite decide_True by congruence. by rewrite !fmap_cons, IH.
  - by rewrite decide_False by auto.
Qed.

Lemma remove_hash_values name l k : hash_apart name l ->
  values_of (remove_hash (cw_hash_var_name name) l) k =
    if bool_decide (k = name) then tail (values_of l k) else values_of l k.
Proof.
  unfold values_of. induction 1 as [|v l [Hh Ha] _ IH]; simpl; [by case_bool_decide|].
  destruct (Z.eqb_spec (cw_hash_var_name name) (var_hash v)) as [E|E]; rewrite !filter_cons.
  - rewrite (Ha (eq_sym E)). destruct (decide (name = k)) as [->|Hk].
    + by rewrite bool_decide_true.
    + rewrite bool_decide_false; done.
  - destruct (decide (var_name v = k)) as [<-|Hk]; [|done]. rewrite !fmap_cons, IH.
    rewrite !bool_decide_false; [done|]. intros Hk. by rewrite Hh, Hk in E.
Qed.

Lemma hash_apart_remove name h l : hash_apart name l -> hash_apart name (remove_hash h l).
Proof.
  induction 1 as [|v l Hv H IH]; simpl; [constructor|]. case_if; [done|]. by constructor.
Qed.

Lemma insert_var_values name value l : exists l', insert_var true name value l = Some l' /\
  (forall k, values_of l' k = if bool_decide (k = name) then value :: values_of l k else values_of l k) /\
  (hash_apart name l -> hash_apart name l').
Proof.
  eexists. split; [done|]. split.
  - intros k. unfold values_of. rewrite filter_cons. simpl. destruct (decide (name = k)) as [->|Hk].
    + by rewrite bool_decide_true.
    + by rewrite bool_decide_false.
  - intros H. constructor; [|done]. done.
Qed.

Lemma find_last_stack h l : var_value <$> find_last h l = last (stack l h).
Proof.
  unfold stack. induction l as [|v l IH]; simpl; [done|]. rewrite filter_cons.
  destruct (find_last h l) as [w|] eqn:E; simpl in IH |- *.
  - destruct (decide (var_hash v = h)); [|done]. rewrite fmap_cons, last_cons, <- IH. done.
  - destruct (Z.eqb_spec h (var_hash v)) as [->|Hne].
    + rewrite decide_True by done. rewrite fmap_cons, last_cons, <- IH. done.
    + by rewrite decide_False by congruence.
Qed.

(** C17: a list of variables implements a stack of values for every name that has no
    underscore in front and whose hash no other name in the list has: pushing adds
    a value, setting replaces the newest, setting to NULL uncovers the one before,
    and none of them touches another name.  What is read by [getvar] is the newest;
    of the globals [${...}] reads the oldest. *)
Theorem variables_are_stacks name value l :
  nametail name = name -> hash_apart name l ->
  (exists l', insert_var true name value l = Some l' /\ hash_apart name l' /\
   forall k, values_of l' k = if bool_decide (k = name) then value :: values_of l k else values_of l k) /\
  (exists l', setvar_list true name (Some value) l = Some l' /\ hash_apart name l' /\
   forall k, values_of l' k = if bool_decide (k = name) then value :: tail (values_of l k)
                              else values_of l k) /\
  (exists l', setvar_list true name None l = Some l' /\ hash_apart name l' /\
   forall k, values_of l' k = if bool_decide (k = name) then tail (values_of l k) else values_of l k) /\
  (forall st c, v_chan st = Some c -> ch_varshead c = l -> values_of l name <> [] ->
     pbx_builtin_getvar_helper true st (Some name) = head (values_of l name)) /\
  (forall st, v_globals st = l -> pbx_builtin_getvar_helper false st (Some name) = head (values_of l name)) /\
  var_value <$> find_last (cw_hash_var_name name) l = last (values_of l name).
Proof.
  intros Hn Ha. pose proof (hash_apart_remove name (cw_hash_var_name name) l Ha) as Hr. split_and!.
  - destruct (insert_var_values name value l) as (l' & E & Hv & Hl). exists l'. auto.
  - unfold setvar_list. rewrite Hn.
    destruct (insert_var_values name value (remove_hash (cw_hash_var_name name) l)) as (l' & E & Hv & Hl).
    exists l'. split; [done|]. split; [auto|]. intros k. rewrite Hv, remove_hash_values by done.
    by case_bool_decide.
  - eexists. split; [done|]. rewrite Hn. split; [done|]. intros k. by apply remove_hash_values.
  - intros st c Hc Hl Hne. unfold pbx_builtin_getvar_helper. rewrite Hc, Hl.
    pose proof (find_first_stack (cw_hash_var_name name) l) as Hf. rewrite stack_values in Hf by done.
    destruct (find_first _ l) as [v|]; [done|]. simpl in Hf. by destruct (values_of l name).
  - intros st Hg. unfold pbx_builtin_getvar_helper. simpl. by rewrite Hg, find_first_stack, stack_values.
  - by rewrite find_last_stack, stack_values.
Qed.

Lemma variables_are_stacks_witness :
  exists l', setvar_list true "FOO" (Some "2"%string)
               [{| var_hash := cw_hash_var_name "FOO"; var_name := "FOO"; var_value := "1" |};
                {| var_hash := cw_hash_var_name "BAR"; var_name := "BAR"; var_value := "3" |}] = Some l' /\
             values_of l' "FOO" = ["2"%string] /\ values_of l' "BAR" = ["3"%string].
Proof.
  destruct (variables_are_stacks "FOO" "2"
    [{| var_hash := cw_hash_var_name "FOO"; var_name := "FOO"; var_value := "1" |};
     {| var_hash := cw_hash_var_name "BAR"; var_name := "BAR"; var_value := "3" |}])
    as (_ & (l' & Hl & _ & Hv) & _).
  - reflexivity.
  - apply List.Forall_cons; [split; reflexivity|]. apply List.Forall_cons; [|apply List.Forall_nil].
    split; [reflexivity|]. vm_compute. discriminate.
  - exists l'. split; [exact Hl|]. rewrite !Hv. split; vm_compute; reflexivity.
Defined.

(** A variable with an underscore in front is stored under the hash of its
    whole name but looked for under the hash of the rest: setting it again adds
    a second one, and it is never found by hash, although [${X}] reads it. *)
Theorem inherited_variable_duplicated hint sysname st c :
  v_chan st = Some c -> ch_varshead c = [] ->
  let set v st := pbx_builtin_setvar_helper (fun _ => 0) [] (fun _ s _ _ => s) true true true st
                    "_X" (Some v) in
  exists st1 st2 c2, set "1"%string st = Some st1 /\ set "2"%string st1 = Some st2 /\
    v_chan st2 = Some c2 /\ length (ch_varshead c2) = 2%nat /\
    pbx_retrieve_variable hint sysname st2 "X" "" 10 = Some (Some "2"%string) /\
    pbx_builtin_getvar_helper true st2 (Some "X"%string) =
      var_value <$> find_first (cw_hash_var_name "X") (v_globals st).
Proof.
  intros Hc Hv. simpl.
  unfold pbx_builtin_setvar_helper, on_head. cbn [ends_paren]. simpl. rewrite Hc, Hv. simpl.
  do 3 eexists. split_and!; reflexivity.
Qed.

(** ** Slices *)

(** An [int] compared with a length as [size_t]. *)
Lemma size_ltb n z :
  0 <= n <= INT_MAX -> INT_MIN <= z <= INT_MAX ->
  (n <? wrap_u 64 z) = (z <? 0) || (n <? z).
Proof.
  unfold INT_MIN, INT_MAX, wrap_u. intros Hn Hz. destruct (Z.ltb_spec z 0); simpl.
  - assert (z mod 2 ^ 64 = z + 2 ^ 64) as ->.
    { symmetry. apply (Z.mod_unique_pos _ _ (-1)); lia. }
    apply Z.ltb_lt. lia.
  - by rewrite Z.mod_small by lia.
Qed.

(** A sum of two positive [int]s that overflows is negative. *)
Lemma s32_sum a b :
  0 <= a <= INT_MAX -> 0 <= b <= INT_MAX ->
  s32 (a + b) = if a + b <=? INT_MAX then a + b else a + b - 2 ^ 32.
Proof.
  unfold INT_MAX, wrap_s. intros Ha Hb. change (2 ^ (32 - 1)) with 2147483648.
  rewrite Z.mod_small by lia. change (2 ^ 32) with 4294967296.
  destruct (Z.leb_spec (a + b) 2147483647), (Z.ltb_spec (a + b) 2147483648); lia.
Qed.

Lemma strdrop_all n s : (String.length s <= n)%nat -> strdrop n s = EmptyString.
Proof. revert n. induction s as [|c s IH]; intros [|n]; simpl; try done; [lia|]. intros. apply IH. lia. Qed.

Lemma strtake_nil n : strtake n EmptyString = EmptyString.
Proof. by destruct n. Qed.

(** Case on the comparisons, those of plain operands first. *)
Ltac plain t := lazymatch t with context [if _ then _ else _] => fail | _ => idtac end.

Ltac zcases :=
  repeat (match goal with
          | |- context [?a <? ?b] => plain a; plain b; destruct (Z.ltb_spec a b)
          | |- context [?a <=? ?b] => plain a; plain b; destruct (Z.leb_spec a b)
          end; cbn [andb orb negb]; try lia).

Section slices.
Context (size : Z) (ret : string).
Let n := Z.of_nat (String.length ret).
Context (Hsize : n < size) (Hmax : size <= INT_MAX).

Lemma slice_cut_start offset l :
  0 <= offset <= n -> 0 <= l <= INT_MAX ->
  slice_cut size ret offset l = Some (strtake (Z.to_nat l) (strdrop (Z.to_nat offset) ret)).
Proof.
  intros Ho Hl. unfold slice_cut. fold n. rewrite s32_sum by lia.
  rewrite size_ltb by (unfold INT_MIN, INT_MAX in *; first [lia|case_if; b2p; lia]).
  unfold INT_MAX in *. zcases; try done;
    by rewrite !strtake_all by (rewrite strdrop_length; unfold n in *; lia).
Qed.

(** A negative number of characters cuts in front of the slice. *)
Lemma slice_cut_rest offset l :
  0 <= offset <= n -> INT_MIN <= l < 0 ->
  slice_cut size ret offset l = Some (strdrop (Z.to_nat offset) ret).
Proof.
  intros Ho Hl. unfold slice_cut. fold n. unfold INT_MIN, INT_MAX in *.
  rewrite s32_id by (unfold INT_MIN, INT_MAX; lia).
  rewrite size_ltb by (unfold INT_MIN, INT_MAX; lia).
  zcases; try done; by rewrite strtake_all by (rewrite strdrop_length; unfold n in *; lia).
Qed.

Lemma slice_cut_end offset l :
  - n <= offset < 0 -> 0 <= l <= - offset ->
  slice_cut size ret offset l = Some (strtake (Z.to_nat l) (strdrop (Z.to_nat (n + offset)) ret)).
Proof. intros Ho Hl. unfold slice_cut. fold n. unfold INT_MAX in *. zcases; done. Qed.

(** The offset is clamped to the length. *)
Lemma slice_clamp offset l :
  INT_MIN < offset <= INT_MAX ->
  slice_at size ret offset (Some l) = slice_cut size ret (Z.max (- n) (Z.min n offset)) l.
Proof.
  intros Ho. unfold slice_at. fold n. assert (0 <= n) by (unfold n; lia).
  rewrite s32_id by (unfold INT_MIN, INT_MAX in *; lia).
  rewrite size_ltb by (unfold INT_MIN, INT_MAX in *; lia). f_equal. zcases.
Qed.

(** A slice [${X:offset:length}] is [length] characters of the value from
    [offset] on, or from that far before its end, and without a length all from
    there on, if an offset from the end is within the value and the length within
    the slice. *)
Theorem slice_selects offset :
  INT_MIN < offset <= INT_MAX -> - n <= offset ->
  let first := if 0 <=? offset then offset else n + offset in
  slice_at size ret offset None = Some (strdrop (Z.to_nat first) ret) /\
  forall l, 0 <= l <= INT_MAX -> (offset < 0 -> l <= - offset) ->
    slice_at size ret offset (Some l) = Some (strtake (Z.to_nat l) (strdrop (Z.to_nat first) ret)).
Proof.
  intros Ho Hn first. assert (0 <= n) by (unfold n; lia).
  assert (forall m, n <= m -> strdrop (Z.to_nat m) ret = EmptyString) as Hd.
  { intros m Hm. apply strdrop_all. unfold n in *. lia. }
  split.
  - trans (slice_at size ret offset (Some (if 0 <=? offset then n - offset else - offset))).
    { unfold slice_at. fold n. destruct (Z.leb_spec 0 offset).
      - by rewrite (s32_id (n - offset)) by (unfold INT_MIN, INT_MAX in *; lia).
      - rewrite (s32_id (Z.abs offset)) by (unfold INT_MIN, INT_MAX in *; lia).
        by rewrite (Z.abs_neq offset) by lia. }
    rewrite slice_clamp by done. unfold first. destruct (Z.leb_spec 0 offset).
    + destruct (Z.le_gt_cases offset n).
      * rewrite Z.min_r, Z.max_r, slice_cut_start by lia. f_equal. apply strtake_all.
        rewrite strdrop_length. unfold n. lia.
      * rewrite Z.min_l, Z.max_r, slice_cut_rest by (unfold INT_MIN, INT_MAX in *; lia).
        by rewrite !Hd by lia.
    + rewrite Z.min_r, Z.max_r, slice_cut_end by lia. f_equal. apply strtake_all.
      rewrite strdrop_length. unfold n. lia.
  - intros l Hl Hlo. rewrite slice_clamp by done. unfold first. destruct (Z.leb_spec 0 offset).
    + destruct (Z.le_gt_cases offset n).
      * by rewrite Z.min_r, Z.max_r, slice_cut_start by lia.
      * rewrite Z.min_l, Z.max_r, slice_cut_start by lia. by rewrite !Hd by lia.
    + rewrite Z.min_r, Z.max_r, slice_cut_end by lia. done.
Qed.

End slices.

Lemma slice_selects_witness :
  slice_at 4096 "5551234" (-4) (Some 2) = Some "12"%string.
Proof.
  apply (slice_selects 4096 "5551234" ltac:(simpl; lia) ltac:(unfold INT_MAX; lia) (-4));
    unfold INT_MIN, INT_MAX; simpl; lia.
Defined.

(** Outside of that: an offset beyond the start of the value keeps nothing of
    it, a length beyond the end may cut the slice short, and the terminator may
    be written in front of the buffer or behind its end. *)
Theorem slice_from_end_wrong :
  slice_at 4096 "abc" (-10) None = Some ""%string /\
  slice_at 4096 "abc" (-2) (Some 5) = Some "b"%string /\
  slice_at 4096 "abc" (-2) (Some (-3)) = None /\
  forall ret, 3000 <= Z.of_nat (String.length ret) < 4096 ->
    slice_at 4096 ret (-1) (Some 2) = None.
Proof.
  split_and!; [done..|]. intros ret Hn.
  rewrite slice_clamp by (unfold INT_MIN, INT_MAX; lia).
  rewrite Z.min_r, Z.max_r by lia. unfold slice_cut. simpl. zcases; done.
Qed.

(** ** What was set is retrieved *)

Section set_retrieve.
Context (hint : cw_channel -> option (string * option string)) (system_name : string).
Context (hash_app : string -> Z) (funcs : list cw_func).
Context (write : Z -> vstate -> list string -> option string -> vstate).

(** A variable set on a channel is read back by its name, with or without the
    underscores it was set with, in any case of the letters, cut to the buffer,
    unless the name is one of a built-in variable. *)
Theorem set_then_retrieved lock st c name value var ws size :
  v_chan st = Some c -> ends_paren name = Some false -> 0 < size ->
  strcaseeq (nametail name) var = true -> (strcut ":" var).2 = None ->
  (forall c', builtin_channel hint system_name (cw_hash_var_name var) c' ws size = None) ->
  exists st', pbx_builtin_setvar_helper hash_app funcs write lock true true st name (Some value) = Some st' /\
    pbx_retrieve_variable hint system_name st' var ws size =
      Some (Some (strtake (Z.to_nat (size - 1)) value)).
Proof.
  intros Hc Hp Hsize Hn Hcol Hb. unfold pbx_builtin_setvar_helper. rewrite Hp. simpl.
  unfold on_head. rewrite Hc. simpl. eexists. split; [done|].
  unfold pbx_retrieve_variable. rewrite Hcol. unfold retrieve_plain. simpl. rewrite Hb.
  rewrite Hn. simpl.
  unfold put. by rewrite (proj2 (Z.leb_gt size 0)) by lia.
Qed.

End set_retrieve.

Definition no_cid : cw_callerid :=
  {| cid_dnid := None; cid_num := None; cid_name := None; cid_ani := None; cid_rdnis := None;
     cid_pres := 0; cid_ani2 := 0; cid_ton := 0; cid_tns := 0 |}.

Definition demo_chan : cw_channel :=
  {| ch_name := "SIP/100"; ch_language := "en"; ch_softhangup := 0; ch_whentohangup := 0;
     ch_state := 6; ch_cid := no_cid; ch_context := "default"; ch_exten := "100"; ch_priority := 1;
     ch_pbx := None; ch_accountcode := ""; ch_uniqueid := "1"; ch_hangupcause := 0;
     ch_varshead := []; ch_autoloop := false |}.

Definition demo_clock : clock :=
  {| k_time := 1200000000; k_tm := {| tm_min := 20; tm_hour := 21; tm_mday := 10; tm_mon := 0;
     tm_wday := 4 |}; k_sec := 5; k_year := 108 |}.

Definition demo_vstate : vstate :=
  {| v_chan := Some demo_chan; v_headp := None; v_globals := []; v_clock := demo_clock |}.

Lemma set_then_retrieved_witness :
  exists st', pbx_builtin_setvar_helper (fun _ => 0) [] (fun _ s _ _ => s) true true true demo_vstate
                "__Foo" (Some "bar"%string) = Some st' /\
    pbx_retrieve_variable (fun _ => None) "" st' "FOO" "" 4096 = Some (Some "bar"%string).
Proof.
  apply (set_then_retrieved (fun _ => None) "" (fun _ => 0) [] (fun _ s _ _ => s) true demo_vstate
           demo_chan "__Foo" "bar" "FOO" "" 4096); try reflexivity.
Defined.

Lemma inherited_variable_duplicated_witness :
  exists st1 st2 c2,
    pbx_builtin_setvar_helper (fun _ => 0) [] (fun _ s _ _ => s) true true true demo_vstate "_X"
      (Some "1"%string) = Some st1 /\
    pbx_builtin_setvar_helper (fun _ => 0) [] (fun _ s _ _ => s) true true true st1 "_X"
      (Some "2"%string) = Some st2 /\
    v_chan st2 = Some c2 /\ length (ch_varshead c2) = 2%nat /\
    pbx_retrieve_variable (fun _ => None) "" st2 "X" "" 10 = Some (Some "2"%string) /\
    pbx_builtin_getvar_helper true st2 (Some "X"%string) = None.
Proof.
  exact (inherited_variable_duplicated (fun _ => None) "" demo_vstate demo_chan eq_refl eq_refl).
Defined.

(** The global variables that are built in. *)
Example builtin_globals :
  pbx_retrieve_variable (fun _ => None) "" demo_vstate "DATETIME" "" 80 =
    Some (Some "10012008-21:20:05"%string) /\
  pbx_retrieve_variable (fun _ => None) "" demo_vstate "TIMESTAMP:0:8" "" 80 =
    Some (Some "20080110"%string) /\
  pbx_retrieve_variable (fun _ => None) "" demo_vstate "EXTEN:1" "" 80 = Some (Some "00"%string).
Proof. by vm_compute. Qed.
