(* ===== verification/Subst.v ===== *)
(** * Substitution of variables and expressions (corelib/pbx.c)

    [pbx_substitute_variables_helper_full] copies a text into a buffer and
    replaces [${NAME}] by the value of a variable or a dialplan function and
    [$[EXPR]] by the value of an expression; names and expressions are
    substituted first themselves.

    Strings are without their terminators; the bytes taken from an expression
    may hold a NUL, where the text ends.  A run that reads or writes outside its
    buffers is [Fault]. *)

From S2P Require Import Prelude CStr Hash Timing Registry Args Vars Expr.
Open Scope Z_scope.

Inductive outcome (A : Type) :=
  | Done (a : A)
  | Fault
  | NoFuel.
Arguments Done {A} a.
Arguments Fault {A}.
Arguments NoFuel {A}.

#[export] Instance outcome_bind : MBind outcome := fun A B f m =>
  match m with Done a => f a | Fault => Fault | NoFuel => NoFuel end.

Definition guarded {A} (o : option A) : outcome A :=
  match o with Some a => Done a | None => Fault end.

Definition strlen (s : string) : Z := Z.of_nat (String.length s).

(** The text up to its first NUL. *)
Definition cstr (s : string) : string := (strcut Ascii.zero s).1.

Definition head_is (d : ascii) (s : string) : bool :=
  match s with String e _ => char_eqb e d | EmptyString => false end.

(** From behind [${] to the brace that closes it, what follows it, and whether
    there is something to substitute in between. *)
Fixpoint var_end (brackets : nat) (s : string) : string * string * bool :=
  match brackets, s with
  | O, _ => (EmptyString, s, false)
  | _, EmptyString => (EmptyString, EmptyString, false)
  | S b, String c s' =>
    let '(b', need) :=
      if char_eqb c "$" && head_is "{" s' then (S b, true)
      else if char_eqb c "{" then (S (S b), false)
      else if char_eqb c "}" then (b, false)
      else (S b, char_eqb c "$" && head_is "[" s') in
    let '(x, r, n) := var_end b' s' in
    (String c x, r, need || n)
  end.

(** The same for [$[]; here the openings are taken as one. *)
Fixpoint expr_end (brackets : nat) (s : string) : string * string * bool :=
  match brackets, s with
  | O, _ => (EmptyString, s, false)
  | _, EmptyString => (EmptyString, EmptyString, false)
  | S b, String c s' =>
    let one _ :=
      let b' := if char_eqb c "[" then S (S b) else if char_eqb c "]" then b else S b in
      let '(x, r, n) := expr_end b' s' in (String c x, r, n) in
    match s' with
    | String d s'' =>
      if char_eqb c "$" && char_eqb d "[" then
        let '(x, r, _) := expr_end (S (S b)) s'' in (String c (String d x), r, true)
      else if char_eqb c "$" && char_eqb d "{" then
        let '(x, r, _) := expr_end (S b) s'' in (String c (String d x), r, true)
      else one tt
    | EmptyString => one tt
    end
  end.

(** [sscanf(cp4, "):%d:%d", &pos, &length)] on what follows the parenthesis. *)
Definition scan_slice (s : string) : Z * Z :=
  match s with
  | String ":" s =>
    match scan_int s with
    | Some (pos, r) =>
      match r with
      | String ":" r =>
        match scan_int r with Some (length, _) => (pos, length) | None => (pos, VAR_BUF_SIZE) end
      | _ => (pos, VAR_BUF_SIZE)
      end
    | None => (0, VAR_BUF_SIZE)
    end
  | _ => (0, VAR_BUF_SIZE)
  end.

(** The part of a function's result; the terminator of a shorter one is written
    into it. *)
Definition func_slice (pos length : Z) (text : string) (writable : bool) : option string :=
  let n := strlen text in
  let first := if pos <? 0 then (if n + pos <=? 0 then 0 else n + pos)
               else if n <? pos then n else pos in
  let rest := strdrop (Z.to_nat first) text in
  if first + length <? n then
    if negb writable || (first + length <? 0) then None
    else Some (if length <? 0 then rest else strtake (Z.to_nat length) rest)
  else Some rest.

Section substitute.
Context (hint : cw_channel -> option (string * option string)) (system_name : string).
Context (hash_app : string -> Z) (funcs : list cw_func) (lock : bool).
Context (read : Z -> vstate -> list string -> func_result * vstate).
Context (regex : string -> string -> option (nat * option (Z * Z * option (Z * Z)))).

(** The value of what stands between the braces; [None] is NULL. *)
Definition variable (st : vstate) (vars : string) : outcome (option string * vstate) :=
  match strrcut ")" vars with
  | Some (a, b) =>
    let '(pos, length) := scan_slice b in
    let '(r, st) := cw_func_read hash_app funcs read lock st (a +:+ ")") in
    match r with
    | None => Done (None, st)
    | Some (text, writable) =>
      t ← guarded (func_slice pos length text writable); Done (Some t, st)
    end
  | None => v ← guarded (pbx_retrieve_variable hint system_name st vars "" VAR_BUF_SIZE); Done (v, st)
  end.

(** The name or expression copied out: without its closing bracket, into a
    buffer of a fixed size. *)
Definition copy_inner (inner : string) : outcome string :=
  match inner with
  | EmptyString => Fault
  | _ => if VAR_BUF_SIZE <? strlen inner then Fault
         else Done (strtake (String.length inner - 1) inner)
  end.

(** The text between the brackets with what is in it substituted, if needed, by
    [rec] into a buffer of [size] bytes. *)
Definition expand (rec : vstate -> string -> Z -> outcome (string * vstate)) (st : vstate)
    (size : Z) (inner : string) (need : bool) : outcome (string * vstate) :=
  var ← copy_inner inner;
  if need then '(s, st) ← rec st var (size - 1); Done (cstr s, st)
  else Done (var, st).

(** The loop, on the text from [whereweare] on with room for [count]
    characters: what it writes. *)
Fixpoint subst_loop (fuel : nat) (st : vstate) (whereweare : string) (count : Z)
    : outcome (string * vstate) :=
  match fuel with
  | O => NoFuel
  | S fuel =>
    match whereweare with
    | EmptyString => Done (EmptyString, st)
    | _ =>
      if count =? 0 then Done (EmptyString, st) else
      match strcut "$" whereweare with
      | (_, None) => Done (strtake (Z.to_nat count) whereweare, st)
      | (pre, Some r) =>
        if head_is "{" r then
          let t := strtake (Z.to_nat count) pre in
          let count := count - strlen t in
          let '(inner, rest, need) := var_end 1 (strdrop 1 r) in
          '(vars, st) ← expand (subst_loop fuel) st VAR_BUF_SIZE inner need;
          '(v, st) ← variable st vars;
          let u := strtake (Z.to_nat count) (default EmptyString v) in
          '(s, st) ← subst_loop fuel st rest (count - strlen u);
          Done (t +:+ u +:+ s, st)
        else if head_is "[" r then
          let t := strtake (Z.to_nat count) pre in
          let count := count - strlen t in
          let '(inner, rest, need) := expr_end 1 (strdrop 1 r) in
          '(vars, st) ← expand (subst_loop fuel) st (VAR_BUF_SIZE - 1) inner need;
          u ← guarded (cw_expr regex vars count);
          '(s, st) ← subst_loop fuel st rest (count - strlen u);
          Done (t +:+ u +:+ s, st)
        else
          let t := strtake (Z.to_nat count) (pre +:+ "$") in
          '(s, st) ← subst_loop fuel st r (count - strlen t);
          Done (t +:+ s, st)
      end
    end
  end.

(** A round takes a character of the text at least, and a nested text is
    shorter: the length is fuel enough. *)
Definition pbx_substitute_variables_helper_full (st : vstate) (cp1 : string) (count : Z)
    : outcome (string * vstate) :=
  if count <=? 0 then Fault
  else '(s, st) ← subst_loop (S (String.length cp1)) st cp1 (count - 1); Done (cstr s, st).

Definition pbx_substitute_variables_helper (st : vstate) (cp1 : string) (count : Z)
    : outcome (string * vstate) :=
  pbx_substitute_variables_helper_full (st <| v_headp := None |>) cp1 count.

Definition pbx_substitute_variables_varshead (headp : list cw_var_t) (st : vstate) (cp1 : string)
    (count : Z) : outcome (string * vstate) :=
  pbx_substitute_variables_helper_full (st <| v_chan := None |> <| v_headp := Some headp |>) cp1 count.

(** The data of an extension; text without a dollar is only copied. *)
Definition pbx_substitute_variables (st : vstate) (data : string) (datalen : Z)
    : outcome (string * vstate) :=
  match (strcut "$" data).2 with
  | None => t ← guarded (put datalen data); Done (t, st)
  | Some _ => pbx_substitute_variables_helper st data datalen
  end.

End substitute.

(** ** Termination and bounds *)

Lemma strcut_lengths c s a b :
  strcut c s = (a, Some b) -> (String.length s = String.length a + S (String.length b))%nat.
Proof. intros H. apply strcut_app in H as ->. rewrite length_append. done. Qed.

Lemma var_end_length n s x r b :
  var_end n s = (x, r, b) -> (String.length x + String.length r = String.length s)%nat.
Proof.
  revert n x r b. induction s as [|c s IH]; intros [|n] x r b; simpl; try (intros [= <- <- _]; done).
  set (st := if _ && _ then _ else _). destruct st as [b' need].
  destruct (var_end b' s) as [[x' r'] m] eqn:E. intros [= <- <- _]. simpl. f_equal. by eapply IH.
Qed.

(** Strings by pairs of characters. *)
Lemma string_ind2 (P : string -> Prop) :
  P EmptyString -> (forall c, P (String c EmptyString)) ->
  (forall c d s, P s -> P (String d s) -> P (String c (String d s))) -> forall s, P s.
Proof.
  intros H0 H1 H2. assert (forall s, P s /\ forall c, P (String c s)) as H.
  { induction s as [|d s [IH1 IH2]]; split; auto. }
  intros s. apply H.
Qed.

Lemma expr_end_length n s x r b :
  expr_end n s = (x, r, b) -> (String.length x + String.length r = String.length s)%nat.
Proof.
  revert n x r b. induction s as [|c|c d s IH1 IH2] using string_ind2; intros [|n] x r b;
    try (by intros [= <- <- _]).
  - cbn [expr_end]. destruct (char_eqb c "["), (char_eqb c "]"), n; by intros [= <- <- _].
  - remember (String d s) as t. cbn [expr_end]. rewrite Heqt at 1. case_if; [|case_if].
    + destruct (expr_end (S (S n)) s) as [[x' r'] m] eqn:E'. intros [= <- <- _].
      apply IH1 in E'. subst t. simpl. lia.
    + destruct (expr_end (S n) s) as [[x' r'] m] eqn:E'. intros [= <- <- _].
      apply IH1 in E'. subst t. simpl. lia.
    + match goal with |- context [expr_end ?b t] =>
        destruct (expr_end b t) as [[x' r'] m] eqn:E' end.
      intros [= <- <- _]. apply IH2 in E'. simpl in *. lia.
Qed.

Lemma copy_inner_length inner v :
  copy_inner inner = Done v -> (String.length v < String.length inner)%nat.
Proof.
  unfold copy_inner. destruct inner as [|c s]; [done|]. case_if; [done|]. intros [= <-].
  rewrite strtake_length. cbn [String.length]. lia.
Qed.

Lemma strdrop_1_length r d : head_is d r = true -> String.length r = S (String.length (strdrop 1 r)).
Proof. by destruct r. Qed.

(** ** Texts and what they stand for *)

(** A text with variables and expressions in it, which hold texts again. *)
Inductive tmpl :=
  | TNil
  | TText (c : ascii) (t : tmpl)
  | TVar (inner t : tmpl)
  | TExpr (inner t : tmpl).

Fixpoint trender (t : tmpl) : string :=
  match t with
  | TNil => EmptyString
  | TText c t => String c (trender t)
  | TVar i t => String "$" (String "{" (trender i +:+ String "}" (trender t)))
  | TExpr i t => String "$" (String "[" (trender i +:+ String "]" (trender t)))
  end.

Definition ordinary (c : ascii) : bool :=
  negb (existsb (char_eqb c) ["$"; "{"; "}"; "["; "]"; Ascii.zero]%char).

Fixpoint twf (t : tmpl) : Prop :=
  match t with
  | TNil => True
  | TText c t => ordinary c = true /\ twf t
  | TVar i t | TExpr i t => twf i /\ twf t
  end.

Fixpoint has_sub (t : tmpl) : bool :=
  match t with TNil => false | TText _ t => has_sub t | TVar _ _ | TExpr _ _ => true end.

Lemma ordinary_facts c :
  ordinary c = true ->
  char_eqb c "$" = false /\ char_eqb c "{" = false /\ char_eqb c "}" = false /\
  char_eqb c "[" = false /\ char_eqb c "]" = false /\ char_eqb c Ascii.zero = false.
Proof. unfold ordinary. simpl. intros H. b2p. by split_and!. Qed.

(** The search for the closing bracket runs over a whole text. *)
Lemma var_end_render b t s :
  twf t ->
  var_end (S b) (trender t +:+ s) =
  let '(x, r, n) := var_end (S b) s in (trender t +:+ x, r, has_sub t || n).
Proof.
  revert b s. induction t as [|c t IH|i IHi t IHt|i IHi t IHt]; intros b s; cbn [trender twf has_sub].
  - intros _. rewrite string_nil_app. by destruct (var_end (S b) s) as [[x r] n].
  - intros [(E1 & E2 & E3 & _)%ordinary_facts Ht]. rewrite string_cons_app. cbn [var_end].
    rewrite E1, E2, E3. cbn [andb]. rewrite IH by done.
    by destruct (var_end (S b) s) as [[x r] n].
  - intros [Hi Ht]. rewrite !string_cons_app, string_app_assoc, string_cons_app.
    cbn [var_end head_is char_eqb]. change (char_eqb "$" "$" && char_eqb "{" "{") with true.
    cbn [andb]. change (char_eqb "{" "$" && _) with false. change (char_eqb "{" "{") with true. cbv iota.
    rewrite IHi by done. cbn [var_end]. change (char_eqb "}" "$" && _) with false.
    change (char_eqb "}" "{") with false. change (char_eqb "}" "}") with true. cbv iota.
    rewrite IHt by done. destruct (var_end (S b) s) as [[x r] n]. cbn [orb].
    by rewrite !string_cons_app, string_app_assoc, string_cons_app.
  - intros [Hi Ht]. rewrite !string_cons_app, string_app_assoc, string_cons_app.
    cbn [var_end head_is]. change (char_eqb "$" "$" && char_eqb "[" "{") with false.
    change (char_eqb "$" "{") with false. change (char_eqb "$" "}") with false.
    change (char_eqb "$" "$" && char_eqb "[" "[") with true. cbv iota.
    change (char_eqb "[" "$" && _) with false. change (char_eqb "[" "{") with false.
    change (char_eqb "[" "}") with false. cbv iota.
    rewrite IHi by done. cbn [var_end]. change (char_eqb "]" "$" && _) with false.
    change (char_eqb "]" "{") with false. change (char_eqb "]" "}") with false. cbv iota.
    rewrite IHt by done. destruct (var_end (S b) s) as [[x r] n]. cbn [orb].
    by rewrite !string_cons_app, string_app_assoc, string_cons_app.
Qed.

(** A character that opens nothing. *)
Lemma expr_end_char b c s :
  char_eqb c "$" = false ->
  expr_end (S b) (String c s) =
  let '(x, r, n) := expr_end (if char_eqb c "[" then S (S b) else if char_eqb c "]" then b else S b) s in
  (String c x, r, n).
Proof. intros E. cbn [expr_end]. by destruct s; rewrite ?E. Qed.

Lemma expr_end_render b t s :
  twf t ->
  expr_end (S b) (trender t +:+ s) =
  let '(x, r, n) := expr_end (S b) s in (trender t +:+ x, r, has_sub t || n).
Proof.
  revert b s. induction t as [|c t IH|i IHi t IHt|i IHi t IHt]; intros b s; cbn [trender twf has_sub].
  - intros _. rewrite string_nil_app. by destruct (expr_end (S b) s) as [[x r] n].
  - intros [(E1 & _ & _ & E4 & E5 & _)%ordinary_facts Ht].
    rewrite string_cons_app, expr_end_char, E4, E5, IH by done.
    by destruct (expr_end (S b) s) as [[x r] n].
  - intros [Hi Ht]. rewrite !string_cons_app, string_app_assoc, string_cons_app.
    cbn [expr_end]. change (char_eqb "$" "$" && char_eqb "{" "[") with false.
    change (char_eqb "$" "$" && char_eqb "{" "{") with true. cbv iota.
    rewrite IHi, expr_end_char by done. change (char_eqb "}" "[") with false.
    change (char_eqb "}" "]") with false. cbv iota.
    rewrite IHt by done. destruct (expr_end (S b) s) as [[x r] n].
    by rewrite !string_cons_app, string_app_assoc, string_cons_app.
  - intros [Hi Ht]. rewrite !string_cons_app, string_app_assoc, string_cons_app.
    cbn [expr_end]. change (char_eqb "$" "$" && char_eqb "[" "[") with true. cbv iota.
    rewrite IHi, expr_end_char by done. change (char_eqb "]" "[") with false.
    change (char_eqb "]" "]") with true. cbv iota.
    rewrite IHt by done. destruct (expr_end (S b) s) as [[x r] n].
    by rewrite !string_cons_app, string_app_assoc, string_cons_app.
Qed.

Lemma var_end_close s : var_end 1 (String "}" s) = ("}"%string, s, false).
Proof. by destruct s. Qed.

Lemma expr_end_close s : expr_end 1 (String "]" s) = ("]"%string, s, false).
Proof. by destruct s. Qed.

Fixpoint nonul (s : string) : bool :=
  match s with EmptyString => true | String c s => negb (char_eqb c Ascii.zero) && nonul s end.

Lemma cstr_nonul s : nonul s = true -> cstr s = s.
Proof.
  unfold cstr. induction s as [|c s IH]; [done|]. simpl. intros H. b2p. rewrite H.
  specialize (IH H0). destruct (strcut Ascii.zero s). simpl in *. congruence.
Qed.

(** The whole text of an expression's value. *)
Definition expr_text regex (e : string) : option string :=
  r ← cw_yyparse regex (lex (String.length e) e);
  match r with None => Some "0"%string | Some v => to_string v end.

Lemma expr_text_fits regex e s n :
  expr_text regex e = Some s -> strlen s < n -> cw_expr regex e n = Some s.
Proof.
  unfold expr_text, cw_expr. destruct (cw_yyparse _ _) as [[v|]|]; [| |done]; simpl.
  - apply give_fits.
  - intros [= <-] Hn. by rewrite (proj2 (Z.ltb_lt 1 n)).
Qed.

Section theory.
Context (hint : cw_channel -> option (string * option string)) (system_name : string).
Context (hash_app : string -> Z) (funcs : list cw_func) (lock : bool).
Context (read : Z -> vstate -> list string -> func_result * vstate).
Context (regex : string -> string -> option (nat * option (Z * Z * option (Z * Z)))).

Abbreviation value := (variable hint system_name hash_app funcs lock read).
Abbreviation loop := (subst_loop hint system_name hash_app funcs lock read regex).

Lemma value_fuel st vars : value st vars <> NoFuel.
Proof.
  unfold variable. destruct (strrcut ")" vars) as [[a b]|].
  - destruct (scan_slice b). destruct (cw_func_read _ _ _ _ _ _) as [[[t w]|] st']; [|done].
    by destruct (func_slice _ _ _ _).
  - by destruct (pbx_retrieve_variable _ _ _ _ _ _).
Qed.

Lemma bind_fuel {A B} (m : outcome A) (f : A -> outcome B) :
  m <> NoFuel -> (forall a, m = Done a -> f a <> NoFuel) -> (m ≫= f) <> NoFuel.
Proof. intros Hm Hf. destruct m; simpl; auto. Qed.

Lemma guarded_fuel {A} (o : option A) : guarded o <> NoFuel.
Proof. by destruct o. Qed.

Lemma expand_fuel rec st size inner need n :
  (forall st w k, (String.length w < n)%nat -> rec st w k <> NoFuel) ->
  (String.length inner <= n)%nat -> expand rec st size inner need <> NoFuel.
Proof.
  intros Hrec Hn. apply bind_fuel.
  - unfold copy_inner. destruct inner; [done|]. by case_if.
  - intros v Hv%copy_inner_length. destruct need; [|done]. apply bind_fuel; [|by intros []].
    apply Hrec. lia.
Qed.

(** Nested calls, and calls on the rest, have less to do. *)
Lemma loop_fuel fuel st w count : (String.length w < fuel)%nat -> loop fuel st w count <> NoFuel.
Proof.
  revert st w count. induction fuel as [|fuel IH]; intros st w count Hl; [lia|]. cbn [subst_loop].
  destruct w as [|c w]; [done|]. case_if; [done|].
  destruct (strcut "$" (String c w)) as [pre [r|]] eqn:Hcut; [|done].
  apply strcut_lengths in Hcut.
  destruct (head_is "{" r) eqn:H1; [|destruct (head_is "[" r) eqn:H2].
  - apply strdrop_1_length in H1. destruct (var_end 1 (strdrop 1 r)) as [[inner rest] need] eqn:He.
    apply var_end_length in He.
    apply bind_fuel; [by eapply expand_fuel; [exact IH|lia]|]. intros [vars st1] _.
    apply bind_fuel; [apply value_fuel|]. intros [v st2] _.
    apply bind_fuel; [apply IH; lia|]. by intros [].
  - apply strdrop_1_length in H2. destruct (expr_end 1 (strdrop 1 r)) as [[inner rest] need] eqn:He.
    apply expr_end_length in He.
    apply bind_fuel; [by eapply expand_fuel; [exact IH|lia]|]. intros [vars st1] _.
    apply bind_fuel; [apply guarded_fuel|]. intros u _.
    apply bind_fuel; [apply IH; lia|]. by intros [].
  - apply bind_fuel; [apply IH; lia|]. by intros [].
Qed.

Lemma bind_done {A B} (m : outcome A) (f : A -> outcome B) b :
  (m ≫= f) = Done b -> exists a, m = Done a /\ f a = Done b.
Proof. destruct m; simpl; try done. eauto. Qed.

(** The loop stays within the room it has. *)
Lemma loop_bound fuel st w count s st' :
  0 <= count -> loop fuel st w count = Done (s, st') -> strlen s <= count.
Proof.
  revert st w count s st'. induction fuel as [|fuel IH]; intros st w count s st' Hc; [done|].
  assert (forall t, strlen (strtake (Z.to_nat count) t) <= count) as Ht.
  { intros t. unfold strlen. rewrite strtake_length. lia. }
  cbn [subst_loop]. destruct w as [|c w]; [by intros [= <- _]|]. case_if; [by intros [= <- _]|].
  destruct (strcut "$" (String c w)) as [pre [r|]]; [|intros [= <- _]; apply Ht].
  destruct (head_is "{" r); [|destruct (head_is "[" r)].
  - destruct (var_end 1 (strdrop 1 r)) as [[inner rest] need].
    intros ([vars st1] & _ & ([v st2] & _ & ([s' st3] & Hs & [= <- <-])%bind_done)%bind_done)%bind_done.
    specialize (Ht pre). apply IH in Hs; unfold strlen in *; rewrite ?length_append, ?strtake_length in *; lia.
  - destruct (expr_end 1 (strdrop 1 r)) as [[inner rest] need].
    intros ([vars st1] & _ & (u & Hu & ([s' st3] & Hs & [= <- <-])%bind_done)%bind_done)%bind_done.
    destruct (cw_expr _ _ _) as [u'|] eqn:Hu'; [|done]. injection Hu as ->.
    specialize (Ht pre). apply cw_expr_length in Hu'; [|unfold strlen in *; lia].
    apply IH in Hs; unfold strlen in *; rewrite ?length_append, ?strtake_length in *; lia.
  - intros ([s' st3] & Hs & [= <- <-])%bind_done.
    specialize (Ht (pre +:+ "$")). apply IH in Hs; unfold strlen in *; rewrite ?length_append, ?strtake_length in *; lia.
Qed.

Lemma cstr_length s : (String.length (cstr s) <= String.length s)%nat.
Proof.
  unfold cstr. induction s as [|c s IH]; simpl; [done|].
  destruct (char_eqb c Ascii.zero); simpl; [lia|]. destruct (strcut Ascii.zero s). simpl in *. lia.
Qed.

(** What a text stands for: its parts one after the other, from the left, the
    inner ones first.  A name and what it becomes fit in their buffers. *)
Inductive means : vstate -> tmpl -> string -> vstate -> Prop :=
  | means_nil st : means st TNil EmptyString st
  | means_text st c t s st' : means st t s st' -> means st (TText c t) (String c s) st'
  | means_var st i t vars st1 v st2 s st3 :
    strlen (trender i) < VAR_BUF_SIZE -> means st i vars st1 ->
    nonul vars = true -> strlen vars < VAR_BUF_SIZE - 1 ->
    value st1 vars = Done (v, st2) -> means st2 t s st3 ->
    means st (TVar i t) (default EmptyString v +:+ s) st3
  | means_expr st i t vars st1 u s st3 :
    strlen (trender i) < VAR_BUF_SIZE -> means st i vars st1 ->
    nonul vars = true -> strlen vars < VAR_BUF_SIZE - 2 ->
    expr_text regex vars = Some u -> means st1 t s st3 ->
    means st (TExpr i t) (u +:+ s) st3.

Lemma means_simple st t s st' : means st t s st' -> has_sub t = false -> s = trender t /\ st' = st.
Proof.
  induction 1 as [st|st c t s st' Ht IH| |]; simpl; try done. intros H.
  by destruct (IH H) as [-> ->].
Qed.

Lemma strcut_cons c d s :
  char_eqb c d = false -> strcut d (String c s) = let '(a, b) := strcut d s in (String c a, b).
Proof. intros E. cbn [strcut]. by rewrite E. Qed.

(** One plain character in front. *)
Lemma loop_char fuel st c w count :
  char_eqb c "$" = false -> 1 < count ->
  loop (S fuel) st (String c w) count =
  '(s, st') ← loop (S fuel) st w (count - 1); Done (String c s, st').
Proof.
  intros Hc Hn. assert (Z.to_nat count = S (Z.to_nat (count - 1))) as Hk by lia.
  destruct w as [|d w].
  - cbn [subst_loop strcut]. rewrite Hc, Hk. rewrite (proj2 (Z.eqb_neq count 0)) by lia.
    simpl. by rewrite strtake_nil.
  - remember (String d w) as t eqn:Et. cbn [subst_loop]. rewrite strcut_cons by done.
    rewrite (proj2 (Z.eqb_neq count 0)) by lia.
    assert (forall (A : Type) (x y : A), match t with EmptyString => x | _ => y end = y) as ->
      by (by subst t).
    rewrite (proj2 (Z.eqb_neq (count - 1) 0)) by lia. rewrite Hk. clear Et.
    destruct (strcut "$" t) as [pre [r|]]; [|done].
    assert (forall x, count - strlen (String c x) = count - 1 - strlen x) as Hl.
    { intros x. unfold strlen. simpl. lia. }
    destruct (head_is "{" r); [|destruct (head_is "[" r)]; cbn [strtake].
    + destruct (var_end 1 (strdrop 1 r)) as [[inner rest] need].
      rewrite Hl. destruct (expand _ _ _ _ _) as [[vars st1]| |]; simpl; try done.
      destruct (value st1 vars) as [[v st2]| |]; simpl; try done.
      destruct (loop fuel st2 rest _) as [[s st3]| |]; done.
    + destruct (expr_end 1 (strdrop 1 r)) as [[inner rest] need].
      rewrite Hl. destruct (expand _ _ _ _ _) as [[vars st1]| |]; simpl; try done.
      destruct (cw_expr _ _ _) as [u|]; simpl; try done.
      destruct (loop fuel st1 rest _) as [[s st3]| |]; done.
    + rewrite string_cons_app. cbn [strtake]. rewrite Hl.
      destruct (loop fuel st r _) as [[s st3]| |]; done.
Qed.

Lemma copy_inner_app i c :
  strlen i < VAR_BUF_SIZE -> copy_inner (i +:+ String c EmptyString) = Done i.
Proof.
  intros Hi. unfold copy_inner. assert (String.length (i +:+ String c EmptyString) = S (String.length i)) as Hl.
  { rewrite length_append. simpl. lia. }
  destruct (i +:+ String c EmptyString) as [|d u] eqn:E; [done|]. rewrite <- E in *.
  unfold strlen in *. rewrite Hl. rewrite (proj2 (Z.ltb_ge _ _)) by lia.
  rewrite strtake_app, Nat.sub_succ, Nat.sub_0_r, Nat.sub_diag. simpl.
  by rewrite strtake_all, string_app_nil.
Qed.

Lemma copy_inner_long inner :
  VAR_BUF_SIZE < Z.of_nat (String.length inner) -> copy_inner inner = Fault.
Proof.
  intros Hi. unfold copy_inner. destruct inner; [done|].
  unfold strlen. by rewrite (proj2 (Z.ltb_lt _ _)).
Qed.

(** The inner text becomes what it means. *)
Lemma expand_means rec st i c vars st1 size :
  strlen (trender i) < VAR_BUF_SIZE -> means st i vars st1 -> nonul vars = true ->
  (has_sub i = true -> rec st (trender i) (size - 1) = Done (vars, st1)) ->
  expand rec st size (trender i +:+ String c EmptyString) (has_sub i) = Done (vars, st1).
Proof.
  intros Hi Hm Hn Hrec. unfold expand. rewrite copy_inner_app by done. simpl.
  destruct (has_sub i) eqn:E.
  - rewrite Hrec by done. simpl. by rewrite cstr_nonul.
  - by destruct (means_simple _ _ _ _ Hm E) as [-> ->].
Qed.

Lemma loop_means st t s st' :
  means st t s st' -> twf t -> forall fuel count,
  (String.length (trender t) < fuel)%nat -> strlen s < count ->
  loop fuel st (trender t) count = Done (s, st').
Proof.
  induction 1 as [st|st c t s st' Ht IH|st i t vars st1 v st2 s st3 Hi Hmi IHi Hn Hl Hv Hmt IHt
    |st i t vars st1 u s st3 Hi Hmi IHi Hn Hl Hu Hmt IHt];
    intros Hwf [|fuel] count Hf Hc; try lia; [done| | |].
  - destruct Hwf as [(E & _)%ordinary_facts Hwf]. simpl in Hf.
    assert (1 < count) by (unfold strlen in *; simpl in Hc; lia).
    cbn [trender]. rewrite loop_char by done. rewrite IH; [done|done|lia|].
    unfold strlen in *. simpl in Hc. lia.
  - destruct Hwf as [Hwi Hwt]. simpl in Hf. rewrite length_append in Hf. simpl in Hf.
    assert (strlen (default EmptyString v) + strlen s < count) as Hs.
    { unfold strlen in *. rewrite length_append in Hc. lia. }
    assert (0 <= strlen s /\ 0 <= strlen (default EmptyString v)) as [Hs0 Hv0] by (unfold strlen; lia).
    cbn [trender subst_loop]. rewrite (proj2 (Z.eqb_neq count 0)) by lia.
    change (strcut "$" (String "$" ?x)) with (EmptyString, Some x). cbv iota beta.
    change (head_is "{" (String "{" ?x)) with true. cbv iota. cbn [strdrop].
    rewrite var_end_render by done. rewrite var_end_close. cbv iota beta. rewrite orb_false_r. rewrite (expand_means _ _ _ _ _ _ _ Hi Hmi Hn).
    + cbn [mbind outcome_bind]. rewrite Hv. cbn [mbind outcome_bind].
      rewrite strtake_nil. change (strlen EmptyString) with 0. rewrite Z.sub_0_r.
      rewrite strtake_all by (unfold strlen in *; lia).
      rewrite IHt; [done|done|lia|lia].
    + intros _. apply IHi; [done|lia|lia].
  - destruct Hwf as [Hwi Hwt]. simpl in Hf. rewrite length_append in Hf. simpl in Hf.
    assert (strlen u + strlen s < count) as Hs.
    { unfold strlen in *. rewrite length_append in Hc. lia. }
    assert (0 <= strlen s /\ 0 <= strlen u) as [Hs0 Hv0] by (unfold strlen; lia).
    cbn [trender subst_loop]. rewrite (proj2 (Z.eqb_neq count 0)) by lia.
    change (strcut "$" (String "$" ?x)) with (EmptyString, Some x). cbv iota beta.
    change (head_is "{" (String "[" ?x)) with false. change (head_is "[" (String "[" ?x)) with true.
    cbv iota. cbn [strdrop].
    rewrite expr_end_render by done. rewrite expr_end_close. cbv iota beta. rewrite orb_false_r. rewrite (expand_means _ _ _ _ _ _ _ Hi Hmi Hn).
    + cbn [mbind outcome_bind]. rewrite strtake_nil. change (strlen EmptyString) with 0.
      rewrite Z.sub_0_r. rewrite (expr_text_fits _ _ _ _ Hu) by lia. cbn [guarded mbind outcome_bind].
      rewrite IHt; [done|done|lia|lia].
    + intros _. apply IHi; [done|lia|lia].
Qed.

Abbreviation full := (pbx_substitute_variables_helper_full hint system_name hash_app funcs lock read regex).

(** C7: substitution ends for every text, whatever the functions return, and what
    it gives fits in the buffer: the text and its terminator take no more than
    [count] bytes. *)
Theorem substitution_returns st cp1 count :
  full st cp1 count <> NoFuel /\
  forall s st', full st cp1 count = Done (s, st') -> strlen s < count.
Proof.
  unfold pbx_substitute_variables_helper_full. destruct (Z.leb_spec count 0); [by split|]. split.
  - apply bind_fuel; [apply loop_fuel; lia|by intros []].
  - intros s st' ([s' st1] & Hs & [= <- <-])%bind_done. apply loop_bound in Hs; [|lia].
    pose proof (cstr_length s'). unfold strlen in *. lia.
Qed.

(** C6: substitution gives a text what it stands for: variables and expressions,
    nested as they may be, are replaced by their values, the inner ones first,
    from left to right, and the rest is copied, as long as names and results fit
    their buffers with a byte to spare. *)
Theorem substitution_means st t s st' count :
  twf t -> means st t s st' -> nonul s = true -> strlen s + 1 < count ->
  full st (trender t) count = Done (s, st').
Proof.
  intros Hwf Hm Hn Hc. unfold pbx_substitute_variables_helper_full.
  rewrite (proj2 (Z.leb_gt count 0)) by (unfold strlen in *; lia).
  rewrite (loop_means _ _ _ _ Hm Hwf) by lia. simpl. by rewrite cstr_nonul.
Qed.

End theory.

(** ** Examples *)

Fixpoint ttext (s : string) (t : tmpl) : tmpl :=
  match s with EmptyString => t | String c s => TText c (ttext s t) end.

(** [Dial ${EXTEN:1} $[1 + ${X}]] *)
Definition demo_tmpl : tmpl :=
  ttext "Dial " (TVar (ttext "EXTEN:1" TNil)
    (ttext " " (TExpr (ttext "1 + " (TVar (ttext "X" TNil) TNil)) TNil))).

Definition demo_subst_state : vstate :=
  demo_vstate <| v_chan := Some (demo_chan <| ch_varshead :=
    [{| var_hash := cw_hash_var_name "X"; var_name := "X"; var_value := "2" |}] |>) |>.

Lemma substitution_means_witness :
  trender demo_tmpl = "Dial ${EXTEN:1} $[1 + ${X}]"%string /\
  pbx_substitute_variables_helper_full (fun _ => None) "" (fun _ => 0) [] true
    (fun _ st _ => (None, st)) (fun _ _ => None) demo_subst_state (trender demo_tmpl) 80 =
  Done ("Dial 00 3"%string, demo_subst_state).
Proof.
  split; [reflexivity|].
  apply (substitution_means (fun _ => None) "" (fun _ => 0) [] true (fun _ st _ => (None, st))
           (fun _ _ => None) demo_subst_state demo_tmpl "Dial 00 3" demo_subst_state 80).
  - repeat split.
  - unfold demo_tmpl. cbn [ttext]. repeat apply means_text.
    eapply (means_var _ _ _ _ _ _ _ _ _ _ "EXTEN:1" _ (Some "00"%string) _ " 3");
      [reflexivity|repeat constructor|reflexivity|reflexivity|vm_compute; reflexivity|].
    apply means_text.
    eapply (means_expr _ _ _ _ _ _ _ _ _ _ "1 + 2" _ "3" "");
      [reflexivity| |reflexivity|reflexivity|vm_compute; reflexivity|constructor].
    repeat apply means_text.
    eapply (means_var _ _ _ _ _ _ _ _ _ _ "X" _ (Some "2"%string) _ "");
      [reflexivity|repeat constructor|reflexivity|reflexivity|vm_compute; reflexivity|constructor].
  - reflexivity.
  - reflexivity.
Defined.

Section limits.
Context (hint : cw_channel -> option (string * option string)) (system_name : string).
Context (hash_app : string -> Z) (lock : bool).
Context (read : Z -> vstate -> list string -> func_result * vstate).
Context (regex : string -> string -> option (nat * option (Z * Z * option (Z * Z)))).

Abbreviation full := (pbx_substitute_variables_helper_full hint system_name hash_app [] lock read regex).

Abbreviation loop := (subst_loop hint system_name hash_app [] lock read regex).

(** A variable at the start of the text, without anything nested in its name. *)
Lemma loop_var fuel st r inner rest count :
  count <> 0 -> var_end 1 r = (inner, rest, false) ->
  loop (S fuel) st (String "$" (String "{" r)) count =
  vars ← copy_inner inner;
  '(v, st) ← variable hint system_name hash_app [] lock read st vars;
  let u := strtake (Z.to_nat count) (default EmptyString v) in
  '(s, st) ← loop fuel st rest (count - strlen u); Done (u +:+ s, st).
Proof.
  intros Hc He. cbn [subst_loop]. rewrite (proj2 (Z.eqb_neq count 0)) by done.
  change (strcut "$" (String "$" ?x)) with (EmptyString, Some x). cbv iota beta.
  change (head_is "{" (String "{" ?x)) with true. cbv iota. cbn [strdrop]. rewrite He.
  unfold expand. rewrite strtake_nil. change (strlen EmptyString) with 0. rewrite Z.sub_0_r.
  by destruct (copy_inner inner).
Qed.

Lemma var_end_name name s :
  (strcut "$" name).2 = None ->
  Forall (fun c => char_eqb c "{" = false /\ char_eqb c "}" = false) (String.list_ascii_of_string name) ->
  var_end 1 (name +:+ s) = let '(x, r, n) := var_end 1 s in (name +:+ x, r, n).
Proof.
  induction name as [|c t IH]; intros Hn Hb.
  - rewrite string_nil_app. by destruct (var_end 1 s) as [[x r] n].
  - simpl in Hb. apply Forall_cons in Hb as [[E1 E2] Hb].
    cbn [strcut] in Hn. destruct (char_eqb c "$") eqn:E; [done|].
    destruct (strcut "$" t) as [a b] eqn:Es. simpl in Hn, IH. subst b.
    rewrite string_cons_app. cbn [var_end]. rewrite E, E1, E2. cbn [andb].
    rewrite IH by done. by destruct (var_end 1 s) as [[x r] n].
Qed.

Lemma unregistered st : variable hint system_name hash_app [] lock read st "NOFUNC():0:0" = Fault.
Proof.
  unfold variable.
  assert (strrcut ")" "NOFUNC():0:0" = Some ("NOFUNC("%string, ":0:0"%string)) as -> by reflexivity.
  assert (scan_slice ":0:0" = (0, 0)) as -> by reflexivity. unfold cw_func_read.
  assert (split_call ("NOFUNC(" +:+ ")") = ("NOFUNC"%string, Some ""%string)) as -> by reflexivity.
  unfold cw_function_find. by destruct lock.
Qed.

(** A text that ends in an opening writes in front of a buffer; a name that is
    not closed loses its last character; the result of a function that is not
    registered is a constant, and a slice of it writes to it; and a name longer
    than its buffer overruns it. *)
Theorem substitution_faults st count :
  1 < count ->
  full st "${" count = Fault /\
  full st "${FOO" count = full st "${FO}" count /\
  full st "${NOFUNC():0:0}" count = Fault /\
  forall name, (strcut "$" name).2 = None -> VAR_BUF_SIZE <= strlen name ->
    Forall (fun c => char_eqb c "{" = false /\ char_eqb c "}" = false)
      (String.list_ascii_of_string name) ->
    full st (String "$" (String "{" (name +:+ "}"))) count = Fault.
Proof.
  intros Hc. unfold pbx_substitute_variables_helper_full.
  rewrite (proj2 (Z.leb_gt count 0)) by lia. assert (count - 1 <> 0) as Hc1 by lia. split_and!.
  - by rewrite (loop_var _ _ EmptyString EmptyString EmptyString).
  - rewrite (loop_var _ _ "FOO" "FOO" "") by done. rewrite (loop_var _ _ "FO}" "FO}" "") by done.
    change (copy_inner "FOO") with (copy_inner "FO}"). done.
  - rewrite (loop_var _ _ "NOFUNC():0:0}" "NOFUNC():0:0}" "") by done.
    change (copy_inner _) with (Done "NOFUNC():0:0"%string). cbn [mbind outcome_bind].
    by rewrite unregistered.
  - intros name Hn Hl Hb.
    rewrite (loop_var _ _ (name +:+ "}") (name +:+ "}") ""), copy_inner_long; try done.
    + rewrite length_append. simpl. unfold strlen in Hl. lia.
    + by rewrite var_end_name.
Qed.

End limits.

Lemma substitution_faults_witness :
  pbx_substitute_variables_helper_full (fun _ => None) "" (fun _ => 0) [] true
    (fun _ st _ => (None, st)) (fun _ _ => None) demo_subst_state "${NOFUNC():0:0}" 80 = Fault.
Proof.
  exact (proj1 (proj2 (proj2 (substitution_faults (fun _ => None) "" (fun _ => 0) true
    (fun _ st _ => (None, st)) (fun _ _ => None) demo_subst_state 80 eq_refl)))).
Defined.
