(* ===== verification/PbxRun.v ===== *)
(** * Running the dialplan on a channel ([__cw_pbx_run], corelib/pbx.c)

    The thread of a call executes the priorities of the channel's extension one
    after the other, collects digits when they are over, and goes on with what
    was dialled, until something ends the call.

    What the loop uses of the rest of the program is the class [PbxWorld]: where
    the channel is, whether an extension exists, executing one, waiting for a
    digit.  Applications are foreign code that may do anything to the channel;
    the loop need not end.  [callweaver_world] is the class for the models of the
    lookup, the substitution and the variables, with the code of applications and
    drivers as parameters.  What happens is recorded as events.  [ch_priority] and the
    count of calls are [int] in the source and numbers here: a priority comes from the
    dialplan or an application and grows by one per execution, the calls are threads. *)

From S2P Require Import Prelude CStr Hash Timing Exten Dialplan Registry Find Args Vars Expr Subst.
Open Scope Z_scope.

Definition CW_PBX_KEEPALIVE : Z := 10.
Definition CW_SOFTHANGUP_DEV : Z := 1.
Definition CW_SOFTHANGUP_ASYNCGOTO : Z := 2.
Definition CW_SOFTHANGUP_TIMEOUT : Z := 8.

(** ** What the loop relies on *)

(** [None] is a bad memory access. *)
Class PbxWorld (W : Type) := {
  chan : W -> cw_channel;
  set_chan : cw_channel -> W -> W;
  exists_extension : W -> string -> string -> Z -> option bool;
  matchmore_extension : W -> string -> string -> Z -> option bool;
  exec_extension : W -> option (Z * W);
  waitfordigit : Z -> W -> Z * W;
  busy : W -> W;
  congestion : W -> W;
  setvar : string -> string -> W -> option W;
  getvar : string -> W -> option string;
}.

Class PbxLaws (W : Type) `{PbxWorld W} := {
  chan_set : forall c w, chan (set_chan c w) = c;
}.

(** What can be seen of a run. *)
Inductive event :=
  | Executed (context exten : string) (priority res : Z)
  | CdrStart
  | CdrUpdate
  | CdrEnd
  | Waited (ms : Z)
  | BusyTone
  | CongestionTone
  | HungUp.

Definition is_dtmf (res : Z) : bool :=
  ((48 <=? res) && (res <=? 57)) || ((65 <=? res) && (res <=? 70)) || (res =? 42) || (res =? 35).

Section run.
Context {W : Type} `{PbxWorld W}.
(** The settings [autofallthrough] and [cw_end_cdr_before_h_exten], and whether
    the channel has a call detail record. *)
Context (autofallthrough end_cdr_before_h cdr : bool).

Record state := { s_world : W; s_trace : list event }.

Definition emit (e : event) (s : state) : state :=
  {| s_world := s_world s; s_trace := s_trace s ++ [e] |}.

Definition place (s : state) : cw_channel := chan (s_world s).

Definition on_chan (f : cw_channel -> cw_channel) (s : state) : state :=
  {| s_world := set_chan (f (place s)) (s_world s); s_trace := s_trace s |}.

Definition with_world (s : state) (w : W) : state := {| s_world := w; s_trace := s_trace s |}.

Definition cdr_event (e : event) (s : state) : state := if cdr then emit e s else s.

(** [cw_exists_extension] in the channel's context. *)
Definition has (s : state) (exten : string) (priority : Z) : outcome bool :=
  guarded (exists_extension (s_world s) (ch_context (place s)) exten priority).

(** ... and at its place. *)
Definition has_place (s : state) : outcome bool :=
  has s (ch_exten (place s)) (ch_priority (place s)).

Definition exec (s : state) : outcome (Z * state) :=
  let c := place s in
  '(res, w) ← guarded (exec_extension (s_world s));
  Done (res, emit (Executed (ch_context c) (ch_exten c) (ch_priority c) res) (with_world s w)).

Definition goto_ext (exten : string) (s : state) : state :=
  on_chan (fun c => c <| ch_exten := exten |> <| ch_priority := 1 |>) s.

(** Behind an execution: the absolute timeout goes to extension T, any other
    hangup ends the call. [true] is to end it. *)
Definition after_exec (s : state) : outcome (bool * state) :=
  let soft := ch_softhangup (place s) in
  t ← (if soft =? CW_SOFTHANGUP_TIMEOUT then has s "T" 1 else Done false);
  if t : bool then
    Done (false, on_chan (fun c => c <| ch_exten := "T"%string |> <| ch_whentohangup := 0 |>
      <| ch_priority := 0 |>
      <| ch_softhangup := Z.land (ch_softhangup c) (Z.lnot CW_SOFTHANGUP_TIMEOUT) |>) s)
  else Done (negb (soft =? 0), s).

(** How the loop over the priorities is left. *)
Inductive left :=
  | Out (res : Z) (s : state)
  | Next (res digit : Z) (exten : option string) (s : state).

(** The buffer [exten] is [None] before it is first cleared. *)
Fixpoint priorities (fuel : nat) (res : Z) (exten : option string) (s : state) : outcome left :=
  match fuel with
  | O => NoFuel
  | S fuel =>
    ok ← has_place s;
    if negb ok then Done (Next res 0 exten s) else
    '(res, s) ← exec s;
    if is_dtmf res then Done (Next res res (Some (String (chr res) EmptyString)) s)
    else if res =? CW_PBX_KEEPALIVE then Done (Out res s)
    else
      let soft := ch_softhangup (place s) in
      if negb (res =? 0) && negb (soft =? CW_SOFTHANGUP_ASYNCGOTO) &&
         negb (soft =? CW_SOFTHANGUP_TIMEOUT) then Done (Out res (cdr_event CdrUpdate s))
      else
        let s := if negb (res =? 0) && (soft =? CW_SOFTHANGUP_ASYNCGOTO)
                 then on_chan (fun c => c <| ch_softhangup := 0 |>) s else s in
        '(stop, s) ← after_exec s;
        if stop : bool then Done (Out res s)
        else priorities fuel res (Some EmptyString)
               (on_chan (fun c => c <| ch_priority := ch_priority c + 1 |>) s)
  end.

(** ** Digits *)

(** The buffer has 256 bytes, one for the terminator. *)
Definition EXTEN_BUF : Z := 256.

(** [exten[pos] = digit] *)
Definition put_digit (exten : string) (pos : nat) (digit : Z) : string :=
  strtake pos exten +:+ String (chr digit) (strdrop (S pos) exten).

(** What was dialled; the second component is to end the call. *)
Fixpoint collect (fuel : nat) (exten : string) (pos : nat) (waittime : Z) (s : state)
    : outcome (string * bool * state) :=
  match fuel with
  | O => NoFuel
  | S fuel =>
    more ← guarded (matchmore_extension (s_world s) (ch_context (place s)) exten 1);
    if negb more then Done (exten, false, s) else
    let '(digit, w) := waitfordigit (waittime * 1000) (s_world s) in
    let s := emit (Waited (waittime * 1000)) (with_world s w) in
    if ch_softhangup (place s) =? CW_SOFTHANGUP_ASYNCGOTO then
      collect fuel exten pos waittime (on_chan (fun c => c <| ch_softhangup := 0 |>) s)
    else if digit =? 0 then Done (exten, false, s)
    else if digit <? 0 then Done (exten, true, s)
    else if EXTEN_BUF <=? Z.of_nat pos + 1 then Fault
    else
      pbx ← guarded (ch_pbx (place s));
      collect fuel (put_digit exten pos digit) (S pos) (dtimeout pbx) s
  end.

(** ** After the priorities *)

(** Where the loop goes on from, or its end. *)
Inductive turn :=
  | Again (exten : option string) (s : state)
  | Leave (res : Z) (s : state).

Definition invalid (dialled : string) (res : Z) (exten : option string) (s : state) : outcome turn :=
  i ← has s "i" 1;
  if i : bool then
    w ← guarded (setvar "INVALID_EXTEN" dialled (s_world s));
    Done (Again exten (goto_ext "i" (with_world s w)))
  else Done (Leave res s).

(** What the digits lead to. *)
Definition dialled (res : Z) (exten : string) (s : state) : outcome turn :=
  ok ← has s exten 1;
  if ok : bool then Done (Again (Some exten) (goto_ext (Find.place CW_MAX_EXTENSION exten) s))
  else if negb (streq exten "") then invalid exten res (Some exten) s
  else
    t ← has s "t" 1;
    Done (if t : bool then Again (Some exten) (goto_ext "t" s) else Leave res s).

(** The end without a wait: the tone of the last [Dial]. *)
Definition fall_through (res : Z) (s : state) : Z * state :=
  match getvar "DIALSTATUS" (s_world s) with
  | None => (res, s)
  | Some status =>
    let hash := cw_hash_var_name status in
    if hash =? CW_KEYWORD_BUSY then
      (-1, emit BusyTone (with_world s (busy (s_world s))))
    else if (hash =? CW_KEYWORD_CHANUNAVAIL) || (hash =? CW_KEYWORD_CONGESTION) then
      (-1, emit CongestionTone (with_world s (congestion (s_world s))))
    else (res, s)
  end.

Definition after_priorities (fuel : nat) (res digit : Z) (exten : option string) (s : state)
    : outcome turn :=
  ok ← has s (ch_exten (place s)) 1;
  if negb ok then invalid (ch_exten (place s)) res exten s
  else if ch_softhangup (place s) =? CW_SOFTHANGUP_TIMEOUT then
    Done (Again exten (on_chan (fun c => c <| ch_softhangup := 0 |>) s))
  else
    waittime ← (if negb (digit =? 0) then pbx ← guarded (ch_pbx (place s)); Done (dtimeout pbx)
                else if negb autofallthrough then pbx ← guarded (ch_pbx (place s)); Done (rtimeout pbx)
                else Done 0);
    if negb (waittime =? 0) then
      buf ← guarded exten;
      '(buf, out, s) ← collect fuel buf (if digit =? 0 then 0%nat else 1%nat) waittime s;
      if out : bool then Done (Leave res s)
      else
        t ← dialled res buf s;
        Done (match t with Again e s => Again e (cdr_event CdrUpdate s) | t => t end)
    else let '(res, s) := fall_through res s in Done (Leave res s).

(** The endless loop, to where it is left. *)
Fixpoint pbx_loop (fuel : nat) (res : Z) (exten : option string) (s : state) : outcome (Z * state) :=
  match fuel with
  | O => NoFuel
  | S fuel =>
    l ← priorities fuel res exten s;
    match l with
    | Out res s => Done (res, s)
    | Next res digit exten s =>
      t ← after_priorities fuel res digit exten s;
      match t with
      | Again exten s => pbx_loop fuel res exten s
      | Leave res s => Done (res, s)
      end
    end
  end.

(** ** The end of the call *)

Fixpoint hangup_extension (fuel : nat) (res : Z) (s : state) : outcome (Z * state) :=
  match fuel with
  | O => NoFuel
  | S fuel =>
    ok ← has_place s;
    if negb ok then Done (res, s) else
    '(res, s) ← exec s;
    if negb (res =? 0) then Done (res, s)
    else hangup_extension fuel res (on_chan (fun c => c <| ch_priority := ch_priority c + 1 |>) s)
  end.

Definition finish (fuel : nat) (autoloop : bool) (res : Z) (s : state) : outcome state :=
  h ← (if negb (res =? CW_PBX_KEEPALIVE) then has s "h" 1 else Done false);
  '(res, s) ← (if h : bool then
                 hangup_extension fuel res
                   (goto_ext "h" (if cdr && end_cdr_before_h then emit CdrEnd s else s))
               else Done (res, s));
  let s := on_chan (fun c => c <| ch_autoloop := autoloop |> <| ch_pbx := None |>) s in
  Done (if negb (res =? CW_PBX_KEEPALIVE) then emit HungUp s else s).

(** ** The whole run *)

(** Where the channel starts: its place, else extension s, else context
    default. *)
Definition find_start (s : state) : outcome state :=
  ok ← has_place s;
  if ok : bool then Done s else
  let s := on_chan (fun c => c <| ch_exten := "s"%string |>) s in
  ok ← has_place s;
  let s := if ok : bool then s else on_chan (fun c => c <| ch_context := "default"%string |>) s in
  Done (on_chan (fun c => c <| ch_priority := 1 |>) s).

(** [pbx_alloc] is the outcome of the allocation of the [struct cw_pbx]; [needs_cdr]
    and [cdr_alloc] whether a record must be allocated, and can be; [unstarted]
    that its start time is not set.  The result is the returned number. *)
Definition cw_pbx_run_loop (fuel : nat) (pbx_alloc needs_cdr cdr_alloc unstarted : bool) (s : state)
    : outcome (Z * state) :=
  if negb pbx_alloc then Done (-1, on_chan (fun c => c <| ch_pbx := None |>) s)
  else if needs_cdr && negb cdr_alloc then
    (* the structure is freed, the pointer to it stays *)
    Done (-1, on_chan (fun c => c <| ch_pbx := Some {| dtimeout := 0; rtimeout := 0 |} |>) s)
  else
    let autoloop := ch_autoloop (place s) in
    let s := on_chan (fun c => c <| ch_pbx := Some {| dtimeout := 5; rtimeout := 10 |} |>
                                 <| ch_autoloop := true |>) s in
    s ← find_start s;
    let s := if cdr && unstarted then emit CdrStart s else s in
    '(res, s) ← pbx_loop fuel 0 None s;
    s ← finish fuel autoloop res s;
    Done (0, s).

End run.

(** ** Moving a channel *)

Definition isdigit_at (s : string) : bool :=
  match s with String c _ => isdigit c | EmptyString => false end.

(** [priority] below 0 leaves the priority alone.  In the loop the priority is
    one short, since the loop is about to add one. *)
Definition cw_explicit_goto (c : cw_channel) (context exten : option string) (priority : Z) : cw_channel :=
  let c := match context with
           | Some x => if streq x "" then c else c <| ch_context := Find.place CW_MAX_CONTEXT x |>
           | None => c
           end in
  let c := match exten with
           | Some x => if streq x "" then c else c <| ch_exten := Find.place CW_MAX_EXTENSION x |>
           | None => c
           end in
  if -1 <? priority then
    c <| ch_priority := if ch_autoloop c then priority - 1 else priority |>
  else c.

Section goto.
(** [cw_findlabel_extension] for the channel, and the hash of names. *)
Context (findlabel : string -> string -> string -> Z) (hash_app : string -> Z).

(** The place a text names: a number, a number relative to the channel's, or a
    label.  [None] is the failure -1. *)
Definition cw_explicit_gotolabel (c : cw_channel) (context exten : option string) (priority : string)
    : option cw_channel :=
  match priority with
  | EmptyString => None
  | String h t =>
    let exten := match exten with
                 | Some x => if streq x "" || (hash_app x =? CW_KEYWORD_BYEXTENSION) then None else exten
                 | None => None
                 end in
    if isdigit h || ((char_eqb h "+" || char_eqb h "-") && isdigit_at t) then
      let n := if char_eqb h "-" then s32 (ch_priority c - atoi t)
               else if char_eqb h "+" then s32 (ch_priority c + atoi t)
               else atoi priority in
      Some (cw_explicit_goto c context exten n)
    else
      let in_context := match context with
                        | Some x => if streq x "" then ch_context c else x
                        | None => ch_context c
                        end in
      let n := findlabel in_context (default (ch_exten c) exten) priority in
      if n <? 1 then None else Some (cw_explicit_goto c context exten n)
  end.

(** [Goto([[context,]exten,]priority)]; no argument at all reads a NULL pointer,
    which is refused. *)
Definition pbx_builtin_goto (c : cw_channel) (argv : list string) : Z * cw_channel :=
  let '(context, exten, priority) :=
    match argv with
    | [] => (None, None, EmptyString)
    | [p] => (None, None, p)
    | [x; p] => (None, Some x, p)
    | x :: y :: p :: _ => (Some x, Some y, p)
    end in
  match cw_explicit_gotolabel c context exten priority with
  | Some c => (0, c)
  | None => (-1, c)
  end.

End goto.

(** A channel that runs the dialplan is told to move: its loop is interrupted. *)
Definition cw_async_goto_running (c : cw_channel) (context exten : option string) (priority : Z)
    : cw_channel :=
  let c := cw_explicit_goto c context exten priority in
  c <| ch_softhangup := Z.lor (ch_softhangup c) CW_SOFTHANGUP_ASYNCGOTO |>.

(** ** The number of calls *)

Record calls := { countcalls : Z; option_maxcalls : Z }.

(** [overload] is that a limit of the load is set and reached. *)
Definition increase_call_count (overload : bool) (k : calls) : Z * calls :=
  if (negb (option_maxcalls k =? 0) && (option_maxcalls k <=? countcalls k)) || overload then (-1, k)
  else (0, {| countcalls := countcalls k + 1; option_maxcalls := option_maxcalls k |}).

Definition decrease_call_count (k : calls) : calls :=
  if 0 <? countcalls k
  then {| countcalls := countcalls k - 1; option_maxcalls := option_maxcalls k |} else k.

Inductive cw_pbx_result := CW_PBX_SUCCESS | CW_PBX_FAILED | CW_PBX_CALL_LIMIT.

(** [created] is the outcome of [cw_pthread_create]; the thread counts the call
    down when it is over ([pbx_thread]). *)
Definition cw_pbx_start (null overload created : bool) (k : calls) : cw_pbx_result * calls :=
  if null then (CW_PBX_FAILED, k)
  else
    let '(r, k) := increase_call_count overload k in
    if negb (r =? 0) then (CW_PBX_CALL_LIMIT, k)
    else if negb created then (CW_PBX_FAILED, k)
    else (CW_PBX_SUCCESS, k).

(** ** Every run cleans up *)

Section theory.
Context {W : Type} `{PbxLaws W}.
Context (autofallthrough end_cdr_before_h cdr : bool).

Abbreviation state := (@state W).

(** The trace grows by events other than the hangup. *)
Definition grows (s s' : state) : Prop :=
  exists tr, s_trace s' = s_trace s ++ tr /\ HungUp ∉ tr.

#[export] Instance grows_preorder : PreOrder grows.
Proof.
  split.
  - intros s. exists []. rewrite app_nil_r. split; [done|]. by intros ?%elem_of_nil.
  - intros s1 s2 s3 (t1 & E1 & N1) (t2 & E2 & N2). exists (t1 ++ t2).
    rewrite E2, E1, app_assoc. split; [done|]. by rewrite elem_of_app; intros [].
Qed.

Lemma grows_eq s s' : s_trace s' = s_trace s -> grows s s'.
Proof. intros E. exists []. rewrite app_nil_r. split; [done|]. by intros ?%elem_of_nil. Qed.

Lemma grows_emit e s s' : e <> HungUp -> s_trace s' = s_trace s ++ [e] -> grows s s'.
Proof. intros He E. exists [e]. split; [done|]. rewrite list_elem_of_singleton. congruence. Qed.

Lemma grows_chan f s : grows s (on_chan f s).
Proof. by apply grows_eq. Qed.

Lemma grows_world s w : grows s (with_world s w).
Proof. by apply grows_eq. Qed.

Lemma grows_cdr e s : e <> HungUp -> grows s (cdr_event cdr e s).
Proof. intros He. unfold cdr_event. destruct cdr; [by eapply grows_emit; [|reflexivity]|done]. Qed.

#[local] Hint Resolve grows_chan grows_world grows_cdr : core.

Lemma exec_grows s res s' : exec s = Done (res, s') -> grows s s'.
Proof.
  unfold exec. destruct (exec_extension (s_world s)) as [[r w]|]; [|done]. intros [= <- <-].
  by eapply grows_emit; [|reflexivity].
Qed.

Lemma after_exec_grows s b s' : after_exec s = Done (b, s') -> grows s s'.
Proof.
  unfold after_exec. intros ([|] & _ & [= <- <-])%bind_done; [apply grows_chan|done].
Qed.

Lemma priorities_grows fuel res exten s l :
  priorities cdr fuel res exten s = Done l ->
  grows s match l with Out _ s' | Next _ _ _ s' => s' end.
Proof.
  revert res exten s l. induction fuel as [|fuel IH]; intros res exten s l; [done|].
  intros (ok & _ & E)%bind_done. destruct ok; [|by injection E as <-].
  cbn [negb] in E. apply bind_done in E as ([r s1] & He%exec_grows & E).
  destruct (is_dtmf r); [by injection E as <-|].
  destruct (r =? CW_PBX_KEEPALIVE); [by injection E as <-|]. cbv zeta in E.
  case_if_in E; [injection E as <-; trans s1; [done|]; by apply grows_cdr|].
  apply bind_done in E as ([stop s2] & Ha%after_exec_grows & E).
  trans s1; [done|]. trans s2; [by case_if_in Ha|]. destruct stop; [by injection E as <-|].
  apply IH in E. etrans; [|exact E]. auto.
Qed.

Lemma collect_grows fuel exten pos waittime s r :
  collect fuel exten pos waittime s = Done r -> grows s r.2.
Proof.
  revert exten pos waittime s r. induction fuel as [|fuel IH]; intros exten pos waittime s r; [done|].
  intros (more & _ & E)%bind_done. destruct more; [|by injection E as <-]. cbn [negb] in E.
  destruct (waitfordigit _ _) as [digit w]. set (s1 := emit _ _) in E.
  assert (grows s s1) as H1.
  { eapply grows_emit; [|reflexivity]. done. }
  case_if_in E; [apply IH in E; trans s1; [done|]; etrans; [|exact E]; apply grows_chan|].
  case_if_in E; [by injection E as <-|]. case_if_in E; [by injection E as <-|].
  case_if_in E; [done|]. apply bind_done in E as (pbx & _ & E). apply IH in E. by trans s1.
Qed.

Definition turn_state (t : @turn W) : state := match t with Again _ s | Leave _ s => s end.

Lemma invalid_grows d res exten s t : invalid d res exten s = Done t -> grows s (turn_state t).
Proof.
  intros ([|] & _ & E)%bind_done; [|by injection E as <-].
  apply bind_done in E as (w & _ & [= <-]). by apply grows_eq.
Qed.

Lemma dialled_grows res exten s t : dialled res exten s = Done t -> grows s (turn_state t).
Proof.
  intros ([|] & _ & E)%bind_done; [injection E as <-; apply grows_chan|].
  case_if_in E; [by eapply invalid_grows|]. apply bind_done in E as ([|] & _ & [= <-]); [apply grows_chan|done].
Qed.

Lemma after_priorities_grows fuel res digit exten s t :
  after_priorities autofallthrough cdr fuel res digit exten s = Done t -> grows s (turn_state t).
Proof.
  intros (ok & _ & E)%bind_done. destruct ok; cbn [negb] in E; [|by eapply invalid_grows].
  case_if_in E; [injection E as <-; apply grows_chan|].
  apply bind_done in E as (waittime & _ & E). case_if_in E.
  - apply bind_done in E as (buf & _ & E). apply bind_done in E as ([[buf' out] s1] & Hc%collect_grows & E).
    simpl in Hc. destruct out; [by injection E as <-|].
    apply bind_done in E as (t' & Hd%dialled_grows & [= <-]).
    trans s1; [done|]. etrans; [exact Hd|]. destruct t'; simpl; [by apply grows_cdr|done].
  - unfold fall_through in E. destruct (getvar _ _) as [status|]; [|by injection E as <-].
    cbv zeta in E. case_if_in E; [|case_if_in E; [|by injection E as <-]].
    + injection E as <-. by eapply grows_emit; [|reflexivity].
    + injection E as <-. by eapply grows_emit; [|reflexivity].
Qed.

Lemma pbx_loop_grows fuel res exten s r s' :
  pbx_loop autofallthrough cdr fuel res exten s = Done (r, s') -> grows s s'.
Proof.
  revert res exten s. induction fuel as [|fuel IH]; intros res exten s; [done|].
  intros (l & Hl%priorities_grows & E)%bind_done. destruct l as [r1 s1|r1 digit e1 s1].
  - injection E as <- <-. done.
  - apply bind_done in E as (t & Ht%after_priorities_grows & E). trans s1; [done|].
    destruct t as [e2 s2|r2 s2]; simpl in Ht; [|by injection E as <- <-].
    trans s2; [done|]. by eapply IH.
Qed.

Lemma hangup_extension_grows fuel res s r s' :
  hangup_extension fuel res s = Done (r, s') -> grows s s'.
Proof.
  revert res s. induction fuel as [|fuel IH]; intros res s; [done|].
  intros (ok & _ & E)%bind_done. destruct ok; [|by injection E as <- <-]. cbn [negb] in E.
  apply bind_done in E as ([r1 s1] & He%exec_grows & E). trans s1; [done|].
  case_if_in E; [by injection E as <- <-|]. etrans; [|by eapply IH]. auto.
Qed.

Lemma find_start_grows s s' : find_start s = Done s' -> grows s s'.
Proof.
  intros (ok & _ & E)%bind_done. destruct ok; [by injection E as <-|].
  apply bind_done in E as (ok & _ & [= <-]). by destruct ok; apply grows_eq.
Qed.

(** *** The result that keeps the channel *)

(** The last event is an execution that asked to keep the channel. *)
Definition kept (s : state) : Prop :=
  exists tr context exten priority,
    s_trace s = tr ++ [Executed context exten priority CW_PBX_KEEPALIVE].

Definition keeps (res : Z) (s : state) : Prop := res = CW_PBX_KEEPALIVE -> kept s.

Lemma exec_keeps s res s' : exec s = Done (res, s') -> keeps res s'.
Proof.
  unfold exec. destruct (exec_extension (s_world s)) as [[r w]|]; [|done]. intros [= <- <-] ->.
  do 4 eexists. reflexivity.
Qed.

Lemma priorities_keeps fuel res exten s l :
  res <> CW_PBX_KEEPALIVE -> priorities cdr fuel res exten s = Done l ->
  match l with Out r s' => keeps r s' | Next r _ _ _ => r <> CW_PBX_KEEPALIVE end.
Proof.
  revert res exten s l. induction fuel as [|fuel IH]; intros res exten s l Hr; [done|].
  intros (ok & _ & E)%bind_done. destruct ok; [|by injection E as <-].
  cbn [negb] in E. apply bind_done in E as ([r s1] & He%exec_keeps & E).
  destruct (is_dtmf r) eqn:Ed; [injection E as <-; intros ->; done|].
  destruct (Z.eqb_spec r CW_PBX_KEEPALIVE); [by injection E as <-|]. cbv zeta in E.
  case_if_in E; [by injection E as <-; intros ?|].
  apply bind_done in E as ([stop s2] & _ & E). destruct stop; [by injection E as <-; intros ?|].
  by eapply IH in E.
Qed.

Lemma after_priorities_keeps fuel res digit exten s t :
  res <> CW_PBX_KEEPALIVE -> after_priorities autofallthrough cdr fuel res digit exten s = Done t ->
  match t with Again _ _ => True | Leave r _ => r <> CW_PBX_KEEPALIVE end.
Proof.
  assert (forall d r e s t, r <> CW_PBX_KEEPALIVE -> invalid d r e s = Done t ->
            match t with Again _ _ => True | Leave r _ => r <> CW_PBX_KEEPALIVE end) as Hi.
  { intros d r e s0 t0 Hr ([|] & _ & E)%bind_done; [|by injection E as <-].
    by apply bind_done in E as (w & _ & [= <-]). }
  intros Hr (ok & _ & E)%bind_done. destruct ok; cbn [negb] in E; [|by eapply Hi in E].
  case_if_in E; [by injection E as <-|].
  apply bind_done in E as (waittime & _ & E). case_if_in E.
  - apply bind_done in E as (buf & _ & E). apply bind_done in E as ([[buf' out] s1] & _ & E).
    destruct out; [by injection E as <-|]. apply bind_done in E as (t' & E & [= <-]).
    destruct t' as [|r s2]; [done|]. apply bind_done in E as ([|] & _ & E); [done|].
    case_if_in E; [by eapply Hi in E|]. apply bind_done in E as ([|] & _ & E); [done|by injection E as <- <-].
  - unfold fall_through in E. destruct (getvar _ _) as [status|]; [|by injection E as <-].
    cbv zeta in E. repeat case_if_in E; by injection E as <-.
Qed.

Lemma pbx_loop_keeps fuel res exten s r s' :
  res <> CW_PBX_KEEPALIVE -> pbx_loop autofallthrough cdr fuel res exten s = Done (r, s') ->
  keeps r s'.
Proof.
  revert res exten s. induction fuel as [|fuel IH]; intros res exten s Hr; [done|].
  intros (l & Hl%priorities_keeps & E)%bind_done; [|done]. destruct l as [r1 s1|r1 digit e1 s1].
  - injection E as <- <-. done.
  - apply bind_done in E as (t & Ht%after_priorities_keeps & E); [|done].
    destruct t as [e2 s2|r2 s2]; [by eapply IH in E|by injection E as <- <-; intros ?].
Qed.

Lemma hangup_extension_keeps fuel res s r s' :
  hangup_extension fuel res s = Done (r, s') -> res <> CW_PBX_KEEPALIVE -> keeps r s'.
Proof.
  revert res s. induction fuel as [|fuel IH]; intros res s; [done|].
  intros (ok & _ & E)%bind_done Hr. destruct ok; [|by injection E as <- <-; intros ?]. cbn [negb] in E.
  apply bind_done in E as ([r1 s1] & He%exec_keeps & E).
  destruct (Z.eqb_spec r1 0) as [->|]; cbn [negb] in E; [|by injection E as <- <-]. by eapply IH in E.
Qed.

(** C3: whatever the applications do: a run that returns has given its PBX structure
    back and left the flag of the loop as it found it, and it hangs the channel
    up last and once, unless the last thing it did was an execution that asked to
    keep the channel.  The PBX structure and the call detail record could be
    allocated. *)
Theorem run_cleans_up fuel needs_cdr unstarted s r s' :
  cw_pbx_run_loop autofallthrough end_cdr_before_h cdr fuel true needs_cdr true unstarted s
    = Done (r, s') ->
  r = 0 /\ ch_pbx (place s') = None /\ ch_autoloop (place s') = ch_autoloop (place s) /\
  exists tr, HungUp ∉ tr /\
    (s_trace s' = s_trace s ++ tr ++ [HungUp] \/ s_trace s' = s_trace s ++ tr /\ kept s').
Proof.
  unfold cw_pbx_run_loop. cbn [negb]. rewrite andb_false_r. cbv zeta.
  set (s0 := on_chan _ s). intros (s1 & H1%find_start_grows & E)%bind_done.
  apply bind_done in E as ([res s3] & H3 & E).
  assert (keeps res s3) as Hk by by eapply pbx_loop_keeps in H3. apply pbx_loop_grows in H3.
  apply bind_done in E as (s4 & Hf & [= <- <-]). split; [done|].
  assert (grows s s3) as G3.
  { trans s0; [apply grows_chan|]. trans s1; [done|]. etrans; [|exact H3].
    case_if; [by eapply grows_emit; [|reflexivity]|done]. }
  unfold finish in Hf. apply bind_done in Hf as (h & Hh & Hf).
  apply bind_done in Hf as ([r4 s5] & H5 & Hf).
  assert (grows s3 s5 /\ keeps r4 s5) as [G5 Hk5].
  { destruct h; [|by injection H5 as <- <-].
    destruct (Z.eqb_spec res CW_PBX_KEEPALIVE); cbn [negb] in Hh; [done|]. split.
    - apply hangup_extension_grows in H5. etrans; [|exact H5].
      trans (if cdr && end_cdr_before_h then emit CdrEnd s3 else s3); [|apply grows_chan].
      case_if; [by eapply grows_emit; [|reflexivity]|done].
    - by eapply hangup_extension_keeps in H5. }
  destruct (transitivity G3 G5) as (tr & Htr & Hn). injection Hf as <-. split_and!.
  - case_if; unfold place; simpl; by rewrite chan_set.
  - case_if; unfold place; simpl; by rewrite chan_set.
  - exists tr. split; [done|]. destruct (Z.eqb_spec r4 CW_PBX_KEEPALIVE) as [E|E]; simpl; rewrite Htr.
    + right. split; [done|]. destruct (Hk5 E) as (tr' & c & e & p & E'). exists tr', c, e, p. exact E'.
    + left. by rewrite <- app_assoc.
Qed.

End theory.

(** ** Where the loop goes *)

Section places.
Context {W : Type} `{PbxLaws W}.
Context (autofallthrough cdr : bool).

Abbreviation state := (@state W).

(** One round at a place that exists, for an application that returns 0 and
    leaves the call up. *)
Lemma priorities_step fuel res exten (s : state) w :
  let c := place s in
  exists_extension (s_world s) (ch_context c) (ch_exten c) (ch_priority c) = Some true ->
  exec_extension (s_world s) = Some (0, w) -> ch_softhangup (chan w) = 0 ->
  priorities cdr (S fuel) res exten s =
  priorities cdr fuel 0 (Some EmptyString)
    {| s_world := set_chan ((chan w) <| ch_priority := ch_priority (chan w) + 1 |>) w;
       s_trace := s_trace s ++ [Executed (ch_context c) (ch_exten c) (ch_priority c) 0] |}.
Proof.
  intros c He Hx Hs. cbn [priorities]. unfold has_place, has, exec. fold c. rewrite He. simpl.
  rewrite Hx. simpl. unfold after_exec, place. simpl. rewrite Hs. unfold on_chan, place. simpl. by rewrite ?Hs.
Qed.

(** ... and at a place that does not exist. *)
Lemma priorities_end fuel res exten (s : state) :
  exists_extension (s_world s) (ch_context (place s)) (ch_exten (place s)) (ch_priority (place s))
    = Some false ->
  priorities cdr (S fuel) res exten s = Done (Next res 0 exten s).
Proof. intros He. cbn [priorities]. unfold has_place, has. by rewrite He. Qed.

Section linear.
(** [Inv k w]: the channel is at priority [k] of an extension whose priorities
    end with [n], its applications return 0 and leave it where it is. *)
Context (context exten : string) (n : Z) (Inv : Z -> W -> Prop).
Context (Inv_place : forall k w, Inv k w -> ch_context (chan w) = context /\ ch_exten (chan w) = exten /\
  ch_priority (chan w) = k /\ ch_softhangup (chan w) = 0).
Context (Inv_exists : forall k w, Inv k w -> exists_extension w context exten k = Some (k <=? n)).
Context (Inv_exec : forall k w, Inv k w -> k <= n -> exists w', exec_extension w = Some (0, w') /\ Inv k w').
Context (Inv_next : forall k w, Inv k w -> k <= n -> Inv (k + 1) (set_chan ((chan w) <| ch_priority := k + 1 |>) w)).

Definition executed (k : Z) (m : nat) : list event :=
  (fun i => Executed context exten (k + Z.of_nat i) 0) <$> seq 0 m.

Lemma executed_S k m : executed k (S m) = Executed context exten k 0 :: executed (k + 1) m.
Proof.
  unfold executed. simpl. rewrite Z.add_0_r. f_equal. rewrite <- fmap_S_seq, <- list_fmap_compose.
  apply list_fmap_ext. intros i x _. simpl. f_equal. lia.
Qed.

(** C4: of an extension whose priorities go on without a gap to [n], whose applications
    return 0 and leave the channel where it is, and without a hangup in between, the
    priorities are executed one after the other, each once, from the one the channel is at
    to [n], and then the loop moves on. *)
Theorem priorities_in_order k (s : state) res e :
  Inv k (s_world s) -> k <= n ->
  forall fuel, n - k + 1 < Z.of_nat fuel ->
  exists s', priorities cdr fuel res e s = Done (Next 0 0 (Some EmptyString) s') /\
    Inv (n + 1) (s_world s') /\
    s_trace s' = s_trace s ++ executed k (Z.to_nat (n - k + 1)).
Proof.
  intros Hi Hk. remember (Z.to_nat (n - k)) as m eqn:Em.
  revert k s res e Hi Hk Em. induction m as [|m IH]; intros k s res e Hi Hk Em fuel Hf;
    destruct fuel as [|[|fuel]]; try lia;
    destruct (Inv_exec _ _ Hi Hk) as (w & Hx & Hw);
    destruct (Inv_place _ _ Hi) as (E1 & E2 & E3 & _); destruct (Inv_place _ _ Hw) as (_ & _ & E3' & E4');
    (rewrite (priorities_step _ _ _ _ w);
      [|unfold place; rewrite E1, E2, E3, (Inv_exists _ _ Hi); f_equal; by apply Z.leb_le|done|done]);
    unfold place; rewrite E1, E2, E3, E3'; pose proof (Inv_next _ _ Hw Hk) as Hn.
  - assert (k = n) as -> by lia. destruct (Inv_place _ _ Hn) as (F1 & F2 & F3 & _). eexists. split.
    + apply priorities_end. unfold place. cbn [s_world]. rewrite F1, F2, F3, (Inv_exists _ _ Hn).
      f_equal. apply Z.leb_gt. lia.
    + split; [done|]. cbn [s_trace]. f_equal. replace (n - n + 1) with 1 by lia.
      unfold executed. simpl. by rewrite Z.add_0_r.
  - match goal with |- context [priorities _ _ _ _ ?s1] =>
      destruct (IH (k + 1) s1 0 (Some EmptyString) Hn ltac:(lia) ltac:(lia) (S fuel) ltac:(lia))
        as (s' & Hr & Hi' & Ht) end.
    exists s'. split; [done|]. split; [done|]. rewrite Ht. cbn [s_trace]. rewrite <- app_assoc. f_equal.
    replace (Z.to_nat (n - k + 1)) with (S (Z.to_nat (n - (k + 1) + 1))) by lia.
    by rewrite executed_S.
Qed.

End linear.

(** The state the loop over the priorities is left in. *)
Definition left_state (l : @left W) : state := match l with Out _ s | Next _ _ _ s => s end.

(** The first round at a place that exists shows in the trace of every run. *)
Lemma priorities_executes fuel res e (s : state) r w l :
  let c := place s in
  exists_extension (s_world s) (ch_context c) (ch_exten c) (ch_priority c) = Some true ->
  exec_extension (s_world s) = Some (r, w) -> priorities cdr fuel res e s = Done l ->
  exists tr, s_trace (left_state l) =
    s_trace s ++ Executed (ch_context c) (ch_exten c) (ch_priority c) r :: tr.
Proof.
  intros c He Hx E. destruct fuel as [|fuel]; [done|]. cbn [priorities] in E.
  unfold has_place, has in E. fold c in E. rewrite He in E. cbn [guarded mbind outcome_bind negb] in E.
  assert (exec s = Done (r, emit (Executed (ch_context c) (ch_exten c) (ch_priority c) r) (with_world s w))) as Hs
    by (unfold exec; by rewrite Hx).
  rewrite Hs in E. cbn [mbind outcome_bind] in E.
  set (s1 := emit _ _) in E. assert (H1 : s_trace s1 = s_trace s ++ [Executed (ch_context c) (ch_exten c) (ch_priority c) r]) by done.
  assert (grows s1 (left_state l)) as (tr & -> & _).
  { case_if_in E; [by injection E as <-|]. case_if_in E; [by injection E as <-|].
    case_if_in E; [injection E as <-; by apply grows_cdr|].
    apply bind_done in E as ([stop s2] & Ha%after_exec_grows & E).
    trans s2; [etrans; [|exact Ha]; case_if; [apply grows_chan|done]|].
    destruct stop; [by injection E as <-|]. apply priorities_grows in E. etrans; [|exact E]. apply grows_chan. }
  exists tr. by rewrite H1, <- app_assoc.
Qed.

(** C5: an application that returns 0 after it moved the channel of a running call,
    which is not to be hung up, with [cw_explicit_goto] to a place is followed by the place it named: the priority the jump
    takes off is the one the loop adds.  If that place exists it is what is executed
    next, whatever its application answers and however the loop goes on; if it does
    not, the loop is left at it. *)
Theorem goto_reaches_target res e (s : state) w context exten priority :
  let c := place s in
  exists_extension (s_world s) (ch_context c) (ch_exten c) (ch_priority c) = Some true ->
  ch_autoloop c = true -> ch_softhangup c = 0 ->
  exec_extension (s_world s) = Some (0, w) ->
  chan w = cw_explicit_goto c (Some context) (Some exten) priority ->
  context <> EmptyString -> exten <> EmptyString -> 0 <= priority ->
  (String.length context < CW_MAX_CONTEXT)%nat -> (String.length exten < CW_MAX_EXTENSION)%nat ->
  let here := Executed (ch_context c) (ch_exten c) (ch_priority c) 0 in
  exists s', (forall fuel, priorities cdr (S fuel) res e s = priorities cdr fuel 0 (Some EmptyString) s') /\
    s_world s' = set_chan ((chan w) <| ch_priority := ch_priority (chan w) + 1 |>) w /\
    ch_context (place s') = context /\ ch_exten (place s') = exten /\
    ch_priority (place s') = priority /\ s_trace s' = s_trace s ++ [here] /\
    (forall r w', exists_extension (s_world s') context exten priority = Some true ->
       exec_extension (s_world s') = Some (r, w') ->
       exec s' = Done (r, {| s_world := w';
                             s_trace := s_trace s ++ [here; Executed context exten priority r] |}) /\
       forall fuel l, priorities cdr fuel res e s = Done l ->
         exists tr, s_trace (left_state l) = s_trace s ++ here :: Executed context exten priority r :: tr) /\
    (exists_extension (s_world s') context exten priority = Some false ->
       forall fuel, priorities cdr (S (S fuel)) res e s = Done (Next 0 0 (Some EmptyString) s')).
Proof.
  intros c He Ha Hs Hx Hw Hc Hn Hp Lc Ln here.
  assert (Hstep : forall fuel, _) by (intros fuel; apply (priorities_step fuel res e s w He Hx);
    rewrite Hw; unfold cw_explicit_goto; repeat case_if; simpl; done).
  match type of Hstep with forall fuel, _ = priorities _ _ _ _ ?s1 => set (s' := s1) in * end.
  exists s'. assert (ch_context (place s') = context /\ ch_exten (place s') = exten /\ ch_priority (place s') = priority)
    as (E1 & E2 & E3).
  { unfold s', place. cbn [s_world s_trace]. rewrite !chan_set, Hw. unfold cw_explicit_goto.
    assert (streq context "" = false) as ->
      by (apply not_true_iff_false; rewrite streq_eq; done).
    assert (streq exten "" = false) as -> by (apply not_true_iff_false; rewrite streq_eq; done).
    rewrite (proj2 (Z.ltb_lt (-1) priority)) by lia. simpl. rewrite Ha. unfold Find.place.
    rewrite (strtake_all _ context), (strtake_all _ exten) by lia. split_and!; [done|done|lia]. }
  split; [exact Hstep|]. do 5 (split; [done|]). split.
  - intros r w' He' Hx'. split.
    + unfold exec. rewrite Hx'. cbn [guarded mbind outcome_bind]. rewrite E1, E2, E3. unfold emit, with_world, s'.
      cbn [s_world s_trace]. by rewrite <- app_assoc.
    + intros [|fuel] l E; [done|]. rewrite Hstep in E. eapply priorities_executes in E as (tr & ->);
        [|by rewrite E1, E2, E3|exact Hx'].
      exists tr. rewrite E1, E2, E3. unfold s'. cbn [s_trace]. by rewrite <- app_assoc.
  - intros He' fuel. rewrite Hstep. apply priorities_end. by rewrite E1, E2, E3.
Qed.

(** *** Digits *)

(** [n] times the same digit. *)
Fixpoint same_digits (digit : Z) (n : nat) : string :=
  match n with O => EmptyString | S n => String (chr digit) (same_digits digit n) end.

Lemma same_digits_length digit n : String.length (same_digits digit n) = n.
Proof. induction n; simpl; auto. Qed.

Lemma put_same_digit digit n : put_digit (same_digits digit n) n digit = same_digits digit (S n).
Proof.
  unfold put_digit. rewrite strtake_all by by rewrite same_digits_length.
  assert (strdrop (S n) (same_digits digit n) = EmptyString) as ->.
  { apply strdrop_all. rewrite same_digits_length. lia. }
  induction n as [|n IH]; [done|]. cbn [same_digits] in *. rewrite string_cons_app. by f_equal.
Qed.

(** C22: digits that keep coming while the dialplan wants more overrun the buffer of
    256 bytes: nothing limits what is collected. *)
Theorem digits_overrun (Inv : W -> Prop) digit (s : state) :
  (forall w, Inv w -> ch_softhangup (chan w) = 0 /\ ch_pbx (chan w) <> None) ->
  (forall w n, Inv w -> (n <= 255)%nat ->
     matchmore_extension w (ch_context (chan w)) (same_digits digit n) 1 = Some true) ->
  (forall w ms, Inv w -> exists w', waitfordigit ms w = (digit, w') /\ Inv w') ->
  0 < digit -> Inv (s_world s) ->
  forall waittime fuel, (256 <= fuel)%nat -> collect fuel EmptyString 0 waittime s = Fault.
Proof.
  intros Hc Hm Hw Hd Hi waittime fuel Hf.
  cut (forall pos, (pos <= 255)%nat -> (256 <= fuel + pos)%nat ->
         collect fuel (same_digits digit pos) pos waittime s = Fault).
  { intros Hcut. apply (Hcut 0%nat); lia. }
  clear Hf. revert s Hi waittime. induction fuel as [|fuel IH]; intros s Hi waittime pos Hp Hf; [lia|].
  cbn [collect]. unfold place. rewrite (Hm _ _ Hi Hp). simpl.
  destruct (Hw _ (waittime * 1000) Hi) as (w' & -> & Hi'). unfold place. simpl.
  destruct (Hc _ Hi') as [-> Hp']. simpl.
  rewrite (proj2 (Z.eqb_neq digit 0)), (proj2 (Z.ltb_ge digit 0)) by lia.
  destruct (Z.leb_spec EXTEN_BUF (Z.of_nat pos + 1)) as [|Hle]; [done|].
  destruct (ch_pbx (chan w')) as [pbx|]; [|done]. simpl. unfold EXTEN_BUF in Hle.
  rewrite put_same_digit. apply IH; [done|lia|lia].
Qed.

(** A channel that is moved while it waits for a digit does not go where it was
    sent: it waits once more, now in the new context, and when nothing is dialled
    and there is no extension t, the call ends, whether or not the place it was
    sent to exists. *)
Theorem async_goto_while_dialling fuel res (s : state) w :
  let c := place s in let c' := (chan w) <| ch_softhangup := 0 |> in let w' := set_chan c' w in
  exists_extension (s_world s) (ch_context c) (ch_exten c) 1 = Some true ->
  ch_softhangup c = 0 ->
  (exists pbx, ch_pbx c = Some pbx /\ rtimeout pbx <> 0 /\
   waitfordigit (rtimeout pbx * 1000) (s_world s) = (0, w) /\
   waitfordigit (rtimeout pbx * 1000) w' = (0, w')) ->
  matchmore_extension (s_world s) (ch_context c) "" 1 = Some true ->
  ch_softhangup (chan w) = CW_SOFTHANGUP_ASYNCGOTO ->
  matchmore_extension w' (ch_context (chan w)) "" 1 = Some true ->
  exists_extension w' (ch_context (chan w)) "" 1 = Some false ->
  exists_extension w' (ch_context (chan w)) "t" 1 = Some false ->
  exists s', after_priorities false cdr (S (S fuel)) res 0 (Some EmptyString) s = Done (Leave res s') /\
    s_world s' = w' /\ forall context exten priority r,
      Executed context exten priority r ∈ s_trace s' -> Executed context exten priority r ∈ s_trace s.
Proof.
  intros c c' w' He Hs (pbx & Hp & Hr & Hw & Hw') Hm Ha Hm' He' Ht.
  assert (chan w' = c') as Hcw by apply chan_set.
  assert (ch_context c' = ch_context (chan w)) as Hx by done.
  unfold after_priorities, has. fold c. rewrite He. cbn [guarded mbind outcome_bind negb].
  rewrite Hs. change (0 =? CW_SOFTHANGUP_TIMEOUT) with false. change (0 =? 0) with true.
  cbv iota. cbn [negb]. rewrite Hp. cbn [guarded mbind outcome_bind].
  rewrite (proj2 (Z.eqb_neq (rtimeout pbx) 0)) by done. cbn [negb collect guarded mbind outcome_bind].
  fold c. rewrite Hm. cbn [guarded mbind outcome_bind negb]. rewrite Hw.
  unfold on_chan, place. cbn [s_world s_trace with_world emit]. rewrite Ha.
  cbn [Z.eqb CW_SOFTHANGUP_ASYNCGOTO Pos.eqb]. fold c'. fold w'. rewrite Hcw, Hx, Hm'.
  cbn [guarded mbind outcome_bind negb s_world]. rewrite Hw'. cbn [with_world emit s_world s_trace].
  rewrite ?Hcw. change (ch_softhangup c' =? CW_SOFTHANGUP_ASYNCGOTO) with false.
  change (0 =? 0) with true. cbv iota. cbn [mbind outcome_bind].
  unfold dialled, has, place, emit, with_world. cbn [s_world s_trace].
  rewrite Hcw, Hx, He'. cbn [guarded mbind outcome_bind]. change (streq "" "") with true. cbn [negb].
  rewrite Ht. cbn [guarded mbind outcome_bind]. eexists. split_and!; [done|done|].
  intros context exten priority r. cbn [s_trace]. rewrite !elem_of_app, !list_elem_of_singleton.
  by intros [[?|?]|?].
Qed.

End places.

(** ** The number of calls *)

(** The counter never passes the limit, a call that ends gives its place back,
    but a thread that cannot be created keeps its place for good. *)
Theorem call_count_bounded k overload :
  0 <= countcalls k -> (option_maxcalls k <> 0 -> countcalls k <= option_maxcalls k) ->
  (forall r k', increase_call_count overload k = (r, k') ->
     0 <= countcalls k' /\ (option_maxcalls k <> 0 -> countcalls k' <= option_maxcalls k) /\
     (r = 0 -> decrease_call_count k' = k) /\ (r <> 0 -> k' = k)) /\
  (forall created, (cw_pbx_start false overload created k).1 = CW_PBX_FAILED ->
     countcalls (cw_pbx_start false overload created k).2 = countcalls k + 1).
Proof.
  intros H0 Hm. split.
  - intros r k'. unfold increase_call_count. case_if; intros [= <- <-]; [done|].
    b2p. simpl. split_and!; [lia| | |done].
    + intros Hz. destruct (Z.eqb_spec (option_maxcalls k) 0); [done|].
      destruct (Z.leb_spec (option_maxcalls k) (countcalls k)); simpl in *; [done|lia].
    + intros _. unfold decrease_call_count. simpl. rewrite (proj2 (Z.ltb_lt _ _)) by lia.
      destruct k; simpl. f_equal. lia.
  - intros created. unfold cw_pbx_start, increase_call_count. case_if; [done|]. by destruct created.
Qed.
