(* ===== verification/World.v ===== *)
(** * The dialplan's loop on the models of its parts (corelib/pbx.c)

    [callweaver_world] is the world [PbxRun] runs in, made of the models of the
    lookup (Find), the variables (Vars) and the substitution (Subst): a place of
    the dialplan is looked up, its data substituted and split, and the code of
    its application called ([pbx_extension_helper] and [pbx_exec]).  The code of
    applications, functions and switches and the driver's side of waiting are
    parameters.  The witnesses run a small dialplan. *)

From S2P Require Import Prelude CStr Hash Pattern Timing Exten Dialplan Registry Find Args.
From S2P Require Import Expr Vars Subst PbxRun.
Open Scope Z_scope.

Record world := {
  w_chan : cw_channel;
  w_globals : list cw_var_t;
  w_clock : clock;
  w_contexts : list cw_context;
}.

#[export] Instance world_eta : Eta world := fun w =>
  {| w_chan := w_chan w; w_globals := w_globals w; w_clock := w_clock w;
     w_contexts := w_contexts w |}.

(** What the variables see of the world, and give back. *)
Definition to_vstate (w : world) : vstate :=
  {| v_chan := Some (w_chan w); v_headp := None; v_globals := w_globals w; v_clock := w_clock w |}.

Definition of_vstate (w : world) (v : vstate) : world :=
  w <| w_chan := default (w_chan w) (v_chan v) |> <| w_globals := v_globals v |>
    <| w_clock := v_clock v |>.

Definition EXT_DATA_SIZE : Z := 8192.
Definition CW_STATE_UP : Z := 6.
Definition CW_STATE_BUSY : Z := 7.

Section world.
Context (switches : list cw_switch) (sw_substitute : string -> string) (lock : bool).
Context (hash_app : string -> Z) (apps : list cw_app) (funcs : list cw_func) (system_name : string).
Context (read : Z -> vstate -> list string -> func_result * vstate).
Context (write : Z -> vstate -> list string -> option string -> vstate).
Context (regex : string -> string -> option (nat * option (Z * Z * option (Z * Z)))).
(** The data of an extension; the code of an application; what a switch that
    runs an extension, the wait for a digit and the wait behind a tone do. *)
Context (data_text : Z -> string) (execute : Z -> world -> list string -> Z * world).
Context (switched : world -> world) (wait_digit : Z -> world -> Z * world) (tone : Z -> world -> world).

Definition now (w : world) : tm := k_tm (w_clock w).

Definition callerid (w : world) : option string := cid_num (ch_cid (w_chan w)).

(** What [cw_hint_extension] finds for a channel's place. *)
Definition hint_of (w : world) (c : cw_channel) : option (string * option string) :=
  match cw_hint_extension switches sw_substitute (now w) (w_contexts w) lock (Some (ch_context c))
          (ch_exten c) with
  | Some (Some e) => Some (x_app e.2, Some (data_text (x_data e.2)))
  | _ => None
  end.

Definition substitute_data (w : world) (data : string) : option (string * world) :=
  match pbx_substitute_variables (hint_of w) system_name hash_app funcs lock read regex (to_vstate w)
          data EXT_DATA_SIZE with
  | Done (s, v) => Some (s, of_vstate w v)
  | _ => None
  end.

(** [pbx_exec] *)
Definition pbx_exec (app : cw_app) (w : world) (data : string) : Z * world :=
  execute (app_execute app) w (cw_separate_app_args "," (Some data) 100).

(** [cw_exec_extension] at the channel's place. *)
Definition run_place (w : world) : option (Z * world) :=
  let c := w_chan w in
  r ← cw_exec_extension switches sw_substitute (now w) hash_app apps (w_contexts w) lock
        (ch_context c) (ch_exten c) (ch_priority c) (callerid w);
  match r with
  | HReturn v => Some (v, w)
  | HRunApp app e context num priority =>
    let w := w <| w_chan := c <| ch_context := context |> <| ch_exten := num |>
                              <| ch_priority := priority |> |> in
    '(data, w) ← substitute_data w (data_text (x_data e.2));
    Some (pbx_exec app w data)
  | HRunSwitch exec context num priority cid data =>
    Some (exec context num priority cid (default EmptyString data), switched w)
  end.

(** The answer of the helper as a truth value. *)
Definition truth (r : option helper_result) : option bool :=
  match r with
  | Some (HReturn v) => Some (negb (v =? 0))
  | Some _ => Some true
  | None => None
  end.

(** [pbx_builtin_busy] and [pbx_builtin_congestion] but for their result. *)
Definition builtin_tone (control : Z) (w : world) : world :=
  tone control
    (if ch_state (w_chan w) =? CW_STATE_UP then w
     else w <| w_chan := (w_chan w) <| ch_state := CW_STATE_BUSY |> |>).

#[export] Instance callweaver_world : PbxWorld world := {|
  chan := w_chan;
  set_chan c w := w <| w_chan := c |>;
  exists_extension w context num priority :=
    truth (cw_exists_extension switches sw_substitute (now w) hash_app apps (w_contexts w) lock
             context num priority (callerid w));
  matchmore_extension w context num priority :=
    truth (cw_matchmore_extension switches sw_substitute (now w) hash_app apps (w_contexts w) lock
             context num priority (callerid w));
  exec_extension := run_place;
  waitfordigit := wait_digit;
  busy := builtin_tone 5;
  congestion := builtin_tone 8;
  setvar name value w :=
    v ← pbx_builtin_setvar_helper hash_app funcs write lock true true (to_vstate w) name (Some value);
    Some (of_vstate w v);
  getvar name w := pbx_builtin_getvar_helper true (to_vstate w) (Some name);
|}.

#[export] Instance callweaver_laws : PbxLaws world.
Proof. by split. Qed.

End world.

(** ** A small dialplan *)

Definition noop : cw_app := {| app_id := 1; app_name := "NoOp"; app_hash := 77; app_execute := 5 |}.

(** Every application is [NoOp] here, its code [run]. *)
Definition demo_world_of (run : Z -> world -> list string -> Z * world)
    (wait : Z -> world -> Z * world) : PbxWorld world :=
  callweaver_world [] id true (fun _ => 77) [noop] [] "" (fun _ v _ => (None, v))
    (fun _ v _ _ => v) (fun _ _ => None) (fun _ => "${EXTEN},x"%string) run id wait (fun _ w => w).

(** Extension 100 with priorities 1 and 2, and 200 with priority 1. *)
Definition demo_world : world :=
  {| w_chan := demo_chan; w_globals := []; w_clock := demo_clock; w_contexts := [demo_context] |}.

Definition quiet_world : PbxWorld world := demo_world_of (fun _ w _ => (0, w)) (fun _ w => (0, w)).

(** From extension 100 the call executes both priorities, waits for the first
    digit of another extension as long as the response timeout, and is hung up. *)
Definition demo_run (w : world) : outcome (Z * @state world) :=
  @cw_pbx_run_loop world quiet_world false false false 10 true false true false
    {| s_world := w; s_trace := [] |}.

Definition run_trace (o : outcome (Z * @state world)) : list event :=
  match o with Done (_, s) => s_trace s | _ => [] end.

Example demo_run_trace :
  run_trace (demo_run demo_world) =
  [Executed "default" "100" 1 0; Executed "default" "100" 2 0; Waited 10000; HungUp].
Proof. vm_compute. reflexivity. Qed.

Lemma run_cleans_up_witness :
  exists s', demo_run demo_world = Done (0, s') /\
    ch_pbx (w_chan (s_world s')) = None /\ ch_autoloop (w_chan (s_world s')) = false.
Proof.
  destruct (demo_run demo_world) as [[r s']| |] eqn:E; [|vm_compute in E; discriminate E..].
  destruct (@run_cleans_up world quiet_world (callweaver_laws _ _ _ _ _ _ _ _ _ _ _ _ _ _ _)
              false false false 10 false false {| s_world := demo_world; s_trace := [] |} r s' E)
    as (-> & Hp & Ha & _).
  exists s'. split; [reflexivity|]. split; [exact Hp|exact Ha].
Defined.

(** ** Witnesses *)

Definition at_priority (k : Z) (w : world) : Prop :=
  1 <= k <= 3 /\ w = demo_world <| w_chan := demo_chan <| ch_priority := k |> |>.

Lemma at_priority_cases (P : Z -> world -> Prop) k w :
  at_priority k w ->
  (forall k, In k [1; 2; 3] -> P k (demo_world <| w_chan := demo_chan <| ch_priority := k |> |>)) ->
  P k w.
Proof. intros [Hk ->] HP. apply HP. simpl. lia. Qed.

Lemma priorities_in_order_witness :
  exists s', @priorities world quiet_world false 4 0 None {| s_world := demo_world; s_trace := [] |}
               = Done (Next 0 0 (Some EmptyString) s') /\
    s_trace s' = [Executed "default" "100" 1 0; Executed "default" "100" 2 0].
Proof.
  destruct (@priorities_in_order world quiet_world false "default" "100" 2 at_priority) with
    (k := 1) (s := {| s_world := demo_world; s_trace := [] |}) (res := 0) (e := @None string) (fuel := 4%nat)
    as (s' & Hr & _ & Ht).
  - intros k w [_ ->]. done.
  - intros k w Hk. pattern k, w. apply (at_priority_cases _ _ _ Hk). intros k' [<-|[<-|[<-|[]]]];
      vm_compute; reflexivity.
  - intros k w Hk Hn. exists w. split; [|exact Hk]. revert Hn. pattern k, w.
    apply (at_priority_cases _ _ _ Hk). intros k' [<-|[<-|[<-|[]]]] Hn; [vm_compute; reflexivity..|lia].
  - intros k w [Hk ->] Hn. split; [lia|]. reflexivity.
  - split; [lia|]. reflexivity.
  - lia.
  - lia.
  - exists s'. split; [exact Hr|exact Ht].
Defined.

(** An application that jumps to extension 200. *)
Definition goto_200 : PbxWorld world :=
  demo_world_of (fun _ w _ => (0, w <| w_chan := cw_explicit_goto (w_chan w) (Some "default"%string)
                                       (Some "200"%string) 1 |>)) (fun _ w => (0, w)).

Definition looping : world :=
  demo_world <| w_chan := demo_chan <| ch_autoloop := true |>
                                    <| ch_pbx := Some {| dtimeout := 5; rtimeout := 10 |} |> |>.

Lemma goto_reaches_target_witness :
  exists s' s2, (forall fuel, @priorities world goto_200 false (S fuel) 0 None {| s_world := looping; s_trace := [] |}
               = @priorities world goto_200 false fuel 0 (Some EmptyString) s') /\
    @exec world goto_200 s' = Done (0, s2) /\
    s_trace s2 = [Executed "default" "100" 1 0; Executed "default" "200" 1 0].
Proof.
  destruct (@goto_reaches_target world goto_200 (callweaver_laws _ _ _ _ _ _ _ _ _ _ _ _ _ _ _)
              false 0 None {| s_world := looping; s_trace := [] |}
              (looping <| w_chan := cw_explicit_goto (w_chan looping) (Some "default"%string)
                                      (Some "200"%string) 1 |>) "default" "200" 1)
    as (s' & Hr & Hw & _ & _ & _ & _ & Hx & _).
  - vm_compute. reflexivity.
  - reflexivity.
  - reflexivity.
  - vm_compute. reflexivity.
  - reflexivity.
  - discriminate.
  - discriminate.
  - lia.
  - unfold CW_MAX_CONTEXT. simpl. lia.
  - unfold CW_MAX_EXTENSION. simpl. lia.
  - rewrite Hw in Hx. destruct (Hx 0 (looping <| w_chan := cw_explicit_goto ((w_chan looping)
      <| ch_exten := "200"%string |> <| ch_priority := 1 |>) (Some "default"%string) (Some "200"%string) 1 |>)) as [Hx2 _].
    + vm_compute. reflexivity.
    + vm_compute. reflexivity.
    + eexists s', _. split; [exact Hr|]. split; [exact Hx2|]. reflexivity.
Defined.

(** A context that takes any number, and a caller who dials 1 for ever. *)
Definition any_number : world :=
  looping <| w_contexts := [(new_context "default" "cfg") <| c_exts := demo_step empty_store 1 "_X." 1 |>] |>.

Definition dials_1 : PbxWorld world := demo_world_of (fun _ w _ => (0, w)) (fun _ w => (49, w)).

Definition wants_more (n : nat) : bool :=
  match @matchmore_extension world dials_1 any_number "default" (same_digits 49 n) 1 with
  | Some b => b
  | None => false
  end.

Lemma wants_more_all : forallb wants_more (seq 0 256) = true.
Proof. vm_compute. reflexivity. Qed.

Lemma digits_overrun_witness :
  @collect world dials_1 300 EmptyString 0 10 {| s_world := any_number; s_trace := [] |} = Fault.
Proof.
  apply (@digits_overrun world dials_1 (fun w => w = any_number) 49
           {| s_world := any_number; s_trace := [] |}).
  - intros w ->. split; [reflexivity|discriminate].
  - intros w n -> Hn. assert (wants_more n = true) as Hm.
    { apply (proj1 (forallb_forall wants_more _) wants_more_all). apply in_seq. lia. }
    unfold wants_more in Hm. change (ch_context (chan any_number)) with "default"%string.
    destruct (@matchmore_extension world dials_1 any_number "default" (same_digits 49 n) 1) as [[|]|];
      [reflexivity|discriminate Hm..].
  - intros w ms ->. exists any_number. split; reflexivity.
  - lia.
  - reflexivity.
  - lia.
Defined.

(** A caller who is moved to extension 100 of another context while it is waited
    for a digit. *)
Definition two_contexts : world :=
  looping <| w_contexts := [demo_context; (new_context "other" "cfg") <| c_exts := demo |>] |>.

Definition moved_while_waiting : PbxWorld world :=
  demo_world_of (fun _ w _ => (0, w))
    (fun _ w => (0, if streq (ch_context (w_chan w)) "default" then
                      w <| w_chan := cw_async_goto_running (w_chan w) (Some "other"%string)
                                       (Some "100"%string) 1 |>
                    else w)).

Lemma async_goto_while_dialling_witness :
  exists s', @after_priorities world moved_while_waiting false false 5 0 0 (Some EmptyString)
      {| s_world := two_contexts; s_trace := [] |} = Done (Leave 0 s') /\
    @exists_extension world moved_while_waiting (s_world s') "other" "100" 1 = Some true /\
    s_trace s' = [Waited 10000; Waited 10000].
Proof.
  destruct (@async_goto_while_dialling world moved_while_waiting
              (callweaver_laws _ _ _ _ _ _ _ _ _ _ _ _ _ _ _) false 3 0
              {| s_world := two_contexts; s_trace := [] |}
              (two_contexts <| w_chan := cw_async_goto_running (w_chan two_contexts)
                                 (Some "other"%string) (Some "100"%string) 1 |>))
    as (s' & Hr & Hw & _).
  - vm_compute. reflexivity.
  - reflexivity.
  - exists {| dtimeout := 5; rtimeout := 10 |}. split; [reflexivity|]. split; [discriminate|].
    split; reflexivity.
  - vm_compute. reflexivity.
  - reflexivity.
  - vm_compute. reflexivity.
  - vm_compute. reflexivity.
  - vm_compute. reflexivity.
  - exists s'. split; [exact Hr|]. split; [rewrite Hw; vm_compute; reflexivity|].
    vm_compute in Hr. injection Hr as <-. reflexivity.
Defined.

Lemma call_count_bounded_witness :
  (cw_pbx_start false false false {| countcalls := 1; option_maxcalls := 2 |}).2 =
    {| countcalls := 2; option_maxcalls := 2 |} /\
  countcalls (cw_pbx_start false false false {| countcalls := 1; option_maxcalls := 2 |}).2 = 2.
Proof.
  split; [reflexivity|].
  apply (call_count_bounded {| countcalls := 1; option_maxcalls := 2 |} false); simpl; lia || reflexivity.
Defined.
