(* ===== verification/Builtins.v ===== *)
(** * Applications built into the PBX (corelib/pbx.c)

    What the dialplan's own applications do to the channel: jumps under a
    condition or a time restriction, variables, timeouts, waiting for an
    extension, and the editing of the extension.  A string in [argv] is cut in
    place by the source, by the NULs it writes; here the parts are values.

    [None] is a bad memory access.  Texts that are printed are left out. *)

From S2P Require Import Prelude CStr Hash Timing Exten Dialplan Registry Find Args Expr.
From S2P Require Import Vars Subst PbxRun World.
Open Scope Z_scope.

(** The text before [c] without the white space at its end, and behind it
    without the white space at its start. *)
Definition cut_trim (c : ascii) (s : string) : option (string * string) :=
  match strcut c s with
  | (a, Some b) => Some (rtrim a, skip_spaces b)
  | (_, None) => None
  end.

(** ** Jumps *)

(** The arguments up to a colon, and behind the first one. *)
Fixpoint upto_colon (argv : list string) : list string :=
  match argv with
  | [] => []
  | a :: l => match cut_trim ":" a with Some (x, _) => [x] | None => a :: upto_colon l end
  end.

Fixpoint behind_colon (argv : list string) : option (list string) :=
  match argv with
  | [] => None
  | a :: l => match cut_trim ":" a with Some (_, y) => Some (y :: l) | None => behind_colon l end
  end.

Section jumps.
Context (findlabel : string -> string -> string -> Z) (hash_app : string -> Z).

Abbreviation goto := (pbx_builtin_goto findlabel hash_app).

(** A single empty argument is no jump. *)
Definition goto_if_given (c : cw_channel) (argv : list string) : Z * cw_channel :=
  match argv with [EmptyString] => (0, c) | _ => goto c argv end.

Definition pbx_builtin_gotoif (c : cw_channel) (argv : list string) : Z * cw_channel :=
  match argv with
  | [] => (0, c)
  | a :: l =>
    match cut_trim "?" a with
    | None => (0, c)
    | Some (condition, s) =>
      if negb (pbx_checkcondition (Some condition) =? 0) then goto_if_given c (upto_colon (s :: l))
      else match behind_colon (s :: l) with
           | Some argv => goto_if_given c argv
           | None => (0, c)
           end
    end
  end.

(** The time restriction of the first four arguments, and what follows the
    question mark in the fourth.  The field [hastime] is neither set nor read. *)
Definition time_spec (argv : list string) : option (option (cw_timing * list string)) :=
  match argv with
  | times :: dow :: day :: mon :: l =>
    match cut_trim "?" mon with
    | None => Some None
    | Some (mon, s) =>
      mins ← get_timerange times;
      w ← get_dow dow;
      d ← get_day day;
      m ← get_month mon;
      Some (Some ({| hastime := 0; monthmask := m; daymask := d; dowmask := w; minmask := mins |}, s :: l))
    end
  | _ => Some None
  end.

Definition pbx_builtin_gotoiftime (now : tm) (c : cw_channel) (argv : list string)
    : option (Z * cw_channel) :=
  if (6 <? length argv)%nat then Some (-1, c)
  else
    spec ← time_spec argv;
    Some match spec with
         | None => (-1, c)
         | Some (timing, argv) => if cw_check_timing timing now then goto c argv else (0, c)
         end.

End jumps.

(** ** Applications under a time restriction *)

Section execiftime.
Context (hash_app : string -> Z) (apps : list cw_app).
Context (execute : Z -> world -> list string -> Z * world).

Definition pbx_exec_argv (app : cw_app) (w : world) (argv : list string) : Z * world :=
  execute (app_execute app) w argv.

Definition pbx_builtin_execiftime (w : world) (argv : list string) : option (Z * world) :=
  spec ← time_spec argv;
  Some match spec with
       | Some (timing, s :: l) =>
         if cw_check_timing timing (now w) then
           match pbx_findapp hash_app apps s with
           | Some app =>
             match strcut "(" s with
             | (_, Some a) =>
               pbx_exec execute app w (match strrcut ")" a with Some (a, _) => a | None => a end)
             | (_, None) => pbx_exec_argv app w l
             end
           | None => (-1, w)
           end
         else (0, w)
       | _ => (-1, w)
       end.

End execiftime.

(** ** Variables *)

Section variables.
Context (hash_app : string -> Z) (funcs : list cw_func).
Context (write : Z -> vstate -> list string -> option string -> vstate) (lock : bool).

Abbreviation setvar_helper := (pbx_builtin_setvar_helper hash_app funcs write lock true).

(** The assignments [name=value]; other arguments are passed over. *)
Fixpoint set_each (c : bool) (st : vstate) (argv : list string) : option vstate :=
  match argv with
  | [] => Some st
  | a :: l =>
    match strcut "=" a with
    | (name, Some value) => st ← setvar_helper c st name (Some value); set_each c st l
    | (_, None) => set_each c st l
    end
  end.

Definition has_char (c : ascii) (s : string) : bool :=
  match (strcut c s).2 with Some _ => true | None => false end.

(** [Set]: a last argument without [=] is flags, and [g] among them means the
    globals. *)
Definition pbx_builtin_setvar (st : vstate) (argv : list string) : option vstate :=
  match last argv with
  | None => Some st
  | Some flags =>
    if (1 <? length argv)%nat && negb (has_char "=" flags)
    then set_each (negb (has_char "g" flags)) st (removelast argv)
    else set_each true st argv
  end.

Definition pbx_builtin_setglobalvar (st : vstate) (argv : list string) : option vstate :=
  set_each false st argv.

(** [ImportVar(new=channel,variable)]: the variable of another channel, which is
    [chan2], NULL if there is none of the name.  The result is the caller's side
    and the other channel as the functions read left it. *)
Context (hint : cw_channel -> option (string * option string)) (system_name : string).
Context (read : Z -> vstate -> list string -> func_result * vstate).
Context (regex : string -> string -> option (nat * option (Z * Z * option (Z * Z)))).

Definition pbx_builtin_importvar (chan2 : string -> option cw_channel) (st : vstate)
    (argv : list string) : outcome (vstate * option cw_channel) :=
  match argv with
  | [a; var] =>
    match strcut "=" a with
    | (_, None) => Done (st, None)
    | (name, Some channel) =>
      if streq (rtrim name) "" then Fault
      else
        '(tmp, st', c2) ←
          match chan2 (skip_spaces channel) with
          | None => Done (EmptyString, st, None)
          | Some c2 =>
            '(tmp, st') ← pbx_substitute_variables_helper hint system_name hash_app funcs lock read regex
                            (st <| v_chan := Some c2 |>) ("${" +:+ var +:+ "}") VAR_BUF_SIZE;
            Done (tmp, st' <| v_chan := v_chan st |>, v_chan st')
          end;
        st'' ← guarded (setvar_helper true st' (rtrim name) (Some tmp));
        Done (st'', c2)
    end
  | _ => Done (st, None)
  end.

End variables.

(** ** Timeouts and the end of the call *)

Definition pbx_builtin_hangup (c : cw_channel) (argv : list string) : Z * cw_channel :=
  (-1, match argv with
       | a :: _ => if 0 <? atoi a then c <| ch_hangupcause := atoi a |> else c
       | [] => c
       end).

Definition on_pbx (f : Z -> cw_pbx -> cw_pbx) (c : cw_channel) (argv : list string) : option cw_channel :=
  match ch_pbx c with
  | None => Some c
  | Some p => a ← head argv; Some (c <| ch_pbx := Some (f (atoi a) p) |>)
  end.

Definition pbx_builtin_rtimeout := on_pbx (fun n p => p <| rtimeout := n |>).
Definition pbx_builtin_dtimeout := on_pbx (fun n p => p <| dtimeout := n |>).

(** [cw_channel_setwhentohangup], but for the frame that wakes the channel. *)
Definition cw_channel_setwhentohangup (time : Z) (c : cw_channel) (offset : Z) : cw_channel :=
  c <| ch_whentohangup := if offset =? 0 then 0 else time + offset |>.

Definition pbx_builtin_atimeout (time : Z) (c : cw_channel) (argv : list string) : cw_channel :=
  cw_channel_setwhentohangup time c (match argv with a :: _ => atoi a | [] => 0 end).

Section waitexten.
Context {W : Type} `{PbxWorld W}.
(** The milliseconds in a text that is a number of seconds, [atof(s) * 1000]. *)
Context (atof_ms : string -> Z).

(** [WaitExten], without its music. *)
Definition pbx_builtin_waitexten (w : W) (argv : list string) : option (Z * W) :=
  let c := chan w in
  let given := match argv with a :: _ => atof_ms a | [] => 0 end in
  let ms := if given =? 0 then match ch_pbx c with Some p => s32 (rtimeout p * 1000) | None => 10000 end
            else given in
  let '(res, w) := waitfordigit ms w in
  let c := chan w in
  if res =? 0 then
    ok ← exists_extension w (ch_context c) (ch_exten c) (ch_priority c + 1);
    if ok : bool then Some (0, w)
    else
      t ← exists_extension w (ch_context c) "t" 1;
      Some (if t : bool then (0, set_chan (c <| ch_exten := "t"%string |> <| ch_priority := 0 |>) w)
            else (-1, w))
  else Some (res, w).

End waitexten.

(** ** Editing the extension

    These work on the bytes of [chan->exten], behind its terminator too. *)

Abbreviation bytes := (list ascii).

Definition mem_read (off n : nat) (b : bytes) : option bytes :=
  if (off + n <=? length b)%nat then Some (take n (drop off b)) else None.

Definition mem_write (off : nat) (src b : bytes) : option bytes :=
  if (off + length src <=? length b)%nat
  then Some (take off b ++ src ++ drop (off + length src) b) else None.

(** The bytes before the first NUL. *)
Fixpoint text (b : bytes) : bytes :=
  match b with
  | [] => []
  | c :: b => if char_eqb c Ascii.zero then [] else c :: text b
  end.

Definition pbx_builtin_stripmsd (exten : bytes) (argv : list string) : option bytes :=
  match argv with
  | [a] =>
    let n := atoi a in
    if (n =? 0) || (n <? 0) || (Z.of_nat CW_MAX_EXTENSION <=? n) then Some exten
    else
      r ← mem_read (Z.to_nat n) (CW_MAX_EXTENSION - Z.to_nat n) exten;
      mem_write 0 r exten
  | _ => Some exten
  end.

(** A prefix as long as the buffer makes the number of bytes to move wrap. *)
Definition prefix_one (exten : bytes) (arg : string) : option bytes :=
  let n := String.length arg in
  if (CW_MAX_EXTENSION <=? n)%nat then None
  else
    r ← mem_read 0 (CW_MAX_EXTENSION - n - 1) exten;
    exten ← mem_write n r exten;
    mem_write 0 (String.list_ascii_of_string arg) exten.

Fixpoint pbx_builtin_prefix (exten : bytes) (argv : list string) : option bytes :=
  match argv with
  | [] => Some exten
  | a :: l => exten ← prefix_one exten a; pbx_builtin_prefix exten l
  end.

(** [l] is the length of the extension before the first suffix. *)
Fixpoint suffix_each (l : nat) (exten : bytes) (argv : list string) : option bytes :=
  match argv with
  | [] => Some exten
  | a :: rest =>
    let n := Nat.min (String.length a) (CW_MAX_EXTENSION - l - 1) in
    exten ← mem_write l (take n (String.list_ascii_of_string a)) exten;
    suffix_each l exten rest
  end.

Definition pbx_builtin_suffix (exten : bytes) (argv : list string) : option bytes :=
  suffix_each (length (text exten)) exten argv.

(** ** GotoIf chooses the branch *)

(** Two lists of arguments in one text: the last of the first and the first of
    the second become one argument, with [c] in between. *)
Fixpoint attach (c : ascii) (l m : list string) : list string :=
  match l, m with
  | [], _ => m
  | [x], y :: m => (x +:+ String c y) :: m
  | x :: l, _ => x :: attach c l m
  end.

Lemma strcut_none c s t : (strcut c s).2 = None -> strcut c (s +:+ String c t) = (s, Some t).
Proof.
  induction s as [|d s IH]; simpl.
  - by rewrite char_eqb_refl.
  - destruct (char_eqb d c); [done|].
    destruct (strcut c s) as [a b] eqn:E. simpl in *. intros ->. by rewrite IH.
Qed.

Lemma cut_trim_app c s t :
  (strcut c s).2 = None -> rtrim s = s -> skip_spaces t = t ->
  cut_trim c (s +:+ String c t) = Some (s, t).
Proof. intros Hs Hr Ht. unfold cut_trim. by rewrite strcut_none, Hr, Ht. Qed.

Lemma cut_trim_none c s : (strcut c s).2 = None -> cut_trim c s = None.
Proof. unfold cut_trim. by destruct (strcut c s) as [a [|]]. Qed.

Definition no_colon (a : string) : Prop := (strcut ":" a).2 = None /\ rtrim a = a.

Lemma colon_plain A : Forall no_colon A -> upto_colon A = A /\ behind_colon A = None.
Proof.
  induction 1 as [|a l [Ha _] _ [I1 I2]]; [done|]. cbn [upto_colon behind_colon].
  rewrite !cut_trim_none by done. by rewrite I1, I2.
Qed.

Lemma colon_branches A y B :
  Forall no_colon A -> A <> [] -> skip_spaces y = y ->
  upto_colon (attach ":" A (y :: B)) = A /\ behind_colon (attach ":" A (y :: B)) = Some (y :: B).
Proof.
  intros HA Hne Hy. induction HA as [|a l [Ha Hr] Hl IH]; [done|]. destruct l as [|b l].
  - cbn [attach upto_colon behind_colon]. by rewrite !cut_trim_app.
  - destruct IH as [I1 I2]; [done|].
    change (attach ":" (a :: b :: l) (y :: B)) with (a :: attach ":" (b :: l) (y :: B)).
    cbn [upto_colon behind_colon]. rewrite !cut_trim_none, I1, I2 by done. done.
Qed.

(** The conditional jump of [GotoIf(condition?A:B)] is the jump to [A] when the
    condition holds and to [B] when it does not, where an empty target, or none,
    is no jump. *)
Theorem gotoif_branches findlabel hash_app c condition x A y B :
  (strcut "?" condition).2 = None -> rtrim condition = condition ->
  Forall no_colon (x :: A) -> skip_spaces x = x ->
  skip_spaces y = y ->
  let gotoif := pbx_builtin_gotoif findlabel hash_app c in
  let go := goto_if_given findlabel hash_app c in
  let holds := negb (pbx_checkcondition (Some condition) =? 0) in
  gotoif (attach "?" [condition] (attach ":" (x :: A) (y :: B))) = go (if holds then x :: A else y :: B) /\
  gotoif (attach "?" [condition] (x :: A)) = if holds then go (x :: A) else (0, c).
Proof.
  intros Hq Hc HA Hx Hy gotoif go holds.
  assert (forall z l, skip_spaces z = z -> gotoif (attach "?" [condition] (z :: l)) =
    if holds then go (upto_colon (z :: l))
    else match behind_colon (z :: l) with Some m => go m | None => (0, c) end) as Hg.
  { intros z l Hz. unfold gotoif. cbn [attach pbx_builtin_gotoif].
    rewrite cut_trim_app by done. done. }
  split.
  - assert (exists z l, attach ":" (x :: A) (y :: B) = z :: l /\ skip_spaces z = z) as (z & l & E & Hz).
    { destruct A as [|a A]; [|by eexists _, _]. eexists _, _. split; [done|].
      destruct x as [|d x]; [done|]. rewrite string_cons_app. simpl in *.
      destruct (isspace d); [|done]. exfalso.
      assert (forall s t, skip_spaces s = String d t -> (String.length t < String.length s)%nat) as Hl.
      { induction s as [|e s IH]; simpl; intros t Ht; [done|]. destruct (isspace e).
        - apply IH in Ht. lia.
        - injection Ht as _ ->. lia. }
      apply Hl in Hx. lia. }
    rewrite E, Hg by done. rewrite <- E.
    destruct (colon_branches _ y B HA) as [-> ->]; [done|done|]. by destruct holds.
  - rewrite Hg by done. by destruct (colon_plain _ HA) as [-> ->].
Qed.

Lemma gotoif_branches_witness :
  pbx_builtin_gotoif (fun _ _ _ => -1) (fun _ => 0) demo_chan ["1?sales"; "200"; "1:100"; "2"]%string =
    (0, demo_chan <| ch_context := "sales"%string |> <| ch_exten := "200"%string |> <| ch_priority := 1 |>) /\
  pbx_builtin_gotoif (fun _ _ _ => -1) (fun _ => 0) demo_chan ["0?sales"; "200"; "1:100"; "2"]%string =
    (0, demo_chan <| ch_exten := "100"%string |> <| ch_priority := 2 |>).
Proof.
  assert (Forall no_colon ["sales"; "200"; "1"]%string) as HA
    by (repeat constructor).
  split.
  - refine (proj1 (gotoif_branches (fun _ _ _ => -1) (fun _ => 0) demo_chan "1" "sales" ["200"; "1"]%string
      "100" ["2"]%string _ _ HA _ _)); done.
  - refine (proj1 (gotoif_branches (fun _ _ _ => -1) (fun _ => 0) demo_chan "0" "sales" ["200"; "1"]%string
      "100" ["2"]%string _ _ HA _ _)); done.
Defined.

(** ** Jumps and applications under a time restriction *)

(** Four fields, each read as a range around its dial. *)
Definition fields_allow (times dow day mon : string) (now : tm) : bool :=
  allows (timerange times) (tm_hour now * 30 + tm_min now / 2) &&
  allows (dowrange dow) (tm_wday now) && allows (dayrange day) (tm_mday now - 1) &&
  allows (monthrange mon) (tm_mon now).

Lemma time_spec_ok times dow day mon x l now :
  tm_wf now -> (strcut "?" mon).2 = None -> rtrim mon = mon -> skip_spaces x = x ->
  exists t, time_spec (times :: dow :: day :: (mon +:+ String "?" x) :: l) = Some (Some (t, x :: l)) /\
    cw_check_timing t now = fields_allow times dow day mon now.
Proof.
  intros Hn Hq Hm Hx. pose proof (slot_bound now Hn) as Hs. destruct (Hn) as [_ _ Hd Hmon Hw].
  destruct (get_timerange_spec times) as (mins & E1 & H1). destruct (get_dow_spec dow) as (w & E2 & H2).
  destruct (get_day_spec day) as (d & E3 & H3). destruct (get_month_spec mon) as (m & E4 & H4).
  unfold time_spec. rewrite cut_trim_app by done. rewrite E1, E2, E3, E4. simpl.
  eexists. split; [done|]. rewrite check_timing_masks by done. simpl.
  rewrite H1, H2, H3, H4 by lia. done.
Qed.

(** [GotoIfTime] jumps exactly at the moments that each of the four fields
    allows, and otherwise leaves the channel alone. *)
Theorem gotoiftime_jumps_in_time findlabel hash_app now c times dow day mon x l :
  tm_wf now -> (strcut "?" mon).2 = None -> rtrim mon = mon -> skip_spaces x = x ->
  (length l <= 2)%nat ->
  pbx_builtin_gotoiftime findlabel hash_app now c
    (times :: dow :: day :: (mon +:+ String "?" x) :: l) =
  Some (if fields_allow times dow day mon now
        then pbx_builtin_goto findlabel hash_app c (x :: l) else (0, c)).
Proof.
  intros Hn Hq Hm Hx Hl. unfold pbx_builtin_gotoiftime.
  destruct (Nat.ltb_spec 6 (length (times :: dow :: day :: (mon +:+ String "?" x) :: l))) as [Hlt|_].
  { simpl in Hlt. lia. }
  destruct (time_spec_ok times dow day mon x l now) as (t & -> & Ht); [done..|]. simpl. by rewrite Ht.
Qed.

Lemma gotoiftime_jumps_in_time_witness :
  pbx_builtin_gotoiftime (fun _ _ _ => -1) (fun _ => 0) some_evening demo_chan
    ["*"; "*"; "*"; "*?sales"; "200"; "1"]%string =
  Some (0, demo_chan <| ch_context := "sales"%string |> <| ch_exten := "200"%string |>
             <| ch_priority := 1 |>).
Proof.
  refine (gotoiftime_jumps_in_time (fun _ _ _ => -1) (fun _ => 0) some_evening demo_chan "*" "*" "*" "*"
           "sales" ["200"; "1"]%string _ _ _ _ _); [constructor; simpl; lia|done|done|done|simpl; lia].
Defined.

Lemma findapp_none hash_app apps s :
  (forall p, p ∈ apps -> app_hash p <> hash_app s) -> pbx_findapp hash_app apps s = None.
Proof.
  induction apps as [|p apps IH]; intros Ha; [done|]. simpl.
  destruct (Z.eqb_spec (hash_app s) (app_hash p)) as [E|_].
  - by destruct (Ha p); [left|].
  - apply IH. intros q Hq. apply Ha. by right.
Qed.

(** [ExecIfTime] looks the application up by the text with its arguments in
    parentheses, which no application is registered under: in that form, which
    is the documented one, nothing is ever executed. *)
Theorem execiftime_never_with_parentheses hash_app apps execute w times dow day mon name args l :
  tm_wf (now w) -> (strcut "?" mon).2 = None -> rtrim mon = mon ->
  skip_spaces (name +:+ String "(" args) = name +:+ String "(" args ->
  (forall p, p ∈ apps -> app_hash p <> hash_app (name +:+ String "(" args)) ->
  pbx_builtin_execiftime hash_app apps execute w
    (times :: dow :: day :: (mon +:+ String "?" (name +:+ String "(" args)) :: l) =
  Some (if fields_allow times dow day mon (now w) then -1 else 0, w).
Proof.
  intros Hn Hq Hm Hx Ha. unfold pbx_builtin_execiftime.
  destruct (time_spec_ok times dow day mon (name +:+ String "(" args) l (now w)) as (t & -> & Ht);
    [done..|]. simpl. rewrite Ht. case_if; [|done].
  by rewrite findapp_none.
Qed.

Definition real_noop : cw_app :=
  {| app_id := 1; app_name := "NoOp"; app_hash := cw_hash_string (Some "NoOp"%string); app_execute := 5 |}.

Lemma execiftime_never_with_parentheses_witness :
  pbx_builtin_execiftime (fun s => cw_hash_string (Some s)) [real_noop] (fun _ w _ => (0, w))
    demo_world ["*"; "*"; "*"; "*?NoOp(x)"]%string = Some (-1, demo_world) /\
  pbx_builtin_execiftime (fun s => cw_hash_string (Some s)) [real_noop] (fun _ w _ => (0, w))
    demo_world ["*"; "*"; "*"; "*?NoOp"; "x"]%string = Some (0, demo_world).
Proof.
  split; [|vm_compute; reflexivity].
  refine (execiftime_never_with_parentheses (fun s => cw_hash_string (Some s)) [real_noop]
            (fun _ w _ => (0, w)) demo_world "*" "*" "*" "*" "NoOp" "x)" [] _ _ _ _ _).
  - constructor; simpl; lia.
  - reflexivity.
  - reflexivity.
  - reflexivity.
  - intros p Hp. apply list_elem_of_singleton in Hp as ->. vm_compute. discriminate.
Defined.

(** ** Set *)

Section set.
Context (hash_app : string -> Z) (funcs : list cw_func).
Context (write : Z -> vstate -> list string -> option string -> vstate) (lock : bool).

(** The list a variable is put in. *)
Definition heads (c : bool) (st : vstate) : list cw_var_t :=
  match (if c then v_chan st else None) with Some ch => ch_varshead ch | None => v_globals st end.

Definition assignment (p : string * string) : string := p.1 +:+ String "=" p.2.

(** What the last assignment to a hash assigns. *)
Fixpoint assigned (h : Z) (ps : list (string * string)) : option string :=
  match ps with
  | [] => None
  | (n, v) :: ps =>
    match assigned h ps with
    | Some v => Some v
    | None => if h =? cw_hash_var_name n then Some v else None
    end
  end.

Definition plain_name (n : string) : Prop :=
  ends_paren n = Some false /\ nametail n = n /\ (strcut "=" n).2 = None.

Lemma on_head_spec c f st l :
  f (heads c st) = Some l ->
  exists st', on_head c f st = Some st' /\ heads c st' = l /\
    (is_Some (v_chan st) -> is_Some (v_chan st') /\ heads (negb c) st' = heads (negb c) st).
Proof.
  unfold heads, on_head. intros Hf. destruct c, (v_chan st) as [ch|] eqn:E; rewrite Hf; simpl;
    eexists; (split; [done|]); simpl; rewrite ?E; split_and!; try done; by intros [].
Qed.

Lemma set_each_assigns c st ps :
  Forall (fun p => plain_name p.1) ps ->
  exists st', set_each hash_app funcs write lock c st (assignment <$> ps) = Some st' /\
    (forall h, head (stack (heads c st') h) =
       match assigned h ps with Some v => Some v | None => head (stack (heads c st) h) end) /\
    (is_Some (v_chan st) -> is_Some (v_chan st') /\ heads (negb c) st' = heads (negb c) st).
Proof.
  intros Hps. revert st. induction Hps as [|[n v] ps (Hp & Ht & He) _ IH]; intros st.
  { by eexists. }
  rewrite fmap_cons. cbn [set_each]. unfold assignment at 1. cbn [fst snd] in *.
  rewrite strcut_none by done. unfold pbx_builtin_setvar_helper. rewrite Hp. cbn [mbind option_bind].
  set (f := setvar_list true n (Some v)). destruct (f (heads c st)) as [l|] eqn:El; [|done].
  destruct (on_head_spec c f st l El) as (st1 & -> & H1 & H2). cbn [mbind option_bind].
  destruct (IH st1) as (st' & E' & Hs & Hk). exists st'. split; [done|]. split.
  - intros h. rewrite Hs, H1. cbn [assigned]. destruct (assigned h ps); [done|].
    injection El as <-. erewrite insert_var_stack by done. rewrite remove_hash_stack, Ht.
    by destruct (h =? cw_hash_var_name n).
  - intros Hc. destruct (H2 Hc) as [Hc1 E1]. destruct (Hk Hc1) as [Hc' ->]. by split.
Qed.

Lemma has_char_app c s t : has_char c (s +:+ String c t) = true.
Proof.
  unfold has_char. induction s as [|d s IH]; simpl; [by rewrite char_eqb_refl|].
  destruct (char_eqb d c); [done|]. by destruct (strcut c (s +:+ String c t)).
Qed.

(** [Set(name=value,...)] leaves every name with what it was last assigned and
    the others with what they had, on the channel, or with the flag g among the
    globals, where the other list does not change. *)
Theorem set_assigns st ps :
  is_Some (v_chan st) -> ps <> [] -> Forall (fun p => plain_name p.1) ps ->
  let set := pbx_builtin_setvar hash_app funcs write lock in
  let after c st' :=
    (forall h, var_value <$> find_first h (heads c st') =
       match assigned h ps with Some v => Some v | None => var_value <$> find_first h (heads c st) end) /\
    heads (negb c) st' = heads (negb c) st in
  (exists st', set st (assignment <$> ps) = Some st' /\ after true st') /\
  (exists st', set st ((assignment <$> ps) ++ ["g"%string]) = Some st' /\ after false st').
Proof.
  intros Hc Hne Hps set after.
  assert (forall c, exists st', set_each hash_app funcs write lock c st (assignment <$> ps) = Some st' /\
            after c st') as Hall.
  { intros c. destruct (set_each_assigns c st ps Hps) as (st' & Hr & Hs & Hk).
    exists st'. split; [done|]. split; [|by apply Hk]. intros h. by rewrite !find_first_stack. }
  split.
  - destruct (Hall true) as (st' & Hr & Ha). exists st'. split; [|done]. rewrite <- Hr.
    unfold set, pbx_builtin_setvar.
    destruct (exists_last Hne) as (ps' & [n v] & ->). rewrite fmap_app.
    change (assignment <$> [(n, v)]) with [assignment (n, v)]. rewrite last_snoc.
    assert (has_char "=" (assignment (n, v)) = true) as -> by apply has_char_app. by rewrite andb_false_r.
  - destruct (Hall false) as (st' & Hr & Ha). exists st'. split; [|done]. rewrite <- Hr.
    unfold set, pbx_builtin_setvar. rewrite last_snoc, removelast_last.
    rewrite length_app, length_fmap. destruct ps as [|p ps]; [done|]. simpl. by rewrite Nat.add_1_r.
Qed.

End set.

Lemma set_assigns_witness :
  exists st', pbx_builtin_setvar (fun _ => 0) [] (fun _ s _ _ => s) true demo_vstate
      ["A=1"; "B=x=y"; "A=2"]%string = Some st' /\
    var_value <$> find_first (cw_hash_var_name "A") (heads true st') = Some "2"%string /\
    var_value <$> find_first (cw_hash_var_name "B") (heads true st') = Some "x=y"%string.
Proof.
  destruct (set_assigns (fun _ => 0) [] (fun _ s _ _ => s) true demo_vstate
              [("A", "1"); ("B", "x=y"); ("A", "2")]%string) as [(st' & Hr & Ha & _) _].
  - by eexists.
  - done.
  - repeat constructor.
  - exists st'. split; [exact Hr|]. rewrite !Ha. vm_compute. split; reflexivity.
Defined.

(** ** WaitExten in the loop *)

(** When nothing is dialled, [WaitExten] is followed by the next priority, or, if
    there is none, by the first one of extension t, or ends the call: the loop
    adds one to the priority 0 it leaves. *)
Theorem waitexten_timeout_continues {W} `{PbxLaws W} atof_ms cdr fuel res e (s : @state W) argv ms b t :
  let c := place s in let w := s_world s in
  exists_extension w (ch_context c) (ch_exten c) (ch_priority c) = Some true ->
  exec_extension w = pbx_builtin_waitexten atof_ms w argv ->
  (forall m, waitfordigit m w = (0, ms)) -> chan ms = c -> ch_softhangup c = 0 ->
  exists_extension ms (ch_context c) (ch_exten c) (ch_priority c + 1) = Some b ->
  exists_extension ms (ch_context c) "t" 1 = Some t ->
  let trace r := s_trace s ++ [Executed (ch_context c) (ch_exten c) (ch_priority c) r] in
  if b || t then
    exists s', priorities cdr (S fuel) res e s = priorities cdr fuel 0 (Some EmptyString) s' /\
      ch_context (place s') = ch_context c /\ s_trace s' = trace 0 /\
      ch_exten (place s') = (if b then ch_exten c else "t"%string) /\
      ch_priority (place s') = (if b then ch_priority c + 1 else 1)
  else exists s', priorities cdr (S fuel) res e s = Done (Out (-1) s') /\
      exists l, s_trace s' = trace (-1) ++ l.
Proof.
  intros c w He Hx Hw Hc Hs Hb Ht trace. unfold pbx_builtin_waitexten in Hx. fold c in Hx.
  rewrite Hw, Hc in Hx. cbn [Z.eqb] in Hx. rewrite Hb in Hx. cbn [mbind option_bind] in Hx.
  destruct b; [|rewrite Ht in Hx; cbn [mbind option_bind] in Hx; destruct t]; cbn [orb].
  - eexists. split; [by eapply priorities_step; [| |rewrite Hc]|]. unfold place. simpl.
    rewrite chan_set, Hc. done.
  - eexists. split; [eapply priorities_step; [done|done|by rewrite chan_set]|]. unfold place. simpl.
    rewrite !chan_set. done.
  - unfold has_place, has, exec. cbn [priorities]. unfold has_place, has, exec. fold c w.
    rewrite He. cbn [guarded mbind outcome_bind negb]. rewrite Hx. cbn [guarded mbind outcome_bind].
    unfold place. cbn. rewrite Hc, Hs. cbn. eexists. split; [done|].
    unfold cdr_event. destruct cdr; simpl; eexists; [done|by rewrite app_nil_r].
Qed.

Definition waits_then_t : PbxWorld world :=
  callweaver_world [] id true (fun _ => 77) [noop] [] "" (fun _ v _ => (None, v))
    (fun _ v _ _ => v) (fun _ _ => None) (fun _ => ""%string)
    (fun _ w argv => default (0, w) (@pbx_builtin_waitexten world quiet_world (fun _ => 0) w argv))
    id (fun _ w => (0, w)) (fun _ w => w).

(** Extension 200 has a single priority, and there is an extension t. *)
Definition with_t : world :=
  looping <| w_chan := (w_chan looping) <| ch_exten := "200"%string |> |>
    <| w_contexts := [(new_context "default" "cfg") <| c_exts :=
         demo_step (demo_step empty_store 1 "200" 1) 2 "t" 1 |>] |>.

Lemma waitexten_timeout_continues_witness :
  exists s', @priorities world waits_then_t false 9 0 None {| s_world := with_t; s_trace := [] |}
               = @priorities world waits_then_t false 8 0 (Some EmptyString) s' /\
    ch_exten (w_chan (s_world s')) = "t"%string /\ ch_priority (w_chan (s_world s')) = 1.
Proof.
  destruct (@waitexten_timeout_continues world waits_then_t (callweaver_laws _ _ _ _ _ _ _ _ _ _ _ _ _ _ _)
              (fun _ => 0) false 8 0 None {| s_world := with_t; s_trace := [] |} [] with_t false true)
    as (s' & Hr & _ & _ & He & Hp).
  - vm_compute. reflexivity.
  - vm_compute. reflexivity.
  - reflexivity.
  - reflexivity.
  - reflexivity.
  - vm_compute. reflexivity.
  - vm_compute. reflexivity.
  - exists s'. split; [exact Hr|]. split; [exact He|exact Hp].
Defined.

(** ** Editing the extension *)

Lemma length_list_ascii s : length (String.list_ascii_of_string s) = String.length s.
Proof. induction s as [|c s IH]; simpl; by rewrite ?IH. Qed.

Definition exten_ok (b : bytes) : Prop :=
  length b = CW_MAX_EXTENSION /\ last b = Some Ascii.zero.

Definition no_nul (l : bytes) : Prop := Forall (fun c => char_eqb c Ascii.zero = false) l.

Lemma text_app l b : no_nul l -> text (l ++ b) = l ++ text b.
Proof. induction 1 as [|c l Hc _ IH]; [done|]. simpl. by rewrite Hc, IH. Qed.

Lemma text_no_nul b : no_nul (text b).
Proof. induction b as [|c b IH]; simpl; [constructor|]. destruct (char_eqb c Ascii.zero) eqn:E; constructor; done. Qed.

Lemma text_split b : last b = Some Ascii.zero -> exists r, b = text b ++ Ascii.zero :: r.
Proof.
  induction b as [|c b IH]; [done|]. intros Hl. simpl.
  destruct (char_eqb c Ascii.zero) eqn:E.
  - apply char_eqb_eq in E as ->. by eexists.
  - destruct b as [|d b]; [by injection Hl as ->|]. destruct (IH Hl) as [r Hr]. exists r. simpl in *. by f_equal.
Qed.

Lemma mem_read_ok off n b : (off + n <= length b)%nat -> mem_read off n b = Some (take n (drop off b)).
Proof. intros Hn. unfold mem_read. by rewrite (proj2 (Nat.leb_le _ _)). Qed.

Lemma mem_write_ok off src b :
  (off + length src <= length b)%nat ->
  mem_write off src b = Some (take off b ++ src ++ drop (off + length src) b).
Proof. intros Hn. unfold mem_write. by rewrite (proj2 (Nat.leb_le _ _)). Qed.

Lemma last_drop (b : bytes) n : (n < length b)%nat -> last (drop n b) = last b.
Proof.
  intros Hn. rewrite <- (take_drop n b) at 2. destruct (drop n b) as [|c r] eqn:E.
  - apply (f_equal length) in E. rewrite length_drop in E. simpl in E. lia.
  - by rewrite last_app_cons.
Qed.

Lemma last_app_drop (l b : bytes) n : (n < length b)%nat -> last (l ++ drop n b) = last b.
Proof.
  intros Hn. rewrite <- (last_drop b n Hn). destruct (drop n b) as [|c r] eqn:E.
  - apply (f_equal length) in E. rewrite length_drop in E. simpl in E. lia.
  - by rewrite last_app_cons.
Qed.

Section edit.
Context (b : bytes) (Hb : exten_ok b).

Lemma text_short : (length (text b) < CW_MAX_EXTENSION)%nat.
Proof.
  destruct Hb as [Hl Hz]. destruct (text_split b Hz) as [r Hr]. apply (f_equal length) in Hr.
  rewrite length_app in Hr. simpl in Hr. lia.
Qed.

Lemma drop_last_byte : drop (CW_MAX_EXTENSION - 1) b = [Ascii.zero].
Proof.
  destruct Hb as [Hl Hz]. assert (0 < CW_MAX_EXTENSION)%nat by (unfold CW_MAX_EXTENSION; lia).
  rewrite <- (last_drop b (CW_MAX_EXTENSION - 1)) in Hz by lia.
  destruct (drop (CW_MAX_EXTENSION - 1) b) as [|z [|y r]] eqn:E; [done|by injection Hz as ->|].
  apply (f_equal length) in E. rewrite length_drop in E. cbn [length] in E. lia.
Qed.

Lemma stripmsd_spec a :
  0 < atoi a <= Z.of_nat (length (text b)) ->
  exists b', pbx_builtin_stripmsd b [a] = Some b' /\ exten_ok b' /\
    text b' = drop (Z.to_nat (atoi a)) (text b).
Proof.
  intros Hn. pose proof text_short as Ht. destruct Hb as [Hl Hz]. unfold pbx_builtin_stripmsd.
  set (n := Z.to_nat (atoi a)). assert (0 < n <= length (text b))%nat as Hn' by (unfold n; lia).
  assert ((atoi a =? 0) || (atoi a <? 0) || (Z.of_nat CW_MAX_EXTENSION <=? atoi a) = false) as -> by lia.
  rewrite mem_read_ok by lia. cbn [mbind option_bind].
  rewrite (take_ge (drop n b)) by (rewrite length_drop; lia).
  assert (length (drop n b) = CW_MAX_EXTENSION - n)%nat as Hd by (rewrite length_drop; lia).
  rewrite mem_write_ok by lia. eexists. split; [done|]. simpl. rewrite Hd. split.
  - split; [rewrite length_app, !length_drop; lia|]. rewrite last_app_drop by lia. done.
  - destruct (text_split b Hz) as [r Hr]. rewrite Hr at 1.
    rewrite drop_app_le, <- app_assoc by lia. rewrite text_app; [simpl; by rewrite app_nil_r|].
    apply Forall_drop, text_no_nul.
Qed.

Lemma prefix_spec a :
  (String.length a < CW_MAX_EXTENSION)%nat -> no_nul (String.list_ascii_of_string a) ->
  exists b', prefix_one b a = Some b' /\ exten_ok b' /\
    text b' = take (CW_MAX_EXTENSION - 1) (String.list_ascii_of_string a ++ text b).
Proof.
  intros Ha Hn. pose proof text_short as Ht. destruct Hb as [Hl Hz]. unfold prefix_one.
  set (l := String.list_ascii_of_string a) in *.
  assert (length l = String.length a) as Hla by apply length_list_ascii.
  rewrite (proj2 (Nat.leb_gt _ _)) by done. rewrite <- Hla in *.
  rewrite mem_read_ok by lia. cbn [mbind option_bind]. rewrite drop_0.
  assert (length (take (CW_MAX_EXTENSION - length l - 1) b) = CW_MAX_EXTENSION - length l - 1)%nat as Hr
    by (rewrite length_take; lia).
  rewrite mem_write_ok by lia. cbn [mbind option_bind]. rewrite Hr.
  rewrite mem_write_ok by (rewrite !length_app, length_take, length_drop, Hr; lia).
  eexists. split; [done|]. rewrite take_0, app_nil_l, Nat.add_0_l.
  rewrite drop_app_length' by (rewrite length_take; lia). split.
  - split; [rewrite !length_app, length_drop, Hr; lia|]. rewrite app_assoc. rewrite last_app_drop by lia. done.
  - rewrite text_app by done. rewrite take_app, (take_ge l) by lia. f_equal.
    destruct (text_split b Hz) as [r Hb'].
    replace (CW_MAX_EXTENSION - 1 - length l)%nat with (CW_MAX_EXTENSION - length l - 1)%nat by lia.
    set (k := (CW_MAX_EXTENSION - length l - 1)%nat) in *.
    rewrite Hb' at 1. destruct (decide (k <= length (text b))%nat) as [Hk|Hk].
    + rewrite take_app_le by done. rewrite text_app by apply Forall_take, text_no_nul.
      assert (length l + k = CW_MAX_EXTENSION - 1)%nat as -> by (unfold k; lia).
      rewrite drop_last_byte by done. simpl. by rewrite app_nil_r.
    + rewrite take_app, (take_ge (text b)) by lia. rewrite <- app_assoc.
      destruct (k - length (text b))%nat as [|j] eqn:Ej; [lia|]. simpl.
      rewrite text_app by apply text_no_nul. simpl. by rewrite app_nil_r.
Qed.

Lemma suffix_spec a :
  Forall (fun c => c = Ascii.zero) (drop (length (text b)) b) -> no_nul (String.list_ascii_of_string a) ->
  exists b', pbx_builtin_suffix b [a] = Some b' /\ exten_ok b' /\
    text b' = take (CW_MAX_EXTENSION - 1) (text b ++ String.list_ascii_of_string a).
Proof.
  intros Hzero Hn. pose proof text_short as Ht. destruct Hb as [Hl Hz].
  unfold pbx_builtin_suffix. cbn [suffix_each]. set (l := String.list_ascii_of_string a) in *.
  set (k := length (text b)) in *.
  assert (length l = String.length a) as <- by apply length_list_ascii.
  set (n := Nat.min (length l) (CW_MAX_EXTENSION - k - 1)).
  assert (length (take n l) = n) as Hln by (rewrite length_take; lia).
  rewrite mem_write_ok by lia. cbn [mbind option_bind]. eexists. split; [done|]. rewrite Hln. split.
  - split; [rewrite !length_app, length_take, length_drop, Hln; lia|].
    rewrite app_assoc. rewrite last_app_drop by lia. done.
  - destruct (text_split b Hz) as [r Hr]. assert (take k b = text b) as ->.
    { rewrite Hr at 1. by rewrite take_app_length'. }
    rewrite text_app by apply text_no_nul. rewrite text_app by by apply Forall_take.
    assert (text (drop (k + n) b) = []) as ->.
    { rewrite <- drop_drop. destruct (drop n (drop k b)) as [|z r'] eqn:Ed; [done|].
      assert (z = Ascii.zero) as ->; [|done].
      apply (Forall_drop _ n) in Hzero. rewrite Ed in Hzero. by inversion Hzero. }
    rewrite app_nil_r, take_app, (take_ge (text b)) by (fold k; lia). f_equal.
    fold k. destruct (decide (length l <= CW_MAX_EXTENSION - k - 1)%nat) as [Hle|Hle].
    + rewrite !take_ge by lia. done.
    + f_equal. lia.
Qed.

End edit.

(** The applications that edit the extension strip its first characters, put a
    text in front of it and one behind it, cut to the buffer and with its
    terminator in place, if the bytes behind the extension are clear when
    something is appended. *)
Theorem exten_edited b a :
  exten_ok b ->
  (0 < atoi a <= Z.of_nat (length (text b)) ->
   exists b', pbx_builtin_stripmsd b [a] = Some b' /\ exten_ok b' /\
     text b' = drop (Z.to_nat (atoi a)) (text b)) /\
  (no_nul (String.list_ascii_of_string a) ->
   ((String.length a < CW_MAX_EXTENSION)%nat ->
    exists b', pbx_builtin_prefix b [a] = Some b' /\ exten_ok b' /\
      text b' = take (CW_MAX_EXTENSION - 1) (String.list_ascii_of_string a ++ text b)) /\
   (Forall (fun c => c = Ascii.zero) (drop (length (text b)) b) ->
    exists b', pbx_builtin_suffix b [a] = Some b' /\ exten_ok b' /\
      text b' = take (CW_MAX_EXTENSION - 1) (text b ++ String.list_ascii_of_string a))).
Proof.
  intros Hb. split; [by apply stripmsd_spec|]. intros Hn. split.
  - intros Ha. destruct (prefix_spec b Hb a Ha Hn) as (b' & E & Hr). exists b'.
    cbn [pbx_builtin_prefix]. by rewrite E.
  - intros Hz. by apply suffix_spec.
Qed.

(** A buffer with a text, and one that held a longer text before. *)
Definition exten_buf (s : string) : bytes :=
  String.list_ascii_of_string s ++ replicate (CW_MAX_EXTENSION - String.length s) Ascii.zero.

Lemma exten_edited_witness :
  (exists b', pbx_builtin_stripmsd (exten_buf "9100") ["1"%string] = Some b' /\
     text b' = String.list_ascii_of_string "100") /\
  (exists b', pbx_builtin_suffix (exten_buf "100") ["5"%string] = Some b' /\
     text b' = String.list_ascii_of_string "1005").
Proof.
  assert (exten_ok (exten_buf "9100")) as H1 by done. assert (exten_ok (exten_buf "100")) as H2 by done.
  split.
  - destruct (proj1 (exten_edited (exten_buf "9100") "1" H1)) as (b' & E & _ & Ht); [vm_compute; split; [reflexivity|discriminate]|].
    exists b'. split; [exact E|]. rewrite Ht. vm_compute. reflexivity.
  - destruct (proj2 (proj2 (exten_edited (exten_buf "100") "5" H2) ltac:(repeat constructor)))
      as (b' & E & _ & Ht); [vm_compute; repeat constructor|].
    exists b'. split; [exact E|]. rewrite Ht. vm_compute. reflexivity.
Defined.

(** Two suffixes overwrite each other; a suffix behind an extension that was
    longer before brings the rest of the old one back; and a prefix as long as
    the buffer makes the number of bytes moved wrap. *)
Theorem exten_editing_faults :
  (exists b, pbx_builtin_suffix (exten_buf "100") ["5"; "6"]%string = Some b /\
     text b = String.list_ascii_of_string "1006") /\
  (exists b b', mem_write 0 (String.list_ascii_of_string "12" ++ [Ascii.zero]) (exten_buf "34567890") = Some b /\
     text b = String.list_ascii_of_string "12" /\
     pbx_builtin_suffix b ["9"%string] = Some b' /\ text b' = String.list_ascii_of_string "12967890") /\
  forall b a l, (CW_MAX_EXTENSION <= String.length a)%nat -> pbx_builtin_prefix b (a :: l) = None.
Proof.
  split_and!.
  - eexists. split; vm_compute; reflexivity.
  - do 2 eexists. split_and!; vm_compute; reflexivity.
  - intros b a l Ha. cbn [pbx_builtin_prefix]. unfold prefix_one. by rewrite (proj2 (Nat.leb_le _ _)).
Qed.

(** ** A call from end to end

    The extensions of a small configuration, with the code of the applications:
    the data is looked up, substituted, evaluated, split and executed. *)

Definition hash_name (s : string) : Z := cw_hash_string (Some s).

Definition small_apps : list cw_app :=
  (fun p => {| app_id := p.1; app_name := p.2; app_hash := hash_name p.2; app_execute := p.1 |}) <$>
  [(1, "GotoIf"); (2, "Hangup"); (3, "NoOp"); (4, "Set")]%string.

Definition small_data (d : Z) : string :=
  if d =? 1001 then "TRIES=$[${TRIES} + 1]" else if d =? 1002 then "$[${TRIES} < 3]?1:done,1"
  else if d =? 1003 then "tried ${TRIES} times" else "16".

(** The code of the applications, but that a fault, which does not happen here,
    would be passed over. *)
Definition small_execute (f : Z) (w : world) (argv : list string) : Z * world :=
  if f =? 1 then
    let '(r, c) := pbx_builtin_gotoif (fun _ _ _ => -1) hash_name (w_chan w) argv in
    (r, w <| w_chan := c |>)
  else if f =? 2 then
    let '(r, c) := pbx_builtin_hangup (w_chan w) argv in (r, w <| w_chan := c |>)
  else if f =? 4 then
    (0, default w (of_vstate w <$> pbx_builtin_setvar hash_name [] (fun _ v _ _ => v) true (to_vstate w) argv))
  else (0, w).

Definition small_step (st : ext_store) (ta : Z) (ext : string) (prio : Z) (app : string) : ext_store :=
  match cw_add_extension2 st (Some ta) true false ext prio None None app (1000 + ta) "cfg" with
  | Some r => r_store r
  | None => st
  end.

Definition small_world : world :=
  demo_world <| w_globals := [{| var_hash := cw_hash_var_name "TRIES"; var_name := "TRIES"; var_value := "0" |}] |>
    <| w_contexts := [(new_context "default" "cfg") <| c_exts :=
    small_step (small_step (small_step (small_step empty_store 1 "100" 1 "Set") 2 "100" 2 "GotoIf")
      3 "done" 1 "NoOp") 4 "done" 2 "Hangup" |>] |>.

Definition small_callweaver : PbxWorld world :=
  callweaver_world [] id true hash_name small_apps [] "" (fun _ v _ => (None, v))
    (fun _ v _ _ => v) (fun _ _ => None) small_data small_execute id (fun _ w => (0, w)) (fun _ w => w).

(** A loop of three rounds in the dialplan, and the end of the call. *)
Example small_call :
  match @cw_pbx_run_loop world small_callweaver false false false 20 true false true false
          {| s_world := small_world; s_trace := [] |} with
  | Done (r, s) =>
    r = 0 /\
    s_trace s = [Executed "default" "100" 1 0; Executed "default" "100" 2 0;
                 Executed "default" "100" 1 0; Executed "default" "100" 2 0;
                 Executed "default" "100" 1 0; Executed "default" "100" 2 0;
                 Executed "default" "done" 1 0; Executed "default" "done" 2 (-1); HungUp]%string /\
    ch_hangupcause (w_chan (s_world s)) = 16 /\
    pbx_builtin_getvar_helper true (to_vstate (s_world s)) (Some "TRIES"%string) = Some "3"%string
  | _ => False
  end.
Proof. vm_compute. repeat split; reflexivity. Qed.
