(* ===== verification/Udptl.v ===== *)
(** * T.38 fax packets over UDP (corelib/udptl.c)

    A UDPTL packet carries a numbered message and what helps to recover lost
    ones: the messages before it (redundancy), or sums of them (forward error
    correction).  The sender keeps the last 16 messages in a ring; the receiver
    keeps a ring of what it received, or was missed, for the sums.

    Bytes are numbers below 256.  A message that is handed on is a frame with a
    pointer, into the datagram or the ring, and the frames of a packet are linked
    from [f[0]] on.  [Bad] is an access outside an object, [Error] the result -1.
    The counters [tx_seq_no] and [rx_seq_no] are [int] in the source and numbers here;
    [rx_seq_no] is at most one more than a 16-bit number of the wire, [tx_seq_no] counts
    the packets sent and would take 2^31 of them to overflow. *)

From S2P Require Import Prelude.
Open Scope Z_scope.

Definition LOCAL_FAX_MAX_DATAGRAM : Z := 400.
Definition MAX_FEC_ENTRIES : nat := 4.
Definition UDPTL_BUF_MASK : Z := 15.

Inductive ec_scheme :=
  | UDPTL_ERROR_CORRECTION_NONE
  | UDPTL_ERROR_CORRECTION_FEC
  | UDPTL_ERROR_CORRECTION_REDUNDANCY.

(** ** State *)

Record tx_slot := { tx_len : Z; tx_buf : list Z }.

Record rx_slot := {
  rx_len : Z;
  rx_buf : list Z;
  fec_len : list Z;
  fec : list (list Z);
  fec_span : Z;
  fec_entries : Z;
}.

#[export] Instance rx_slot_eta : Eta rx_slot := fun r =>
  {| rx_len := rx_len r; rx_buf := rx_buf r; fec_len := fec_len r; fec := fec r;
     fec_span := fec_span r; fec_entries := fec_entries r |}.

(** Where a frame's data is; [Wild] was never set. *)
Inductive place := InRaw (pos : Z) | InRx (slot : nat) | Wild.

Record t38_frame := { f_seq_no : Z; f_datalen : Z; f_data : place }.

(** [raw] is the receive buffer from [CW_FRIENDLY_OFFSET] on; a frame of [f] that
    was never filled in is [None]. *)
Record cw_udptl := {
  raw : list Z;
  f : list (option t38_frame);
  error_correction_scheme : ec_scheme;
  error_correction_entries : Z;
  error_correction_span : Z;
  tx_seq_no : Z;
  rx_seq_no : Z;
  tx : list tx_slot;
  rx : list rx_slot;
}.

#[export] Instance cw_udptl_eta : Eta cw_udptl := fun s =>
  {| raw := raw s; f := f s; error_correction_scheme := error_correction_scheme s;
     error_correction_entries := error_correction_entries s;
     error_correction_span := error_correction_span s; tx_seq_no := tx_seq_no s;
     rx_seq_no := rx_seq_no s; tx := tx s; rx := rx s |}.

Definition zeros (n : Z) : list Z := replicate (Z.to_nat n) 0.

Definition new_tx_slot : tx_slot := {| tx_len := -1; tx_buf := zeros LOCAL_FAX_MAX_DATAGRAM |}.

Definition new_rx_slot : rx_slot :=
  {| rx_len := -1; rx_buf := zeros LOCAL_FAX_MAX_DATAGRAM; fec_len := replicate MAX_FEC_ENTRIES 0;
     fec := replicate MAX_FEC_ENTRIES (zeros LOCAL_FAX_MAX_DATAGRAM); fec_span := 0; fec_entries := 0 |}.

(** The settings are those of the configuration. *)
Definition cw_udptl_new_with_sock_info (scheme : ec_scheme) (entries span : Z) : cw_udptl :=
  {| raw := zeros 8192; f := replicate 16 None; error_correction_scheme := scheme;
     error_correction_entries := entries; error_correction_span := span; tx_seq_no := 0;
     rx_seq_no := 0; tx := replicate 16 new_tx_slot; rx := replicate 16 new_rx_slot |}.

(** ** Outcomes *)

Inductive got (A : Type) :=
  | Got (a : A)
  | Error
  | Bad.
Arguments Got {A} a.
Arguments Error {A}.
Arguments Bad {A}.

#[export] Instance got_bind : MBind got := fun A B f m =>
  match m with Got a => f a | Error => Error | Bad => Bad end.

Definition in_bounds {A} (o : option A) : got A := match o with Some a => Got a | None => Bad end.

(** [buf[i]] *)
Definition byte_at (buf : list Z) (i : Z) : got Z :=
  if i <? 0 then Bad else in_bounds (buf !! Z.to_nat i).

(** [n] bytes from [pos] on. *)
Definition bytes_at (buf : list Z) (pos n : Z) : got (list Z) :=
  if (pos <? 0) || (n <? 0) || (Z.of_nat (length buf) <? pos + n) then Bad
  else Got (take (Z.to_nat n) (drop (Z.to_nat pos) buf)).

(** [memcpy(buf, bytes, n)] *)
Definition overlay (bytes buf : list Z) : got (list Z) :=
  if (length buf <? length bytes)%nat then Bad else Got (bytes ++ drop (length bytes) buf).

Definition slot (seq : Z) : nat := Z.to_nat (Z.land seq UDPTL_BUF_MASK).

(** ** Lengths and open types *)

(** Whether a fragment follows, the value, and the position behind it. *)
Definition decode_length (buf : list Z) (limit len : Z) : got (bool * Z * Z) :=
  b ← byte_at buf len;
  if Z.land b 0x80 =? 0 then
    if limit <=? len then Error else Got (false, b, len + 1)
  else if Z.land b 0x40 =? 0 then
    if limit - 1 <=? len then Error
    else c ← byte_at buf (len + 1); Got (false, Z.lor (Z.shiftl (Z.land b 0x3F) 8) c, len + 2)
  else if limit <=? len then Error
  else Got (true, Z.shiftl (Z.land b 0x3F) 14, len + 1).

(** The object, the number of its octets, and the position behind it; an error
    leaves a number of octets behind. *)
Inductive opened :=
  | Opened (object : place) (num_octets len : Z)
  | OpenError (num_octets : Z)
  | OpenBad.

(** The pointer to a second fragment is written to [p_object[octet_idx]], which
    is no longer the object. *)
Fixpoint open_loop (fuel : nat) (buf : list Z) (limit len octet_idx num_octets : Z) (object : place)
    : opened :=
  match fuel with
  | O => OpenBad
  | S fuel =>
    match decode_length buf limit len with
    | Bad => OpenBad
    | Error => OpenError num_octets
    | Got (more, octet_cnt, len) =>
      if 0 <? octet_cnt then
        if limit <? len + octet_cnt then OpenError (num_octets + octet_cnt)
        else if negb (octet_idx =? 0) then OpenBad
        else if more then open_loop fuel buf limit (len + octet_cnt) octet_cnt octet_cnt (InRaw len)
        else Opened (InRaw len) (num_octets + octet_cnt) (len + octet_cnt)
      else if more then open_loop fuel buf limit len octet_idx num_octets object
      else Opened object num_octets len
    end
  end.

(** Every round but the last takes a byte. *)
Definition decode_open_type (buf : list Z) (limit len : Z) : opened :=
  open_loop (S (length buf)) buf limit len 0 0 Wild.

(** What was written so far to a buffer of a datagram's size, and more. *)
Definition put (out bytes : list Z) : got (list Z) :=
  if LOCAL_FAX_MAX_DATAGRAM <? Z.of_nat (length (out ++ bytes)) then Bad else Got (out ++ bytes).

(** The number of octets that are encoded now. *)
Definition encode_length (out : list Z) (value : Z) : got (list Z * Z) :=
  if value <? 0x80 then out ← put out [u8 value]; Got (out, value)
  else if value <? 0x4000 then
    out ← put out [Z.land (Z.shiftr (Z.lor 0x8000 value) 8) 0xFF; Z.land value 0xFF]; Got (out, value)
  else
    let multiplier := if value <? 0x10000 then Z.shiftr value 14 else 4 in
    out ← put out [Z.lor 0xC0 multiplier]; Got (out, Z.shiftl multiplier 14).

Fixpoint encode_loop (fuel : nat) (out data : list Z) (octet_idx num_octets : Z) : got (list Z) :=
  match fuel with
  | O => Bad
  | S fuel =>
    '(out, enclen) ← encode_length out num_octets;
    if enclen <? 0 then Error
    else
      out ← (if 0 <? enclen then bytes ← bytes_at data octet_idx enclen; put out bytes else Got out);
      if num_octets <=? enclen then Got out
      else encode_loop fuel out data (octet_idx + enclen) (num_octets - enclen)
  end.

(** A round but the last takes an octet of the buffer. *)
Definition encode_open_type (out data : list Z) (num_octets : Z) : got (list Z) :=
  let '(data, num_octets) := if num_octets =? 0 then ([0], 1) else (data, num_octets) in
  encode_loop (S (length data)) out data 0 num_octets.

(** ** Sums of messages *)

(** The slots from [k] to [limit] in steps. *)
Fixpoint ring_walk (fuel : nat) (k limit step : Z) : list nat :=
  match fuel with
  | O => []
  | S fuel =>
    if k =? limit then [] else Z.to_nat k :: ring_walk fuel (Z.land (k + step) UDPTL_BUF_MASK) limit step
  end.

(** The slots summed up in entry [m] of the packet in slot [l]: the last of them
    is reached in [span] steps. *)
Definition sum_slots (l m span entries : Z) : list nat :=
  let limit := Z.land (l + m) UDPTL_BUF_MASK in
  ring_walk (Z.to_nat span) (Z.land (limit - span * entries) UDPTL_BUF_MASK) limit entries.

(** The bytes of a slot up to [n]; none for a slot without a message. *)
Definition first_bytes (n : Z) (buf : list Z) : list Z := take (Z.to_nat n) buf.

(** [fec] up to the high tide, with a message added. *)
Definition add_message (fec : list Z) (t : tx_slot) : list Z :=
  let msg := first_bytes (tx_len t) (tx_buf t) in
  zip_with Z.lxor fec msg ++ drop (length fec) msg ++ drop (length msg) fec.

(** ** Receiving *)

(** Bytes behind a pointer. *)
Definition load (s : cw_udptl) (p : place) (n : Z) : got (list Z) :=
  match p with
  | InRaw pos => bytes_at (raw s) pos n
  | InRx k => r ← in_bounds (rx s !! k); bytes_at (rx_buf r) 0 n
  | Wild => if n =? 0 then Got [] else Bad
  end.

(** The messages repeated in a packet: [bufs] and [lengths] have 16 entries. *)
Fixpoint read_entries (n : nat) (buf : list Z) (limit ptr : Z) (acc : list (place * Z))
    : got (list (place * Z) * Z) :=
  match n with
  | O => Got (acc, ptr)
  | S n =>
    if (16 <=? length acc)%nat then Bad
    else match decode_open_type buf limit ptr with
         | Opened object num ptr => read_entries n buf limit ptr (acc ++ [(object, num)])
         | OpenError _ => Error
         | OpenBad => Bad
         end
  end.

Fixpoint read_groups (fuel : nat) (buf : list Z) (limit ptr : Z) (acc : list (place * Z))
    : got (list (place * Z) * Z) :=
  match fuel with
  | O => Bad
  | S fuel =>
    '(more, count, ptr) ← decode_length buf limit ptr;
    '(acc, ptr) ← read_entries (Z.to_nat count) buf limit ptr acc;
    if more : bool then read_groups fuel buf limit ptr acc else Got (acc, ptr)
  end.

(** Those not seen before, the oldest first. *)
Fixpoint secondary_frames (seq_no rx_seq_no i : Z) (bufs : list (place * Z)) : list t38_frame :=
  match bufs with
  | [] => []
  | (p, len) :: bufs =>
    secondary_frames seq_no rx_seq_no (i + 1) bufs ++
    if rx_seq_no <=? seq_no - i then [{| f_seq_no := seq_no - i; f_datalen := len; f_data := p |}] else []
  end.

(** A slot whose packet was missed. *)
Definition missed (r : rx_slot) : rx_slot :=
  r <| rx_len := -1 |> <| fec_len := <[0%nat := 0]> (fec_len r) |> <| fec_span := 0 |>
    <| fec_entries := 0 |>.

Fixpoint miss (n : nat) (seq : Z) (rx : list rx_slot) : list rx_slot :=
  match n with O => rx | S n => miss n (seq + 1) (alter missed (slot seq) rx) end.

(** The sums of a packet, put in the slot [r]. *)
Fixpoint read_fec (n i : nat) (s : cw_udptl) (limit ptr : Z) (r : rx_slot) : got Z * rx_slot :=
  match n with
  | O => (Got ptr, r)
  | S n =>
    if (MAX_FEC_ENTRIES <=? i)%nat then (Bad, r)
    else match decode_open_type (raw s) limit ptr with
         | OpenBad => (Bad, r)
         | OpenError num => (Error, r <| fec_len := <[i := num]> (fec_len r) |>)
         | Opened object num ptr =>
           let r := r <| fec_len := <[i := num]> (fec_len r) |> in
           if LOCAL_FAX_MAX_DATAGRAM <? num then (Error, r)
           else match (b ← load s object num; old ← in_bounds (fec r !! i); overlay b old) with
                | Got b => read_fec n (S i) s limit ptr (r <| fec := <[i := b]> (fec r) |>)
                | Error => (Error, r)
                | Bad => (Bad, r)
                end
         end
  end.

(** The single slot of [ks] without a message. *)
Definition missing (rx : list rx_slot) (ks : list nat) : option nat :=
  match filter (fun k => default 0 (rx_len <$> rx !! k) <= 0) ks with [k] => Some k | _ => None end.

(** What a slot adds to byte [j] of a sum. *)
Definition summand (rx : list rx_slot) (j k : nat) : Z :=
  match rx !! k with
  | Some r => if Z.of_nat j <? rx_len r then nth j (rx_buf r) 0 else 0
  | None => 0
  end.

(** Entry [m] of slot [l]; with the slots repaired so far. *)
Definition repair (l : nat) (m : nat) (st : list rx_slot * list nat) : got (list rx_slot * list nat) :=
  let '(rx, repaired) := st in
  r ← in_bounds (rx !! l);
  let ks := sum_slots (Z.of_nat l) (Z.of_nat m) (fec_span r) (fec_entries r) in
  match missing rx ks with
  | None => Got st
  | Some which =>
    n ← in_bounds (fec_len r !! m);
    sum ← in_bounds (fec r !! m);
    w ← in_bounds (rx !! which);
    if LOCAL_FAX_MAX_DATAGRAM <? n then Bad
    else
      let bytes := (fun j => foldl (fun v k => Z.lxor v (summand rx j k)) (nth j sum 0) ks) <$>
                   seq 0 (Z.to_nat n) in
      buf ← overlay bytes (rx_buf w);
      Got (<[which := w <| rx_buf := buf |> <| rx_len := n |>]> rx, which :: repaired)
  end.

Fixpoint fold_got {A B} (g : B -> A -> got A) (l : list B) (a : A) : got A :=
  match l with [] => Got a | b :: l => a ← g b a; fold_got g l a end.

Definition repair_slot (l : nat) (st : list rx_slot * list nat) : got (list rx_slot * list nat) :=
  r ← in_bounds (st.1 !! l);
  if default 0 (fec_len r !! 0%nat) <=? 0 then Got st
  else fold_got (repair l) (seq 0 (Z.to_nat (fec_entries r))) st.

(** The slots back from [x] to where the sums of the packet start. *)
Definition back_slots (x : Z) (span entries : Z) : list nat :=
  (fun i => slot (x - Z.of_nat i)) <$> seq 0 (Z.to_nat ((16 - span * entries) mod 16)).

(** The repaired messages, in the order of their numbers. *)
Definition repaired_frames (rx : list rx_slot) (repaired : list nat) (seq_no : Z) : list t38_frame :=
  omap (fun i : nat =>
          let l := slot (seq_no + 1 + Z.of_nat i) in
          if bool_decide (l ∈ repaired)
          then Some {| f_seq_no := seq_no - UDPTL_BUF_MASK + Z.of_nat i;
                       f_datalen := default 0 (rx_len <$> rx !! l); f_data := InRx l |}
          else None) (seq 0 15).

(** The frames of a packet go to [f], which has 16. *)
Definition hand_on (s : cw_udptl) (frames : list t38_frame) : got (list (option t38_frame)) :=
  if (16 <? length frames)%nat then Bad else Got ((Some <$> frames) ++ drop (length frames) (f s)).

(** The end of every packet that is accepted: the primary message, unless it was
    seen before. *)
Definition accept (s : cw_udptl) (frames : list t38_frame) (seq_no : Z) (msg : place) (msg_len : Z)
    : got (nat * cw_udptl) :=
  let frames := frames ++
    if rx_seq_no s <=? seq_no then [{| f_seq_no := seq_no; f_datalen := msg_len; f_data := msg |}] else [] in
  fs ← hand_on s frames;
  Got (length frames, s <| f := fs |> <| rx_seq_no := seq_no + 1 |>).

Definition rx_secondary (s : cw_udptl) (len ptr seq_no : Z) (msg : place) (msg_len : Z)
    : got (nat * cw_udptl) :=
  '(bufs, ptr) ← read_groups (S (length (raw s))) (raw s) len ptr [];
  if negb (ptr =? len) then Error
  else accept s (if rx_seq_no s <? seq_no then secondary_frames seq_no (rx_seq_no s) 1 bufs else [])
         seq_no msg msg_len.

(** What is stored of a packet with sums stays stored when the rest of it is in
    error: the state comes with the result. *)
Definition rx_fec (s : cw_udptl) (len ptr seq_no : Z) (msg : place) (msg_len : Z)
    : got (nat * cw_udptl) * cw_udptl :=
  if LOCAL_FAX_MAX_DATAGRAM <? msg_len then (Error, s)
  else
    let s := s <| rx := miss (Z.to_nat (seq_no - rx_seq_no s)) (rx_seq_no s) (rx s) |>
               <| rx_seq_no := Z.max (rx_seq_no s) seq_no |> in
    let x := slot seq_no in
    match (r ← in_bounds (rx s !! x); b ← load s msg msg_len; buf ← overlay b (rx_buf r);
           Got (r <| rx_buf := buf |> <| rx_len := msg_len |>)) with
    | Bad => (Bad, s)
    | Error => (Error, s)
    | Got r =>
      let with_slot r := s <| rx := <[x := r]> (rx s) |> in
      match (if len <? ptr + 2 then Error else one ← byte_at (raw s) ptr;
             if negb (one =? 1) then Error else byte_at (raw s) (ptr + 1)) with
      | Bad => (Bad, with_slot r)
      | Error => (Error, with_slot r)
      | Got span =>
        let r := r <| fec_span := span |> in
        match (if len <? ptr + 3 then Error else byte_at (raw s) (ptr + 2)) with
        | Bad => (Bad, with_slot r)
        | Error => (Error, with_slot r)
        | Got entries =>
          let '(o, r) := read_fec (Z.to_nat entries) 0 s len (ptr + 3) (r <| fec_entries := entries |>) in
          let s := with_slot r in
          ((ptr ← o;
            if negb (ptr =? len) then Error
            else
              '(rx', repaired) ← fold_got repair_slot (back_slots seq_no span entries) (rx s, [x]);
              accept (s <| rx := rx' |>) (repaired_frames rx' repaired seq_no) seq_no msg msg_len), s)
        end
      end
    end.

(** The number of frames handed on.  The state behind an [Error] is the second
    component. *)
Definition udptl_rx_packet (s : cw_udptl) (len : Z) : got (nat * cw_udptl) * cw_udptl :=
  if len <? 2 then (Error, s)
  else
    match (hi ← byte_at (raw s) 0; lo ← byte_at (raw s) 1; Got (Z.lor (Z.shiftl hi 8) lo)) with
    | Got seq_no =>
      match decode_open_type (raw s) len 2 with
      | Opened msg msg_len ptr =>
        if len <? ptr + 1 then (Error, s)
        else match byte_at (raw s) ptr with
             | Got b =>
               if Z.land b 0x80 =? 0 then (rx_secondary s len (ptr + 1) seq_no msg msg_len, s)
               else rx_fec s len (ptr + 1) seq_no msg msg_len
             | Error => (Error, s)
             | Bad => (Bad, s)
             end
      | OpenError _ => (Error, s)
      | OpenBad => (Bad, s)
      end
    | Error => (Error, s)
    | Bad => (Bad, s)
    end.

(** [cw_udptl_read] of a datagram: the frames linked from [f[0]] on.  The result
    of [udptl_rx_packet] is not looked at, and [f[0]] is always handed out. *)
Definition cw_udptl_read (s : cw_udptl) (packet : list Z) : got (list (option t38_frame) * cw_udptl) :=
  r ← overlay packet (raw s);
  match udptl_rx_packet (s <| raw := r |>) (Z.of_nat (length packet)) with
  | (Got (n, s), _) => Got (take (Nat.max 1 n) (f s), s)
  | (Error, s) => Got (take 1 (f s), s)
  | (Bad, _) => Bad
  end.

(** ** Sending *)

Definition tx_at (s : cw_udptl) (k : nat) : got tx_slot := in_bounds (tx s !! k).

(** The entries of a packet, one after the other. *)
Definition put_redundant (s : cw_udptl) (entry : Z) (i : nat) (out : list Z) : got (list Z) :=
  t ← tx_at s (slot (entry - Z.of_nat i - 1)); encode_open_type out (tx_buf t) (tx_len t).

Definition put_sum (s : cw_udptl) (entry span entries : Z) (m : nat) (out : list Z) : got (list Z) :=
  fec ← fold_got (fun k fec => t ← tx_at s k; Got (add_message fec t))
          (sum_slots entry (Z.of_nat m) span entries) [];
  encode_open_type out fec (Z.of_nat (length fec)).

Definition put_recovery (s : cw_udptl) (seqn entry : Z) (out : list Z) : got (list Z) :=
  match error_correction_scheme s with
  | UDPTL_ERROR_CORRECTION_NONE =>
    out ← put out [0]; '(out, _) ← encode_length out 0; Got out
  | UDPTL_ERROR_CORRECTION_REDUNDANCY =>
    out ← put out [0];
    let entries := if error_correction_entries s <? tx_seq_no s then error_correction_entries s
                   else tx_seq_no s in
    '(out, n) ← encode_length out entries;
    if n <? 0 then Error else fold_got (put_redundant s entry) (seq 0 (Z.to_nat entries)) out
  | UDPTL_ERROR_CORRECTION_FEC =>
    let short := seqn <? error_correction_span s * error_correction_entries s in
    let entries := if short then seqn / error_correction_span s else error_correction_entries s in
    let span := if short && (seqn <? error_correction_span s) then 0 else error_correction_span s in
    out ← put out [0x80; 1; u8 span; u8 entries];
    fold_got (put_sum s entry span entries) (seq 0 (Z.to_nat entries)) out
  end.

(** The packet; an error leaves the message in the ring and the number as it is. *)
Definition udptl_build_packet (s : cw_udptl) (msg : list Z) : got (list Z) * cw_udptl :=
  let seq := Z.land (tx_seq_no s) 0xFFFF in
  let entry := Z.land seq UDPTL_BUF_MASK in
  match (t ← tx_at s (Z.to_nat entry); overlay msg (tx_buf t)) with
  | Got buf =>
    let s := s <| tx := <[Z.to_nat entry := {| tx_len := Z.of_nat (length msg); tx_buf := buf |}]> (tx s) |> in
    let o := (out ← put [] [Z.land (Z.shiftr seq 8) 0xFF; Z.land seq 0xFF];
              out ← encode_open_type out msg (Z.of_nat (length msg));
              put_recovery s seq entry out) in
    (o, match o with Got _ => s <| tx_seq_no := tx_seq_no s + 1 |> | _ => s end)
  | _ => (Bad, s)
  end.

(** The datagrams sent; [peer] is that the far address is known, [port] its
    port, [modem] that the frame has T.38 data. *)
Definition cw_udptl_write (peer port modem : bool) (s : cw_udptl) (data : list Z) (tx_copies : Z)
    : got (list (list Z)) * cw_udptl :=
  if negb peer || (length data =? 0)%nat then (Got [], s)
  else if negb modem then (Error, s)
  else
    match udptl_build_packet s data with
    | (Got packet, s) =>
      (Got (if port then replicate (Z.to_nat (if 0 <? tx_copies then tx_copies else 1)) packet else []), s)
    | (Error, s) => (Got [], s)
    | (Bad, s) => (Bad, s)
    end.

(** ** Encoding and decoding *)

Abbreviation len_of l := (Z.of_nat (length l)).

(** The bytes of a length below 16384. *)
Definition len_bytes (n : Z) : list Z := if n <? 128 then [n] else [128 + n / 256; n mod 256].

Definition open_bytes (data : list Z) : list Z := len_bytes (len_of data) ++ data.

(** Bit operations on the two bytes of a number. *)
Lemma two_bytes n : 0 <= n < 65536 ->
  Z.land (Z.shiftr n 8) 0xFF = n / 256 /\ Z.land n 0xFF = n mod 256 /\
  Z.lor (Z.shiftl (n / 256) 8) (n mod 256) = n.
Proof.
  intros Hn. change 0xFF with (Z.ones 8). rewrite !Z.land_ones, Z.shiftr_div_pow2, Z.shiftl_mul_pow2 by lia.
  change (2 ^ 8) with 256. pose proof (Z.mod_pos_bound n 256) as Hm.
  pose proof (Z.div_mod n 256) as Hd. assert (0 <= n / 256 < 256) by (split; [apply Z.div_pos|apply Z.div_lt_upper_bound]; lia).
  split_and!; [apply Z.mod_small; lia|done|]. rewrite (lor_disjoint 8 (n / 256)) by lia. lia.
Qed.

(** The first byte of a length of two bytes. *)
Definition first_byte_ok (q : Z) : bool :=
  negb (Z.land (128 + q) 0x80 =? 0) && (Z.land (128 + q) 0x40 =? 0) && (Z.land (128 + q) 0x3F =? q).

Lemma first_byte q : 0 <= q < 64 -> first_byte_ok q = true.
Proof.
  intros Hq. assert (forallb first_byte_ok (seqZ 0 64) = true) as Hall by (vm_compute; reflexivity).
  apply (proj1 (forallb_forall _ _) Hall). apply list_elem_of_In, elem_of_seqZ. lia.
Qed.

Lemma len_head n : 0 <= n < 0x4000 ->
  Z.land (Z.shiftr (Z.lor 0x8000 n) 8) 0xFF = 128 + n / 256 /\ 0 <= n / 256 < 64.
Proof.
  intros Hn. assert (0 <= n / 256 < 64) by (split; [apply Z.div_pos|apply Z.div_lt_upper_bound]; lia).
  split; [|done]. change 0x8000 with (1 * 2 ^ 15). rewrite (lor_disjoint 15 1 n) by lia.
  rewrite (proj1 (two_bytes (1 * 2 ^ 15 + n) ltac:(lia))).
  change (1 * 2 ^ 15) with (128 * 256). rewrite Z.div_add_l by lia. done.
Qed.

Lemma small_byte n : 0 <= n < 128 -> Z.land n 0x80 = 0.
Proof.
  intros Hn. change 0x80 with (Z.shiftl 1 7). apply Z.bits_inj'. intros i Hi.
  rewrite Z.land_spec, Z.bits_0. destruct (Z.lt_ge_cases i 7).
  - by rewrite Z.shiftl_spec_low, andb_false_r.
  - rewrite <- (Z.mod_small n (2 ^ 7)), Z.mod_pow2_bits_high by lia. done.
Qed.

Lemma byte_at_app l b r i : i = len_of l -> byte_at (l ++ b :: r) i = Got b.
Proof.
  intros ->. unfold byte_at. rewrite (proj2 (Z.ltb_ge _ _)) by lia.
  by rewrite Nat2Z.id, list_lookup_middle.
Qed.

Lemma decode_len pre n post limit :
  0 <= n < 0x4000 -> len_of pre + len_of (len_bytes n) <= limit ->
  decode_length (pre ++ len_bytes n ++ post) limit (len_of pre) =
  Got (false, n, len_of pre + len_of (len_bytes n)).
Proof.
  intros Hn Hl. unfold decode_length, len_bytes in *.
  destruct (Z.ltb_spec n 128); cbn [app length] in *;
    rewrite (byte_at_app pre _ _ (len_of pre)) by done; cbn [mbind got_bind].
  - rewrite small_byte by lia. by rewrite (proj2 (Z.leb_gt _ _)) by lia.
  - destruct (len_head n Hn) as [_ Hq]. pose proof (first_byte _ Hq) as Hf. unfold first_byte_ok in Hf.
    apply andb_prop in Hf as [[->%negb_true_iff ->]%andb_prop ->%Z.eqb_eq].
    rewrite (proj2 (Z.leb_gt _ _)) by lia. rewrite (cons_middle (128 + n / 256)), app_assoc.
    rewrite byte_at_app by (rewrite length_app; simpl; lia). cbn [mbind got_bind].
    by rewrite (proj2 (proj2 (two_bytes n ltac:(lia)))).
Qed.

Lemma decode_open pre data post limit :
  data <> [] -> len_of data < 0x4000 -> len_of (pre ++ open_bytes data) <= limit ->
  decode_open_type (pre ++ open_bytes data ++ post) limit (len_of pre) =
  Opened (InRaw (len_of pre + len_of (len_bytes (len_of data)))) (len_of data)
    (len_of (pre ++ open_bytes data)).
Proof.
  intros Hne Hd Hl. unfold decode_open_type. cbn [open_loop]. unfold open_bytes in *.
  rewrite !length_app in Hl. rewrite <- app_assoc. rewrite decode_len by lia.
  assert (0 < len_of data) by (destruct data; [done|simpl; lia]).
  rewrite (proj2 (Z.ltb_lt 0 _)) by lia. rewrite (proj2 (Z.ltb_ge _ _)) by lia. cbn [Z.eqb negb].
  f_equal. rewrite !length_app. lia.
Qed.

Lemma bytes_at_app pre d post n pos :
  pos = len_of pre -> n = len_of d -> bytes_at (pre ++ d ++ post) pos n = Got d.
Proof.
  intros -> ->. unfold bytes_at. rewrite !length_app.
  destruct (Z.ltb_spec (len_of pre) 0), (Z.ltb_spec (len_of d) 0),
    (Z.ltb_spec (Z.of_nat (length pre + (length d + length post))) (len_of pre + len_of d)); try lia.
  cbn [orb]. rewrite !Nat2Z.id, drop_app_length, take_app_length. done.
Qed.

Lemma put_fits out b : len_of out + len_of b <= LOCAL_FAX_MAX_DATAGRAM -> put out b = Got (out ++ b).
Proof. intros Hf. unfold put. rewrite length_app. by rewrite (proj2 (Z.ltb_ge _ _)) by lia. Qed.

Lemma length_len_bytes n : len_of (len_bytes n) <= 2.
Proof. unfold len_bytes. by destruct (n <? 128). Qed.

Lemma encode_len out n :
  0 <= n < 0x4000 -> len_of out + len_of (len_bytes n) <= LOCAL_FAX_MAX_DATAGRAM ->
  encode_length out n = Got (out ++ len_bytes n, n).
Proof.
  intros Hn Hf. unfold encode_length, len_bytes in *. destruct (Z.ltb_spec n 128).
  - unfold wrap_u. rewrite Z.mod_small by lia. by rewrite put_fits.
  - rewrite (proj2 (Z.ltb_lt n _)) by lia. rewrite (proj1 (len_head n Hn)).
    rewrite (proj1 (proj2 (two_bytes n ltac:(lia)))). by rewrite put_fits.
Qed.

Lemma encode_open out buf n data :
  first_bytes n buf = data -> n = len_of data -> data <> [] ->
  len_of out + len_of (open_bytes data) <= LOCAL_FAX_MAX_DATAGRAM ->
  encode_open_type out buf n = Got (out ++ open_bytes data).
Proof.
  intros Hb -> Hne Hf. unfold encode_open_type. unfold open_bytes in *. rewrite length_app in Hf.
  unfold LOCAL_FAX_MAX_DATAGRAM in *.
  assert (0 < len_of data) by (destruct data; [done|simpl; lia]).
  assert (len_of data = 0 -> False) by lia. rewrite (proj2 (Z.eqb_neq _ _)) by done.
  cbn [encode_loop]. rewrite encode_len by (unfold LOCAL_FAX_MAX_DATAGRAM; lia). cbn [mbind got_bind].
  rewrite (proj2 (Z.ltb_ge _ 0)), (proj2 (Z.ltb_lt 0 _)) by lia.
  rewrite <- (take_drop (length data) buf). unfold first_bytes in Hb. rewrite Nat2Z.id in Hb. rewrite Hb.
  assert (bytes_at (data ++ drop (length data) buf) 0 (len_of data) = Got data) as ->
    by by apply (bytes_at_app []).
  cbn [mbind got_bind].
  rewrite put_fits by (rewrite length_app; unfold LOCAL_FAX_MAX_DATAGRAM; lia). cbn [mbind got_bind].
  by rewrite Z.leb_refl, app_assoc.
Qed.

(** ** The sender's ring *)

Lemma land_15 z : Z.land z UDPTL_BUF_MASK = z mod 16.
Proof. change UDPTL_BUF_MASK with (Z.ones 4). by rewrite Z.land_ones. Qed.

Lemma slot_lt z : (slot z < 16)%nat.
Proof. unfold slot. rewrite land_15. pose proof (Z.mod_pos_bound z 16). lia. Qed.

Lemma slot_eq a b : slot a = slot b <-> a mod 16 = b mod 16.
Proof.
  unfold slot. rewrite !land_15. pose proof (Z.mod_pos_bound a 16). pose proof (Z.mod_pos_bound b 16). lia.
Qed.

Lemma slot_near a b : slot a = slot b -> -16 < a - b < 16 -> a = b.
Proof.
  intros E%slot_eq H. pose proof (Z.div_mod a 16). pose proof (Z.div_mod b 16).
  pose proof (Z.mod_pos_bound a 16). lia.
Qed.

Lemma slot_mod z : slot (z mod 16) = slot z.
Proof. apply slot_eq. by rewrite Z.mod_mod. Qed.

Lemma slot_small z : 0 <= z < 16 -> slot z = Z.to_nat z.
Proof. intros Hz. unfold slot. by rewrite land_15, Z.mod_small. Qed.

Definition holds_tx (t : tx_slot) (m : list Z) : Prop :=
  tx_len t = len_of m /\ first_bytes (tx_len t) (tx_buf t) = m.

(** The ring has the last 16 messages of the history. *)
Record ring_ok (hist : list (list Z)) (tx : list tx_slot) : Prop := {
  ring_len : length tx = 16%nat;
  ring_bufs : Forall (fun t => len_of (tx_buf t) = LOCAL_FAX_MAX_DATAGRAM) tx;
  ring_holds : forall i m, hist !! i = Some m -> (length hist <= i + 16)%nat ->
    exists t, tx !! slot (Z.of_nat i) = Some t /\ holds_tx t m;
}.

Lemma overlay_ok b buf : (length b <= length buf)%nat -> overlay b buf = Got (b ++ drop (length b) buf).
Proof. intros Hl. unfold overlay. by rewrite (proj2 (Nat.ltb_ge _ _)). Qed.

Lemma ring_step hist tx m :
  ring_ok hist tx -> len_of m <= LOCAL_FAX_MAX_DATAGRAM ->
  exists t buf, tx !! slot (len_of hist) = Some t /\ overlay m (tx_buf t) = Got buf /\
    ring_ok (hist ++ [m]) (<[slot (len_of hist) := {| tx_len := len_of m; tx_buf := buf |}]> tx).
Proof.
  intros [Hl Hb Hh] Hm. set (k := slot (len_of hist)).
  assert (k < length tx)%nat as Hk by (rewrite Hl; apply slot_lt).
  destruct (lookup_lt_is_Some_2 tx k Hk) as [t Ht]. exists t. eexists. split; [done|].
  assert (len_of (tx_buf t) = LOCAL_FAX_MAX_DATAGRAM) as Htb by (eapply Forall_lookup_1 in Hb; done).
  rewrite overlay_ok by lia. split; [done|]. split.
  - by rewrite length_insert.
  - apply Forall_insert; [done|]. simpl. rewrite length_app, length_drop. lia.
  - intros i m' Hi Hle. rewrite length_app in Hle. simpl in Hle.
    destruct (decide (i = length hist)) as [->|Hne].
    + rewrite lookup_app_r, Nat.sub_diag in Hi by done. injection Hi as <-.
      eexists. fold k. rewrite list_lookup_insert_eq by done. split; [done|]. split; [done|]. simpl.
      unfold first_bytes. by rewrite Nat2Z.id, take_app_length.
    + assert (i < length hist)%nat as Hlt.
      { apply lookup_lt_Some in Hi. rewrite length_app in Hi. simpl in Hi. lia. }
      rewrite lookup_app_l in Hi by done. rewrite list_lookup_insert_ne; [apply Hh; [done|lia]|].
      intros E. apply slot_near in E; lia.
Qed.

Section sending.
(** A bound on the messages, and on what goes into a packet with [e] further
    messages. *)
Context (L e : Z) (He : 0 <= e <= 15) (HL : (e + 1) * (L + 2) + 6 <= LOCAL_FAX_MAX_DATAGRAM).

Definition message_ok (m : list Z) : Prop := m <> [] /\ len_of m <= L.

Lemma length_open m : message_ok m -> len_of (open_bytes m) <= L + 2.
Proof.
  intros [_ Hm]. unfold open_bytes. rewrite length_app. pose proof (length_len_bytes (len_of m)). lia.
Qed.

(** The messages that go with message number [n], the newest first. *)
Definition before (k : Z) (hist : list (list Z)) : list (list Z) := take (Z.to_nat k) (reverse hist).

Definition redundant_bytes (k : Z) (hist : list (list Z)) (m : list Z) : list Z :=
  [len_of hist / 256; len_of hist mod 256] ++ open_bytes m ++ [0] ++ len_bytes k ++
  concat (open_bytes <$> before k hist).

Lemma reverse_lookup {A} (l : list A) i : (i < length l)%nat -> reverse l !! i = l !! (length l - 1 - i)%nat.
Proof. intros Hi. rewrite reverse_lookup by done. f_equal. lia. Qed.

Lemma fold_redundant hist m s entry c i out :
  ring_ok (hist ++ [m]) (tx s) -> Forall message_ok hist -> slot entry = slot (len_of hist) ->
  (i + c <= length hist)%nat -> Z.of_nat (i + c) <= 15 ->
  len_of out + Z.of_nat c * (L + 2) <= LOCAL_FAX_MAX_DATAGRAM ->
  fold_got (put_redundant s entry) (seq i c) out =
  Got (out ++ concat (open_bytes <$> take c (drop i (reverse hist)))).
Proof.
  intros Hr Hm Hs. revert i out. induction c as [|c IH]; intros i out Hi H15 Hf.
  { by rewrite app_nil_r. }
  cbn [seq fold_got].
  assert (is_Some (hist !! (length hist - 1 - i)%nat)) as [m' Hm'] by (apply lookup_lt_is_Some; lia).
  assert (message_ok m') as Hok by (eapply Forall_lookup_1 in Hm; done).
  pose proof (length_open m' Hok) as Hlo.
  assert (Z.of_nat (S c) * (L + 2) = Z.of_nat c * (L + 2) + (L + 2)) by lia.
  assert (0 <= Z.of_nat c * (L + 2)) by (apply Z.mul_nonneg_nonneg; lia).
  destruct (ring_holds _ _ Hr (length hist - 1 - i) m') as (t & Ht & Hl & Hb).
  { rewrite lookup_app_l by lia. done. }
  { rewrite length_app. simpl. lia. }
  assert (slot (entry - Z.of_nat i - 1) = slot (Z.of_nat (length hist - 1 - i))) as Es.
  { apply slot_eq in Hs. apply slot_eq.
    replace (Z.of_nat (length hist - 1 - i)) with (len_of hist - Z.of_nat i - 1) by lia.
    rewrite <- !Z.sub_add_distr. rewrite Zminus_mod, Hs, <- Zminus_mod. done. }
  assert (put_redundant s entry i out = Got (out ++ open_bytes m')) as ->.
  { unfold put_redundant, tx_at. rewrite Es, Ht. apply encode_open; (done || apply Hok || lia). }
  cbn [mbind got_bind]. rewrite IH by (rewrite ?length_app; lia).
  assert (drop i (reverse hist) = m' :: drop (S i) (reverse hist)) as ->.
  { apply drop_S. rewrite <- Hm'. apply reverse_lookup. lia. }
  rewrite firstn_cons, fmap_cons. cbn [concat]. by rewrite <- app_assoc.
Qed.

(** The number and the message of a packet. *)
Definition head_bytes (n : Z) (m : list Z) : list Z := [n / 256; n mod 256] ++ open_bytes m.

(** Every packet starts the same way; the rest is what recovers others. *)
Lemma build_step hist s m :
  tx_seq_no s = len_of hist -> ring_ok hist (tx s) -> message_ok m -> len_of hist < 65536 ->
  exists s1, s1 = s <| tx := tx s1 |> /\ ring_ok (hist ++ [m]) (tx s1) /\
    forall p, put_recovery s1 (len_of hist) (len_of hist mod 16) (head_bytes (len_of hist) m) = Got p ->
      udptl_build_packet s m = (Got p, s1 <| tx_seq_no := len_of (hist ++ [m]) |>).
Proof.
  intros Hn Hr Hm H16. pose proof (length_open m Hm) as Hlm. destruct Hm as [Hne HmL].
  assert (0 <= L) by (destruct m; [done|simpl in HmL; lia]).
  assert (0 <= e * (L + 2)) by (apply Z.mul_nonneg_nonneg; lia).
  destruct (ring_step hist (tx s) m Hr) as (t & buf & Ht & Ho & Hr'); [lia|].
  eexists (s <| tx := _ |>). split; [reflexivity|]. split; [exact Hr'|]. intros p Hp.
  unfold udptl_build_packet. rewrite Hn.
  assert (Z.land (len_of hist) 0xFFFF = len_of hist) as ->.
  { change 0xFFFF with (Z.ones 16). rewrite Z.land_ones by lia. apply Z.mod_small. lia. }
  rewrite !land_15. unfold tx_at, slot in *. rewrite land_15 in *. rewrite Ht. cbn [in_bounds mbind got_bind].
  rewrite Ho. destruct (two_bytes (len_of hist)) as (-> & -> & _); [lia|].
  rewrite put_fits by (unfold LOCAL_FAX_MAX_DATAGRAM; simpl; lia). cbn [mbind got_bind app].
  rewrite (encode_open _ m _ m); [|unfold first_bytes; by rewrite Nat2Z.id, take_ge|done|done|
    simpl; unfold LOCAL_FAX_MAX_DATAGRAM in *; lia].
  cbn [mbind got_bind]. unfold head_bytes in Hp. cbn [app] in Hp |- *. rewrite Hp. f_equal.
  rewrite length_app. simpl. rewrite Hn. repeat f_equal. lia.
Qed.

Lemma length_head n m : message_ok m -> len_of (head_bytes n m) <= L + 4.
Proof. intros Hm. unfold head_bytes. rewrite length_app. pose proof (length_open m Hm). simpl. lia. Qed.

Lemma recovery_redundant hist s m :
  error_correction_scheme s = UDPTL_ERROR_CORRECTION_REDUNDANCY -> error_correction_entries s = e ->
  tx_seq_no s = len_of hist -> ring_ok (hist ++ [m]) (tx s) -> Forall message_ok hist -> message_ok m ->
  put_recovery s (len_of hist) (len_of hist mod 16) (head_bytes (len_of hist) m) =
  Got (redundant_bytes (Z.min e (len_of hist)) hist m).
Proof.
  intros Hs Hen Hn Hr Hh Hm. pose proof (length_head (len_of hist) m Hm) as Hlh.
  destruct (Hm) as [Hne HmL]. assert (0 <= L) by (destruct m; [done|simpl in HmL; lia]).
  assert (0 <= e * (L + 2)) by (apply Z.mul_nonneg_nonneg; lia).
  set (k := Z.min e (len_of hist)). pose proof (length_len_bytes k) as Hlk. assert (0 <= k <= e) by lia.
  assert (Z.of_nat (Z.to_nat k) * (L + 2) <= e * (L + 2)) by (apply Z.mul_le_mono_nonneg_r; lia).
  assert (len_of (len_bytes k) = 1) as Hl1.
  { unfold len_bytes. rewrite (proj2 (Z.ltb_lt k 128)) by lia. done. }
  unfold put_recovery. rewrite Hs, Hen, Hn.
  rewrite put_fits by (cbn [length]; unfold LOCAL_FAX_MAX_DATAGRAM in *; lia). cbn [mbind got_bind].
  assert ((if e <? len_of hist then e else len_of hist) = k) as ->
    by (unfold k; destruct (Z.ltb_spec e (len_of hist)); lia).
  rewrite encode_len by (lia || (rewrite length_app; cbn [length]; unfold LOCAL_FAX_MAX_DATAGRAM in *; lia)).
  cbn [mbind got_bind]. rewrite (proj2 (Z.ltb_ge k 0)) by lia.
  rewrite (fold_redundant hist m); [|done|done|apply slot_mod|lia|lia|].
  - unfold redundant_bytes, before, head_bytes. rewrite drop_0. by rewrite <- !app_assoc.
  - rewrite !length_app. cbn [length]. unfold LOCAL_FAX_MAX_DATAGRAM in *. lia.
Qed.

End sending.

(** ** The receiver of repeated messages *)

(** What the frames handed out say: their numbers and bytes. *)
Fixpoint delivered (s : cw_udptl) (fs : list (option t38_frame)) : got (list (Z * list Z)) :=
  match fs with
  | [] => Got []
  | None :: _ => Bad
  | Some fr :: fs =>
    d ← load s (f_data fr) (f_datalen fr); rest ← delivered s fs; Got ((f_seq_no fr, d) :: rest)
  end.

Fixpoint numbered (a : Z) (ms : list (list Z)) : list (Z * list Z) :=
  match ms with [] => [] | m :: ms => (a, m) :: numbered (a + 1) ms end.

Lemma numbered_app a l k : numbered a (l ++ k) = numbered a l ++ numbered (a + len_of l) k.
Proof.
  revert a. induction l as [|m l IH]; intros a; cbn [numbered app length]; [by rewrite Z.add_0_r|].
  rewrite IH. replace (a + 1 + len_of l) with (a + Z.of_nat (S (length l))) by lia. done.
Qed.

(** A frame with a number and a message. *)
Definition frame_is (s : cw_udptl) (fr : t38_frame) (x : Z * list Z) : Prop :=
  f_seq_no fr = x.1 /\ load s (f_data fr) (f_datalen fr) = Got x.2.

Lemma delivered_ok s frs xs : Forall2 (frame_is s) frs xs -> delivered s (Some <$> frs) = Got xs.
Proof.
  induction 1 as [|fr [n m] frs xs [Hn Hl] _ IH]; [done|]. rewrite fmap_cons. cbn [delivered].
  rewrite Hl. cbn [mbind got_bind]. rewrite IH. cbn [mbind got_bind]. by rewrite Hn.
Qed.

Definition readable (m : list Z) : Prop := m <> [] /\ len_of m < 0x4000.

Lemma read_entries_ok s pre msgs post limit acc :
  raw s = pre ++ concat (open_bytes <$> msgs) ++ post ->
  Forall readable msgs -> (length acc + length msgs <= 16)%nat ->
  len_of (pre ++ concat (open_bytes <$> msgs)) <= limit ->
  exists objs, Forall2 (fun o m => load s o.1 o.2 = Got m) objs msgs /\
    read_entries (length msgs) (raw s) limit (len_of pre) acc =
    Got (acc ++ objs, len_of (pre ++ concat (open_bytes <$> msgs))).
Proof.
  intros Hraw Hm. revert pre acc Hraw.
  induction Hm as [|m msgs [Hne Hlt] _ IH]; intros pre acc Hraw Hacc Hlim.
  { exists []. by rewrite !app_nil_r. }
  rewrite fmap_cons in *. cbn [concat length read_entries] in *. rewrite (proj2 (Nat.leb_gt _ _)) by lia.
  set (rest := concat (open_bytes <$> msgs)) in *.
  rewrite <- app_assoc in Hraw. rewrite (app_assoc pre), (length_app (pre ++ _)) in Hlim.
  rewrite Hraw, decode_open by (done || lia). rewrite <- Hraw.
  destruct (IH (pre ++ open_bytes m) (acc ++ [(InRaw (len_of pre + len_of (len_bytes (len_of m))), len_of m)]))
    as (objs & Hobjs & Hrd).
  { by rewrite <- app_assoc. }
  { rewrite length_app. simpl. lia. }
  { rewrite length_app. lia. }
  exists ((InRaw (len_of pre + len_of (len_bytes (len_of m))), len_of m) :: objs). split.
  - constructor; [|done]. cbn [load fst snd]. rewrite Hraw. unfold open_bytes. rewrite <- app_assoc, (app_assoc pre).
    apply bytes_at_app; [rewrite length_app; lia|done].
  - rewrite Hrd, <- app_assoc. by rewrite <- app_assoc.
Qed.

(** The messages of a packet that are new, the oldest first. *)
Fixpoint new_ones (n a i : Z) (msgs : list (list Z)) : list (Z * list Z) :=
  match msgs with
  | [] => []
  | m :: msgs => new_ones n a (i + 1) msgs ++ if a <=? n - i then [(n - i, m)] else []
  end.

Lemma secondary_new s n a i objs msgs :
  Forall2 (fun o m => load s o.1 o.2 = Got m) objs msgs ->
  Forall2 (frame_is s) (secondary_frames n a i objs) (new_ones n a i msgs).
Proof.
  intros H. revert i. induction H as [|[p len] m objs msgs Hl _ IH]; intros i; [constructor|].
  cbn [secondary_frames new_ones]. apply Forall2_app; [apply IH|]. destruct (a <=? n - i); repeat constructor. done.
Qed.

(** Enough of the messages before give all from [a] on. *)
Lemma new_ones_before hist (a c j : nat) :
  (a <= length hist)%nat -> (length hist <= a + j + c)%nat ->
  new_ones (len_of hist) (Z.of_nat a) (Z.of_nat j + 1) (take c (drop j (reverse hist))) =
  numbered (Z.of_nat a) (take (length hist - j - a) (drop a hist)).
Proof.
  intros Ha. revert j. induction c as [|c IH]; intros j Hc.
  { replace (length hist - j - a)%nat with O by lia. done. }
  destruct (decide (length hist <= j)%nat) as [Hj|Hj].
  { replace (length hist - j - a)%nat with O by lia. by rewrite drop_ge by (rewrite length_reverse; lia). }
  assert (is_Some (hist !! (length hist - 1 - j)%nat)) as [m' Hm'] by (apply lookup_lt_is_Some; lia).
  assert (drop j (reverse hist) = m' :: drop (S j) (reverse hist)) as ->.
  { apply drop_S. rewrite <- Hm'. apply reverse_lookup. lia. }
  rewrite firstn_cons. cbn [new_ones]. replace (Z.of_nat j + 1 + 1) with (Z.of_nat (S j) + 1) by lia.
  rewrite IH by lia. destruct (Z.leb_spec (Z.of_nat a) (len_of hist - (Z.of_nat j + 1))) as [Hle|Hgt].
  - replace (length hist - j - a)%nat with (S (length hist - S j - a)) by lia.
    rewrite (take_S_r _ _ m') by (rewrite lookup_drop, <- Hm'; f_equal; lia).
    rewrite numbered_app, length_take, length_drop. cbn [numbered]. repeat f_equal. lia.
  - replace (length hist - j - a)%nat with O by lia. replace (length hist - S j - a)%nat with O by lia. done.
Qed.

(** Where the message of a packet is. *)
Definition primary (m : list Z) : place := InRaw (2 + len_of (len_bytes (len_of m))).

(** The number and the message of every packet are read the same way. *)
Lemma rx_head s n m c rest limit :
  raw s = head_bytes n m ++ c :: rest -> 0 <= n < 65536 -> readable m ->
  len_of (head_bytes n m) + 1 <= limit ->
  load s (primary m) (len_of m) = Got m /\
  udptl_rx_packet s limit =
    if Z.land c 0x80 =? 0
    then (rx_secondary s limit (len_of (head_bytes n m) + 1) n (primary m) (len_of m), s)
    else rx_fec s limit (len_of (head_bytes n m) + 1) n (primary m) (len_of m).
Proof.
  intros Hraw Hn [Hne Hlt] Hlim.
  assert (raw s = [n / 256; n mod 256] ++ open_bytes m ++ c :: rest) as Hr
    by (rewrite Hraw; unfold head_bytes; by rewrite <- app_assoc).
  assert (len_of (head_bytes n m) = 2 + len_of (open_bytes m)) as Hlh
    by (unfold head_bytes; rewrite length_app; simpl; lia).
  split.
  { unfold primary. cbn [load]. rewrite Hr. unfold open_bytes. rewrite <- app_assoc, (app_assoc [_; _]).
    apply bytes_at_app; [rewrite length_app; simpl; lia|done]. }
  unfold udptl_rx_packet. rewrite (proj2 (Z.ltb_ge _ _)) by lia.
  assert (byte_at (raw s) 0 = Got (n / 256)) as -> by by rewrite Hr.
  assert (byte_at (raw s) 1 = Got (n mod 256)) as -> by by rewrite Hr.
  cbn [mbind got_bind]. rewrite (proj2 (proj2 (two_bytes n ltac:(lia)))).
  assert (decode_open_type (raw s) limit 2 = Opened (primary m) (len_of m) (len_of (head_bytes n m))) as ->.
  { rewrite Hr. apply (decode_open [n / 256; n mod 256]); [done|done|]. unfold head_bytes in Hlim. lia. }
  rewrite (proj2 (Z.ltb_ge _ _)) by lia. by rewrite Hraw, byte_at_app.
Qed.

Lemma rx_redundant s hist m (k : nat) post :
  raw s = redundant_bytes (Z.of_nat k) hist m ++ post -> len_of hist < 65536 ->
  Forall readable hist -> readable m -> (k <= length hist)%nat -> (k <= 15)%nat ->
  exists objs, Forall2 (fun o m => load s o.1 o.2 = Got m) objs (before (Z.of_nat k) hist) /\
    load s (primary m) (len_of m) = Got m /\
    udptl_rx_packet s (len_of (redundant_bytes (Z.of_nat k) hist m)) =
    (accept s (if rx_seq_no s <? len_of hist then secondary_frames (len_of hist) (rx_seq_no s) 1 objs else [])
       (len_of hist) (primary m) (len_of m), s).
Proof.
  intros Hraw Hn Hh Hm Hk Hk15. set (n := len_of hist) in *.
  set (prev := before (Z.of_nat k) hist). set (body := concat (open_bytes <$> prev)).
  assert (length prev = k) as Hlp by (unfold prev, before; rewrite length_take, length_reverse; lia).
  assert (Forall readable prev) as Hprev by by apply Forall_take, Forall_reverse.
  set (pre := head_bytes n m ++ [0]).
  assert (redundant_bytes (Z.of_nat k) hist m = (pre ++ len_bytes (Z.of_nat k)) ++ body) as Hp
    by (unfold pre, redundant_bytes, head_bytes; by rewrite <- !app_assoc).
  rewrite Hp in *. set (limit := len_of (_ ++ body)).
  assert (len_of pre = len_of (head_bytes n m) + 1) as Hlpre
    by (unfold pre; rewrite (length_app (head_bytes n m)); cbn [length]; lia).
  assert (len_of pre + len_of (len_bytes (Z.of_nat k)) <= limit) as Hlim
    by (unfold limit; rewrite !length_app; lia).
  destruct (read_entries_ok s (pre ++ len_bytes (Z.of_nat k)) prev post limit [])
    as (objs & Hobjs & Hread); [by rewrite <- app_assoc in Hraw|done|simpl; lia|apply Z.le_refl|].
  destruct (rx_head s n m 0 ((len_bytes (Z.of_nat k) ++ body) ++ post) limit) as [Hl Hrx];
    [rewrite Hraw; unfold pre; by rewrite <- !app_assoc|lia|done|lia|].
  exists objs. split_and!; [done|done|]. rewrite Hrx. cbn [Z.land Z.eqb]. f_equal.
  unfold rx_secondary. cbn [read_groups]. rewrite <- Hlpre.
  assert (decode_length (raw s) limit (len_of pre) =
          Got (false, Z.of_nat k, len_of (pre ++ len_bytes (Z.of_nat k)))) as ->.
  { rewrite Hraw, <- !app_assoc, decode_len by lia. by rewrite length_app, Nat2Z.inj_add. }
  cbn [mbind got_bind]. rewrite Hlp in Hread. rewrite Nat2Z.id, Hread. cbn [mbind got_bind app].
  unfold limit, body. by rewrite Z.eqb_refl.
Qed.

Lemma length_secondary n a i objs :
  len_of (secondary_frames n a i objs) <= Z.max 0 (n - i - a + 1).
Proof.
  revert i. induction objs as [|[p len] objs IH]; intros i; cbn [secondary_frames]; [simpl; lia|].
  specialize (IH (i + 1)). rewrite length_app. destruct (Z.leb_spec a (n - i)); simpl; lia.
Qed.

(** A packet that repeats all the messages the receiver has not seen. *)
Lemma read_redundant r hist m (a k : nat) :
  len_of (raw r) = 8192 -> length (f r) = 16%nat -> rx_seq_no r = Z.of_nat a ->
  Forall readable hist -> readable m -> len_of hist < 65536 ->
  len_of (redundant_bytes (Z.of_nat k) hist m) <= LOCAL_FAX_MAX_DATAGRAM ->
  (a <= length hist)%nat -> (length hist <= a + k)%nat -> (k <= length hist)%nat -> (k <= 15)%nat ->
  exists fs r', cw_udptl_read r (redundant_bytes (Z.of_nat k) hist m) = Got (fs, r') /\
    delivered r' fs = Got (numbered (Z.of_nat a) (drop a hist ++ [m])) /\
    len_of (raw r') = 8192 /\ length (f r') = 16%nat /\ rx_seq_no r' = Z.of_nat (length (hist ++ [m])).
Proof.
  intros Hraw Hf Ha Hh Hm Hn HP Hle Hk1 Hk2 Hk3. set (P := redundant_bytes _ _ _) in *.
  unfold LOCAL_FAX_MAX_DATAGRAM in HP.
  unfold cw_udptl_read. rewrite overlay_ok by lia. cbn [mbind got_bind].
  set (s := r <| raw := P ++ drop (length P) (raw r) |>).
  destruct (rx_redundant s hist m k (drop (length P) (raw r))) as (objs & Hobjs & Hprim & Hrx); [done..|].
  fold P in Hrx. rewrite Hrx. unfold accept. rewrite (eq_refl : rx_seq_no s = rx_seq_no r), Ha.
  rewrite (proj2 (Z.leb_le _ _)) by lia.
  set (frs := (if _ <? _ then _ else _) ++ [_]).
  assert (Forall2 (frame_is s) frs (numbered (Z.of_nat a) (drop a hist ++ [m]))) as Hfr.
  { rewrite numbered_app. apply Forall2_app.
    - destruct (Z.ltb_spec (Z.of_nat a) (len_of hist)) as [Hlt|Hge].
      + apply (secondary_new s (len_of hist) (Z.of_nat a) 1) in Hobjs. unfold before in Hobjs. rewrite Nat2Z.id in Hobjs.
        pose proof (new_ones_before hist a k 0 Hle ltac:(lia)) as Hnew. rewrite drop_0 in Hnew.
        change (Z.of_nat 0 + 1) with 1 in Hnew. rewrite Hnew, Nat.sub_0_r, take_ge in Hobjs by (rewrite length_drop; lia). done.
      + rewrite drop_ge by lia. constructor.
    - rewrite length_drop. constructor; [|constructor]. split; [cbn [fst f_seq_no]; lia|done]. }
  assert (length frs <= 16)%nat as H16.
  { apply Forall2_length in Hfr. rewrite Hfr. clear -Hk1 Hk3.
    assert (forall x l, length (numbered x l) = length l) as ->
      by (intros x l; revert x; induction l; intros; simpl; auto).
    rewrite length_app, length_drop. simpl. lia. }
  assert (0 < length frs)%nat by (unfold frs; rewrite length_app; simpl; lia).
  unfold hand_on. rewrite (proj2 (Nat.ltb_ge _ _)) by done. cbn [mbind got_bind].
  eexists _, _. split; [reflexivity|]. cbn [f raw rx_seq_no].
  match goal with |- context [take _ (f ?t)] => change (f t) with ((Some <$> frs) ++ drop (length frs) (f s)) end.
  rewrite Nat.max_r by lia. rewrite take_app_le, take_ge by (rewrite length_fmap; lia).
  split_and!.
  - apply delivered_ok. exact Hfr.
  - change (len_of (P ++ drop (length P) (raw r)) = 8192). rewrite length_app, length_drop. lia.
  - change (length ((Some <$> frs) ++ drop (length frs) (f r)) = 16%nat).
    rewrite length_app, length_fmap, length_drop. lia.
  - change (len_of hist + 1 = len_of (hist ++ [m])). rewrite length_app. simpl. lia.
Qed.

(** ** A fax over a channel that loses packets *)

(** Every message is written and its packet, when it [arrives], read; what was
    handed out in the end. *)
Fixpoint fax (s r : cw_udptl) (l : list (list Z * bool)) : got (list (Z * list Z)) :=
  match l with
  | [] => Got []
  | (m, arrives) :: l =>
    match cw_udptl_write true true true s m 1 with
    | (Got [packet], s) =>
      if arrives : bool then
        '(fs, r) ← cw_udptl_read r packet;
        now ← delivered r fs; later ← fax s r l; Got (now ++ later)
      else fax s r l
    | _ => Bad
    end
  end.

(** No packet arrives behind more than [e] lost ones, [g] of which were lost
    already. *)
Fixpoint gaps_ok (e g : nat) (l : list (list Z * bool)) : Prop :=
  match l with
  | [] => True
  | (_, true) :: l => (g <= e)%nat /\ gaps_ok e 0 l
  | (_, false) :: l => gaps_ok e (S g) l
  end.

(** The messages up to the last packet that arrives. *)
Fixpoint upto_last (l : list (list Z * bool)) : list (list Z) :=
  match l with
  | [] => []
  | (m, arrives) :: l => if arrives || existsb snd l then m :: upto_last l else []
  end.

Lemma upto_last_none l : existsb snd l = false -> upto_last l = [].
Proof. destruct l as [|[m []] l]; [done..|]. cbn. by intros ->. Qed.

(** The sender after the history. *)
Record sender_ok (scheme : ec_scheme) (e : Z) (hist : list (list Z)) (s : cw_udptl) : Prop := {
  sender_scheme : error_correction_scheme s = scheme;
  sender_entries : error_correction_entries s = e;
  sender_seq : tx_seq_no s = len_of hist;
  sender_ring : ring_ok hist (tx s);
}.

Lemma write_redundant L e hist s m :
  0 <= e <= 15 -> (e + 1) * (L + 2) + 6 <= LOCAL_FAX_MAX_DATAGRAM ->
  sender_ok UDPTL_ERROR_CORRECTION_REDUNDANCY e hist s -> Forall (message_ok L) hist -> message_ok L m ->
  len_of hist < 65536 ->
  exists s', cw_udptl_write true true true s m 1 = (Got [redundant_bytes (Z.min e (len_of hist)) hist m], s') /\
    sender_ok UDPTL_ERROR_CORRECTION_REDUNDANCY e (hist ++ [m]) s'.
Proof.
  intros He HL [Hs Hen Hq Hr] Hh Hm Hn.
  destruct (build_step L e He HL hist s m Hq Hr Hm Hn) as (s1 & Hs1 & Hr1 & Hb).
  exists (s1 <| tx_seq_no := len_of (hist ++ [m]) |>). split.
  - unfold cw_udptl_write. destruct m as [|b m]; [by destruct Hm|]. cbn [negb orb length Nat.eqb].
    rewrite (Hb (redundant_bytes (Z.min e (len_of hist)) hist (b :: m))); [done|].
    apply (recovery_redundant L e He HL); try done; by rewrite Hs1.
  - split; [by rewrite Hs1..|done|done].
Qed.

Lemma length_redundant L (e k : nat) hist m :
  (Z.of_nat e + 1) * (L + 2) + 6 <= LOCAL_FAX_MAX_DATAGRAM -> (k <= e)%nat -> (e <= 15)%nat ->
  Forall (message_ok L) hist -> message_ok L m ->
  len_of (redundant_bytes (Z.of_nat k) hist m) <= LOCAL_FAX_MAX_DATAGRAM.
Proof.
  intros HL Hk He Hh Hm. assert (0 <= L) by (destruct Hm as [Hne Hle]; destruct m; [done|simpl in Hle; lia]).
  assert (Forall (message_ok L) (before (Z.of_nat k) hist)) as Hb by by apply Forall_take, Forall_reverse.
  assert (length (before (Z.of_nat k) hist) <= k)%nat as Hlb by (unfold before; rewrite length_take; lia).
  assert (forall ms, Forall (message_ok L) ms -> len_of (concat (open_bytes <$> ms)) <= len_of ms * (L + 2)) as Hc.
  { induction 1 as [|x ms Hx _ IH]; [done|]. rewrite fmap_cons. cbn [concat length]. rewrite length_app.
    pose proof (length_open L x Hx). lia. }
  specialize (Hc _ Hb). pose proof (length_open L m Hm).
  assert (len_of (len_bytes (Z.of_nat k)) = 1) as Hl1.
  { unfold len_bytes. rewrite (proj2 (Z.ltb_lt _ 128)) by lia. done. }
  assert (len_of (before (Z.of_nat k) hist) * (L + 2) <= Z.of_nat e * (L + 2))
    by (apply Z.mul_le_mono_nonneg_r; lia).
  unfold redundant_bytes. rewrite !length_app. cbn [length]. lia.
Qed.

Lemma message_readable L m : L <= 400 -> message_ok L m -> readable m.
Proof. intros HL [Hne Hle]. split; [done|lia]. Qed.

Lemma fax_redundant L (e : nat) l : forall hist s r (a : nat),
  (e <= 15)%nat -> (Z.of_nat e + 1) * (L + 2) + 6 <= LOCAL_FAX_MAX_DATAGRAM ->
  sender_ok UDPTL_ERROR_CORRECTION_REDUNDANCY (Z.of_nat e) hist s ->
  len_of (raw r) = 8192 -> length (f r) = 16%nat -> rx_seq_no r = Z.of_nat a ->
  (a <= length hist)%nat -> Forall (message_ok L) hist -> Forall (message_ok L) l.*1 ->
  len_of hist + len_of l <= 65536 -> gaps_ok e (length hist - a) l ->
  fax s r l = Got (if existsb snd l then numbered (Z.of_nat a) (drop a hist ++ upto_last l) else []).
Proof.
  induction l as [|[m arrives] l IH]; intros hist s r a He HL Hs Hraw Hf Hrx Ha Hh Hl Hn Hg; [done|].
  rewrite fmap_cons in Hl. apply Forall_cons in Hl as [Hm Hl]. cbn [fst] in Hm. cbn [length] in Hn.
  destruct (write_redundant L (Z.of_nat e) hist s m) as (s' & Hw & Hs'); [lia|done..|lia|].
  cbn [fax]. rewrite Hw. clear Hw.
  assert (Forall (message_ok L) (hist ++ [m])) as Hh' by (apply Forall_app; split; [done|by constructor]).
  assert (length (hist ++ [m]) = S (length hist)) as Hlen by (rewrite length_app; simpl; lia).
  assert (L <= 400) as HL4.
  { destruct Hm as [Hne Hle]. destruct m; [done|]. cbn [length] in Hle. unfold LOCAL_FAX_MAX_DATAGRAM in HL.
    assert (0 <= Z.of_nat e * (L + 2)) by (apply Z.mul_nonneg_nonneg; lia). lia. }
  destruct arrives; cbn [gaps_ok existsb snd orb upto_last] in *.
  - destruct Hg as [Hge Hg].
    replace (Z.min (Z.of_nat e) (len_of hist)) with (Z.of_nat (e `min` length hist)) by lia.
    destruct (read_redundant r hist m a (e `min` length hist)) as (fs & r' & -> & Hd & Hraw' & Hf' & Hrx');
      try done; try lia.
    { eapply Forall_impl; [exact Hh|]. intros x Hx. by apply (message_readable L). }
    { by apply (message_readable L). }
    { apply (length_redundant L e); done || lia. }
    cbn [mbind got_bind]. rewrite Hd. cbn [mbind got_bind].
    rewrite (IH (hist ++ [m]) s' r' (length (hist ++ [m]))); [|done..|lia|by rewrite Nat.sub_diag].
    cbn [mbind got_bind]. rewrite (drop_ge (hist ++ [m])) by done. cbn [app].
    assert (drop a hist ++ m :: upto_last l = (drop a hist ++ [m]) ++ upto_last l) as ->
      by by rewrite <- app_assoc.
    rewrite (numbered_app _ _ (upto_last l)).
    replace (Z.of_nat a + len_of (drop a hist ++ [m])) with (len_of (hist ++ [m]))
      by (rewrite !length_app, length_drop; lia).
    destruct (existsb snd l) eqn:Hex; [done|by rewrite (upto_last_none l)].
  - rewrite (IH (hist ++ [m]) s' r a); [|done..|lia|done|done|lia|].
    2: { replace (length (hist ++ [m]) - a)%nat with (S (length hist - a)) by lia. done. }
    destruct (existsb snd l) eqn:Hex; [|done].
    rewrite drop_app_le, <- app_assoc by lia. done.
Qed.

Lemma sender_new scheme e span : sender_ok scheme e [] (cw_udptl_new_with_sock_info scheme e span).
Proof.
  split; [done..|]. split; [done| |by intros i m Hi].
  cbn [tx cw_udptl_new_with_sock_info]. apply Forall_replicate. done.
Qed.

(** C10: a sender that repeats [e] messages in each packet, over a channel that
    never loses more than [e] packets in a row: the receiver hands out every
    message up to the last packet that arrives exactly once, in order, with
    its number and bytes.  The session has at most 65536 messages, short enough for
    a datagram with their repetitions; behind the last of the 16-bit numbers a message
    is lost ([number_wrap_loses]). *)
Theorem redundancy_recovers L (e : nat) span scheme' e' span' l :
  (e <= 15)%nat -> (Z.of_nat e + 1) * (L + 2) + 6 <= LOCAL_FAX_MAX_DATAGRAM ->
  Forall (message_ok L) l.*1 -> len_of l <= 65536 -> gaps_ok e 0 l ->
  fax (cw_udptl_new_with_sock_info UDPTL_ERROR_CORRECTION_REDUNDANCY (Z.of_nat e) span)
      (cw_udptl_new_with_sock_info scheme' e' span') l = Got (numbered 0 (upto_last l)).
Proof.
  intros He HL Hl Hn Hg.
  rewrite (fax_redundant L e l [] _ _ 0 He HL (sender_new _ _ _)); [|done..].
  cbn [drop app Z.of_nat]. destruct (existsb snd l) eqn:Hex; [done|by rewrite upto_last_none].
Qed.

(** Three messages of which the last arrives. *)
Lemma redundancy_recovers_witness :
  fax (cw_udptl_new_with_sock_info UDPTL_ERROR_CORRECTION_REDUNDANCY 2 0)
      (cw_udptl_new_with_sock_info UDPTL_ERROR_CORRECTION_NONE 0 0)
      [([1; 2], false); ([3], false); ([4; 5; 6], true); ([7], true)] =
  Got [(0, [1; 2]); (1, [3]); (2, [4; 5; 6]); (3, [7])].
Proof.
  apply (redundancy_recovers 3 2 0 UDPTL_ERROR_CORRECTION_NONE 0 0
           [([1; 2], false); ([3], false); ([4; 5; 6], true); ([7], true)]).
  - lia.
  - unfold LOCAL_FAX_MAX_DATAGRAM. lia.
  - repeat constructor; (discriminate || (vm_compute; discriminate)).
  - vm_compute. discriminate.
  - cbn. lia.
Defined.

(** ** Packets that do not fit *)

(** The array for the messages of a packet has 16 places. *)
Lemma read_entries_full s msgs post limit : forall pre acc,
  raw s = pre ++ concat (open_bytes <$> msgs) ++ post ->
  Forall readable msgs -> (16 < length acc + length msgs)%nat ->
  len_of (pre ++ concat (open_bytes <$> msgs)) <= limit -> (length acc <= 16)%nat ->
  read_entries (length msgs) (raw s) limit (len_of pre) acc = Bad.
Proof.
  induction msgs as [|m msgs IH]; intros pre acc Hraw Hm H16 Hlim Hacc; [simpl in H16; lia|].
  apply Forall_cons in Hm as [[Hne Hlt] Hm]. rewrite fmap_cons in *. cbn [concat length read_entries] in *.
  destruct (Nat.leb_spec 16 (length acc)) as [|Hl]; [done|].
  set (rest := concat (open_bytes <$> msgs)) in *.
  rewrite <- app_assoc in Hraw. rewrite (app_assoc pre), (length_app (pre ++ _)) in Hlim.
  rewrite Hraw, decode_open by (done || lia). rewrite <- Hraw.
  apply IH; [by rewrite <- app_assoc|done|rewrite length_app; simpl; lia|rewrite length_app; lia|rewrite length_app; simpl; lia].
Qed.

(** A packet that repeats messages [prev]. *)
Definition repeating (n : Z) (m : list Z) (prev : list (list Z)) : list Z :=
  head_bytes n m ++ [0] ++ len_bytes (len_of prev) ++ concat (open_bytes <$> prev).

(** C23: any well-formed packet with more than 16 repeated messages is read past the
    end of the arrays for them, whatever the receiver expects. *)
Theorem crowded_packet_overruns r n m prev :
  len_of (raw r) = 8192 -> 0 <= n < 65536 -> readable m -> Forall readable prev ->
  (16 < length prev)%nat -> len_of (repeating n m prev) <= 8192 ->
  cw_udptl_read r (repeating n m prev) = Bad.
Proof.
  intros Hraw Hn Hm Hp H16 HP. set (P := repeating n m prev) in *.
  unfold cw_udptl_read. rewrite overlay_ok by lia. cbn [mbind got_bind].
  set (s := r <| raw := P ++ drop (length P) (raw r) |>). set (k := len_of prev).
  set (pre := head_bytes n m ++ [0]). set (body := concat (open_bytes <$> prev)).
  assert (len_of prev <= len_of body) as Hbody.
  { unfold body. clear. induction prev as [|x prev IH]; [done|]. rewrite fmap_cons. cbn [concat length].
    rewrite length_app. unfold open_bytes at 1. rewrite length_app.
    assert (1 <= len_of (len_bytes (len_of x))) by (unfold len_bytes; by destruct (_ <? _)). lia. }
  assert (P = (pre ++ len_bytes k) ++ body) as EP by (unfold P, repeating, pre; by rewrite <- !app_assoc).
  assert (len_of P = len_of pre + len_of (len_bytes k) + len_of body) as HlP by (rewrite EP, !length_app; lia).
  assert (len_of pre = len_of (head_bytes n m) + 1) as Hlpre
    by (unfold pre; rewrite length_app; cbn [length]; lia).
  assert (raw s = (pre ++ len_bytes k) ++ body ++ drop (length P) (raw r)) as Hr
    by (change (raw s) with (P ++ drop (length P) (raw r)); rewrite EP at 1; by rewrite <- app_assoc).
  destruct (rx_head s n m 0 (len_bytes k ++ body ++ drop (length P) (raw r)) (len_of P)) as [_ ->];
    [rewrite Hr; unfold pre; by rewrite <- !app_assoc|done|done|lia|].
  cbn [Z.land Z.eqb]. unfold rx_secondary. cbn [read_groups]. rewrite <- Hlpre.
  assert (decode_length (raw s) (len_of P) (len_of pre) = Got (false, k, len_of (pre ++ len_bytes k))) as ->.
  { rewrite Hr, <- app_assoc, decode_len by lia. by rewrite length_app, Nat2Z.inj_add. }
  cbn [mbind got_bind]. unfold k at 1. rewrite Nat2Z.id.
  rewrite (read_entries_full s prev (drop (length P) (raw r)) (len_of P)); [done|done|done|simpl; lia| |simpl; lia].
  fold body. by rewrite <- EP.
Qed.

(** Seventeen short messages. *)
Lemma crowded_packet_overruns_witness :
  cw_udptl_read (cw_udptl_new_with_sock_info UDPTL_ERROR_CORRECTION_REDUNDANCY 3 3)
    (repeating 5 [1] (replicate 17 [2])) = Bad.
Proof.
  apply crowded_packet_overruns.
  - vm_compute. reflexivity.
  - lia.
  - split; [discriminate|vm_compute; reflexivity].
  - apply Forall_replicate. split; [discriminate|vm_compute; reflexivity].
  - rewrite length_replicate. lia.
  - vm_compute. discriminate.
Defined.

(** An unusable datagram has the last frame handed out again. *)
Example stale_frame :
  (let s := cw_udptl_new_with_sock_info UDPTL_ERROR_CORRECTION_NONE 0 0 in
   '(_, s) ← cw_udptl_read s [0; 0; 2; 7; 8; 0; 0]; '(fs, s) ← cw_udptl_read s [5]; delivered s fs) =
  Got [(0, [7; 8])].
Proof. vm_compute. reflexivity. Qed.

(** Behind the last of the 16-bit numbers the receiver expects one that does not exist:
    of the message of packet 0 no frame is made, and the frame before it is handed out
    again, with its number and its length over the bytes that came now. *)
Example number_wrap_loses :
  (let s := cw_udptl_new_with_sock_info UDPTL_ERROR_CORRECTION_NONE 0 0 in
   '(_, s) ← cw_udptl_read s [255; 255; 1; 7; 0; 0]; '(fs, s) ← cw_udptl_read s [0; 0; 3; 8; 9; 10; 0; 0];
   delivered s fs) = Got [(65535, [8])].
Proof. vm_compute. reflexivity. Qed.

(** A packet that comes late resets the expected number, and what was delivered is
    delivered again. *)
Example late_packet_repeats :
  (let s := cw_udptl_new_with_sock_info UDPTL_ERROR_CORRECTION_NONE 0 0 in
   '(_, s) ← cw_udptl_read s [0; 0; 1; 7; 0; 0]; '(_, s) ← cw_udptl_read s [0; 1; 1; 8; 0; 0];
   '(_, s) ← cw_udptl_read s [0; 0; 1; 7; 0; 0]; '(fs, s) ← cw_udptl_read s [0; 1; 1; 8; 0; 0];
   delivered s fs) = Got [(1, [8])].
Proof. vm_compute. reflexivity. Qed.

(** Five sums are one more than there is room for. *)
Example five_sums_overrun :
  cw_udptl_read (cw_udptl_new_with_sock_info UDPTL_ERROR_CORRECTION_FEC 3 3)
    (head_bytes 0 [1] ++ [0x80; 1; 1; 5] ++ concat (replicate 5 [1; 0])) = Bad.
Proof. vm_compute. reflexivity. Qed.
