(* ===== verification/UdptlFec.v ===== *)
(** * Recovering lost fax packets from sums (corelib/udptl.c)

    With forward error correction a packet carries sums of the messages before
    it: message [n] comes with [entries] sums, and sum [m] is that of the [span]
    messages [n + m - entries], [n + m - 2 entries], ...  A burst of losses has at
    most one message in each of them, so that the next packet repairs it. *)

From S2P Require Import Prelude CStr Utils Udptl.
Open Scope Z_scope.

(** ** Sums *)

(** Byte [j] of a message, or of what is behind its end. *)
Definition nthb (j : nat) (m : list Z) : Z := nth j m 0.

(** A sum with a message added. *)
Definition madd (fec msg : list Z) : list Z :=
  zip_with Z.lxor fec msg ++ drop (length fec) msg ++ drop (length msg) fec.

Definition total (ms : list (list Z)) : list Z := foldl madd [] ms.

Definition xors (l : list Z) : Z := foldr Z.lxor 0 l.

Lemma nthb_madd j a b : nthb j (madd a b) = Z.lxor (nthb j a) (nthb j b).
Proof.
  unfold nthb, madd. revert j b. induction a as [|x a IH]; intros j b.
  { cbn [zip_with length drop app]. rewrite drop_nil, app_nil_r. by destruct j. }
  destruct b as [|y b].
  { cbn [zip_with length drop app]. rewrite Z.lxor_comm. by destruct j. }
  cbn [zip_with length drop app]. destruct j as [|j]; [done|]. cbn [nth]. apply IH.
Qed.

Lemma length_madd a b : length (madd a b) = (length a `max` length b)%nat.
Proof. unfold madd. rewrite !length_app, length_zip_with, !length_drop. lia. Qed.

Lemma xors_app l k : xors (l ++ k) = Z.lxor (xors l) (xors k).
Proof.
  unfold xors. induction l as [|x l IH]; cbn [foldr app]; [by rewrite Z.lxor_0_l|].
  by rewrite IH, Z.lxor_assoc.
Qed.

Lemma foldl_lxor {A} (g : A -> Z) l v : foldl (fun v k => Z.lxor v (g k)) v l = Z.lxor v (xors (g <$> l)).
Proof.
  revert v. induction l as [|x l IH]; intros v; cbn [foldl]; [by rewrite Z.lxor_0_r|].
  by rewrite IH, Z.lxor_assoc.
Qed.

Lemma nthb_foldl j a ms : nthb j (foldl madd a ms) = Z.lxor (nthb j a) (xors (nthb j <$> ms)).
Proof.
  revert a. induction ms as [|m ms IH]; intros a; cbn [foldl]; [by rewrite Z.lxor_0_r|].
  rewrite IH, nthb_madd, fmap_cons, Z.lxor_assoc. done.
Qed.

Lemma nthb_total j ms : nthb j (total ms) = xors (nthb j <$> ms).
Proof. unfold total. rewrite nthb_foldl. unfold nthb at 1. by destruct j. Qed.

Lemma length_foldl a ms :
  (length a <= length (foldl madd a ms))%nat /\ (forall m, m ∈ ms -> length m <= length (foldl madd a ms))%nat /\
  (forall b, length a <= b -> Forall (fun m => length m <= b) ms -> length (foldl madd a ms) <= b)%nat.
Proof.
  revert a. induction ms as [|m ms IH]; intros a; cbn [foldl].
  { split_and!; [lia|by intros m Hm%not_elem_of_nil|done]. }
  destruct (IH (madd a m)) as (H1 & H2 & H3). rewrite length_madd in H1. split_and!; [lia| |].
  - intros m' [->|Hm']%elem_of_cons; [lia|by apply H2].
  - intros b Ha [Hm Hms]%Forall_cons. apply H3; [rewrite length_madd; lia|done].
Qed.

(** The one message that is not among the summands is left of a sum. *)
Lemma xors_cancel (l1 l2 : list Z) x : Z.lxor (xors (l1 ++ x :: l2)) (xors (l1 ++ 0 :: l2)) = x.
Proof.
  rewrite !xors_app. change (xors (x :: l2)) with (Z.lxor x (xors l2)).
  change (xors (0 :: l2)) with (Z.lxor 0 (xors l2)). rewrite Z.lxor_0_l.
  apply Z.bits_inj'. intros i Hi. rewrite !Z.lxor_spec.
  by destruct (Z.testbit (xors l1) i), (Z.testbit x i), (Z.testbit (xors l2) i).
Qed.

(** A message with zeros behind it. *)
Definition padded (m x : list Z) : Prop := exists k, x = m ++ replicate k 0.

Lemma nthb_padded j m x : padded m x -> nthb j x = nthb j m.
Proof.
  intros [k ->]. unfold nthb. destruct (Nat.lt_ge_cases j (length m)).
  - by rewrite app_nth1.
  - rewrite app_nth2, (nth_overflow m) by lia. rewrite nth_lookup.
    destruct (replicate k 0 !! (j - length m)%nat) as [z|] eqn:Hz; [|done]. by apply lookup_replicate in Hz as [-> _].
Qed.

Lemma padded_bytes m n : (length m <= n)%nat -> padded m ((fun j => nthb j m) <$> seq 0 n).
Proof.
  intros Hn. exists (n - length m)%nat. apply list_eq. intros i.
  destruct (Nat.lt_ge_cases i n).
  - rewrite list_lookup_fmap, lookup_seq_lt by done. cbn. unfold nthb.
    destruct (Nat.lt_ge_cases i (length m)).
    + rewrite lookup_app_l by done. destruct (nth_lookup_or_length m i 0) as [->|]; [done|lia].
    + rewrite lookup_app_r by done. rewrite nth_overflow by done. symmetry. apply lookup_replicate_2. lia.
  - rewrite !lookup_ge_None_2; [done| |]; rewrite ?length_app, ?length_fmap, ?length_seq, ?length_replicate; lia.
Qed.

(** ** The messages of a sum *)

(** [c] numbers below [top], in steps. *)
Fixpoint class (c : nat) (top ents : Z) : list Z :=
  match c with O => [] | S c' => (top - Z.of_nat c * ents) :: class c' top ents end.

Lemma elem_class j c top ents :
  j ∈ class c top ents <-> exists i : nat, (1 <= i <= c)%nat /\ j = top - Z.of_nat i * ents.
Proof.
  induction c as [|c IH]; cbn [class].
  { rewrite elem_of_nil. split; [done|]. intros (i & Hi & _). lia. }
  rewrite elem_of_cons, IH. split.
  - intros [->|(i & Hi & ->)]; [by exists (S c); split; [lia|]|exists i; split; [lia|done]].
  - intros (i & Hi & ->). destruct (decide (i = S c)) as [->|]; [by left|right; exists i; split; [lia|done]].
Qed.

Lemma walk_class c top ents :
  1 <= ents -> Z.of_nat c * ents <= 15 ->
  ring_walk c ((top - Z.of_nat c * ents) mod 16) (top mod 16) ents = slot <$> class c top ents.
Proof.
  intros He. induction c as [|c IH]; intros Hc; [done|]. cbn [ring_walk class].
  set (k := top - Z.of_nat (S c) * ents). assert (0 < Z.of_nat (S c) * ents) by nia.
  rewrite (proj2 (Z.eqb_neq _ _)).
  2: { intros E%slot_eq. apply slot_near in E; unfold k in *; lia. }
  rewrite fmap_cons. f_equal.
  - unfold slot. by rewrite land_15.
  - rewrite land_15, Zplus_mod_idemp_l. replace (k + ents) with (top - Z.of_nat c * ents) by (unfold k; lia).
    apply IH. lia.
Qed.

Lemma sum_slots_class x n (m : nat) (span : nat) ents :
  slot x = slot n -> 1 <= ents -> Z.of_nat span * ents <= 15 ->
  sum_slots x (Z.of_nat m) (Z.of_nat span) ents = slot <$> class span (n + Z.of_nat m) ents.
Proof.
  intros Hx%slot_eq He Hs. unfold sum_slots. rewrite !land_15, Nat2Z.id, Zminus_mod_idemp_l.
  assert ((x + Z.of_nat m) mod 16 = (n + Z.of_nat m) mod 16) as E
    by (rewrite (Zplus_mod x), Hx, <- Zplus_mod; done).
  rewrite (Zminus_mod (x + _)), E, <- Zminus_mod. by apply walk_class.
Qed.

(** The numbers of a sum are those of a class of remainders, below [n]. *)
Lemma class_bounds j span n (m : nat) ents :
  j ∈ class span (n + Z.of_nat m) ents -> Z.of_nat m < ents ->
  n - Z.of_nat span * ents <= j < n /\ exists q, n + Z.of_nat m - j = q * ents.
Proof.
  intros (i & Hi & ->)%elem_class Hm. split; [nia|]. exists (Z.of_nat i). lia.
Qed.

Lemma class_NoDup c top ents : 1 <= ents -> NoDup (class c top ents).
Proof.
  intros He. induction c as [|c IH]; cbn [class]; constructor; [|done].
  intros (i & Hi & E)%elem_class. nia.
Qed.

(** ** The sender *)

(** Message [j] of the history. *)
Definition msg_at (hist : list (list Z)) (j : Z) : list Z := nth (Z.to_nat j) hist [].

Lemma msg_at_ok L hist j : 0 <= j < len_of hist -> Forall (message_ok L) hist ->
  hist !! Z.to_nat j = Some (msg_at hist j) /\ message_ok L (msg_at hist j).
Proof.
  intros Hj Hh. unfold msg_at. destruct (nth_lookup_or_length hist (Z.to_nat j) []) as [E|]; [|lia].
  split; [done|]. by eapply Forall_lookup_1 in Hh.
Qed.

(** How many sums there are, and of how many messages. *)
Definition sums_entries (span ents n : Z) : Z := if n <? span * ents then n / span else ents.

Definition sums_span (span ents n : Z) : Z :=
  if (n <? span * ents) && (n <? span) then 0 else span.

Definition sum_at (hist : list (list Z)) (n : Z) (span : nat) (ents : Z) (m : nat) : list Z :=
  total (msg_at hist <$> class span (n + Z.of_nat m) ents).

Lemma fold_sum hist m s ks acc :
  ring_ok (hist ++ [m]) (tx s) -> (forall k, k ∈ ks -> 0 <= k < len_of hist /\ len_of hist <= k + 15) ->
  fold_got (fun k fec => t ← tx_at s k; Got (add_message fec t)) (slot <$> ks) acc =
  Got (foldl madd acc (msg_at hist <$> ks)).
Proof.
  intros Hr. revert acc. induction ks as [|k ks IH]; intros acc Hks; [done|].
  destruct (Hks k) as [Hk Hk15]; [by left|]. rewrite !fmap_cons. cbn [fold_got foldl].
  assert (hist !! Z.to_nat k = Some (msg_at hist k)) as Hm.
  { unfold msg_at. destruct (nth_lookup_or_length hist (Z.to_nat k) []) as [E|]; [done|lia]. }
  destruct (ring_holds _ _ Hr (Z.to_nat k) (msg_at hist k)) as (t & Ht & Hl & Hb).
  { by rewrite lookup_app_l by lia. }
  { rewrite length_app. simpl. lia. }
  rewrite Z2Nat.id in Ht by lia. unfold tx_at. rewrite Ht. cbn [in_bounds mbind got_bind].
  rewrite IH by (intros; apply Hks; by right). do 2 f_equal. unfold add_message. by rewrite Hb.
Qed.

Section sending.
Context (L e : Z) (He : 0 <= e <= 15) (HL : (e + 1) * (L + 2) + 6 <= LOCAL_FAX_MAX_DATAGRAM).

Lemma sum_at_ok hist (span : nat) ents (m : nat) :
  Forall (message_ok L) hist -> (1 <= span)%nat -> Z.of_nat m < ents ->
  Z.of_nat span * ents <= len_of hist -> message_ok L (sum_at hist (len_of hist) span ents m).
Proof.
  clear e He HL. intros Hh Hs Hm Hn. set (ks := class span (len_of hist + Z.of_nat m) ents).
  assert (forall k, k ∈ ks -> message_ok L (msg_at hist k)) as Hks.
  { intros k [Hk _]%class_bounds; [|done]. apply msg_at_ok; [lia|done]. }
  assert (0 <= L) as HL0.
  { destruct hist as [|h hist]; [simpl in Hn; nia|]. apply Forall_cons in Hh as [[Hh0 Hh1] _]. destruct h; [done|]. simpl in Hh1. lia. }
  destruct (length_foldl [] (msg_at hist <$> ks)) as (_ & H2 & H3). unfold sum_at. fold ks. split.
  - destruct span as [|span]; [lia|]. subst ks. cbn [class] in *. rewrite fmap_cons in *.
    specialize (H2 _ ltac:(by left)). destruct (Hks (len_of hist + Z.of_nat m - Z.of_nat (S span) * ents)) as [Hne _]; [by left|].
    unfold total. destruct (foldl _ _ _); [|done]. destruct (msg_at _ _); simpl in H2; [done|lia].
  - unfold total. specialize (H3 (Z.to_nat L)). cbn [length] in H3. enough (length (foldl madd [] (msg_at hist <$> ks)) <= Z.to_nat L)%nat by lia.
    apply H3; [lia|]. apply Forall_fmap, Forall_forall. intros k Hk. destruct (Hks k Hk) as [_ Hk']. cbn. lia.
Qed.

Lemma fold_sums hist m s entry (span : nat) ents c i out :
  ring_ok (hist ++ [m]) (tx s) -> Forall (message_ok L) hist -> slot entry = slot (len_of hist) ->
  (1 <= span)%nat -> Z.of_nat (i + c) <= ents -> Z.of_nat span * ents <= len_of hist ->
  Z.of_nat span * ents <= 15 -> 0 <= L ->
  len_of out + Z.of_nat c * (L + 2) <= LOCAL_FAX_MAX_DATAGRAM ->
  fold_got (put_sum s entry (Z.of_nat span) ents) (seq i c) out =
  Got (out ++ concat (open_bytes <$> (sum_at hist (len_of hist) span ents <$> seq i c))).
Proof.
  intros Hr Hh Hs H1 Hi Hn H15 HL0. revert i out Hi. induction c as [|c IH]; intros i out Hi Hf.
  { by rewrite app_nil_r. }
  assert (message_ok L (sum_at hist (len_of hist) span ents i)) as Hok by (apply sum_at_ok; done || lia).
  pose proof (length_open L _ Hok) as Hlo.
  cbn [seq fold_got].
  assert (put_sum s entry (Z.of_nat span) ents i out =
          Got (out ++ open_bytes (sum_at hist (len_of hist) span ents i))) as ->.
  { unfold put_sum. rewrite (sum_slots_class entry (len_of hist)) by (done || lia).
    rewrite (fold_sum hist m); [|done|].
    - cbn [mbind got_bind]. apply encode_open; [|done|apply Hok|lia].
      unfold first_bytes. rewrite Nat2Z.id. by apply take_ge.
    - intros k [Hk _]%class_bounds; lia. }
  cbn [mbind got_bind]. rewrite IH by (rewrite ?length_app; lia).
  rewrite !fmap_cons. cbn [concat]. by rewrite <- app_assoc.
Qed.

(** A packet with sums. *)
Definition fec_bytes (span ents : Z) (hist : list (list Z)) (m : list Z) : list Z :=
  head_bytes (len_of hist) m ++ [0x80; 1; sums_span span ents (len_of hist); sums_entries span ents (len_of hist)] ++
  concat (open_bytes <$> (sum_at hist (len_of hist) (Z.to_nat span) (sums_entries span ents (len_of hist)) <$>
                          seq 0 (Z.to_nat (sums_entries span ents (len_of hist))))).

(** What is protected: never more than was sent. *)
Lemma sums_bounds span ents n : 1 <= span -> 0 <= ents -> 0 <= n ->
  0 <= sums_entries span ents n <= ents /\ span * sums_entries span ents n <= n /\
  (sums_span span ents n = span \/ sums_span span ents n = 0 /\ sums_entries span ents n = 0).
Proof.
  intros Hs He0 Hn. unfold sums_entries, sums_span. pose proof (Z.mul_div_le n span).
  destruct (Z.ltb_spec n (span * ents)) as [Hlt|Hge]; cbn [andb]; [|split_and!; [lia|lia|lia|by left]].
  assert (0 <= n / span) by (apply Z.div_pos; lia).
  assert (n / span <= ents) by (apply Z.div_le_upper_bound; lia).
  destruct (Z.ltb_spec n span) as [Hlt'|Hge'].
  - rewrite Z.div_small by lia. split_and!; [lia|lia|lia|by right].
  - split_and!; [lia|lia|lia|by left].
Qed.

Lemma recovery_fec span hist s m :
  error_correction_scheme s = UDPTL_ERROR_CORRECTION_FEC -> error_correction_entries s = e ->
  error_correction_span s = span -> ring_ok (hist ++ [m]) (tx s) ->
  Forall (message_ok L) hist -> message_ok L m -> 1 <= span -> 1 <= e -> span * e <= 15 ->
  put_recovery s (len_of hist) (len_of hist mod 16) (head_bytes (len_of hist) m) =
  Got (fec_bytes span e hist m).
Proof.
  intros Hs Hen Hsp Hr Hh Hm Hspan He1 H15. set (n := len_of hist) in *.
  pose proof (length_head L n m Hm) as Hlh.
  assert (0 <= L) by (destruct Hm as [Hne HmL]; destruct m; [done|simpl in HmL; lia]).
  destruct (sums_bounds span e n) as ([Hn0 Hne] & Hnn & Hspn); [lia..|].
  set (ne := sums_entries span e n) in *.
  assert (0 <= e * (L + 2)) by (apply Z.mul_nonneg_nonneg; lia).
  assert (ne * (L + 2) <= e * (L + 2)) by (apply Z.mul_le_mono_nonneg_r; lia).
  assert (0 <= sums_span span e n < 256 /\ ne < 256) as [Hb1 Hb2]
    by (assert (span <= 15) by nia; destruct Hspn as [->|[-> ?]]; lia).
  unfold put_recovery. rewrite Hs, Hen, Hsp.
  fold (sums_entries span e n) (sums_span span e n). fold ne. unfold wrap_u. rewrite (Z.mod_small (sums_span _ _ _)), (Z.mod_small ne) by lia.
  rewrite put_fits by (cbn [length]; unfold LOCAL_FAX_MAX_DATAGRAM in *; lia). cbn [mbind got_bind].
  unfold fec_bytes. fold n ne. rewrite app_assoc.
  destruct (decide (ne = 0)) as [E|E].
  { rewrite E. cbn [Z.to_nat seq fold_got]. by rewrite app_nil_r. }
  destruct Hspn as [Hspn|[_ ?]]; [|done]. rewrite Hspn.
  assert (span * ne <= span * e) by (apply Z.mul_le_mono_nonneg_l; lia).
  pose proof (fold_sums hist m s (n mod 16) (Z.to_nat span) ne (Z.to_nat ne) 0
    (head_bytes n m ++ [128; 1; span; ne]) Hr Hh (slot_mod n)) as Hfs.
  rewrite !Z2Nat.id in Hfs by lia. fold n in Hfs. apply Hfs; try lia.
  rewrite length_app. cbn [length]. unfold LOCAL_FAX_MAX_DATAGRAM in *. lia.
Qed.

End sending.

(** ** What the receiver stores of a packet *)

Record rx_shape (r : rx_slot) : Prop := {
  shape_buf : len_of (rx_buf r) = LOCAL_FAX_MAX_DATAGRAM;
  shape_lens : length (fec_len r) = MAX_FEC_ENTRIES;
  shape_fec : length (fec r) = MAX_FEC_ENTRIES;
  shape_fecs : Forall (fun b => len_of b = LOCAL_FAX_MAX_DATAGRAM) (fec r);
}.

Definition has_sum (r : rx_slot) (i : nat) (x : list Z) : Prop :=
  fec_len r !! i = Some (len_of x) /\ exists b, fec r !! i = Some b /\ take (length x) b = x.

Lemma read_fec_ok s sums post limit : forall pre i r,
  raw s = pre ++ concat (open_bytes <$> sums) ++ post -> Forall (message_ok 400) sums ->
  (i + length sums <= MAX_FEC_ENTRIES)%nat -> len_of (pre ++ concat (open_bytes <$> sums)) <= limit ->
  rx_shape r ->
  exists lens fecs, let r' := r <| fec_len := lens |> <| fec := fecs |> in
    read_fec (length sums) i s limit (len_of pre) r =
      (Got (len_of (pre ++ concat (open_bytes <$> sums))), r') /\
    rx_shape r' /\
    (forall k, (k < i)%nat -> lens !! k = fec_len r !! k /\ fecs !! k = fec r !! k) /\
    (forall k x, sums !! k = Some x -> has_sum r' (i + k) x).
Proof.
  induction sums as [|x sums IH]; intros pre i r Hraw Hok Hi Hlim Hr.
  { exists (fec_len r), (fec r). cbn [read_fec length fmap list_fmap concat]. rewrite app_nil_r.
    destruct r. split_and!; [done|done|done|]. by intros k x Hk. }
  apply Forall_cons in Hok as [[Hne Hx] Hok]. rewrite fmap_cons in *. cbn [concat length read_fec] in *.
  set (rest := concat (open_bytes <$> sums)) in *.
  rewrite <- app_assoc in Hraw. rewrite (app_assoc pre), (length_app (pre ++ _)) in Hlim.
  rewrite (proj2 (Nat.leb_gt _ _)) by lia.
  rewrite Hraw, decode_open by (done || lia).
  unfold LOCAL_FAX_MAX_DATAGRAM at 1. rewrite (proj2 (Z.ltb_ge 400 _)) by lia.
  assert (load s (InRaw (len_of pre + len_of (len_bytes (len_of x)))) (len_of x) = Got x) as ->.
  { cbn [load]. rewrite Hraw. unfold open_bytes. rewrite <- app_assoc, (app_assoc pre).
    apply bytes_at_app; [rewrite length_app; lia|done]. }
  destruct (Hr) as [Hb Hls Hfs Hfl].
  assert (is_Some (fec r !! i)) as [old Hold] by (apply lookup_lt_is_Some; lia).
  assert (len_of old = LOCAL_FAX_MAX_DATAGRAM) as Hlo by (eapply Forall_lookup_1 in Hfl; done).
  unfold LOCAL_FAX_MAX_DATAGRAM in Hlo. cbn [mbind got_bind].
  match goal with |- context [fec ?t !! i] => change (fec t) with (fec r) end. rewrite Hold.
  cbn [in_bounds mbind got_bind]. rewrite overlay_ok by lia. set (b := x ++ _).
  assert (len_of b = LOCAL_FAX_MAX_DATAGRAM) as Hlb by (unfold b; rewrite length_app, length_drop; unfold LOCAL_FAX_MAX_DATAGRAM; lia).
  match goal with |- context [read_fec _ (S i) _ _ _ ?t] => set (r1 := t) end.
  destruct (IH (pre ++ open_bytes x) (S i) r1) as (lens & fecs & Hrd & Hsh & Hlow & Hsums).
  { by rewrite <- app_assoc. }
  { done. }
  { lia. }
  { rewrite length_app. lia. }
  { split; [done|cbn; by rewrite length_insert|cbn; by rewrite length_insert|]. by apply Forall_insert. }
  exists lens, fecs. split_and!.
  - rewrite Hrd. by rewrite <- app_assoc.
  - done.
  - intros k Hk. destruct (Hlow k) as [-> ->]; [lia|]. cbn. by rewrite !list_lookup_insert_ne by lia.
  - intros [|k] y Hy.
    + injection Hy as <-. rewrite Nat.add_0_r. destruct (Hlow i) as [Hl1 Hl2]; [lia|]. split.
      * change (lens !! i = Some (len_of x)). rewrite Hl1. cbn. by rewrite list_lookup_insert_eq by lia.
      * exists b. split; [|unfold b; by rewrite take_app_length].
        change (fecs !! i = Some b). rewrite Hl2. cbn. by rewrite list_lookup_insert_eq by lia.
    + replace (i + S k)%nat with (S i + k)%nat by lia. by apply Hsums.
Qed.

(** ** Repair *)

(** A slot with a message, which a repair may have filled up with zeros. *)
Definition holds_rx (r : rx_slot) (m : list Z) : Prop :=
  0 < rx_len r /\ exists x, padded m x /\ rx_len r = len_of x /\ take (length x) (rx_buf r) = x.

Lemma summand_holds rx j k r m :
  rx !! k = Some r -> holds_rx r m -> summand rx j k = nthb j m.
Proof.
  intros Hr (_ & x & Hp & Hl & Hx). unfold summand. rewrite Hr, Hl, <- (nthb_padded j m x Hp).
  unfold nthb. destruct (Z.ltb_spec (Z.of_nat j) (len_of x)) as [Hlt|Hge]; [|rewrite nth_overflow by lia; done].
  rewrite <- Hx, !nth_lookup, lookup_take_lt by lia. done.
Qed.

Lemma summand_missed rx j k r : rx !! k = Some r -> rx_len r <= 0 -> summand rx j k = 0.
Proof. intros Hr Hl. unfold summand. rewrite Hr. by rewrite (proj2 (Z.ltb_ge _ _)) by lia. Qed.

(** Slots that differ in their messages at most. *)
Definition same_fec (r r' : rx_slot) : Prop :=
  fec_len r' = fec_len r /\ fec r' = fec r /\ fec_span r' = fec_span r /\ fec_entries r' = fec_entries r.

#[export] Instance same_fec_refl : Reflexive same_fec.
Proof. done. Qed.

#[export] Instance same_fec_trans : Transitive same_fec.
Proof. intros r1 r2 r3 (? & ? & ? & ?) (? & ? & ? & ?). repeat split; congruence. Qed.

Lemma slot_slot z : slot (Z.of_nat (slot z)) = slot z.
Proof. apply slot_eq. unfold slot. rewrite land_15, Z2Nat.id by (apply Z.mod_pos_bound; lia). by rewrite Z.mod_mod. Qed.

Section repairing.
(** All the messages, the number of the packet, and where its sums lead to. *)
Context (H : list (list Z)) (n : Z) (span : nat) (ents : Z).
Context (H15 : Z.of_nat span * ents <= 15) (Hn : Z.of_nat span * ents <= n).

(** The messages below [lo] and the packet's own are there, those from [lo] on
    are missing. *)
Record ring_state (lo : Z) (rx : list rx_slot) : Prop := {
  rs_len : length rx = 16%nat;
  rs_shape : Forall rx_shape rx;
  rs_there : forall j, 0 <= j -> n - 15 <= j <= n -> j < lo \/ j = n ->
    exists r, rx !! slot j = Some r /\ holds_rx r (msg_at H j);
  rs_missing : forall j, lo <= j < n -> exists r, rx !! slot j = Some r /\ rx_len r <= 0;
}.

Lemma filter_there (rx : list rx_slot) ks :
  (forall k, k ∈ ks -> exists r, rx !! k = Some r /\ 0 < rx_len r) ->
  filter (fun k => default 0 (rx_len <$> rx !! k) <= 0) ks = [].
Proof.
  intros Hks. induction ks as [|k ks IH]; [done|]. rewrite filter_cons_False.
  - apply IH. intros k' Hk'. apply Hks. by right.
  - destruct (Hks k) as (r & -> & Hr); [by left|]. cbn. lia.
Qed.

Lemma missing_none rx (ks : list nat) :
  (forall k, k ∈ ks -> exists r, rx !! k = Some r /\ 0 < rx_len r) -> missing rx ks = None.
Proof. intros Hks. unfold missing. by rewrite filter_there. Qed.

Lemma missing_one rx l1 k l2 r :
  (forall k, k ∈ l1 ++ l2 -> exists r, rx !! k = Some r /\ 0 < rx_len r) ->
  rx !! k = Some r -> rx_len r <= 0 -> missing rx (l1 ++ k :: l2) = Some k.
Proof.
  intros Hks Hr Hl. unfold missing. rewrite filter_app, filter_cons_True by (rewrite Hr; done).
  rewrite !filter_there; [done| |]; intros k' Hk'; apply Hks, elem_of_app; auto.
Qed.

(** A sum with no missing message repairs nothing. *)
Lemma repair_none l m rx rep r ks :
  rx !! l = Some r -> sum_slots (Z.of_nat l) (Z.of_nat m) (fec_span r) (fec_entries r) = ks ->
  (forall k, k ∈ ks -> exists r, rx !! k = Some r /\ 0 < rx_len r) ->
  repair l m (rx, rep) = Got (rx, rep).
Proof.
  intros Hr Hks Hall. unfold repair. rewrite Hr. cbn [in_bounds mbind got_bind].
  rewrite Hks, missing_none by done. done.
Qed.

(** What is left of a sum without the summands that are there. *)
Lemma sum_leaves rx l1 lo l2 w j :
  (forall k, k ∈ l1 ++ l2 -> exists r, rx !! slot k = Some r /\ holds_rx r (msg_at H k)) ->
  rx !! slot lo = Some w -> rx_len w <= 0 ->
  foldl (fun v k => Z.lxor v (summand rx j k)) (nthb j (total (msg_at H <$> l1 ++ lo :: l2)))
    ((slot <$> l1) ++ slot lo :: (slot <$> l2)) = nthb j (msg_at H lo).
Proof.
  intros Hoth Hw Hwl. rewrite foldl_lxor, nthb_total.
  assert (forall l : list Z, (forall k, k ∈ l -> k ∈ l1 ++ l2) ->
            summand rx j <$> (slot <$> l) = nthb j <$> (msg_at H <$> l)) as Hsame.
  { intros l Hl. rewrite <- !list_fmap_compose. apply list_fmap_ext. intros i k Hk. cbn.
    destruct (Hoth k) as (r & Hr & Hh); [by eapply Hl, list_elem_of_lookup_2|]. by apply (summand_holds _ _ _ r). }
  rewrite !fmap_app, !fmap_cons, (Hsame l1), (Hsame l2), (summand_missed _ _ _ w Hw Hwl)
    by (intros k Hk; apply elem_of_app; auto).
  apply xors_cancel.
Qed.

(** The class of the first missing message has no other missing one. *)
Lemma class_split (m : nat) :
  (1 <= span)%nat -> Z.of_nat m < ents -> exists l1 l2,
    class span (n + Z.of_nat m) ents = l1 ++ (n - ents + Z.of_nat m) :: l2 /\
    forall j, j ∈ l1 ++ l2 -> 0 <= j /\ n - 15 <= j < n - ents + Z.of_nat m.
Proof.
  intros Hs1 Hm. set (lo := n - ents + Z.of_nat m).
  assert (lo ∈ class span (n + Z.of_nat m) ents) as Hin by (apply elem_class; exists 1%nat; unfold lo; lia).
  destruct (list_elem_of_split _ _ Hin) as (l1 & l2 & Hsplit). exists l1, l2. split; [done|].
  pose proof (class_NoDup span (n + Z.of_nat m) ents ltac:(lia)) as Hnd. rewrite Hsplit in Hnd.
  intros j Hj. assert (j <> lo) as Hjl.
  { intros ->. apply NoDup_app in Hnd as (_ & H1 & [H2 _]%NoDup_cons).
    apply elem_of_app in Hj as [Hj|Hj]; [apply (H1 _ Hj); by left|done]. }
  assert (j ∈ class span (n + Z.of_nat m) ents) as Hjc.
  { rewrite Hsplit. apply elem_of_app. apply elem_of_app in Hj as [|]; [by left|right; by right]. }
  apply class_bounds in Hjc as [Hb [q Hq]]; [|lia].
  assert (1 <> q) by (intros <-; unfold lo in Hjl; lia).
  assert (1 <= q) by nia. assert (2 <= q) by lia. unfold lo. nia.
Qed.

(** The ring with the first missing message put in its slot. *)
Lemma ring_repaired lo rx w w' :
  ring_state lo rx -> n - 15 <= lo < n -> rx !! slot lo = Some w -> rx_shape w' ->
  holds_rx w' (msg_at H lo) -> same_fec w w' ->
  ring_state (lo + 1) (<[slot lo := w']> rx) /\ Forall2 same_fec rx (<[slot lo := w']> rx).
Proof.
  intros [Hlen Hsh Hth Hmi] Hlo Hw Hw' Hh Hsame. split.
  - split; [by rewrite length_insert|by apply Forall_insert| |].
    + intros j Hj0 Hj1 Hj2. destruct (decide (j = lo)) as [->|Hjl].
      * exists w'. split; [|done]. apply list_lookup_insert_eq. rewrite Hlen. apply slot_lt.
      * rewrite list_lookup_insert_ne; [apply Hth; try done; lia|]. intros E. apply slot_near in E; lia.
    + intros j Hj. rewrite list_lookup_insert_ne; [apply Hmi; lia|]. intros E. apply slot_near in E; lia.
  - rewrite <- (list_insert_id rx (slot lo) w Hw) at 1.
    apply Forall2_insert; [by apply Forall_Forall2_diag, Forall_true|done].
Qed.

(** The sum of the class of the first missing message repairs it. *)
Lemma repair_one rx rep (m : nat) r :
  let lo := n - ents + Z.of_nat m in
  ring_state lo rx -> rx !! slot n = Some r -> fec_span r = Z.of_nat span -> fec_entries r = ents ->
  (1 <= span)%nat -> Z.of_nat m < ents -> has_sum r m (sum_at H n span ents m) ->
  len_of (sum_at H n span ents m) <= LOCAL_FAX_MAX_DATAGRAM -> msg_at H lo <> [] ->
  exists rx', repair (slot n) m (rx, rep) = Got (rx', slot lo :: rep) /\ ring_state (lo + 1) rx' /\
    Forall2 same_fec rx rx'.
Proof.
  intros lo Hrs Hr Hsp Hen Hs1 Hm [Hlens (sum & Hsum & Htk)] H400 Hne.
  set (S_ := sum_at H n span ents m) in *. assert (ents <= 15) as Hents by nia.
  destruct (class_split m Hs1 Hm) as (l1 & l2 & Hsplit & Hoth). fold lo in Hsplit, Hoth.
  destruct (rs_missing _ _ Hrs lo) as (w & Hw & Hwl); [unfold lo; lia|].
  assert (forall k, k ∈ l1 ++ l2 -> exists r, rx !! slot k = Some r /\ holds_rx r (msg_at H k)) as Hpres.
  { intros k Hk. destruct (Hoth k Hk) as (? & ?). apply (rs_there _ _ Hrs); [done|unfold lo in *; lia|left; lia]. }
  unfold repair. rewrite Hr. cbn [in_bounds mbind got_bind].
  rewrite Hsp, Hen, (sum_slots_class _ n) by (apply slot_slot || lia).
  rewrite Hsplit, fmap_app, fmap_cons, (missing_one _ _ _ _ w); [|clear -Hpres|done|done].
  2: { intros k. rewrite <- fmap_app. intros (j & -> & Hj)%list_elem_of_fmap.
       destruct (Hpres j Hj) as (r' & Hr' & Hh). exists r'. split; [done|apply Hh]. }
  rewrite Hlens, Hsum, Hw. cbn [in_bounds mbind got_bind].
  rewrite (proj2 (Z.ltb_ge _ _)) by done. rewrite Nat2Z.id. set (bytes := _ <$> seq 0 (length S_)).
  assert (bytes = (fun j => nthb j (msg_at H lo)) <$> seq 0 (length S_)) as Hbytes.
  { apply list_fmap_ext. intros i j [-> Hi]%lookup_seq. cbn [Nat.add].
    rewrite <- (sum_leaves rx l1 lo l2 w i Hpres Hw Hwl), <- Hsplit. fold (sum_at H n span ents m). fold S_.
    f_equal. unfold nthb. rewrite <- Htk, !nth_lookup, lookup_take_lt by done. done. }
  assert (length (msg_at H lo) <= length S_)%nat as HlS.
  { apply length_foldl. rewrite Hsplit. apply list_elem_of_fmap. exists lo. split; [done|].
    apply elem_of_app. right. by left. }
  assert (rx_shape w) as Hws by (pose proof (rs_shape _ _ Hrs) as Hsh; eapply Forall_lookup_1 in Hsh; done).
  assert (length bytes = length S_) as Hlb by (rewrite Hbytes, length_fmap, length_seq; done).
  pose proof (shape_buf w Hws) as Hwb.
  rewrite overlay_ok by lia. cbn [mbind got_bind]. eexists. split; [reflexivity|].
  apply (ring_repaired lo rx w); [done|unfold lo; lia|done| | |done].
  - destruct Hws. split; [|done..]. cbn. rewrite length_app, length_drop. lia.
  - split; [cbn; destruct (msg_at H lo); [done|simpl in HlS; lia]|].
    exists bytes. split; [|split; [cbn; lia|cbn; by rewrite take_app_length]].
    rewrite Hbytes. by apply padded_bytes.
Qed.

Lemma same_fec_lookup rx rx' k r :
  Forall2 same_fec rx rx' -> rx !! k = Some r -> exists r', rx' !! k = Some r' /\ same_fec r r'.
Proof. intros Hf Hr. destruct (Forall2_lookup_l _ _ _ _ _ Hf Hr) as (r' & Hr' & Hs). by exists r'. Qed.

(** The slot of the packet, with its sums. *)
Definition packet_slot (r : rx_slot) : Prop :=
  fec_span r = Z.of_nat span /\ fec_entries r = ents /\
  forall k : nat, Z.of_nat k < ents -> has_sum r k (sum_at H n span ents k).

Lemma packet_slot_same r r' : packet_slot r -> same_fec r r' -> packet_slot r'.
Proof.
  intros (Hs & He & Hsum) (El & Ef & Es & Ee). split_and!; [congruence..|].
  intros k Hk. destruct (Hsum k Hk). unfold has_sum. by rewrite El, Ef.
Qed.

Context (Hs1 : (1 <= span)%nat).
Context (H400 : forall k : nat, Z.of_nat k < ents -> len_of (sum_at H n span ents k) <= LOCAL_FAX_MAX_DATAGRAM).
Context (Hne : forall j, 0 <= j < n -> msg_at H j <> []).

(** The sums of the packet one after the other: [g] messages are missing, at most
    one in each of them. *)
Lemma repair_all g : forall c m rx rep r,
  0 <= g <= ents -> Z.of_nat (m + c) = ents ->
  let lo := Z.max (n - g) (n - ents + Z.of_nat m) in
  ring_state lo rx -> rx !! slot n = Some r -> packet_slot r ->
  exists rx' rep', fold_got (repair (slot n)) (seq m c) (rx, rep) = Got (rx', rep') /\
    ring_state n rx' /\ Forall2 same_fec rx rx' /\
    (forall k, k ∈ rep' <-> k ∈ rep \/ exists j, lo <= j < n /\ k = slot j).
Proof.
  induction c as [|c IH]; intros m rx rep r Hg Hmc lo Hrs Hr Hp.
  { assert (lo = n) as Elo by (unfold lo; lia). exists rx, rep. rewrite Elo in *. split_and!; [done|done| |].
    - by apply Forall_Forall2_diag, Forall_true.
    - intros k. split; [by left|]. intros [?|(j & ? & _)]; [done|lia]. }
  cbn [seq fold_got]. destruct (Hp) as (Hsp & Hen & Hsums).
  destruct (Z.le_gt_cases (n - g) (n - ents + Z.of_nat m)) as [Hle|Hgt].
  - assert (lo = n - ents + Z.of_nat m) as Elo by (unfold lo; lia). rewrite Elo in *.
    destruct (repair_one rx rep m r) as (rx1 & -> & Hrs1 & Hf1);
      [done..|lia|apply Hsums; lia|apply H400; lia|apply Hne; nia|]. cbn [mbind got_bind].
    destruct (same_fec_lookup _ _ _ _ Hf1 Hr) as (r1 & Hr1 & Hsm).
    destruct (IH (S m) rx1 (slot lo :: rep) r1) as (rx2 & rep2 & Hfold & Hrs2 & Hf2 & Hrep2);
      [done|lia| |done|by eapply packet_slot_same|].
    { replace (Z.max (n - g) (n - ents + Z.of_nat (S m))) with (lo + 1) by lia. by rewrite Elo. }
    rewrite Elo in *. exists rx2, rep2. split_and!; [done|done|by etrans|]. intros k. rewrite Hrep2, elem_of_cons.
    split.
    + intros [[->|?]|(j & Hj & ->)]; [right; eexists; split; [|done]; lia|by left|].
      right. exists j. split; [lia|done].
    + intros [?|(j & Hj & ->)]; [by left; right|]. destruct (decide (j = n - ents + Z.of_nat m)) as [->|]; [by left; left|].
      right. exists j. split; [lia|done].
  - assert (lo = n - g) as Elo by (unfold lo; lia).
    rewrite (repair_none (slot n) m rx rep r (slot <$> class span (n + Z.of_nat m) ents)); [|done| |].
    2: { rewrite Hsp, Hen. apply sum_slots_class; [apply slot_slot|lia|done]. }
    2: { intros k (j & -> & Hj)%list_elem_of_fmap. apply class_bounds in Hj as [Hjb [q Hq]]; [|lia].
         assert (1 <= q) by nia. destruct (rs_there _ _ Hrs j) as (r' & ? & Hh); [lia|lia|left; unfold lo; nia|].
         exists r'. split; [done|apply Hh]. }
    cbn [mbind got_bind]. destruct (IH (S m) rx rep r) as (rx2 & rep2 & Hfold & Hrs2 & Hf2 & Hrep2);
      [done|lia| |done|done|].
    { replace (Z.max (n - g) (n - ents + Z.of_nat (S m))) with lo by lia. done. }
    exists rx2, rep2. replace (Z.max (n - g) (n - ents + Z.of_nat (S m))) with lo in Hrep2 by lia. done.
Qed.

Lemma fold_got_id {A B} (g : B -> A -> got A) l a : (forall b, b ∈ l -> g b a = Got a) -> fold_got g l a = Got a.
Proof.
  intros Hg. induction l as [|b l IH]; [done|]. cbn [fold_got]. rewrite Hg by by left. cbn [mbind got_bind].
  apply IH. intros b' Hb'. apply Hg. by right.
Qed.

(** The sums of a slot go back [b] messages at most. *)
Definition sums_back (b : Z) (r : rx_slot) : Prop :=
  0 < default 0 (fec_len r !! 0%nat) -> 0 <= fec_span r /\ 0 <= fec_entries r /\ fec_span r * fec_entries r <= b.

(** The sums of an older packet, when nothing is missing any more. *)
Lemma repair_old rx rep j r :
  ring_state n rx -> rx !! slot j = Some r -> sums_back (Z.min j (j - (n - 15))) r -> j <= n ->
  repair_slot (slot j) (rx, rep) = Got (rx, rep).
Proof.
  intros Hrs Hr Hold Hj. unfold repair_slot. cbn [fst]. rewrite Hr. cbn [in_bounds mbind got_bind].
  destruct (Z.leb_spec (default 0 (fec_len r !! 0%nat)) 0) as [|Hpos]; [done|].
  destruct (Hold Hpos) as (Hs & He & Hb). apply fold_got_id. intros m Hm%elem_of_seq.
  rewrite <- (Z2Nat.id (fec_span r)) in Hb by done.
  apply (repair_none _ _ _ _ r (slot <$> class (Z.to_nat (fec_span r)) (j + Z.of_nat m) (fec_entries r))); [done| |].
  - rewrite <- (Z2Nat.id (fec_span r)) at 1 by done. apply sum_slots_class; [apply slot_slot|lia|lia].
  - intros k (i & -> & Hi)%list_elem_of_fmap. apply class_bounds in Hi as [Hi _]; [|lia].
    destruct (rs_there _ _ Hrs i) as (r' & ? & Hh); [lia|lia|left; lia|]. exists r'. split; [done|apply Hh].
Qed.

Lemma back_slots_first :
  1 <= ents -> back_slots n (Z.of_nat span) ents =
  slot n :: ((fun i => slot (n - Z.of_nat i)) <$> seq 1 (Z.to_nat (15 - Z.of_nat span * ents))).
Proof.
  intros He. unfold back_slots. rewrite Z.mod_small by nia.
  replace (Z.to_nat (16 - Z.of_nat span * ents)) with (S (Z.to_nat (15 - Z.of_nat span * ents))) by lia.
  cbn [seq]. rewrite fmap_cons. by rewrite Z.sub_0_r.
Qed.

(** All the work on a packet with sums. *)
Lemma repair_slots g rx r :
  1 <= ents -> 0 <= g <= ents -> ring_state (n - g) rx -> rx !! slot n = Some r -> packet_slot r ->
  0 < default 0 (fec_len r !! 0%nat) ->
  (forall j, n - 15 + Z.of_nat span * ents <= j < n ->
     exists r, rx !! slot j = Some r /\ sums_back (Z.min j (Z.of_nat span * ents)) r) ->
  exists rx' rep', fold_got repair_slot (back_slots n (Z.of_nat span) ents) (rx, [slot n]) = Got (rx', rep') /\
    ring_state n rx' /\ Forall2 same_fec rx rx' /\
    (forall k, k ∈ rep' <-> k = slot n \/ exists j, n - g <= j < n /\ k = slot j).
Proof.
  intros He Hg Hrs Hr Hp Hl0 Hold. rewrite back_slots_first by done. cbn [fold_got].
  destruct (repair_all g (Z.to_nat ents) 0 rx [slot n] r) as (rx' & rep' & Hall & Hrs' & Hf & Hrep);
    [done|lia|by replace (Z.max (n - g) (n - ents + Z.of_nat 0)) with (n - g) by lia|done|done|].
  assert (repair_slot (slot n) (rx, [slot n]) = Got (rx', rep')) as ->.
  { unfold repair_slot. cbn [fst]. rewrite Hr. cbn [in_bounds mbind got_bind].
    rewrite (proj2 (Z.leb_gt _ _)) by done. destruct Hp as (_ & -> & _). done. }
  cbn [mbind got_bind]. exists rx', rep'. split_and!; [|done|done|].
  - apply fold_got_id. intros k (i & -> & Hi%elem_of_seq)%list_elem_of_fmap.
    destruct (Hold (n - Z.of_nat i)) as (r1 & Hr1 & Hb1); [lia|].
    destruct (same_fec_lookup _ _ _ _ Hf Hr1) as (r2 & Hr2 & El & _ & Es & Ee).
    apply (repair_old _ _ _ r2); [done|done| |lia].
    unfold sums_back in *. rewrite El, Es, Ee. intros Hpos. destruct (Hb1 Hpos) as (? & ? & ?). split_and!; lia.
  - intros k. rewrite Hrep, list_elem_of_singleton.
    replace (Z.max (n - g) (n - ents + Z.of_nat 0)) with (n - g) by lia. done.
Qed.

End repairing.

(** The frame of a repaired message. *)
Definition repaired_frame (rx : list rx_slot) (j : Z) : t38_frame :=
  {| f_seq_no := j; f_datalen := default 0 (rx_len <$> rx !! slot j); f_data := InRx (slot j) |}.

Lemma omap_all {A B} (p : A -> option B) (q : A -> B) (l : list A) :
  (forall x, x ∈ l -> p x = Some (q x)) -> omap p l = q <$> l.
Proof.
  intros Hp. induction l as [|x l IH]; [done|]. cbn. rewrite Hp by by left. f_equal.
  apply IH. intros y Hy. apply Hp. by right.
Qed.

Lemma omap_none {A B} (p : A -> option B) (l : list A) : (forall x, x ∈ l -> p x = None) -> omap p l = [].
Proof.
  intros Hp. induction l as [|x l IH]; [done|]. cbn. rewrite Hp by by left.
  apply IH. intros y Hy. apply Hp. by right.
Qed.

(** They come in the order of their numbers. *)
Lemma repaired_in_order rx rep n (g : nat) :
  (g <= 15)%nat -> (forall k, k ∈ rep <-> k = slot n \/ exists j, n - Z.of_nat g <= j < n /\ k = slot j) ->
  repaired_frames rx rep n = repaired_frame rx <$> seqZ (n - Z.of_nat g) (Z.of_nat g).
Proof.
  intros Hg Hrep. unfold repaired_frames.
  assert (seq 0 15 = seq 0 (15 - g) ++ seq (15 - g) g) as ->.
  { rewrite <- seq_app. f_equal. lia. }
  assert (forall i : nat, slot (n + 1 + Z.of_nat i) = slot (n - 15 + Z.of_nat i)) as Es.
  { intros i. apply slot_eq. replace (n + 1 + Z.of_nat i) with (n - 15 + Z.of_nat i + 1 * 16) by lia.
    by rewrite Z.mod_add. }
  rewrite omap_app, omap_none.
  2: { intros i Hi%elem_of_seq. rewrite bool_decide_eq_false_2; [done|]. rewrite Hrep, Es.
       intros [E|(j & Hj & E)]; apply slot_near in E; lia. }
  rewrite (omap_all _ (fun i => repaired_frame rx (n - 15 + Z.of_nat i))).
  2: { intros i Hi%elem_of_seq. rewrite bool_decide_eq_true_2, Es; [done|]. rewrite Hrep, Es. right.
       eexists. split; [|done]. lia. }
  unfold seqZ. rewrite Nat2Z.id, <- list_fmap_compose, <- (Nat.add_0_r (15 - g)), <- fmap_add_seq, <- list_fmap_compose.
  cbn [app]. apply list_fmap_ext. intros i x _. unfold compose. f_equal. lia.
Qed.

(** ** The receiver of a packet with sums *)

Lemma miss_other c seq rx j :
  seq + Z.of_nat c - 16 <= j < seq -> miss c seq rx !! slot j = rx !! slot j.
Proof.
  revert seq rx. induction c as [|c IH]; intros seq rx Hj; [done|]. cbn [miss]. rewrite IH by lia.
  apply list_lookup_alter_ne. intros E. apply slot_near in E; lia.
Qed.

Lemma miss_missed c seq rx j :
  (c <= 16)%nat -> seq <= j < seq + Z.of_nat c -> miss c seq rx !! slot j = missed <$> rx !! slot j.
Proof.
  revert seq rx. induction c as [|c IH]; intros seq rx Hc Hj; [lia|]. cbn [miss].
  destruct (decide (j = seq)) as [->|].
  - rewrite miss_other by lia. apply list_lookup_alter_eq.
  - rewrite IH by lia. rewrite list_lookup_alter_ne; [done|]. intros E. apply slot_near in E; lia.
Qed.

Lemma shape_missed r : rx_shape r -> rx_shape (missed r).
Proof. intros [? ? ? ?]. split; [done|cbn; by rewrite length_insert|done|done]. Qed.

Lemma miss_shape c seq rx : Forall rx_shape rx -> Forall rx_shape (miss c seq rx) /\ length (miss c seq rx) = length rx.
Proof.
  revert seq rx. induction c as [|c IH]; intros seq rx Hf; [done|]. cbn [miss].
  destruct (IH (seq + 1) (alter missed (slot seq) rx)) as [H1 H2].
  - apply Forall_alter; [done|]. intros x _. apply shape_missed.
  - split; [done|]. by rewrite H2, length_alter.
Qed.

(** The slot of a packet, with its message and sums. *)
Definition filled (q : rx_slot) (m : list Z) (sp en : Z) (lens : list Z) (fecs : list (list Z)) : rx_slot :=
  {| rx_len := len_of m; rx_buf := m ++ drop (length m) (rx_buf q); fec_len := lens; fec := fecs;
     fec_span := sp; fec_entries := en |}.

Lemma rx_fec_stores s n m sp en sums post a q :
  let P := head_bytes n m ++ [0x80; 1; sp; en] ++ concat (open_bytes <$> sums) in
  raw s = P ++ post -> 0 <= n < 65536 -> message_ok 400 m -> Forall (message_ok 400) sums ->
  (length sums <= MAX_FEC_ENTRIES)%nat -> en = len_of sums ->
  rx_seq_no s = a -> a <= n -> miss (Z.to_nat (n - a)) a (rx s) !! slot n = Some q -> rx_shape q ->
  exists lens fecs s0, let q' := filled q m sp en lens fecs in
    rx_shape q' /\ (forall k x, sums !! k = Some x -> has_sum q' k x) /\
    load s (primary m) (len_of m) = Got m /\
    udptl_rx_packet s (len_of P) =
      (('(rx', repaired) ← fold_got repair_slot (back_slots n sp en)
          (<[slot n := q']> (miss (Z.to_nat (n - a)) a (rx s)), [slot n]);
        accept (s <| rx := rx' |> <| rx_seq_no := n |>) (repaired_frames rx' repaired n) n (primary m) (len_of m)), s0).
Proof.
  intros P Hraw Hn [Hne HmL] Hsums H4 Hen Ha Han Hq Hqs.
  set (body := concat (open_bytes <$> sums)) in *.
  assert (len_of P = len_of (head_bytes n m) + 4 + len_of body) as HlP
    by (unfold P; rewrite !length_app; cbn [length]; lia).
  destruct (rx_head s n m 0x80 (1 :: sp :: en :: body ++ post) (len_of P)) as [Hload Hrx];
    [rewrite Hraw; unfold P; by rewrite <- !app_assoc|done|split; [done|lia]|lia|].
  set (s1 := s <| rx := miss (Z.to_nat (n - a)) a (rx s) |> <| rx_seq_no := n |>).
  set (q0 := filled q m sp en (fec_len q) (fec q)).
  assert (len_of (m ++ drop (length m) (rx_buf q)) = LOCAL_FAX_MAX_DATAGRAM) as Hbuf.
  { pose proof (shape_buf q Hqs) as Hb. unfold LOCAL_FAX_MAX_DATAGRAM in *. rewrite length_app, length_drop. lia. }
  assert (rx_shape q0) as Hq0 by (destruct Hqs; split; done).
  set (pre := head_bytes n m ++ [0x80; 1; sp; en]).
  assert (P = pre ++ body) as HP by (unfold P, pre; by rewrite <- app_assoc).
  destruct (read_fec_ok s1 sums post (len_of P) pre 0 q0) as (lens & fecs & Hrd & Hsh & _ & Hs);
    [change (raw s1) with (raw s); rewrite Hraw, HP; by rewrite <- app_assoc|done|done|rewrite HP; done|done|].
  exists lens, fecs. eexists. split; [exact Hsh|]. split; [exact Hs|]. split; [done|].
  rewrite Hrx. cbn [Z.land Pos.land Z.eqb]. unfold rx_fec. unfold LOCAL_FAX_MAX_DATAGRAM at 1.
  rewrite (proj2 (Z.ltb_ge 400 _)) by lia. rewrite Ha, (Z.max_r a n) by done. fold s1.
  change (rx s1) with (miss (Z.to_nat (n - a)) a (rx s)). rewrite Hq. cbn [in_bounds mbind got_bind].
  change (load s1 (primary m)) with (load s (primary m)). rewrite Hload. cbn [mbind got_bind].
  pose proof (shape_buf q Hqs) as Hqb. unfold LOCAL_FAX_MAX_DATAGRAM in Hqb.
  rewrite overlay_ok by lia. cbn [mbind got_bind].
  change (raw s1) with (raw s).
  rewrite !(proj2 (Z.ltb_ge (len_of P) _)) by lia.
  assert (forall d b t, raw s = (head_bytes n m ++ d) ++ b :: t ->
            byte_at (raw s) (len_of (head_bytes n m) + len_of d) = Got b) as Hat.
  { intros d b t ->. apply byte_at_app. rewrite length_app. lia. }
  assert (raw s = head_bytes n m ++ 128 :: 1 :: sp :: en :: body ++ post) as Hr
    by (rewrite Hraw; unfold P; by rewrite <- !app_assoc).
  pose proof (Hat [128] 1 (sp :: en :: body ++ post)) as H1. rewrite <- app_assoc in H1. specialize (H1 Hr).
  pose proof (Hat [128; 1] sp (en :: body ++ post)) as H2. rewrite <- app_assoc in H2. specialize (H2 Hr).
  pose proof (Hat [128; 1; sp] en (body ++ post)) as H3. rewrite <- app_assoc in H3. specialize (H3 Hr).
  cbn [length] in H1, H2, H3.
  replace (len_of (head_bytes n m) + Z.of_nat 2) with (len_of (head_bytes n m) + 1 + 1) in H2 by lia.
  replace (len_of (head_bytes n m) + Z.of_nat 3) with (len_of (head_bytes n m) + 1 + 2) in H3 by lia.
  change (Z.of_nat 1) with 1 in H1. rewrite H1. cbn [mbind got_bind Z.eqb Pos.eqb negb]. rewrite H2, H3.
  assert (len_of (head_bytes n m) + 1 + 3 = len_of pre) as -> by (unfold pre; rewrite length_app; cbn [length]; lia).
  rewrite Hen at 1. rewrite Nat2Z.id.
  match goal with |- context [read_fec (length sums) 0 s1 (len_of P) (len_of pre) ?t] =>
    change t with q0 end.
  rewrite Hrd. cbn [mbind got_bind]. fold body. rewrite HP, Z.eqb_refl. cbn [negb]. reflexivity.
Qed.

(** How far the sums of packet [j] go back. *)
Definition protects (span ents j : Z) : Z := span * sums_entries span ents j.

Lemma protects_le span ents j : 1 <= span -> protects span ents j <= j.
Proof.
  intros Hs. unfold protects, sums_entries. destruct (Z.ltb_spec j (span * ents)); [|lia].
  pose proof (Z.mul_div_le j span). lia.
Qed.

Lemma protects_mono span ents i j : 1 <= span -> i <= j -> protects span ents i <= protects span ents j.
Proof.
  intros Hs Hij. unfold protects, sums_entries. apply Z.mul_le_mono_nonneg_l; [lia|].
  destruct (Z.ltb_spec i (span * ents)), (Z.ltb_spec j (span * ents)); [|apply Z.div_le_upper_bound; lia|lia|lia].
  apply Z.div_le_mono; lia.
Qed.

(** The receiver when [a] is the number it expects. *)
Record recv_ok (span ents : Z) (H : list (list Z)) (a : Z) (r : cw_udptl) : Prop := {
  recv_raw : len_of (raw r) = 8192;
  recv_f : length (f r) = 16%nat;
  recv_seq : rx_seq_no r = a;
  recv_len : length (rx r) = 16%nat;
  recv_shape : Forall rx_shape (rx r);
  recv_slots : forall j, a - 16 <= j < a -> exists q, rx r !! slot j = Some q /\
    sums_back (protects span ents j) q /\ (0 <= j -> holds_rx q (msg_at H j));
}.

Lemma msg_at_app H m j : 0 <= j < len_of H -> msg_at (H ++ [m]) j = msg_at H j.
Proof. intros Hj. unfold msg_at. apply app_nth1. lia. Qed.

Lemma msg_at_last H m : msg_at (H ++ [m]) (len_of H) = m.
Proof. unfold msg_at. rewrite app_nth2 by lia. replace (_ - _)%nat with O by lia. done. Qed.

Lemma sum_at_app H m (span : nat) ents (k : nat) :
  Z.of_nat k < ents -> Z.of_nat span * ents <= len_of H ->
  sum_at (H ++ [m]) (len_of H) span ents k = sum_at H (len_of H) span ents k.
Proof.
  intros Hk Hs. unfold sum_at. f_equal. apply list_fmap_ext. intros i j Hj%list_elem_of_lookup_2.
  apply class_bounds in Hj as [Hj _]; [|done]. apply msg_at_app. lia.
Qed.

Lemma recv_more span ents H m a r : recv_ok span ents H a r -> a <= len_of H -> recv_ok span ents (H ++ [m]) a r.
Proof.
  intros [? ? ? ? ? Hsl] Ha. split; [done..|]. intros j Hj. destruct (Hsl j Hj) as (q & ? & ? & Hh).
  exists q. split_and!; [done|done|]. intros Hj0. rewrite msg_at_app by lia. by apply Hh.
Qed.

Section receiving.
Context (span : nat) (ents : Z) (hist : list (list Z)) (m : list Z) (a : Z).
Abbreviation sp := (Z.of_nat span).
Abbreviation n := (len_of hist).
Abbreviation en := (sums_entries sp ents n).
Abbreviation g := (n - a).
Context (Hs1 : (1 <= span)%nat) (He : 1 <= ents <= 4) (H15 : sp * ents <= 15).
Context (Ha : 0 <= a <= n) (Hg : g <= en) (Hmsgs : Forall (message_ok 400) (hist ++ [m])).

Lemma en_bounds : 0 <= en <= 4 /\ sp * en <= 15 /\ sp * en <= n.
Proof. destruct (sums_bounds sp ents n) as ([? ?] & ? & _); [lia..|]. split_and!; [lia|lia|nia|done]. Qed.

(** The ring once the packet is stored: the burst of losses before it is missing,
    everything else is there. *)
Lemma stored_state rx0 q' :
  length rx0 = 16%nat -> Forall rx_shape rx0 ->
  (forall j, a - 16 <= j < a -> exists q, rx0 !! slot j = Some q /\
     sums_back (protects sp ents j) q /\ (0 <= j -> holds_rx q (msg_at hist j))) ->
  rx_shape q' -> holds_rx q' m -> sums_back (protects sp ents n) q' ->
  let rx1 := <[slot n := q']> (miss (Z.to_nat g) a rx0) in
  ring_state (hist ++ [m]) n (n - g) rx1 /\ rx1 !! slot n = Some q' /\
  (forall j, n - 15 <= j <= n -> exists r, rx1 !! slot j = Some r /\ sums_back (protects sp ents j) r).
Proof.
  intros Hl Hsh Hold Hq' Hm' Hb'. pose proof en_bounds as (Hen & _).
  destruct (miss_shape (Z.to_nat g) a rx0 Hsh) as [Hsh1 Hl1].
  assert (forall j, n - 15 <= j < n -> <[slot n := q']> (miss (Z.to_nat g) a rx0) !! slot j =
            if a <=? j then missed <$> rx0 !! slot j else rx0 !! slot j) as Hlk.
  { intros j Hj. rewrite list_lookup_insert_ne by (intros E; apply slot_near in E; lia).
    destruct (Z.leb_spec a j); [apply miss_missed; lia|apply miss_other; lia]. }
  assert (forall j, exists q, rx0 !! slot j = Some q) as Hsome.
  { intros j. apply lookup_lt_is_Some. rewrite Hl. apply slot_lt. }
  assert (<[slot n := q']> (miss (Z.to_nat g) a rx0) !! slot n = Some q') as Hn.
  { apply list_lookup_insert_eq. rewrite Hl1, Hl. apply slot_lt. }
  split_and!; [split|done|].
  - by rewrite length_insert, Hl1.
  - by apply Forall_insert.
  - intros j Hj0 Hj1 [Hj2| -> ]; [|exists q'; split; [done|by rewrite msg_at_last]].
    rewrite Hlk, (proj2 (Z.leb_gt _ _)) by lia. destruct (Hold j) as (q & Hq & _ & Hh); [lia|].
    exists q. split; [done|]. rewrite msg_at_app by lia. by apply Hh.
  - intros j Hj. rewrite Hlk, (proj2 (Z.leb_le _ _)) by lia. destruct (Hsome j) as [q ->].
    exists (missed q). split; [done|]. cbn. lia.
  - intros j Hj. destruct (decide (j = n)) as [->|]; [by exists q'|].
    rewrite Hlk by lia. destruct (Z.leb_spec a j).
    + destruct (Hsome j) as [q Hq]. rewrite Hq. exists (missed q). split; [done|]. intros Hpos. exfalso. revert Hpos.
      cbn. assert (rx_shape q) as [_ Hls _ _] by (eapply Forall_lookup_1 in Hsh; done).
      destruct (fec_len q); [done|]. cbn. lia.
    + destruct (Hold j) as (q & Hq & Hb & _); [lia|]. by exists q.
Qed.

(** The sums of the packet repair the burst. *)
Lemma burst_repaired rx1 q' :
  ring_state (hist ++ [m]) n (n - g) rx1 -> rx1 !! slot n = Some q' ->
  (forall j, n - 15 <= j <= n -> exists r, rx1 !! slot j = Some r /\ sums_back (protects sp ents j) r) ->
  fec_span q' = sums_span sp ents n -> fec_entries q' = en ->
  (forall k x, (sum_at hist n span en <$> seq 0 (Z.to_nat en)) !! k = Some x -> has_sum q' k x) ->
  exists rx' rep', fold_got repair_slot (back_slots n (sums_span sp ents n) en) (rx1, [slot n]) = Got (rx', rep') /\
    ring_state (hist ++ [m]) n n rx' /\ Forall2 same_fec rx1 rx' /\
    (forall k, k ∈ rep' <-> k = slot n \/ exists j, n - g <= j < n /\ k = slot j).
Proof.
  intros Hrs Hq' Hold Hsp Hen Hsums. pose proof en_bounds as (Hen4 & H15' & Hn').
  destruct (decide (en = 0)) as [E|E].
  { assert (g = 0) as Eg by lia. rewrite Eg in *. rewrite Z.sub_0_r in *. exists rx1, [slot n].
    rewrite E. unfold back_slots. rewrite Z.mul_0_r. cbn [Z.sub Z.add Z.opp Z.modulo].
    split_and!; [done|done|by apply Forall_Forall2_diag, Forall_true|].
    intros k. rewrite list_elem_of_singleton. split; [by left|]. intros [?|(j & ? & _)]; [done|lia]. }
  destruct (sums_bounds sp ents n) as (_ & _ & [Hspn|[_ ?]]); [lia..| |done]. rewrite Hspn in *.
  apply Forall_app in Hmsgs as Hh. destruct Hh as [Hh _].
  assert (forall k : nat, Z.of_nat k < en -> message_ok 400 (sum_at hist n span en k)) as Hok
    by (intros k Hk; by apply sum_at_ok).
  assert (packet_slot (hist ++ [m]) n span en q') as Hp.
  { split_and!; [done|done|]. intros k Hk. rewrite sum_at_app by done. apply Hsums.
    rewrite list_lookup_fmap, lookup_seq_lt by lia. done. }
  assert (forall j, 0 <= j < n -> msg_at (hist ++ [m]) j <> []) as Hne.
  { intros j Hj. rewrite msg_at_app by done. by apply (msg_at_ok 400). }
  apply (repair_slots (hist ++ [m]) n span en H15' Hn' Hs1) with (r := q'); try done; try lia.
  - intros k Hk. rewrite sum_at_app by done. by apply Hok.
  - destruct Hp as (_ & _ & Hp). destruct (Hp O) as [-> _]; [lia|]. rewrite sum_at_app by lia.
    destruct (Hok O) as [Hne0 _]; [lia|]. cbn. destruct (sum_at _ _ _ _ _); [done|cbn; lia].
  - intros j Hj. destruct (Hold j) as (r & Hr & Hb); [lia|]. exists r. split; [done|].
    pose proof (protects_le sp ents j ltac:(lia)). pose proof (protects_mono sp ents j n ltac:(lia) ltac:(lia)) as Hmono.
    unfold protects at 2 in Hmono. intros Hpos. destruct (Hb Hpos) as (? & ? & ?). split_and!; lia.
Qed.

(** The slots afterwards. *)
Lemma slots_after rx1 rx' :
  ring_state (hist ++ [m]) n n rx' -> Forall2 same_fec rx1 rx' ->
  (forall j, n - 15 <= j <= n -> exists r, rx1 !! slot j = Some r /\ sums_back (protects sp ents j) r) ->
  forall j, n + 1 - 16 <= j < n + 1 -> exists q, rx' !! slot j = Some q /\
    sums_back (protects sp ents j) q /\ (0 <= j -> holds_rx q (msg_at (hist ++ [m]) j)).
Proof.
  intros Hrs Hsame Hback j Hj. destruct (Hback j) as (r1 & Hr1 & Hb1); [lia|].
  destruct (same_fec_lookup _ _ _ _ Hsame Hr1) as (r2 & Hr2 & El & _ & Es & Ee).
  exists r2. split; [done|]. split; [unfold sums_back; by rewrite El, Es, Ee|].
  intros Hj0. destruct (rs_there _ _ _ _ Hrs j) as (r3 & Hr3 & Hh); [done|lia|lia|]. by simplify_eq.
Qed.

(** The bytes of the messages that were repaired. *)
Lemma repaired_frames_are s rx' l :
  rx s = rx' -> ring_state (hist ++ [m]) n n rx' -> (forall j, j ∈ l -> 0 <= j < n /\ n - 15 <= j) ->
  exists xs, Forall2 padded (msg_at hist <$> l) xs /\
    Forall2 (frame_is s) (repaired_frame rx' <$> l) (zip l xs).
Proof.
  intros Hrx Hrs Hl. induction l as [|j l IH]; [by exists []|].
  destruct IH as (xs & Hxs & Hfs); [intros j' Hj'; apply Hl; by right|].
  destruct (Hl j) as [Hj Hj15]; [by left|].
  destruct (rs_there _ _ _ _ Hrs j) as (r & Hr & Hpos & x & Hp & Hlen & Hx); [lia|lia|left; lia|].
  rewrite msg_at_app in Hp by lia.
  assert (length x <= length (rx_buf r))%nat as Hlx by (rewrite <- Hx, length_take; lia).
  exists (x :: xs). rewrite !fmap_cons. split; [by constructor|]. cbn [zip zip_with]. constructor; [|done].
  split; [done|]. cbn [repaired_frame f_data f_datalen load]. rewrite Hrx, Hr. cbn [in_bounds mbind got_bind fmap option_fmap option_map default from_option].
  rewrite Hlen, <- (take_drop (length x) (rx_buf r)), Hx. by apply (bytes_at_app []).
Qed.

Lemma zip_numbered b (c : nat) : forall xs, length xs = c -> zip (seqZ b (Z.of_nat c)) xs = numbered b xs.
Proof.
  clear. revert b. induction c as [|c IH]; intros b [|x xs] Hl; try done.
  rewrite Nat2Z.inj_succ, seqZ_cons, Z.pred_succ by lia. cbn [zip zip_with numbered]. f_equal.
  replace (Z.succ b) with (b + 1) by lia. apply IH. by injection Hl.
Qed.

Lemma msg_at_drop : msg_at hist <$> seqZ a g = drop (Z.to_nat a) hist.
Proof.
  apply list_eq. intros i. rewrite lookup_drop, list_lookup_fmap.
  destruct (decide (Z.of_nat i < g)).
  - rewrite lookup_seqZ_lt by lia. cbn. destruct (msg_at_ok 400 hist (a + Z.of_nat i)) as [<- _];
      [lia|by apply Forall_app in Hmsgs as [? _]|]. f_equal. lia.
  - rewrite lookup_seqZ_ge by lia. symmetry. apply lookup_ge_None_2. lia.
Qed.

Lemma read_fec_packet r :
  recv_ok sp ents hist a r -> n < 65536 -> len_of (fec_bytes sp ents hist m) <= LOCAL_FAX_MAX_DATAGRAM ->
  exists fs r' xs, cw_udptl_read r (fec_bytes sp ents hist m) = Got (fs, r') /\
    Forall2 padded (drop (Z.to_nat a) hist) xs /\ delivered r' fs = Got (numbered a (xs ++ [m])) /\
    recv_ok sp ents (hist ++ [m]) (n + 1) r'.
Proof.
  intros [Hraw Hf Hseq Hl Hsh Hslots] Hn HP. pose proof en_bounds as (Hen4 & H15' & Hn').
  set (P := fec_bytes _ _ _ _) in *. unfold LOCAL_FAX_MAX_DATAGRAM in HP.
  unfold cw_udptl_read. rewrite overlay_ok by lia. cbn [mbind got_bind].
  set (s := r <| raw := P ++ drop (length P) (raw r) |>).
  set (sums := sum_at hist n span en <$> seq 0 (Z.to_nat en)).
  apply Forall_app in Hmsgs as Hmm. destruct Hmm as [Hh [Hm _]%Forall_cons].
  assert (length sums = Z.to_nat en) as Hlsums by (unfold sums; by rewrite length_fmap, length_seq).
  destruct (miss_shape (Z.to_nat g) a (rx r) Hsh) as [Hsh1 Hl1].
  assert (is_Some (miss (Z.to_nat g) a (rx r) !! slot n)) as [q Hq].
  { apply lookup_lt_is_Some. rewrite Hl1, Hl. apply slot_lt. }
  destruct (rx_fec_stores s n m (sums_span sp ents n) en sums (drop (length P) (raw r)) a q)
    as (lens & fecs & s0 & Hq' & Hsums & Hprim & Hrx); try done; try lia.
  { unfold sums, P, fec_bytes. change (raw s) with (P ++ drop (length P) (raw r)). unfold P, fec_bytes. by rewrite Nat2Z.id. }
  { apply Forall_fmap, Forall_forall. intros k Hk%elem_of_seq. cbn. apply sum_at_ok; [done|done|lia|done]. }
  { unfold MAX_FEC_ENTRIES. lia. }
  { eapply Forall_lookup_1 in Hsh1; done. }
  set (q' := filled q m (sums_span sp ents n) en lens fecs) in *.
  assert (holds_rx q' m) as Hqm.
  { destruct Hm as [Hne _]. split; [cbn; destruct m; [done|cbn; lia]|]. exists m.
    split; [exists O; by rewrite app_nil_r|]. split; [done|]. cbn. by rewrite take_app_length. }
  assert (sums_back (protects sp ents n) q') as Hqb.
  { intros _. cbn. unfold protects. destruct (sums_bounds sp ents n) as (_ & _ & [->|[-> ->]]); lia. }
  destruct (stored_state (rx r) q' Hl Hsh Hslots Hq' Hqm Hqb) as (Hrs & Hq'n & Hback).
  destruct (burst_repaired _ q' Hrs Hq'n Hback) as (rx' & rep' & Hfold & Hrs' & Hsame & Hrep); [done..|].
  assert (len_of (head_bytes n m ++ [128; 1; sums_span sp ents n; en] ++ concat (open_bytes <$> sums)) = len_of P) as EP
    by (unfold P, fec_bytes, sums; by rewrite Nat2Z.id).
  rewrite EP in Hrx. rewrite Hrx. change (rx s) with (rx r). rewrite Hfold. cbn [mbind got_bind].
  rewrite (repaired_in_order rx' rep' n (Z.to_nat g)); [|lia|by rewrite Z2Nat.id by lia].
  rewrite Z2Nat.id by lia. replace (n - g) with a by lia.
  set (s2 := s <| rx := rx' |> <| rx_seq_no := n |>). unfold accept.
  change (rx_seq_no s2) with n. rewrite Z.leb_refl. set (frs := _ ++ [_]).
  destruct (repaired_frames_are s2 rx' (seqZ a g)) as (xs & Hxs & Hfr); [done|done| |].
  { intros j Hj%elem_of_seqZ. lia. }
  rewrite msg_at_drop in Hxs. assert (length xs = Z.to_nat g) as Hlxs.
  { apply Forall2_length in Hxs. rewrite <- Hxs, length_drop. lia. }
  assert (Forall2 (frame_is s2) frs (numbered a (xs ++ [m]))) as Hfrs.
  { rewrite numbered_app. apply Forall2_app.
    - rewrite <- (zip_numbered a (Z.to_nat g)), Z2Nat.id by (done || lia). done.
    - constructor; [|constructor]. split; [cbn [fst f_seq_no]; lia|done]. }
  assert (length frs = S (Z.to_nat g)) as Hlf.
  { unfold frs. rewrite length_app, length_fmap, length_seqZ. cbn [length]. lia. }
  unfold hand_on. rewrite (proj2 (Nat.ltb_ge _ _)) by lia. cbn [mbind got_bind].
  eexists _, _, xs. split; [reflexivity|]. split; [done|]. split.
  - match goal with |- context [take _ (f ?t)] => change (f t) with ((Some <$> frs) ++ drop (length frs) (f s2)) end.
    rewrite Nat.max_r, take_app_le, take_ge by (rewrite ?length_fmap; lia). apply delivered_ok. exact Hfrs.
  - split.
    + change (len_of (P ++ drop (length P) (raw r)) = 8192). rewrite length_app, length_drop. lia.
    + change (length ((Some <$> frs) ++ drop (length frs) (f r)) = 16%nat).
      rewrite length_app, length_fmap, length_drop. lia.
    + done.
    + apply Hrs'.
    + apply Hrs'.
    + by apply (slots_after _ rx' Hrs' Hsame).
Qed.

End receiving.

(** ** A fax over a channel with bursts of losses *)

(** No packet [n] arrives behind more losses than it has sums; [g] packets were
    lost already. *)
Fixpoint bursts_ok (span ents n g : Z) (l : list (list Z * bool)) : Prop :=
  match l with
  | [] => True
  | (_, true) :: l => g <= sums_entries span ents n /\ bursts_ok span ents (n + 1) 0 l
  | (_, false) :: l => bursts_ok span ents (n + 1) (g + 1) l
  end.

(** The packets up to the last one that arrives. *)
Fixpoint arrived_prefix (l : list (list Z * bool)) : list (list Z * bool) :=
  match l with
  | [] => []
  | (m, arrives) :: l => if arrives || existsb snd l then (m, arrives) :: arrived_prefix l else []
  end.

(** A message that is handed out is that of its packet, or has zeros behind it
    when it was repaired. *)
Definition handed_out (p : list Z * bool) (x : list Z) : Prop := if p.2 then x = p.1 else padded p.1 x.

Definition lost (m : list Z) : list Z * bool := (m, false).

Lemma arrived_prefix_none l : existsb snd l = false -> arrived_prefix l = [].
Proof. destruct l as [|[m []] l]; [done..|]. cbn. by intros ->. Qed.

Lemma length_fec L (span : nat) ents hist m :
  (ents + 1) * (L + 2) + 6 <= LOCAL_FAX_MAX_DATAGRAM -> (1 <= span)%nat -> 1 <= ents ->
  Forall (message_ok L) hist -> message_ok L m ->
  len_of (fec_bytes (Z.of_nat span) ents hist m) <= LOCAL_FAX_MAX_DATAGRAM.
Proof.
  intros HL Hs He Hh Hm. pose proof (length_head L (len_of hist) m Hm) as Hlh.
  assert (0 <= L) by (destruct Hm as [Hne Hle]; destruct m; [done|simpl in Hle; lia]).
  destruct (sums_bounds (Z.of_nat span) ents (len_of hist)) as ([Hn0 Hne] & Hnn & _); [lia..|].
  unfold fec_bytes. rewrite Nat2Z.id. set (en := sums_entries _ _ _) in *.
  assert (forall c i, Z.of_nat (i + c) <= en ->
            len_of (concat (open_bytes <$> (sum_at hist (len_of hist) span en <$> seq i c))) <= Z.of_nat c * (L + 2)) as Hc.
  { induction c as [|c IH]; intros i Hi; [done|]. cbn [seq]. rewrite !fmap_cons. cbn [concat].
    rewrite length_app. specialize (IH (S i) ltac:(lia)).
    pose proof (length_open L _ (sum_at_ok L hist span en i Hh Hs ltac:(lia) Hnn)). lia. }
  specialize (Hc (Z.to_nat en) 0%nat ltac:(lia)).
  assert (Z.of_nat (Z.to_nat en) * (L + 2) <= ents * (L + 2)) by (apply Z.mul_le_mono_nonneg_r; lia).
  rewrite !length_app. cbn [length]. lia.
Qed.

Lemma write_fec L (span : nat) ents hist s m :
  1 <= ents <= 15 -> (1 <= span)%nat -> Z.of_nat span * ents <= 15 ->
  (ents + 1) * (L + 2) + 6 <= LOCAL_FAX_MAX_DATAGRAM ->
  sender_ok UDPTL_ERROR_CORRECTION_FEC ents hist s -> error_correction_span s = Z.of_nat span ->
  Forall (message_ok L) hist -> message_ok L m -> len_of hist < 65536 ->
  exists s', cw_udptl_write true true true s m 1 = (Got [fec_bytes (Z.of_nat span) ents hist m], s') /\
    sender_ok UDPTL_ERROR_CORRECTION_FEC ents (hist ++ [m]) s' /\ error_correction_span s' = Z.of_nat span.
Proof.
  intros He Hs H15 HL [Hsch Hen Hq Hr] Hsp Hh Hm Hn. assert (0 <= ents <= 15) as He' by lia.
  destruct (build_step L ents He' HL hist s m Hq Hr Hm Hn) as (s1 & Hs1 & Hr1 & Hb).
  exists (s1 <| tx_seq_no := len_of (hist ++ [m]) |>). split; [|split; [|by rewrite Hs1]].
  - unfold cw_udptl_write. destruct m as [|b m]; [by destruct Hm|]. cbn [negb orb length Nat.eqb].
    rewrite (Hb (fec_bytes (Z.of_nat span) ents hist (b :: m))); [done|].
    apply (recovery_fec L ents He' HL); try done; try lia; by rewrite Hs1.
  - split; [by rewrite Hs1..|done|done].
Qed.

Lemma fax_fec L (span : nat) ents l : forall hist s r a,
  1 <= ents <= 4 -> (1 <= span)%nat -> Z.of_nat span * ents <= 15 ->
  (ents + 1) * (L + 2) + 6 <= LOCAL_FAX_MAX_DATAGRAM ->
  sender_ok UDPTL_ERROR_CORRECTION_FEC ents hist s -> error_correction_span s = Z.of_nat span ->
  recv_ok (Z.of_nat span) ents hist a r -> 0 <= a <= len_of hist ->
  Forall (message_ok L) hist -> Forall (message_ok L) l.*1 -> len_of hist + len_of l <= 65536 ->
  bursts_ok (Z.of_nat span) ents (len_of hist) (len_of hist - a) l ->
  exists ys, fax s r l = Got (numbered a ys) /\
    Forall2 handed_out (if existsb snd l then (lost <$> drop (Z.to_nat a) hist) ++ arrived_prefix l else []) ys.
Proof.
  induction l as [|[m arrives] l IH]; intros hist s r a He Hspan H15 HL Hs Hsp Hr Ha Hh Hl Hn Hg; [by exists []|].
  rewrite fmap_cons in Hl. apply Forall_cons in Hl as [Hm Hl]. cbn [fst] in Hm. cbn [length] in Hn.
  destruct (write_fec L span ents hist s m) as (s' & Hw & Hs' & Hsp'); [lia|done..|lia|].
  cbn [fax]. rewrite Hw. clear Hw.
  assert (Forall (message_ok L) (hist ++ [m])) as Hh' by (apply Forall_app; split; [done|by constructor]).
  assert (len_of (hist ++ [m]) = len_of hist + 1) as Hlen by (rewrite length_app; simpl; lia).
  assert (L <= 400) as HL4.
  { destruct Hm as [Hne Hle]. destruct m; [done|]. cbn [length] in Hle. unfold LOCAL_FAX_MAX_DATAGRAM in HL.
    assert (0 <= ents * (L + 2)) by (apply Z.mul_nonneg_nonneg; lia). lia. }
  assert (Forall (message_ok 400) (hist ++ [m])) as Hh4.
  { eapply Forall_impl; [exact Hh'|]. intros x [? ?]. split; [done|lia]. }
  destruct arrives; cbn [bursts_ok existsb snd orb arrived_prefix] in *.
  - destruct Hg as [Hge Hg].
    destruct (read_fec_packet span ents hist m a Hspan He H15 Ha Hge Hh4 r Hr) as (fs & r' & xs & -> & Hxs & Hd & Hr');
      [lia|apply (length_fec L); done || lia|]. cbn [mbind got_bind]. rewrite Hd. cbn [mbind got_bind].
    destruct (IH (hist ++ [m]) s' r' (len_of hist + 1)) as (ys & -> & Hys); try done; try lia.
    { rewrite Hlen, Z.sub_diag. done. }
    cbn [mbind got_bind]. exists ((xs ++ [m]) ++ ys).
    assert (length xs = (length hist - Z.to_nat a)%nat) as Hlx by (apply Forall2_length in Hxs; rewrite <- Hxs, length_drop; done).
    split.
    + rewrite (numbered_app _ (xs ++ [m])). replace (a + len_of (xs ++ [m])) with (len_of hist + 1); [done|].
      rewrite length_app. cbn [length]. lia.
    + rewrite <- app_assoc. apply Forall2_app.
      * apply Forall2_fmap_l. eapply Forall2_impl; [exact Hxs|]. intros x y Hp. exact Hp.
      * cbn [app]. constructor; [exact eq_refl|]. destruct (existsb snd l) eqn:Hex; [|by rewrite arrived_prefix_none].
        rewrite drop_ge in Hys by lia. done.
  - destruct (IH (hist ++ [m]) s' r a) as (ys & -> & Hys); try done; try lia.
    { apply recv_more; [done|lia]. }
    { rewrite Hlen. by replace (len_of hist + 1 - a) with (len_of hist - a + 1) by lia. }
    exists ys. split; [done|]. destruct (existsb snd l) eqn:Hex; [|done].
    rewrite drop_app_le, fmap_app, <- app_assoc in Hys by lia. done.
Qed.

Lemma recv_new span ents scheme e sp : 1 <= span ->
  recv_ok span ents [] 0 (cw_udptl_new_with_sock_info scheme e sp).
Proof.
  intros Hs. split; [done|done|done|done| |].
  - apply Forall_replicate. split; [done|done|done|]. apply Forall_replicate. done.
  - intros j Hj. exists new_rx_slot. split; [|split; [intros Hpos; cbn in Hpos; lia|lia]].
    apply lookup_replicate_2, slot_lt.
Qed.

(** A sender with [ents] sums of [span] messages in each packet, over a channel
    that never loses more packets in a row than the next one has sums: the receiver
    hands out every message up to the last packet that arrives exactly once and in
    order, those of packets that arrived as they were sent and those of lost ones
    with at most zeros behind them. *)
Theorem fec_recovers L (span : nat) ents scheme' e' span' l :
  1 <= ents <= 4 -> (1 <= span)%nat -> Z.of_nat span * ents <= 15 ->
  (ents + 1) * (L + 2) + 6 <= LOCAL_FAX_MAX_DATAGRAM ->
  Forall (message_ok L) l.*1 -> len_of l <= 65536 -> bursts_ok (Z.of_nat span) ents 0 0 l ->
  exists ys,
    fax (cw_udptl_new_with_sock_info UDPTL_ERROR_CORRECTION_FEC ents (Z.of_nat span))
        (cw_udptl_new_with_sock_info scheme' e' span') l = Got (numbered 0 ys) /\
    Forall2 handed_out (arrived_prefix l) ys.
Proof.
  intros He Hs H15 HL Hl Hn Hb.
  destruct (fax_fec L span ents l [] _ _ 0 He Hs H15 HL (sender_new _ ents (Z.of_nat span)) eq_refl
              (recv_new (Z.of_nat span) ents scheme' e' span' ltac:(lia))) as (ys & Hf & Hys); try done; try lia.
  exists ys. split; [done|]. destruct (existsb snd l) eqn:Hex; [done|by rewrite arrived_prefix_none].
Qed.

(** Two packets are lost in a row, and repaired by the next. *)
Definition burst : list (list Z * bool) :=
  [([1], true); ([2; 2], true); ([3], true); ([4; 4; 4], true); ([5], false); ([6], false); ([7], true)].

Lemma fec_recovers_witness : exists ys,
  fax (cw_udptl_new_with_sock_info UDPTL_ERROR_CORRECTION_FEC 2 3)
      (cw_udptl_new_with_sock_info UDPTL_ERROR_CORRECTION_NONE 0 0) burst = Got (numbered 0 ys) /\
  Forall2 handed_out burst ys.
Proof.
  apply (fec_recovers 3 3 2 UDPTL_ERROR_CORRECTION_NONE 0 0 burst).
  - lia.
  - lia.
  - lia.
  - unfold LOCAL_FAX_MAX_DATAGRAM. lia.
  - repeat constructor; (discriminate || (vm_compute; discriminate)).
  - vm_compute. discriminate.
  - cbn. repeat split; vm_compute; discriminate.
Defined.

(** ** Settings *)

Definition MAX_FEC_SPAN : Z := 4.

Record udptl_settings := {
  udptlfectype : ec_scheme;
  udptlfecentries : Z;
  udptlfecspan : Z;
  udptlmaxdatagram : Z;
  nochecksums : bool;
}.

(** A number of the configuration, kept in its bounds. *)
Definition bounded (n hi : Z) : Z := let n := if n <? 0 then 0 else n in if hi <? n then hi else n.

(** [retrieve] gives the values of section [general] when the file is there. *)
Definition cw_udptl_reload (cfg : option (string -> option string)) (old : udptl_settings) : udptl_settings :=
  let get k := retrieve ← cfg; retrieve k in
  {| udptlfectype :=
       match get "T38FaxUdpEC"%string with
       | Some v => if streq v "t38UDPFEC" then UDPTL_ERROR_CORRECTION_FEC
                   else if streq v "t38UDPRedundancy" then UDPTL_ERROR_CORRECTION_REDUNDANCY
                   else UDPTL_ERROR_CORRECTION_NONE
       | None => UDPTL_ERROR_CORRECTION_NONE
       end;
     udptlfecentries :=
       match get "UDPTLFECentries"%string with
       | Some v => bounded (atoi v) (Z.of_nat MAX_FEC_ENTRIES) | None => 1
       end;
     udptlfecspan :=
       match get "UDPTLFECspan"%string with Some v => bounded (atoi v) MAX_FEC_SPAN | None => 0 end;
     udptlmaxdatagram :=
       match get "T38FaxMaxDatagram"%string with
       | Some v => bounded (atoi v) LOCAL_FAX_MAX_DATAGRAM | None => 0
       end;
     nochecksums :=
       match get "udptlchecksums"%string with Some v => cw_false v | None => nochecksums old end |}.

(** A session with the settings. *)
Definition session (c : udptl_settings) : cw_udptl :=
  cw_udptl_new_with_sock_info (udptlfectype c) (udptlfecentries c) (udptlfecspan c).

Lemma bounded_bounds n hi : 0 <= hi -> 0 <= bounded n hi <= hi.
Proof. intros Hh. unfold bounded. destruct (Z.ltb_spec n 0), (Z.ltb_spec hi 0), (Z.ltb_spec hi n); lia. Qed.

Lemma settings_bounds cfg old :
  let c := cw_udptl_reload cfg old in
  0 <= udptlfecentries c <= 4 /\ 0 <= udptlfecspan c <= 4 /\ 0 <= udptlmaxdatagram c <= LOCAL_FAX_MAX_DATAGRAM.
Proof.
  unfold cw_udptl_reload. cbn [udptlfecentries udptlfecspan udptlmaxdatagram].
  split_and!; match goal with |- context [match ?x with _ => _ end] => destruct x end;
    unfold LOCAL_FAX_MAX_DATAGRAM; try (by apply bounded_bounds); lia.
Qed.

(** C9: whatever the configuration says, a session of at most 65536 messages, short
    enough for a datagram, that has sums repairs the losses its packets can, unless
    four sums of four messages are asked for.  (Where the 16-bit numbers start again
    a message is lost: [Udptl.number_wrap_loses].) *)
Theorem configured_fec_recovers cfg old L receiver l :
  let c := cw_udptl_reload cfg old in
  udptlfectype c = UDPTL_ERROR_CORRECTION_FEC -> 1 <= udptlfecentries c -> 1 <= udptlfecspan c ->
  (udptlfecentries c, udptlfecspan c) <> (4, 4) ->
  (udptlfecentries c + 1) * (L + 2) + 6 <= LOCAL_FAX_MAX_DATAGRAM ->
  Forall (message_ok L) l.*1 -> len_of l <= 65536 -> bursts_ok (udptlfecspan c) (udptlfecentries c) 0 0 l ->
  exists ys, fax (session c) (session receiver) l = Got (numbered 0 ys) /\ Forall2 handed_out (arrived_prefix l) ys.
Proof.
  intros c Ht He Hs Hne HL Hl Hn Hb. destruct (settings_bounds cfg old) as ([_ He4] & [_ Hs4] & _). fold c in He4, Hs4.
  assert (udptlfecspan c * udptlfecentries c <= 15) as H15.
  { assert (udptlfecentries c <= 3 \/ udptlfecspan c <= 3) as [|]; [|nia..].
    destruct (Z.le_gt_cases (udptlfecentries c) 3); [by left|]. destruct (Z.le_gt_cases (udptlfecspan c) 3); [by right|].
    destruct Hne. f_equal; lia. }
  unfold session at 1. rewrite Ht. rewrite <- (Z2Nat.id (udptlfecspan c)) in * by lia.
  apply (fec_recovers L); try done; lia.
Qed.

(** The values of the sample configuration. *)
Definition sample_conf (k : string) : option string :=
  if streq k "T38FaxUdpEC" then Some "t38UDPFEC"%string
  else if streq k "T38FaxMaxDatagram" then Some "400"%string
  else if streq k "UDPTLFECentries" then Some "2"%string
  else if streq k "UDPTLFECspan" then Some "3"%string else None.

Definition no_settings : udptl_settings :=
  {| udptlfectype := UDPTL_ERROR_CORRECTION_NONE; udptlfecentries := 0; udptlfecspan := 0;
     udptlmaxdatagram := 0; nochecksums := false |}.

Lemma configured_fec_recovers_witness : exists ys,
  fax (session (cw_udptl_reload (Some sample_conf) no_settings)) (session no_settings) burst =
    Got (numbered 0 ys) /\ Forall2 handed_out burst ys.
Proof.
  apply (configured_fec_recovers (Some sample_conf) no_settings 3 no_settings burst).
  - vm_compute. reflexivity.
  - vm_compute. discriminate.
  - vm_compute. discriminate.
  - vm_compute. discriminate.
  - vm_compute. discriminate.
  - repeat constructor; (discriminate || (vm_compute; discriminate)).
  - vm_compute. discriminate.
  - cbn. repeat split; vm_compute; discriminate.
Defined.

(** With four sums of four messages, the most that can be configured, nothing is
    summed up: the message of a single lost packet does not come. *)
Example widest_sums_protect_nothing :
  let c := {| udptlfectype := UDPTL_ERROR_CORRECTION_FEC; udptlfecentries := 4; udptlfecspan := 4;
              udptlmaxdatagram := 0; nochecksums := false |} in
  (out ← fax (session c) (session c) (replicate 17 ([1], true) ++ [([2], false); ([3], true)]); Got (drop 17 out)) =
  Got [(18, [3])].
Proof. vm_compute. reflexivity. Qed.
