(* ===== verification/Device.v ===== *)
(** * Channels by name and the state of devices (corelib/channel.c, corelib/devicestate.c)

    The list of channels is searched with retries, since a channel is only
    handed out locked; the list at each attempt and the outcome of trying a lock
    are arguments.  The state of a device is asked of its channel driver, or
    guessed from the channels.  Changes of device states are queued and handled
    by a thread of their own: the interleavings of the thread with the callers
    that queue changes are a step relation. *)

From S2P Require Import Prelude CStr.

(** ** Channels *)

(** [chan_id] is the address of a channel. *)
Record chan := {
  chan_id : Z;
  chan_name : string;
  chan_state : Z;
  chan_context : string;
  chan_proc_context : string;
  chan_exten : string;
  chan_proc_exten : string;
}.

(** [strncasecmp(s, t, n) == 0] *)
Fixpoint strncaseeq (n : nat) (s t : string) : bool :=
  match n with
  | O => true
  | S n =>
    match s, t with
    | EmptyString, EmptyString => true
    | String c s, String d t => char_eqb (tolower c) (tolower d) && strncaseeq n s t
    | _, _ => false
    end
  end.

(** The test of the search from the head of the list. *)
Definition chan_wanted (name : option string) (namelen : nat) (context exten : option string)
    (c : chan) : bool :=
  match name, exten with
  | None, None => true
  | Some name, _ =>
    match namelen with
    | O => strcaseeq (chan_name c) name
    | _ => strncaseeq namelen (chan_name c) name
    end
  | None, Some exten =>
    match context with
    | Some context => strcaseeq (chan_context c) context || strcaseeq (chan_proc_context c) context
    | None => true
    end
    && (strcaseeq (chan_exten c) exten || strcaseeq (chan_proc_exten c) exten)
  end.

(** One walk over the list. *)
Fixpoint chan_walk (prev : option Z) (name : option string) (namelen : nat)
    (context exten : option string) (l : list chan) : option chan :=
  match l with
  | [] => None
  | c :: l =>
    match prev with
    | None => if chan_wanted name namelen context exten c then Some c
              else chan_walk prev name namelen context exten l
    | Some p => if chan_id c =? p then head l else chan_walk prev name namelen context exten l
    end
  end.

(** The attempts that are left; [channels] and [trylock] give the list and the
    outcome of the lock at the attempt numbered by what is left. *)
Fixpoint find_attempts (retries : nat) (channels : nat -> list chan) (trylock : nat -> chan -> bool)
    (prev : option Z) (name : option string) (namelen : nat) (context exten : option string)
    : option chan :=
  match retries with
  | O => None
  | S retries' =>
    match chan_walk prev name namelen context exten (channels retries) with
    | None => None
    | Some c =>
      if trylock retries c then Some c
      else find_attempts retries' channels trylock prev name namelen context exten
    end
  end.

Definition channel_find_locked := find_attempts 10.

Section channels.
Context (channels : nat -> list chan) (trylock : nat -> chan -> bool).

Definition cw_channel_walk_locked (prev : option Z) : option chan :=
  channel_find_locked channels trylock prev None 0 None None.

Definition cw_get_channel_by_name_locked (name : string) : option chan :=
  channel_find_locked channels trylock None (Some name) 0 None None.

Definition cw_get_channel_by_name_prefix_locked (name : string) (namelen : nat) : option chan :=
  channel_find_locked channels trylock None (Some name) namelen None None.

Definition cw_walk_channel_by_name_prefix_locked (prev : option Z) (name : string) (namelen : nat)
    : option chan :=
  channel_find_locked channels trylock prev (Some name) namelen None None.

Definition cw_get_channel_by_exten_locked (exten : string) (context : option string) : option chan :=
  channel_find_locked channels trylock None None 0 context (Some exten).

(** ** Device states *)

Definition CW_CHANNEL_NAME : nat := 80.
Definition CW_STATE_RINGING : Z := 5.

Definition CW_DEVICE_UNKNOWN : Z := 0.
Definition CW_DEVICE_NOT_INUSE : Z := 1.
Definition CW_DEVICE_INUSE : Z := 2.
Definition CW_DEVICE_BUSY : Z := 3.
Definition CW_DEVICE_INVALID : Z := 4.
Definition CW_DEVICE_UNAVAILABLE : Z := 5.
Definition CW_DEVICE_RINGING : Z := 6.

Definition devstatestring : list string :=
  ["Unknown"; "Not in use"; "In use"; "Busy"; "Invalid"; "Unavailable"; "Ringing"].

(** [None] is a read outside of the table. *)
Definition devstate2str (devstate : Z) : option string :=
  if devstate <? 0 then None else devstatestring !! Z.to_nat devstate.

(** A channel driver: its type and how it tells the state of a number, NULL
    when the device names none. *)
Record cw_channel_tech := {
  tech_type : string;
  tech_devicestate : option (option string -> Z);
}.

Fixpoint cw_get_channel_tech (backends : list cw_channel_tech) (name : string)
    : option cw_channel_tech :=
  match backends with
  | [] => None
  | t :: l => if strcaseeq name (tech_type t) then Some t else cw_get_channel_tech l name
  end.

Definition cw_parse_device_state (device : string) : Z :=
  let m := (strtake (CW_CHANNEL_NAME - 2) device ++ "-")%string in
  match cw_get_channel_by_name_prefix_locked m (String.length m) with
  | None => CW_DEVICE_UNKNOWN
  | Some c => if chan_state c =? CW_STATE_RINGING then CW_DEVICE_RINGING else CW_DEVICE_INUSE
  end.

Definition cw_device_state (backends : list cw_channel_tech) (device : string) : Z :=
  let '(tech, number) := strcut "/" device in
  match cw_get_channel_tech backends tech with
  | None => CW_DEVICE_INVALID
  | Some t =>
    match tech_devicestate t with
    | None => cw_parse_device_state device
    | Some f =>
      let res := f number in
      if res =? CW_DEVICE_UNKNOWN then
        let res := cw_parse_device_state device in
        if res =? CW_DEVICE_UNKNOWN then CW_DEVICE_NOT_INUSE else res
      else res
    end
  end.

End channels.

(** ** Watchers and the queue of changes *)

(** A callback is its address, and the data it is given. *)
Record devstate_cb := {
  dcb_data : Z;
  dcb_callback : Z;
}.

(** A NULL callback is refused; [alloc] is the outcome of [calloc]. *)
Definition cw_devstate_add (l : list devstate_cb) (alloc : bool) (callback : option Z) (data : Z)
    : Z * list devstate_cb :=
  match callback with
  | None => (-1, l)
  | Some cb =>
    if alloc then (0, {| dcb_data := data; dcb_callback := cb |} :: l) else (-1, l)
  end.

Fixpoint cw_devstate_del (l : list devstate_cb) (callback data : Z) : list devstate_cb :=
  match l with
  | [] => []
  | d :: l =>
    if (dcb_callback d =? callback) && (dcb_data d =? data) then l
    else d :: cw_devstate_del l callback data
  end.

(** The name without what follows the last dash. *)
Fixpoint cut_last (c : ascii) (s : string) : option string :=
  match s with
  | EmptyString => None
  | String d s' =>
    match cut_last c s' with
    | Some r => Some (String d r)
    | None => if char_eqb d c then Some EmptyString else None
    end
  end.

Definition changed_device (buf : string) : string := default buf (cut_last "-" buf).

(** Where the thread is: at the top of its loop, with the lock of the queue;
    working on a change; about to take the lock again, after work or after a
    signal; waiting for the signal. *)
Inductive thread_pc :=
  | AtTop
  | Working (device : string)
  | Relock
  | Waiting.

(** The ghost fields record what was queued and what was handled, by the thread
    and by callers. *)
Record engine := {
  en_queue : list string;
  en_pc : thread_pc;
  en_queued : list string;
  en_handled : list string;
  en_direct : list string;
}.

#[export] Instance engine_eta : Eta engine := fun e =>
  {| en_queue := en_queue e; en_pc := en_pc e; en_queued := en_queued e;
     en_handled := en_handled e; en_direct := en_direct e |}.

(** [__cw_device_state_changed_literal]: the change is handled by the caller
    when there is no thread or no memory ([queueable] is false); else it is put
    at the end of the queue, and the thread is signalled when the queue was
    empty. *)
Definition device_state_changed (queueable : bool) (buf : string) (e : engine) : engine :=
  let device := changed_device buf in
  if negb queueable then e <| en_direct := en_direct e ++ [device] |>
  else
    let signal := match en_queue e with [] => true | _ => false end in
    e <| en_queue := en_queue e ++ [device] |> <| en_queued := en_queued e ++ [device] |>
      <| en_pc := match en_pc e with Waiting => if signal then Relock else Waiting | pc => pc end |>.

(** One step of [do_devstate_changes]; [None] while it waits. *)
Definition thread_step (e : engine) : option engine :=
  match en_pc e with
  | AtTop =>
    match en_queue e with
    | d :: q => Some (e <| en_queue := q |> <| en_pc := Working d |>)
    | [] => Some (e <| en_pc := Waiting |>)
    end
  | Working d => Some (e <| en_handled := en_handled e ++ [d] |> <| en_pc := Relock |>)
  | Relock => Some (e <| en_pc := AtTop |>)
  | Waiting => None
  end.

(** Callers hold the lock of the queue while they change it, so they run only
    when the thread does not hold it; a wait can end without a signal. *)
Inductive engine_step : engine -> engine -> Prop :=
  | step_changed queueable buf e :
    en_pc e <> AtTop -> engine_step e (device_state_changed queueable buf e)
  | step_thread e e' : thread_step e = Some e' -> engine_step e e'
  | step_spurious e : en_pc e = Waiting -> engine_step e (e <| en_pc := Relock |>).

Definition engine_init : engine :=
  {| en_queue := []; en_pc := AtTop; en_queued := []; en_handled := []; en_direct := [] |}.

Definition in_work (e : engine) : list string :=
  match en_pc e with Working d => [d] | _ => [] end.

(** Nothing is lost or reordered, and the thread only sleeps on an empty queue. *)
Record engine_inv (e : engine) : Prop := {
  ei_fifo : en_queued e = en_handled e ++ in_work e ++ en_queue e;
  ei_sleep : en_pc e = Waiting -> en_queue e = [];
}.

Lemma thread_step_inv e e' : engine_inv e -> thread_step e = Some e' -> engine_inv e'.
Proof.
  intros [Hf Hs]. unfold thread_step, in_work in *. destruct (en_pc e) eqn:Ep; try done.
  - destruct (en_queue e) as [|d q] eqn:Eq; intros [= <-]; split; unfold in_work; simpl; try done;
      by rewrite Hf, ?Eq.
  - intros [= <-]. split; unfold in_work; simpl; [|done]. by rewrite Hf, <- app_assoc.
  - intros [= <-]. split; unfold in_work; simpl; [|done]. by rewrite Hf.
Qed.

Lemma changed_inv queueable buf e :
  engine_inv e -> engine_inv (device_state_changed queueable buf e).
Proof.
  intros [Hf Hs]. unfold device_state_changed. destruct queueable; [|by split].
  cbn [negb]. split; unfold in_work in *; simpl.
  - rewrite Hf, <- !app_assoc. destruct (en_pc e); try done. by destruct (en_queue e).
  - destruct (en_pc e); try done. by rewrite Hs.
Qed.

Lemma engine_inv_reach e : rtc engine_step engine_init e -> engine_inv e.
Proof.
  intros H. assert (engine_inv engine_init) as Hi by (split; done). revert Hi.
  induction H as [|e1 e2 e3 H _ IH]; [done|]. intros Hi. apply IH.
  destruct H as [q buf e _|e e' H|e H]; [by apply changed_inv|by eapply thread_step_inv|].
  destruct Hi as [Hf Hs]. unfold in_work in *. rewrite H in Hf. by split.
Qed.

Fixpoint thread_steps (n : nat) (e : engine) : engine :=
  match n with
  | O => e
  | S n => match thread_step e with Some e' => thread_steps n e' | None => e end
  end.

(** How far the thread is from its sleep. *)
Definition distance (e : engine) : nat :=
  (3 * length (en_queue e) +
   match en_pc e with AtTop => 1 | Working _ => 3 | Relock => 2 | Waiting => 0 end)%nat.

Lemma thread_step_distance e :
  engine_inv e ->
  match thread_step e with
  | Some e' => (distance e' < distance e)%nat
  | None => distance e = 0%nat /\ en_pc e = Waiting
  end.
Proof.
  intros [_ Hs]. unfold thread_step, distance. destruct (en_pc e) eqn:Ep; simpl; try lia.
  - destruct (en_queue e); simpl; lia.
  - rewrite Hs by done. done.
Qed.

(** C26: Whatever calls come in between, no change of a device state is lost, and
    the thread handles those that were queued in the order they came: from any
    reachable state the thread, left alone, handles all that is queued and goes
    to sleep, within three steps for each; it never sleeps on a change. *)
Theorem device_changes_handled e :
  rtc engine_step engine_init e ->
  let e' := thread_steps (distance e) e in
  en_pc e' = Waiting /\ en_queue e' = [] /\ en_handled e' = en_queued e /\ en_direct e' = en_direct e.
Proof.
  intros H. apply engine_inv_reach in H. cbv zeta.
  assert (forall n e, engine_inv e -> (distance e <= n)%nat ->
    let e' := thread_steps n e in
    en_pc e' = Waiting /\ engine_inv e' /\ en_queued e' = en_queued e /\ en_direct e' = en_direct e)
    as Hrun.
  { clear. induction n as [|n IH]; intros e Hi Hd; simpl;
      pose proof (thread_step_distance e Hi) as Hs; destruct (thread_step e) as [e'|] eqn:E;
      [lia|by destruct Hs| |by destruct Hs].
    pose proof (thread_step_inv e e' Hi E) as Hi'.
    destruct (IH e' Hi' ltac:(lia)) as (H1 & H2 & H3 & H4).
    assert (en_queued e' = en_queued e /\ en_direct e' = en_direct e) as [Hq Hdi].
    { unfold thread_step in E. destruct (en_pc e); [destruct (en_queue e)|..]; by simplify_eq. }
    by rewrite H3, H4, Hq, Hdi. }
  destruct (Hrun (distance e) e H ltac:(lia)) as (H1 & [Hf Hs] & H3 & H4).
  unfold in_work in Hf. rewrite H1, (Hs H1) in Hf. simpl in Hf. rewrite app_nil_r in Hf.
  split_and!; [done|auto|by rewrite <- H3|done].
Qed.

(** A change comes in while the thread works on another. *)
Lemma device_changes_handled_witness :
  exists e, rtc engine_step engine_init e /\ en_queue e = ["SIP/2"; "Zap/1"]%string /\
    en_handled (thread_steps (distance e) e) = ["SIP/1"; "SIP/2"; "Zap/1"]%string.
Proof.
  pose (e := device_state_changed true "Zap/1-77" (device_state_changed true "SIP/2"
    (thread_steps 2 (device_state_changed true "SIP/1-ab" (thread_steps 1 engine_init))))).
  assert (rtc engine_step engine_init e) as H.
  { eapply rtc_l; [apply step_thread; reflexivity|].
    eapply rtc_l; [apply (step_changed true "SIP/1-ab"); discriminate|].
    eapply rtc_l; [apply step_thread; reflexivity|].
    eapply rtc_l; [apply step_thread; reflexivity|].
    eapply rtc_l; [apply (step_changed true "SIP/2"); discriminate|].
    eapply rtc_l; [apply (step_changed true "Zap/1-77"); discriminate|]. apply rtc_refl. }
  exists e. split; [exact H|]. split; [reflexivity|].
  destruct (device_changes_handled e H) as (_ & _ & E & _). exact E.
Defined.

(** ** Walking the channels *)

Lemma chan_walk_next l name namelen context exten i c :
  NoDup (chan_id <$> l) -> l !! i = Some c ->
  chan_walk (Some (chan_id c)) name namelen context exten l = l !! S i.
Proof.
  revert i. induction l as [|x l IH]; intros i Hn Hi; [done|]. simpl.
  apply NoDup_cons in Hn as [Hx Hn]. destruct i as [|i]; simpl in Hi.
  - injection Hi as ->. rewrite Z.eqb_refl. by destruct l.
  - destruct (Z.eqb_spec (chan_id x) (chan_id c)) as [E|_]; [|by apply IH].
    destruct Hx. rewrite E. apply list_elem_of_fmap. exists c. split; [done|].
    by apply list_elem_of_lookup_2 in Hi.
Qed.

(** One attempt is enough where the lock is free. *)
Lemma find_attempts_free retries l prev name namelen context exten :
  find_attempts (S retries) (fun _ => l) (fun _ _ => true) prev name namelen context exten =
  chan_walk prev name namelen context exten l.
Proof. simpl. by destruct (chan_walk prev name namelen context exten l). Qed.

(** The channels met by walking on from one to the next. *)
Fixpoint walk_all (fuel : nat) (l : list chan) (prev : option Z) : list chan :=
  match fuel with
  | O => []
  | S fuel =>
    match cw_channel_walk_locked (fun _ => l) (fun _ _ => true) prev with
    | None => []
    | Some c => c :: walk_all fuel l (Some (chan_id c))
    end
  end.

Lemma walk_all_from l i c fuel :
  NoDup (chan_id <$> l) -> l !! i = Some c -> (length l <= fuel + S i)%nat ->
  walk_all fuel l (Some (chan_id c)) = drop (S i) l.
Proof.
  intros Hn. revert i c. induction fuel as [|fuel IH]; intros i c Hi Hl; simpl.
  - by rewrite drop_ge.
  - unfold cw_channel_walk_locked, channel_find_locked.
    rewrite find_attempts_free, (chan_walk_next l None 0 None None i c Hn Hi).
    destruct (l !! S i) as [c'|] eqn:E.
    + rewrite (IH (S i) c' E) by lia. symmetry. by apply drop_S.
    + apply lookup_ge_None in E. by rewrite drop_ge.
Qed.

(** Walking the channels from one to the next meets every channel once, in
    the order of the list, when the list stands still and the locks are
    free. *)
Theorem channel_walk_visits_all l :
  NoDup (chan_id <$> l) -> walk_all (S (length l)) l None = l.
Proof.
  intros Hn. cbn [walk_all]. unfold cw_channel_walk_locked, channel_find_locked.
  rewrite find_attempts_free. destruct l as [|c l]; [done|]. cbn [chan_walk chan_wanted].
  rewrite (walk_all_from (c :: l) 0 c); [done|done|done|lia].
Qed.

(** Behind a given channel the walk by name prefix hands out any channel. *)
Lemma prefix_walk_ignores_name channels trylock p name namelen :
  cw_walk_channel_by_name_prefix_locked channels trylock (Some p) name namelen =
  cw_channel_walk_locked channels trylock (Some p).
Proof.
  unfold cw_walk_channel_by_name_prefix_locked, cw_channel_walk_locked, channel_find_locked.
  assert (forall l, chan_walk (Some p) (Some name) namelen None None l =
                    chan_walk (Some p) None 0 None None l) as H.
  { induction l as [|c l IH]; simpl; [done|]. by destruct (chan_id c =? p). }
  generalize 10%nat. intros n. induction n as [|n IH]; simpl; [done|]. rewrite H.
  destruct (chan_walk _ _ _ _ _ _) as [c|]; [|done]. by destruct (trylock (S n) c).
Qed.

Lemma channel_walk_visits_all_witness :
  let c id name := {| chan_id := id; chan_name := name; chan_state := 0; chan_context := "";
                      chan_proc_context := ""; chan_exten := ""; chan_proc_exten := "" |} in
  walk_all 3 [c 1 "SIP/1-a"; c 2 "Zap/1-1"]%string None = [c 1 "SIP/1-a"; c 2 "Zap/1-1"]%string.
Proof.
  intros c. apply (channel_walk_visits_all [c 1 "SIP/1-a"; c 2 "Zap/1-1"]%string).
  apply (bool_decide_unpack _). vm_compute. exact I.
Defined.
