(* ===== verification/Hint.v ===== *)
(** * Hints and their watchers (corelib/pbx.c)

    A hint ties an extension of priority [PRIORITY_HINT] to the devices its
    application names; watchers are told when the state of the devices changes.
    A hint keeps a pointer to its extension, an address in the heap of one of
    the contexts; addresses are unique over all contexts.  The state of a device
    is a function of its name, as [Device.cw_device_state] gives it for the
    channels and drivers of the moment.  A result [None] is a read of memory
    that is not allocated.  The depth of the lock of the hints is a field. *)

From S2P Require Import Prelude CStr Hash Timing Exten Dialplan Registry Find Device.
From stdpp Require Import gmap.
Open Scope Z_scope.

Definition CW_EXTENSION_REMOVED : Z := -2.
Definition CW_EXTENSION_DEACTIVATED : Z := -1.
Definition CW_EXTENSION_NOT_INUSE : Z := 0.
Definition CW_EXTENSION_INUSE : Z := 1.
Definition CW_EXTENSION_BUSY : Z := 2.
Definition CW_EXTENSION_UNAVAILABLE : Z := 4.
Definition CW_EXTENSION_RINGING : Z := 8.

Definition extension_states : list (Z * string) :=
  [(CW_EXTENSION_NOT_INUSE, "Idle"); (CW_EXTENSION_INUSE, "InUse"); (CW_EXTENSION_BUSY, "Busy");
   (CW_EXTENSION_UNAVAILABLE, "Unavailable"); (CW_EXTENSION_RINGING, "Ringing");
   (Z.lor CW_EXTENSION_INUSE CW_EXTENSION_RINGING, "InUse&Ringing")]%string.

Definition cw_extension_state2str (extension_state : Z) : string :=
  match List.find (fun p => p.1 =? extension_state) extension_states with
  | Some p => p.2
  | None => "Unknown"
  end.

(** A watcher: its number, the address of its function, its data. *)
Record cw_state_cb := {
  cb_id : Z;
  cb_callback : Z;
  cb_data : Z;
}.

Record cw_hint := {
  h_exten : Z;
  h_laststate : Z;
  h_callbacks : list cw_state_cb;
}.

#[export] Instance cw_hint_eta : Eta cw_hint := fun h =>
  {| h_exten := h_exten h; h_laststate := h_laststate h; h_callbacks := h_callbacks h |}.

Record hint_state := {
  hints : list cw_hint;
  statecbs : list cw_state_cb;
  stateid : Z;
  hintlock : Z;
}.

#[export] Instance hint_state_eta : Eta hint_state := fun s =>
  {| hints := hints s; statecbs := statecbs s; stateid := stateid s; hintlock := hintlock s |}.

Definition lock_hints (s : hint_state) : hint_state := s <| hintlock := hintlock s + 1 |>.
Definition unlock_hints (s : hint_state) : hint_state := s <| hintlock := hintlock s - 1 |>.

(** A call of a watcher. *)
Record notice := {
  nt_callback : Z;
  nt_context : string;
  nt_exten : string;
  nt_state : Z;
  nt_data : Z;
}.

Definition notify (context exten : string) (state : Z) (cb : cw_state_cb) : notice :=
  {| nt_callback := cb_callback cb; nt_context := context; nt_exten := exten; nt_state := state;
     nt_data := cb_data cb |}.

(** The extension at an address, with the context it belongs to. *)
Fixpoint read_exten (d : list cw_context) (e : Z) : option (cw_context * exten) :=
  match d with
  | [] => None
  | c :: d =>
    match s_heap (c_exts c) !! e with
    | Some n => Some (c, n_val n)
    | None => read_exten d e
    end
  end.

(** ** The state of an extension *)

Record tally := {
  t_allunavailable : bool;
  t_allbusy : bool;
  t_allfree : bool;
  t_busy : bool;
  t_inuse : bool;
  t_ring : bool;
}.

#[export] Instance tally_eta : Eta tally := fun t =>
  {| t_allunavailable := t_allunavailable t; t_allbusy := t_allbusy t; t_allfree := t_allfree t;
     t_busy := t_busy t; t_inuse := t_inuse t; t_ring := t_ring t |}.

Definition tally_start : tally :=
  {| t_allunavailable := true; t_allbusy := true; t_allfree := true; t_busy := false;
     t_inuse := false; t_ring := false |}.

(** The [switch] of the loop over the devices. *)
Definition tally_step (t : tally) (res : Z) : tally :=
  if res =? CW_DEVICE_NOT_INUSE then t <| t_allunavailable := false |> <| t_allbusy := false |>
  else if res =? CW_DEVICE_INUSE then
    t <| t_inuse := true |> <| t_allunavailable := false |> <| t_allfree := false |>
  else if res =? CW_DEVICE_RINGING then
    t <| t_ring := true |> <| t_allunavailable := false |> <| t_allfree := false |>
  else if res =? CW_DEVICE_BUSY then
    t <| t_allunavailable := false |> <| t_allfree := false |> <| t_busy := true |>
  else if (res =? CW_DEVICE_UNAVAILABLE) || (res =? CW_DEVICE_INVALID) then
    t <| t_allbusy := false |> <| t_allfree := false |>
  else t <| t_allunavailable := false |> <| t_allbusy := false |> <| t_allfree := false |>.

Definition tally_result (t : tally) : Z :=
  if negb (t_inuse t) && t_ring t then CW_EXTENSION_RINGING
  else if t_inuse t && t_ring t then Z.lor CW_EXTENSION_INUSE CW_EXTENSION_RINGING
  else if t_inuse t then CW_EXTENSION_INUSE
  else if t_allfree t then CW_EXTENSION_NOT_INUSE
  else if t_allbusy t then CW_EXTENSION_BUSY
  else if t_allunavailable t then CW_EXTENSION_UNAVAILABLE
  else if t_busy t then CW_EXTENSION_INUSE
  else CW_EXTENSION_NOT_INUSE.

(** The devices a hint names. *)
Definition hint_devices (x : exten) : list string := strsplit "&" (strtake (CW_MAX_EXTENSION - 1) (x_app x)).

Section hints.
Context (device_state : string -> Z).

Definition cw_extension_state2 (e : option exten) : Z :=
  match e with
  | None => -1
  | Some x => tally_result (foldl tally_step tally_start (device_state <$> hint_devices x))
  end.

(** ** Changes of state *)

(** The loop over the devices of one hint: the hint, and the calls. *)
Fixpoint hint_changed (statecbs : list cw_state_cb) (device : string) (c : cw_context) (x : exten)
    (h : cw_hint) (devices : list string) : cw_hint * list notice :=
  match devices with
  | [] => (h, [])
  | cur :: l =>
    if negb (streq cur device) then hint_changed statecbs device c x h l
    else
      let state := cw_extension_state2 (Some x) in
      if (state =? -1) || (state =? h_laststate h) then hint_changed statecbs device c x h l
      else (h <| h_laststate := state |>,
            notify (c_name c) (x_exten x) state <$> (statecbs ++ h_callbacks h))
  end.

Fixpoint hints_changed (d : list cw_context) (statecbs : list cw_state_cb) (device : string)
    (hs : list cw_hint) : option (list cw_hint * list notice) :=
  match hs with
  | [] => Some ([], [])
  | h :: hs =>
    '(c, x) ← read_exten d (h_exten h);
    let '(h, n) := hint_changed statecbs device c x h (hint_devices x) in
    '(hs, ns) ← hints_changed d statecbs device hs;
    Some (h :: hs, n ++ ns)
  end.

Definition cw_hint_state_changed (d : list cw_context) (device : string) (s : hint_state)
    : option (hint_state * list notice) :=
  let s := lock_hints s in
  '(hs, ns) ← hints_changed d (statecbs s) device (hints s);
  Some (unlock_hints (s <| hints := hs |>), ns).

(** [do_state_change] of devicestate.c: the watchers of devices, then the
    hints. *)
Definition do_state_change (d : list cw_context) (cbs : list devstate_cb) (device : string)
    (s : hint_state) : option (list (Z * string * Z * Z) * (hint_state * list notice)) :=
  let state := device_state device in
  r ← cw_hint_state_changed d device s;
  Some ((fun cb => (dcb_callback cb, device, state, dcb_data cb)) <$> cbs, r).

(** ** Hints *)

Definition has_hint (e : Z) (h : cw_hint) : bool := h_exten h =? e.

Definition cw_add_hint (d : list cw_context) (malloc : bool) (e : Z) (s : hint_state)
    : option (Z * hint_state) :=
  let s := lock_hints s in
  if existsb (has_hint e) (hints s) then Some (-1, unlock_hints s)
  else if negb malloc then Some (-1, unlock_hints s)
  else
    '(_, x) ← read_exten d e;
    let list := {| h_exten := e; h_laststate := cw_extension_state2 (Some x); h_callbacks := [] |} in
    Some (0, unlock_hints (s <| hints := list :: hints s |>)).

(** The first hint of an extension is changed by [f]. *)
Fixpoint on_hint (e : Z) (f : cw_hint -> cw_hint) (hs : list cw_hint) : option (list cw_hint) :=
  match hs with
  | [] => None
  | h :: hs => if has_hint e h then Some (f h :: hs) else cons h <$> on_hint e f hs
  end.

Definition cw_change_hint (oe ne : Z) (s : hint_state) : Z * hint_state :=
  let s := lock_hints s in
  match on_hint oe (fun h => h <| h_exten := ne |>) (hints s) with
  | Some hs => (0, unlock_hints (s <| hints := hs |>))
  | None => (-1, unlock_hints s)
  end.

(** The watchers of a removed hint are told and freed. *)
Definition cw_remove_hint (d : list cw_context) (e : Z) (s : hint_state)
    : option (Z * hint_state * list notice) :=
  let s := lock_hints s in
  match split_first (has_hint e) (hints s) with
  | None => Some (-1, unlock_hints s, [])
  | Some (pre, h, post) =>
    ns ← match h_callbacks h with
         | [] => Some []
         | cbs => '(c, x) ← read_exten d (h_exten h);
                  Some (notify (c_name c) (x_exten x) CW_EXTENSION_DEACTIVATED <$> cbs)
         end;
    Some (0, unlock_hints (s <| hints := pre ++ post |>), ns)
  end.

(** What the operations on extensions do to the hints; [d] is where the
    extensions they name can be read. *)
Definition apply_hint_event (d : list cw_context) (malloc : bool) (s : hint_state) (ev : hint_event)
    : option (hint_state * list notice) :=
  match ev with
  | AddHint e => '(_, s) ← cw_add_hint d malloc e s; Some (s, [])
  | ChangeHint oe ne => Some ((cw_change_hint oe ne s).2, [])
  | RemoveHint e => '(_, s, ns) ← cw_remove_hint d e s; Some (s, ns)
  end.

Fixpoint apply_hint_events (d : list cw_context) (malloc : bool) (s : hint_state)
    (evs : list hint_event) : option (hint_state * list notice) :=
  match evs with
  | [] => Some (s, [])
  | ev :: evs =>
    '(s, ns) ← apply_hint_event d malloc s ev;
    '(s, ns') ← apply_hint_events d malloc s evs;
    Some (s, ns ++ ns')
  end.

(** ** Watchers *)

(** [e] is what [cw_hint_extension] finds; a context without an extension, or
    the other way round, is refused. *)
Definition cw_extension_state_add (context exten : option string) (e : option Z) (malloc : bool)
    (callback data : Z) (s : hint_state) : Z * hint_state :=
  match context, exten with
  | None, None =>
    let s := lock_hints s in
    if existsb (fun cb => cb_callback cb =? callback) (statecbs s) then
      let set := fix set l := match l with
                              | [] => []
                              | cb :: l => if cb_callback cb =? callback
                                           then {| cb_id := cb_id cb; cb_callback := callback;
                                                   cb_data := data |} :: l
                                           else cb :: set l
                              end in
      (0, unlock_hints (s <| statecbs := set (statecbs s) |>))
    else if negb malloc then (-1, unlock_hints s)
    else (0, unlock_hints (s <| statecbs := {| cb_id := 0; cb_callback := callback; cb_data := data |}
                                            :: statecbs s |>))
  | Some _, Some _ =>
    match e with
    | None => (-1, s)
    | Some e =>
      let s := lock_hints s in
      if negb (existsb (has_hint e) (hints s)) then (-1, unlock_hints s)
      else if negb malloc then (-1, unlock_hints s)
      else
        let cb := {| cb_id := stateid s; cb_callback := callback; cb_data := data |} in
        match on_hint e (fun h => h <| h_callbacks := cb :: h_callbacks h |>) (hints s) with
        | Some hs => (stateid s, unlock_hints (s <| hints := hs |> <| stateid := s32 (stateid s + 1) |>))
        | None => (-1, unlock_hints s)
        end
    end
  | _, _ => (-1, s)
  end.

(** The watcher with the number is taken out of the first hint that has it. *)
Fixpoint del_watcher (id : Z) (hs : list cw_hint) : option (list cw_hint) :=
  match hs with
  | [] => None
  | h :: hs =>
    match remove_first (fun cb => cb_id cb =? id) (h_callbacks h) with
    | Some l => Some (h <| h_callbacks := l |> :: hs)
    | None => cons h <$> del_watcher id hs
    end
  end.

(** A general watcher that is not found: the lock is taken again where it
    should be released. *)
Definition cw_extension_state_del (id : Z) (callback : option Z) (s : hint_state) : Z * hint_state :=
  match id =? 0, callback with
  | true, None => (-1, s)
  | true, Some callback =>
    let s := lock_hints s in
    match remove_first (fun cb => cb_callback cb =? callback) (statecbs s) with
    | Some l => (0, unlock_hints (s <| statecbs := l |>))
    | None => (-1, lock_hints s)
    end
  | false, _ =>
    let s := lock_hints s in
    match del_watcher id (hints s) with
    | Some hs => (0, unlock_hints (s <| hints := hs |>))
    | None => (-1, unlock_hints s)
    end
  end.

End hints.

(** ** Watchers across a reload *)

Record store_hint := {
  sh_context : string;
  sh_exten : string;
  sh_callbacks : list cw_state_cb;
  sh_laststate : Z;
}.

(** The watchers of the hints in contexts of the registrar are put aside, the
    last hint first; [alloc] says for which hints there is memory.  A NULL
    registrar is not allowed for where a hint has watchers. *)
Fixpoint save_watchers (d : list cw_context) (registrar : option string) (alloc : Z -> bool)
    (hs : list cw_hint) (store : list store_hint) : option (list cw_hint * list store_hint) :=
  match hs with
  | [] => Some ([], store)
  | h :: hs =>
    '(h, store) ←
      match h_callbacks h with
      | [] => Some (h, store)
      | _ =>
        registrar ← registrar;
        '(c, x) ← read_exten d (h_exten h);
        if streq registrar (c_registrar c) && alloc (h_exten h) then
          Some (h <| h_callbacks := [] |>,
                {| sh_context := c_name c; sh_exten := x_exten x; sh_callbacks := h_callbacks h;
                   sh_laststate := h_laststate h |} :: store)
        else Some (h, store)
      end;
    '(hs, store) ← save_watchers d registrar alloc hs store;
    Some (h :: hs, store)
  end.

(** The watchers go to the hint that now stands for the extension, or are told
    that there is none. *)
Definition restore_one (e : option Z) (this : store_hint) (hs : list cw_hint)
    : list cw_hint * list notice :=
  let gone := notify (sh_context this) (sh_exten this) CW_EXTENSION_REMOVED <$> sh_callbacks this in
  match e with
  | None => (hs, gone)
  | Some e =>
    match on_hint e (fun h => h <| h_callbacks := sh_callbacks this ++ h_callbacks h |>
                                <| h_laststate := sh_laststate this |>) hs with
    | Some hs => (hs, [])
    | None => (hs, gone)
    end
  end.

(** [look] is [cw_hint_extension] in the new dialplan. *)
Fixpoint restore_watchers (look : string -> string -> option (option Z)) (store : list store_hint)
    (hs : list cw_hint) : option (list cw_hint * list notice) :=
  match store with
  | [] => Some (hs, [])
  | this :: store =>
    e ← look (sh_context this) (sh_exten this);
    let '(hs, ns) := restore_one e this hs in
    '(hs, ns') ← restore_watchers look store hs;
    Some (hs, ns ++ ns')
  end.

(** The whole of a reload. *)
Definition cw_merge_contexts_and_delete (device_state : string -> Z) (switches : list cw_switch)
    (substitute : string -> string) (now : tm) (d : dialplan) (lock : cw_context -> bool)
    (alloc : Z -> bool) (extcontexts : list cw_context) (registrar : option string) (s : hint_state)
    : option (dialplan * list cw_context * hint_state * list notice) :=
  '(hs, store) ← save_watchers (extcontexts ++ contexts d) registrar alloc (hints s) [];
  let s := s <| hints := hs |> in
  '(d', ext, f) ← merge_contexts d lock extcontexts registrar;
  '(s, ns) ← apply_hint_events device_state (extcontexts ++ contexts d) false s (f_hints f);
  let look (c x : string) : option (option Z) :=
    (fun e : option entry => fst <$> e) <$>
      cw_hint_extension switches substitute now (contexts d') true (Some c) x in
  '(hs, ns') ← restore_watchers look store (hints s);
  Some (d', ext, s <| hints := hs |>, ns ++ ns').

(** ** The state of an extension, declared *)

Definition state_of (sts : list Z) : Z :=
  let has v := existsb (Z.eqb v) sts in
  if has CW_DEVICE_RINGING then
    if has CW_DEVICE_INUSE then 9 else CW_EXTENSION_RINGING
  else if has CW_DEVICE_INUSE then CW_EXTENSION_INUSE
  else if forallb (Z.eqb CW_DEVICE_NOT_INUSE) sts then CW_EXTENSION_NOT_INUSE
  else if forallb (Z.eqb CW_DEVICE_BUSY) sts then CW_EXTENSION_BUSY
  else if forallb (fun v => (v =? CW_DEVICE_UNAVAILABLE) || (v =? CW_DEVICE_INVALID)) sts
  then CW_EXTENSION_UNAVAILABLE
  else if has CW_DEVICE_BUSY then CW_EXTENSION_INUSE
  else CW_EXTENSION_NOT_INUSE.

Lemma tally_fold sts t :
  let r := foldl tally_step t sts in
  t_inuse r = t_inuse t || existsb (Z.eqb CW_DEVICE_INUSE) sts /\
  t_ring r = t_ring t || existsb (Z.eqb CW_DEVICE_RINGING) sts /\
  t_busy r = t_busy t || existsb (Z.eqb CW_DEVICE_BUSY) sts /\
  t_allfree r = t_allfree t && forallb (Z.eqb CW_DEVICE_NOT_INUSE) sts /\
  t_allbusy r = t_allbusy t && forallb (fun v => (v =? CW_DEVICE_INUSE) || (v =? CW_DEVICE_RINGING)
                                                 || (v =? CW_DEVICE_BUSY)) sts /\
  t_allunavailable r = t_allunavailable t &&
    forallb (fun v => (v =? CW_DEVICE_UNAVAILABLE) || (v =? CW_DEVICE_INVALID)) sts.
Proof.
  revert t. induction sts as [|v sts IH]; intros t; cbn [foldl existsb forallb].
  { by rewrite !orb_false_r, !andb_true_r. }
  destruct (IH (tally_step t v)) as (-> & -> & -> & -> & -> & ->). clear IH.
  unfold tally_step. rewrite !(Z.eqb_sym _ v).
  destruct (Z.eqb_spec v CW_DEVICE_NOT_INUSE) as [->|]; [by destruct t; simpl; rewrite ?andb_false_r|].
  destruct (Z.eqb_spec v CW_DEVICE_INUSE) as [->|];
    [by destruct t; simpl; rewrite ?andb_false_r, ?orb_true_r|].
  destruct (Z.eqb_spec v CW_DEVICE_RINGING) as [->|];
    [by destruct t; simpl; rewrite ?andb_false_r, ?orb_true_r|].
  destruct (Z.eqb_spec v CW_DEVICE_BUSY) as [->|];
    [by destruct t; simpl; rewrite ?andb_false_r, ?orb_true_r|].
  destruct ((v =? CW_DEVICE_UNAVAILABLE) || (v =? CW_DEVICE_INVALID));
    by destruct t; simpl; rewrite ?andb_false_r.
Qed.

(** Without a device in use or ringing, "all busy" means what it says. *)
Lemma forallb_busy sts :
  existsb (Z.eqb CW_DEVICE_INUSE) sts = false -> existsb (Z.eqb CW_DEVICE_RINGING) sts = false ->
  forallb (fun v => (v =? CW_DEVICE_INUSE) || (v =? CW_DEVICE_RINGING) || (v =? CW_DEVICE_BUSY)) sts
  = forallb (Z.eqb CW_DEVICE_BUSY) sts.
Proof.
  induction sts as [|v sts IH]; [done|]. cbn [existsb forallb]. intros H1 H2.
  apply orb_false_iff in H1 as [E1 H1], H2 as [E2 H2]. rewrite (Z.eqb_sym v), E1, (Z.eqb_sym v), E2.
  rewrite (Z.eqb_sym v CW_DEVICE_BUSY), IH by done. done.
Qed.

(** The state of an extension sums up its devices: ringing if one rings, in
    use if one is in use (both if both); otherwise idle, busy or unavailable if
    all are; otherwise in use if one is busy, idle if none is. *)
Theorem extension_state_sums_up device_state x :
  cw_extension_state2 device_state (Some x) = state_of (device_state <$> hint_devices x).
Proof.
  unfold cw_extension_state2. generalize (device_state <$> hint_devices x). intros sts.
  unfold tally_result, state_of.
  destruct (tally_fold sts tally_start) as (-> & -> & -> & -> & -> & ->).
  cbn [tally_start t_inuse t_ring t_busy t_allfree t_allbusy t_allunavailable orb andb].
  destruct (existsb (Z.eqb CW_DEVICE_RINGING) sts) eqn:Er, (existsb (Z.eqb CW_DEVICE_INUSE) sts) eqn:Ei;
    cbn [negb andb]; try done.
  by rewrite forallb_busy.
Qed.

(** ** Who is told of a change *)

Section told.
Context (device_state : string -> Z).

(** The device is one of the hint's. *)
Definition concerns (device : string) (x : exten) : bool :=
  existsb (fun cur => streq cur device) (hint_devices x).

Lemma tally_result_state t : tally_result t <> -1.
Proof. unfold tally_result. repeat case_if; done. Qed.

Lemma hint_changed_spec statecbs device c x h l :
  let state := cw_extension_state2 device_state (Some x) in
  hint_changed device_state statecbs device c x h l =
    if existsb (fun cur => streq cur device) l && negb (state =? h_laststate h) then
      (h <| h_laststate := state |>,
       notify (c_name c) (x_exten x) state <$> (statecbs ++ h_callbacks h))
    else (h, []).
Proof.
  cbv zeta. induction l as [|cur l IH]; [done|]. cbn [hint_changed existsb].
  destruct (streq cur device); cbn [negb orb]; [|done].
  destruct (Z.eqb_spec (cw_extension_state2 device_state (Some x)) (-1)) as [E|_].
  { by destruct (tally_result_state (foldl tally_step tally_start (device_state <$> hint_devices x))). }
  cbn [orb]. destruct (_ =? h_laststate h); cbn [negb andb]; [|done].
  rewrite IH. by rewrite andb_false_r.
Qed.

(** The calls a hint gives rise to, and the hint afterwards. *)
Definition told (d : list cw_context) (cbs : list cw_state_cb) (device : string) (h : cw_hint)
    : list notice :=
  match read_exten d (h_exten h) with
  | Some (c, x) =>
    let state := cw_extension_state2 device_state (Some x) in
    if concerns device x && negb (state =? h_laststate h) then
      notify (c_name c) (x_exten x) state <$> (cbs ++ h_callbacks h)
    else []
  | None => []
  end.

Definition settled (d : list cw_context) (device : string) (h : cw_hint) : cw_hint :=
  match read_exten d (h_exten h) with
  | Some (_, x) =>
    if concerns device x then h <| h_laststate := cw_extension_state2 device_state (Some x) |> else h
  | None => h
  end.

Definition live (d : list cw_context) (h : cw_hint) : Prop := is_Some (read_exten d (h_exten h)).

Lemma hints_changed_spec d cbs device hs :
  Forall (live d) hs ->
  hints_changed device_state d cbs device hs =
    Some (settled d device <$> hs, hs ≫= told d cbs device).
Proof.
  induction 1 as [|h hs [[c x] Hr] _ IH]; [done|]. cbn [hints_changed]. rewrite Hr.
  cbn [mbind option_bind]. rewrite hint_changed_spec, IH. fold (concerns device x).
  rewrite fmap_cons, bind_cons. unfold settled at 2, told at 2. rewrite Hr.
  destruct (concerns device x); cbn [andb]; [|done].
  destruct (Z.eqb_spec (cw_extension_state2 device_state (Some x)) (h_laststate h)) as [->|];
    cbn [negb mbind option_bind]; [|done]. by destruct h.
Qed.

Lemma settled_live d device h : live d h -> live d (settled d device h).
Proof.
  intros [[c x] Hr]. unfold live, settled. rewrite Hr. destruct (concerns device x); simpl;
    rewrite Hr; eauto.
Qed.

Lemma settled_quiet d cbs device h : told d cbs device (settled d device h) = [].
Proof.
  unfold told, settled. destruct (read_exten d (h_exten h)) as [[c x]|] eqn:Hr; [|by rewrite Hr].
  destruct (concerns device x) eqn:Ec; simpl; rewrite Hr, Ec; [|done]. by rewrite Z.eqb_refl.
Qed.

Lemma settled_idem d device h : settled d device (settled d device h) = settled d device h.
Proof.
  unfold settled. destruct (read_exten d (h_exten h)) as [[c x]|] eqn:Hr; [|by rewrite Hr].
  destruct (concerns device x) eqn:Ec; simpl; rewrite Hr, Ec; done.
Qed.

(** C24: A change of a device is told to exactly the watchers concerned: for each
    hint that names the device and whose state is not the one last told, the
    general watchers and the hint's own, in order, with the new state; the state
    is remembered, so that the same change, reported again, is told to nobody. *)
Theorem watchers_told_once d device s :
  Forall (live d) (hints s) ->
  exists s', cw_hint_state_changed device_state d device s =
      Some (s', hints s ≫= told d (statecbs s) device) /\
    hintlock s' = hintlock s /\ h_callbacks <$> hints s' = h_callbacks <$> hints s /\
    cw_hint_state_changed device_state d device s' = Some (s', []).
Proof.
  intros Hl. unfold cw_hint_state_changed. simpl. rewrite hints_changed_spec by done.
  cbn [mbind option_bind]. eexists. split; [done|]. simpl. split; [lia|]. split.
  - rewrite <- list_fmap_compose. apply list_fmap_ext. intros i h _. simpl. unfold settled.
    destruct (read_exten d (h_exten h)) as [[c x]|]; [|done]. by destruct (concerns device x).
  - rewrite hints_changed_spec.
    + cbn [mbind option_bind]. f_equal. f_equal.
      * rewrite <- list_fmap_compose. unfold unlock_hints, lock_hints. simpl. f_equal; [|lia].
        apply list_fmap_ext. intros i h _. apply settled_idem.
      * induction (hints s) as [|h hs IH]; [done|]. simpl. rewrite settled_quiet.
        apply IH. by inversion Hl.
    + apply Forall_fmap. eapply Forall_impl; [exact Hl|]. intros h. apply settled_live.
Qed.

End told.

(** ** No watcher is lost *)

Definition watchers (hs : list cw_hint) : list cw_state_cb := hs ≫= h_callbacks.

(** The context and the extension a hint is for, read in [d]. *)
Definition place_of (d : list cw_context) (e : Z) : string * string :=
  match read_exten d e with Some (c, x) => (c_name c, x_exten x) | None => (""%string, ""%string) end.

(** The watchers, each with the place it watches. *)
Definition posts (d : list cw_context) (hs : list cw_hint) : list (cw_state_cb * (string * string)) :=
  hs ≫= fun h => (fun cb => (cb, place_of d (h_exten h))) <$> h_callbacks h.

(** What a watcher of that place is told. *)
Definition tell (state : Z) (w : cw_state_cb * (string * string)) : notice :=
  notify w.2.1 w.2.2 state w.1.

(** The watcher is with a hint for its place: the one it was with, or the one that
    [look] finds for the place. *)
Definition posted (d : list cw_context) (look : string -> string -> option (option Z)) (hs : list cw_hint)
    (w : cw_state_cb * (string * string)) : Prop :=
  exists h, h ∈ hs /\ w.1 ∈ h_callbacks h /\
    (place_of d (h_exten h) = w.2 \/ look w.2.1 w.2.2 = Some (Some (h_exten h))).

(** What became of the watchers of [hs]: some are with the hints [hs'], the others were
    told, with the context and the extension they watched, that their hint was
    deactivated or removed, and nobody else was told anything. *)
Definition accounted (d : list cw_context) (look : string -> string -> option (option Z))
    (hs hs' : list cw_hint) (ns : list notice) : Prop :=
  exists kept deactivated removed,
    posts d hs ≡ₚ kept ++ deactivated ++ removed /\
    kept.*1 ≡ₚ watchers hs' /\ Forall (posted d look hs') kept /\
    ns = (tell CW_EXTENSION_DEACTIVATED <$> deactivated) ++ (tell CW_EXTENSION_REMOVED <$> removed).

Lemma posts_app d hs ks : posts d (hs ++ ks) = posts d hs ++ posts d ks.
Proof. apply bind_app. Qed.

Lemma posts_watchers d hs : (posts d hs).*1 = watchers hs.
Proof.
  induction hs as [|h hs IH]; [done|]. unfold posts, watchers in *. rewrite !bind_cons, fmap_app, IH. f_equal.
  rewrite <- list_fmap_compose. apply list_fmap_id.
Qed.

Lemma watchers_app hs ks : watchers (hs ++ ks) = watchers hs ++ watchers ks.
Proof. apply bind_app. Qed.

Lemma on_hint_watchers e f hs hs' l :
  (forall h, h_callbacks (f h) = l ++ h_callbacks h) -> on_hint e f hs = Some hs' ->
  watchers hs' ≡ₚ l ++ watchers hs.
Proof.
  intros Hf. unfold watchers. revert hs'. induction hs as [|h hs IH]; intros hs'; simpl; [done|].
  destruct (has_hint e h).
  - intros [= <-]. simpl. by rewrite Hf, <- app_assoc.
  - destruct (on_hint e f hs) as [hs1|]; simpl; [|done]. intros [= <-]. simpl.
    rewrite (IH hs1) by done. by rewrite !app_assoc, (Permutation_app_comm (h_callbacks h)).
Qed.

(** Hints that get watchers more keep theirs. *)
Lemma on_hint_keeps e f hs hs' l :
  (forall h, h_exten (f h) = h_exten h) -> (forall h, h_callbacks (f h) = l ++ h_callbacks h) ->
  on_hint e f hs = Some hs' ->
  (forall h cb, h ∈ hs -> cb ∈ h_callbacks h ->
     exists h', h' ∈ hs' /\ h_exten h' = h_exten h /\ cb ∈ h_callbacks h') /\
  exists h', h' ∈ hs' /\ h_exten h' = e /\ forall cb, cb ∈ l -> cb ∈ h_callbacks h'.
Proof.
  intros Hx Hf. revert hs'. induction hs as [|g hs IH]; intros hs'; cbn [on_hint]; [done|].
  destruct (has_hint e g) eqn:E.
  - apply Z.eqb_eq in E. intros [= <-]. split.
    + intros h cb [->|Hh]%elem_of_cons Hcb.
      * exists (f g). split_and!; [by left|done|]. rewrite Hf. apply elem_of_app. by right.
      * exists h. split_and!; [by right|done|done].
    + exists (f g). split_and!; [by left|by rewrite Hx|]. intros cb Hcb. rewrite Hf. apply elem_of_app. by left.
  - destruct (on_hint e f hs) as [hs1|]; [|done]. intros [= <-]. destruct (IH hs1 eq_refl) as [H1 (h' & ? & ? & ?)].
    split; [|exists h'; split_and!; [by right|done|done]].
    intros h cb [->|Hh]%elem_of_cons Hcb; [exists g; split_and!; [by left|done|done]|].
    destruct (H1 h cb Hh Hcb) as (h2 & ? & ? & ?). exists h2. split_and!; [by right|done|done].
Qed.

Lemma on_hint_posted d look e f hs hs' l w :
  (forall h, h_exten (f h) = h_exten h) -> (forall h, h_callbacks (f h) = l ++ h_callbacks h) ->
  on_hint e f hs = Some hs' -> posted d look hs w -> posted d look hs' w.
Proof.
  intros Hx Hf Ho (h & Hh & Hc & Hp). destruct (on_hint_keeps e f hs hs' l Hx Hf Ho) as [Hk _].
  destruct (Hk h w.1 Hh Hc) as (h' & ? & Ee & ?). exists h'. split_and!; [done|done|]. by rewrite Ee.
Qed.

(** The watchers put aside. *)
Definition stored (store : list store_hint) : list (cw_state_cb * (string * string)) :=
  store ≫= fun this => (fun cb => (cb, (sh_context this, sh_exten this))) <$> sh_callbacks this.

Lemma save_watchers_keeps d registrar alloc hs store hs' store' :
  save_watchers d registrar alloc hs store = Some (hs', store') ->
  posts d hs' ++ stored store' ≡ₚ posts d hs ++ stored store.
Proof.
  unfold posts, stored. revert store hs' store'.
  induction hs as [|h hs IH]; intros store hs' store'; cbn [save_watchers].
  - by intros [= <- <-].
  - set (o := match h_callbacks h with [] => _ | _ => _ end).
    assert (forall h1 store1, o = Some (h1, store1) -> posts d [h1] ++ stored store1 ≡ₚ posts d [h] ++ stored store) as Ho.
    { intros h1 store1. unfold o. destruct (h_callbacks h) as [|cb cbs] eqn:Ec; [by intros [= <- <-]|].
      destruct registrar as [r|]; cbn [mbind option_bind]; [|done].
      destruct (read_exten d (h_exten h)) as [[c x]|] eqn:Er; cbn [mbind option_bind]; [|done].
      case_if; intros [= <- <-]; [|done]. unfold posts, stored. cbn [mbind list_bind]. rewrite !app_nil_r.
      cbn [h_callbacks upd]. unfold place_of. rewrite Er, Ec. done. }
    destruct o as [[h1 store1]|]; cbn [mbind option_bind]; [|done].
    specialize (Ho h1 store1 eq_refl). unfold posts, stored in Ho.
    destruct (save_watchers d registrar alloc hs store1) as [[hs2 store2]|] eqn:E;
      cbn [mbind option_bind]; [|done].
    intros [= <- <-]. specialize (IH _ _ _ E). rewrite !bind_cons, <- !app_assoc, IH.
    cbn [mbind list_bind] in Ho. rewrite !app_nil_r in Ho.
    rewrite (Permutation_app_comm (hs ≫= _)), app_assoc, Ho, <- app_assoc.
    apply Permutation_app_head. by rewrite Permutation_app_comm.
Qed.

(** What restoring makes of the watchers put aside. *)
Lemma restore_watchers_spec d look store hs hs' ns :
  restore_watchers look store hs = Some (hs', ns) ->
  exists kept removed, stored store ≡ₚ kept ++ removed /\ ns = tell CW_EXTENSION_REMOVED <$> removed /\
    watchers hs' ≡ₚ kept.*1 ++ watchers hs /\ Forall (posted d look hs') kept /\
    forall w, posted d look hs w -> posted d look hs' w.
Proof.
  revert hs hs' ns. induction store as [|this store IH]; intros hs hs' ns; cbn [restore_watchers].
  - intros [= <- <-]. by exists [], [].
  - destruct (look (sh_context this) (sh_exten this)) as [e|] eqn:El; cbn [mbind option_bind]; [|done].
    destruct (restore_one e this hs) as [hs1 n1] eqn:E1.
    destruct (restore_watchers look store hs1) as [[hs2 n2]|] eqn:E2; cbn [mbind option_bind]; [|done].
    intros [= <- <-]. destruct (IH _ _ _ E2) as (kept & removed & Hp & -> & Hw & Hk & Hpost).
    set (mine := (fun cb => (cb, (sh_context this, sh_exten this))) <$> sh_callbacks this).
    assert (Es : stored (this :: store) = mine ++ stored store) by apply bind_cons. rewrite Es. clear Es.
    assert ((hs1 = hs /\ n1 = tell CW_EXTENSION_REMOVED <$> mine) \/
      (n1 = [] /\ watchers hs1 ≡ₚ mine.*1 ++ watchers hs /\ Forall (posted d look hs1) mine /\
       forall w, posted d look hs w -> posted d look hs1 w)) as [(-> & ->)|(-> & Hw1 & Hk1 & Hpost1)].
    { assert (notify (sh_context this) (sh_exten this) CW_EXTENSION_REMOVED <$> sh_callbacks this
        = tell CW_EXTENSION_REMOVED <$> mine) as Hgone by (unfold mine; by rewrite <- list_fmap_compose).
      unfold restore_one in E1. rewrite Hgone in E1.
      destruct e as [e|]; [|injection E1 as <- <-; by left].
      destruct (on_hint e _ hs) as [hs3|] eqn:Eo; injection E1 as <- <-; [right|by left].
      pose proof Eo as Ek. apply (on_hint_keeps _ _ _ _ (sh_callbacks this)) in Ek as [_ (h' & Hh & He & Hc)]; [|done|done].
      split_and!; [done| | |].
      - apply (on_hint_watchers _ _ _ _ (sh_callbacks this)) in Eo as ->; [|done]. unfold mine.
        by rewrite <- list_fmap_compose, list_fmap_id.
      - unfold mine. apply Forall_fmap. apply Forall_forall. intros cb Hcb. exists h'.
        split_and!; [done|by apply Hc|]. right. cbn. by rewrite He.
      - intros w. revert Eo. by apply (on_hint_posted d look _ _ _ _ (sh_callbacks this) w). }
    + exists kept, (mine ++ removed). rewrite fmap_app. split_and!; [|done|done|done|done].
      rewrite Hp, !app_assoc. apply Permutation_app_tail, Permutation_app_comm.
    + exists (mine ++ kept), removed. split_and!; [by rewrite Hp, app_assoc|done| | |by auto].
      * by rewrite Hw, Hw1, fmap_app, !app_assoc, (Permutation_app_comm kept.*1).
      * apply Forall_app. split; [|done]. eapply Forall_impl; [exact Hk1|]. apply Hpost.
Qed.

(** ** A reload comes to an end *)

Lemma save_watchers_total d r alloc hs store :
  Forall (live d) hs ->
  exists hs' store', save_watchers d (Some r) alloc hs store = Some (hs', store') /\
    h_exten <$> hs' = h_exten <$> hs.
Proof.
  intros Hl. revert store. induction Hl as [|h hs [[c x] Hr] _ IH]; intros store; cbn [save_watchers].
  - by eexists _, _.
  - set (o := match h_callbacks h with [] => _ | _ => _ end).
    assert (exists h1 store1, o = Some (h1, store1) /\ h_exten h1 = h_exten h) as (h1 & store1 & -> & E1).
    { unfold o. destruct (h_callbacks h); [by eexists _, _|]. cbn [mbind option_bind]. rewrite Hr.
      cbn [mbind option_bind]. case_if; by eexists _, _. }
    cbn [mbind option_bind]. destruct (IH store1) as (hs2 & store2 & -> & E2). cbn [mbind option_bind].
    eexists _, _. split; [done|]. by rewrite !fmap_cons, E1, E2.
Qed.

Lemma live_ext d hs hs' : h_exten <$> hs' = h_exten <$> hs -> Forall (live d) hs -> Forall (live d) hs'.
Proof.
  unfold live. revert hs. induction hs' as [|h' hs' IH]; intros [|h hs]; try done.
  rewrite !fmap_cons. intros [= E1 E2] Hl. apply Forall_cons in Hl as [Hh Hl].
  constructor; [by rewrite E1|by eapply IH].
Qed.

Definition is_removal (ev : hint_event) : Prop := exists e, ev = RemoveHint e.

Lemma removals_total device_state d malloc s evs :
  Forall is_removal evs -> Forall (live d) (hints s) ->
  exists s' ns, apply_hint_events device_state d malloc s evs = Some (s', ns).
Proof.
  intros He. revert s. induction He as [|ev evs [e ->] _ IH]; intros s Hl; cbn [apply_hint_events].
  - by eexists _, _.
  - assert (exists s1 n1, apply_hint_event device_state d malloc s (RemoveHint e) = Some (s1, n1) /\
      Forall (live d) (hints s1)) as (s1 & n1 & -> & Hl1).
    { cbn [apply_hint_event]. unfold cw_remove_hint. simpl.
      pose proof (split_first_spec (has_hint e) (hints s)) as Hs.
      destruct (split_first (has_hint e) (hints s)) as [[[pre h] post]|]; simpl; [|by eexists _, _].
      destruct Hs as (Hs & _ & _). rewrite Hs in Hl. apply Forall_app in Hl as [Hl1 Hl2].
      apply Forall_cons in Hl2 as [[[c x] Hr] Hl2].
      assert (Forall (live d) (pre ++ post)) by by apply Forall_app.
      rewrite Hr. destruct (h_callbacks h); simpl; by eexists _, _. }
    cbn [mbind option_bind]. destruct (IH s1 Hl1) as (s2 & n2 & ->). by eexists _, _.
Qed.

Lemma freed_removals l f : Forall is_removal (f_hints f) -> Forall is_removal (f_hints (all_freed l f)).
Proof.
  unfold all_freed. revert f. induction l as [|c l IH]; intros f Hf; [done|]. simpl. apply IH.
  simpl. apply Forall_app. split; [done|]. unfold context_freed.
  destruct (extensions (c_exts c)) as [gs|]; [|constructor]. simpl.
  apply Forall_bind. apply Forall_true. intros y. unfold compose, hint_if.
  case_if; [constructor; [by eexists|]|]; constructor.
Qed.

(** Removing hints tells their watchers, and leaves the others. *)
Lemma removals_spec device_state d malloc s evs s' ns :
  Forall is_removal evs -> apply_hint_events device_state d malloc s evs = Some (s', ns) ->
  exists gone, posts d (hints s) ≡ₚ posts d (hints s') ++ gone /\ ns = tell CW_EXTENSION_DEACTIVATED <$> gone.
Proof.
  intros He. revert s ns. induction He as [|ev evs [e ->] _ IH]; intros s ns; cbn [apply_hint_events].
  { intros [= <- <-]. exists []. by rewrite app_nil_r. }
  destruct (apply_hint_event device_state d malloc s (RemoveHint e)) as [[s1 n1]|] eqn:E1; cbn [mbind option_bind]; [|done].
  destruct (apply_hint_events device_state d malloc s1 evs) as [[s2 n2]|] eqn:E2; cbn [mbind option_bind]; [|done].
  intros [= -> <-]. destruct (IH _ _ E2) as (gone & Hp & ->).
  enough (exists g, posts d (hints s) ≡ₚ posts d (hints s1) ++ g /\ n1 = tell CW_EXTENSION_DEACTIVATED <$> g) as (g & Hg & ->).
  { exists (g ++ gone). rewrite Hg, Hp, fmap_app. split; [|done]. rewrite <- app_assoc.
    by rewrite (Permutation_app_comm gone g). }
  cbn [apply_hint_event] in E1. unfold cw_remove_hint in E1. simpl in E1.
  pose proof (split_first_spec (has_hint e) (hints s)) as Hs.
  destruct (split_first (has_hint e) (hints s)) as [[[pre h] post]|]; simpl in E1;
    [|injection E1 as <- <-; exists []; by rewrite app_nil_r].
  destruct Hs as (Hs & _ & _). set (g := (fun cb => (cb, place_of d (h_exten h))) <$> h_callbacks h).
  assert (Hg : posts d (hints s) ≡ₚ posts d (pre ++ post) ++ g).
  { rewrite Hs, !posts_app, <- app_assoc. apply Permutation_app_head. unfold posts at 1. rewrite bind_cons.
    apply Permutation_app_comm. }
  exists g. destruct (h_callbacks h) as [|cb cbs] eqn:Ec; simpl in E1; [injection E1 as <- <-; by split|].
  unfold place_of in g. destruct (read_exten d (h_exten h)) as [[c x]|]; simpl in E1; [|done].
  injection E1 as <- <-. split; [done|]. unfold g. by rewrite <- list_fmap_compose.
Qed.

Definition hint_lookup (switches : list cw_switch) (substitute : string -> string) (now : tm)
    (d : list cw_context) (c x : string) : option (option Z) :=
  (fun e : option entry => fst <$> e) <$> cw_hint_extension switches substitute now d true (Some c) x.

Lemma reload_accounted device_state switches substitute now d lock alloc ext registrar s d1 ext1 f d' ext' s' ns :
  merge_contexts d lock ext registrar = Some (d1, ext1, f) -> Forall is_removal (f_hints f) ->
  cw_merge_contexts_and_delete device_state switches substitute now d lock alloc ext registrar s
    = Some (d', ext', s', ns) ->
  accounted (ext ++ contexts d) (hint_lookup switches substitute now (contexts d')) (hints s) (hints s') ns.
Proof.
  unfold cw_merge_contexts_and_delete. intros Hm Hf H. set (mem := ext ++ contexts d) in *.
  destruct (save_watchers mem _ _ _ _) as [[hs store]|] eqn:Es; cbn [mbind option_bind] in H; [|done].
  rewrite Hm in H. cbn [mbind option_bind] in H.
  destruct (apply_hint_events _ _ _ _ _) as [[s1 n1]|] eqn:Ea; cbn [mbind option_bind] in H; [|done].
  destruct (restore_watchers _ _ _) as [[hs2 n2]|] eqn:Er; cbn [mbind option_bind] in H; [|done].
  injection H as <- <- <- <-. apply save_watchers_keeps in Es. unfold stored at 2 in Es. simpl in Es.
  rewrite app_nil_r in Es. destruct (removals_spec _ _ _ _ _ _ _ Hf Ea) as (gone & Hg & ->). simpl in Hg.
  change (restore_watchers (hint_lookup switches substitute now (contexts d1)) store (hints s1) = Some (hs2, n2)) in Er.
  destruct (restore_watchers_spec mem _ _ _ _ _ Er) as (kept & removed & Hp & -> & Hw & Hk & Hpost).
  exists (kept ++ posts mem (hints s1)), gone, removed. simpl. split_and!; [| | |done].
  - rewrite <- Es, Hg, Hp, app_assoc, (Permutation_app_comm (_ ++ gone) kept). by rewrite <- !app_assoc.
  - by rewrite fmap_app, posts_watchers, Hw.
  - apply Forall_app. split; [done|]. apply Forall_forall. intros [cb pl] Hin. apply Hpost.
    apply list_elem_of_bind in Hin as (h & Hin & Hh). apply list_elem_of_fmap in Hin as (cb' & [= -> ->] & Hc).
    exists h. split_and!; [done|done|by left].
Qed.

Lemma restore_watchers_total look store hs :
  (forall c x, is_Some (look c x)) -> exists hs' ns, restore_watchers look store hs = Some (hs', ns).
Proof.
  intros Hlook. revert hs. induction store as [|this store IH]; intros hs; cbn [restore_watchers].
  - by eexists _, _.
  - destruct (Hlook (sh_context this) (sh_exten this)) as [e ->]. cbn [mbind option_bind].
    destruct (restore_one e this hs) as [hs1 n1]. destruct (IH hs1) as (hs2 & n2 & ->).
    by eexists _, _.
Qed.

(** C25: A reload of the configuration comes to an end on a well-formed dialplan and loses
    no watcher of an extension: each one that was registered before is afterwards still
    with its hint or with the one found for its context and extension in the new
    dialplan, or has been told, under that context and extension, that its hint is
    deactivated or removed; and nobody else is told anything.  The merge can be done
    (its names do not clash), all locks can be had, a registrar is given, and no hint
    points to freed memory before. *)
Theorem reload_keeps_watchers device_state switches substitute now d alloc ext registrar s :
  wf d -> op_ok d (OpMerge ext registrar) -> Forall (live (ext ++ contexts d)) (hints s) ->
  exists d' s' ns,
    cw_merge_contexts_and_delete device_state switches substitute now d (fun _ => true) alloc ext
      (Some registrar) s = Some (d', [], s', ns) /\
    dp_run d (OpMerge ext registrar) = Some d' /\
    accounted (ext ++ contexts d) (hint_lookup switches substitute now (contexts d')) (hints s) (hints s') ns.
Proof.
  intros Hw Hok Hl. destruct (merge_wf d ext registrar Hw Hok) as (d' & Hrun & Hw').
  assert (Hsound : Forall (fun c => (fun _ => true) c = true /\ sound c) (contexts d)).
  { eapply Forall_impl; [apply Hw|]. intros c Hc. split; [done|by apply wf_sound]. }
  pose proof (merge_contexts_spec d (fun _ => true) ext registrar Hsound) as Hm.
  assert (exists d' s' ns, cw_merge_contexts_and_delete device_state switches substitute now d
    (fun _ => true) alloc ext (Some registrar) s = Some (d', [], s', ns) /\
    dp_run d (OpMerge ext registrar) = Some d') as (d1 & s' & ns & E & Hd1).
  { simpl in Hrun. rewrite Hm in Hrun. injection Hrun as <-.
    unfold cw_merge_contexts_and_delete.
    destruct (save_watchers_total (ext ++ contexts d) registrar alloc (hints s) [] Hl)
      as (hs & store & -> & Ehs). cbn [mbind option_bind]. rewrite Hm. cbn [mbind option_bind].
    edestruct (removals_total device_state (ext ++ contexts d) false (s <| hints := hs |>))
      as (s1 & n1 & ->); [apply freed_removals; constructor|by eapply live_ext|].
    cbn [mbind option_bind]. edestruct restore_watchers_total as (hs2 & n2 & ->).
    { intros c x. unfold cw_hint_extension. cbn [negb].
      destruct (find_returns switches substitute now x PRIORITY_HINT None (Some EmptyString)
        HELPER_EXISTS _ None (Some c) (wf_contexts _ Hw') ltac:(done)) as [r Hr].
      rewrite Hr. by eexists. }
    cbn [mbind option_bind]. eexists _, _, _. split; [done|]. simpl. by rewrite Hm. }
  exists d1, s', ns. split_and!; [done|done|]. eapply reload_accounted; [exact Hm| |exact E].
  apply freed_removals. constructor.
Qed.

(** ** Adding and deleting a watcher *)

Lemma on_hint_some e f hs : existsb (has_hint e) hs = true -> is_Some (on_hint e f hs).
Proof.
  induction hs as [|h hs IH]; simpl; [done|]. destruct (has_hint e h); simpl; [by eexists|].
  intros H. destruct (IH H) as [hs' ->]. by eexists.
Qed.

Lemma remove_first_none {A} (p : A -> bool) l : Forall (fun x => p x = false) l -> remove_first p l = None.
Proof. induction 1 as [|x l Hx _ IH]; simpl; [done|]. by rewrite Hx, IH. Qed.

(** A number that no other watcher has. *)
Lemma del_pushed e cb hs hs' :
  Forall (fun w => cb_id w < cb_id cb) (watchers hs) ->
  on_hint e (fun h => h <| h_callbacks := cb :: h_callbacks h |>) hs = Some hs' ->
  del_watcher (cb_id cb) hs' = Some hs.
Proof.
  revert hs'. induction hs as [|h hs IH]; intros hs' Hw; simpl; [done|].
  unfold watchers in Hw. rewrite bind_cons in Hw. apply Forall_app in Hw as [Hh Hw].
  destruct (has_hint e h).
  - intros [= <-]. simpl. rewrite Z.eqb_refl. by destruct h.
  - destruct (on_hint e _ hs) as [hs1|]; simpl; [|done]. intros [= <-]. simpl.
    rewrite remove_first_none.
    + by rewrite (IH hs1).
    + eapply Forall_impl; [exact Hh|]. simpl. intros w Hlt. lia.
Qed.

Definition ids_used (s : hint_state) : Prop :=
  0 < stateid s /\ Forall (fun w => cb_id w < stateid s) (watchers (hints s)).

(** A watcher registered for an extension gets a number of its own, by which
    it is deleted again, and nothing else; the numbers stay unique as long as
    fewer than 2^31 are given out. *)
Theorem watcher_roundtrip context exten e callback data s cbk :
  ids_used s -> existsb (has_hint e) (hints s) = true ->
  let '(id, s1) := cw_extension_state_add (Some context) (Some exten) (Some e) true callback data s in
  id = stateid s /\ hintlock s1 = hintlock s /\
  watchers (hints s1) ≡ₚ {| cb_id := id; cb_callback := callback; cb_data := data |}
                           :: watchers (hints s) /\
  (stateid s < INT_MAX -> ids_used s1) /\
  let '(ret, s2) := cw_extension_state_del id cbk s1 in
  ret = 0 /\ hints s2 = hints s /\ hintlock s2 = hintlock s.
Proof.
  intros [Hp Hw] He. unfold cw_extension_state_add. simpl. rewrite He. simpl.
  set (cb := {| cb_id := stateid s; cb_callback := callback; cb_data := data |}).
  destruct (on_hint_some e (fun h => h <| h_callbacks := cb :: h_callbacks h |>) _ He) as [hs Ehs].
  simpl in Ehs. rewrite Ehs. simpl.
  assert (watchers hs ≡ₚ cb :: watchers (hints s)) as Hperm.
  { eapply (on_hint_watchers e _ (hints s) hs [cb]); [|exact Ehs]. done. }
  split; [done|]. split; [lia|]. split; [exact Hperm|]. split.
  - intros Hm. unfold ids_used. simpl. rewrite s32_id by (unfold INT_MIN; lia). split; [lia|].
    rewrite Hperm. constructor; [simpl; lia|]. eapply Forall_impl; [exact Hw|]. simpl. lia.
  - unfold cw_extension_state_del. destruct (Z.eqb_spec (stateid s) 0); [lia|]. simpl.
    change (stateid s) with (cb_id cb). rewrite (del_pushed e cb (hints s) hs Hw Ehs). simpl.
    split_and!; [done|done|lia].
Qed.

(** Deleting a general watcher that is not registered takes the lock of the
    hints twice and releases it never: every later operation on hints from
    another thread waits for ever. *)
Theorem state_del_keeps_lock s callback :
  Forall (fun cb => cb_callback cb <> callback) (statecbs s) ->
  cw_extension_state_del 0 (Some callback) s = (-1, s <| hintlock := hintlock s + 2 |>).
Proof.
  intros H. unfold cw_extension_state_del. simpl. rewrite remove_first_none.
  - unfold lock_hints. simpl. by replace (hintlock s + 1 + 1) with (hintlock s + 2) by lia.
  - eapply Forall_impl; [exact H|]. simpl. intros cb. apply Z.eqb_neq.
Qed.

(** ** A hint that is left behind *)

Lemma abs_remove_all extension registrar gs gs' zs :
  abs_remove extension 0 registrar gs = Some (gs', zs) ->
  exists pre post, gs = pre ++ zs :: post /\ gs' = pre ++ post.
Proof.
  revert gs' zs. induction gs as [|[|y k] gs IH]; intros gs' zs; [done..|]. cbn [abs_remove].
  destruct (names extension registrar y.2).
  - intros [= <- <-]. by exists [], gs.
  - destruct (abs_remove extension 0 registrar gs) as [[gs1 zs1]|]; cbn [mbind option_bind]; [|done].
    intros [= <- <-]. destruct (IH _ _ eq_refl) as (pre & post & -> & ->).
    by exists ((y :: k) :: pre), post.
Qed.

Lemma hints_changed_dangling device_state d cbs device hs h :
  h ∈ hs -> read_exten d (h_exten h) = None -> hints_changed device_state d cbs device hs = None.
Proof.
  intros Hin Hr. induction hs as [|g hs IH]; [by apply elem_of_nil in Hin|]. cbn [hints_changed].
  apply elem_of_cons in Hin as [->|Hin]; [by rewrite Hr|].
  destruct (read_exten d (h_exten g)) as [[c x]|]; cbn [mbind option_bind]; [|done].
  destruct (hint_changed _ _ _ _ _ _ _). by rewrite IH.
Qed.

(** Removing an extension with all its priorities leaves its hint behind: no
    hint is removed with it, so the hint keeps the address of freed memory, and
    the next change of any device reads it. *)
Theorem removed_extension_hint_dangles device_state c others extension registrar gs gs' zs a x s h
    device :
  shape (c_exts c) gs -> abs_remove extension 0 registrar gs = Some (gs', zs) -> (a, x) ∈ zs ->
  Forall (fun c' => s_heap (c_exts c') !! a = None) others ->
  h ∈ hints s -> h_exten h = a ->
  exists r, cw_context_remove_extension2 (c_exts c) true extension 0 registrar = Some r /\
    r_ret r = None /\ r_hints r = [] /\
    cw_hint_state_changed device_state (c <| c_exts := r_store r |> :: others) device s = None.
Proof.
  intros Hs Ha Hx Ho Hh <-.
  assert (first_of_first extension 0 registrar gs = false) as Hff.
  { destruct gs as [|[|y [|z k]] gs]; simpl; try done. by rewrite andb_false_r. }
  pose proof (remove_extension2_ok (c_exts c) gs extension 0 registrar Hs Hff) as Hr.
  cbv zeta in Hr. rewrite Ha in Hr. destruct Hr as (r & Hr & Hret & Hs' & _ & Hev).
  exists r. split_and!; [done|done|done|].
  assert (s_heap (r_store r) !! h_exten h = None) as Hn.
  { destruct (s_heap (r_store r) !! h_exten h) as [n|] eqn:E; [|done].
    pose proof (shape_dom _ _ Hs' _ (mk_is_Some _ _ E)) as Hin.
    destruct (abs_remove_all _ _ _ _ _ Ha) as (pre & post & -> & ->).
    destruct (shape_apart _ _ _ _ Hs) as (Hap & _).
    assert (h_exten h ∈ zs.*1) as Hz by (apply list_elem_of_fmap; by exists (h_exten h, x)).
    destruct (Hap _ Hz) as [H1 H2]. rewrite addresses_app in Hin.
    apply elem_of_app in Hin as [?|?]; done. }
  unfold cw_hint_state_changed. simpl. rewrite (hints_changed_dangling _ _ _ _ _ h); [done|done|].
  simpl. rewrite Hn. clear -Ho. induction Ho as [|c' l Hc _ IH]; simpl; [done|]. by rewrite Hc.
Qed.

(** ** Examples: the extension 100 has a hint for two devices, watched twice. *)

Definition hint_store : ext_store :=
  match cw_add_extension2 demo (Some 4) true false "100" PRIORITY_HINT None None "SIP/1&SIP/2" 0 "cfg" with
  | Some r => r_store r
  | None => demo
  end.

Definition hint_context : cw_context := (new_context "default" "cfg") <| c_exts := hint_store |>.

Definition hint_groups : list (list entry) :=
  [[(4, new_exten "100" PRIORITY_HINT None None "SIP/1&SIP/2" 0 "cfg");
    (1, demo_entry "100" 1 1001); (3, demo_entry "100" 2 1003)]; [(2, demo_entry "200" 1 1002)]].

Lemma hint_store_shape : shape hint_store hint_groups /\ ordered hint_groups.
Proof.
  assert (reach hint_store) as Hr.
  { unfold hint_store. destruct (cw_add_extension2 _ _ _ _ _ _ _ _ _ _ _) as [r|] eqn:E;
      [|apply demo_reach].
    eapply reach_add; [apply demo_reach| | |exact E]; [|reflexivity]. by intros ta [= <-]. }
  destruct (reach_inv _ Hr) as (gs & Hg & Hs & Ho).
  assert (gs = hint_groups) as ->; [|done]. vm_compute in Hg. by injection Hg as <-.
Qed.

Definition watched : hint_state :=
  {| hints := [{| h_exten := 4; h_laststate := 0;
                  h_callbacks := [{| cb_id := 1; cb_callback := 70; cb_data := 7 |}] |}];
     statecbs := [{| cb_id := 0; cb_callback := 80; cb_data := 8 |}]; stateid := 2; hintlock := 0 |}.

Definition one_rings (device : string) : Z :=
  if streq device "SIP/2" then CW_DEVICE_RINGING else CW_DEVICE_NOT_INUSE.

Lemma watchers_told_once_witness :
  exists s', cw_hint_state_changed one_rings [hint_context] "SIP/2" watched =
    Some (s', [{| nt_callback := 80; nt_context := "default"; nt_exten := "100"; nt_state := 8;
                  nt_data := 8 |};
               {| nt_callback := 70; nt_context := "default"; nt_exten := "100"; nt_state := 8;
                  nt_data := 7 |}]%string).
Proof.
  destruct (watchers_told_once one_rings [hint_context] "SIP/2" watched) as (s' & E & _).
  - constructor; [|constructor]. vm_compute. eauto.
  - exists s'. etransitivity; [exact E|]. vm_compute. reflexivity.
Defined.

Lemma watcher_roundtrip_witness :
  let '(id, s1) := cw_extension_state_add (Some "default"%string) (Some "100"%string) (Some 4) true
                     71 9 watched in
  id = 2 /\ hints (cw_extension_state_del id None s1).2 = hints watched.
Proof.
  pose proof (watcher_roundtrip "default" "100" 4 71 9 watched None) as H.
  destruct (cw_extension_state_add _ _ _ _ _ _ watched) as [id s1].
  destruct H as (-> & _ & _ & _ & H); [split; [reflexivity|]; repeat constructor; reflexivity|reflexivity|].
  split; [reflexivity|]. destruct (cw_extension_state_del _ _ s1) as [ret s2].
  destruct H as (_ & H & _). exact H.
Defined.

Lemma state_del_keeps_lock_witness :
  hintlock (cw_extension_state_del 0 (Some 99) watched).2 = 2.
Proof.
  rewrite (state_del_keeps_lock watched 99); [reflexivity|]. repeat constructor; discriminate.
Defined.

Lemma reload_keeps_watchers_witness :
  let d := {| contexts := [hint_context]; conlock := 0 |} in
  exists d' s' ns,
    cw_merge_contexts_and_delete one_rings [] id some_evening d (fun _ => true) (fun _ => true)
      [new_context "default" "cfg"] (Some "cfg"%string) watched = Some (d', [], s', ns) /\
    accounted [new_context "default" "cfg"; hint_context] (hint_lookup [] id some_evening (contexts d'))
      (hints watched) (hints s') ns.
Proof.
  destruct (reload_keeps_watchers one_rings [] id some_evening
    {| contexts := [hint_context]; conlock := 0 |} (fun _ => true) [new_context "default" "cfg"] "cfg"
    watched) as (d' & s' & ns & E & _ & H).
  - split; simpl; [|repeat constructor; by intros ?%elem_of_nil].
    constructor; [|constructor]. eapply new_context_with_wf; apply hint_store_shape.
  - split; [repeat constructor; simpl; try done|]; [exists []; split; [apply empty_shape|done]|].
    split; [repeat constructor; by intros ?%elem_of_nil|].
    intros c e Hc He _. apply list_elem_of_singleton in Hc as ->. reflexivity.
  - constructor; [|constructor]. vm_compute. eauto.
  - exists d', s', ns. split; [exact E|exact H].
Defined.

Lemma removed_extension_hint_dangles_witness :
  exists r, cw_context_remove_extension2 hint_store true "100" 0 None = Some r /\ r_hints r = [] /\
    cw_hint_state_changed one_rings [hint_context <| c_exts := r_store r |>] "SIP/1" watched = None.
Proof.
  destruct (removed_extension_hint_dangles one_rings hint_context [] "100" None hint_groups
    [[(2, demo_entry "200" 1 1002)]]
    [(4, new_exten "100" PRIORITY_HINT None None "SIP/1&SIP/2" 0 "cfg");
     (1, demo_entry "100" 1 1001); (3, demo_entry "100" 2 1003)]
    4 (new_exten "100" PRIORITY_HINT None None "SIP/1&SIP/2" 0 "cfg") watched
    {| h_exten := 4; h_laststate := 0;
       h_callbacks := [{| cb_id := 1; cb_callback := 70; cb_data := 7 |}] |} "SIP/1")
    as (r & Hr & _ & Hh & Hc).
  - apply hint_store_shape.
  - reflexivity.
  - left.
  - constructor.
  - left.
  - reflexivity.
  - exists r. split; [exact Hr|]. split; [exact Hh|exact Hc].
Defined.
