(* ===== verification/CallerId.v ===== *)
(** * Caller ids and phone numbers (corelib/phone_no_utils.c)

    A caller id is a name and a number, written as one text such as
    ["Alice" <1234>].  [cw_callerid_merge] writes it, [cw_callerid_parse] and
    [cw_callerid_split] take it apart; [cw_shrink_phone_number] removes the
    decoration of a number in place, in the buffer that holds it.

    [None] in place of a buffer's content is a bad memory access; a string is
    [None] for the NULL pointer.  A [char] is signed. *)

From S2P Require Import Prelude CStr Utils Args Vars.
Open Scope Z_scope.

(** ** Presentation *)

Record pres_type := { pres_val : Z; pres_name : string; pres_description : string }.

Definition CW_PRES_USER_NUMBER_UNSCREENED := 0.
Definition CW_PRES_USER_NUMBER_PASSED_SCREEN := 1.
Definition CW_PRES_USER_NUMBER_FAILED_SCREEN := 2.
Definition CW_PRES_NETWORK_NUMBER := 3.
Definition CW_PRES_ALLOWED := 0.
Definition CW_PRES_RESTRICTED := 0x20.
Definition CW_PRES_UNAVAILABLE := 0x40.

Definition pres_types : list pres_type :=
  [ {| pres_val := CW_PRES_USER_NUMBER_UNSCREENED + CW_PRES_ALLOWED;
       pres_name := "allowed_not_screened";
       pres_description := "Presentation Allowed, Not Screened" |};
    {| pres_val := CW_PRES_USER_NUMBER_PASSED_SCREEN + CW_PRES_ALLOWED;
       pres_name := "allowed_passed_screen";
       pres_description := "Presentation Allowed, Passed Screen" |};
    {| pres_val := CW_PRES_USER_NUMBER_FAILED_SCREEN + CW_PRES_ALLOWED;
       pres_name := "allowed_failed_screen";
       pres_description := "Presentation Allowed, Failed Screen" |};
    {| pres_val := CW_PRES_NETWORK_NUMBER + CW_PRES_ALLOWED;
       pres_name := "allowed";
       pres_description := "Presentation Allowed, Network Number" |};
    {| pres_val := CW_PRES_USER_NUMBER_UNSCREENED + CW_PRES_RESTRICTED;
       pres_name := "prohib_not_screened";
       pres_description := "Presentation Prohibited, Not Screened" |};
    {| pres_val := CW_PRES_USER_NUMBER_PASSED_SCREEN + CW_PRES_RESTRICTED;
       pres_name := "prohib_passed_screen";
       pres_description := "Presentation Prohibited, Passed Screen" |};
    {| pres_val := CW_PRES_USER_NUMBER_FAILED_SCREEN + CW_PRES_RESTRICTED;
       pres_name := "prohib_failed_screen";
       pres_description := "Presentation Prohibited, Failed Screen" |};
    {| pres_val := CW_PRES_NETWORK_NUMBER + CW_PRES_RESTRICTED;
       pres_name := "prohib";
       pres_description := "Presentation Prohibited, Network Number" |};
    {| pres_val := CW_PRES_NETWORK_NUMBER + CW_PRES_UNAVAILABLE;
       pres_name := "unavailable";
       pres_description := "Number Unavailable" |} ]%string.

Definition cw_parse_caller_presentation (data : string) : Z :=
  match List.find (fun p => strcaseeq (pres_name p) data) pres_types with
  | Some p => pres_val p
  | None => -1
  end.

Definition cw_describe_caller_presentation (data : Z) : string :=
  match List.find (fun p => pres_val p =? data) pres_types with
  | Some p => pres_description p
  | None => "unknown"
  end.

(** ** Numbers *)

Definition NUL : ascii := chr 0.

(** A string in its buffer, and the string a buffer holds. *)
Definition buffer (s : string) : list ascii := String.list_ascii_of_string s ++ [NUL].

Fixpoint cstring (n : list ascii) : string :=
  match n with
  | [] => EmptyString
  | c :: n => if code c =? 0 then EmptyString else String c (cstring n)
  end.

Definition bracket (bracketed : Z) (c : ascii) : Z :=
  if char_eqb c "[" then bracketed + 1
  else if char_eqb c "]" then bracketed - 1 else bracketed.

(** The cases of the switch that store the character; [next] is the one
    behind it. *)
Definition stores (bracketed : Z) (c next : ascii) : bool :=
  if char_eqb c "[" || char_eqb c "]" then true
  else if char_eqb c "-" then negb (bracketed =? 0)
  else if char_eqb c "." then code next =? 0
  else negb (strchr "( )" c).

(** The loop reads [n] at [x] and writes the same buffer at [y]. *)
Fixpoint shrink_loop (fuel : nat) (n : list ascii) (x y : nat) (bracketed : Z) : list ascii :=
  match fuel with
  | O => n
  | S fuel =>
    match n !! x with
    | None => n
    | Some c =>
      if code c =? 0 then <[y := NUL]> n
      else
        let bracketed := bracket bracketed c in
        if stores bracketed c (default NUL (n !! S x))
        then shrink_loop fuel (<[y := c]> n) (S x) (S y) bracketed
        else shrink_loop fuel n (S x) y bracketed
    end
  end.

Definition cw_shrink_phone_number (n : string) : string :=
  cstring (shrink_loop (S (String.length n)) (buffer n) 0 0 0).

Definition phone_char (c : ascii) : bool := strchr "0123456789*#+" c.

Definition cw_isphonenumber (n : option string) : bool :=
  match n with
  | None => false
  | Some EmptyString => false
  | Some n => all_chars phone_char n
  end.

(** ** Caller ids *)

Definition cw_callerid_merge (bufsiz : Z) (name num unknown : option string) : option string :=
  match name, num with
  | Some name, Some num => put bufsiz (dquoted name +:+ " <" +:+ num +:+ ">")
  | Some name, None => put bufsiz name
  | None, Some num => put bufsiz num
  | None, None => put bufsiz (default "<unknown>"%string unknown)
  end.

(** A character below 33, and the two loops that trim them. *)
Definition blank (c : ascii) : bool := schar c <? 33.

Fixpoint trim_left (p : ascii -> bool) (s : string) : string :=
  match s with
  | String c s' => if p c then trim_left p s' else s
  | EmptyString => EmptyString
  end.

Fixpoint trim_right (p : ascii -> bool) (s : string) : string :=
  match s with
  | EmptyString => EmptyString
  | String c s =>
    match trim_right p s with
    | EmptyString => if p c then EmptyString else String c EmptyString
    | t => String c t
    end
  end.

(** The last loop stops at the first character, whatever it is. *)
Definition trim_tail (p : ascii -> bool) (s : string) : string :=
  match s with
  | EmptyString => EmptyString
  | String c s => String c (trim_right p s)
  end.

Definition blank_or_quote (c : ascii) : bool := blank c || char_eqb c dquote.

(** A text without a location in angle brackets. *)
Definition parse_bare (instr : string) : option string * option string :=
  if cw_isphonenumber (Some (cw_shrink_phone_number (strtake 255 instr)))
  then (None, Some instr)
  else (Some (trim_tail blank_or_quote (trim_left blank_or_quote instr)), None).

(** The name in front of the location: what is in quotes, else what is left
    without the blanks around it. *)
Definition parse_name (before : string) : string :=
  let trimmed := trim_left blank (trim_right blank before) in
  match strcut dquote before with
  | (_, Some quoted) =>
    match strcut dquote quoted with
    | (name, Some _) => name
    | (_, None) => trimmed
    end
  | (_, None) => trimmed
  end.

(** The name and the location: the pieces the two pointers show, NULL as
    [None].  The function always answers 0. *)
Definition cw_callerid_parse (instr : string) : option string * option string :=
  match strcut "<" instr with
  | (before, Some rest) =>
    match strcut ">" rest with
    | (location, Some _) => (Some (parse_name before), Some location)
    | (_, None) => parse_bare instr
    end
  | (_, None) => parse_bare instr
  end.

(** What the two buffers of the caller hold after it. *)
Definition cw_callerid_split (buf : string) (namelen numlen : Z) : option (string * string) :=
  let '(n, l) := cw_callerid_parse buf in
  name ← match n with Some n => put namelen n | None => Some EmptyString end;
  num ← match l with
        | Some l => put numlen (cw_shrink_phone_number l)
        | None => Some EmptyString
        end;
  Some (name, num).

(** ** The number without its decoration *)

Definition lacks (c : ascii) (s : string) : bool := all_chars (fun d => negb (char_eqb d c)) s.

Definition nul_free (s : string) : bool := all_chars (fun c => negb (code c =? 0)) s.

(** What the loop is for: the characters that are stored, by what surrounds
    them in the number as it was. *)
Fixpoint shrunk (bracketed : Z) (s : string) : string :=
  match s with
  | EmptyString => EmptyString
  | String c s =>
    let bracketed := bracket bracketed c in
    let next := match s with EmptyString => NUL | String d _ => d end in
    if stores bracketed c next then String c (shrunk bracketed s) else shrunk bracketed s
  end.

Lemma cstring_app (l : list ascii) n :
  Forall (fun c => code c <> 0) l ->
  cstring (l ++ n) = (String.string_of_list_ascii l +:+ cstring n)%string.
Proof.
  induction 1 as [|c l Hc _ IH]; [done|]. cbn. apply Z.eqb_neq in Hc. by rewrite Hc, IH.
Qed.

Lemma string_of_app (l k : list ascii) :
  String.string_of_list_ascii (l ++ k)
  = (String.string_of_list_ascii l +:+ String.string_of_list_ascii k)%string.
Proof. induction l as [|c l IH]; [done|]. simpl. by rewrite IH. Qed.

Lemma shrink_loop_spec rest fuel out junk b :
  nul_free rest = true -> Forall (fun c => code c <> 0) out ->
  (String.length rest < fuel)%nat ->
  cstring (shrink_loop fuel (out ++ junk ++ buffer rest) (length out + length junk) (length out) b)
  = (String.string_of_list_ascii out +:+ shrunk b rest)%string.
Proof.
  revert fuel out junk b. induction rest as [|c s IH]; intros [|fuel] out junk b Hn Ho Hf;
    cbn [String.length] in Hf; try lia.
  - cbn [shrink_loop]. unfold buffer; cbn [String.list_ascii_of_string app].
    rewrite lookup_app_r, lookup_app_r by lia.
    replace (_ - _ - _)%nat with 0%nat by lia. cbn [lookup list_lookup].
    change (code NUL =? 0) with true. cbn iota.
    rewrite <- (Nat.add_0_r (length out)), insert_app_r.
    rewrite cstring_app by done. destruct junk; done.
  - cbn [nul_free all_chars] in Hn. b2p. cbn [shrink_loop].
    change (buffer (String c s)) with (c :: buffer s).
    rewrite lookup_app_r, lookup_app_r by lia.
    replace (_ - _ - _)%nat with 0%nat by lia. cbn [lookup list_lookup].
    apply Z.eqb_neq in H as E. rewrite E.
    assert (Hx : default NUL ((out ++ junk ++ c :: buffer s) !! S (length out + length junk))
      = match s with EmptyString => NUL | String d _ => d end).
    { rewrite lookup_app_r, lookup_app_r by lia.
      replace (_ - _ - _)%nat with 1%nat by lia. by destruct s. }
    rewrite Hx. cbn [shrunk].
    destruct (stores (bracket b c) c _).
    + rewrite <- (Nat.add_0_r (length out)) at 1. rewrite insert_app_r.
      assert (Ho' : Forall (fun c => code c <> 0) (out ++ [c])) by (apply Forall_app; auto).
      assert (Hl : length (out ++ [c]) = S (length out)) by (rewrite length_app; simpl; lia).
      destruct junk as [|d junk].
      * specialize (IH fuel (out ++ [c]) [] (bracket b c) H0 Ho' ltac:(lia)).
        rewrite Hl, <- app_assoc in IH. simpl in IH |- *. rewrite IH.
        by rewrite string_of_app, string_app_assoc.
      * specialize (IH fuel (out ++ [c]) (junk ++ [c]) (bracket b c) H0 Ho' ltac:(lia)).
        rewrite Hl, <- !app_assoc, length_app in IH. simpl in IH |- *.
        rewrite Nat.add_1_r in IH. simpl in IH. rewrite Nat.add_succ_r in IH |- *. rewrite IH.
        by rewrite string_of_app, string_app_assoc.
    + specialize (IH fuel out (junk ++ [c]) (bracket b c) H0 Ho ltac:(lia)).
      rewrite <- app_assoc, length_app, Nat.add_assoc, Nat.add_1_r in IH. exact IH.
Qed.

Lemma shrink_eq s : nul_free s = true -> cw_shrink_phone_number s = shrunk 0 s.
Proof.
  intros H. apply (shrink_loop_spec s (S (String.length s)) [] [] 0 H); [constructor|lia].
Qed.

Lemma stores_next b c d d' : (char_eqb c "." = true -> (code d =? 0) = (code d' =? 0)) ->
  stores b c d = stores b c d'.
Proof. intros H. unfold stores. destruct (char_eqb c "."); [by rewrite H|done]. Qed.

Lemma bracket_dropped b c d : stores (bracket b c) c d = false -> bracket b c = b.
Proof. unfold stores, bracket. by destruct (char_eqb c "["), (char_eqb c "]"). Qed.

Lemma nul_free_shrunk s b : nul_free s = true -> nul_free (shrunk b s) = true.
Proof.
  unfold nul_free. revert b. induction s as [|c s IH]; intros b; [done|]. cbn [all_chars shrunk].
  intros [Hc Hs]%andb_true_iff. case_if; [|by apply IH]. cbn [all_chars]. by rewrite Hc, IH.
Qed.

Lemma shrunk_idem s b : nul_free s = true -> shrunk b (shrunk b s) = shrunk b s.
Proof.
  unfold nul_free. revert b. induction s as [|c s IH]; intros b; [done|]. cbn [all_chars shrunk].
  intros [Hc Hs]%andb_true_iff.
  destruct (stores (bracket b c) c _) eqn:E.
  2: { apply bracket_dropped in E. rewrite E. by apply IH. }
  cbn [shrunk]. rewrite (stores_next _ _ _ (match s with EmptyString => NUL | String d _ => d end)).
  { by rewrite E, IH. }
  intros Hd. destruct s as [|d s]; [done|]. cbn [all_chars] in Hs.
  apply andb_true_iff in Hs as [Hd0 _]. apply negb_true_iff in Hd0.
  apply char_eqb_eq in Hd as ->. change ((code d =? 0) = true) in E. congruence.
Qed.

(** The loop that reads and writes one buffer stores what the reading of the
    number as it was asks for, and a number that has been through it is left as
    it is. *)
Theorem shrink_in_place s :
  nul_free s = true ->
  cw_shrink_phone_number s = shrunk 0 s /\
  cw_shrink_phone_number (cw_shrink_phone_number s) = cw_shrink_phone_number s.
Proof.
  intros H. rewrite (shrink_eq s) by done. split; [done|].
  rewrite shrink_eq by (by apply nul_free_shrunk). by apply shrunk_idem.
Qed.

Lemma shrink_in_place_witness :
  cw_shrink_phone_number "+1 (555) 12-34.[0-9]" = shrunk 0 "+1 (555) 12-34.[0-9]" /\
  cw_shrink_phone_number "+1 (555) 12-34.[0-9]" = "+15551234[0-9]"%string.
Proof.
  split; [exact (proj1 (shrink_in_place "+1 (555) 12-34.[0-9]" eq_refl))|vm_compute; reflexivity].
Defined.

(** Nothing of a plain number is decoration. *)
Lemma phone_char_stored b c d : phone_char c = true -> bracket b c = b /\ stores b c d = true.
Proof.
  intros H.
  assert (E : implb (phone_char c) (negb (char_eqb c "[") && negb (char_eqb c "]")
    && negb (char_eqb c "-") && negb (char_eqb c ".") && negb (strchr "( )" c)
    && negb (code c =? 0)) = true).
  { revert c H. intros c _. revert c. apply all_codes. vm_compute. reflexivity. }
  rewrite H in E. cbn [implb] in E. unfold bracket, stores.
  destruct (char_eqb c "["), (char_eqb c "]"), (char_eqb c "-"), (char_eqb c "."),
    (strchr "( )" c); done.
Qed.

Lemma phone_nul_free s : all_chars phone_char s = true -> nul_free s = true.
Proof.
  unfold nul_free. induction s as [|c s IH]; cbn [all_chars]; [done|].
  intros [Hc Hs]%andb_true_iff. rewrite IH by done. rewrite andb_true_r.
  assert (E : implb (phone_char c) (negb (code c =? 0)) = true).
  { revert c Hc. intros c _. revert c. apply all_codes. vm_compute. reflexivity. }
  by rewrite Hc in E.
Qed.

Lemma phone_shrunk s b : all_chars phone_char s = true -> shrunk b s = s.
Proof.
  revert b. induction s as [|c s IH]; intros b; [done|]. cbn [all_chars shrunk].
  intros [Hc Hs]%andb_true_iff.
  match goal with |- context [stores _ c ?d] => destruct (phone_char_stored b c d Hc) as [-> ->] end.
  by rewrite IH.
Qed.

Lemma shrink_phone s : all_chars phone_char s = true -> cw_shrink_phone_number s = s.
Proof.
  intros H. rewrite shrink_eq by (by apply phone_nul_free). by apply phone_shrunk.
Qed.

(** ** Round trip of caller ids *)

Lemma lacks_cons c d s : lacks c (String d s) = negb (char_eqb d c) && lacks c s.
Proof. done. Qed.

Lemma strcut_lacks c s : lacks c s = true -> strcut c s = (s, None).
Proof.
  induction s as [|d s IH]; [done|]. rewrite lacks_cons. intros [Hd Hs]%andb_true_iff.
  apply negb_true_iff in Hd. cbn [strcut]. by rewrite Hd, IH.
Qed.

Lemma strcut_at c s t : lacks c s = true -> strcut c (s +:+ String c t) = (s, Some t).
Proof.
  induction s as [|d s IH]; intros H.
  - rewrite string_nil_app. cbn [strcut]. by rewrite char_eqb_refl.
  - rewrite lacks_cons in H. apply andb_true_iff in H as [Hd Hs]. apply negb_true_iff in Hd.
    rewrite string_cons_app. cbn [strcut]. by rewrite Hd, IH.
Qed.

Lemma put_fit size s : Z.of_nat (String.length s) < size -> Vars.put size s = Some s.
Proof.
  intros H. unfold Vars.put. destruct (Z.leb_spec size 0); [lia|].
  rewrite strtake_all by lia. done.
Qed.

Lemma trim_left_id p c s : p c = false -> trim_left p (String c s) = String c s.
Proof. cbn. by intros ->. Qed.

(** The last character of a string that is not empty. *)
Fixpoint last_char (c : ascii) (s : string) : ascii :=
  match s with EmptyString => c | String d s => last_char d s end.

Lemma trim_right_id p c s : p (last_char c s) = false -> trim_right p (String c s) = String c s.
Proof.
  revert c. induction s as [|d s IH]; intros c; [by cbn; intros ->|]. cbn [last_char].
  intros H. specialize (IH d H). cbn [trim_right] in IH |- *. by rewrite IH.
Qed.

Lemma trim_tail_id p c s : p (last_char c s) = false -> trim_tail p (String c s) = String c s.
Proof.
  intros H. cbn [trim_tail]. destruct s as [|d s]; [done|]. by rewrite trim_right_id.
Qed.

(** Names and numbers that can be told apart again: with both, the name has no
    quote or opening bracket and the number no closing one and no decoration;
    a number alone is a phone number; a name alone does not look like one and
    has nothing around it that is trimmed. *)
Definition clid_ok (name num : option string) : bool :=
  match name, num with
  | Some n, Some m =>
    lacks "<" n && lacks dquote n && lacks ">" m && streq (cw_shrink_phone_number m) m
  | None, Some m =>
    cw_isphonenumber (Some m) && (Z.of_nat (String.length m) <=? 255)
  | Some n, None =>
    match n with
    | EmptyString => false
    | String c s => negb (blank_or_quote c) && negb (blank_or_quote (last_char c s))
    end && lacks "<" n
    && negb (cw_isphonenumber (Some (cw_shrink_phone_number (strtake 255 n))))
  | None, None => false
  end.

Definition clid_length (name num : option string) : Z :=
  match name, num with
  | Some n, Some m => Z.of_nat (String.length n) + Z.of_nat (String.length m) + 5
  | Some s, None | None, Some s => Z.of_nat (String.length s)
  | None, None => 0
  end.

Lemma parse_both n m :
  lacks "<" n = true -> lacks dquote n = true -> lacks ">" m = true ->
  cw_callerid_parse (dquoted n +:+ " <" +:+ m +:+ ">") = (Some n, Some m).
Proof.
  intros Hl Hq Hr. unfold cw_callerid_parse.
  replace (dquoted n +:+ " <" +:+ m +:+ ">")%string
    with ((dquoted n +:+ " ") +:+ String "<" (m +:+ String ">" ""))%string
    by (rewrite !string_app_assoc; done).
  rewrite strcut_at.
  2: { unfold lacks, dquoted in *. rewrite !string_cons_app. cbn [all_chars].
       rewrite !all_chars_app, Hl. done. }
  rewrite strcut_at by done. do 2 f_equal. unfold parse_name, dquoted.
  rewrite !string_cons_app, (string_app_assoc n), string_cons_app.
  assert (E : forall t, strcut dquote (String dquote t) = (""%string, Some t))
    by (intros t; by apply (strcut_at dquote "")).
  rewrite E. by rewrite strcut_at.
Qed.

Lemma parse_number m :
  cw_isphonenumber (Some m) = true -> (String.length m <= 255)%nat ->
  cw_callerid_parse m = (None, Some m).
Proof.
  intros Hm Hl. assert (Ha : all_chars phone_char m = true) by (destruct m; done).
  assert (E : lacks "<" m = true).
  { clear Hm Hl. induction m as [|c m IH]; [done|]. cbn [all_chars] in Ha.
    apply andb_true_iff in Ha as [Hc Ha]. rewrite lacks_cons, IH, andb_true_r by done.
    destruct (char_eqb c "<") eqn:E; [|done]. apply char_eqb_eq in E as ->. done. }
  unfold cw_callerid_parse. rewrite strcut_lacks by done. unfold parse_bare.
  rewrite strtake_all, shrink_phone by done. by rewrite Hm.
Qed.

Lemma parse_only_name n : clid_ok (Some n) None = true -> cw_callerid_parse n = (Some n, None).
Proof.
  destruct n as [|c s]; [done|]. cbn [clid_ok]. intros H.
  apply andb_true_iff in H as [H Hp]. apply andb_true_iff in H as [H Hl].
  apply andb_true_iff in H as [Hh Ht]. apply negb_true_iff in Hh, Ht, Hp.
  unfold cw_callerid_parse. rewrite strcut_lacks by done. unfold parse_bare. rewrite Hp.
  by rewrite trim_left_id, trim_tail_id.
Qed.



(** ** Presentation *)

(** The table has no name and no value twice, so the value of a name, in any
    case, is described by the description beside it. *)
Lemma presentation_roundtrip p :
  p ∈ pres_types ->
  cw_describe_caller_presentation (cw_parse_caller_presentation (pres_name p)) = pres_description p.
Proof.
  intros H. unfold pres_types in H.
  repeat (apply elem_of_cons in H as [->|H]; [vm_compute; reflexivity|]). by apply elem_of_nil in H.
Qed.

(** ** Odd caller ids *)

(** The text that stands for a caller without an id is taken apart as the
    number [unknown]. *)
Example unknown_is_a_number :
  match cw_callerid_merge 80 None None None with
  | Some buf => cw_callerid_split buf 80 80
  | None => None
  end = Some (EmptyString, "unknown"%string).
Proof. vm_compute. reflexivity. Qed.

(** A character beyond ASCII is negative and so below 33: at the ends of a name
    that is not in quotes it is trimmed as a blank. *)
Definition jose : string := "Jos" +:+ String (chr 0xC3) (String (chr 0xA9) "").

Example accents_trimmed :
  cw_callerid_split (jose +:+ " <100>") 80 80 = Some ("Jos", "100")%string /\
  cw_callerid_split (dquoted jose +:+ " <100>") 80 80 = Some (jose, "100"%string).
Proof. vm_compute. by split. Qed.
