(* ===== verification/Cdr.v ===== *)
(** * Call detail records (corelib/cdr.c, include/callweaver/cdr.h)

    What a call leaves to the accountants: who called whom, when it started,
    was answered and ended, what became of it, and variables of the dialplan's
    own.  A channel holds a chain of records, linked by their [next]: here a
    list.  An operation on a channel's record is one on the whole chain.

    The clock [now n] is what the [n]-th call of [cw_tvnow] answers; operations
    that look at it take and return the number of calls so far.  [None] in
    place of a result is a bad memory access.  Log messages are left out. *)

From S2P Require Import Prelude Time CStr Utils Hash Timing Args Vars CallerId World.
Open Scope Z_scope.

(** ** The record *)

Definition CW_CDR_FLAG_KEEP_VARS : Z := 1.
Definition CW_CDR_FLAG_POSTED : Z := 2.
Definition CW_CDR_FLAG_LOCKED : Z := 4.
Definition CW_CDR_FLAG_CHILD : Z := 8.
Definition CW_CDR_FLAG_POST_DISABLED : Z := 16.

Definition CW_CDR_NOANSWER : Z := 1.
Definition CW_CDR_BUSY : Z := 2.
Definition CW_CDR_ANSWERED : Z := 4.
Definition CW_CDR_FAILED : Z := 8.

Definition CW_CDR_OMIT : Z := 1.
Definition CW_CDR_BILLING : Z := 2.
Definition CW_CDR_DOCUMENTATION : Z := 3.

(** [CW_MAX_EXTENSION], the size of most fields. *)
Definition FIELD_SIZE : Z := 80.
Definition CW_MAX_USER_FIELD : Z := 256.
Definition CW_MAX_ACCOUNT_CODE : Z := 20.
Definition UNIQUEID_SIZE : Z := 32.

Record cw_cdr := {
  clid : string;
  src : string;
  dst : string;
  dcontext : string;
  channel : string;
  dstchannel : string;
  lastapp : string;
  lastdata : string;
  start : timeval;
  answer : timeval;
  end_ : timeval;
  duration : Z;
  billsec : Z;
  disposition : Z;
  amaflags : Z;
  accountcode : string;
  flags : Z;
  uniqueid : string;
  userfield : string;
  varshead : list cw_var_t;
}.

#[export] Instance cw_cdr_eta : Eta cw_cdr := fun c =>
  {| clid := clid c; src := src c; dst := dst c; dcontext := dcontext c; channel := channel c;
     dstchannel := dstchannel c; lastapp := lastapp c; lastdata := lastdata c; start := start c;
     answer := answer c; end_ := end_ c; duration := duration c; billsec := billsec c;
     disposition := disposition c; amaflags := amaflags c; accountcode := accountcode c;
     flags := flags c; uniqueid := uniqueid c; userfield := userfield c; varshead := varshead c |}.

Definition tv_zero : timeval := cw_tv 0 0.

(** The memory [cw_cdr_alloc] clears. *)
Definition cw_cdr_alloc : cw_cdr :=
  {| clid := ""; src := ""; dst := ""; dcontext := ""; channel := ""; dstchannel := "";
     lastapp := ""; lastdata := ""; start := tv_zero; answer := tv_zero; end_ := tv_zero;
     duration := 0; billsec := 0; disposition := 0; amaflags := 0; accountcode := "";
     flags := 0; uniqueid := ""; userfield := ""; varshead := [] |}%string.

Definition cdr_test_flag (c : cw_cdr) (f : Z) : bool := negb (Z.land (flags c) f =? 0).
Definition cdr_set_flag (c : cw_cdr) (f : Z) : cw_cdr := c <| flags := Z.lor (flags c) f |>.

Definition locked (c : cw_cdr) : bool := cdr_test_flag c CW_CDR_FLAG_LOCKED.

(** [cw_copy_string] into an array of [size] bytes of the record. *)
Definition copy (size : Z) (s : string) : string := strtake (Z.to_nat (size - 1)) s.

(** The channel a record is about: what the dialplan sees of it, and what only
    the records look at. *)
Record cdr_channel := {
  cc_chan : cw_channel;
  cc_amaflags : Z;
  cc_proc_context : string;
  cc_proc_exten : string;
  cc_cdr : list cw_cdr;
}.

#[export] Instance cdr_channel_eta : Eta cdr_channel := fun c =>
  {| cc_chan := cc_chan c; cc_amaflags := cc_amaflags c; cc_proc_context := cc_proc_context c;
     cc_proc_exten := cc_proc_exten c; cc_cdr := cc_cdr c |}.

(** ** Variables *)

(** The first variable of that name in a record, or in the chain. *)
Fixpoint cw_cdr_getvar_internal (cdr : list cw_cdr) (name : string) (recur : bool) : option string :=
  if streq name "" then None else
  match cdr with
  | [] => None
  | c :: next =>
    match find_name name (varshead c) with
    | Some v => Some (var_value v)
    | None => if recur then cw_cdr_getvar_internal next name recur else None
    end
  end.

Definition cw_cdr_disp2str (d : Z) : string :=
  if d =? CW_CDR_NOANSWER then "NO ANSWER"
  else if d =? CW_CDR_FAILED then "FAILED"
  else if d =? CW_CDR_BUSY then "BUSY"
  else if d =? CW_CDR_ANSWERED then "ANSWERED"
  else "UNKNOWN".

Definition cw_cdr_flags2str (flag : Z) : string :=
  if flag =? CW_CDR_OMIT then "OMIT"
  else if flag =? CW_CDR_BILLING then "BILLING"
  else if flag =? CW_CDR_DOCUMENTATION then "DOCUMENTATION"
  else "Unknown".

Definition cw_cdr_amaflags2int (flag : string) : Z :=
  if strcaseeq flag "default" then 0
  else if strcaseeq flag "omit" then CW_CDR_OMIT
  else if strcaseeq flag "billing" then CW_CDR_BILLING
  else if strcaseeq flag "documentation" then CW_CDR_DOCUMENTATION
  else -1.

(** The columns, which are read-only to [cw_cdr_setvar]. *)
Definition cdrcols : list string :=
  ["clid"; "src"; "dst"; "dcontext"; "channel"; "dstchannel"; "lastapp"; "lastdata"; "start";
   "answer"; "end"; "duration"; "billsec"; "disposition"; "amaflags"; "accountcode"; "uniqueid";
   "userfield"]%string.

Section getvar.
(** The time of the time zone. *)
Context (localtime : Z -> clock).

(** [strftime] with the format [%Y-%m-%d %T]; a buffer too small is left with
    nothing to rely on. *)
Definition strftime (size : Z) (k : clock) : option string :=
  let t := k_tm k in
  let s := (print_d (k_year k + 1900) +:+ "-" +:+ print_0d 2 (tm_mon t + 1) +:+ "-" +:+
            print_0d 2 (tm_mday t) +:+ " " +:+ print_0d 2 (tm_hour t) +:+ ":" +:+
            print_0d 2 (tm_min t) +:+ ":" +:+ print_0d 2 (k_sec k))%string in
  if Z.of_nat (String.length s) <? size then Some s else None.

(** The three times: nothing is written for a time that was not set. *)
Definition put_time (workspace : string) (size : Z) (t : timeval) : option string :=
  if tv_sec t =? 0 then Some workspace else strftime size (localtime (tv_sec t)).

(** What the buffer holds afterwards; the answer is the buffer when it is not
    empty, NULL when it is. *)
Definition cw_cdr_getvar (cdr : list cw_cdr) (name workspace : string) (size : Z) (recur : bool)
    : option string :=
  let column (f : cw_cdr -> option string) := match cdr with c :: _ => f c | [] => None end in
  let named (s : string) := strcaseeq name s in
  if named "clid" then column (fun c => put size (clid c))
  else if named "src" then column (fun c => put size (src c))
  else if named "dst" then column (fun c => put size (dst c))
  else if named "dcontext" then column (fun c => put size (dcontext c))
  else if named "channel" then column (fun c => put size (channel c))
  else if named "dstchannel" then column (fun c => put size (dstchannel c))
  else if named "lastapp" then column (fun c => put size (lastapp c))
  else if named "lastdata" then column (fun c => put size (lastdata c))
  else if named "start" then column (fun c => put_time workspace size (start c))
  else if named "answer" then column (fun c => put_time workspace size (answer c))
  else if named "end" then column (fun c => put_time workspace size (end_ c))
  else if named "duration" then column (fun c => put size (print_d (duration c)))
  else if named "billsec" then column (fun c => put size (print_d (billsec c)))
  else if named "disposition" then column (fun c => put size (cw_cdr_disp2str (disposition c)))
  else if named "amaflags" then column (fun c => put size (cw_cdr_flags2str (amaflags c)))
  else if named "accountcode" then column (fun c => put size (accountcode c))
  else if named "uniqueid" then column (fun c => put size (uniqueid c))
  else if named "userfield" then column (fun c => put size (userfield c))
  else match cw_cdr_getvar_internal cdr name recur with
       | Some varbuf => put size varbuf
       | None => Some workspace
       end.

(** The text put at the end of the buffer, of which some space is left; true
    when there is no room at all. *)
Definition build (buf : string * Z) (s : string) : bool * (string * Z) :=
  match cw_build_string buf.2 s with
  | None => (true, buf)
  | Some (t, space) => (false, (buf.1 +:+ t, space))%string
  end.

Definition entry (x : Z) (var : string) (delim : ascii) (val : string) (sep : ascii) : string :=
  ("level " +:+ print_d x +:+ ": " +:+ var +:+ String delim val +:+ String sep "")%string.

(** The variables of a record: up to the first that is empty, or does not fit. *)
Fixpoint serialize_vars (x : Z) (delim sep : ascii) (l : list cw_var_t) (buf : string * Z)
    : Z * (string * Z) :=
  match l with
  | [] => (0, buf)
  | v :: l =>
    let name := nametail (var_name v) in
    if streq name "" || streq (var_value v) "" then (0, buf)
    else
      let '(full, buf) := build buf (entry x name delim (var_value v) sep) in
      if full then (0, buf)
      else let '(k, buf) := serialize_vars x delim sep l buf in (k + 1, buf)
  end.

(** The columns of a record, by way of one [workspace]. *)
Fixpoint serialize_cols (x : Z) (delim sep : ascii) (c : cw_cdr) (cols : list string)
    (workspace : string) (buf : string * Z) : option (Z * string * (string * Z)) :=
  match cols with
  | [] => Some (0, workspace, buf)
  | col :: cols =>
    workspace ← cw_cdr_getvar [c] col workspace 256 false;
    if streq workspace "" then serialize_cols x delim sep c cols workspace buf
    else
      let '(full, buf) := build buf (entry x col delim workspace sep) in
      if full then Some (0, workspace, buf)
      else
        r ← serialize_cols x delim sep c cols workspace buf;
        let '(k, workspace, buf) := r in Some (k + 1, workspace, buf)
  end.

Fixpoint serialize_chain (x : Z) (delim sep : ascii) (recur : bool) (cdr : list cw_cdr)
    (workspace : string) (buf : string * Z) : option (Z * (string * Z)) :=
  match cdr with
  | [] => Some (0, buf)
  | c :: next =>
    let buf := if 1 <? x then (build buf (String (chr 10) "")).2 else buf in
    let '(k, buf) := serialize_vars x delim sep (varshead c) buf in
    r ← serialize_cols x delim sep c cdrcols workspace buf;
    let '(k', workspace, buf) := r in
    if recur then
      r ← serialize_chain (x + 1) delim sep recur next workspace buf;
      let '(k'', buf) := r in Some (k + k' + k'', buf)
    else Some (k + k', buf)
  end.

(** The number of entries, and the text in a buffer of [size] bytes;
    [workspace] is what the local array holds. *)
Definition cw_cdr_serialize_variables (workspace : string) (cdr : list cw_cdr) (size : Z)
    (delim sep : ascii) (recur : bool) : option (Z * string) :=
  r ← serialize_chain 1 delim sep recur cdr workspace (EmptyString, size);
  let '(k, (text, _)) := r in Some (k, text).

End getvar.

(** The list without the first variable of that name. *)
Fixpoint remove_name (name : string) (l : list cw_var_t) : list cw_var_t :=
  match l with
  | [] => []
  | v :: l => if strcaseeq (nametail (var_name v)) name then l else v :: remove_name name l
  end.

Definition setvar1 (alloc : bool) (name : string) (value : option string) (c : cw_cdr)
    : option cw_cdr :=
  let l := remove_name name (varshead c) in
  match value with
  | Some value => l ← insert_var alloc name value l; Some (c <| varshead := l |>)
  | None => Some (c <| varshead := l |>)
  end.

Fixpoint setvar_chain (alloc : bool) (name : string) (value : option string) (recur : bool)
    (cdr : list cw_cdr) : option (list cw_cdr) :=
  match cdr with
  | [] => Some []
  | c :: next =>
    c ← setvar1 alloc name value c;
    if recur then next ← setvar_chain alloc name value recur next; Some (c :: next)
    else Some (c :: next)
  end.

Definition cw_cdr_setvar (alloc : bool) (cdr : list cw_cdr) (name : string) (value : option string)
    (recur : bool) : option (Z * list cw_cdr) :=
  if existsb (strcaseeq name) cdrcols then Some (-1, cdr)
  else match cdr with
       | [] => Some (-1, [])
       | _ => cdr ← setvar_chain alloc name value recur cdr; Some (0, cdr)
       end.

(** The variables [from], copied one by one to the head of the list. *)
Fixpoint copy_vars (alloc : bool) (from to : list cw_var_t) : option (Z * list cw_var_t) :=
  match from with
  | [] => Some (0, to)
  | v :: from =>
    let name := nametail (var_name v) in
    if negb (streq name "") && negb (streq (var_value v) "") then
      to ← insert_var alloc name (var_value v) to;
      r ← copy_vars alloc from to; Some (r.1 + 1, r.2)
    else copy_vars alloc from to
  end.

Definition cw_cdr_copy_vars (alloc : bool) (to_cdr from_cdr : cw_cdr) : option (Z * cw_cdr) :=
  r ← copy_vars alloc (varshead from_cdr) (varshead to_cdr);
  Some (r.1, to_cdr <| varshead := r.2 |>).

(** [mem] is the outcome of the allocation of the record, [alloc] that of the
    variables. *)
Definition cw_cdr_dup (mem alloc : bool) (cdr : cw_cdr) : option (option cw_cdr) :=
  if mem then
    r ← cw_cdr_copy_vars alloc (cdr <| varshead := [] |>) cdr; Some (Some r.2)
  else Some None.

Fixpoint cw_cdr_free_vars (cdr : list cw_cdr) (recur : bool) : list cw_cdr :=
  match cdr with
  | [] => []
  | c :: next =>
    c <| varshead := [] |> :: (if recur then cw_cdr_free_vars next recur else next)
  end.

Definition cw_cdr_append (cdr newcdr : list cw_cdr) : list cw_cdr := cdr ++ newcdr.

(** ** The life of a record *)

Section clock.
Context (now : nat -> timeval).

(** A walk along the chain in which [reads] tells whether a record looks at the
    clock. *)
Fixpoint stamp (reads : cw_cdr -> bool) (f : timeval -> cw_cdr -> cw_cdr) (n : nat)
    (cdr : list cw_cdr) : nat * list cw_cdr :=
  match cdr with
  | [] => (n, [])
  | c :: next =>
    let '(m, next) := stamp reads f (if reads c then S n else n) next in
    (m, f (now n) c :: next)
  end.

Definition start1 (t : timeval) (c : cw_cdr) : cw_cdr := if locked c then c else c <| start := t |>.

Definition cw_cdr_start : nat -> list cw_cdr -> nat * list cw_cdr :=
  stamp (fun c => negb (locked c)) start1.

Definition answer1 (t : timeval) (c : cw_cdr) : cw_cdr :=
  let c := if disposition c <? CW_CDR_ANSWERED then c <| disposition := CW_CDR_ANSWERED |> else c in
  if cw_tvzero (answer c) then c <| answer := t |> else c.

Definition cw_cdr_answer : nat -> list cw_cdr -> nat * list cw_cdr :=
  stamp (fun c => cw_tvzero (answer c)) answer1.

(** The seconds from [a] to [e], in the [int] of the record. *)
Definition seconds (e a : timeval) : Z :=
  s32 (tv_sec e - tv_sec a + Z.quot (tv_usec e - tv_usec a) 1000000).

Definition end1 (t : timeval) (c : cw_cdr) : cw_cdr :=
  let c := if cw_tvzero (end_ c) then c <| end_ := t |> else c in
  let c := c <| duration := seconds (end_ c) (start c) |> in
  if negb (cw_tvzero (answer c)) then c <| billsec := seconds (end_ c) (answer c) |>
  else c <| billsec := 0 |>.

Definition cw_cdr_end : nat -> list cw_cdr -> nat * list cw_cdr :=
  stamp (fun c => cw_tvzero (end_ c)) end1.

End clock.

Definition busy1 (c : cw_cdr) : cw_cdr :=
  if negb (locked c) && (disposition c <? CW_CDR_BUSY) then c <| disposition := CW_CDR_BUSY |> else c.

Definition cw_cdr_busy (cdr : list cw_cdr) : list cw_cdr := busy1 <$> cdr.

Definition failed1 (c : cw_cdr) : cw_cdr :=
  if negb (locked c) then c <| disposition := CW_CDR_FAILED |> else c.

Definition cw_cdr_failed (cdr : list cw_cdr) : list cw_cdr := failed1 <$> cdr.

Definition CW_CAUSE_NOTDEFINED : Z := 0.
Definition CW_CAUSE_NORMAL : Z := 16.
Definition CW_CAUSE_BUSY : Z := 17.
Definition CW_CAUSE_FAILURE : Z := 38.

(** From every record on, the cause is applied to the rest of the chain. *)
Fixpoint disposition_loop (fuel : nat) (cdr : list cw_cdr) (cause : Z) : Z * list cw_cdr :=
  match fuel, cdr with
  | S fuel, _ :: _ =>
    let '(res, cdr) :=
      if cause =? CW_CAUSE_BUSY then (0, cw_cdr_busy cdr)
      else if cause =? CW_CAUSE_FAILURE then (0, cw_cdr_failed cdr)
      else if cause =? CW_CAUSE_NORMAL then (0, cdr)
      else (-1, cdr) in
    match cdr with
    | c :: next =>
      let '(res', next) := disposition_loop fuel next cause in
      (if res' =? 0 then res else -1, c :: next)
    | [] => (res, [])
    end
  | _, _ => (0, cdr)
  end.

Definition cw_cdr_disposition (cdr : list cw_cdr) (cause : Z) : Z * list cw_cdr :=
  disposition_loop (length cdr) cdr cause.

Definition unless_locked (f : cw_cdr -> cw_cdr) (c : cw_cdr) : cw_cdr :=
  if locked c then c else f c.

Definition cw_cdr_setdestchan (cdr : list cw_cdr) (chann : string) : list cw_cdr :=
  unless_locked (fun c => c <| dstchannel := copy FIELD_SIZE chann |>) <$> cdr.

Definition cw_cdr_setapp (cdr : list cw_cdr) (app data : option string) : list cw_cdr :=
  unless_locked (fun c =>
    c <| lastapp := copy FIELD_SIZE (default ""%string app) |>
      <| lastdata := copy FIELD_SIZE (default ""%string data) |>) <$> cdr.

(** The source is the ANI or the caller id; both parts of the id through a
    buffer of 80 bytes. *)
Definition source (ch : cdr_channel) : option string :=
  let cid := ch_cid (cc_chan ch) in
  match cid_ani cid with Some ani => Some ani | None => cid_num cid end.

Definition setcid1 (ch : cdr_channel) (c : cw_cdr) : cw_cdr :=
  let num := source ch in
  let tmp := match cid_name (ch_cid (cc_chan ch)), num with
             | Some name, Some num => copy FIELD_SIZE (dquoted name +:+ " <" +:+ num +:+ ">")
             | Some s, None | None, Some s => copy FIELD_SIZE s
             | None, None => EmptyString
             end in
  c <| clid := copy FIELD_SIZE tmp |> <| src := copy FIELD_SIZE (default ""%string num) |>.

Definition cw_cdr_setcid (cdr : list cw_cdr) (ch : cdr_channel) : list cw_cdr :=
  unless_locked (setcid1 ch) <$> cdr.

Definition init1 (default_amaflags : Z) (ch : cdr_channel) (c : cw_cdr) : cw_cdr :=
  let k := cc_chan ch in
  let c := setcid1 ch (c <| channel := copy FIELD_SIZE (ch_name k) |>) in
  c <| disposition := if ch_state k =? CW_STATE_UP then CW_CDR_ANSWERED else CW_CDR_NOANSWER |>
    <| amaflags := if negb (cc_amaflags ch =? 0) then cc_amaflags ch else default_amaflags |>
    <| accountcode := copy CW_MAX_ACCOUNT_CODE (ch_accountcode k) |>
    <| dst := copy FIELD_SIZE (ch_exten k) |>
    <| dcontext := copy FIELD_SIZE (ch_context k) |>
    <| uniqueid := copy UNIQUEID_SIZE (ch_uniqueid k) |>.

Definition cw_cdr_init (default_amaflags : Z) (cdr : list cw_cdr) (ch : cdr_channel) : list cw_cdr :=
  unless_locked (init1 default_amaflags ch) <$> cdr.

Definition update1 (ch : cdr_channel) (c : cw_cdr) : cw_cdr :=
  let k := cc_chan ch in
  let c := setcid1 ch c in
  c <| accountcode := copy CW_MAX_ACCOUNT_CODE (ch_accountcode k) |>
    <| dst := copy FIELD_SIZE
                (if streq (cc_proc_exten ch) "" then ch_exten k else cc_proc_exten ch) |>
    <| dcontext := copy FIELD_SIZE
                (if streq (cc_proc_context ch) "" then ch_context k else cc_proc_context ch) |>.

Definition cw_cdr_update (ch : cdr_channel) : cdr_channel :=
  ch <| cc_cdr := unless_locked (update1 ch) <$> cc_cdr ch |>.

Definition cw_cdr_setaccount (ch : cdr_channel) (account : string) : cdr_channel :=
  let code := copy CW_MAX_ACCOUNT_CODE account in
  ch <| cc_chan := (cc_chan ch) <| ch_accountcode := code |> |>
     <| cc_cdr := unless_locked (fun c => c <| accountcode := copy CW_MAX_ACCOUNT_CODE code |>)
                  <$> cc_cdr ch |>.

(** Only the first record, which has to be there unless the flag is the
    default. *)
Definition cw_cdr_setamaflags (ch : cdr_channel) (flag : string) : option cdr_channel :=
  let newflag := cw_cdr_amaflags2int flag in
  if newflag =? 0 then Some ch
  else match cc_cdr ch with
       | [] => None
       | c :: next => Some (ch <| cc_cdr := c <| amaflags := newflag |> :: next |>)
       end.

Definition cw_cdr_setuserfield (ch : cdr_channel) (field : string) : cdr_channel :=
  ch <| cc_cdr := unless_locked (fun c => c <| userfield := copy CW_MAX_USER_FIELD field |>)
                  <$> cc_cdr ch |>.

(** [strncpy] behind the text that is there, leaving the last byte alone. *)
Definition appenduserfield1 (field : string) (c : cw_cdr) : cw_cdr :=
  let len := Z.of_nat (String.length (userfield c)) in
  c <| userfield := userfield c +:+ strtake (Z.to_nat (CW_MAX_USER_FIELD - len - 1)) field |>.

Definition cw_cdr_appenduserfield (ch : cdr_channel) (field : string) : cdr_channel :=
  ch <| cc_cdr := unless_locked (appenduserfield1 field) <$> cc_cdr ch |>.

(** ** Variables read back *)

Lemma getvar_user localtime cdr name ws size recur :
  existsb (strcaseeq name) cdrcols = false ->
  cw_cdr_getvar localtime cdr name ws size recur =
    match cw_cdr_getvar_internal cdr name recur with
    | Some varbuf => put size varbuf
    | None => Some ws
    end.
Proof.
  unfold cdrcols. cbn [existsb]. rewrite !orb_false_iff. intros H.
  repeat match type of H with _ /\ _ => let E := fresh "E" in destruct H as [E H] end.
  unfold cw_cdr_getvar.
  repeat match goal with E : strcaseeq name _ = false |- _ => rewrite E; clear E end. done.
Qed.

Lemma find_name_head name v l :
  strcaseeq (nametail (var_name v)) name = true -> find_name name (v :: l) = Some v.
Proof. intros H. cbn. by rewrite H. Qed.

Lemma find_name_skip name v l :
  strcaseeq (nametail (var_name v)) name = false -> find_name name (v :: l) = find_name name l.
Proof. intros H. cbn. by rewrite H. Qed.

Lemma find_remove_other name name' l :
  strcaseeq name name' = false -> find_name name' (remove_name name l) = find_name name' l.
Proof.
  intros Hn. induction l as [|v l IH]; [done|]. cbn [remove_name].
  destruct (strcaseeq (nametail (var_name v)) name) eqn:E.
  - rewrite find_name_skip; [done|].
    destruct (strcaseeq (nametail (var_name v)) name') eqn:E'; [|done].
    rewrite strcaseeq_sym in E. by rewrite <- (strcaseeq_trans _ _ name' E), E' in Hn.
  - cbn. by rewrite IH.
Qed.

Lemma setvar1_reads name value c c' :
  setvar1 true name (Some value) c = Some c' -> nametail name = name ->
  var_value <$> find_name name (varshead c') = Some value /\
  (forall other, strcaseeq name other = false ->
     find_name other (varshead c') = find_name other (varshead c)).
Proof.
  intros [= <-] Hn. cbn [varshead upd]. split.
  - rewrite find_name_head; [done|]. cbn. rewrite Hn. apply strcaseeq_refl.
  - intros other Ho. rewrite find_name_skip by (cbn; by rewrite Hn). by apply find_remove_other.
Qed.

(** A variable that was set is read back from the record, whether it was set on
    the whole chain or not, and the other variables stay as they were.  The
    name is not a column and does not begin with an underscore. *)
Theorem setvar_getvar localtime c next name value recur recur' ws size cdr' :
  existsb (strcaseeq name) cdrcols = false -> nametail name = name -> name <> ""%string ->
  Z.of_nat (String.length value) < size ->
  cw_cdr_setvar true (c :: next) name (Some value) recur = Some (0, cdr') ->
  cw_cdr_getvar localtime cdr' name ws size recur' = Some value /\
  (forall other, strcaseeq name other = false ->
     cw_cdr_getvar_internal (take 1 cdr') other false = cw_cdr_getvar_internal [c] other false).
Proof.
  intros Hcol Hn Hne Hsize. unfold cw_cdr_setvar. rewrite Hcol. cbn [setvar_chain].
  destruct (setvar1 true name (Some value) c) as [c1|] eqn:E1; cbn; [|done].
  destruct (setvar1_reads _ _ _ _ E1 Hn) as [Hget Hother].
  assert (Hs : forall l, cw_cdr_getvar localtime (c1 :: l) name ws size recur' = Some value /\
    (forall other, strcaseeq name other = false ->
       cw_cdr_getvar_internal (take 1 (c1 :: l)) other false = cw_cdr_getvar_internal [c] other false)).
  { intros l. split.
    - rewrite getvar_user by done. cbn [cw_cdr_getvar_internal].
      destruct (streq name "") eqn:En; [by apply streq_eq in En|].
      destruct (find_name name (varshead c1)) as [v|]; [|done].
      injection Hget as ->. by apply put_fit.
    - intros other Ho. cbn. by rewrite Hother. }
  intros H. case_match; [|by injection H as <-].
  destruct (setvar_chain true name (Some value) _ next) as [l|]; cbn in H; [|done].
  by injection H as <-.
Qed.

Definition a_clock (t : Z) : clock :=
  {| k_time := t; k_tm := {| tm_min := 30; tm_hour := 12; tm_mday := 1; tm_mon := 0; tm_wday := 5 |};
     k_sec := t mod 60; k_year := 110 |}.

Lemma setvar_getvar_witness :
  match cw_cdr_setvar true [cw_cdr_alloc; cw_cdr_alloc] "customer" (Some "acme"%string) true with
  | Some (_, cdr) => cw_cdr_getvar a_clock cdr "CUSTOMER" "" 80 false
  | None => None
  end = Some "acme"%string.
Proof.
  destruct (cw_cdr_setvar true [cw_cdr_alloc; cw_cdr_alloc] "customer" (Some "acme"%string) true)
    as [[r cdr]|] eqn:E; [|vm_compute in E; discriminate].
  assert (r = 0) as -> by (vm_compute in E; congruence).
  destruct (setvar_getvar a_clock cw_cdr_alloc [cw_cdr_alloc] "customer" "acme" true false "" 80 cdr)
    as [_ _]; [reflexivity|reflexivity|discriminate|reflexivity|exact E|].
  vm_compute in E. injection E as <-. vm_compute. reflexivity.
Defined.

(** ** A record as text *)

(** The call of one record was not answered: its [answer] column is not
    written, so the workspace still holds the column before it, and the text
    gives the start of the call as the time of its answer. *)
Definition unanswered : cw_cdr :=
  cw_cdr_alloc <| src := "100"%string |> <| start := cw_tv 1262349000 0 |>
    <| disposition := CW_CDR_NOANSWER |>.

Example unanswered_has_answer :
  cw_cdr_getvar a_clock [unanswered] "answer" "" 256 false = Some ""%string /\
  cw_cdr_serialize_variables a_clock "" [unanswered] 4096 "=" ";" false =
    Some (8, "level 1: src=100;level 1: start=2010-01-01 12:30:00;level 1: answer=2010-01-01 12:30:00;level 1: end=2010-01-01 12:30:00;level 1: duration=0;level 1: billsec=0;level 1: disposition=NO ANSWER;level 1: amaflags=Unknown;"%string).
Proof. vm_compute. by split. Qed.

(** ** The fields fit their arrays *)

Definition fits (size : Z) (s : string) : Prop := Z.of_nat (String.length s) < size.

Record cdr_fits (c : cw_cdr) : Prop := {
  fit_clid : fits FIELD_SIZE (clid c);
  fit_src : fits FIELD_SIZE (src c);
  fit_dst : fits FIELD_SIZE (dst c);
  fit_dcontext : fits FIELD_SIZE (dcontext c);
  fit_channel : fits FIELD_SIZE (channel c);
  fit_dstchannel : fits FIELD_SIZE (dstchannel c);
  fit_lastapp : fits FIELD_SIZE (lastapp c);
  fit_lastdata : fits FIELD_SIZE (lastdata c);
  fit_accountcode : fits CW_MAX_ACCOUNT_CODE (accountcode c);
  fit_uniqueid : fits UNIQUEID_SIZE (uniqueid c);
  fit_userfield : fits CW_MAX_USER_FIELD (userfield c);
}.

Lemma copy_fits size s : 0 < size -> fits size (copy size s).
Proof. intros H. unfold fits, copy. rewrite strtake_length. lia. Qed.

#[export] Hint Resolve copy_fits : cw.

(** What is done to a chain of records; the operations by way of a channel
    with the channel. *)
Inductive cdr_step (now : nat -> timeval) : nat * list cw_cdr -> nat * list cw_cdr -> Prop :=
  | step_start n l : cdr_step now (n, l) (cw_cdr_start now n l)
  | step_answer n l : cdr_step now (n, l) (cw_cdr_answer now n l)
  | step_end n l : cdr_step now (n, l) (cw_cdr_end now n l)
  | step_busy n l : cdr_step now (n, l) (n, cw_cdr_busy l)
  | step_failed n l : cdr_step now (n, l) (n, cw_cdr_failed l)
  | step_disposition n l cause : cdr_step now (n, l) (n, (cw_cdr_disposition l cause).2)
  | step_setdestchan n l s : cdr_step now (n, l) (n, cw_cdr_setdestchan l s)
  | step_setapp n l app data : cdr_step now (n, l) (n, cw_cdr_setapp l app data)
  | step_setcid n l ch : cdr_step now (n, l) (n, cw_cdr_setcid l ch)
  | step_init n l ama ch : cdr_step now (n, l) (n, cw_cdr_init ama l ch)
  | step_update n ch : cdr_step now (n, cc_cdr ch) (n, cc_cdr (cw_cdr_update ch))
  | step_setaccount n ch s : cdr_step now (n, cc_cdr ch) (n, cc_cdr (cw_cdr_setaccount ch s))
  | step_setamaflags n ch ch' s : cw_cdr_setamaflags ch s = Some ch' ->
      cdr_step now (n, cc_cdr ch) (n, cc_cdr ch')
  | step_setuserfield n ch s : cdr_step now (n, cc_cdr ch) (n, cc_cdr (cw_cdr_setuserfield ch s))
  | step_appenduserfield n ch s :
      cdr_step now (n, cc_cdr ch) (n, cc_cdr (cw_cdr_appenduserfield ch s))
  | step_setvar n l alloc name value recur r l' :
      cw_cdr_setvar alloc l name value recur = Some (r, l') -> cdr_step now (n, l) (n, l')
  | step_free_vars n l recur : cdr_step now (n, l) (n, cw_cdr_free_vars l recur)
  | step_append n l c : cdr_fits c -> cdr_step now (n, l) (n, cw_cdr_append l [c]).

Lemma stamp_Forall now (P : cw_cdr -> Prop) reads f n l :
  (forall t c, P c -> P (f t c)) -> Forall P l -> Forall P (stamp now reads f n l).2.
Proof.
  intros Hf Hl. revert n. induction Hl as [|c l Hc _ IH]; intros n; cbn; [constructor|].
  specialize (IH (if reads c then S n else n)).
  destruct (stamp _ _ _ _ l) as [m l']. constructor; auto.
Qed.

Lemma fmap_Forall (P : cw_cdr -> Prop) f l :
  (forall c, P c -> P (f c)) -> Forall P l -> Forall P (f <$> l).
Proof. intros Hf Hl. apply Forall_fmap. eapply Forall_impl; [exact Hl|exact Hf]. Qed.

Lemma disposition_Forall (P : cw_cdr -> Prop) fuel l cause :
  (forall c, P c -> P (busy1 c)) -> (forall c, P c -> P (failed1 c)) ->
  Forall P l -> Forall P (disposition_loop fuel l cause).2.
Proof.
  intros Hb Hf. revert l. induction fuel as [|fuel IH]; intros l Hl; [done|].
  destruct l as [|c0 l0]; [done|]. cbn [disposition_loop].
  match goal with |- context [let '(res, cdr) := ?x in _] => set (r := x) end.
  assert (Hr : Forall P r.2).
  { unfold r. repeat case_match; try done; by apply fmap_Forall. }
  destruct r as [res [|c l]]; [done|]. inversion_clear Hr as [|? ? Hc Hl'].
  specialize (IH l Hl'). destruct (disposition_loop fuel l cause) as [res' l']. by constructor.
Qed.

Lemma setvar_Forall (P : cw_cdr -> Prop) alloc name value recur l l' :
  (forall c c', P c -> setvar1 alloc name value c = Some c' -> P c') ->
  setvar_chain alloc name value recur l = Some l' -> Forall P l -> Forall P l'.
Proof.
  intros Hs. revert l'. induction l as [|c l IH]; intros l' H Hl; [by injection H as <-|].
  inversion_clear Hl as [|? ? Hc Hl']. cbn in H.
  destruct (setvar1 _ _ _ c) as [c'|] eqn:E; [|done]. cbn in H.
  destruct recur; [|injection H as <-; constructor; eauto].
  destruct (setvar_chain _ _ _ _ l) as [l1|]; [|done]. injection H as <-. constructor; eauto.
Qed.

Lemma setvar_cases alloc l name value recur r l' :
  cw_cdr_setvar alloc l name value recur = Some (r, l') ->
  l' = l \/ setvar_chain alloc name value recur l = Some l'.
Proof.
  unfold cw_cdr_setvar. destruct (existsb _ _); [intros [= _ <-]; by left|].
  destruct l as [|c l]; [intros [= _ <-]; by left|].
  destruct (setvar_chain _ _ _ _ _) as [l1|] eqn:E; [|done]. intros [= _ <-]. by right.
Qed.

Lemma free_vars_Forall (P : cw_cdr -> Prop) l recur :
  (forall c, P c -> P (c <| varshead := [] |>)) -> Forall P l -> Forall P (cw_cdr_free_vars l recur).
Proof.
  intros Hf. induction 1 as [|c l Hc Hl IH]; [constructor|]. cbn. constructor; [by apply Hf|].
  by destruct recur.
Qed.

Ltac fit_solve :=
  intros; unfold unless_locked, start1, answer1, end1, busy1, failed1, setcid1, init1, update1;
  repeat case_match; try done;
  match goal with H : cdr_fits _ |- _ => destruct H end;
  constructor; cbn; try done; try (apply copy_fits; reflexivity);
  repeat case_match; apply copy_fits; reflexivity.

Lemma append_field_fits s c : cdr_fits c -> cdr_fits (appenduserfield1 s c).
Proof.
  intros []. constructor; cbn; try done. unfold fits in *. rewrite length_append, strtake_length.
  unfold CW_MAX_USER_FIELD in *. lia.
Qed.

Lemma setvar1_fits alloc name value c c' :
  cdr_fits c -> setvar1 alloc name value c = Some c' -> cdr_fits c'.
Proof.
  intros [] H. unfold setvar1 in H. destruct value; [|by injection H as <-].
  destruct (insert_var _ _ _ _); [|done]. by injection H as <-.
Qed.

Lemma cdr_step_fits now s s' : cdr_step now s s' -> Forall cdr_fits s.2 -> Forall cdr_fits s'.2.
Proof.
  intros H. destruct H; cbn [snd]; intros Hl;
    try (apply fmap_Forall; [|done]; fit_solve);
    try (apply stamp_Forall; [|done]; fit_solve).
  - apply disposition_Forall; [| |done]; fit_solve.
  - unfold cw_cdr_setamaflags in *. case_match; [by simplify_eq|]. destruct (cc_cdr ch); [done|].
    simplify_eq. inversion_clear Hl as [|? ? Hc Hl']. constructor; [|done]. by destruct Hc.
  - apply fmap_Forall; [|done]. intros c Hc. unfold unless_locked. case_match; [done|].
    by apply append_field_fits.
  - destruct (setvar_cases _ _ _ _ _ _ _ H) as [->|E]; [done|].
    eapply setvar_Forall; [|exact E|exact Hl]. intros. by eapply setvar1_fits.
  - apply free_vars_Forall; [|done]. by intros ? [].
  - apply Forall_app. split; [done|]. by apply Forall_singleton.
Qed.

Lemma cw_cdr_alloc_fits : cdr_fits cw_cdr_alloc.
Proof. by constructor. Qed.

(** No operation writes a field of a record past the end of its array: every
    chain that can be made of records as they are allocated has each text, with
    its terminator, inside its field. *)
Theorem record_fields_fit now n l s' :
  (forall c, c ∈ l -> c = cw_cdr_alloc) -> rtc (cdr_step now) (n, l) s' -> Forall cdr_fits s'.2.
Proof.
  intros Hl H. assert (Forall cdr_fits l) as Hf.
  { apply Forall_forall. intros c ->%Hl. apply cw_cdr_alloc_fits. }
  clear Hl. change l with (n, l).2 in Hf. revert Hf. induction H as [|x y z Hxy _ IH]; [done|].
  intros Hx. apply IH. by eapply cdr_step_fits.
Qed.

Lemma record_fields_fit_witness :
  Forall cdr_fits (cw_cdr_end (fun n => cw_tv (Z.of_nat n + 5) 0) 1
    (cw_cdr_start (fun n => cw_tv (Z.of_nat n + 5) 0) 0 [cw_cdr_alloc]).2).2.
Proof.
  apply (record_fields_fit (fun n => cw_tv (Z.of_nat n + 5) 0) 0 [cw_cdr_alloc]).
  - intros c Hc. by apply list_elem_of_singleton in Hc.
  - eapply rtc_l; [apply step_start|]. eapply rtc_l; [apply step_end|]. apply rtc_refl.
Defined.

(** ** Billing *)

(** What the rest of the program does to a record between its start and its
    posting, as far as it matters for the bill. *)
Inductive call_op := Answer | Busy | Failed | Cause (cause : Z) | End.

Definition run_op (now : nat -> timeval) (s : nat * list cw_cdr) (op : call_op) : nat * list cw_cdr :=
  let '(n, l) := s in
  match op with
  | Answer => cw_cdr_answer now n l
  | Busy => (n, cw_cdr_busy l)
  | Failed => (n, cw_cdr_failed l)
  | Cause cause => (n, (cw_cdr_disposition l cause).2)
  | End => cw_cdr_end now n l
  end.

Definition run_ops (now : nat -> timeval) (s : nat * list cw_cdr) (ops : list call_op)
    : nat * list cw_cdr := fold_left (run_op now) ops s.

(** A clock that does not run backwards, from the epoch to 2038. *)
Record clock_ok (now : nat -> timeval) : Prop := {
  ck_normal n : tv_normal (now n);
  ck_range n : 0 < tv_sec (now n) <= INT_MAX;
  ck_mono n : tv_sec (now n) < tv_sec (now (S n))
    \/ (tv_sec (now n) = tv_sec (now (S n)) /\ tv_usec (now n) <= tv_usec (now (S n)));
}.

Definition sane (t : timeval) : Prop := tv_normal t /\ 0 < tv_sec t <= INT_MAX.

Lemma quot_small a b : Z.abs a < b -> Z.quot a b = 0.
Proof.
  intros H. destruct (Z.le_gt_cases 0 a).
  - apply Z.quot_small. lia.
  - rewrite <- (Z.opp_involutive a), Z.quot_opp_l, Z.quot_small by lia. done.
Qed.

Lemma seconds_sane e a : sane e -> sane a -> seconds e a = tv_sec e - tv_sec a.
Proof.
  unfold sane, tv_normal, seconds, ONE_MILLION, INT_MAX. intros [He Hes] [Ha Has].
  rewrite quot_small, Z.add_0_r by lia. apply s32_id. unfold INT_MIN, INT_MAX. lia.
Qed.

Lemma sane_set t : sane t -> cw_tvzero t = false.
Proof. intros [_ H]. unfold cw_tvzero. apply andb_false_iff. left. lia. Qed.

Lemma tvzero_spec t : cw_tvzero t = true -> t = tv_zero.
Proof. destruct t as [a b]. unfold cw_tvzero, tv_zero. cbn. intros H. b2p. by subst. Qed.

(** What the operations say became of the call: a failure counts more than an
    answer, and an answer more than a busy line. *)
Definition is_answer (op : call_op) : bool := match op with Answer => true | _ => false end.

Definition is_failure (op : call_op) : bool :=
  match op with Failed => true | Cause cause => cause =? CW_CAUSE_FAILURE | _ => false end.

Definition is_busy (op : call_op) : bool :=
  match op with Busy => true | Cause cause => cause =? CW_CAUSE_BUSY | _ => false end.

Definition fate (ops : list call_op) : Z :=
  if existsb is_failure ops then CW_CDR_FAILED
  else if existsb is_answer ops then CW_CDR_ANSWERED
  else if existsb is_busy ops then CW_CDR_BUSY
  else CW_CDR_NOANSWER.

(** A record that nobody locked, after [ops]. *)
Definition fated (ops : list call_op) (c : cw_cdr) : Prop :=
  locked c = false /\ disposition c = fate ops /\ cw_tvzero (answer c) = negb (existsb is_answer ops).

(** A record on its way: the times that were set are in order, none is in the
    future, and a record that was ended has its sums. *)
Record going (now : nat -> timeval) (n : nat) (c : cw_cdr) : Prop := {
  go_start : sane (start c);
  go_started : tv_sec (start c) <= tv_sec (now n);
  go_answer : answer c = tv_zero \/
    (sane (answer c) /\ tv_sec (start c) <= tv_sec (answer c) <= tv_sec (now n));
  go_end : end_ c = tv_zero \/
    (sane (end_ c) /\ tv_sec (start c) <= tv_sec (end_ c)
     /\ (answer c = tv_zero \/ tv_sec (answer c) <= tv_sec (end_ c))
     /\ duration c = tv_sec (end_ c) - tv_sec (start c)
     /\ billsec c = if cw_tvzero (answer c) then 0 else tv_sec (end_ c) - tv_sec (answer c));
}.

Section billing.
Context (now : nat -> timeval) (Hnow : clock_ok now).

Lemma now_sane n : sane (now n).
Proof. split; apply Hnow. Qed.

Lemma now_mono n m : (n <= m)%nat -> tv_sec (now n) <= tv_sec (now m).
Proof.
  induction 1 as [|m _ IH]; [done|]. destruct (ck_mono now Hnow m) as [H|[H _]]; lia.
Qed.

Lemma going_later n m c : (n <= m)%nat -> going now n c -> going now m c.
Proof.
  intros H%now_mono []. constructor; try done; [lia|].
  destruct go_answer0 as [?|(?&?)]; [by left|right; split_and!; [done|lia|lia]].
Qed.

Lemma stamp_changes (reads : cw_cdr -> bool) (f : timeval -> cw_cdr -> cw_cdr) n l
    (P Q : nat -> cw_cdr -> Prop) :
  (forall n m c, (n <= m)%nat -> P n c -> P m c) -> (forall n m c, (n <= m)%nat -> Q n c -> Q m c) ->
  (forall n c, P n c -> Q (if reads c then S n else n) (f (now n) c)) ->
  Forall (P n) l -> let r := stamp now reads f n l in Forall (Q r.1) r.2.
Proof.
  intros HP HQ Hf Hl r.
  cut ((n <= r.1)%nat /\ Forall (Q r.1) r.2); [by intros []|]. unfold r. clear r. revert n Hl.
  induction l as [|c l IH]; intros n Hl; cbn; [auto|].
  inversion_clear Hl as [|? ? Hc Hl'].
  assert (Hl2 : Forall (P (if reads c then S n else n)) l).
  { eapply Forall_impl; [exact Hl'|]. intros. eapply HP; [|done]. case_match; lia. }
  specialize (IH _ Hl2).
  destruct (stamp _ _ _ _ l) as [m l']. cbn in *. destruct IH as [Hm IH]. split.
  - case_match; lia.
  - constructor; [|done]. eapply HQ; [exact Hm|]. by apply Hf.
Qed.

Lemma busy1_going n c : going now n c -> going now n (busy1 c).
Proof. unfold busy1. intros Hg. case_match; [|done]. by destruct Hg; constructor. Qed.

Lemma failed1_going n c : going now n c -> going now n (failed1 c).
Proof. unfold failed1. intros Hg. case_match; [|done]. by destruct Hg; constructor. Qed.

Lemma answer1_going n c :
  end_ c = tv_zero -> going now n c ->
  going now (if cw_tvzero (answer c) then S n else n) (answer1 (now n) c)
  /\ end_ (answer1 (now n) c) = tv_zero.
Proof.
  intros He Hg. pose proof (now_sane n) as Hn. pose proof (now_mono n (S n) ltac:(lia)) as Hm.
  assert (Eq : exists d, answer1 (now n) c = c <| disposition := d |>
      <| answer := if cw_tvzero (answer c) then now n else answer c |>).
  { unfold answer1. exists (if disposition c <? CW_CDR_ANSWERED then CW_CDR_ANSWERED else disposition c).
    destruct (disposition c <? CW_CDR_ANSWERED); cbn [answer upd]; destruct (cw_tvzero (answer c)); by destruct c. }
  destruct Eq as (d & ->). split; [|done]. destruct Hg.
  destruct (cw_tvzero (answer c)) eqn:Ea; constructor; cbn [start answer end_ upd]; auto; try lia.
Qed.

Lemma end1_going n c :
  going now n c ->
  going now (if cw_tvzero (end_ c) then S n else n) (end1 (now n) c).
Proof.
  intros Hg. pose proof (now_sane n) as Hn. pose proof (now_mono n (S n) ltac:(lia)) as Hm.
  set (e := if cw_tvzero (end_ c) then now n else end_ c).
  assert (He : sane e /\ tv_sec (start c) <= tv_sec e
    /\ (answer c = tv_zero \/ (sane (answer c) /\ tv_sec (answer c) <= tv_sec e))).
  { unfold e. destruct Hg. destruct (cw_tvzero (end_ c)) eqn:Ee.
    - split_and!; [done|lia|]. destruct go_answer0 as [?|(?&?)]; [by left|right; split; [done|lia]].
    - destruct go_end0 as [E|(?&?&Ha&_)]; [by rewrite E in Ee|]. split_and!; [done|lia|].
      destruct go_answer0 as [?|(?&?)]; [by left|]. destruct Ha as [?|?]; [by left|]. by right. }
  assert (Eq : end1 (now n) c = c <| end_ := e |> <| duration := seconds e (start c) |>
    <| billsec := if cw_tvzero (answer c) then 0 else seconds e (answer c) |>).
  { unfold end1, e. destruct (cw_tvzero (end_ c)); cbn [answer end_ upd];
      destruct (cw_tvzero (answer c)); by destruct c. }
  rewrite Eq. destruct He as (He & Hs & Ha).
  assert (Hg' : going now (if cw_tvzero (end_ c) then S n else n) c)
    by (apply (going_later n); [destruct (cw_tvzero (end_ c)); lia|done]).
  destruct Hg'. constructor; try done. right. cbn [end_ start answer duration billsec upd].
  rewrite !seconds_sane by done. split_and!; try done.
  - destruct Ha as [?|[??]]; auto.
  - case_match; [done|]. destruct Ha as [E|[??]]; [by rewrite E in *|]. by rewrite seconds_sane.
Qed.

(** An answer comes only before the end. *)
Fixpoint no_late_answer (ended : bool) (ops : list call_op) : bool :=
  match ops with
  | [] => true
  | Answer :: ops => negb ended && no_late_answer ended ops
  | End :: ops => no_late_answer true ops
  | _ :: ops => no_late_answer ended ops
  end.

Definition ends (ended : bool) (c : cw_cdr) : Prop :=
  if ended then cw_tvzero (end_ c) = false else end_ c = tv_zero.

Lemma busy1_ends b c : ends b c -> ends b (busy1 c).
Proof. unfold busy1. by case_match. Qed.

Lemma failed1_ends b c : ends b c -> ends b (failed1 c).
Proof. unfold failed1. by case_match. Qed.

Lemma end1_ends n c : ends true (end1 (now n) c).
Proof.
  pose proof (sane_set _ (now_sane n)) as Hn. unfold ends, end1.
  destruct (cw_tvzero (end_ c)) eqn:E; cbn [answer end_ upd];
    destruct (cw_tvzero (answer c)); cbn; done.
Qed.

(** A cause, applied to one record. *)
Definition cause1 (cause : Z) (c : cw_cdr) : cw_cdr :=
  if cause =? CW_CAUSE_BUSY then busy1 c else if cause =? CW_CAUSE_FAILURE then failed1 c else c.

(** Every record gets the cause at least once. *)
Lemma disposition_all (P Q : cw_cdr -> Prop) fuel l cause :
  (forall c, P c -> Q (cause1 cause c)) -> (forall c, Q c -> Q (cause1 cause c)) ->
  (length l <= fuel)%nat -> Forall P l -> Forall Q (disposition_loop fuel l cause).2.
Proof.
  intros HP HQ. revert l P HP. induction fuel as [|fuel IH]; intros l P HP Hf Hl;
    (destruct l as [|c l]; [simpl; constructor|]); [simpl in Hf; lia|].
  cbn [disposition_loop].
  assert (exists res, (if cause =? CW_CAUSE_BUSY then (0, cw_cdr_busy (c :: l))
      else if cause =? CW_CAUSE_FAILURE then (0, cw_cdr_failed (c :: l))
      else if cause =? CW_CAUSE_NORMAL then (0, c :: l) else (-1, c :: l)) = (res, cause1 cause <$> c :: l)) as [res ->].
  { unfold cause1, cw_cdr_busy, cw_cdr_failed. repeat case_match; eexists; try done; by rewrite list_fmap_id. }
  rewrite fmap_cons. inversion_clear Hl as [|? ? Hc Hl'].
  assert (Forall Q (disposition_loop fuel (cause1 cause <$> l) cause).2).
  { apply (IH _ Q); [done|rewrite length_fmap; simpl in Hf; lia|]. apply Forall_fmap.
    eapply Forall_impl; [exact Hl'|exact HP]. }
  destruct (disposition_loop fuel (cause1 cause <$> l) cause) as [res' l']. constructor; auto.
Qed.

(** What an operation makes of the record. *)
Lemma fate_snoc ops op : fate (ops ++ [op]) =
  if is_failure op then CW_CDR_FAILED
  else if is_answer op then Z.max (fate ops) CW_CDR_ANSWERED
  else if is_busy op then Z.max (fate ops) CW_CDR_BUSY else fate ops.
Proof.
  unfold fate. rewrite !existsb_app. cbn [existsb]. rewrite !orb_false_r.
  destruct (existsb is_failure ops), (existsb is_answer ops), (existsb is_busy ops),
    (is_failure op), (is_answer op), (is_busy op); reflexivity.
Qed.

Lemma fate_same ops op : is_failure op = false -> is_answer op = false -> is_busy op = false ->
  forall c, fated ops c -> fated (ops ++ [op]) c.
Proof.
  intros Hf Ha Hb c (H1 & H2 & H3). unfold fated. rewrite fate_snoc, existsb_app, Hf, Ha, Hb. simpl.
  by rewrite Ha, !orb_false_r.
Qed.

Lemma fated_again ops op c : fated (ops ++ [op]) c -> is_answer op = false ->
  (is_failure op = true -> disposition c = CW_CDR_FAILED) /\ (is_busy op = true -> CW_CDR_BUSY <= disposition c).
Proof.
  intros (_ & Hd & _) Ha. rewrite fate_snoc, Ha in Hd. split; intros E; rewrite E in Hd; [done|].
  destruct (is_failure op); rewrite Hd; unfold CW_CDR_FAILED, CW_CDR_BUSY; lia.
Qed.

Lemma busy1_fated ops op c : is_busy op = true -> is_failure op = false -> is_answer op = false ->
  fated ops c \/ fated (ops ++ [op]) c -> fated (ops ++ [op]) (busy1 c).
Proof.
  intros Hb Hf Ha [(H1 & H2 & H3)|H].
  - unfold busy1, fated. rewrite H1, fate_snoc, existsb_app, Hf, Ha, Hb, <- H2. cbn [existsb negb andb].
    rewrite Ha, !orb_false_r, <- H3. destruct (Z.ltb_spec (disposition c) CW_CDR_BUSY); cbn; split_and!; try done; lia.
  - destruct (fated_again _ _ _ H Ha) as [_ Hd]. specialize (Hd Hb). unfold busy1.
    by rewrite (proj2 (Z.ltb_ge _ _) Hd), andb_false_r.
Qed.

Lemma failed1_fated ops op c : is_failure op = true -> is_answer op = false ->
  fated ops c \/ fated (ops ++ [op]) c -> fated (ops ++ [op]) (failed1 c).
Proof.
  intros Hf Ha H. unfold failed1, fated. rewrite fate_snoc, existsb_app, Hf. cbn [existsb]. rewrite Ha, !orb_false_r.
  destruct H as [(H1 & H2 & H3)|(H1 & H2 & H3)]; rewrite H1; cbn; split_and!; try done.
  rewrite existsb_app in H3. cbn [existsb] in H3. by rewrite Ha, !orb_false_r in H3.
Qed.

Lemma answer1_fated ops t c : sane t -> fated ops c -> fated (ops ++ [Answer]) (answer1 t c).
Proof.
  intros Ht (H1 & H2 & H3). unfold answer1, fated. rewrite fate_snoc, existsb_app. cbn [is_failure is_answer existsb].
  rewrite orb_true_r, <- H2. cbn [negb].
  destruct (Z.ltb_spec (disposition c) CW_CDR_ANSWERED); cbn [answer upd];
    destruct (cw_tvzero (answer c)) eqn:Ea; cbn; rewrite ?(sane_set t Ht); split_and!; try done; lia.
Qed.

Lemma end1_fated ops n c : fated ops c -> fated (ops ++ [End]) (end1 (now n) c).
Proof.
  intros H. apply fate_same; [done..|]. revert H. unfold fated, end1.
  destruct (cw_tvzero (end_ c)); cbn [answer upd]; destruct (cw_tvzero (answer c)) eqn:E; cbn; by rewrite ?E.
Qed.

Lemma cause1_fated ops cause c :
  fated ops c \/ fated (ops ++ [Cause cause]) c -> fated (ops ++ [Cause cause]) (cause1 cause c).
Proof.
  intros H. unfold cause1. destruct (Z.eqb_spec cause CW_CAUSE_BUSY) as [->|Hb]; [by apply busy1_fated|].
  destruct (Z.eqb_spec cause CW_CAUSE_FAILURE) as [->|Hf]; [by apply failed1_fated|].
  destruct H as [H|H]; [|done]. apply fate_same; [| | |done]; cbn; [by apply Z.eqb_neq|done|by apply Z.eqb_neq].
Qed.

(** The three together. *)
Definition billed (b : bool) (ops : list call_op) (n : nat) (c : cw_cdr) : Prop :=
  going now n c /\ ends b c /\ fated ops c.

Lemma run_op_billed op rest b ops n l :
  no_late_answer b (op :: rest) = true -> Forall (billed b ops n) l ->
  exists b', no_late_answer b' rest = true /\ (b = true -> b' = true) /\ (op = End -> b' = true) /\
  let r := run_op now (n, l) op in Forall (billed b' (ops ++ [op]) r.1) r.2.
Proof.
  intros Ho Hl. destruct op; cbn [no_late_answer] in Ho; cbn [run_op].
  - apply andb_true_iff in Ho as [Hb Ho]. apply negb_true_iff in Hb as ->. exists false.
    split_and!; [done..|].
    apply (stamp_changes _ _ n l (billed false ops) (billed false (ops ++ [Answer]))).
    + intros m k c Hm (?&?&?). split; [by eapply going_later|done].
    + intros m k c Hm (?&?&?). split; [by eapply going_later|done].
    + intros m c (Hg & He & Hd). destruct (answer1_going m c He Hg). split_and!; [done..|].
      apply answer1_fated; [apply now_sane|done].
    + done.
  - exists b. split_and!; [done..|]. apply Forall_fmap. eapply Forall_impl; [exact Hl|]. intros c (?&?&?).
    split_and!; [by apply busy1_going|by apply busy1_ends|apply busy1_fated; auto].
  - exists b. split_and!; [done..|]. apply Forall_fmap. eapply Forall_impl; [exact Hl|]. intros c (?&?&?).
    split_and!; [by apply failed1_going|by apply failed1_ends|apply failed1_fated; auto].
  - exists b. split_and!; [done..|]. cbn [fst snd].
    assert (Hc : forall c, going now n c /\ ends b c -> going now n (cause1 cause c) /\ ends b (cause1 cause c)).
    { intros c []. unfold cause1. case_match; [split; [by apply busy1_going|by apply busy1_ends]|].
      case_match; [split; [by apply failed1_going|by apply failed1_ends]|done]. }
    apply (disposition_all (billed b ops n)); [| |done|done]; intros c (?&?&?);
      (destruct (Hc c) as [? ?]; [done|]); split_and!; [done|done|apply cause1_fated; auto|done|done|apply cause1_fated; auto].
  - exists true. split_and!; [done..|].
    apply (stamp_changes _ _ n l (billed b ops) (billed true (ops ++ [End]))).
    + intros m k c Hm (?&?&?). split; [by eapply going_later|done].
    + intros m k c Hm (?&?&?). split; [by eapply going_later|done].
    + intros m c (Hg & He & Hd). split_and!; [by apply end1_going|apply end1_ends|by apply end1_fated].
    + done.
Qed.

Lemma run_ops_billed rest b ops n l :
  no_late_answer b rest = true -> Forall (billed b ops n) l ->
  exists b', (b = true -> b' = true) /\ (End ∈ rest -> b' = true) /\
  let r := run_ops now (n, l) rest in Forall (billed b' (ops ++ rest) r.1) r.2.
Proof.
  revert b ops n l. induction rest as [|op rest IH]; intros b ops n l Ho Hl.
  { exists b. rewrite app_nil_r. split_and!; [done| |done]. intros H. by apply elem_of_nil in H. }
  destruct (run_op_billed op rest b ops n l Ho Hl) as (b1 & Ho1 & Hb1 & He1 & Hl1).
  change (run_ops now (n, l) (op :: rest)) with (run_ops now (run_op now (n, l) op) rest).
  destruct (run_op now (n, l) op) as [n1 l1].
  destruct (IH b1 (ops ++ [op]) n1 l1 Ho1 Hl1) as (b2 & Hb2 & He2 & Hl2).
  rewrite <- app_assoc in Hl2. exists b2. split_and!; [auto| |done].
  intros [<-|H]%elem_of_cons; [apply Hb2, He1|]; auto.
Qed.

End billing.

(** C19: records that are marked NO ANSWER, with neither answer nor end, are started, and
    then answered, found busy, failed or given a cause in any order and ended, once or
    more often, no answer being later than the first end: each is billed for no more than
    the call lasted, from its answer on, and for nothing if there was no answer.  Its
    disposition is FAILED after any failure, otherwise ANSWERED after any answer,
    otherwise BUSY or NO ANSWER; so that a call that failed after it was answered is
    billed all the same.  The clock does not run backwards and nobody locks the records.
    An answer behind the end can bill less than nothing ([late_answer_bills_negative]). *)
Theorem billing_bounds now n l ops c' :
  clock_ok now ->
  Forall (fun c => locked c = false /\ answer c = tv_zero /\ end_ c = tv_zero
                   /\ disposition c = CW_CDR_NOANSWER) l ->
  no_late_answer false ops = true -> End ∈ ops ->
  c' ∈ (run_ops now (cw_cdr_start now n l) ops).2 ->
  0 <= billsec c' <= duration c' /\
  duration c' = tv_sec (end_ c') - tv_sec (start c') /\
  (if existsb is_answer ops
   then billsec c' = tv_sec (end_ c') - tv_sec (answer c') /\
        tv_sec (start c') <= tv_sec (answer c') <= tv_sec (end_ c')
   else billsec c' = 0) /\
  disposition c' = fate ops.
Proof.
  intros Hnow Hl Ho He Hc.
  assert (Hs : let r := cw_cdr_start now n l in Forall (billed now false [] r.1) r.2).
  { apply (stamp_changes now _ _ n l (fun _ c => locked c = false /\ answer c = tv_zero /\ end_ c = tv_zero
      /\ disposition c = CW_CDR_NOANSWER) (billed now false [])); [done| | |done].
    - intros m k c Hm (?&?&?). split; [by eapply going_later|done].
    - intros m c (H1 & H2 & H3 & H4). unfold start1. rewrite H1. pose proof (now_sane now Hnow m).
      pose proof (now_mono now Hnow m (S m) ltac:(lia)). split_and!.
      + constructor; cbn; auto.
      + done.
      + unfold fated. cbn. rewrite H2, H4. done. }
  destruct (cw_cdr_start now n l) as [n1 l1]. cbn [fst snd] in Hs.
  destruct (run_ops_billed now Hnow ops false [] n1 l1 Ho Hs) as (b & _ & Hb & Hr). cbn [app] in Hr.
  rewrite (Hb He) in Hr. eapply Forall_forall in Hr as (Hg & Hend & _ & Hd & Hz); [|exact Hc]. destruct Hg.
  unfold ends in Hend. destruct go_end0 as [E|(?&?&Ha&Hdu&Hbs)]; [by rewrite E in Hend|].
  rewrite Hbs, Hdu, Hz. destruct (existsb is_answer ops); cbn [negb] in *.
  - destruct Ha as [E|Ha]; [by rewrite E in Hz|].
    destruct go_answer0 as [E|(?&?)]; [by rewrite E in Hz|]. split_and!; (done || lia).
  - split_and!; (done || lia).
Qed.

Definition even_clock (n : nat) : timeval := cw_tv (1000 + 10 * Z.of_nat (Nat.min n 100)) 500.

Lemma even_clock_ok : clock_ok even_clock.
Proof.
  split; intros n; unfold even_clock, tv_normal, ONE_MILLION, INT_MAX; cbn [tv_sec tv_usec]; lia.
Qed.

Lemma billing_bounds_witness :
  let l := (run_ops even_clock (cw_cdr_start even_clock 5 [cw_cdr_alloc <| disposition := CW_CDR_NOANSWER |>])
              [Answer; Busy; End; Cause 16]).2 in
  (fun c => (billsec c, duration c, disposition c)) <$> l = [(10, 20, CW_CDR_ANSWERED)] /\
  forall c, c ∈ l -> 0 <= billsec c <= duration c.
Proof.
  split; [vm_compute; reflexivity|]. intros c Hc.
  apply (billing_bounds even_clock 5 [cw_cdr_alloc <| disposition := CW_CDR_NOANSWER |>]
    [Answer; Busy; End; Cause 16] c even_clock_ok); [|reflexivity| |exact Hc].
  - constructor; [|constructor]. vm_compute. intuition discriminate.
  - apply elem_of_cons. right. apply elem_of_cons. right. apply elem_of_cons. by left.
Defined.

(** An answer after the end bills the call for less than nothing when it is ended again. *)
Example late_answer_bills_negative :
  (fun c => (billsec c, duration c, disposition c)) <$>
    (run_ops even_clock (cw_cdr_start even_clock 5 [cw_cdr_alloc <| disposition := CW_CDR_NOANSWER |>])
       [End; Answer; End]).2 = [(-10, 10, CW_CDR_ANSWERED)].
Proof. vm_compute. reflexivity. Qed.
