(* ===== verification/CdrEngine.v ===== *)
(** * The engine of the call detail records (corelib/cdr.c)

    A record that is done is detached from its channel: it is posted, that is
    handed to every backend that is registered, at once or, in batch mode, when
    enough records have come together or enough time has passed.  The
    scheduler is the one of Sched; its event posts the batch and schedules
    itself again.

    The clock and the outcomes of what may fail (allocations, the start of a
    thread) are [now] and [ok], by the number of times they were asked.  A
    thread that posts a batch is the list of what it has yet to post and can be
    interrupted between two of its items.  [None] in place of a result is a bad
    memory access. *)

From S2P Require Import Prelude Time Sched CStr Utils Hash Timing Args Vars CallerId World Cdr.
Open Scope Z_scope.

(** ** State *)

Record cw_cdr_beitem := { be_name : string; be_desc : string; be : Z }.

Record cw_cdr_batch := { size : Z; items : list (list cw_cdr) }.

(** [posts] are the records posted so far, each with the backends that got it;
    [threads] what the detached threads have yet to post. *)
Record cdr_engine := {
  be_list : list cw_cdr_beitem;
  enabled : bool;
  batchmode : bool;
  batchsize : Z;
  batchtime : Z;
  batchscheduleronly : bool;
  batchsafeshutdown : bool;
  cw_end_cdr_before_h_exten : bool;
  batch : option cw_cdr_batch;
  cdr_sched : Z;
  cdr_thread : bool;
  cli_submit : bool;
  atexit_term : bool;
  threads : list (list (list cw_cdr));
  posts : list (cw_cdr * list Z);
}.

#[export] Instance cdr_engine_eta : Eta cdr_engine := fun e =>
  {| be_list := be_list e; enabled := enabled e; batchmode := batchmode e; batchsize := batchsize e;
     batchtime := batchtime e; batchscheduleronly := batchscheduleronly e;
     batchsafeshutdown := batchsafeshutdown e;
     cw_end_cdr_before_h_exten := cw_end_cdr_before_h_exten e; batch := batch e;
     cdr_sched := cdr_sched e; cdr_thread := cdr_thread e; cli_submit := cli_submit e;
     atexit_term := atexit_term e; threads := threads e; posts := posts e |}.

(** The engine, its scheduler, and how often the system was asked. *)
Record cdr_world := {
  eng : cdr_engine;
  con : sched_context unit unit;
  asked : nat;
}.

#[export] Instance cdr_world_eta : Eta cdr_world := fun w =>
  {| eng := eng w; con := con w; asked := asked w |}.

(** ** Backends *)

Definition cw_cdr_register (mem : bool) (name : option string) (desc : string) (b : option Z)
    (e : cdr_engine) : Z * cdr_engine :=
  match name, b with
  | Some name, Some b =>
    if existsb (fun i => strcaseeq name (be_name i)) (be_list e) then (-1, e)
    else if mem then
      (0, e <| be_list := {| be_name := copy 20 name; be_desc := copy 80 desc; be := b |} :: be_list e |>)
    else (-1, e)
  | _, _ => (-1, e)
  end.

Fixpoint unregister (name : string) (l : list cw_cdr_beitem) : list cw_cdr_beitem :=
  match l with
  | [] => []
  | i :: l => if strcaseeq name (be_name i) then l else i :: unregister name l
  end.

Definition cw_cdr_unregister (name : string) (e : cdr_engine) : cdr_engine :=
  e <| be_list := unregister name (be_list e) |>.

(** ** Posting *)

Definition mark (c : cw_cdr) : cw_cdr := cdr_set_flag c CW_CDR_FLAG_POSTED.

Definition post_cdr (cdr : list cw_cdr) (e : cdr_engine) : cdr_engine :=
  e <| posts := posts e ++ ((fun c => (mark c, be <$> be_list e)) <$> cdr) |>.

(** The warnings of [cw_cdr_free]. *)
Inductive complaint := NotPosted | LacksEnd | LacksStart.

Definition complain (b : bool) (x : complaint) : list complaint := if b then [x] else [].

Definition cw_cdr_free (cdr : list cw_cdr) : list (list complaint) :=
  (fun c =>
     complain (negb (cdr_test_flag c CW_CDR_FLAG_POSTED) && negb (cdr_test_flag c CW_CDR_FLAG_POST_DISABLED))
       NotPosted
     ++ complain (cw_tvzero (end_ c)) LacksEnd ++ complain (cw_tvzero (start c)) LacksStart) <$> cdr.

Definition do_batch_backend_process (l : list (list cw_cdr)) (e : cdr_engine) : cdr_engine :=
  fold_left (fun e cdr => post_cdr cdr e) l e.

(** The thread [i] posts its next item. *)
Definition posting_thread (i : nat) (e : cdr_engine) : cdr_engine :=
  match threads e !! i with
  | Some (cdr :: l) => post_cdr cdr (e <| threads := <[i := l]> (threads e) |>)
  | _ => e
  end.

Definition empty_batch : cw_cdr_batch := {| size := 0; items := [] |}.

Section engine.
Context (now : nat -> timeval) (ok : nat -> bool).

Definition cw_cdr_submit_batch (shutdown : bool) (w : cdr_world) : cdr_world :=
  let e := eng w in
  match batch e with
  | Some {| items := (_ :: _) as old |} =>
    let e := e <| batch := Some empty_batch |> in
    if batchscheduleronly e || shutdown then
      w <| eng := do_batch_backend_process old e |>
    else
      let w := w <| asked := S (asked w) |> in
      if ok (pred (asked w)) then w <| eng := e <| threads := threads e ++ [old] |> |>
      else w <| eng := do_batch_backend_process old e |>
  | _ => w
  end.

(** [cdr_sched = cw_sched_add(sched, ms, submit_scheduled_batch, NULL)] *)
Definition sched_batch (ms : Z) (w : cdr_world) : cdr_world :=
  let '(id, con) := cw_sched_add (ok (asked w)) (now (asked w)) (con w) ms tt tt in
  {| eng := (eng w) <| cdr_sched := id |>; con := con; asked := S (asked w) |}.

Definition unsched_batch (w : cdr_world) : cdr_world :=
  if -1 <? cdr_sched (eng w) then w <| con := (cw_sched_del (con w) (cdr_sched (eng w))).2 |> else w.

Definition submit_scheduled_batch (w : cdr_world) : cdr_world :=
  let w := cw_cdr_submit_batch false w in
  sched_batch (s32 (batchtime (eng w) * 1000)) w.

Definition submit_unscheduled_batch (w : cdr_world) : cdr_world := sched_batch 1 (unsched_batch w).

(** The event of the scheduler: it runs with the engine and the count as its
    world, and is not scheduled again by the scheduler. *)
Definition batch_event (_ _ : unit) (k : sched_context unit unit) (x : cdr_engine * nat)
    : Z * sched_context unit unit * (cdr_engine * nat) :=
  let w := submit_scheduled_batch {| eng := x.1; con := k; asked := x.2 |} in
  (0, con w, (eng w, asked w)).

(** The scheduler's thread wakes up at [t]. *)
Definition scheduler_turn (t : timeval) (w : cdr_world) : cdr_world :=
  let '(k, x) := service_turn batch_event t (con w) (eng w, asked w) in
  {| eng := x.1; con := k; asked := x.2 |}.

Definition push_batch (cdr : list cw_cdr) (b : cw_cdr_batch) : cw_cdr_batch :=
  {| size := s32 (size b + 1); items := items b ++ [cdr] |}.

Definition cw_cdr_detach (cdr : list cw_cdr) (w : cdr_world) : option cdr_world :=
  let e := eng w in
  if negb (enabled e) then match cdr with [] => None | _ => Some w end
  else if negb (batchmode e) then Some (w <| eng := post_cdr cdr e |>)
  else
    let newtail := ok (asked w) in
    let w := w <| asked := S (asked w) |> in
    if negb newtail then Some (w <| eng := post_cdr cdr e |>)
    else
      r ← match batch e with
          | Some b => Some (b, w)
          | None => if ok (asked w) then Some (empty_batch, w <| asked := S (asked w) |>) else None
          end;
      let '(b, w) := r in
      let w := w <| eng := e <| batch := Some (push_batch cdr b) |> |> in
      Some (if s32 (batchsize e - 1) <=? size b then submit_unscheduled_batch w else w).

Definition cw_cdr_engine_term (w : cdr_world) : cdr_world :=
  cw_cdr_submit_batch (batchsafeshutdown (eng w)) w.

(** ** Configuration *)

Definition BATCH_SIZE_DEFAULT : Z := 100.
Definition BATCH_TIME_DEFAULT : Z := 300.

Definition flag_of (conf : option (string -> option string)) (key : string) (d : bool) : bool :=
  match conf with
  | Some get => match get key with Some v => cw_true v | None => d end
  | None => d
  end.

Definition number_of (conf : option (string -> option string)) (key : string) (d : Z) : Z :=
  match conf with
  | Some get =>
    match get key with
    | Some v =>
      match scan_int v with
      | Some (n, _) => if n <? 0 then d else n
      | None => d
      end
    | None => d
    end
  | None => d
  end.

(** The settings of the section [general] of cdr.conf, if there is one. *)
Definition configure (conf : option (string -> option string)) (e : cdr_engine) : cdr_engine :=
  e <| batchsize := number_of conf "size" BATCH_SIZE_DEFAULT |>
    <| batchtime := number_of conf "time" BATCH_TIME_DEFAULT |>
    <| batchscheduleronly := flag_of conf "scheduleronly" false |>
    <| batchsafeshutdown := flag_of conf "safeshutdown" true |>
    <| enabled := flag_of conf "enable" true |>
    <| batchmode := flag_of conf "batch" false |>
    <| cw_end_cdr_before_h_exten := flag_of conf "endbeforehexten" false |>.

Definition do_reload (conf : option (string -> option string)) (w : cdr_world) : Z * cdr_world :=
  let was_enabled := enabled (eng w) in
  let was_batchmode := batchmode (eng w) in
  let w := unsched_batch w in
  let w := w <| eng := configure conf (eng w) |> in
  let w := if enabled (eng w) && batchmode (eng w)
           then sched_batch (s32 (batchtime (eng w) * 1000)) w else w in
  let e := eng w in
  let w :=
    if enabled e && batchmode e && (negb was_enabled || negb was_batchmode) && negb (cdr_thread e)
    then w <| eng := e <| cli_submit := true |> <| atexit_term := true |> |>
    else if ((negb (enabled e) && was_enabled) || (negb (batchmode e) && was_batchmode))
            && cdr_thread e
    then
      let w := w <| eng := e <| cdr_thread := false |> <| cli_submit := false |>
                             <| atexit_term := false |> |> in
      if negb (batchmode e) && was_batchmode then cw_cdr_engine_term w else w
    else w in
  (0, w).

Definition engine_start : cdr_engine :=
  {| be_list := []; enabled := false; batchmode := false; batchsize := 0; batchtime := 0;
     batchscheduleronly := false; batchsafeshutdown := false; cw_end_cdr_before_h_exten := false;
     batch := None; cdr_sched := -1; cdr_thread := false; cli_submit := false;
     atexit_term := false; threads := []; posts := [] |}.

(** The scheduler's context and its thread; a [batch] would be made only had the
    configuration failed. *)
Definition cw_cdr_engine_init (conf : option (string -> option string)) (w : cdr_engine) : Z * option cdr_world :=
  match sched_context_create (ok 0) (ok 1) with
  | None => (-1, None)
  | Some k =>
    let '(res, w) := do_reload conf {| eng := w; con := k; asked := 2 |} in
    if negb (res =? 0) then
      let w := w <| asked := S (asked w) |> in
      if ok (pred (asked w)) then (0, Some (w <| eng := (eng w) <| batch := Some empty_batch |> |>))
      else (-1, Some w)
    else (res, Some w)
  end.

Definition handle_cli_submit (argc : Z) (w : cdr_world) : bool * cdr_world :=
  if 2 <? argc then (false, w) else (true, submit_unscheduled_batch w).

(** ** Starting a record anew *)

Definition has_flag (fl f : Z) : bool := negb (Z.land fl f =? 0).

(** With [CW_CDR_FLAG_POSTED] a copy of the record is ended and posted; the
    walk of [cw_cdr_end] goes on to the end of the chain. *)
Definition reset_post (cdr : list cw_cdr) (w : cdr_world) : option (list cw_cdr * cdr_world) :=
  let '(n, cdr) := cw_cdr_end now (asked w) cdr in
  match cdr with
  | [] => Some ([], w <| asked := n |>)
  | c :: next =>
    d ← cw_cdr_dup (ok n) (ok (S n)) c;
    let w := w <| asked := S (S n) |> in
    w ← match d with Some dup => cw_cdr_detach [dup] w | None => Some w end;
    Some (mark c :: next, w)
  end.

Definition cleared (fl : Z) (c : cw_cdr) : cw_cdr :=
  let c := if has_flag fl CW_CDR_FLAG_KEEP_VARS then c else c <| varshead := [] |> in
  c <| flags := 0 |> <| start := tv_zero |> <| end_ := tv_zero |> <| answer := tv_zero |>
    <| billsec := 0 |> <| duration := 0 |>.

(** [cw_cdr_start], too, goes on to the end of the chain. *)
Fixpoint reset_loop (fuel : nat) (fl : Z) (cdr : list cw_cdr) (w : cdr_world)
    : option (list cw_cdr * cdr_world) :=
  match fuel, cdr with
  | S fuel, c :: next =>
    if has_flag fl CW_CDR_FLAG_LOCKED || negb (locked c) then
      r ← (if has_flag fl CW_CDR_FLAG_POSTED then reset_post cdr w else Some (cdr, w));
      match r with
      | (c :: next, w) =>
        let '(n, cdr) := cw_cdr_start now (asked w) (cleared fl c :: next) in
        match cdr with
        | c :: next =>
          r ← reset_loop fuel fl next (w <| asked := n |>);
          Some (c <| disposition := CW_CDR_NOANSWER |> :: r.1, r.2)
        | [] => Some ([], w)
        end
      | ([], w) => Some ([], w)
      end
    else
      r ← reset_loop fuel fl next w; Some (c :: r.1, r.2)
  | _, _ => Some (cdr, w)
  end.

Definition cw_cdr_reset (cdr : list cw_cdr) (fl : Z) (w : cdr_world)
    : option (list cw_cdr * cdr_world) := reset_loop (length cdr) fl cdr w.

(** ** Applications and the function [CDR] *)

(** [ResetCDR] (pbx.c): the letters of all its arguments. *)
Definition resetcdr_letter (fl : Z) (c : ascii) : Z :=
  if char_eqb c "a" then Z.lor fl CW_CDR_FLAG_LOCKED
  else if char_eqb c "v" then Z.lor fl CW_CDR_FLAG_KEEP_VARS
  else if char_eqb c "w" then Z.lor fl CW_CDR_FLAG_POSTED
  else fl.

Definition resetcdr_flags (argv : list string) : Z :=
  fold_left (fun fl arg => fold_left resetcdr_letter (String.list_ascii_of_string arg) fl) argv 0.

Definition pbx_builtin_resetcdr (ch : cdr_channel) (argv : list string) (w : cdr_world)
    : option (cdr_channel * cdr_world) :=
  r ← cw_cdr_reset (cc_cdr ch) (resetcdr_flags argv) w;
  Some (ch <| cc_cdr := r.1 |>, r.2).

Definition pbx_builtin_setaccount (ch : cdr_channel) (argv : list string) : cdr_channel :=
  cw_cdr_setaccount ch (default ""%string (head argv)).

Definition pbx_builtin_setamaflags (ch : cdr_channel) (argv : list string) : option cdr_channel :=
  cw_cdr_setamaflags ch (default ""%string (head argv)).

(** [ForkCDR] (app_forkcdr.c): the last record is copied, the copy put behind
    it and started anew. *)
Definition cw_cdr_fork (ch : cdr_channel) (w : cdr_world) : option (cdr_channel * cdr_world) :=
  match rev (cc_cdr ch) with
  | [] => Some (ch, w)
  | cdr :: front =>
    let n := asked w in
    d ← cw_cdr_dup (ok n) (ok (S n)) cdr;
    let w := w <| asked := S (S n) |> in
    match d with
    | None => Some (ch, w)
    | Some newcdr =>
      r ← cw_cdr_reset [newcdr] CW_CDR_FLAG_KEEP_VARS w;
      let cdr := if cdr_test_flag cdr CW_CDR_FLAG_KEEP_VARS then cdr else cdr <| varshead := [] |> in
      let cdr := cdr_set_flag cdr (Z.lor CW_CDR_FLAG_CHILD CW_CDR_FLAG_LOCKED) in
      Some (ch <| cc_cdr := rev front ++ cdr :: r.1 |>, r.2)
    end
  end.

Definition forkcdr_exec (ch : cdr_channel) (argv : list string) (w : cdr_world)
    : option (cdr_channel * cdr_world) :=
  ch ← match argv, cc_cdr ch with
       | [], _ => Some ch
       | _ :: _, [] => None
       | arg :: _, c :: next =>
         let fl := if strchr arg "v" then Z.lor (flags c) CW_CDR_FLAG_KEEP_VARS
                   else Z.ldiff (flags c) CW_CDR_FLAG_KEEP_VARS in
         Some (ch <| cc_cdr := c <| flags := fl |> :: next |>)
       end;
  cw_cdr_fork ch w.

(** [NoCDR] (app_cdr.c), with the warnings of the records it frees. *)
Definition nocdr_exec (ch : cdr_channel) : cdr_channel * list (list complaint) :=
  (ch <| cc_cdr := [] |>, cw_cdr_free (cc_cdr ch)).

(** Is the function [CDR] called with one or two arguments and a name. *)
Definition cdr_args (argv : list string) : option (string * bool) :=
  match argv with
  | [String _ _ as name] => Some (name, false)
  | [String _ _ as name; options] => Some (name, strchr options "r")
  | _ => None
  end.

(** The function [CDR] (func_cdr.c): the buffer it is read into holds [buf]. *)
Definition builtin_function_cdr_read (localtime : Z -> clock) (ch : cdr_channel)
    (argv : list string) (buf : string) (len : Z) : option (option string) :=
  match cdr_args argv, cc_cdr ch with
  | None, _ | _, [] => Some None
  | Some (name, recursive), cdr =>
    buf ← cw_cdr_getvar localtime cdr name buf len recursive;
    Some (if streq buf "" then None else Some buf)
  end.

Definition builtin_function_cdr_write (alloc : bool) (ch : cdr_channel) (argv : list string)
    (value : string) : option cdr_channel :=
  match cdr_args argv with
  | None => Some ch
  | Some (name, recursive) =>
    if strcaseeq name "accountcode" then Some (cw_cdr_setaccount ch value)
    else if strcaseeq name "userfield" then Some (cw_cdr_setuserfield ch value)
    else match cc_cdr ch with
         | [] => Some ch
         | cdr => r ← cw_cdr_setvar alloc cdr name (Some value) recursive;
                  Some (ch <| cc_cdr := r.2 |>)
         end
  end.

(** [cw_hangup] (channel.c): the records are ended, posted and gone. *)
Definition cdr_hangup (ch : cdr_channel) (w : cdr_world) : option (cdr_channel * cdr_world) :=
  match cc_cdr ch with
  | [] => Some (ch, w)
  | cdr =>
    let '(n, cdr) := cw_cdr_end now (asked w) cdr in
    w ← cw_cdr_detach cdr (w <| asked := n |>);
    Some (ch <| cc_cdr := [] |>, w)
  end.

End engine.

(** ** No record is lost or posted twice *)

(** Everything the engine is responsible for, as it is or will be posted. *)
Definition unposted (e : cdr_engine) : list cw_cdr :=
  concat (concat (threads e)) ++ match batch e with Some b => concat (items b) | None => [] end.

Definition taken_on (e : cdr_engine) : list cw_cdr := (fst <$> posts e) ++ (mark <$> unposted e).

Lemma accounted_post cdr e : taken_on (post_cdr cdr e) ≡ₚ taken_on e ++ (mark <$> cdr).
Proof.
  unfold taken_on, unposted. cbn. rewrite !fmap_app, <- list_fmap_compose.
  change (fst ∘ (fun c => (mark c, be <$> be_list e))) with mark. solve_Permutation.
Qed.

Lemma process_post l e :
  do_batch_backend_process l e = post_cdr (concat l) e.
Proof.
  revert e. induction l as [|cdr l IH]; intros e; cbn.
  - unfold post_cdr. cbn. rewrite app_nil_r. by destruct e.
  - rewrite IH. unfold post_cdr. cbn. by rewrite fmap_app, app_assoc.
Qed.

Lemma concat_insert {A} (l : list (list A)) i x y :
  l !! i = Some (x :: y) -> concat l ≡ₚ x :: concat (<[i := y]> l).
Proof.
  revert i. induction l as [|z l IH]; intros [|i] H; cbn in *; try done.
  - by injection H as ->.
  - rewrite (IH i H). by rewrite Permutation_middle.
Qed.

Lemma accounted_thread i e : taken_on (posting_thread i e) ≡ₚ taken_on e.
Proof.
  unfold posting_thread. destruct (threads e !! i) as [[|cdr l]|] eqn:E; [done| |done].
  rewrite accounted_post. unfold taken_on, unposted. cbn.
  assert (Hp : concat (concat (threads e)) ≡ₚ cdr ++ concat (concat (<[i:=l]> (threads e)))).
  { rewrite (concat_insert _ _ _ _ E). done. }
  rewrite Hp, !fmap_app. solve_Permutation.
Qed.

Lemma batch_moved e b :
  batch e = Some b ->
  taken_on e ≡ₚ taken_on (e <| batch := Some empty_batch |>) ++ (mark <$> concat (items b)).
Proof.
  intros E. unfold taken_on, unposted. cbn. rewrite E, app_nil_r, !fmap_app. solve_Permutation.
Qed.

Section accounts.
Context (now : nat -> timeval) (ok : nat -> bool).
Implicit Types w : cdr_world.

Lemma accounted_submit sh w :
  taken_on (eng (cw_cdr_submit_batch ok sh w)) ≡ₚ taken_on (eng w).
Proof.
  unfold cw_cdr_submit_batch. destruct (batch (eng w)) as [[sz [|x l]]|] eqn:E; try done.
  rewrite (batch_moved _ _ E).
  destruct (_ || _); [|destruct (ok _)]; cbn [eng upd].
  - rewrite process_post. apply accounted_post.
  - unfold taken_on, unposted. cbn. rewrite concat_app, concat_app, !fmap_app. cbn.
    rewrite !app_nil_r, !fmap_app. solve_Permutation.
  - rewrite process_post. apply accounted_post.
Qed.

Lemma accounted_sched ms w : taken_on (eng (sched_batch now ok ms w)) = taken_on (eng w).
Proof. unfold sched_batch. by destruct (cw_sched_add _ _ _ _ _ _). Qed.

Lemma accounted_unsched w : eng (unsched_batch w) = eng w.
Proof. unfold unsched_batch. by case_match. Qed.

Lemma accounted_event w :
  taken_on (eng (submit_scheduled_batch now ok w)) ≡ₚ taken_on (eng w).
Proof. unfold submit_scheduled_batch. by rewrite accounted_sched, accounted_submit. Qed.

Lemma accounted_unscheduled w :
  taken_on (eng (submit_unscheduled_batch now ok w)) = taken_on (eng w).
Proof. unfold submit_unscheduled_batch. by rewrite accounted_sched, accounted_unsched. Qed.

Lemma accounted_run (q : list (sched unit unit)) x k e n :
  let '(_, _, y) := sched_run (batch_event now ok) q x k (e, n) in taken_on y.1 ≡ₚ taken_on e.
Proof.
  revert x k e n. induction q as [|s q IH]; intros x k e n; cbn [sched_run]; [done|].
  unfold sched_run1, batch_event at 1.
  cbn [fst snd]. change (negb (0 =? 0)) with false. cbn iota beta.
  match goal with |- context [submit_scheduled_batch now ok ?w] =>
    pose proof (accounted_event w) as H;
    destruct (submit_scheduled_batch now ok w) as [e1 k1 n1] end.
  cbn in *. specialize (IH (x + 1) (sched_release k1 s) e1 n1).
  destruct (sched_run _ _ _ _ _) as [[? ?] y]. by rewrite IH.
Qed.

Lemma accounted_turn t w : taken_on (eng (scheduler_turn now ok t w)) ≡ₚ taken_on (eng w).
Proof.
  unfold scheduler_turn, service_turn, cw_sched_runq.
  destruct (sched_cut _ _) as [runq rest].
  match goal with |- context [sched_run _ runq 0 ?k ?x] =>
    pose proof (accounted_run runq 0 k (eng w) (asked w)) as H;
    destruct (sched_run _ runq 0 k x) as [[? ?] y] end. done.
Qed.

Lemma accounted_detach cdr w w' :
  cw_cdr_detach now ok cdr w = Some w' ->
  taken_on (eng w') ≡ₚ taken_on (eng w) ++ (if enabled (eng w) then mark <$> cdr else []).
Proof.
  unfold cw_cdr_detach. destruct (enabled (eng w)); cbn [negb].
  2: { destruct cdr; [done|]. intros [= <-]. by rewrite app_nil_r. }
  destruct (batchmode (eng w)); cbn [negb].
  2: { intros [= <-]. apply accounted_post. }
  destruct (ok (asked w)); cbn [negb]; [|intros [= <-]; apply accounted_post].
  assert (Hpush : forall b w1, match batch (eng w) with Some b' => b = b' | None => b = empty_batch end ->
    eng w1 = (eng w) <| batch := Some (push_batch cdr b) |> ->
    taken_on (eng w1) ≡ₚ taken_on (eng w) ++ (mark <$> cdr)).
  { intros b w1 Hb ->. unfold taken_on, unposted. cbn. rewrite concat_app. cbn.
    rewrite app_nil_r, !fmap_app. destruct (batch (eng w)); subst; cbn; rewrite ?fmap_app;
      solve_Permutation. }
  destruct (batch (eng w)) as [b|]; [|destruct (ok (asked (w <| asked := S (asked w) |>))); [|done]];
    cbn; intros [= <-]; (case_match; [rewrite accounted_unscheduled|]); by eapply Hpush.
Qed.

Lemma accounted_reload conf w :
  taken_on (eng (do_reload now ok conf w).2) ≡ₚ taken_on (eng w).
Proof.
  unfold do_reload. cbn [snd].
  set (w1 := unsched_batch w). set (w2 := w1 <| eng := configure conf (eng w1) |>).
  set (w3 := if enabled (eng w2) && batchmode (eng w2) then _ else w2).
  assert (H3 : taken_on (eng w3) = taken_on (eng w)).
  { unfold w3. case_match; [rewrite accounted_sched|]; unfold w2, w1; cbn; by rewrite accounted_unsched. }
  rewrite <- H3. repeat case_match; try done.
  unfold cw_cdr_engine_term. by rewrite accounted_submit.
Qed.

End accounts.

(** What happens to the engine, with the records it takes on. *)
Inductive posting_step (now : nat -> timeval) (ok : nat -> bool)
    : cdr_world -> list cw_cdr -> cdr_world -> Prop :=
  | es_detach w cdr w' : cw_cdr_detach now ok cdr w = Some w' ->
      posting_step now ok w (if enabled (eng w) then cdr else []) w'
  | es_thread w i : posting_step now ok w [] (w <| eng := posting_thread i (eng w) |>)
  | es_turn w t : posting_step now ok w [] (scheduler_turn now ok t w)
  | es_term w : posting_step now ok w [] (cw_cdr_engine_term ok w)
  | es_cli w argc : posting_step now ok w [] (handle_cli_submit now ok argc w).2
  | es_reload w conf : posting_step now ok w [] (do_reload now ok conf w).2
  | es_register w mem name desc b :
      posting_step now ok w [] (w <| eng := (cw_cdr_register mem name desc b (eng w)).2 |>)
  | es_unregister w name :
      posting_step now ok w [] (w <| eng := cw_cdr_unregister name (eng w) |>).

Inductive engine_run (now : nat -> timeval) (ok : nat -> bool)
    : cdr_world -> list cw_cdr -> cdr_world -> Prop :=
  | er_nil w : engine_run now ok w [] w
  | er_step w1 given w2 more w3 : engine_run now ok w1 given w2 -> posting_step now ok w2 more w3 ->
      engine_run now ok w1 (given ++ more) w3.

Lemma accounted_register mem name desc b e :
  taken_on (cw_cdr_register mem name desc b e).2 = taken_on e.
Proof. unfold cw_cdr_register. repeat case_match; done. Qed.

Lemma engine_step_accounts now ok w given w' :
  posting_step now ok w given w' -> taken_on (eng w') ≡ₚ taken_on (eng w) ++ (mark <$> given).
Proof.
  intros H. destruct H; cbn [fmap list_fmap eng upd]; rewrite ?app_nil_r.
  - etrans; [by eapply accounted_detach|]. by destruct (enabled (eng w)).
  - apply accounted_thread.
  - apply accounted_turn.
  - apply accounted_submit.
  - unfold handle_cli_submit. case_match; [done|]. cbn [snd]. by rewrite accounted_unscheduled.
  - apply accounted_reload.
  - by rewrite accounted_register.
  - done.
Qed.

(** C11: whatever the engine is through, each record it was given while it was
    enabled is posted exactly once or waits, once, in the batch or with a
    thread; with nothing waiting, what was posted is what was given. *)
Theorem posted_once now ok w given w' :
  engine_run now ok w given w' -> posts (eng w) = [] -> unposted (eng w) = [] ->
  (fst <$> posts (eng w')) ++ (mark <$> unposted (eng w')) ≡ₚ mark <$> given.
Proof.
  intros H Hp Hq. change (taken_on (eng w') ≡ₚ mark <$> given).
  induction H as [w|w1 given w2 more w3 _ IH Hs].
  - unfold taken_on. by rewrite Hp, Hq.
  - rewrite (engine_step_accounts _ _ _ _ _ Hs), IH by done. by rewrite fmap_app.
Qed.

(** ** The batch is posted in time *)

Section armed.
Context (now : nat -> timeval) (ok : nat -> bool) (Hok : forall n, ok n = true).

(** The one event of the scheduler is the engine's: due a millisecond, or the
    configured time, after some moment that has been. *)
Definition armed (w : cdr_world) (k : nat) (ms : Z) : Prop :=
  exists s, schedq (con w) = [s] /\ sched_id s = cdr_sched (eng w) /\ 0 <= sched_id s /\
    (k < asked w)%nat /\ when s = cw_tvadd (now k) (cw_samp2tv ms 1000) /\
    (ms = 1 \/ ms = s32 (batchtime (eng w) * 1000)).

Definition no_event (w : cdr_world) : Prop := schedq (con w) = [].

Lemma sched_alloc_quiet b (k : sched_context unit unit) :
  schedq (sched_alloc b k).2 = schedq k /\ (b = true -> (sched_alloc b k).1 = true).
Proof. unfold sched_alloc. by destruct (schedc k). Qed.

Lemma sched_batch_armed ms w :
  no_event w -> ms = 1 \/ ms = s32 (batchtime (eng w) * 1000) ->
  armed (sched_batch now ok ms w) (asked w) ms.
Proof.
  intros Hq Hms. unfold sched_batch, cw_sched_add, cw_sched_add_variable.
  destruct (sched_alloc_quiet (ok (asked w)) (con w)) as [Ha Hb]. rewrite Hok in *.
  destruct (sched_alloc true (con w)) as [b k]. cbn in *. rewrite Hb by done.
  rewrite Hq in Ha. case_if; b2p; unfold schedule, armed; cbn; rewrite Ha; cbn;
    eexists; split_and!; try done; lia.
Qed.

Lemma unsched_quiet w k ms : armed w k ms -> no_event (unsched_batch w).
Proof.
  intros (s & Hs & Hid & H0 & _). unfold unsched_batch.
  destruct (Z.ltb_spec (-1) (cdr_sched (eng w))); [|lia].
  unfold no_event, cw_sched_del. cbn. rewrite Hs. cbn [sched_unlink]. rewrite Hid, Z.eqb_refl.
  cbn. unfold sched_release. by case_if.
Qed.

Lemma unsched_still w : no_event w -> no_event (unsched_batch w).
Proof.
  intros Hq. unfold unsched_batch. case_match; [|done].
  unfold no_event, cw_sched_del in *. cbn. rewrite Hq. done.
Qed.

Lemma submit_con sh w : con (cw_cdr_submit_batch ok sh w) = con w.
Proof. unfold cw_cdr_submit_batch. repeat case_match; done. Qed.

Lemma submit_settings sh w :
  batchtime (eng (cw_cdr_submit_batch ok sh w)) = batchtime (eng w) /\
  cdr_sched (eng (cw_cdr_submit_batch ok sh w)) = cdr_sched (eng w) /\
  enabled (eng (cw_cdr_submit_batch ok sh w)) = enabled (eng w) /\
  batchmode (eng (cw_cdr_submit_batch ok sh w)) = batchmode (eng w) /\
  (asked w <= asked (cw_cdr_submit_batch ok sh w))%nat.
Proof.
  unfold cw_cdr_submit_batch. repeat case_match; rewrite ?process_post; cbn;
    split_and!; try done; lia.
Qed.

Definition batch_empty (e : cdr_engine) : Prop :=
  match batch e with Some b => items b = [] | None => True end.

Lemma submit_empties sh w : batch_empty (eng (cw_cdr_submit_batch ok sh w)).
Proof.
  unfold cw_cdr_submit_batch. destruct (batch (eng w)) as [[sz [|x l]]|] eqn:E.
  - unfold batch_empty. by rewrite E.
  - destruct (_ || _); [|destruct (ok _)]; cbn [eng upd]; rewrite ?process_post; done.
  - unfold batch_empty. by rewrite E.
Qed.

Lemma armed_frame w w' k ms :
  con w' = con w -> cdr_sched (eng w') = cdr_sched (eng w) ->
  batchtime (eng w') = batchtime (eng w) -> (asked w <= asked w')%nat ->
  armed w k ms -> armed w' k ms.
Proof.
  intros Ec Es Eb Ha (s & ? & ? & ? & ? & ? & ?). exists s. rewrite Ec, Es, Eb.
  split_and!; try done. lia.
Qed.

(** What holds of the scheduler in every state. *)
Definition sched_ok (w : cdr_world) : Prop :=
  (exists k ms, armed w k ms) \/
  (no_event w /\ (enabled (eng w) && batchmode (eng w) = false)).

Lemma release_schedq (k : sched_context unit unit) s : schedq (sched_release k s) = schedq k.
Proof. unfold sched_release. by case_if. Qed.

Lemma sched_batch_settings ms w :
  enabled (eng (sched_batch now ok ms w)) = enabled (eng w) /\
  batchmode (eng (sched_batch now ok ms w)) = batchmode (eng w) /\
  batchtime (eng (sched_batch now ok ms w)) = batchtime (eng w) /\
  batch (eng (sched_batch now ok ms w)) = batch (eng w).
Proof. unfold sched_batch. by destruct (cw_sched_add _ _ _ _ _ _). Qed.

Lemma event_armed w :
  no_event w ->
  let w' := submit_scheduled_batch now ok w in
  (exists k, armed w' k (s32 (batchtime (eng w) * 1000))) /\ batch_empty (eng w') /\
  enabled (eng w') = enabled (eng w) /\ batchmode (eng w') = batchmode (eng w) /\
  batchtime (eng w') = batchtime (eng w).
Proof.
  intros Hq. unfold submit_scheduled_batch. pose proof (submit_empties false w) as He.
  destruct (submit_settings false w) as (Et & _ & Een & Ebm & _).
  pose proof (submit_con false w) as Ec.
  destruct (cw_cdr_submit_batch ok false w) as [e k n]. cbn [eng con] in *. subst k.
  destruct (sched_batch_settings (s32 (batchtime e * 1000)) {| eng := e; con := con w; asked := n |})
    as (E1 & E2 & E3 & E4).
  split_and!.
  - eexists. rewrite <- Et. apply sched_batch_armed; [exact Hq|by right].
  - unfold batch_empty. rewrite E4. exact He.
  - by rewrite E1.
  - by rewrite E2.
  - by rewrite E3.
Qed.

Lemma turn_due t w k ms :
  armed w k ms ->
  SOONER (cw_tvadd (now k) (cw_samp2tv ms 1000)) (cw_tvadd t (cw_tv 0 1000)) = true ->
  let w' := scheduler_turn now ok t w in
  (exists k, armed w' k (s32 (batchtime (eng w) * 1000))) /\ batch_empty (eng w') /\
  enabled (eng w') = enabled (eng w) /\ batchmode (eng w') = batchmode (eng w).
Proof.
  intros (s & Hs & Hid & H0 & Hk & Hw & Hms) Hdue. rewrite <- Hw in Hdue.
  unfold scheduler_turn, service_turn, cw_sched_runq. rewrite Hs. cbn [sched_cut]. rewrite Hdue.
  cbn [sched_run]. unfold sched_run1, batch_event. cbn [fst snd].
  change (negb (0 =? 0)) with false. cbn iota beta.
  match goal with |- context [submit_scheduled_batch now ok ?w0] =>
    destruct (event_armed w0 ltac:(done)) as ((k' & Ha) & He & E1 & E2 & E3);
    destruct (submit_scheduled_batch now ok w0) as [e1 c1 n1] end.
  cbn [eng con asked fst snd] in *. split_and!; try done.
  exists k'. destruct Ha as (s' & Hs' & Hrest). exists s'. cbn [eng con asked] in *.
  by rewrite release_schedq.
Qed.

Lemma turn_early t w :
  (forall s, s ∈ schedq (con w) -> SOONER (when s) (cw_tvadd t (cw_tv 0 1000)) = false) ->
  let w' := scheduler_turn now ok t w in
  eng w' = eng w /\ asked w' = asked w /\ schedq (con w') = schedq (con w).
Proof.
  intros H. unfold scheduler_turn, service_turn, cw_sched_runq.
  assert (sched_cut (cw_tvadd t (cw_tv 0 1000)) (schedq (con w)) = ([], schedq (con w))) as ->.
  { destruct (schedq (con w)) as [|s q]; [done|]. cbn. by rewrite H by (apply elem_of_cons; auto). }
  done.
Qed.

Lemma armed_early w w' k ms :
  eng w' = eng w -> asked w' = asked w -> schedq (con w') = schedq (con w) ->
  armed w k ms -> armed w' k ms.
Proof. intros Ee Ea Eq (s & ?). exists s. by rewrite Ee, Ea, Eq. Qed.

Lemma turn_ok t w : sched_ok w -> sched_ok (scheduler_turn now ok t w).
Proof.
  intros [(k & ms & Ha)|[Hq Hb]].
  - destruct Ha as (s & Hs & Hrest).
    assert (Ha : armed w k ms) by (by exists s).
    destruct (SOONER (when s) (cw_tvadd t (cw_tv 0 1000))) eqn:E.
    + left. assert (Hw : when s = cw_tvadd (now k) (cw_samp2tv ms 1000)) by apply Hrest.
      rewrite Hw in E. destruct (turn_due t w k ms Ha E) as ((k' & Ha') & _). by do 2 eexists.
    + left. exists k, ms. destruct (turn_early t w) as (? & ? & ?).
      { rewrite Hs. by intros ? ->%list_elem_of_singleton. }
      by eapply armed_early.
  - right. destruct (turn_early t w) as (E1 & _ & E3).
    { rewrite Hq. intros ? []%elem_of_nil. }
    split; [unfold no_event; by rewrite E3|by rewrite E1].
Qed.

Lemma unsched_any w : sched_ok w -> no_event (unsched_batch w).
Proof. intros [(k & ms & Ha)|[Hq _]]; [by eapply unsched_quiet|by apply unsched_still]. Qed.

Lemma unscheduled_ok w : sched_ok w -> armed (submit_unscheduled_batch now ok w) (asked (unsched_batch w)) 1.
Proof. intros H%unsched_any. apply sched_batch_armed; [done|by left]. Qed.

(** A change of the engine that keeps what matters to the scheduler. *)
Lemma sched_ok_frame w w' :
  con w' = con w -> cdr_sched (eng w') = cdr_sched (eng w) -> enabled (eng w') = enabled (eng w) ->
  batchmode (eng w') = batchmode (eng w) -> batchtime (eng w') = batchtime (eng w) ->
  (asked w <= asked w')%nat -> sched_ok w -> sched_ok w'.
Proof.
  intros Ec Es Ee Eb Et Ha [(k & ms & H)|[Hq Hb]].
  - left. exists k, ms. by eapply armed_frame.
  - right. unfold no_event. by rewrite Ec, Ee, Eb.
Qed.

Lemma submit_ok sh w : sched_ok w -> sched_ok (cw_cdr_submit_batch ok sh w).
Proof.
  destruct (submit_settings sh w) as (Et & Es & Ee & Eb & Ha). intros H.
  eapply sched_ok_frame; [apply submit_con| | | | | |exact H]; done.
Qed.

Lemma detach_ok cdr w w' : cw_cdr_detach now ok cdr w = Some w' -> sched_ok w -> sched_ok w'.
Proof.
  intros H Hw. unfold cw_cdr_detach in H. rewrite !Hok in H. cbn [negb] in H.
  destruct (enabled (eng w)) eqn:Ee; cbn [negb] in H.
  2: { destruct cdr; [done|]. by injection H as <-. }
  destruct (batchmode (eng w)) eqn:Eb; cbn [negb] in H.
  2: { injection H as <-. by eapply sched_ok_frame. }
  assert (Hfr : forall b n, (asked w <= n)%nat -> sched_ok {| eng := (eng w) <| batch := b |>; con := con w; asked := n |}).
  { intros b n Hn. by apply (sched_ok_frame w). }
  destruct (batch (eng w)); cbn in H; injection H as <-;
    (case_match; [left; do 2 eexists; apply unscheduled_ok|]);
    apply Hfr; cbn; lia.
Qed.

Lemma reload_ok conf w : cdr_thread (eng w) = false -> sched_ok w -> sched_ok (do_reload now ok conf w).2.
Proof.
  intros Ht Hw%unsched_any. unfold do_reload. cbn [snd].
  set (w2 := (unsched_batch w) <| eng := configure conf (eng (unsched_batch w)) |>).
  assert (Hq : no_event w2) by exact Hw.
  destruct (enabled (eng w2) && batchmode (eng w2)) eqn:E.
  - pose proof (sched_batch_armed (s32 (batchtime (eng w2) * 1000)) w2 Hq (or_intror eq_refl)) as Ha.
    assert (Hb : sched_ok (sched_batch now ok (s32 (batchtime (eng w2) * 1000)) w2)) by (left; eauto).
    assert (Hth : cdr_thread (eng (sched_batch now ok (s32 (batchtime (eng w2) * 1000)) w2)) = false).
    { unfold sched_batch. destruct (cw_sched_add _ _ _ _ _ _). cbn. by rewrite accounted_unsched. }
    rewrite Hth, !andb_false_r. case_match; [by eapply sched_ok_frame|done].
  - assert (Hth : cdr_thread (eng w2) = false) by (cbn; by rewrite accounted_unsched).
    rewrite Hth, !andb_false_r. rewrite E. cbn. right. by split.
Qed.

Lemma thread_settings i e :
  cdr_sched (posting_thread i e) = cdr_sched e /\ enabled (posting_thread i e) = enabled e /\
  batchmode (posting_thread i e) = batchmode e /\ batchtime (posting_thread i e) = batchtime e /\
  cdr_thread (posting_thread i e) = cdr_thread e.
Proof. unfold posting_thread. destruct (threads e !! i) as [[|? ?]|]; done. Qed.

Lemma sched_batch_thread ms w :
  cdr_thread (eng (sched_batch now ok ms w)) = cdr_thread (eng w).
Proof. unfold sched_batch. by destruct (cw_sched_add _ _ _ _ _ _). Qed.

Lemma submit_thread sh w :
  cdr_thread (eng (cw_cdr_submit_batch ok sh w)) = cdr_thread (eng w).
Proof. unfold cw_cdr_submit_batch. repeat case_match; rewrite ?process_post; done. Qed.

Lemma unscheduled_thread w :
  cdr_thread (eng (submit_unscheduled_batch now ok w)) = cdr_thread (eng w).
Proof. unfold submit_unscheduled_batch. by rewrite sched_batch_thread, accounted_unsched. Qed.

Lemma run_thread (q : list (sched unit unit)) x k e n :
  let '(_, _, y) := sched_run (batch_event now ok) q x k (e, n) in cdr_thread y.1 = cdr_thread e.
Proof.
  revert x k e n. induction q as [|s q IH]; intros x k e n; cbn [sched_run]; [done|].
  unfold sched_run1, batch_event at 1.
  cbn [fst snd]. change (negb (0 =? 0)) with false. cbn iota beta.
  match goal with |- context [submit_scheduled_batch now ok ?w] =>
    assert (H : cdr_thread (eng (submit_scheduled_batch now ok w)) = cdr_thread e);
    [unfold submit_scheduled_batch; by rewrite sched_batch_thread, submit_thread|];
    destruct (submit_scheduled_batch now ok w) as [e1 k1 n1] end.
  cbn in *. specialize (IH (x + 1) (sched_release k1 s) e1 n1).
  destruct (sched_run _ _ _ _ _) as [[? ?] y]. by rewrite IH.
Qed.

(** The thread of the engine is never started. *)
Lemma step_thread w given w' :
  posting_step now ok w given w' -> cdr_thread (eng w) = false -> cdr_thread (eng w') = false.
Proof.
  intros H Ht. destruct H.
  - unfold cw_cdr_detach in H. rewrite !Hok in H. cbn [negb] in H.
    destruct (enabled (eng w)); cbn [negb] in H; [|destruct cdr; [done|]; by injection H as <-].
    destruct (batchmode (eng w)); cbn [negb] in H; [|by injection H as <-].
    destruct (batch (eng w)); cbn in H; injection H as <-;
      (case_match; [by rewrite unscheduled_thread|done]).
  - cbn. destruct (thread_settings i (eng w)) as (_ & _ & _ & _ & ->). done.
  - unfold scheduler_turn, service_turn, cw_sched_runq. destruct (sched_cut _ _) as [runq rest].
    match goal with |- context [sched_run _ runq 0 ?k ?x] =>
      pose proof (run_thread runq 0 k (eng w) (asked w)) as H;
      destruct (sched_run _ runq 0 k x) as [[? ?] y] end. cbn in *. congruence.
  - unfold cw_cdr_engine_term. by rewrite submit_thread.
  - unfold handle_cli_submit. case_match; [done|]. cbn [snd]. by rewrite unscheduled_thread.
  - unfold do_reload. cbn [snd].
    set (w2 := (unsched_batch w) <| eng := configure conf (eng (unsched_batch w)) |>).
    assert (Hw2 : cdr_thread (eng w2) = false) by (cbn; by rewrite accounted_unsched).
    set (w3 := if enabled (eng w2) && batchmode (eng w2) then _ else w2).
    assert (Hw3 : cdr_thread (eng w3) = false)
      by (unfold w3; case_match; [by rewrite sched_batch_thread|done]).
    rewrite Hw3, !andb_false_r. by case_match.
  - cbn. unfold cw_cdr_register. by repeat case_match.
  - done.
Qed.

Lemma step_ok w given w' :
  posting_step now ok w given w' -> cdr_thread (eng w) = false -> sched_ok w -> sched_ok w'.
Proof.
  intros H Ht Hw. destruct H.
  - by eapply detach_ok.
  - destruct (thread_settings i (eng w)) as (?&?&?&?&_). by apply (sched_ok_frame w).
  - by apply turn_ok.
  - by apply submit_ok.
  - unfold handle_cli_submit. case_match; [done|]. left. do 2 eexists. by apply unscheduled_ok.
  - by apply reload_ok.
  - apply (sched_ok_frame w); try done; cbn; unfold cw_cdr_register; by repeat case_match.
  - by apply (sched_ok_frame w).
Qed.

Lemma engine_run_ok w given w' :
  engine_run now ok w given w' -> cdr_thread (eng w) = false -> sched_ok w ->
  cdr_thread (eng w') = false /\ sched_ok w'.
Proof.
  induction 1 as [w|w1 given w2 more w3 _ IH Hs]; [done|]. intros Ht Hw.
  destruct (IH Ht Hw) as [Ht' Hw']. split; [by eapply step_thread|by eapply step_ok].
Qed.

Lemma init_ok conf : sched_ok {| eng := engine_start; con := mk_sched_context 1 0 [] true [] 0 0; asked := 2 |}
  /\ cw_cdr_engine_init now ok conf engine_start
     = (0, Some (do_reload now ok conf
                   {| eng := engine_start; con := mk_sched_context 1 0 [] true [] 0 0; asked := 2 |}).2).
Proof.
  split; [by right|]. unfold cw_cdr_engine_init. rewrite !Hok. done.
Qed.

(** C12: in batch mode a record does not wait for ever: from the start of the engine
    on, whatever it is through, there is one event scheduled, set a millisecond
    or the configured time after a moment that has been, and when the scheduler
    looks at or after its due time the batch is handed over to be posted and the
    next event is set.  Allocations and threads do not fail. *)
Theorem batch_posted_in_time conf w0 given w :
  cw_cdr_engine_init now ok conf engine_start = (0, Some w0) ->
  engine_run now ok w0 given w ->
  enabled (eng w) = true -> batchmode (eng w) = true ->
  exists k ms, (k < asked w)%nat /\ (ms = 1 \/ ms = s32 (batchtime (eng w) * 1000)) /\
    forall t, SOONER (cw_tvadd (now k) (cw_samp2tv ms 1000)) (cw_tvadd t (cw_tv 0 1000)) = true ->
      batch_empty (eng (scheduler_turn now ok t w)) /\
      exists k', armed (scheduler_turn now ok t w) k' (s32 (batchtime (eng w) * 1000)).
Proof.
  intros Hi Hr He Hb. destruct (init_ok conf) as [H0 Ei]. rewrite Ei in Hi.
  apply (f_equal snd) in Hi. cbn [snd] in Hi. apply (inj Some) in Hi. subst w0.
  destruct (engine_run_ok _ _ _ Hr) as [_ [(k & ms & Ha)|[_ E]]].
  - by apply (step_thread _ [] _ (es_reload now ok _ conf)).
  - by apply reload_ok.
  - exists k, ms. pose proof Ha as (s & _ & _ & _ & ? & _ & ?). split_and!; [done|done|].
    intros t Ht. destruct (turn_due t w k ms Ha Ht) as (? & ? & _). done.
  - by rewrite He, Hb in E.
Qed.

End armed.

(** An engine in batch mode, two records at a time, and its first record. *)
Definition batch_conf (key : string) : option string :=
  if streq key "batch" then Some "yes"%string
  else if streq key "size" then Some "2"%string
  else if streq key "time" then Some "60"%string else None.

Definition yes (_ : nat) : bool := true.

Definition batch_world : cdr_world :=
  Eval vm_compute in default {| eng := engine_start; con := mk_sched_context 1 0 [] true [] 0 0; asked := 2 |}
    (cw_cdr_engine_init even_clock yes (Some batch_conf) engine_start).2.

Definition a_call (n : string) : cw_cdr := cw_cdr_alloc <| src := n |>.

Definition one_waits : cdr_world :=
  Eval vm_compute in default batch_world (cw_cdr_detach even_clock yes [a_call "100"] batch_world).

Definition two_wait : cdr_world :=
  Eval vm_compute in default batch_world (cw_cdr_detach even_clock yes [a_call "200"] one_waits).

Lemma two_wait_run : engine_run even_clock yes batch_world ([] ++ [a_call "100"] ++ [a_call "200"]) two_wait.
Proof.
  rewrite app_assoc.
  eapply er_step; [eapply er_step; [apply er_nil|]|].
  - by apply (es_detach even_clock yes batch_world [a_call "100"] one_waits).
  - by apply (es_detach even_clock yes one_waits [a_call "200"] two_wait).
Qed.

Lemma posted_once_witness :
  (fst <$> posts (eng two_wait)) ++ (mark <$> unposted (eng two_wait))
  ≡ₚ mark <$> [a_call "100"; a_call "200"].
Proof. exact (posted_once _ _ _ _ _ two_wait_run eq_refl eq_refl). Defined.

(** The second record makes the batch full, and it is posted a millisecond
    later. *)
Lemma batch_posted_in_time_witness :
  (exists k ms, (k < asked two_wait)%nat /\ (ms = 1 \/ ms = s32 (batchtime (eng two_wait) * 1000)) /\
    forall t, SOONER (cw_tvadd (even_clock k) (cw_samp2tv ms 1000)) (cw_tvadd t (cw_tv 0 1000)) = true ->
      batch_empty (eng (scheduler_turn even_clock yes t two_wait)) /\
      exists k', armed even_clock (scheduler_turn even_clock yes t two_wait) k'
                   (s32 (batchtime (eng two_wait) * 1000))) /\
  unposted (eng two_wait) = [a_call "100"; a_call "200"] /\
  threads (eng (scheduler_turn even_clock yes (cw_tv 1060 2000) two_wait))
    = [[[a_call "100"]; [a_call "200"]]].
Proof.
  split; [|vm_compute; split; reflexivity].
  apply (batch_posted_in_time even_clock yes (fun _ => eq_refl) (Some batch_conf) batch_world
    ([] ++ [a_call "100"] ++ [a_call "200"]) two_wait);
    [vm_compute; reflexivity|exact two_wait_run|reflexivity|reflexivity].
Defined.

(** ** Leaving batch mode *)

(** A reload that turns batch mode off keeps the records of the batch where they
    are and takes the event that would post them away, so that no turn of the
    scheduler posts them: the branch that posts them asks for a thread that is
    never started. *)
Theorem leaving_batch_strands now ok conf w given w0 conf0 t :
  (forall n, ok n = true) ->
  cw_cdr_engine_init now ok conf0 engine_start = (0, Some w0) -> engine_run now ok w0 given w ->
  flag_of conf "batch" false = false ->
  let w' := (do_reload now ok conf w).2 in
  unposted (eng w') = unposted (eng w) /\ schedq (con w') = [] /\
  unposted (eng (scheduler_turn now ok t w')) = unposted (eng w).
Proof.
  intros Hok Hi Hr Hc. cbn zeta.
  destruct (init_ok now ok Hok conf0) as [H0 Ei]. rewrite Ei in Hi.
  apply (f_equal snd) in Hi. cbn [snd] in Hi. apply (inj Some) in Hi. subst w0.
  destruct (engine_run_ok now ok Hok _ _ _ Hr) as [Ht Hw].
  { by apply (step_thread now ok Hok _ [] _ (es_reload now ok _ conf0)). }
  { by apply reload_ok. }
  clear Hr. assert (Hq : no_event (unsched_batch w)) by (by eapply unsched_any).
  set (w' := (do_reload now ok conf w).2).
  assert (E : eng w' = configure conf (eng w) /\ con w' = con (unsched_batch w)).
  { unfold w', do_reload. cbn [snd].
    set (w2 := (unsched_batch w) <| eng := configure conf (eng (unsched_batch w)) |>).
    assert (Hb2 : batchmode (eng w2) = false) by exact Hc.
    assert (Ht2 : cdr_thread (eng w2) = false) by (cbn; by rewrite accounted_unsched).
    rewrite Hb2, andb_false_r, Hb2, Ht2, !andb_false_r. cbn. by rewrite accounted_unsched. }
  destruct E as [Ee Ec]. unfold no_event in Hq. rewrite <- Ec in Hq.
  destruct (turn_early now ok t w') as (E1 & _ & _). { rewrite Hq. intros ? []%elem_of_nil. }
  rewrite E1, Ee. done.
Qed.

Lemma leaving_batch_strands_witness :
  let w' := (do_reload even_clock yes None two_wait).2 in
  unposted (eng (scheduler_turn even_clock yes (cw_tv 9999 0) w')) = [a_call "100"; a_call "200"] /\
  batchmode (eng w') = false.
Proof.
  split; [|vm_compute; reflexivity].
  refine (eq_trans (proj2 (proj2 (leaving_batch_strands even_clock yes None two_wait _ batch_world
    (Some batch_conf) (cw_tv 9999 0) (fun _ => eq_refl) _ two_wait_run eq_refl))) _);
    vm_compute; reflexivity.
Defined.

(** ** Records started anew *)

Definition simple_world : cdr_world :=
  {| eng := engine_start <| enabled := true |>; con := mk_sched_context 1 0 [] true [] 0 0; asked := 5 |}.

Lemma cleared_end t c :
  cleared CW_CDR_FLAG_POSTED (mark (end1 t c)) = cleared CW_CDR_FLAG_POSTED c.
Proof.
  unfold end1. destruct (cw_tvzero (end_ c)); cbn [answer end_ upd];
    destruct (cw_tvzero (answer c)); by destruct c.
Qed.

Lemma copy_vars_total vars acc : exists r, copy_vars true vars acc = Some r.
Proof.
  revert acc. induction vars as [|v vars IH]; intros acc; cbn; [by eexists|].
  destruct (negb _ && negb _); [|apply IH].
  destruct (IH ({| var_hash := cw_hash_string (Some (nametail (var_name v)));
    var_name := nametail (var_name v); var_value := var_value v |} :: acc)) as [r ->]. by eexists.
Qed.

Lemma dup_copies c vars :
  copy_vars true (varshead c) [] = Some vars ->
  cw_cdr_dup true true c = Some (Some (c <| varshead := vars.2 |>)).
Proof. intros H. unfold cw_cdr_dup, cw_cdr_copy_vars. destruct c; cbn in *. by rewrite H. Qed.

Lemma detach_simple now ok cdr w :
  enabled (eng w) = true -> batchmode (eng w) = false ->
  cw_cdr_detach now ok cdr w = Some (w <| eng := post_cdr cdr (eng w) |>).
Proof. intros He Hb. unfold cw_cdr_detach. by rewrite He, Hb. Qed.

(** A record alone on its channel is ended and posted as it was, and starts
    again empty of times and variables. *)
Theorem reset_posts_record now ok c w :
  (forall n, ok n = true) -> locked c = false -> enabled (eng w) = true -> batchmode (eng w) = false ->
  exists vars n,
    copy_vars true (varshead c) [] = Some vars /\
    cw_cdr_reset now ok [c] CW_CDR_FLAG_POSTED w =
      Some ([c <| varshead := [] |> <| flags := 0 |> <| start := now n |> <| end_ := tv_zero |>
               <| answer := tv_zero |> <| billsec := 0 |> <| duration := 0 |>
               <| disposition := CW_CDR_NOANSWER |>],
            {| eng := post_cdr [(end1 (now (asked w)) c) <| varshead := vars.2 |>] (eng w);
               con := con w; asked := S n |}).
Proof.
  intros Hok Hl He Hb. destruct (copy_vars_total (varshead c) []) as [vars Hvars].
  set (m := if cw_tvzero (end_ c) then S (asked w) else asked w).
  exists vars, (S (S m)). split; [done|].
  unfold cw_cdr_reset. cbn [length reset_loop]. rewrite Hl, orb_true_r.
  change (has_flag CW_CDR_FLAG_POSTED CW_CDR_FLAG_POSTED) with true. cbn iota.
  unfold reset_post, cw_cdr_end. cbn [stamp]. fold m.
  assert (Ev : varshead (end1 (now (asked w)) c) = varshead c)
    by (unfold end1; destruct (cw_tvzero (end_ c)); cbn [answer end_ upd];
        destruct (cw_tvzero (answer c)); by destruct c).
  pose proof (cleared_end (now (asked w)) c) as Ec.
  generalize dependent (end1 (now (asked w)) c). intros c1 Ev Ec.
  rewrite !Hok, (dup_copies c1 vars) by (by rewrite Ev). cbn [mbind option_bind].
  rewrite detach_simple by done. cbn [mbind option_bind]. rewrite Ec.
  assert (Elk : locked (cleared CW_CDR_FLAG_POSTED c) = false) by done.
  unfold cw_cdr_start. cbn [stamp]. rewrite Elk. unfold start1. rewrite Elk.
  reflexivity.
Qed.

Lemma reset_posts_record_witness :
  exists vars n, copy_vars true [] [] = Some vars /\
    cw_cdr_reset even_clock yes [(a_call "100") <| start := cw_tv 1000 0 |>] CW_CDR_FLAG_POSTED simple_world =
      Some ([(a_call "100") <| start := even_clock n |> <| disposition := CW_CDR_NOANSWER |>],
            {| eng := post_cdr [(end1 (even_clock 5) ((a_call "100") <| start := cw_tv 1000 0 |>))
                                  <| varshead := vars.2 |>] (eng simple_world);
               con := con simple_world; asked := S n |}).
Proof.
  exact (reset_posts_record even_clock yes ((a_call "100") <| start := cw_tv 1000 0 |>) simple_world
    (fun _ => eq_refl) eq_refl eq_refl eq_refl).
Defined.

Lemma end1_keeps t c :
  start (end1 t c) = start c /\ flags (end1 t c) = flags c /\ varshead (end1 t c) = varshead c.
Proof.
  unfold end1. destruct (cw_tvzero (end_ c)); cbn [answer end_ upd];
    destruct (cw_tvzero (answer c)); by destruct c.
Qed.

Lemma end1_duration t c : duration (end1 t c) = seconds (end_ (end1 t c)) (start c).
Proof.
  unfold end1. destruct (cw_tvzero (end_ c)); cbn [answer end_ upd];
    destruct (cw_tvzero (answer c)); by destruct c.
Qed.

Lemma reset_post_single now ok c w :
  (forall n, ok n = true) -> enabled (eng w) = true -> batchmode (eng w) = false ->
  exists vars n, (asked w <= n)%nat /\
    reset_post now ok [c] w =
      Some ([mark (end1 (now (asked w)) c)],
            {| eng := post_cdr [(end1 (now (asked w)) c) <| varshead := vars |>] (eng w);
               con := con w; asked := n |}).
Proof.
  intros Hok He Hb. destruct (copy_vars_total (varshead c) []) as [vars Hvars].
  destruct (end1_keeps (now (asked w)) c) as (_ & _ & Ev).
  unfold reset_post, cw_cdr_end. cbn [stamp].
  generalize dependent (end1 (now (asked w)) c). intros c1 Ev.
  rewrite !Hok, (dup_copies c1 vars) by (by rewrite Ev). cbn [mbind option_bind].
  rewrite detach_simple by done. exists vars.2. eexists. split; [|reflexivity].
  cbn. destruct (cw_tvzero (end_ c)); lia.
Qed.

Lemma reset_post_pair now ok c d w :
  (forall n, ok n = true) -> enabled (eng w) = true -> batchmode (eng w) = false ->
  exists vars n k, (asked w <= n)%nat /\
    reset_post now ok [c; d] w =
      Some ([mark (end1 (now (asked w)) c); end1 (now k) d],
            {| eng := post_cdr [(end1 (now (asked w)) c) <| varshead := vars |>] (eng w);
               con := con w; asked := n |}).
Proof.
  intros Hok He Hb. destruct (copy_vars_total (varshead c) []) as [vars Hvars].
  destruct (end1_keeps (now (asked w)) c) as (_ & _ & Ev).
  unfold reset_post, cw_cdr_end. cbn [stamp].
  generalize dependent (end1 (now (asked w)) c). intros c1 Ev.
  rewrite !Hok, (dup_copies c1 vars) by (by rewrite Ev). cbn [mbind option_bind].
  rewrite detach_simple by done. exists vars.2. do 2 eexists. split; [|reflexivity].
  cbn. destruct (cw_tvzero (end_ c)), (cw_tvzero (end_ d)); lia.
Qed.

Definition ALL_POSTED : Z := Z.lor CW_CDR_FLAG_LOCKED CW_CDR_FLAG_POSTED.

(** [ResetCDR(aw)] on a forked call.  The first record is ended and posted as it
    was; but starting it anew starts the rest of the chain too, so the second
    record is posted as having started at the reset and its duration is lost. *)
Theorem reset_forgets_start now ok c d w :
  (forall n, ok n = true) -> locked d = false -> enabled (eng w) = true -> batchmode (eng w) = false ->
  exists l w' p q n,
    cw_cdr_reset now ok [c; d] ALL_POSTED w = Some (l, w') /\
    posts (eng w') = posts (eng w) ++ [(p, be <$> be_list (eng w)); (q, be <$> be_list (eng w))] /\
    start p = start c /\ duration p = seconds (end_ p) (start c) /\
    (asked w <= n)%nat /\ start q = now n /\ duration q = seconds (end_ q) (now n).
Proof.
  intros Hok Hl He Hb. unfold cw_cdr_reset. cbn [length reset_loop].
  change (has_flag ALL_POSTED CW_CDR_FLAG_LOCKED) with true.
  change (has_flag ALL_POSTED CW_CDR_FLAG_POSTED) with true. cbn [orb].
  destruct (reset_post_pair now ok c d w Hok He Hb) as (vars & n & k & Hn & ->).
  cbn [mbind option_bind].
  assert (Elk : forall x, locked (cleared ALL_POSTED x) = false) by done.
  assert (Eld : locked (end1 (now k) d) = false).
  { unfold locked, cdr_test_flag. destruct (end1_keeps (now k) d) as (_ & -> & _). exact Hl. }
  unfold cw_cdr_start at 1. cbn [stamp asked]. rewrite Elk, Eld. cbn [negb].
  unfold start1 at 2. rewrite Eld. cbn [mbind option_bind].
  set (d1 := (end1 (now k) d) <| start := now (S n) |>).
  match goal with |- context [reset_post now ok [d1] ?w1] =>
    destruct (reset_post_single now ok d1 w1 Hok He Hb) as (vars' & n' & Hn' & ->) end.
  cbn [mbind option_bind]. unfold cw_cdr_start. cbn [stamp]. rewrite Elk. cbn [negb mbind option_bind].
  do 2 eexists.
  exists (mark ((end1 (now (asked w)) c) <| varshead := vars |>)).
  eexists (mark ((end1 _ d1) <| varshead := vars' |>)), (S n).
  split; [reflexivity|]. split; [cbn; by rewrite <- app_assoc|].
  assert (Hd : forall t x v, start (mark ((end1 t x) <| varshead := v |>)) = start x /\
    duration (mark ((end1 t x) <| varshead := v |>)) =
      seconds (end_ (mark ((end1 t x) <| varshead := v |>))) (start x)).
  { intros t x v. destruct (end1_keeps t x) as (Es & _). pose proof (end1_duration t x) as Ed.
    generalize dependent (end1 t x). intros y Es Ed. split; [exact Es|exact Ed]. }
  destruct (Hd (now (asked w)) c vars) as [E1 E2].
  match goal with |- context [end1 ?t d1] => destruct (Hd t d1 vars') as [E3 E4] end.
  split_and!; [exact E1|exact E2|lia|exact E3|exact E4].
Qed.

Definition steady_clock (_ : nat) : timeval := cw_tv 1050 0.

Definition forked : list cw_cdr :=
  [cdr_set_flag ((a_call "100") <| start := cw_tv 100 0 |>) (Z.lor CW_CDR_FLAG_CHILD CW_CDR_FLAG_LOCKED);
   (a_call "100") <| start := cw_tv 600 0 |>].

Lemma reset_forgets_start_witness :
  (exists l w' p q n,
    cw_cdr_reset steady_clock yes forked ALL_POSTED simple_world = Some (l, w') /\
    posts (eng w') = [(p, []); (q, [])] /\
    start p = cw_tv 100 0 /\ duration p = seconds (end_ p) (cw_tv 100 0) /\
    (5 <= n)%nat /\ start q = steady_clock n /\ duration q = seconds (end_ q) (steady_clock n)) /\
  resetcdr_flags ["aw"%string] = ALL_POSTED /\
  match cw_cdr_reset steady_clock yes forked ALL_POSTED simple_world with
  | Some (_, w') => (fun p => duration p.1) <$> posts (eng w')
  | None => []
  end = [950; 0].
Proof.
  split; [|vm_compute; split; reflexivity].
  exact (reset_forgets_start steady_clock yes (cdr_set_flag ((a_call "100") <| start := cw_tv 100 0 |>)
    (Z.lor CW_CDR_FLAG_CHILD CW_CDR_FLAG_LOCKED)) ((a_call "100") <| start := cw_tv 600 0 |>)
    simple_world (fun _ => eq_refl) eq_refl eq_refl eq_refl).
Defined.

(** ** Forked records *)

Lemma fork_locks c : locked (cdr_set_flag c (Z.lor CW_CDR_FLAG_CHILD CW_CDR_FLAG_LOCKED)) = true.
Proof.
  unfold locked, cdr_test_flag, cdr_set_flag. cbn [flags upd].
  change CW_CDR_FLAG_LOCKED with (2 ^ 2). rewrite land_pow2_testbit by lia.
  rewrite Z.lor_spec. by rewrite orb_true_r.
Qed.

(** [ForkCDR()] without the option [v].  The new record takes the variables of
    the one it is forked from, and the old one, which is locked from then on,
    loses them. *)
Theorem fork_takes_variables now ok ch front c w :
  (forall n, ok n = true) -> cc_cdr ch = front ++ [c] -> locked c = false ->
  cdr_test_flag c CW_CDR_FLAG_KEEP_VARS = false ->
  exists ch' w' old new vars n,
    cw_cdr_fork now ok ch w = Some (ch', w') /\ cc_cdr ch' = front ++ [old; new] /\
    copy_vars true (varshead c) [] = Some vars /\
    varshead new = vars.2 /\ varshead old = [] /\
    locked old = true /\ locked new = false /\ start old = start c /\ start new = now n.
Proof.
  intros Hok Hc Hl Hk. destruct (copy_vars_total (varshead c) []) as [vars Hvars].
  unfold cw_cdr_fork. rewrite Hc, rev_app_distr. cbn [rev app]. rewrite rev_involutive.
  rewrite !Hok, (dup_copies c vars) by done. cbn [mbind option_bind].
  set (d := c <| varshead := vars.2 |>).
  unfold cw_cdr_reset. cbn [length reset_loop].
  assert (Hd : locked d = false) by exact Hl. rewrite Hd, orb_true_r.
  change (has_flag CW_CDR_FLAG_KEEP_VARS CW_CDR_FLAG_POSTED) with false. cbn [mbind option_bind].
  unfold cw_cdr_start. cbn [stamp].
  assert (Elk : locked (cleared CW_CDR_FLAG_KEEP_VARS d) = false) by done.
  rewrite Elk. unfold start1. rewrite Elk. cbn [negb mbind option_bind]. rewrite Hk.
  do 4 eexists. exists vars. eexists. split; [reflexivity|]. split; [reflexivity|].
  split_and!; try done. by apply fork_locks.
Qed.

Definition with_vars : cw_cdr :=
  (a_call "100") <| varshead := [{| var_hash := 0; var_name := "a"; var_value := "1" |};
                                 {| var_hash := 0; var_name := "b"; var_value := "2" |}]%string |>.

Definition a_channel (cdr : list cw_cdr) : cdr_channel :=
  {| cc_chan := {| ch_name := "SIP/100"; ch_language := ""; ch_softhangup := 0; ch_whentohangup := 0;
                   ch_state := 6;
                   ch_cid := {| cid_dnid := None; cid_num := Some "100"; cid_name := None;
                                cid_ani := None; cid_rdnis := None; cid_pres := 0; cid_ani2 := 0;
                                cid_ton := 0; cid_tns := 0 |};
                   ch_context := "default"; ch_exten := "s"; ch_priority := 1; ch_pbx := None;
                   ch_accountcode := ""; ch_uniqueid := "1.1"; ch_hangupcause := 0;
                   ch_varshead := []; ch_autoloop := false |};
     cc_amaflags := 0; cc_proc_context := ""; cc_proc_exten := ""; cc_cdr := cdr |}%string.

Lemma fork_takes_variables_witness :
  exists ch' w' old new vars n,
    cw_cdr_fork steady_clock yes (a_channel [with_vars]) simple_world = Some (ch', w') /\
    cc_cdr ch' = [] ++ [old; new] /\ copy_vars true (varshead with_vars) [] = Some vars /\
    varshead new = vars.2 /\ varshead old = [] /\
    locked old = true /\ locked new = false /\ start old = start with_vars /\ start new = steady_clock n.
Proof.
  exact (fork_takes_variables steady_clock yes (a_channel [with_vars]) [] with_vars simple_world
    (fun _ => eq_refl) eq_refl eq_refl eq_refl).
Defined.

(** The option is noted on the first record of the chain and looked for on the
    last: on a second fork it has no effect. *)
Example second_fork_ignores_v :
  match forkcdr_exec steady_clock yes (a_channel [with_vars]) ["v"%string] simple_world with
  | Some (ch, w) =>
    match forkcdr_exec steady_clock yes ch ["v"%string] w with
    | Some (ch, _) => (fun c => length (varshead c)) <$> cc_cdr ch
    | None => []
    end
  | None => []
  end = [2; 0; 2]%nat.
Proof. vm_compute. reflexivity. Qed.

(** ** A call from its start to its records *)

(** Every record of a channel that hangs up with the engine in simple mode is
    ended and handed to the backends, and the channel keeps none. *)
Theorem hangup_posts_all now ok ch w :
  enabled (eng w) = true -> batchmode (eng w) = false -> cc_cdr ch <> [] ->
  exists w', cdr_hangup now ok ch w = Some (ch <| cc_cdr := [] |>, w') /\
    posts (eng w') = posts (eng w) ++
      ((fun c => (mark c, be <$> be_list (eng w))) <$> (cw_cdr_end now (asked w) (cc_cdr ch)).2).
Proof.
  intros He Hb Hc. unfold cdr_hangup. destruct (cc_cdr ch) as [|c next] eqn:E; [done|].
  destruct (cw_cdr_end now (asked w) (c :: next)) as [n cdr].
  rewrite detach_simple by done. cbn [mbind option_bind]. eexists. split; [reflexivity|]. done.
Qed.

Lemma hangup_posts_all_witness :
  exists w', cdr_hangup even_clock yes (a_channel [a_call "100"]) simple_world
      = Some (a_channel [], w') /\
    posts (eng w') = [] ++ ((fun c => (mark c, [])) <$> (cw_cdr_end even_clock 5 [a_call "100"]).2).
Proof.
  exact (hangup_posts_all even_clock yes (a_channel [a_call "100"]) simple_world eq_refl eq_refl
    ltac:(discriminate)).
Defined.
