(* ===== verification/Acl.v ===== *)
(** * Access rules (corelib/acl.c)

    A peer's access list is a chain of rules, each an address, a mask and a
    sense.  [cw_append_ha] reads a rule such as [10.0.0.0/8] and puts it at the
    end; [cw_apply_ha] walks the chain for an address.

    A [struct in_addr] is the number of its four bytes, the first the most
    significant: [htonl] of a number is the address of that number.  A rule's
    memory comes from [malloc] and holds [garbage] until it is written; a chain
    ends in NULL or in a pointer nobody wrote.  [None] in place of a result is
    a bad memory access.  The resolver is a parameter. *)

From S2P Require Import Prelude CStr Utils Timing.
Open Scope Z_scope.

(** ** The C library *)

(** The digits of a base at the start of a string: their value after [acc], and
    the rest. *)
Fixpoint base_digits (b acc : Z) (s : string) : Z * string :=
  match s with
  | String c s' =>
    match hex_value c with
    | Some d => if d <? b then base_digits b (b * acc + d) s' else (acc, s)
    | None => (acc, s)
    end
  | EmptyString => (acc, s)
  end.

Definition starts_hex (s : string) : bool :=
  match s with String c _ => match hex_value c with Some _ => true | None => false end | _ => false end.

(** [strtoul] with the base 0 on a string that starts with a digit. *)
Definition number (s : string) : Z * string :=
  match s with
  | String "0" (String "x" r) | String "0" (String "X" r) =>
    if starts_hex r then base_digits 16 0 r else (0, strdrop 1 s)
  | String "0" _ => base_digits 8 0 s
  | _ => base_digits 10 0 s
  end.

(** The loop of [inet_aton] with [n] parts read, of value [acc]: the parts but
    the last are bytes, the last is what is left of the address. *)
Fixpoint aton_parts (n : nat) (more : nat) (acc : Z) (s : string) : option Z :=
  if starts_digit s then
    let '(v, r) := number s in
    match more, r with
    | S more, String "." r =>
      if v <=? 255 then aton_parts (S n) more (acc * 256 + v) r else None
    | _, _ =>
      let bits := 8 * (4 - Z.of_nat n) in
      if match r with EmptyString => true | String c _ => isspace c end && (v <? 2 ^ bits)
      then Some (acc * 2 ^ bits + v) else None
    end
  else None.

Definition inet_aton (s : string) : option Z := aton_parts 0 3 0 s.

(** [sscanf(s, "%i", &v) == 1] *)
Definition scan_i (s : string) : option Z :=
  let clamp z := Z.max (- 2 ^ 63) (Z.min (2 ^ 63 - 1) z) in
  let s' := skip_spaces s in
  let '(neg, body) := match s' with
                      | String "-" r => (true, r)
                      | String "+" r => (false, r)
                      | _ => (false, s')
                      end in
  if starts_digit body then
    let v := (number body).1 in Some (s32 (clamp (if neg then - v else v)))
  else None.

(** ** Rules *)

Definition CW_SENSE_DENY : Z := 0.
Definition CW_SENSE_ALLOW : Z := 1.

Record cw_ha := { netaddr : Z; netmask : Z; sense : Z }.

(** The chain, and whether its last [next] is NULL. *)
Record ha_list := { rules : list cw_ha; terminated : bool }.

Definition no_rules : ha_list := {| rules := []; terminated := true |}.

(** The loop that makes the mask of the first [x] bits. *)
Fixpoint mask_loop (x : nat) (y : Z) : Z :=
  match x with
  | O => y
  | S x => mask_loop x (Z.lor (Z.shiftr y 1) 0x80000000)
  end.

(** The mask of a rule: what follows the slash, or that of a single host.
    [None] where the rule is refused. *)
Definition ha_mask (garbage : Z) (nm : string) : option Z :=
  if strchr nm "." then inet_aton nm
  else Some match scan_int nm with
            | Some (x, _) => if (0 <=? x) && (x <=? 32) then mask_loop (Z.to_nat x) 0 else garbage
            | None => garbage
            end.

Definition cw_append_ha (mem : bool) (garbage : Z) (sense stuff : string) (path : ha_list)
    : option ha_list :=
  if terminated path then
    Some (if mem then
            let '(tmp, nm) := strcut "/" (strtake 255 stuff) in
            match ha_mask garbage (default "255.255.255.255"%string nm) with
            | None => path
            | Some mask =>
              match inet_aton tmp with
              | None => path
              | Some addr =>
                let ha := {| netaddr := Z.land addr mask; netmask := mask;
                             sense := if strcaseprefix sense "p" then CW_SENSE_ALLOW else CW_SENSE_DENY |} in
                {| rules := rules path ++ [ha]; terminated := true |}
              end
            end
          else path)
  else None.

Definition ha_matches (addr : Z) (ha : cw_ha) : bool := Z.land addr (netmask ha) =? netaddr ha.

Definition apply_rules (l : list cw_ha) (addr res : Z) : Z :=
  fold_left (fun res ha => if ha_matches addr ha then sense ha else res) l res.

Definition cw_apply_ha (ha : ha_list) (addr : Z) : option Z :=
  if terminated ha then Some (apply_rules (rules ha) addr CW_SENSE_ALLOW) else None.

(** Each copy is linked to from the one before it; nothing writes the [next] of
    the last.  A copy that could not be allocated is written all the same. *)
Definition cw_duplicate_ha_list (mem : bool) (original : ha_list) : option ha_list :=
  if terminated original then
    match rules original with
    | [] => Some no_rules
    | l => if mem then Some {| rules := l; terminated := false |} else None
    end
  else None.

Definition cw_free_ha (ha : ha_list) : option unit := if terminated ha then Some tt else None.

(** ** Type of service *)

Definition IPTOS_LOWDELAY : Z := 0x10.
Definition IPTOS_THROUGHPUT : Z := 0x08.
Definition IPTOS_RELIABILITY : Z := 0x04.
Definition IPTOS_MINCOST : Z := 0x02.

(** The value, or [None] for the answer -1. *)
Definition cw_str2tos (value : string) : option Z :=
  match scan_i value with
  | Some fval => Some (Z.land fval 0xff)
  | None =>
    if strcaseeq value "lowdelay" then Some IPTOS_LOWDELAY
    else if strcaseeq value "throughput" then Some IPTOS_THROUGHPUT
    else if strcaseeq value "reliability" then Some IPTOS_RELIABILITY
    else if strcaseeq value "mincost" then Some IPTOS_MINCOST
    else if strcaseeq value "none" then Some 0
    else None
  end.

(** ** Addresses of hosts *)

Section resolver.
(** The record a service name has ([cw_get_srv], its host and port) and the
    address of a host ([cw_gethostbyname]). *)
Context (get_srv : string -> option (string * Z)) (gethost : string -> option Z).

Record sockaddr_in := { sin_addr : Z; sin_port : Z }.

(** The answer and what the address holds then. *)
Definition cw_get_ip_or_srv (sin : sockaddr_in) (value : string) (service : option string)
    : Z * sockaddr_in :=
  match inet_aton value with
  | Some a => (0, {| sin_addr := a; sin_port := sin_port sin |})
  | None =>
    let '(value, port) :=
      match service with
      | None => (value, sin_port sin)
      | Some service =>
        match get_srv (strtake 255 (service +:+ "." +:+ value)) with
        | Some (host, port) => (strtake 255 host, wrap_u 16 port)
        | None => (value, sin_port sin)
        end
      end in
    match gethost value with
    | Some a => (0, {| sin_addr := a; sin_port := port |})
    | None => (-1, {| sin_addr := sin_addr sin; sin_port := port |})
    end
  end.

Definition cw_get_ip (sin : sockaddr_in) (value : string) : Z * sockaddr_in :=
  cw_get_ip_or_srv sin value None.

End resolver.

(** ** Addresses are 32 bits wide *)

Lemma hex_value_nonneg c d : hex_value c = Some d -> 0 <= d.
Proof.
  unfold hex_value, isdigit. repeat (case_if; b2p); intros [= <-]; lia.
Qed.

Lemma base_digits_nonneg b acc s : 0 <= b -> 0 <= acc -> 0 <= (base_digits b acc s).1.
Proof.
  intros Hb. revert acc. induction s as [|c s IH]; intros acc Ha; cbn; [done|].
  destruct (hex_value c) as [d|] eqn:E; [|done]. apply hex_value_nonneg in E.
  case_if; [|done]. apply IH. nia.
Qed.

Lemma number_nonneg s : 0 <= (number s).1.
Proof.
  unfold number. repeat case_match; try apply base_digits_nonneg; done.
Qed.

Lemma aton_parts_bound n more acc s v :
  (n + more = 3)%nat -> 0 <= acc < 256 ^ Z.of_nat n -> aton_parts n more acc s = Some v ->
  0 <= v < 2 ^ 32.
Proof.
  revert n acc s. induction more as [|more IH]; intros n acc s Hn Ha; cbn;
    (destruct (starts_digit s); [|done]); pose proof (number_nonneg s) as Hv;
    destruct (number s) as [w r]; cbn in Hv.
  - assert (n = 3%nat) as -> by lia. case_if; [|done]. intros [= <-]. b2p.
    change (8 * (4 - Z.of_nat 3)) with 8 in *. change (256 ^ Z.of_nat 3) with 16777216 in Ha.
    change (2 ^ 8) with 256 in *. lia.
  - assert (Hfin : forall b, (if b && (w <? 2 ^ (8 * (4 - Z.of_nat n)))
      then Some (acc * 2 ^ (8 * (4 - Z.of_nat n)) + w) else None) = Some v -> 0 <= v < 2 ^ 32).
    { intros b. case_if; [|done]. intros [= <-]. b2p.
      replace (2 ^ 32) with (256 ^ Z.of_nat n * 2 ^ (8 * (4 - Z.of_nat n))).
      - nia.
      - change 256 with (2 ^ 8). rewrite <- Z.pow_mul_r, <- Z.pow_add_r by lia. f_equal. lia. }
    destruct r as [|c r]; [apply Hfin|].
    destruct (decide (c = "."%char)) as [->|Hc].
    + destruct (Z.leb_spec w 255); [|done]. apply IH; [lia|].
      rewrite Nat2Z.inj_succ, Z.pow_succ_r by lia. lia.
    + destruct c as [[] [] [] [] [] [] [] []]; try (by destruct Hc); apply Hfin.
Qed.

Lemma inet_aton_bound s v : inet_aton s = Some v -> 0 <= v < 2 ^ 32.
Proof. apply aton_parts_bound; lia. Qed.

(** ** Masks *)

Lemma mask_loop_spec x : (x <= 32)%nat ->
  mask_loop x 0 = Z.shiftl (Z.ones (Z.of_nat x)) (32 - Z.of_nat x).
Proof.
  intros H. assert (Hb : forallb (fun x => mask_loop x 0 =? Z.shiftl (Z.ones (Z.of_nat x)) (32 - Z.of_nat x))
    (seq 0 33) = true) by (vm_compute; reflexivity).
  rewrite forallb_forall in Hb. apply Z.eqb_eq, Hb, in_seq. lia.
Qed.

(** Under a mask of [x] bits an address keeps its first [x] bits. *)
Lemma land_mask v x : 0 <= x <= 32 -> 0 <= v < 2 ^ 32 ->
  Z.land v (Z.shiftl (Z.ones x) (32 - x)) = Z.shiftl (Z.shiftr v (32 - x)) (32 - x).
Proof.
  intros Hx Hv. apply Z.bits_inj'. intros n Hn. rewrite Z.land_spec, !Z.shiftl_spec by done.
  destruct (Z.lt_ge_cases n (32 - x)).
  { rewrite !(Z.testbit_neg_r _ (n - (32 - x))) by lia. apply andb_false_r. }
  rewrite Z.shiftr_spec by lia. replace (n - (32 - x) + (32 - x)) with n by lia.
  destruct (Z.lt_ge_cases n 32).
  - rewrite Z.ones_spec_low by lia. apply andb_true_r.
  - rewrite <- (Z.mod_small v (2 ^ 32)) by done. rewrite Z.mod_pow2_bits_high by lia. done.
Qed.

Lemma land_mask_eq v a x : 0 <= x <= 32 -> 0 <= v < 2 ^ 32 -> 0 <= a < 2 ^ 32 ->
  (Z.land v (Z.shiftl (Z.ones x) (32 - x)) = Z.land a (Z.shiftl (Z.ones x) (32 - x))
   <-> v / 2 ^ (32 - x) = a / 2 ^ (32 - x)).
Proof.
  intros Hx Hv Ha. rewrite !land_mask by done.
  rewrite !Z.shiftl_mul_pow2, !Z.shiftr_div_pow2 by lia.
  assert (2 ^ (32 - x) <> 0) by (apply Z.pow_nonzero; lia).
  split; [intros H'%Z.mul_reg_r; done|by intros ->].
Qed.

(** A rule [address/x] is put at the end of the chain and holds for exactly the
    addresses with the same first [x] bits. *)
Theorem prefix_rule_matches garbage s stuff path tmp nm x r a :
  terminated path = true -> strcut "/" (strtake 255 stuff) = (tmp, Some nm) ->
  strchr nm "." = false -> scan_int nm = Some (x, r) -> 0 <= x <= 32 -> inet_aton tmp = Some a ->
  exists ha, cw_append_ha true garbage s stuff path
      = Some {| rules := rules path ++ [ha]; terminated := true |} /\
    sense ha = (if strcaseprefix s "p" then CW_SENSE_ALLOW else CW_SENSE_DENY) /\
    forall addr, 0 <= addr < 2 ^ 32 ->
      (ha_matches addr ha = true <-> addr / 2 ^ (32 - x) = a / 2 ^ (32 - x)).
Proof.
  intros Ht Hcut Hdot Hx Hr Ha. unfold cw_append_ha. rewrite Ht, Hcut. cbn [default id].
  unfold ha_mask. rewrite Hdot, Hx.
  destruct (Z.leb_spec 0 x); [|lia]. destruct (Z.leb_spec x 32); [|lia]. cbn [andb].
  rewrite Ha. eexists. split; [reflexivity|]. split; [done|]. intros addr Haddr.
  unfold ha_matches. cbn [netmask netaddr]. rewrite Z.eqb_eq, mask_loop_spec, Z2Nat.id by lia.
  apply land_mask_eq; [lia|done|by eapply inet_aton_bound].
Qed.

Lemma prefix_rule_matches_witness :
  exists ha, cw_append_ha true 12345 "permit" "10.1.0.0/16" no_rules
      = Some {| rules := [] ++ [ha]; terminated := true |} /\
    sense ha = CW_SENSE_ALLOW /\
    forall addr, 0 <= addr < 2 ^ 32 -> (ha_matches addr ha = true <-> addr / 2 ^ 16 = 0x0a01).
Proof.
  apply (prefix_rule_matches 12345 "permit" "10.1.0.0/16" no_rules "10.1.0.0" "16" 16 "" 0x0a010000);
    (vm_compute; first [reflexivity | split; discriminate]).
Defined.

(** ** The decision *)

Lemma apply_app l k addr res :
  apply_rules (l ++ k) addr res = apply_rules k addr (apply_rules l addr res).
Proof. apply fold_left_app. Qed.

(** The last rule that holds for an address decides; an address no rule holds
    for is let in. *)
Theorem last_rule_decides l addr :
  cw_apply_ha {| rules := l; terminated := true |} addr =
    Some match List.find (ha_matches addr) (rev l) with
         | Some ha => sense ha
         | None => CW_SENSE_ALLOW
         end.
Proof.
  unfold cw_apply_ha. cbn [terminated rules]. f_equal.
  induction l as [|ha l IH] using rev_ind; [done|].
  rewrite apply_app, rev_app_distr. cbn [rev app List.find apply_rules fold_left].
  case_if; [done|exact IH].
Qed.

(** What every rule read from a text satisfies: no bit of the address is outside
    the mask, so the rule holds for its own address. *)
Definition ha_ok (ha : cw_ha) : Prop :=
  Z.land (netaddr ha) (netmask ha) = netaddr ha /\
  (sense ha = CW_SENSE_ALLOW \/ sense ha = CW_SENSE_DENY).

Lemma append_rules_ok mem garbage s stuff path path' :
  Forall ha_ok (rules path) -> cw_append_ha mem garbage s stuff path = Some path' ->
  terminated path' = true /\ Forall ha_ok (rules path') /\
  exists l, rules path' = rules path ++ l /\ (length l <= 1)%nat.
Proof.
  intros Hp. unfold cw_append_ha. destruct (terminated path) eqn:Ht; [|done]. intros [= <-].
  assert (Hsame : terminated path = true /\ Forall ha_ok (rules path) /\
    exists l, rules path = rules path ++ l /\ (length l <= 1)%nat).
  { split_and!; [done|done|]. exists []. split; [by rewrite app_nil_r|cbn; lia]. }
  destruct mem; [|done]. destruct (strcut _ _) as [tmp nm].
  destruct (ha_mask _ _) as [mask|]; [|done]. destruct (inet_aton tmp) as [a|]; [|done]. cbn.
  split_and!; [done| |].
  - apply Forall_app. split; [done|]. apply Forall_singleton. split; cbn.
    + by rewrite <- Z.land_assoc, Z.land_diag.
    + case_if; auto.
  - eexists. split; [reflexivity|]. cbn. lia.
Qed.

(** A text that is no rule leaves the chain alone. *)
Lemma append_refuses garbage s stuff path tmp nm :
  terminated path = true -> strcut "/" (strtake 255 stuff) = (tmp, nm) -> inet_aton tmp = None ->
  cw_append_ha true garbage s stuff path = Some path.
Proof.
  intros Ht Hc Hn. unfold cw_append_ha. rewrite Ht, Hc, Hn. by destruct (ha_mask _ _).
Qed.

(** ** What goes wrong *)

(** A length that is no number from 0 to 32 leaves the mask as the allocator
    returned it: of two servers with the same rule, one may shut everybody out
    and the other nobody. *)
Example bad_length_leaves_mask :
  (r ← cw_append_ha true 0 "deny" "10.0.0.0/33" no_rules; cw_apply_ha r 0xc0a80001) = Some CW_SENSE_DENY /\
  (r ← cw_append_ha true 0xffffffff "deny" "10.0.0.0/33" no_rules; cw_apply_ha r 0xc0a80001)
    = Some CW_SENSE_ALLOW.
Proof. vm_compute. by split. Qed.

(** A duplicate of a list that is not empty cannot be walked to its end. *)
Lemma duplicate_not_terminated original copy_ addr :
  rules original <> [] -> cw_duplicate_ha_list true original = Some copy_ ->
  cw_apply_ha copy_ addr = None.
Proof.
  intros Hr. unfold cw_duplicate_ha_list. destruct (terminated original); [|done].
  destruct (rules original) eqn:E; [done|]. by intros [= <-].
Qed.

(** ** Type of service *)

Lemma tos_is_a_byte value tos : cw_str2tos value = Some tos -> 0 <= tos < 256.
Proof.
  unfold cw_str2tos. destruct (scan_i value) as [v|].
  - intros [= <-]. change 0xff with (Z.ones 8). rewrite Z.land_ones by lia.
    apply Z.mod_pos_bound. lia.
  - repeat case_if; intros [= <-]; vm_compute; split; congruence.
Qed.
