(* ===== verification/Tones.v ===== *)
(** * Tone lists and tone zones (corelib/indications.c)

    A tone list such as [!350+440/500,0/500] is read into items, each two
    frequencies and a time; a generator of the channel plays them one after the
    other and starts again at the first that has no exclamation mark.  A tone
    zone names the tone lists of a country, or is the alias of another.

    The synthesis of a tone is a library's: here the item that is played.
    [None] in place of a result is a bad memory access. *)

From S2P Require Import Prelude CStr Utils Timing Args Vars.
From stdpp Require Import pretty.
Open Scope Z_scope.

(** ** Formats of [sscanf] *)

Inductive conversion := D | L (c : ascii).

(** The numbers, if every conversion of the format was made. *)
Fixpoint sscanf (fmt : list conversion) (s : string) : option (list Z) :=
  match fmt with
  | [] => Some []
  | D :: fmt =>
    match scan_int s with
    | Some (z, s) => l ← sscanf fmt s; Some (z :: l)
    | None => None
    end
  | L c :: fmt =>
    match s with
    | String d s => if char_eqb c d then sscanf fmt s else None
    | EmptyString => None
    end
  end.

(** ** Items *)

Record playtones_item := {
  freq1 : Z;
  freq2 : Z;
  time : Z;
  modulate : bool;
  modulation_depth : Z;
}.

Definition midi_tohz : list Z :=
  [8;8;9;9;10;10;11;12;12;13;14;
   15;16;17;18;19;20;21;23;24;25;
   27;29;30;32;34;36;38;41;43;46;
   48;51;55;58;61;65;69;73;77;82;
   87;92;97;103;110;116;123;130;138;146;
   155;164;174;184;195;207;220;233;246;261;
   277;293;311;329;349;369;391;415;440;466;
   493;523;554;587;622;659;698;739;783;830;
   880;932;987;1046;1108;1174;1244;1318;1396;1479;
   1567;1661;1760;1864;1975;2093;2217;2349;2489;2637;
   2793;2959;3135;3322;3520;3729;3951;4186;4434;4698;
   4978;5274;5587;5919;6271;6644;7040;7458;7902;8372;
   8869;9397;9956;10548;11175;11839;12543].

Definition midi (f : Z) : Z :=
  if (0 <=? f) && (f <=? 127) then nth (Z.to_nat f) midi_tohz 0 else 0.

Definition DEPTH : Z := 90.

Definition tone (f1 f2 t : Z) (m : bool) (d : Z) : playtones_item :=
  {| freq1 := f1; freq2 := f2; time := t; modulate := m; modulation_depth := d |}.

Definition midi_tone (f1 f2 t : Z) (m : bool) : playtones_item := tone (midi f1) (midi f2) t m DEPTH.

(** The formats in the order they are tried. *)
Definition tone_formats : list (list conversion * (list Z -> option playtones_item)) :=
  [([D; L "+"; D; L "/"; D],
     fun v => match v with [f1; f2; t] => Some (tone f1 f2 t false DEPTH) | _ => None end);
   ([D; L "+"; D],
     fun v => match v with [f1; f2] => Some (tone f1 f2 0 false DEPTH) | _ => None end);
   ([D; L "*"; D; L "/"; D],
     fun v => match v with [f1; f2; t] => Some (tone f1 f2 t true DEPTH) | _ => None end);
   ([D; L "*"; D; L "@"; D; L "/"; D],
     fun v => match v with [f1; f2; d; t] => Some (tone f1 f2 t true d) | _ => None end);
   ([D; L "*"; D],
     fun v => match v with [f1; f2] => Some (tone f1 f2 0 true DEPTH) | _ => None end);
   ([D; L "*"; D; L "@"; D],
     fun v => match v with [f1; f2; d] => Some (tone f1 f2 0 true d) | _ => None end);
   ([D; L "/"; D],
     fun v => match v with [f1; t] => Some (tone f1 0 t false DEPTH) | _ => None end);
   ([D],
     fun v => match v with [f1] => Some (tone f1 0 0 false DEPTH) | _ => None end);
   ([L "M"; D; L "+"; L "M"; D; L "/"; D],
     fun v => match v with [f1; f2; t] => Some (midi_tone f1 f2 t false) | _ => None end);
   ([L "M"; D; L "+"; L "M"; D],
     fun v => match v with [f1; f2] => Some (midi_tone f1 f2 0 false) | _ => None end);
   ([L "M"; D; L "*"; L "M"; D; L "/"; D],
     fun v => match v with [f1; f2; t] => Some (midi_tone f1 f2 t true) | _ => None end);
   ([L "M"; D; L "*"; L "M"; D],
     fun v => match v with [f1; f2] => Some (midi_tone f1 f2 0 true) | _ => None end);
   ([L "M"; D; L "/"; D],
     fun v => match v with [f1; t] => Some (midi_tone f1 (-1) t false) | _ => None end);
   ([L "M"; D],
     fun v => match v with [f1] => Some (midi_tone f1 (-1) 0 false) | _ => None end)]%char.

Fixpoint first_format (l : list (list conversion * (list Z -> option playtones_item))) (s : string)
    : option playtones_item :=
  match l with
  | [] => None
  | (fmt, make) :: l =>
    match sscanf fmt s with
    | Some v => make v
    | None => first_format l s
    end
  end.

Definition tone_component (s : string) : option playtones_item := first_format tone_formats s.

(** ** Lists *)

Record playtones_def := {
  vol : Z;
  reppos : Z;
  interruptible : bool;
  items : list playtones_item;
}.

(** The loop over the pieces of the list: it stops at an empty one, and fails at
    one that is no good. *)
Fixpoint playtones_loop (l : list string) (reppos : Z) (items : list playtones_item)
    : option (Z * list playtones_item) :=
  match l with
  | [] => Some (reppos, items)
  | s :: l =>
    match s with
    | EmptyString => Some (reppos, items)
    | String c r =>
      let '(s, reppos) :=
        if char_eqb c "!" then (r, reppos)
        else (s, if reppos =? -1 then Z.of_nat (length items) else reppos) in
      match tone_component s with
      | Some i => playtones_loop l reppos (items ++ [i])
      | None => None
      end
    end
  end.

(** The list of [cw_playtones_start]; [None] for the answer -1. *)
Definition playtones_list (v : Z) (playlst : string) (inter : bool) : option playtones_def :=
  let separator := if strchr playlst "|" then "|"%char else ","%char in
  match playtones_loop (strsplit separator playlst) (-1) [] with
  | Some (r, l) =>
    Some {| vol := if 0 <=? v then -13 else v; reppos := r; interruptible := inter; items := l |}
  | None => None
  end.

(** ** The generator *)

(** The channel as the generator sees it: its write format, and the flag that
    lets a write interrupt. *)
Record tone_channel := { tc_writeformat : Z; tc_write_int : bool }.

Definition CW_FORMAT_SLINEAR : Z := 64.

(** [ps_tone] is the item [tone_setup] was last called for. *)
Record playtones_state := {
  ps_vol : Z;
  ps_reppos : Z;
  ps_items : list playtones_item;
  ps_npos : Z;
  ps_pos : Z;
  ps_tone : playtones_item;
  ps_origwfmt : Z;
}.

#[export] Instance playtones_state_eta : Eta playtones_state := fun p =>
  {| ps_vol := ps_vol p; ps_reppos := ps_reppos p; ps_items := ps_items p; ps_npos := ps_npos p;
     ps_pos := ps_pos p; ps_tone := ps_tone p; ps_origwfmt := ps_origwfmt p |}.

(** The item at a position of the array. *)
Definition item_at (l : list playtones_item) (n : Z) : option playtones_item :=
  if n <? 0 then None else l !! Z.to_nat n.

(** The frequencies and levels handed to the library for an item: of a modulated
    tone the higher frequency is the carrier and the lower comes negated. *)
Record tone_desc := { tg_f1 : Z; tg_l1 : Z; tg_f2 : Z; tg_l2 : Z }.

Definition tone_setup (v : Z) (pi : playtones_item) : tone_desc :=
  if modulate pi then
    let '(carrier, modulat) :=
      if freq2 pi <? freq1 pi then (u16 (freq1 pi), u16 (freq2 pi))
      else (u16 (freq2 pi), u16 (freq1 pi)) in
    {| tg_f1 := carrier; tg_l1 := v; tg_f2 := - modulat; tg_l2 := modulation_depth pi |}
  else {| tg_f1 := freq1 pi; tg_l1 := v; tg_f2 := freq2 pi; tg_l2 := v |}.

(** The generator is NULL without memory, or when the channel does not take
    signed linear; in the latter case the flag is set all the same. *)
Definition playtones_alloc (mem format : bool) (ch : tone_channel) (pd : playtones_def)
    : option (option playtones_state * tone_channel) :=
  if mem then
    if format then
      pi ← item_at (items pd) 0;
      Some (Some {| ps_vol := vol pd; ps_reppos := reppos pd; ps_items := items pd; ps_npos := 0;
                    ps_pos := 0; ps_tone := pi; ps_origwfmt := tc_writeformat ch |},
            {| tc_writeformat := CW_FORMAT_SLINEAR; tc_write_int := interruptible pd |})
    else Some (None, {| tc_writeformat := tc_writeformat ch; tc_write_int := interruptible pd |})
  else Some (None, ch).

Definition playtones_release (ch : tone_channel) (ps : playtones_state) : tone_channel :=
  {| tc_writeformat := ps_origwfmt ps; tc_write_int := tc_write_int ch |}.

(** [cw_playtones_start] with the generator it starts: the answer, the
    generator of the channel, and the channel. *)
Definition cw_playtones_start (mem format : bool) (ch : tone_channel) (v : Z) (playlst : string)
    (inter : bool) : option (Z * option playtones_state * tone_channel) :=
  match playtones_list v playlst inter with
  | None => Some (-1, None, ch)
  | Some pd =>
    r ← playtones_alloc mem format ch pd;
    Some (match r with (Some ps, ch) => (0, Some ps, ch) | (None, ch) => (-1, None, ch) end)
  end.

(** One frame of [samples] samples; [x] is how many of them the library made.
    The answer, the item that sounds in the frame, and the generator. *)
Definition playtones_generator (ps : playtones_state) (samples x : Z)
    : option (Z * option playtones_item * playtones_state) :=
  if 3999 <? samples + samples then Some (-1, None, ps)
  else
    pi ← item_at (ps_items ps) (ps_npos ps);
    let sounds := Some (ps_tone ps) in
    let ps := ps <| ps_pos := s32 (ps_pos ps + x) |> in
    if negb (time pi =? 0) && (s32 (time pi * 8) <=? ps_pos ps) then
      let ps := ps <| ps_pos := 0 |> <| ps_npos := ps_npos ps + 1 |> in
      let last := Z.of_nat (length (ps_items ps)) <=? ps_npos ps in
      if last && (ps_reppos ps =? -1) then Some (-1, sounds, ps)
      else
        let ps := if last then ps <| ps_npos := ps_reppos ps |> else ps in
        pi ← item_at (ps_items ps) (ps_npos ps);
        Some (0, sounds, ps <| ps_tone := pi |>)
    else Some (0, sounds, ps).

(** ** The generator stays in its list *)

Record playing (ps : playtones_state) : Prop := {
  pl_npos : item_at (ps_items ps) (ps_npos ps) = Some (ps_tone ps);
  pl_reppos : -1 <= ps_reppos ps < Z.of_nat (length (ps_items ps));
}.

Lemma item_at_range l n : 0 <= n < Z.of_nat (length l) <-> is_Some (item_at l n).
Proof.
  unfold item_at. destruct (Z.ltb_spec n 0).
  - split; [lia|]. by intros [? ?].
  - rewrite lookup_lt_is_Some. lia.
Qed.

Lemma item_at_lt l n : 0 <= n < Z.of_nat (length l) -> exists i, item_at l n = Some i.
Proof. intros H. by apply item_at_range in H as [i Hi]; eauto. Qed.

Lemma generator_playing ps samples x :
  playing ps ->
  exists r sounds ps', playtones_generator ps samples x = Some (r, sounds, ps') /\
    ps_items ps' = ps_items ps /\ ps_reppos ps' = ps_reppos ps /\
    (r = 0 -> playing ps' /\ sounds = Some (ps_tone ps)) /\
    (samples <= 1999 -> ps_reppos ps <> -1 -> r = 0).
Proof.
  intros [Hn Hr]. unfold playtones_generator.
  destruct (Z.ltb_spec 3999 (samples + samples)).
  { do 3 eexists. split; [done|]. split_and!; try done. lia. }
  rewrite Hn. cbn [mbind option_bind].
  assert (Hrange : 0 <= ps_npos ps < Z.of_nat (length (ps_items ps))) by (apply item_at_range; eauto).
  destruct (_ && _); [|do 3 eexists; split; [done|]; split_and!; try done; by split].
  cbn [ps_items ps_npos ps_reppos upd].
  destruct (Z.leb_spec (Z.of_nat (length (ps_items ps))) (ps_npos ps + 1)).
  - destruct (Z.eqb_spec (ps_reppos ps) (-1)); cbn [andb].
    + do 3 eexists. split; [done|]. by split_and!.
    + cbn [ps_items ps_npos upd]. destruct (item_at_lt (ps_items ps) (ps_reppos ps)) as [i Hi]; [lia|].
      rewrite Hi. cbn [mbind option_bind]. do 3 eexists. split; [done|]. split_and!; try done; by split.
  - cbn [andb ps_items ps_npos upd].
    destruct (item_at_lt (ps_items ps) (ps_npos ps + 1)) as [i Hi]; [lia|].
    rewrite Hi. cbn [mbind option_bind]. do 3 eexists. split; [done|]. split_and!; try done; by split.
Qed.

Lemma playtones_loop_reppos l r acc r' acc' :
  playtones_loop l r acc = Some (r', acc') -> -1 <= r ->
  (r = -1 \/ r < Z.of_nat (length acc)) ->
  -1 <= r' /\ (r' = -1 \/ r' < Z.of_nat (length acc')).
Proof.
  revert r acc. induction l as [|s l IH]; intros r acc H Hr Hlt; [by simplify_eq/=|].
  cbn [playtones_loop] in H. destruct s as [|c s]; [by simplify_eq|].
  destruct (char_eqb c "!").
  - destruct (tone_component s) as [i|]; [|done].
    eapply IH; [exact H|lia|]. rewrite length_app. cbn. lia.
  - destruct (tone_component (String c s)) as [i|]; [|done].
    eapply IH; [exact H| |]; rewrite ?length_app; cbn; case_if; b2p; lia.
Qed.

Lemma start_playing mem format ch v s inter r ps ch' :
  cw_playtones_start mem format ch v s inter = Some (r, Some ps, ch') -> r = 0 /\ playing ps.
Proof.
  unfold cw_playtones_start, playtones_list.
  destruct (playtones_loop _ _ _) as [[rp l]|] eqn:E; [|done].
  unfold playtones_alloc. destruct mem; [|done]. destruct format; [|done].
  cbn [items vol reppos]. destruct (item_at l 0) as [i|] eqn:Ei; [|done].
  cbn [mbind option_bind]. intros [= <- <- _]. split; [done|].
  destruct (playtones_loop_reppos _ _ _ _ _ E) as [H1 H2]; [lia|by left|].
  assert (0 <= 0 < Z.of_nat (length l)) by (apply item_at_range; eauto).
  split; [done|]. cbn. lia.
Qed.

(** The frames a generator makes: what sounds in each, and whether it ended. *)
Fixpoint play_tones (k : nat) (samples : Z) (ps : playtones_state)
    : option (list playtones_item * bool * playtones_state) :=
  match k with
  | O => Some ([], false, ps)
  | S k =>
    r ← playtones_generator ps samples samples;
    let '(res, sounds, ps) := r in
    if negb (res =? 0) then Some (option_list sounds, true, ps)
    else
      r ← play_tones k samples ps;
      let '(l, ended, ps) := r in Some (option_list sounds ++ l, ended, ps)
  end.

(** However long a list that was accepted is played, the generator never looks
    beside its items; and a list that has an item to repeat from goes on for
    ever. *)
Theorem tones_stay_in_list mem format ch v s inter r ps ch' samples k :
  cw_playtones_start mem format ch v s inter = Some (r, Some ps, ch') ->
  exists l ended ps', play_tones k samples ps = Some (l, ended, ps') /\ ps_items ps' = ps_items ps /\
    (samples <= 1999 -> ps_reppos ps <> -1 -> ended = false /\ length l = k).
Proof.
  intros [_ Hp]%start_playing. revert ps Hp. induction k as [|k IH]; intros ps Hp; cbn [play_tones].
  { do 3 eexists. split; [done|]. auto. }
  destruct (generator_playing ps samples samples Hp) as (res & sounds & ps1 & -> & Hi & Hr & H0 & Hz).
  cbn [mbind option_bind]. destruct (Z.eqb_spec res 0) as [->|Hne]; cbn [negb].
  - destruct (H0 eq_refl) as [Hp1 ->]. destruct (IH ps1 Hp1) as (l & ended & ps2 & -> & Hi2 & Hl).
    cbn [mbind option_bind]. do 3 eexists. split; [done|]. split; [congruence|].
    intros Hs Hrep. rewrite <- Hr in Hrep. destruct (Hl Hs Hrep) as [-> <-]. done.
  - do 3 eexists. split; [done|]. split; [done|]. intros Hs Hrep. by destruct Hne; auto.
Qed.

Definition alaw_channel : tone_channel := {| tc_writeformat := 8; tc_write_int := false |}.
Definition slinear_channel : tone_channel := {| tc_writeformat := CW_FORMAT_SLINEAR; tc_write_int := true |}.

Lemma tones_stay_in_list_witness :
  exists ps l ended ps', cw_playtones_start true true alaw_channel 0 "!350/20,440+480/2000,0/4000" true
      = Some (0, Some ps, slinear_channel) /\
    play_tones 700 160 ps = Some (l, ended, ps') /\ ended = false /\ length l = 700%nat.
Proof.
  destruct (cw_playtones_start true true alaw_channel 0 "!350/20,440+480/2000,0/4000" true) as [[[r [ps|]] ch]|] eqn:E;
    [|vm_compute in E; discriminate..].
  assert (Hr : ps_reppos ps <> -1 /\ r = 0 /\ ch = slinear_channel)
    by (vm_compute in E; injection E as <- <- <-; by vm_compute).
  destruct (tones_stay_in_list true true alaw_channel 0 "!350/20,440+480/2000,0/4000" true r ps ch 160 700 E)
    as (l & ended & ps' & Hp & _ & Hl).
  destruct (Hl ltac:(lia) (proj1 Hr)) as [He Hk]. exists ps, l, ended, ps'.
  destruct Hr as (_ & -> & ->). by split_and!.
Defined.

Lemma generator_origwfmt ps samples x r sounds ps' :
  playtones_generator ps samples x = Some (r, sounds, ps') -> ps_origwfmt ps' = ps_origwfmt ps.
Proof.
  intros H. unfold playtones_generator in H. case_if_in H; [by injection H as _ _ <-|].
  destruct (item_at (ps_items ps) (ps_npos ps)) as [pi|]; cbn [mbind option_bind] in H; [|done].
  cbv zeta in H.
  match type of H with (if ?c then _ else _) = _ => destruct c end; [|by injection H as _ _ <-].
  match type of H with (if ?c then _ else _) = _ => destruct c end; [by injection H as _ _ <-|].
  match type of H with (_ ← item_at ?l ?n; _) = _ => destruct (item_at l n) as [pi'|] end;
    cbn [mbind option_bind] in H; [|done].
  injection H as _ _ <-. cbn [ps_origwfmt upd]. by case_if.
Qed.

(** However long the tones were played, releasing the generator gives the
    channel back the format it wrote before. *)
Lemma release_restores_format mem format ch v s inter r ps ch' k samples l ended ps' :
  cw_playtones_start mem format ch v s inter = Some (r, Some ps, ch') ->
  play_tones k samples ps = Some (l, ended, ps') ->
  tc_writeformat (playtones_release ch' ps') = tc_writeformat ch.
Proof.
  intros Hs Hp. assert (E : ps_origwfmt ps = tc_writeformat ch).
  { unfold cw_playtones_start in Hs. destruct (playtones_list v s inter) as [pd|]; [|done].
    unfold playtones_alloc in Hs. destruct mem; [|done]. destruct format; [|done].
    destruct (item_at _ _); [|done]. cbn in Hs. by injection Hs as _ <- _. }
  cbn. rewrite <- E. clear Hs E. revert ps l Hp. induction k as [|k IH]; intros ps l Hp; cbn in Hp.
  { by injection Hp as _ _ <-. }
  destruct (playtones_generator ps samples samples) as [[[res snd_] ps1]|] eqn:Eg; cbn in Hp; [|done].
  apply generator_origwfmt in Eg. rewrite <- Eg.
  case_match; [by injection Hp as _ _ <-|].
  destruct (play_tones k samples ps1) as [[[l1 e1] ps2]|] eqn:Ek; cbn in Hp; [|done].
  injection Hp as _ <- <-. by eapply IH.
Qed.

(** ** A list that ends *)

(** The frames of [n] samples that cover [t] milliseconds at 8 kHz. *)
Definition frames (n t : Z) : nat := Z.to_nat ((8 * t + n - 1) / n).

Section ending.
Context (n : Z) (Hn : 0 < n <= 1999).

Definition timed (i : playtones_item) : Prop := 0 < time i <= 100000000.

Definition at_item (done_ : list playtones_item) (i : playtones_item) (rest : list playtones_item)
    (pos v o : Z) : playtones_state :=
  {| ps_vol := v; ps_reppos := -1; ps_items := done_ ++ i :: rest;
     ps_npos := Z.of_nat (length done_); ps_pos := pos; ps_tone := i; ps_origwfmt := o |}.

Lemma item_at_mid a i b : item_at (a ++ i :: b) (Z.of_nat (length a)) = Some i.
Proof.
  unfold item_at. destruct (Z.ltb_spec (Z.of_nat (length a)) 0); [lia|].
  rewrite Nat2Z.id. by apply list_lookup_middle.
Qed.

Lemma generator_within a i b pos v o :
  timed i -> 0 <= pos -> pos + n < 8 * time i ->
  playtones_generator (at_item a i b pos v o) n n = Some (0, Some i, at_item a i b (pos + n) v o).
Proof.
  intros Ht Hp Hlt. unfold timed in Ht. unfold playtones_generator, at_item.
  destruct (Z.ltb_spec 3999 (n + n)); [lia|].
  cbn [ps_items ps_npos ps_pos ps_tone]. rewrite item_at_mid. cbn [mbind option_bind].
  rewrite !s32_id by (unfold INT_MIN, INT_MAX; lia).
  cbn [ps_pos upd]. destruct (Z.leb_spec (time i * 8) (pos + n)); [lia|].
  by rewrite andb_false_r.
Qed.

Lemma generator_over a i b pos v o :
  timed i -> 0 <= pos < 8 * time i -> 8 * time i <= pos + n ->
  playtones_generator (at_item a i b pos v o) n n =
    match b with
    | [] => Some (-1, Some i, (at_item a i b pos v o) <| ps_pos := 0 |>
                                <| ps_npos := Z.of_nat (length a) + 1 |>)
    | j :: b => Some (0, Some i, at_item (a ++ [i]) j b 0 v o)
    end.
Proof.
  intros Ht Hp Hle. unfold timed in Ht. unfold playtones_generator, at_item.
  destruct (Z.ltb_spec 3999 (n + n)); [lia|].
  cbn [ps_items ps_npos ps_pos ps_tone]. rewrite item_at_mid. cbn [mbind option_bind].
  rewrite !s32_id by (unfold INT_MIN, INT_MAX; lia).
  cbn [ps_pos upd]. destruct (Z.eqb_spec (time i) 0); [lia|].
  destruct (Z.leb_spec (time i * 8) (pos + n)); [|lia]. cbn [andb negb].
  cbn [ps_vol ps_reppos ps_items ps_npos ps_pos ps_tone ps_origwfmt upd]. rewrite length_app. cbn [length].
  destruct b as [|j b].
  - cbn [length]. destruct (Z.leb_spec (Z.of_nat (length a + 1)) (Z.of_nat (length a) + 1)); [|lia]. done.
  - cbn [length]. destruct (Z.leb_spec (Z.of_nat (length a + S (S (length b)))) (Z.of_nat (length a) + 1)); [lia|].
    cbn [andb]. cbn [ps_items ps_npos upd].
    assert (E : a ++ i :: j :: b = (a ++ [i]) ++ j :: b) by (by rewrite <- app_assoc).
    assert (El : Z.of_nat (length a) + 1 = Z.of_nat (length (a ++ [i]))).
    { rewrite length_app. cbn. lia. }
    rewrite E, El, item_at_mid. done.
Qed.

(** What is left of an item from [pos] on. *)
Lemma play_item a i b pos v o k :
  timed i -> 0 <= pos < 8 * time i ->
  play_tones (Z.to_nat ((8 * time i - pos + n - 1) / n) + k) n (at_item a i b pos v o) =
    match b with
    | [] => Some (replicate (Z.to_nat ((8 * time i - pos + n - 1) / n)) i, true,
                  (at_item a i b 0 v o) <| ps_npos := Z.of_nat (length a) + 1 |>)
    | j :: b' =>
      r ← play_tones k n (at_item (a ++ [i]) j b' 0 v o);
      let '(l, ended, ps) := r in
      Some (replicate (Z.to_nat ((8 * time i - pos + n - 1) / n)) i ++ l, ended, ps)
    end.
Proof.
  intros Ht Hp. remember (Z.to_nat ((8 * time i - pos + n - 1) / n)) as m eqn:Em.
  revert pos Hp Em. induction m as [|m IH]; intros pos Hp Em.
  { assert (1 <= (8 * time i - pos + n - 1) / n) by (apply Z.div_le_lower_bound; lia). lia. }
  assert (Hdiv : (8 * time i - pos + n - 1) / n = Z.of_nat (S m)) by lia.
  cbn [Nat.add play_tones]. destruct (Z.lt_ge_cases (pos + n) (8 * time i)) as [Hlt|Hge].
  - rewrite generator_within by (done || lia). cbn [mbind option_bind Z.eqb negb].
    assert (Em' : m = Z.to_nat ((8 * time i - (pos + n) + n - 1) / n)).
    { replace (8 * time i - (pos + n) + n - 1) with (8 * time i - pos + n - 1 + (-1) * n) by lia.
      rewrite Z.div_add by lia. lia. }
    rewrite (IH (pos + n) ltac:(lia) Em').
    destruct b as [|j b]; [done|].
    destruct (play_tones k n _) as [[[l e] ps]|]; done.
  - rewrite generator_over by (done || lia).
    assert (m = 0%nat) as ->.
    { assert ((8 * time i - pos + n - 1) / n < 2) by (apply Z.div_lt_upper_bound; lia). lia. }
    destruct b as [|j b]; cbn [mbind option_bind]; [done|].
    change (negb (0 =? 0)) with false. cbn iota. cbn [Nat.add].
    destruct (play_tones k n _) as [[[l e] ps]|]; done.
Qed.

Lemma play_list a i b v o :
  Forall timed (i :: b) ->
  exists ps, play_tones (sum_list ((frames n ∘ time) <$> i :: b)) n (at_item a i b 0 v o) =
    Some (concat ((fun i => replicate (frames n (time i)) i) <$> i :: b), true, ps).
Proof.
  revert a i. induction b as [|j b IH]; intros a i Hf; inversion_clear Hf as [|? ? Hi Hb].
  - eexists. cbn [fmap list_fmap sum_list sum_list_with foldr compose].
    pose proof (play_item a i [] 0 v o 0 Hi) as H. unfold timed in Hi.
    rewrite Z.sub_0_r in H. unfold frames. cbn. rewrite H by lia. by rewrite app_nil_r.
  - destruct (IH (a ++ [i]) j Hb) as [ps Hps].
    pose proof (play_item a i (j :: b) 0 v o (sum_list ((frames n ∘ time) <$> j :: b)) Hi) as H.
    unfold timed in Hi. rewrite Z.sub_0_r in H.
    exists ps. etrans; [apply H; lia|]. rewrite Hps. done.
Qed.

End ending.

(** A list whose items all have an exclamation mark and a time is played through
    once, each item for as many frames as cover its time, and then ends. *)
Theorem tones_play_through mem format ch v s inter r ps ch' n :
  cw_playtones_start mem format ch v s inter = Some (r, Some ps, ch') ->
  0 < n <= 1999 -> ps_reppos ps = -1 -> Forall timed (ps_items ps) ->
  exists ps', play_tones (sum_list ((frames n ∘ time) <$> ps_items ps)) n ps =
    Some (concat ((fun i => replicate (frames n (time i)) i) <$> ps_items ps), true, ps').
Proof.
  intros Hs Hn Hrep Ht.
  assert (Hps : exists i b v0 o, ps = at_item [] i b 0 v0 o).
  { unfold cw_playtones_start in Hs. destruct (playtones_list v s inter) as [pd|]; [|done].
    unfold playtones_alloc in Hs. destruct mem; [|done]. destruct format; [|done].
    unfold item_at in Hs. destruct (items pd) as [|i b] eqn:Ei; [done|]. cbn in Hs.
    injection Hs as <- <- _. exists i, b, (vol pd), (tc_writeformat ch). cbn in Hrep. unfold at_item.
    by rewrite Hrep. }
  destruct Hps as (i & b & v0 & o & ->).
  destruct (play_list n Hn [] i b v0 o Ht) as [ps' H]. by exists ps'.
Qed.

Lemma tones_play_through_witness :
  exists ps ps', cw_playtones_start true true alaw_channel 0 "!350/30,!440/20" true
      = Some (0, Some ps, slinear_channel) /\
    play_tones 3 160 ps = Some ([tone 350 0 30 false 90; tone 350 0 30 false 90; tone 440 0 20 false 90],
                          true, ps').
Proof.
  destruct (cw_playtones_start true true alaw_channel 0 "!350/30,!440/20" true) as [[[r [ps|]] ch]|] eqn:E;
    [|vm_compute in E; discriminate..].
  destruct (tones_play_through true true alaw_channel 0 "!350/30,!440/20" true r ps ch 160 E) as [ps' H].
  - lia.
  - vm_compute in E. by injection E as <- <- <-.
  - vm_compute in E. injection E as <- <- <-. repeat constructor; vm_compute; intuition discriminate.
  - exists ps, ps'. vm_compute in E. injection E as <- <- <-. split; [done|]. exact H.
Defined.

(** ** Numbers printed and read again *)

Lemma scan_int_digit s :
  starts_digit s = true ->
  scan_int s = Some (s32 (Z.max (- 2 ^ 63) (Z.min (2 ^ 63 - 1) (digits 0 s))), skip_digits s).
Proof.
  destruct s as [|c s]; [done|]. cbn [starts_digit]. intros H.
  destruct c as [[] [] [] [] [] [] [] []]; try discriminate H; reflexivity.
Qed.

Lemma digit_char x : (x < 10)%N ->
  isdigit (pretty_N_char x) = true /\ code (pretty_N_char x) - 48 = Z.of_N x.
Proof.
  intros H. destruct x as [|p]; [by split|].
  do 4 (destruct p as [p|p|]; try (by split); try lia).
Qed.

Lemma go_app x s r : (pretty_N_go x s +:+ r)%string = pretty_N_go x (s +:+ r).
Proof.
  revert s. induction (N.lt_wf_0 x) as [x _ IH]; intros s.
  destruct (decide (0 < x)%N) as [Hx|Hx]; [|replace x with 0%N by lia; done].
  rewrite (pretty_N_go_step x s), (pretty_N_go_step x (s +:+ r)) by done.
  rewrite IH by (by apply N.div_lt). done.
Qed.

Lemma go_reads x s : (0 < x)%N ->
  digits 0 (pretty_N_go x s) = digits (Z.of_N x) s /\
  skip_digits (pretty_N_go x s) = skip_digits s /\ starts_digit (pretty_N_go x s) = true.
Proof.
  revert s. induction (N.lt_wf_0 x) as [x _ IH]; intros s Hx. rewrite pretty_N_go_step by done.
  destruct (digit_char (x `mod` 10) ltac:(by apply N.mod_lt)) as [Hd Hc].
  assert (Hskip : skip_digits (String (pretty_N_char (x `mod` 10)) s) = skip_digits s)
    by (cbn; by rewrite Hd).
  assert (Hdiv : Z.of_N x = 10 * Z.of_N (x `div` 10) + Z.of_N (x `mod` 10)).
  { pose proof (N.div_mod x 10 ltac:(done)). lia. }
  destruct (decide (0 < x `div` 10)%N) as [Hq|Hq].
  - destruct (IH (x `div` 10)%N ltac:(by apply N.div_lt)
      (String (pretty_N_char (x `mod` 10)) s) Hq) as (E1 & E2 & E3).
    rewrite E1, E2, E3, Hskip. split_and!; [|done..]. cbn [digits]. by rewrite Hd, Hc, Hdiv.
  - assert (Hq0 : (x `div` 10 = 0)%N) by (apply N.le_0_r, N.nlt_ge, Hq).
    rewrite Hq0 in *. rewrite pretty_N_go_0, Hskip.
    split_and!; [|done|exact Hd]. cbn [digits]. rewrite Hd, Hc, Hdiv. done.
Qed.

Lemma print_reads z r : 0 <= z ->
  digits 0 (print_d z +:+ r) = digits z r /\
  skip_digits (print_d z +:+ r) = skip_digits r /\ starts_digit (print_d z +:+ r) = true.
Proof.
  intros Hz. unfold print_d. destruct z as [|p|p]; [by split_and!| |lia].
  change (pretty (Z.pos p)) with (pretty_N_go (Npos p) ""). rewrite go_app, string_nil_app.
  by apply (go_reads (Npos p) r).
Qed.

(** A number that is followed by no digit is read back, and so is what follows
    it. *)
Lemma scan_print z r :
  0 <= z <= INT_MAX -> starts_digit r = false -> scan_int (print_d z +:+ r) = Some (z, r).
Proof.
  intros Hz Hr. destruct (print_reads z r) as (E1 & E2 & E3); [lia|].
  rewrite scan_int_digit, E1, E2 by done.
  assert (digits z r = z /\ skip_digits r = r) as [-> ->].
  { destruct r as [|c r]; [done|]. cbn in *. by rewrite Hr. }
  unfold INT_MAX in *. rewrite s32_id; [|unfold INT_MIN, INT_MAX; lia]. do 2 f_equal. lia.
Qed.

Lemma sscanf_print fmt z r :
  0 <= z <= INT_MAX -> starts_digit r = false ->
  sscanf (D :: fmt) (print_d z +:+ r) = l ← sscanf fmt r; Some (z :: l).
Proof. intros Hz Hr. cbn [sscanf]. by rewrite scan_print. Qed.

(** ** Lists printed and read again *)

Definition tone_text (i : playtones_item) : string :=
  if modulate i then
    print_d (freq1 i) +:+ String "*" (print_d (freq2 i) +:+ String "@"
      (print_d (modulation_depth i) +:+ String "/" (print_d (time i) +:+ "")))
  else print_d (freq1 i) +:+ String "+" (print_d (freq2 i) +:+ String "/" (print_d (time i) +:+ "")).

Fixpoint join_tones (l : list string) : string :=
  match l with
  | [] => EmptyString
  | [s] => s
  | s :: l => s +:+ String "," (join_tones l)
  end.

(** The items that are played once, and the ones that are repeated. *)
Definition list_text (lead body : list playtones_item) : string :=
  join_tones ((fun i => String "!" (tone_text i)) <$> lead) +:+
  (match lead, body with _ :: _, _ :: _ => "," | _, _ => "" end) +:+ join_tones (tone_text <$> body).

Definition int_range (z : Z) : Prop := 0 <= z <= INT_MAX.

Record item_ok (i : playtones_item) : Prop := {
  ok_freq1 : int_range (freq1 i);
  ok_freq2 : int_range (freq2 i);
  ok_time : int_range (time i);
  ok_depth : int_range (modulation_depth i);
  ok_plain : modulate i = false -> modulation_depth i = DEPTH;
}.

Lemma sscanf_lit c fmt s : sscanf (L c :: fmt) (String c s) = sscanf fmt s.
Proof. cbn [sscanf]. by rewrite char_eqb_refl. Qed.

Lemma sscanf_other c d fmt s : char_eqb c d = false -> sscanf (L c :: fmt) (String d s) = None.
Proof. intros H. cbn [sscanf]. by rewrite H. Qed.

Ltac scan_step :=
  first [ rewrite sscanf_print by (solve [assumption | reflexivity])
        | rewrite sscanf_lit
        | rewrite sscanf_other by reflexivity ]; cbn [mbind option_bind].

Lemma tone_text_read i : item_ok i -> tone_component (tone_text i) = Some i.
Proof.
  intros [H1 H2 Ht Hd Hp]. unfold tone_component, tone_text, tone_formats. destruct i as [f1 f2 t m d].
  cbn [freq1 freq2 time modulate modulation_depth] in *. unfold int_range in *.
  destruct m; cbn [first_format].
  - repeat scan_step. reflexivity.
  - rewrite (Hp eq_refl). repeat scan_step. reflexivity.
Qed.

Lemma strchr_app s t c : strchr (s +:+ t) c = strchr s c || strchr t c.
Proof.
  induction s as [|d s IH]; [done|]. rewrite string_cons_app. cbn [strchr].
  by rewrite IH, orb_assoc.
Qed.

Lemma strchr_go x s c : isdigit c = false -> strchr (pretty_N_go x s) c = strchr s c.
Proof.
  intros Hc. revert s. induction (N.lt_wf_0 x) as [x _ IH]; intros s.
  destruct (decide (0 < x)%N) as [Hx|Hx]; [|replace x with 0%N by lia; done].
  rewrite pretty_N_go_step by done. rewrite IH by (by apply N.div_lt). cbn [strchr].
  destruct (digit_char (x `mod` 10) ltac:(by apply N.mod_lt)) as [Hd _].
  destruct (char_eqb c _) eqn:E; [|done]. apply char_eqb_eq in E as ->. congruence.
Qed.

Lemma strchr_print z c : 0 <= z -> isdigit c = false -> strchr (print_d z) c = false.
Proof.
  intros Hz Hc. unfold print_d. destruct z as [|p|p]; [| |lia].
  - cbn. rewrite orb_false_r. destruct (char_eqb c "0") eqn:E; [|done].
    apply char_eqb_eq in E as ->. done.
  - change (pretty (Z.pos p)) with (pretty_N_go (Npos p) ""). by rewrite strchr_go.
Qed.

(** The characters of a tone are digits and its own signs. *)
Lemma tone_text_chars i c : item_ok i -> isdigit c = false -> strchr "+*@/" c = false ->
  strchr (tone_text i) c = false.
Proof.
  intros [H1 H2 Ht Hd _] Hc Hs. cbn [strchr] in Hs. rewrite !orb_false_iff in Hs.
  destruct Hs as (Ea & Eb & Ec & Ed & _). unfold int_range, tone_text in *.
  destruct (modulate i); rewrite !strchr_app; cbn [strchr]; rewrite !strchr_app; cbn [strchr];
    rewrite ?strchr_app; cbn [strchr]; rewrite ?strchr_app;
    rewrite !strchr_print by (done || lia); rewrite ?Ea, ?Eb, ?Ec, ?Ed; done.
Qed.

Lemma tone_text_head i : item_ok i -> exists c s, tone_text i = String c s /\ isdigit c = true.
Proof.
  intros [H1 _ _ _ _]. unfold tone_text, int_range in *.
  assert (H : forall r, exists c s, (print_d (freq1 i) +:+ r)%string = String c s /\ isdigit c = true).
  { intros r. destruct (print_reads (freq1 i) r) as (_ & _ & E); [lia|].
    destruct (print_d (freq1 i) +:+ r)%string; [done|]. eauto. }
  destruct (modulate i); apply H.
Qed.

Lemma strsplit_none c s : strchr s c = false -> strsplit c s = [s].
Proof.
  induction s as [|d s IH]; [done|]. cbn [strchr strsplit]. intros [Hd Hs]%orb_false_iff.
  assert (E : char_eqb d c = false).
  { destruct (char_eqb d c) eqn:E; [|done]. apply char_eqb_eq in E as ->.
    by rewrite char_eqb_refl in Hd. }
  by rewrite E, IH.
Qed.

Lemma strsplit_cons c s t : strchr s c = false -> strsplit c (s +:+ String c t) = s :: strsplit c t.
Proof.
  induction s as [|d s IH].
  - intros _. rewrite string_nil_app. cbn [strsplit]. by rewrite char_eqb_refl.
  - rewrite string_cons_app. cbn [strchr strsplit]. intros [Hd Hs]%orb_false_iff.
    assert (E : char_eqb d c = false).
    { destruct (char_eqb d c) eqn:E; [|done]. apply char_eqb_eq in E as ->.
      by rewrite char_eqb_refl in Hd. }
    by rewrite E, IH.
Qed.

Lemma join_cons s t l : join_tones (s :: t :: l) = (s +:+ String "," (join_tones (t :: l)))%string.
Proof. done. Qed.

Lemma strsplit_join l :
  l <> [] -> Forall (fun s => strchr s "," = false) l -> strsplit "," (join_tones l) = l.
Proof.
  intros Hne Hl. induction Hl as [|s l Hs Hl IH]; [done|].
  destruct l as [|t l]; [by apply strsplit_none|]. rewrite join_cons.
  rewrite strsplit_cons by done. by rewrite IH.
Qed.

Lemma join_app l k : l <> [] -> k <> [] -> join_tones (l ++ k) = (join_tones l +:+ String "," (join_tones k))%string.
Proof.
  intros Hl Hk. induction l as [|s l IH]; [done|]. destruct l as [|t l].
  - destruct k; [done|]. done.
  - change ((s :: t :: l) ++ k) with (s :: t :: l ++ k). rewrite !join_cons.
    change (t :: l ++ k) with ((t :: l) ++ k). rewrite IH by done.
    by rewrite string_app_assoc, string_cons_app.
Qed.

Lemma list_text_join lead body :
  list_text lead body = join_tones (((fun i => String "!" (tone_text i)) <$> lead) ++ (tone_text <$> body)).
Proof.
  unfold list_text. destruct lead as [|i lead], body as [|j body].
  - done.
  - by rewrite !string_nil_app.
  - rewrite app_nil_r. by rewrite !string_app_nil.
  - by rewrite join_app.
Qed.

Lemma loop_lead lead rest r acc :
  Forall item_ok lead ->
  playtones_loop (((fun i => String "!" (tone_text i)) <$> lead) ++ rest) r acc
  = playtones_loop rest r (acc ++ lead).
Proof.
  revert acc. induction lead as [|i lead IH]; intros acc Hf; [by rewrite app_nil_r|].
  inversion_clear Hf as [|? ? Hi Hl]. cbn [fmap list_fmap app playtones_loop].
  change (char_eqb "!" "!") with true. cbn iota beta. rewrite tone_text_read by done.
  rewrite IH by done. by rewrite <- app_assoc.
Qed.

Lemma loop_body body r acc :
  Forall item_ok body ->
  playtones_loop (tone_text <$> body) r acc
  = Some (if (r =? -1) && negb (length body =? 0)%nat then Z.of_nat (length acc) else r, acc ++ body).
Proof.
  revert r acc. induction body as [|i body IH]; intros r acc Hf.
  { cbn. by rewrite andb_false_r, app_nil_r. }
  inversion_clear Hf as [|? ? Hi Hb]. cbn [fmap list_fmap playtones_loop].
  destruct (tone_text_head i Hi) as (c & s & E & Hc). rewrite E.
  assert (Hne : char_eqb c "!" = false).
  { destruct (char_eqb c "!") eqn:Ec; [|done]. apply char_eqb_eq in Ec as ->. done. }
  rewrite Hne, <- E, tone_text_read by done. rewrite IH by done. rewrite <- app_assoc. cbn [app].
  do 2 f_equal. cbn [length Nat.eqb]. rewrite andb_true_r.
  destruct (Z.eqb_spec r (-1)); [|by destruct (Z.eqb_spec r (-1))].
  destruct (Z.eqb_spec (Z.of_nat (length acc)) (-1)); [lia|done].
Qed.

(** A tone list that was written out is read back: its items in order, and the
    place it is repeated from. *)
Theorem tone_list_roundtrip lead body v inter :
  Forall item_ok lead -> Forall item_ok body -> lead ++ body <> [] ->
  playtones_list v (list_text lead body) inter =
    Some {| vol := if 0 <=? v then -13 else v;
            reppos := match body with [] => -1 | _ => Z.of_nat (length lead) end;
            interruptible := inter; items := lead ++ body |}.
Proof.
  intros Hl Hb Hne.
  set (pieces := ((fun i => String "!" (tone_text i)) <$> lead) ++ (tone_text <$> body)).
  assert (Hp : forall c, isdigit c = false -> strchr "+*@/" c = false -> char_eqb c "!" = false ->
    Forall (fun s => strchr s c = false) pieces).
  { intros c Hc Hs Hx. apply Forall_app. rewrite !Forall_fmap. split.
    - eapply Forall_impl; [exact Hl|]. intros i Hi. cbn. by rewrite Hx, tone_text_chars.
    - eapply Forall_impl; [exact Hb|]. intros i Hi. by apply tone_text_chars. }
  assert (Hbar : strchr (join_tones pieces) "|" = false).
  { specialize (Hp "|"%char eq_refl eq_refl eq_refl). induction Hp as [|s l Hs Hl' IH]; [done|].
    destruct l as [|t l]; [done|]. rewrite join_cons, strchr_app, Hs. cbn [strchr orb]. exact IH. }
  unfold playtones_list. rewrite list_text_join. fold pieces. rewrite Hbar.
  rewrite strsplit_join.
  - unfold pieces. rewrite loop_lead, loop_body by done. cbn [app length].
    change (-1 =? -1) with true. cbn [andb]. destruct body; cbn; [|done].
    by rewrite app_nil_r.
  - unfold pieces. destruct lead; [|done]. by destruct body.
  - by apply Hp.
Qed.

Definition dial : playtones_item := tone 350 440 500 false DEPTH.
Definition warble : playtones_item := tone 1000 20 200 true 75.

Lemma tone_list_roundtrip_witness :
  playtones_list 0 "!350+440/500,1000*20@75/200,350+440/500" true =
    Some {| vol := -13; reppos := 1; interruptible := true; items := [dial; warble; dial] |}.
Proof.
  exact (tone_list_roundtrip [dial] [warble; dial] 0 true
    ltac:(repeat constructor; vm_compute; intuition discriminate)
    ltac:(repeat constructor; vm_compute; intuition discriminate) ltac:(discriminate)).
Defined.

(** ** What goes wrong *)

(** A list without a tone has no first item to set up. *)
Example empty_list_crashes : cw_playtones_start true true alaw_channel 0 "" true = None.
Proof. reflexivity. Qed.

(** The depth of [f1*f2@depth] is never read: [f1*f2] is tried before it. *)
Example depth_ignored :
  tone_component "1000*20@75" = Some (tone 1000 20 0 true DEPTH) /\
  tone_component "1000*20@75/200" = Some (tone 1000 20 200 true 75).
Proof. split; reflexivity. Qed.
