(* ===== verification/Zones.v ===== *)
(** * Tone zones (corelib/indications.c, include/callweaver/indications.h)

    The tone zones are a list, each the tones of a country or the alias of
    another; one of them may be the default.  A zone is known by its address,
    here its [z_id].  Texts of a tone are [None] when they could not be
    allocated.  [lock] is whether the mutex of the list was taken.  [None] in
    place of a result is a bad memory access. *)

From S2P Require Import Prelude CStr Utils.
Open Scope Z_scope.

(** ** State *)

Record tone_zone_sound := { ts_name : option string; ts_data : option string }.

Record tone_zone := {
  z_id : Z;
  z_country : string;
  z_alias : string;
  z_tones : list tone_zone_sound;
}.

#[export] Instance tone_zone_eta : Eta tone_zone := fun z =>
  {| z_id := z_id z; z_country := z_country z; z_alias := z_alias z; z_tones := z_tones z |}.

Record indications := { tone_zones : list tone_zone; current_tonezone : option Z }.

#[export] Instance indications_eta : Eta indications := fun i =>
  {| tone_zones := tone_zones i; current_tonezone := current_tonezone i |}.

Definition zone_at (id : Z) (l : list tone_zone) : option tone_zone :=
  List.find (fun z => z_id z =? id) l.

Definition is_alias (z : tone_zone) : bool := negb (streq (z_alias z) "").

(** ** Lookup *)

(** The zone behind [cur], or the first. *)
Fixpoint next_zone (id : Z) (l : list tone_zone) : option tone_zone :=
  match l with
  | [] => None
  | z :: l => if z_id z =? id then head l else next_zone id l
  end.

Definition cw_walk_indications (cur : option Z) (st : indications) : option tone_zone :=
  match cur with
  | None => head (tone_zones st)
  | Some id => next_zone id (tone_zones st)
  end.

Definition find_country (country : string) (l : list tone_zone) : option tone_zone :=
  List.find (fun z => strcaseeq country (z_country z)) l.

(** The body of the loop that follows aliases runs at most [fuel] times. *)
Fixpoint alias_loop (fuel : nat) (country : string) (l : list tone_zone) : option tone_zone :=
  match fuel with
  | O => None
  | S fuel =>
    match find_country country l with
    | None => None
    | Some tz => if is_alias tz then alias_loop fuel (z_alias tz) l else Some tz
    end
  end.

Definition ALIAS_MAX : nat := 20.

(** The default zone, else any. *)
Definition some_zone (st : indications) : option tone_zone :=
  match current_tonezone st with
  | Some id => zone_at id (tone_zones st)
  | None => head (tone_zones st)
  end.

Definition cw_get_indication_zone (lock : bool) (country : option string) (st : indications)
    : option tone_zone :=
  match country with
  | None => some_zone st
  | Some country => if lock then alias_loop ALIAS_MAX country (tone_zones st) else None
  end.

Fixpoint find_tone (indication : string) (l : list tone_zone_sound) : option (option tone_zone_sound) :=
  match l with
  | [] => Some None
  | ts :: l =>
    name ← ts_name ts;
    if strcaseeq indication name then Some (Some ts) else find_tone indication l
  end.

Definition cw_get_indication_tone (lock : bool) (zone : option tone_zone) (indication : string)
    (st : indications) : option (option tone_zone_sound) :=
  match (match zone with Some z => Some z | None => some_zone st end) with
  | None => Some None
  | Some z => if lock then find_tone indication (z_tones z) else Some None
  end.

(** ** Change *)

Definition cw_set_indication_country (lock : bool) (country : option string) (st : indications)
    : Z * indications :=
  match country with
  | None => (1, st)
  | Some c =>
    match cw_get_indication_zone lock (Some c) st with
    | Some z => (0, st <| current_tonezone := Some (z_id z) |>)
    | None => (1, st)
    end
  end.

(** The first zone of that country replaced: the list, and the zone that was
    there. *)
Fixpoint replace_zone (zone : tone_zone) (l : list tone_zone) : list tone_zone * option tone_zone :=
  match l with
  | [] => ([zone], None)
  | tz :: l =>
    if strcaseeq (z_country zone) (z_country tz) then (zone :: l, Some tz)
    else let '(l, old) := replace_zone zone l in (tz :: l, old)
  end.

Definition cw_register_indication_country (lock : bool) (zone : tone_zone) (st : indications)
    : Z * indications :=
  if lock then
    let '(l, old) := replace_zone zone (tone_zones st) in
    (0, {| tone_zones := l;
           current_tonezone :=
             match old, current_tonezone st with
             | Some tz, Some id => if z_id tz =? id then Some (z_id zone) else Some id
             | _, c => c
             end |})
  else (-1, st).

Definition named (country : option string) (z : tone_zone) : bool :=
  match country with
  | None => true
  | Some c => strcaseeq c (z_country z) || strcaseeq c (z_alias z)
  end.

(** Every zone of that name and every alias of it goes; the default with them. *)
Fixpoint remove_zones (country : option string) (l : list tone_zone) (current : option Z)
    : Z * list tone_zone * option Z :=
  match l with
  | [] => (-1, [], current)
  | tz :: l =>
    if named country tz then
      let current := if match current with Some id => z_id tz =? id | None => false end
                     then None else current in
      let '(_, l, current) := remove_zones country l current in (0, l, current)
    else
      let '(res, l, current) := remove_zones country l current in (res, tz :: l, current)
  end.

Definition cw_unregister_indication_country (lock : bool) (country : option string) (st : indications)
    : Z * indications :=
  if lock then
    let '(res, l, current) := remove_zones country (tone_zones st) (current_tonezone st) in
    (res, {| tone_zones := l; current_tonezone := current |})
  else (-1, st).

(** The tones of a zone with one of that name set.  [mem] is the outcome of the
    allocation of a new tone, [dup_name] and [dup_data] of the copies of its
    texts; a tone that was there is emptied before they are made. *)
Fixpoint set_tone (mem dup_name dup_data : bool) (indication tonelist : string)
    (l : list tone_zone_sound) : option (Z * list tone_zone_sound) :=
  let fresh := {| ts_name := if dup_name then Some indication else None;
                  ts_data := if dup_data then Some tonelist else None |} in
  let res := if dup_name && dup_data then 0 else -2 in
  match l with
  | [] => Some (if mem then (res, if dup_name && dup_data then [fresh] else []) else (-2, []))
  | ts :: l =>
    name ← ts_name ts;
    if strcaseeq indication name then Some (res, fresh :: l)
    else
      r ← set_tone mem dup_name dup_data indication tonelist l;
      Some (r.1, ts :: r.2)
  end.

Definition cw_register_indication (lock mem dup_name dup_data : bool) (zone : tone_zone)
    (indication tonelist : string) : option (Z * tone_zone) :=
  if is_alias zone then Some (-1, zone)
  else if lock then
    r ← set_tone mem dup_name dup_data indication tonelist (z_tones zone);
    Some (r.1, zone <| z_tones := r.2 |>)
  else Some (-2, zone).

Fixpoint drop_tones (indication : string) (l : list tone_zone_sound)
    : option (Z * list tone_zone_sound) :=
  match l with
  | [] => Some (-1, [])
  | ts :: l =>
    name ← ts_name ts;
    r ← drop_tones indication l;
    if strcaseeq indication name then Some (0, r.2) else Some (r.1, ts :: r.2)
  end.

Definition cw_unregister_indication (lock : bool) (zone : tone_zone) (indication : string)
    : option (Z * tone_zone) :=
  if is_alias zone then Some (-1, zone)
  else if lock then
    r ← drop_tones indication (z_tones zone); Some (r.1, zone <| z_tones := r.2 |>)
  else Some (-1, zone).

(** ** The default zone is one of the list *)

Definition ids (l : list tone_zone) : list Z := z_id <$> l.

(** No zone is in the list twice, no country has two zones, and the default is
    in the list. *)
Record zones_ok (st : indications) : Prop := {
  zo_ids : NoDup (ids (tone_zones st));
  zo_countries : forall l1 z l2 z' l3, tone_zones st = l1 ++ z :: l2 ++ z' :: l3 ->
    strcaseeq (z_country z) (z_country z') = false;
  zo_current : forall id, current_tonezone st = Some id -> id ∈ ids (tone_zones st);
}.

(** Pairwise different countries, as a recursive predicate. *)
Fixpoint distinct_countries (l : list tone_zone) : Prop :=
  match l with
  | [] => True
  | z :: l => Forall (fun z' => strcaseeq (z_country z) (z_country z') = false) l /\ distinct_countries l
  end.

Lemma distinct_split l :
  distinct_countries l <-> forall l1 z l2 z' l3, l = l1 ++ z :: l2 ++ z' :: l3 ->
    strcaseeq (z_country z) (z_country z') = false.
Proof.
  induction l as [|x l IH]; cbn [distinct_countries].
  - split; [|done]. intros _ [|? ?] ? ? ? ? H; discriminate H.
  - rewrite IH. split.
    + intros [Hx Hl] [|y l1] z l2 z' l3 H; injection H as -> ->.
      * rewrite Forall_app, Forall_cons in Hx. apply Hx.
      * by eapply Hl.
    + intros H. split.
      * apply Forall_forall. intros z' (l2 & l3 & ->)%list_elem_of_split. by apply (H [] x l2 z' l3).
      * intros l1 z l2 z' l3 ->. by apply (H (x :: l1) z l2 z' l3).
Qed.

Lemma replace_ids zone l :
  match (replace_zone zone l).2 with
  | Some tz => exists a b, l = a ++ tz :: b /\ (replace_zone zone l).1 = a ++ zone :: b /\
      strcaseeq (z_country zone) (z_country tz) = true
  | None => (replace_zone zone l).1 = l ++ [zone] /\
      Forall (fun z => strcaseeq (z_country zone) (z_country z) = false) l
  end.
Proof.
  induction l as [|x l IH]; cbn [replace_zone]; [done|].
  destruct (strcaseeq (z_country zone) (z_country x)) eqn:E.
  - by exists [], l.
  - destruct (replace_zone zone l) as [l' [tz|]]; cbn in *.
    + destruct IH as (a & b & -> & -> & Hz). by exists (x :: a), b.
    + destruct IH as [-> Hf]. split; [done|by constructor].
Qed.

Lemma same_country z tz x :
  strcaseeq (z_country z) (z_country tz) = true ->
  strcaseeq (z_country z) x = strcaseeq (z_country tz) x.
Proof. intros H. by rewrite (strcaseeq_trans _ _ x H). Qed.

Lemma distinct_app l k :
  distinct_countries (l ++ k) <-> distinct_countries l /\ distinct_countries k /\
    Forall (fun z => Forall (fun z' => strcaseeq (z_country z) (z_country z') = false) k) l.
Proof.
  induction l as [|z l IH]; cbn [app distinct_countries].
  - split; [intros ?|]; [by split_and!|tauto].
  - rewrite IH, Forall_app, Forall_cons. tauto.
Qed.

Lemma distinct_subst a z tz b :
  strcaseeq (z_country z) (z_country tz) = true -> distinct_countries (a ++ tz :: b) -> distinct_countries (a ++ z :: b).
Proof.
  intros Hz. rewrite !distinct_app. cbn [distinct_countries]. intros (Ha & [Ht Hb] & Hc). split_and!; try done.
  - eapply Forall_impl; [exact Ht|]. cbn. intros x Hx. by rewrite (same_country _ _ _ Hz).
  - eapply Forall_impl; [exact Hc|]. cbn. intros x. rewrite !Forall_cons. intros [Hx Hr].
    split; [|done]. rewrite strcaseeq_sym, (same_country _ _ _ Hz), strcaseeq_sym. done.
Qed.

Lemma register_ok lock zone st :
  z_id zone ∉ ids (tone_zones st) -> zones_ok st ->
  zones_ok (cw_register_indication_country lock zone st).2.
Proof.
  intros Hid [Hn Hc Hcur]. rewrite <- distinct_split in Hc. unfold cw_register_indication_country.
  destruct lock; [|by split; [|apply distinct_split|]].
  pose proof (replace_ids zone (tone_zones st)) as Hr.
  destruct (replace_zone zone (tone_zones st)) as [l [tz|]]; cbn [fst snd] in Hr.
  - destruct Hr as (a & b & Hl & -> & Hz). unfold ids in *. rewrite Hl, fmap_app in *. cbn [fmap list_fmap] in *.
    split; cbn [tone_zones current_tonezone snd].
    + unfold ids. rewrite fmap_app. cbn [fmap list_fmap]. rewrite NoDup_app, NoDup_cons in Hn |- *.
      set_solver.
    + apply distinct_split. by eapply distinct_subst.
    + intros id. unfold ids. rewrite fmap_app. cbn [fmap list_fmap].
      destruct (current_tonezone st) as [cur|] eqn:Ec; [|done].
      destruct (Z.eqb_spec (z_id tz) cur) as [Heq|Hne]; intros [= <-].
      * set_solver.
      * specialize (Hcur cur eq_refl). set_solver.
  - destruct Hr as [-> Hf]. split; cbn [tone_zones current_tonezone snd].
    + unfold ids in *. rewrite fmap_app, NoDup_app. cbn [fmap list_fmap]. split_and!; [done|set_solver|].
      apply NoDup_singleton.
    + apply distinct_split, distinct_app. split_and!; [done|by split|].
      eapply Forall_impl; [exact Hf|]. cbn. intros x Hx. apply Forall_singleton.
      by rewrite strcaseeq_sym.
    + intros id Hc'. unfold ids. rewrite fmap_app. specialize (Hcur id). set_solver.
Qed.

Lemma remove_spec country l cur :
  let '(res, l', cur') := remove_zones country l cur in
  l' = filter (fun z : tone_zone => named country z = false) l /\
  (res = 0 \/ res = -1) /\ (res = -1 <-> l' = l) /\
  (NoDup (ids l) -> forall id, cur' = Some id -> cur = Some id /\ (id ∈ ids l -> id ∈ ids l')).
Proof.
  revert cur. induction l as [|z l IH]; intros cur; cbn [remove_zones].
  { split_and!; [done|auto|done|]. intros _ id ->. split; [done|by intros ?%elem_of_nil]. }
  destruct (named country z) eqn:En.
  - match goal with |- context [remove_zones country l ?c] => set (cur1 := c) end.
    specialize (IH cur1).
    destruct (remove_zones country l cur1) as [[res l'] cur']. destruct IH as (-> & Hr & He & Hc).
    rewrite filter_cons_False by congruence. split_and!; [done|auto| |].
    + split; [done|]. intros E. exfalso.
      assert (length (filter (fun z : tone_zone => named country z = false) l) <= length l)%nat by apply length_filter.
      rewrite E in H. cbn in H. lia.
    + intros Hn id ->. unfold ids in Hn. cbn [fmap list_fmap] in Hn.
      apply NoDup_cons in Hn as [Hz Hn].
      destruct (Hc Hn id eq_refl) as [H1 H2]. unfold cur1 in H1.
      destruct cur as [c|]; [|done]. destruct (Z.eqb_spec (z_id z) c); [done|]. injection H1 as ->.
      split; [done|]. unfold ids at 1. cbn [fmap list_fmap]. intros [->|Hin]%elem_of_cons; [done|].
      by apply H2.
  - specialize (IH cur). destruct (remove_zones country l cur) as [[res l'] cur'].
    destruct IH as (-> & Hr & He & Hc). rewrite filter_cons_True by done.
    split_and!; [done|done| |].
    + rewrite He. split; [by intros ->|]. by intros [= ->].
    + intros Hn id ->. unfold ids in Hn. cbn [fmap list_fmap] in Hn. apply NoDup_cons in Hn as [Hz Hn].
      destruct (Hc Hn id eq_refl) as [H1 H2]. split; [done|]. unfold ids in *. cbn [fmap list_fmap].
      set_solver.
Qed.

Lemma distinct_filter (P : tone_zone -> Prop) `{!forall z, Decision (P z)} l :
  distinct_countries l -> distinct_countries (filter P l).
Proof.
  induction l as [|z l IH]; [done|]. cbn [distinct_countries]. intros [Hz Hl]. rewrite filter_cons.
  case_decide; [|auto]. cbn [distinct_countries]. split; [|auto].
  apply Forall_forall. intros x [_ Hx]%list_elem_of_filter. by eapply Forall_forall in Hz.
Qed.

Lemma unregister_ok lock country st :
  zones_ok st -> zones_ok (cw_unregister_indication_country lock country st).2.
Proof.
  intros [Hn Hc Hcur]. rewrite <- distinct_split in Hc. unfold cw_unregister_indication_country.
  destruct lock; [|by split; [|apply distinct_split|]].
  pose proof (remove_spec country (tone_zones st) (current_tonezone st)) as Hr.
  destruct (remove_zones _ _ _) as [[res l] cur]. destruct Hr as (-> & _ & _ & Hk).
  split; cbn [tone_zones current_tonezone snd].
  - unfold ids. eapply sublist_NoDup; [exact Hn|]. unfold ids. apply fmap_sublist, sublist_filter.
  - apply distinct_split. by apply distinct_filter.
  - intros id ->. destruct (Hk Hn id eq_refl) as [H1 H2]. auto.
Qed.

Lemma find_country_in c l z :
  find_country c l = Some z -> z ∈ l /\ strcaseeq c (z_country z) = true.
Proof. intros H. apply find_some in H as [H1 H2]. by apply list_elem_of_In in H1. Qed.

Lemma alias_loop_in fuel c l z : alias_loop fuel c l = Some z -> z ∈ l /\ is_alias z = false.
Proof.
  revert c. induction fuel as [|fuel IH]; intros c H; [done|]. cbn in H.
  destruct (find_country c l) as [tz|] eqn:E; [|done].
  destruct (is_alias tz) eqn:Ea; [by eapply IH|]. injection H as ->.
  by apply find_country_in in E as [? _].
Qed.

Lemma set_country_ok lock country st :
  zones_ok st -> zones_ok (cw_set_indication_country lock country st).2.
Proof.
  intros [Hn Hc Hcur]. unfold cw_set_indication_country. destruct country as [c|]; [|done].
  unfold cw_get_indication_zone. destruct lock; [|done].
  destruct (alias_loop ALIAS_MAX c (tone_zones st)) as [z|] eqn:E; [|done].
  apply alias_loop_in in E as [Hz _]. split; [done|done|]. cbn. intros id [= <-].
  unfold ids. by apply list_elem_of_fmap_2.
Qed.

(** What is done to the zones; a zone that is registered was not before. *)
Inductive zones_step : indications -> indications -> Prop :=
  | zs_register st lock zone : z_id zone ∉ ids (tone_zones st) ->
      zones_step st (cw_register_indication_country lock zone st).2
  | zs_unregister st lock country :
      zones_step st (cw_unregister_indication_country lock country st).2
  | zs_set st lock country : zones_step st (cw_set_indication_country lock country st).2.

(** However zones are registered, replaced, removed and made the default, the
    default zone is one that is registered, not one that was freed; no country
    has two zones. *)
Theorem default_zone_registered st :
  rtc zones_step {| tone_zones := []; current_tonezone := None |} st ->
  zones_ok st /\
  (tone_zones st <> [] -> exists z, some_zone st = Some z /\ z ∈ tone_zones st).
Proof.
  intros H. assert (Hok : zones_ok st).
  { remember {| tone_zones := []; current_tonezone := None |} as st0 eqn:E.
    assert (H0 : zones_ok st0).
    { subst. split; cbn; [constructor| |done]. intros [|? ?] ? ? ? ? Hx; discriminate Hx. }
    clear E. induction H as [|x y z Hxy _ IH]; [done|]. apply IH.
    destruct Hxy; [by apply register_ok|by apply unregister_ok|by apply set_country_ok]. }
  split; [done|]. intros Hne. unfold some_zone.
  destruct (current_tonezone st) as [id|] eqn:E.
  - pose proof (zo_current st Hok id E) as Hin. apply list_elem_of_fmap in Hin as (z & -> & Hz).
    unfold zone_at. destruct (List.find _ _) as [z'|] eqn:Ef.
    + exists z'. split; [done|]. apply find_some in Ef as [Hz' _]. by apply list_elem_of_In.
    + exfalso. apply list_elem_of_In, (find_none _ _ Ef) in Hz. by rewrite Z.eqb_refl in Hz.
  - destruct (tone_zones st) as [|z l]; [done|]. exists z. split; [done|]. apply elem_of_cons. by left.
Qed.

Definition zone (id : Z) (country alias : string) : tone_zone :=
  {| z_id := id; z_country := country; z_alias := alias; z_tones := [] |}.

Definition three_zones : indications :=
  let st := {| tone_zones := []; current_tonezone := None |} in
  let st := (cw_register_indication_country true (zone 1 "us" "") st).2 in
  let st := (cw_register_indication_country true (zone 2 "ca" "us") st).2 in
  let st := (cw_set_indication_country true (Some "ca"%string) st).2 in
  (cw_register_indication_country true (zone 3 "US" "") st).2.

Lemma default_zone_registered_witness :
  zones_ok three_zones /\ current_tonezone three_zones = Some 3 /\
  exists z, some_zone three_zones = Some z /\ z ∈ tone_zones three_zones.
Proof.
  destruct (default_zone_registered three_zones) as [H1 H2].
  - eapply rtc_l; [apply (zs_register _ true (zone 1 "us" "")); by apply not_elem_of_nil|].
    eapply rtc_l; [apply (zs_register _ true (zone 2 "ca" "us"));
      vm_compute; intros [H|[]%elem_of_nil]%elem_of_cons; discriminate H|].
    eapply rtc_l; [apply (zs_set _ true (Some "ca"%string))|].
    eapply rtc_l; [apply (zs_register _ true (zone 3 "US" ""))|apply rtc_refl].
    vm_compute. intros [H|[H|[]%elem_of_nil]%elem_of_cons]%elem_of_cons; discriminate H.
  - split; [exact H1|]. split; [vm_compute; reflexivity|]. apply H2. vm_compute. discriminate.
Defined.

(** ** Aliases *)

(** A country names a zone by way of [n] aliases. *)
Inductive leads_to (l : list tone_zone) : nat -> string -> tone_zone -> Prop :=
  | leads_zone c z : find_country c l = Some z -> is_alias z = false -> leads_to l 0 c z
  | leads_alias n c tz z : find_country c l = Some tz -> is_alias tz = true ->
      leads_to l n (z_alias tz) z -> leads_to l (S n) c z.

Lemma alias_loop_leads fuel l c z :
  alias_loop fuel c l = Some z <-> exists n, (n < fuel)%nat /\ leads_to l n c z.
Proof.
  revert c. induction fuel as [|fuel IH]; intros c; cbn [alias_loop].
  { split; [done|]. intros (n & Hn & _). lia. }
  destruct (find_country c l) as [tz|] eqn:E.
  2: { split; [done|]. intros (n & _ & H). destruct H; congruence. }
  destruct (is_alias tz) eqn:Ea.
  - rewrite IH. split.
    + intros (n & Hn & H). exists (S n). split; [lia|]. by econstructor.
    + intros (n & Hn & H). destruct H as [? ? E' ?|n ? tz' ? E' ? H]; [congruence|].
      rewrite E in E'. injection E' as <-. exists n. split; [lia|done].
  - split.
    + intros [= ->]. exists 0%nat. split; [lia|by constructor].
    + intros (n & Hn & H). destruct H; congruence.
Qed.

(** The search follows the aliases of a country to the zone they name, up to 19
    of them; a circle of aliases is given up on, and no alias is ever the
    answer. *)
Theorem zone_search_follows_aliases c st z :
  cw_get_indication_zone true (Some c) st = Some z <->
  exists n, (n < ALIAS_MAX)%nat /\ leads_to (tone_zones st) n c z.
Proof. apply alias_loop_leads. Qed.

Lemma find_country_replaced zone_ l c :
  strcaseeq c (z_country zone_) = true -> find_country c (replace_zone zone_ l).1 = Some zone_.
Proof.
  intros Hc. unfold find_country. induction l as [|x l IH]; cbn [replace_zone].
  - cbn. by rewrite Hc.
  - destruct (strcaseeq (z_country zone_) (z_country x)) eqn:E.
    + cbn. by rewrite Hc.
    + destruct (replace_zone zone_ l) as [l' o]. cbn in *.
      by rewrite <- (strcaseeq_trans _ _ (z_country x) Hc), E.
Qed.

(** A zone that was registered is found under its country, in any case. *)
Lemma register_then_get zone_ st c :
  is_alias zone_ = false -> strcaseeq c (z_country zone_) = true ->
  cw_get_indication_zone true (Some c) (cw_register_indication_country true zone_ st).2 = Some zone_.
Proof.
  intros Ha Hc. unfold cw_register_indication_country.
  pose proof (find_country_replaced zone_ (tone_zones st) c Hc) as Hf.
  destruct (replace_zone zone_ (tone_zones st)) as [l o]. cbn in *. by rewrite Hf, Ha.
Qed.

(** A circle of aliases. *)
Example alias_circle :
  cw_get_indication_zone true (Some "aa"%string)
    {| tone_zones := [zone 1 "aa" "bb"; zone 2 "bb" "aa"]; current_tonezone := None |} = None.
Proof. reflexivity. Qed.

(** A tone that is replaced when memory runs out is left without a name, and the
    next search of its zone reads it. *)
Example replaced_tone_without_name :
  let z := (zone 1 "us" "") <| z_tones := [{| ts_name := Some "dial"; ts_data := Some "350+440" |}]%string |> in
  match cw_register_indication true true false false z "dial" "425" with
  | Some (res, z') => (res, find_tone "busy" (z_tones z'))
  | None => (0, None)
  end = (-2, None).
Proof. reflexivity. Qed.
