(* ===== verification/Config.v ===== *)
(** * Configurations in memory (corelib/config.c, include/callweaver/config.h)

    A configuration is a list of categories, each a list of variables.  A
    category is known by its place in the list, which never shrinks.  Callers
    name a category by a text of their own or by the pointer to a name that the
    configuration gave them; the source compares pointers before it compares
    texts, so that a name is one of the two here.

    [mem] is whether an allocation succeeds.  An operation may end in a bad
    memory access or not end at all. *)

From S2P Require Import Prelude CStr Utils.
Open Scope Z_scope.

(** ** What becomes of a call *)

Inductive run (A : Type) := Returns (a : A) | Crashes | Hangs.
Arguments Returns {A} a.
Arguments Crashes {A}.
Arguments Hangs {A}.

#[export] Instance run_ret : MRet run := fun A a => Returns a.
#[export] Instance run_bind : MBind run := fun A B f r =>
  match r with Returns a => f a | Crashes => Crashes | Hangs => Hangs end.

(** ** State *)

Record cw_variable := {
  v_name : string; v_value : string; v_lineno : Z; v_object : bool; v_blanklines : nat;
  v_sameline : option string }.

(** [cat_vars] are the variables from [root] on.  [cat_stale] is set when
    [last] shows a variable that is no longer among them. *)
Record cw_category := {
  cat_name : string; cat_ignored : bool; cat_vars : list cw_variable; cat_stale : bool }.

#[export] Instance cw_category_eta : Eta cw_category :=
  fun c => {| cat_name := cat_name c; cat_ignored := cat_ignored c; cat_vars := cat_vars c;
              cat_stale := cat_stale c |}.

(** [cf_freed] is set once the structure and all in it were freed. *)
Record cw_config := {
  cf_cats : list cw_category; cf_current : option nat; cf_last_browse : option nat;
  cf_include_level : Z; cf_max_include_level : Z; cf_freed : bool }.

#[export] Instance cw_config_eta : Eta cw_config :=
  fun c => {| cf_cats := cf_cats c; cf_current := cf_current c; cf_last_browse := cf_last_browse c;
              cf_include_level := cf_include_level c;
              cf_max_include_level := cf_max_include_level c; cf_freed := cf_freed c |}.

Inductive cat_ref := Text (s : string) | NameOf (i : nat).

(** ** Variables *)

Definition cw_variable_new (mem : bool) (name value : string) : option cw_variable :=
  if mem then Some {| v_name := name; v_value := value; v_lineno := 0; v_object := false;
                      v_blanklines := 0%nat; v_sameline := None |}
  else None.

(** Behind variables that were detached a new one is linked to those. *)
Definition cw_variable_append (category : cw_category) (variable : cw_variable) : cw_category :=
  if cat_stale category then category
  else category <| cat_vars := cat_vars category ++ [variable] |>.

Definition variable_clone (mem : bool) (old : cw_variable) : option cw_variable :=
  if mem then Some {| v_name := v_name old; v_value := v_value old; v_lineno := v_lineno old;
                      v_object := v_object old; v_blanklines := v_blanklines old;
                      v_sameline := None |}
  else None.

Definition append_all (vars : list cw_variable) (c : cw_category) : cw_category :=
  foldl cw_variable_append c vars.

(** The old category is left without a root and with a [last] that is not its
    own any more. *)
Definition move_variables (old new : cw_category) : cw_category * cw_category :=
  (old <| cat_vars := [] |>
       <| cat_stale := cat_stale old || negb (bool_decide (cat_vars old = [])) |>,
   append_all (cat_vars old) new).

Definition cw_category_detach_variables (cat : cw_category) : list cw_variable * cw_category :=
  (cat_vars cat,
   cat <| cat_vars := [] |>
       <| cat_stale := cat_stale cat || negb (bool_decide (cat_vars cat = [])) |>).

Definition inherit_category (mem : bool) (new base : cw_category) : cw_category :=
  append_all (omap (variable_clone mem) (cat_vars base)) new.

(** ** Categories *)

Definition CATEGORY_NAME : nat := 80.

Definition cw_category_new (mem : bool) (name : string) : option cw_category :=
  if mem then Some {| cat_name := strtake (CATEGORY_NAME - 1) name; cat_ignored := false;
                      cat_vars := []; cat_stale := false |}
  else None.

Definition cw_category_rename (cat : cw_category) (name : string) : cw_category :=
  cat <| cat_name := strtake (CATEGORY_NAME - 1) name |>.

Definition ref_text (config : cw_config) (r : cat_ref) : string :=
  match r with
  | Text s => s
  | NameOf i => from_option cat_name EmptyString (cf_cats config !! i)
  end.

(** The first category with the name, and its place. *)
Definition find_named (ignored : bool) (name : string) (l : list cw_category) : option nat :=
  fst <$> list_find (fun cat => strcaseeq (cat_name cat) name && (ignored || negb (cat_ignored cat))) l.

Definition category_get (config : cw_config) (category_name : cat_ref) (ignored : bool) : option nat :=
  let by_text := find_named ignored (ref_text config category_name) (cf_cats config) in
  match category_name with
  | NameOf i =>
    match cf_cats config !! i with
    | Some cat => if ignored || negb (cat_ignored cat) then Some i else by_text
    | None => by_text
    end
  | Text _ => by_text
  end.

Definition cw_category_get (config : cw_config) (category_name : cat_ref) : option nat :=
  category_get config category_name false.

Definition cw_category_exist (config : cw_config) (category_name : cat_ref) : bool :=
  match cw_category_get config category_name with Some _ => true | None => false end.

Definition cw_category_append (config : cw_config) (category : cw_category) : cw_config :=
  config <| cf_cats := cf_cats config ++ [category] |>
         <| cf_current := Some (length (cf_cats config)) |>.

Definition on_category (i : nat) (f : cw_category -> cw_category) (config : cw_config) : cw_config :=
  config <| cf_cats := alter f i (cf_cats config) |>.

(** ** Browsing *)

(** The category at a place or the first behind it that is not ignored. *)
Fixpoint next_available (i : nat) (l : list cw_category) : option nat :=
  match l with
  | [] => None
  | cat :: next => if cat_ignored cat then next_available (S i) next else Some i
  end.

Definition next_available_category (config : cw_config) (i : nat) : option nat :=
  next_available i (drop i (cf_cats config)).

(** The place behind a category, if there is a category. *)
Definition cat_next (config : cw_config) (i : nat) : option nat :=
  if bool_decide (S i < length (cf_cats config))%nat then Some (S i) else None.

Definition browse_from (config : cw_config) (prev : option cat_ref) : option nat :=
  match prev with
  | None => if bool_decide (cf_cats config = []) then None else Some 0%nat
  | Some r =>
    let by_text := fst <$> list_find (fun cat => strcaseeq (cat_name cat) (ref_text config r)) (cf_cats config) in
    match r with
    | NameOf i =>
      if bool_decide (cf_last_browse config = Some i) then cat_next config i
      else
        match cat_next config i with
        | Some j => Some j
        | None => by_text ≫= cat_next config
        end
    | Text _ => by_text ≫= cat_next config
    end
  end.

Definition cw_category_browse (config : cw_config) (prev : option cat_ref) : option nat * cw_config :=
  let cat := browse_from config prev ≫= next_available_category config in
  (cat, config <| cf_last_browse := cat |>).

Definition cw_variable_browse (config : cw_config) (category : cat_ref) : list cw_variable :=
  let cat :=
    match category with
    | NameOf i => if bool_decide (cf_last_browse config = Some i) then Some i
                  else cw_category_get config category
    | Text _ => cw_category_get config category
    end in
  from_option cat_vars [] (cat ≫= fun i => cf_cats config !! i).

Definition find_variable (variable : string) (l : list cw_variable) : option string :=
  v_value <$> List.find (fun v => strcaseeq variable (v_name v)) l.

Definition cw_variable_retrieve (config : cw_config) (category : option cat_ref) (variable : string)
    : option string :=
  match category with
  | Some category => find_variable variable (cw_variable_browse config category)
  | None => find_variable variable (concat (cat_vars <$> cf_cats config))
  end.

(** ** Configurations *)

Definition MAX_INCLUDE_LEVEL : Z := 10.

Definition cw_config_new (mem : bool) : option cw_config :=
  if mem then Some {| cf_cats := []; cf_current := None; cf_last_browse := None;
                      cf_include_level := 0; cf_max_include_level := MAX_INCLUDE_LEVEL;
                      cf_freed := false |}
  else None.

(** Freeing twice is a bad access. *)
Definition cw_config_destroy (cfg : cw_config) : run cw_config :=
  if cf_freed cfg then Crashes else Returns (cfg <| cf_freed := true |>).

Definition cw_config_get_current_category (cfg : cw_config) : option nat := cf_current cfg.

Definition cw_config_set_current_category (cfg : cw_config) (cat : option nat) : cw_config :=
  cfg <| cf_current := cat |>.

(** ** Browsing reaches every category *)

(** The loop of the modules: each category by the name of the one before, and
    its variables. *)
Fixpoint browse_all (fuel : nat) (config : cw_config) (prev : option cat_ref)
    : list (nat * list cw_variable) :=
  match fuel with
  | O => []
  | S fuel =>
    match cw_category_browse config prev with
    | (Some i, config) =>
      (i, cw_variable_browse config (NameOf i)) :: browse_all fuel config (Some (NameOf i))
    | (None, _) => []
    end
  end.

Fixpoint visible (i : nat) (l : list cw_category) : list (nat * list cw_variable) :=
  match l with
  | [] => []
  | cat :: l => if cat_ignored cat then visible (S i) l else (i, cat_vars cat) :: visible (S i) l
  end.

Lemma next_available_visible i l :
  visible i l =
    match next_available i l with
    | Some j => (j, from_option cat_vars [] (l !! (j - i)%nat)) :: visible (S j) (drop (S j - i) l)
    | None => []
    end /\
  (forall j, next_available i l = Some j -> (i <= j < i + length l)%nat).
Proof.
  revert i. induction l as [|cat l IH]; intros i; [done|]. cbn [next_available visible].
  destruct (cat_ignored cat).
  - destruct (IH (S i)) as [E B]. split.
    + rewrite E. destruct (next_available (S i) l) as [j|]; [|done].
      specialize (B j eq_refl). replace (S j - i)%nat with (S (S j - S i))%nat by lia.
      replace (j - i)%nat with (S (j - S i))%nat by lia. done.
    + intros j Hj. specialize (B j Hj). simpl. lia.
  - split; [|intros j [= <-]; simpl; lia].
    by rewrite Nat.sub_diag, Nat.sub_succ_l, Nat.sub_diag by lia.
Qed.

Lemma browse_step config (i : nat) fuel :
  cf_last_browse config = Some i -> (i < length (cf_cats config))%nat ->
  (length (cf_cats config) - i <= fuel)%nat ->
  browse_all fuel config (Some (NameOf i)) = visible (S i) (drop (S i) (cf_cats config)).
Proof.
  revert config i. induction fuel as [|fuel IH]; intros config i Hb Hi Hf; [lia|].
  cbn [browse_all]. unfold cw_category_browse, browse_from. rewrite bool_decide_true by done.
  unfold cat_next. case_bool_decide as Hn.
  2: { cbn. by rewrite drop_ge by lia. }
  cbn [mbind option_bind]. unfold next_available_category.
  destruct (next_available_visible (S i) (drop (S i) (cf_cats config))) as [-> B].
  destruct (next_available _ _) as [j|] eqn:E; [|done].
  specialize (B j eq_refl). rewrite length_drop in B.
  rewrite IH by (simpl; done || simpl; lia). cbn [cf_cats upd].
  unfold cw_variable_browse. rewrite bool_decide_true by done. cbn [mbind option_bind].
  rewrite lookup_drop, drop_drop. simpl cf_cats.
  replace (S i + (j - S i))%nat with j by lia.
  by replace (S i + (S j - S i))%nat with (S j) by lia.
Qed.

(** Going from name to name, as every module reads its configuration, visits
    each category that is not a template once, in the order of the file, with
    its own variables, also where several have one name; and it ends. *)
Theorem categories_browsed config fuel :
  (length (cf_cats config) < fuel)%nat ->
  browse_all fuel config None = visible 0 (cf_cats config).
Proof.
  intros Hf. destruct fuel as [|fuel]; [lia|]. cbn [browse_all].
  unfold cw_category_browse, browse_from. case_bool_decide as Hc.
  { cbn. by rewrite Hc. }
  cbn [mbind option_bind]. unfold next_available_category. rewrite drop_0.
  destruct (next_available_visible 0 (cf_cats config)) as [-> B].
  destruct (next_available 0 (cf_cats config)) as [j|]; [|done].
  specialize (B j eq_refl). rewrite browse_step by (simpl; done || simpl; lia). simpl cf_cats.
  unfold cw_variable_browse. rewrite bool_decide_true by done. cbn [mbind option_bind].
  by rewrite !Nat.sub_0_r.
Qed.

Definition a_category (name : string) (ignored : bool) (value : string) : cw_category :=
  {| cat_name := name; cat_ignored := ignored;
     cat_vars := [{| v_name := "host"; v_value := value; v_lineno := 1; v_object := false;
                     v_blanklines := 0%nat; v_sameline := None |}];
     cat_stale := false |}.

Definition a_config (last_browse : option nat) : cw_config :=
  {| cf_cats := [a_category "peer" false "one"; a_category "template" true "none";
                 a_category "other" false "two"; a_category "Peer" false "three"];
     cf_current := Some 3%nat; cf_last_browse := last_browse; cf_include_level := 0;
     cf_max_include_level := MAX_INCLUDE_LEVEL; cf_freed := false |}.

Lemma categories_browsed_witness :
  (length (cf_cats (a_config None)) < 5)%nat /\
  browse_all 5 (a_config None) None = visible 0 (cf_cats (a_config None)) /\
  (fst <$> visible 0 (cf_cats (a_config None))) = [0; 2; 3]%nat.
Proof.
  split; [vm_compute; lia|]. split; [|reflexivity].
  apply (categories_browsed (a_config None) 5). vm_compute. lia.
Defined.

(** Another loop in between moves the cache on: behind the last category the
    search by its name then finds the first of that name, and the loop starts
    over. *)
Example nested_browse_restarts :
  fst (cw_category_browse (a_config (Some 0%nat)) (Some (NameOf 3))) = Some 2%nat.
Proof. reflexivity. Qed.

(** A variable of a category whose variables were detached is lost. *)
Example append_after_detach v :
  cat_vars (cw_variable_append (snd (cw_category_detach_variables (a_category "peer" false "one"))) v)
  = [].
Proof. reflexivity. Qed.

(** ** Retrieval *)

Lemma find_named_app ignored name l k :
  find_named ignored name (l ++ k) =
    match find_named ignored name l with
    | Some i => Some i
    | None => (fun i => length l + i)%nat <$> find_named ignored name k
    end.
Proof.
  unfold find_named. induction l as [|cat l IH]; cbn [list_find app].
  { simpl. by destruct (list_find _ k) as [[]|]. }
  case_decide as Hd; [done|].
  destruct (list_find _ (l ++ k)) as [[i c]|] eqn:E1, (list_find _ l) as [[i' c']|] eqn:E2; simpl in *;
    simplify_eq; try done.
  - destruct (list_find _ k) as [[]|]; simpl in *; simplify_eq; done.
  - destruct (list_find _ k) as [[]|]; simpl in *; simplify_eq; done.
Qed.
