(* ===== verification/ConfigLine.v ===== *)
(** * Comments in configuration files (corelib/config.c, [config_text_file_load])

    A line of a configuration file is read into a buffer and its comments are
    taken out of it in place: what follows a semicolon, and what is between
    [;--] and [--;], which nest and may go over several lines; a semicolon behind
    a backslash stands for itself.  The loop here works on the bytes of the
    buffer with the source's three pointers into it.  It is shown to do what a
    scanner does that reads the line once from left to right.

    [comment] is the depth of comments around the line.  Writes outside the
    buffer, or to [nest] outside its 128 entries, are crashes. *)

From S2P Require Import Prelude CStr Utils CallerId Config.
Open Scope Z_scope.

Definition MAX_NESTED_COMMENTS : Z := 128.
Definition COMMENT_META : ascii := ";".
Definition COMMENT_TAG : ascii := "-".

(** ** The buffer of a line *)

Record line_state := {
  ls_buf : list ascii; ls_new : nat; ls_process : option nat; ls_comment : Z }.

#[export] Instance line_state_eta : Eta line_state :=
  fun s => {| ls_buf := ls_buf s; ls_new := ls_new s; ls_process := ls_process s;
              ls_comment := ls_comment s |}.

(** [strchr] and [strlen] from an index on; [None] without a terminator. *)
Fixpoint strchr_from (c : ascii) (l : list ascii) : option (option nat) :=
  match l with
  | [] => None
  | d :: l =>
    if code d =? 0 then Some None
    else if char_eqb d c then Some (Some 0%nat)
    else match strchr_from c l with Some (Some k) => Some (Some (S k)) | r => r end
  end.

Fixpoint strlen_from (l : list ascii) : option nat :=
  match l with
  | [] => None
  | d :: l => if code d =? 0 then Some 0%nat else S <$> strlen_from l
  end.

Definition memmove (dst src n : nat) (l : list ascii) : option (list ascii) :=
  if bool_decide (dst + n <= length l /\ src + n <= length l)%nat
  then Some (take dst l ++ take n (drop src l) ++ drop (dst + n) l)
  else None.

Definition at_char (l : list ascii) (i : nat) (c : ascii) : bool :=
  match l !! i with Some d => char_eqb d c | None => false end.

(** ** One semicolon

    [p] is the index of the semicolon, [comment_p]. *)

Definition unescape (p : nat) (s : line_state) : option line_state :=
  n ← strlen_from (drop p (ls_buf s));
  l ← memmove (p - 1) p (S n) (ls_buf s);
  Some (s <| ls_buf := l |> <| ls_new := p |>).

(** At the limit the loop comes back to the semicolon it is at. *)
Definition comment_starts (p : nat) (s : line_state) : option line_state :=
  if ls_comment s <? MAX_NESTED_COMMENTS then
    if 0 <=? ls_comment s then
      Some (s <| ls_buf := <[p := NUL]> (ls_buf s) |> <| ls_new := (p + 3)%nat |>
              <| ls_comment := ls_comment s + 1 |>)
    else None
  else Some s.

Definition comment_ends (p : nat) (s : line_state) : option line_state :=
  let s := s <| ls_comment := ls_comment s - 1 |> <| ls_new := S p |> in
  if ls_comment s =? 0 then
    match ls_process s with
    | Some process_buf =>
      k ← strlen_from (drop process_buf (ls_buf s));
      let oldptr := (process_buf + k)%nat in
      n ← strlen_from (drop (ls_new s) (ls_buf s));
      l ← memmove oldptr (ls_new s) (S n) (ls_buf s);
      Some (s <| ls_buf := l |> <| ls_new := oldptr |>)
    | None => Some (s <| ls_process := Some (ls_new s) |>)
    end
  else Some s.

Definition semicolon (p : nat) (s : line_state) : option line_state :=
  let l := ls_buf s in
  if bool_decide (ls_new s < p)%nat && at_char l (p - 1) "\" then unescape p s
  else if at_char l (p + 1) COMMENT_TAG && at_char l (p + 2) COMMENT_TAG
          && negb (at_char l (p + 3) "-") then comment_starts p s
  else if bool_decide (ls_new s + 2 <= p)%nat
          && at_char l (p - 1) COMMENT_TAG && at_char l (p - 2) COMMENT_TAG then comment_ends p s
  else if ls_comment s =? 0 then Some (s <| ls_buf := <[p := NUL]> l |> <| ls_new := p |>)
  else Some (s <| ls_new := S p |>).

Fixpoint comment_loop (fuel : nat) (s : line_state) : run line_state :=
  match fuel with
  | O => Hangs
  | S fuel =>
    match strchr_from COMMENT_META (drop (ls_new s) (ls_buf s)) with
    | None => Crashes
    | Some None => Returns s
    | Some (Some k) =>
      match semicolon (ls_new s + k) s with
      | Some s => comment_loop fuel s
      | None => Crashes
      end
    end
  end.

(** The text that is left of a line, if any is left to process, and the depth
    behind it. *)
Definition strip_comments (comment : Z) (line : string) : run (option string * Z) :=
  let buf := buffer line in
  s ← comment_loop (S (length buf))
        {| ls_buf := buf; ls_new := 0;
           ls_process := if comment =? 0 then Some 0%nat else None; ls_comment := comment |};
  Returns ((fun p => cstring (drop p (ls_buf s))) <$> ls_process s, ls_comment s).

Example comments_ex :
  strip_comments 0 "a ;-- b ;-- c --; d --; e \; f ; g" = Returns (Some "a  e ; f ", 0).
Proof. vm_compute. reflexivity. Qed.

Example comments_ex2 : strip_comments 2 "b --; c --;d" = Returns (Some "d", 0).
Proof. vm_compute. reflexivity. Qed.

(** ** What the loop is for

    One reading of the line, with the depth of comments as the only state.
    [None] is for an end of a comment outside of any, and for a comment too
    deep. *)

Definition starts_comment (r : list ascii) : bool :=
  match r with
  | a :: b :: t =>
    char_eqb a COMMENT_TAG && char_eqb b COMMENT_TAG
    && match t with c :: _ => negb (char_eqb c "-") | [] => true end
  | _ => false
  end.

(** Text that is read is text of the line outside of comments. *)
Definition keep (d : nat) (l : list ascii) (x : option (list ascii * nat)) : option (list ascii * nat) :=
  '(o, d') ← x; Some (match d with O => l ++ o | S _ => o end, d').

Fixpoint scan_line (d : nat) (s : list ascii) : option (list ascii * nat) :=
  match s with
  | [] => Some ([], d)
  | c :: r =>
    if char_eqb c COMMENT_META then
      if starts_comment r then
        match r with
        | _ :: _ :: t => if Z.of_nat d <? MAX_NESTED_COMMENTS then scan_line (S d) t else None
        | _ => None
        end
      else match d with O => Some ([], O) | S _ => scan_line d r end
    else
      match r with
      | [] => keep d [c] (scan_line d r)
      | b :: t =>
        if char_eqb c "\" && char_eqb b COMMENT_META then keep d [COMMENT_META] (scan_line d t)
        else
          match t with
          | [] => keep d [c] (scan_line d r)
          | e :: u =>
            if char_eqb c COMMENT_TAG && char_eqb b COMMENT_TAG && char_eqb e COMMENT_META
               && negb (starts_comment u)
            then match d with O => None | S d => scan_line d u end
            else keep d [c] (scan_line d r)
          end
      end
  end.

Definition no_meta (l : list ascii) : Prop := Forall (fun c => char_eqb c COMMENT_META = false) l.

Lemma keep_keep d l k x : keep d l (keep d k x) = keep d (l ++ k) x.
Proof. destruct x as [[o d']|], d; [simpl|done..]. by rewrite app_assoc. Qed.

Lemma keep_nil d x : keep d [] x = x.
Proof. by destruct x as [[o d']|], d. Qed.

(** Characters with two more in front of the next semicolon are kept as they are. *)
Lemma scan_prefix d seg a b t :
  no_meta seg -> char_eqb a COMMENT_META = false -> char_eqb b COMMENT_META = false ->
  scan_line d (seg ++ a :: b :: t) = keep d seg (scan_line d (a :: b :: t)).
Proof.
  intros Hs Ha Hb. induction Hs as [|c seg Hc Hs IH]; [by rewrite keep_nil|].
  rewrite <- (keep_keep d [c] seg), <- IH.
  assert (E : exists x y w, seg ++ a :: b :: t = x :: y :: w /\
    char_eqb x COMMENT_META = false /\ char_eqb y COMMENT_META = false).
  { destruct seg as [|x [|y seg]]; simpl; [by eauto 8|..].
    - inversion Hs; subst. eauto 8.
    - inversion Hs as [|? ? Hx H2]; inversion H2; subst. eauto 8. }
  destruct E as (x & y & w & E & Hx & Hy). simpl app. rewrite E. cbn [scan_line].
  by rewrite Hc, Hx, Hy, !andb_false_r.
Qed.

Definition ends_escape (seg : list ascii) : bool :=
  match last seg with Some c => char_eqb c "\" | None => false end.

Definition ends_tags (seg : list ascii) : bool :=
  match rev seg with a :: b :: _ => char_eqb a COMMENT_TAG && char_eqb b COMMENT_TAG | _ => false end.

Lemma scan_meta d r : scan_line d (COMMENT_META :: r) =
  if starts_comment r then if Z.of_nat d <? MAX_NESTED_COMMENTS then scan_line (S d) (drop 2 r) else None
  else match d with O => Some ([], O) | S _ => scan_line d r end.
Proof.
  cbn [scan_line]. rewrite char_eqb_refl. destruct r as [|a [|b t]]; [done..|].
  by destruct (starts_comment _).
Qed.

Lemma scan_last d b r : char_eqb b COMMENT_META = false ->
  scan_line d (b :: COMMENT_META :: r) =
    if char_eqb b "\" then keep d [COMMENT_META] (scan_line d r) else keep d [b] (scan_line d (COMMENT_META :: r)).
Proof.
  intros Hb. cbn [scan_line]. rewrite Hb, char_eqb_refl, andb_true_r.
  destruct (char_eqb b "\"); [done|].
  destruct r as [|e u]; [done|].
  change (char_eqb COMMENT_META COMMENT_TAG) with false. by rewrite andb_false_r.
Qed.

Lemma tag_not_escape c : char_eqb c COMMENT_TAG = true -> char_eqb c "\" = false.
Proof. intros ->%char_eqb_eq. done. Qed.

(** The scanner at the first semicolon of the rest of a line. *)
Lemma scan_segment d seg r : no_meta seg ->
  scan_line d (seg ++ COMMENT_META :: r) =
    if ends_escape seg then keep d (removelast seg ++ [COMMENT_META]) (scan_line d r)
    else if starts_comment r
    then keep d seg (if Z.of_nat d <? MAX_NESTED_COMMENTS then scan_line (S d) (drop 2 r) else None)
    else if ends_tags seg then match d with O => None | S d' => scan_line d' r end
    else keep d seg (match d with O => Some ([], O) | S _ => scan_line d r end).
Proof.
  intros H. destruct seg as [|b seg _] using rev_ind.
  { rewrite keep_nil, keep_nil. simpl app. rewrite scan_meta. by destruct (starts_comment r). }
  apply Forall_app in H as [H Hb]. inversion Hb as [|? ? Hb' _]; subst. clear Hb.
  unfold ends_escape, ends_tags. rewrite last_snoc, rev_app_distr, removelast_last. simpl (rev [b] ++ _).
  destruct seg as [|a seg _] using rev_ind.
  { simpl app. rewrite scan_last by done. destruct (char_eqb b "\"); [done|].
    rewrite scan_meta. by destruct (starts_comment r). }
  apply Forall_app in H as [H Ha]. inversion Ha as [|? ? Ha' _]; subst. clear Ha.
  rewrite rev_app_distr. simpl (rev [a] ++ _). rewrite <- !app_assoc. simpl app.
  rewrite scan_prefix by done. cbn beta iota.
  assert (E : scan_line d (a :: b :: COMMENT_META :: r) =
    if char_eqb b COMMENT_TAG && char_eqb a COMMENT_TAG && negb (starts_comment r)
    then match d with O => None | S d => scan_line d r end
    else keep d [a] (scan_line d (b :: COMMENT_META :: r))).
  { cbn [scan_line]. rewrite Ha', Hb', char_eqb_refl, andb_false_r, !andb_true_r.
    by rewrite (andb_comm (char_eqb a _)). }
  rewrite E, scan_last, scan_meta by done. clear E.
  destruct (char_eqb b "\") eqn:Eb.
  { destruct (char_eqb b COMMENT_TAG) eqn:Et; [by rewrite tag_not_escape in Eb|].
    simpl andb. cbn iota. by rewrite !keep_keep, <- ?app_assoc. }
  destruct (starts_comment r); cbn [negb].
  { rewrite andb_false_r. by rewrite !keep_keep, <- ?app_assoc. }
  rewrite andb_true_r. destruct (char_eqb b COMMENT_TAG && char_eqb a COMMENT_TAG).
  { destruct d; [done|]. by destruct (scan_line d r) as [[]|]. }
  by rewrite !keep_keep, <- ?app_assoc.
Qed.

(** ** The loop on the buffer *)

Definition nonzero (l : list ascii) : Prop := Forall (fun c => code c <> 0) l.

Lemma strlen_from_app l junk : nonzero l -> strlen_from (l ++ NUL :: junk) = Some (length l).
Proof.
  induction 1 as [|c l Hc _ IH]; [done|]. cbn [strlen_from app]. apply Z.eqb_neq in Hc. by rewrite Hc, IH.
Qed.

Lemma strchr_from_none c l junk : nonzero l -> Forall (fun d => char_eqb d c = false) l ->
  strchr_from c (l ++ NUL :: junk) = Some None.
Proof.
  induction 1 as [|d l Hd _ IH]; intros H; [done|]. inversion H; subst. cbn [strchr_from app].
  apply Z.eqb_neq in Hd. by rewrite Hd, H2, IH.
Qed.

Lemma strchr_from_some c l t : code c <> 0 -> nonzero l -> Forall (fun d => char_eqb d c = false) l ->
  strchr_from c (l ++ c :: t) = Some (Some (length l)).
Proof.
  intros Hc. apply Z.eqb_neq in Hc. induction 1 as [|d l Hd _ IH]; intros H.
  { cbn [strchr_from app]. by rewrite Hc, char_eqb_refl. }
  inversion H; subst. cbn [strchr_from app]. apply Z.eqb_neq in Hd. by rewrite Hd, H2, IH.
Qed.

Lemma at_char_app l k i c : at_char (l ++ k) (length l + i) c = at_char k i c.
Proof.
  unfold at_char. rewrite lookup_app_r by lia. by replace (length l + i - length l)%nat with i by lia.
Qed.

Lemma memmove_left a b c d : memmove (length a) (length a + length b) (length c) (a ++ b ++ c ++ d)
  = Some (a ++ c ++ drop (length c) (b ++ c ++ d)).
Proof.
  unfold memmove. rewrite bool_decide_true by (rewrite !length_app; lia).
  rewrite take_app_length, <- drop_drop, drop_app_length, drop_app_length, take_app_length.
  by rewrite <- drop_drop, drop_app_length.
Qed.

(** A buffer with the pointer in front of a text that ends at its terminator. *)
Section at_semicolon.
Context (base seg r junk : list ascii) (process : option nat) (comment : Z).
Hypothesis Hseg : nonzero seg.
Hypothesis Hr : nonzero r.

Definition line_at : line_state :=
  {| ls_buf := base ++ seg ++ COMMENT_META :: r ++ NUL :: junk; ls_new := length base;
     ls_process := process; ls_comment := comment |}.

Definition at_p : nat := (length base + length seg)%nat.

Lemma starts_reads :
  at_char (ls_buf line_at) (at_p + 1) COMMENT_TAG && at_char (ls_buf line_at) (at_p + 2) COMMENT_TAG
    && negb (at_char (ls_buf line_at) (at_p + 3) "-") = starts_comment r.
Proof.
  unfold at_p. simpl ls_buf. rewrite <- !Nat.add_assoc, !at_char_app.
  unfold at_char. simpl. destruct r as [|a [|b [|c t]]]; simpl; try done.
  by rewrite andb_false_r.
Qed.

Lemma escape_reads :
  bool_decide (ls_new line_at < at_p)%nat && at_char (ls_buf line_at) (at_p - 1) "\"
    = ends_escape seg.
Proof.
  unfold at_p, ends_escape. simpl ls_new. simpl ls_buf. clear Hseg Hr.
  destruct seg as [|b s _] using rev_ind; [by rewrite bool_decide_false by (simpl; lia)|].
  rewrite bool_decide_true, last_snoc by (rewrite length_app; simpl; lia).
  replace (length base + length (s ++ [b]) - 1)%nat with (length base + (length s + 0))%nat
    by (rewrite length_app; simpl; lia).
  by rewrite at_char_app, <- app_assoc, at_char_app.
Qed.

Lemma tags_reads :
  bool_decide (ls_new line_at + 2 <= at_p)%nat
    && at_char (ls_buf line_at) (at_p - 1) COMMENT_TAG
    && at_char (ls_buf line_at) (at_p - 2) COMMENT_TAG = ends_tags seg.
Proof.
  unfold at_p, ends_tags. simpl ls_new. simpl ls_buf. clear Hseg Hr.
  destruct seg as [|b s _] using rev_ind; [by rewrite bool_decide_false by (simpl; lia)|].
  destruct s as [|a s _] using rev_ind; [by rewrite bool_decide_false by (simpl; lia)|].
  rewrite bool_decide_true by (rewrite !length_app; simpl; lia).
  rewrite !rev_app_distr. simpl (rev [_] ++ _).
  replace (length base + length ((s ++ [a]) ++ [b]) - 1)%nat with (length base + (length s + 1))%nat
    by (rewrite !length_app; simpl; lia).
  replace (length base + length ((s ++ [a]) ++ [b]) - 2)%nat with (length base + (length s + 0))%nat
    by (rewrite !length_app; simpl; lia).
  by rewrite !at_char_app, <- !app_assoc, !at_char_app.
Qed.

Lemma semicolon_at :
  semicolon at_p line_at =
    if ends_escape seg then unescape at_p line_at
    else if starts_comment r then comment_starts at_p line_at
    else if ends_tags seg then comment_ends at_p line_at
    else if comment =? 0 then
      Some (line_at <| ls_buf := <[at_p := NUL]> (ls_buf line_at) |> <| ls_new := at_p |>)
    else Some (line_at <| ls_new := S at_p |>).
Proof.
  unfold semicolon. by rewrite escape_reads, starts_reads, tags_reads.
Qed.

Lemma drop_new : drop (ls_new line_at) (ls_buf line_at) = seg ++ COMMENT_META :: r ++ NUL :: junk.
Proof. apply drop_app_length. Qed.

Lemma loop_at fuel : no_meta seg ->
  comment_loop (S fuel) line_at =
    match semicolon at_p line_at with Some s => comment_loop fuel s | None => Crashes end.
Proof.
  intros H. cbn [comment_loop]. rewrite drop_new, strchr_from_some by done. done.
Qed.

(** The backslash goes; reading goes on behind the semicolon. *)
Lemma unescape_at : ends_escape seg = true ->
  exists junk', unescape at_p line_at =
    Some (line_at <| ls_buf := base ++ (removelast seg ++ [COMMENT_META]) ++ r ++ NUL :: junk' |>
                  <| ls_new := (length base + length (removelast seg ++ [COMMENT_META]))%nat |>).
Proof.
  unfold ends_escape, unescape, at_p. simpl ls_buf. clear Hseg.
  destruct seg as [|b s _] using rev_ind; [done|]. intros _. rewrite removelast_last.
  set (a := base ++ s). set (c := COMMENT_META :: r ++ [NUL]).
  assert (Hc : length c = S (length (COMMENT_META :: r))) by (subst c; simpl; rewrite length_app; simpl; lia).
  assert (Ha : (length base + length (s ++ [b]))%nat = (length a + length [b])%nat)
    by (subst a; rewrite !length_app; lia).
  assert (E : base ++ (s ++ [b]) ++ COMMENT_META :: r ++ NUL :: junk = a ++ [b] ++ c ++ junk)
    by (subst a c; rewrite <- !app_assoc; simpl; by rewrite <- !app_assoc).
  rewrite Ha, E.
  assert (Hs : strlen_from (drop (length a + length [b]) (a ++ [b] ++ c ++ junk))
    = Some (length (COMMENT_META :: r))).
  { rewrite <- drop_drop, drop_app_length, drop_app_length.
    replace (c ++ junk) with ((COMMENT_META :: r) ++ NUL :: junk)
      by (subst c; simpl; by rewrite <- app_assoc).
    apply strlen_from_app. by constructor. }
  rewrite Hs. cbn [mbind option_bind]. rewrite <- Hc.
  replace (length a + length [b] - 1)%nat with (length a) by (simpl; lia).
  rewrite memmove_left. cbn [mbind option_bind].
  set (j := drop _ _). exists j.
  replace (base ++ (s ++ [COMMENT_META]) ++ r ++ NUL :: j) with (a ++ c ++ j)
    by (subst a c; rewrite <- !app_assoc; simpl; by rewrite <- !app_assoc).
  replace (length base + length (s ++ [COMMENT_META]))%nat with (length a + length [b])%nat
    by (subst a; rewrite !length_app; simpl; lia).
  done.
Qed.
End at_semicolon.

Lemma scan_no_meta d l : no_meta l -> scan_line d l = keep d l (Some ([], d)).
Proof.
  induction 1 as [|c l Hc Hl IH]; [by destruct d|].
  rewrite <- (keep_keep d [c] l), <- IH. cbn [scan_line]. rewrite Hc.
  destruct l as [|b t]; [done|]. inversion Hl as [|? ? Hb Ht]; subst.
  rewrite Hb, andb_false_r. destruct t as [|e u]; [done|]. inversion Ht as [|? ? He _]; subst.
  by rewrite He, andb_false_r.
Qed.

Lemma split_meta l : no_meta l \/ exists seg r, l = seg ++ COMMENT_META :: r /\ no_meta seg.
Proof.
  induction l as [|c l IH]; [left; constructor|].
  destruct (char_eqb c COMMENT_META) eqn:E.
  - apply char_eqb_eq in E as ->. right. exists [], l. split; [done|constructor].
  - destruct IH as [IH|(seg & r & -> & IH)]; [left; by constructor|].
    right. exists (c :: seg), r. split; [done|by constructor].
Qed.

(** The text [out] has been read, [rest] has not. *)
Definition holds (s : line_state) (d : nat) (out rest : list ascii) : Prop :=
  exists base junk,
    ls_buf s = base ++ rest ++ NUL :: junk /\ ls_new s = length base /\ ls_comment s = Z.of_nat d /\
    match d, ls_process s with
    | O, Some pb => exists pre, base = pre ++ out /\ pb = length pre
    | O, None => False
    | S _, Some pb => exists pre gap, base = pre ++ out ++ NUL :: gap /\ pb = length pre
    | S _, None => out = []
    end.

(** The text a line is left with. *)
Definition left_over (s : line_state) : string :=
  from_option (fun p => cstring (drop p (ls_buf s))) EmptyString (ls_process s).

Lemma cstring_nul l junk : nonzero l -> cstring (l ++ NUL :: junk) = String.string_of_list_ascii l.
Proof. intros H. rewrite cstring_app by done. apply string_app_nil. Qed.

Lemma holds_left_over s d out rest : holds s d out rest -> nonzero out -> nonzero rest ->
  left_over s = String.string_of_list_ascii (match d with O => out ++ rest | S _ => out end).
Proof.
  intros (base & junk & Hb & _ & _ & H) Ho Hr. unfold left_over. rewrite Hb.
  destruct d, (ls_process s) as [pb|]; try done; simpl.
  - destruct H as (pre & -> & ->). rewrite <- app_assoc, drop_app_length, app_assoc.
    apply cstring_nul. by apply Forall_app.
  - destruct H as (pre & gap & -> & ->). rewrite <- !app_assoc, drop_app_length. simpl.
    by apply cstring_nul.
  - by subst.
Qed.

Ltac napp := simpl; repeat (rewrite <- app_assoc; simpl); done.

(** Inside of comments the base grows by what was read. *)
Lemma step_inside out seg r base junk process k n :
  (match process with
   | Some pb => exists pre gap, base = pre ++ out ++ NUL :: gap /\ pb = length pre
   | None => out = []
   end) -> k = Z.of_nat (S n) ->
  holds {| ls_buf := base ++ seg ++ COMMENT_META :: r ++ NUL :: junk;
           ls_new := S (length base + length seg); ls_process := process; ls_comment := k |}
    (S n) out r.
Proof.
  intros Hp ->. exists (base ++ seg ++ [COMMENT_META]), junk. simpl.
  rewrite !length_app, <- !app_assoc. simpl. repeat split; [lia|].
  destruct process; [|done]. destruct Hp as (pre & gap & -> & ->).
  exists pre, (gap ++ seg ++ [COMMENT_META]). split; [napp|done].
Qed.

(** The four things a semicolon does. *)
Section steps.
Context (s : line_state) (d : nat) (out seg r : list ascii).
Hypothesis Hh : holds s d out (seg ++ COMMENT_META :: r).
Hypothesis Hm : no_meta seg.
Hypothesis Ho : nonzero out.
Hypothesis Hs : nonzero seg.
Hypothesis Hr : nonzero r.

#[local] Abbreviation p := (ls_new s + length seg)%nat.

Ltac open_holds :=
  destruct Hh as (base & junk & Hb & Hn & Hc & Hp); destruct s as [buf new process comment];
  cbn [ls_buf ls_new ls_process ls_comment] in *; subst buf new comment;
  rewrite <- app_assoc; cbn [app];
  change (semicolon _ _)
    with (semicolon (at_p base seg) (line_at base seg r junk process (Z.of_nat d)));
  rewrite semicolon_at by done.

Lemma step_escape : ends_escape seg = true ->
  exists s', semicolon p s = Some s' /\
    holds s' d (match d with O => out ++ removelast seg ++ [COMMENT_META] | S _ => out end) r.
Proof.
  intros E. open_holds.
  rewrite E.
  destruct (unescape_at base seg r junk process (Z.of_nat d) Hr E) as [junk' ->].
  eexists; split; [done|].
  exists (base ++ removelast seg ++ [COMMENT_META]), junk'. simpl.
  rewrite <- !app_assoc, !length_app. repeat split. destruct d, process; try done.
  - destruct Hp as (pre & -> & ->). exists pre. split; [napp|done].
  - destruct Hp as (pre & gap & -> & ->). exists pre, (gap ++ removelast seg ++ [COMMENT_META]).
    split; [napp|done].
Qed.

Lemma step_start : ends_escape seg = false -> starts_comment r = true ->
  Z.of_nat d < MAX_NESTED_COMMENTS ->
  exists s', semicolon p s = Some s' /\
    holds s' (S d) (match d with O => out ++ seg | S _ => out end) (drop 2 r).
Proof.
  intros E1 E2 Hd. open_holds.
  rewrite E1, E2. unfold comment_starts. cbn [ls_comment line_at].
  apply Z.ltb_lt in Hd as ->. destruct (Z.leb_spec 0 (Z.of_nat d)); [|lia].
  eexists; split; [done|].
  destruct r as [|a [|b t]]; [done..|].
  exists (base ++ seg ++ [NUL; a; b]), junk. simpl. unfold at_p.
  rewrite !length_app. simpl length.
  assert (Hi : forall l, <[(length base + length seg)%nat := NUL]> (base ++ seg ++ COMMENT_META :: l)
    = base ++ seg ++ NUL :: l).
  { intros l. rewrite insert_app_r. rewrite <- (Nat.add_0_r (length seg)), insert_app_r. done. }
  split; [rewrite Hi, <- !app_assoc; done|]. split; [lia|]. split; [lia|].
  destruct d, process; try done.
  - destruct Hp as (pre & -> & ->). exists pre, [a; b]. split; [napp|done].
  - destruct Hp as (pre & gap & -> & ->). exists pre, (gap ++ seg ++ [NUL; a; b]).
    split; [napp|done].
Qed.

Lemma step_end n : ends_escape seg = false -> starts_comment r = false -> ends_tags seg = true ->
  d = S n -> exists s', semicolon p s = Some s' /\ holds s' n out r.
Proof.
  intros E1 E2 E3 Ed. open_holds.
  rewrite E1, E2, E3. rewrite Ed in *.
  unfold comment_ends. simpl ls_comment. simpl ls_process.
  destruct (Z.eqb_spec (Z.of_nat (S n) - 1) 0) as [Hz|Hz].
  2: { eexists; split; [done|]. destruct n as [|n]; [lia|]. apply step_inside; [done|]; change (Z.of_nat (S (S n)) - 1 = Z.of_nat (S n)); lia. }
  assert (n = 0%nat) as -> by lia. simpl ls_new. simpl ls_buf. unfold at_p.
  destruct process as [pb|].
  2: { subst out. eexists; split; [done|]. exists (base ++ seg ++ [COMMENT_META]), junk. simpl.
       rewrite !length_app, <- !app_assoc. simpl. repeat split; [lia|].
       exists (base ++ seg ++ [COMMENT_META]). rewrite !length_app, app_nil_r. simpl. split; [done|lia]. }
  destruct Hp as (pre & gap & -> & ->).
  set (b := NUL :: gap ++ seg ++ [COMMENT_META]).
  assert (E : (pre ++ out ++ NUL :: gap) ++ seg ++ COMMENT_META :: r ++ NUL :: junk
    = (pre ++ out) ++ b ++ (r ++ [NUL]) ++ junk).
  { subst b. napp. }
  assert (Hl : S (length (pre ++ out ++ NUL :: gap) + length seg) = (length (pre ++ out) + length b)%nat).
  { subst b. rewrite !length_app. simpl. rewrite !length_app. simpl. lia. }
  rewrite Hl, E.
  assert (H1 : strlen_from (drop (length pre) ((pre ++ out) ++ b ++ (r ++ [NUL]) ++ junk))
    = Some (length out)).
  { rewrite <- app_assoc, drop_app_length. subst b. by apply strlen_from_app. }
  assert (H2 : strlen_from (drop (length (pre ++ out) + length b) ((pre ++ out) ++ b ++ (r ++ [NUL]) ++ junk))
    = Some (length r)).
  { rewrite <- drop_drop, !drop_app_length, <- app_assoc. by apply strlen_from_app. }
  rewrite H1. cbn [mbind option_bind]. rewrite H2. cbn [mbind option_bind].
  rewrite <- length_app. replace (S (length r)) with (length (r ++ [NUL])) by (rewrite length_app; simpl; lia).
  rewrite memmove_left. cbn [mbind option_bind]. eexists; split; [done|].
  eexists (pre ++ out), _. simpl. split; [by rewrite <- (app_assoc r)|]. split; [done|].
  split; [lia|]. by exists pre.
Qed.

Lemma step_skip n : ends_escape seg = false -> starts_comment r = false -> ends_tags seg = false ->
  d = S n -> exists s', semicolon p s = Some s' /\ holds s' (S n) out r.
Proof.
  intros E1 E2 E3 Ed. open_holds.
  rewrite E1, E2, E3. rewrite Ed in *.
  destruct (Z.eqb_spec (Z.of_nat (S n)) 0); [lia|]. eexists; split; [done|].
  apply step_inside; done.
Qed.

Lemma step_cut : ends_escape seg = false -> starts_comment r = false -> ends_tags seg = false ->
  d = O -> exists s', semicolon p s = Some s' /\ holds s' O (out ++ seg) [].
Proof.
  intros E1 E2 E3 Ed. open_holds.
  rewrite E1, E2, E3. rewrite Ed in *. eexists; split; [done|].
  exists (base ++ seg), (r ++ NUL :: junk). simpl. unfold at_p. rewrite length_app.
  rewrite insert_app_r, <- (Nat.add_0_r (length seg)), insert_app_r, <- !app_assoc, Nat.add_0_r.
  repeat split. destruct process; [|done]. destruct Hp as (pre & -> & ->).
  exists pre. split; [napp|done].
Qed.
End steps.

Lemma keep_some d l x o d' : keep d l x = Some (o, d') ->
  exists o', x = Some (o', d') /\ o = match d with O => l ++ o' | S _ => o' end.
Proof. destruct x as [[o' k]|]; [|done]. simpl. intros [= <- <-]. eauto. Qed.

Lemma holds_find s d out seg r : holds s d out (seg ++ COMMENT_META :: r) -> no_meta seg -> nonzero seg ->
  strchr_from COMMENT_META (drop (ls_new s) (ls_buf s)) = Some (Some (length seg)).
Proof.
  intros (base & junk & -> & -> & _) Hm Hs. rewrite drop_app_length, <- app_assoc. simpl app.
  by rewrite strchr_from_some.
Qed.

Lemma nonzero_removelast l : nonzero l -> nonzero (removelast l).
Proof.
  intros H. destruct l as [|c l _] using rev_ind; [done|]. rewrite removelast_last.
  by apply Forall_app in H as [? _].
Qed.

Lemma loop_scans n rest s d out o d' fuel :
  (length rest <= n)%nat -> holds s d out rest -> nonzero rest -> nonzero out ->
  scan_line d rest = Some (o, d') -> (length rest < fuel)%nat ->
  exists s', comment_loop fuel s = Returns s' /\ ls_comment s' = Z.of_nat d' /\
    left_over s' = String.string_of_list_ascii (out ++ o).
Proof.
  revert rest s d out o d' fuel. induction n as [n IH] using lt_wf_ind.
  intros rest s d out o d' fuel Hn Hh Hr Ho Hsc Hf.
  destruct fuel as [|fuel]; [lia|]. cbn [comment_loop].
  destruct (split_meta rest) as [Hm|(seg & r & -> & Hm)].
  { rewrite scan_no_meta in Hsc by done. apply keep_some in Hsc as (o' & [= <- <-] & ->).
    exists s. split; [|split; [by destruct Hh as (?&?&?&?&?&?)|]].
    - destruct Hh as (base & junk & -> & -> & _). rewrite drop_app_length.
      by rewrite strchr_from_none.
    - rewrite (holds_left_over s d out rest) by done. by destruct d; rewrite ?app_nil_r. }
  apply Forall_app in Hr as [Hs Hr]. inversion Hr as [|? ? _ Hr']; subst. clear Hr. rename Hr' into Hr.
  rewrite (holds_find s d out seg r) by done.
  rewrite length_app in Hn, Hf. simpl length in Hn, Hf.
  rewrite scan_segment in Hsc by done.
  destruct (ends_escape seg) eqn:E1.
  { edestruct (step_escape s d out seg r) as (s' & -> & Hh'); [done..|].
    apply keep_some in Hsc as (o' & Hsc & ->).
    destruct (IH (length r) ltac:(lia) r s' d _ o' d' fuel ltac:(lia) Hh' Hr) as (s'' & El0 & Ec & El);
      [|done|lia|].
    - destruct d; [|done]. repeat apply Forall_app_2; [done|by apply nonzero_removelast|].
      by repeat constructor.
    - exists s''. rewrite El. split; [done|]. split; [done|]. destruct d; [|done].
      by rewrite <- !app_assoc. }
  destruct (starts_comment r) eqn:E2.
  { apply keep_some in Hsc as (o' & Hsc & ->). case_if_in Hsc; [|done]. b2p.
    edestruct (step_start s d out seg r) as (s' & -> & Hh'); [done..|].
    assert (length (drop 2 r) <= length r)%nat by (rewrite length_drop; lia).
    destruct (IH (length r) ltac:(lia) (drop 2 r) s' (S d) _ o' d' fuel ltac:(lia) Hh')
      as (s'' & El0 & Ec & El); [by apply Forall_drop| |done|lia|].
    - destruct d; [|done]. by apply Forall_app_2.
    - exists s''. rewrite El. split; [done|]. split; [done|]. destruct d; [|done].
      by rewrite <- !app_assoc. }
  destruct (ends_tags seg) eqn:E3.
  { destruct d as [|d]; [done|].
    edestruct (step_end s (S d) out seg r) as (s' & -> & Hh'); [done..|].
    apply (IH (length r) ltac:(lia) r s' d out o d' fuel); auto; lia. }
  apply keep_some in Hsc as (o' & Hsc & ->). destruct d as [|d].
  - injection Hsc as <- <-.
    edestruct (step_cut s 0 out seg r) as (s' & -> & Hh'); [done..|].
    destruct (IH 0%nat ltac:(lia) [] s' 0%nat (out ++ seg) [] 0%nat fuel ltac:(simpl; lia) Hh'
      ltac:(constructor) ltac:(by apply Forall_app_2) eq_refl ltac:(simpl; lia))
      as (s'' & El0 & Ec & El).
    exists s''. rewrite El, !app_nil_r. done.
  - edestruct (step_skip s (S d) out seg r) as (s' & -> & Hh'); [done..|].
    apply (IH (length r) ltac:(lia) r s' (S d) out o' d' fuel); auto; lia.
Qed.

Lemma nul_free_list s : nul_free s = true -> nonzero (String.list_ascii_of_string s).
Proof.
  unfold nul_free. induction s as [|c s IH]; [constructor|]. cbn [all_chars].
  intros [Hc Hs]%andb_true_iff. constructor; [|by apply IH]. by apply negb_true_iff, Z.eqb_neq in Hc.
Qed.

(** C28: for a line without a NUL in which comments are nested no deeper than 128 and none
    is ended that was not begun ([scan_line] reads it), the comments are taken out of
    its buffer as that reading from left to right leaves them out: nested ones, ones that
    began on a line before or go on on the next, and escaped semicolons; what is left of
    the line is put together in place, and the loop ends.  Other lines make it hang
    ([too_deep_hangs]) or swallow what follows ([stray_end_swallows]). *)
Theorem comments_removed d line out d' :
  nul_free line = true -> scan_line d (String.list_ascii_of_string line) = Some (out, d') ->
  exists left, strip_comments (Z.of_nat d) line = Returns (left, Z.of_nat d') /\
    default EmptyString left = String.string_of_list_ascii out.
Proof.
  intros Hn Hs. apply nul_free_list in Hn. unfold strip_comments, buffer.
  set (l := String.list_ascii_of_string line) in *.
  destruct (loop_scans (length l) l
    {| ls_buf := l ++ [NUL]; ls_new := 0;
       ls_process := if Z.of_nat d =? 0 then Some 0%nat else None; ls_comment := Z.of_nat d |}
    d [] out d' (S (length (l ++ [NUL])))) as (s' & E & Ec & El); auto.
  - exists [], []. simpl. split; [done|]. split; [done|]. split; [done|].
    destruct d; simpl; [by exists []|done].
  - constructor.
  - rewrite length_app. simpl. lia.
  - rewrite E. cbn [mbind run_bind]. rewrite Ec. eexists. split; [done|].
    unfold left_over in El. simpl in El. rewrite <- El. by destruct (ls_process s').
Qed.

Lemma comments_removed_witness :
  nul_free "a ;-- b ;-- c --; d --; e \; f ; g" = true /\
  exists left, strip_comments 0 "a ;-- b ;-- c --; d --; e \; f ; g" = Returns (left, 0) /\
    default EmptyString left = "a  e ; f "%string.
Proof.
  split; [reflexivity|].
  exact (comments_removed 0 "a ;-- b ;-- c --; d --; e \; f ; g"
           (String.list_ascii_of_string "a  e ; f ") 0 eq_refl eq_refl).
Defined.

(** ** Where it fails *)

(** A text without terminators and semicolons, and without a backslash at its
    end. *)
Definition plain_text (s : string) : bool :=
  nul_free s && lacks COMMENT_META s && negb (ends_escape (String.list_ascii_of_string s)).

Lemma list_of_append (s t : string) :
  String.list_ascii_of_string (s +:+ t)
  = String.list_ascii_of_string s ++ String.list_ascii_of_string t.
Proof. induction s as [|c s IH]; [done|]. rewrite string_cons_app. simpl. by rewrite IH. Qed.

Lemma lacks_list s : lacks COMMENT_META s = true -> no_meta (String.list_ascii_of_string s).
Proof.
  induction s as [|c s IH]; [constructor|]. rewrite lacks_cons.
  intros [Hc Hs]%andb_true_iff. constructor; [|by apply IH]. by apply negb_true_iff in Hc.
Qed.

Lemma plain_list s : plain_text s = true ->
  let l := String.list_ascii_of_string s in nonzero l /\ no_meta l /\ ends_escape l = false.
Proof.
  unfold plain_text. intros [[Hn Hl]%andb_true_iff He]%andb_true_iff. split; [by apply nul_free_list|].
  split; [by apply lacks_list|]. by apply negb_true_iff in He.
Qed.

Lemma drop_behind (l k : list ascii) c : drop (S (length l)) (l ++ c :: k) = k.
Proof. by induction l. Qed.

(** A line in front of its first semicolon. *)
Lemma strip_at d seg r :
  let l := String.list_ascii_of_string seg in let k := String.list_ascii_of_string r in
  nonzero l -> no_meta l ->
  strip_comments d (seg +:+ String COMMENT_META r) =
    (s ← match semicolon (at_p [] l)
                 (line_at [] l k [] (if d =? 0 then Some 0%nat else None) d) with
         | Some s => comment_loop (length l + S (length k) + 1) s
         | None => Crashes
         end;
     Returns ((fun p => cstring (drop p (ls_buf s))) <$> ls_process s, ls_comment s)).
Proof.
  intros l k Hl Hm. unfold strip_comments.
  assert (E : buffer (seg +:+ String COMMENT_META r) = [] ++ l ++ COMMENT_META :: k ++ [NUL])
    by (unfold buffer; rewrite list_of_append; subst l k; napp).
  rewrite E.
  replace (length ([] ++ l ++ COMMENT_META :: k ++ [NUL])) with (length l + S (length k) + 1)%nat
    by (simpl; rewrite !length_app; simpl; rewrite length_app; simpl; lia).
  change (comment_loop ?f {| ls_buf := _; ls_new := 0; ls_process := ?pr; ls_comment := _ |})
    with (comment_loop f (line_at [] l k [] pr d)).
  by rewrite loop_at.
Qed.

(** The end of a comment outside of any takes the depth below zero, where lines
    are left out until one starts a comment, which then is noted in front of the
    array of line numbers. *)
Theorem stray_end_swallows before behind line :
  plain_text before = true -> plain_text behind = true -> plain_text line = true ->
  starts_comment (String.list_ascii_of_string behind) = false ->
  (exists left, strip_comments 0 (before +:+ "--;" +:+ behind) = Returns (left, -1)) /\
  strip_comments (-1) line = Returns (None, -1) /\
  strip_comments (-1) (line +:+ ";--") = Crashes.
Proof.
  intros (Hb0 & Hb1 & Hb2)%plain_list (Hr0 & Hr1 & Hr2)%plain_list (Hl0 & Hl1 & Hl2)%plain_list Hs.
  split; [|split].
  - replace (before +:+ "--;" +:+ behind)%string with ((before +:+ "--") +:+ String COMMENT_META behind)%string
      by (by rewrite string_app_assoc).
    rewrite strip_at; rewrite list_of_append; [|by apply Forall_app_2; repeat constructor..].
    set (l := String.list_ascii_of_string before) in *. set (k := String.list_ascii_of_string behind) in *.
    change (String.list_ascii_of_string "--") with ([COMMENT_TAG; COMMENT_TAG]).
    rewrite semicolon_at by (done || by apply Forall_app_2; repeat constructor).
    assert (E : ends_escape (l ++ [COMMENT_TAG; COMMENT_TAG]) = false
      /\ ends_tags (l ++ [COMMENT_TAG; COMMENT_TAG]) = true).
    { unfold ends_escape, ends_tags. rewrite rev_app_distr, last_app_cons. done. }
    destruct E as [-> ->]. rewrite Hs. cbn [comment_ends]. rewrite Nat.add_1_r.
    unfold comment_ends. simpl ls_comment. cbn iota. simpl Z.eqb. cbn iota. cbn [comment_loop].
    simpl ls_new. simpl ls_buf.
    unfold at_p. cbn [length Nat.add].
    rewrite drop_behind, strchr_from_none by done. eexists. reflexivity.
  - unfold strip_comments, buffer. simpl Z.eqb. cbn iota. cbn [comment_loop ls_new ls_buf].
    rewrite drop_0, strchr_from_none by done. done.
  - change ";--"%string with (String COMMENT_META "--"). rewrite strip_at by done.
    rewrite semicolon_at by (first [done|repeat constructor; done]). rewrite Hl2. done.
Qed.

Lemma stray_end_swallows_witness :
  plain_text "exten => " = true /\
  (exists left, strip_comments 0 ("exten => " +:+ "--;" +:+ " 100") = Returns (left, -1)) /\
  strip_comments (-1) "host = a" = Returns (None, -1) /\
  strip_comments (-1) ("host = a" +:+ ";--") = Crashes.
Proof.
  split; [reflexivity|].
  exact (stray_end_swallows "exten => " " 100" "host = a" eq_refl eq_refl eq_refl eq_refl).
Defined.

(** A comment inside of 128 others is never got past. *)
Lemma too_deep_hangs seg r fuel :
  plain_text seg = true -> nul_free r = true ->
  starts_comment (String.list_ascii_of_string r) = true ->
  comment_loop fuel (line_at [] (String.list_ascii_of_string seg) (String.list_ascii_of_string r) []
                       None MAX_NESTED_COMMENTS) = Hangs.
Proof.
  intros (Hs0 & Hs1 & Hs2)%plain_list Hr%nul_free_list Hc.
  induction fuel as [|fuel IH]; [done|]. rewrite loop_at by done.
  rewrite semicolon_at by done. rewrite Hs2, Hc. exact IH.
Qed.

Lemma too_deep_hangs_line seg r :
  plain_text seg = true -> nul_free r = true ->
  starts_comment (String.list_ascii_of_string r) = true ->
  strip_comments MAX_NESTED_COMMENTS (seg +:+ String COMMENT_META r) = Hangs.
Proof.
  intros Hs Hr Hc. destruct (plain_list seg Hs) as (Hs0 & Hs1 & Hs2).
  rewrite strip_at by done. rewrite semicolon_at by (done || by apply nul_free_list).
  rewrite Hs2, Hc. simpl Z.eqb. cbn iota. unfold comment_starts. simpl.
  by rewrite too_deep_hangs.
Qed.
