(* ===== verification/ConfigText.v ===== *)
(** * Configuration files (corelib/config.c)

    The text of a configuration file becomes categories and variables line by
    line: [process_text_line] reads category headers with templates and
    inheritance, [#include] and [#exec], and variables; [config_text_file_load]
    reads a file, or all that a pattern matches, and [cw_config_internal_load]
    chooses between it and the realtime engines.  [config_text_file_save] writes
    a configuration out.

    The functions work on one structure in memory, which they change also when
    they fail; [cf_freed] is set when it was freed, and using it then is a
    crash.  The file system, the shell, [glob] and whether there is memory for a
    line are parameters.  Engines keep the structure they are given. *)

From S2P Require Import Prelude CStr Utils CallerId Args Config ConfigLine.
Open Scope Z_scope.

(** ** Texts *)

Definition cw_skip_blanks (s : string) : string := trim_left blank s.
Definition cw_trim_blanks (s : string) : string := trim_right blank s.
Definition cw_strip (s : string) : string := cw_trim_blanks (cw_skip_blanks s).

Definition begins (c : ascii) (s : string) : bool :=
  match s with String d _ => char_eqb d c | EmptyString => false end.

Definition tail (s : string) : string := match s with String _ s => s | EmptyString => EmptyString end.

(** [strsep] with a comma until it answers NULL. *)
Definition strsep_all (s : string) : list string := strsplit "," s.

(** ** Category headers *)

(** The category a header leads to: a new one that is not in the list yet, or
    one that is. *)
Definition header_target : Type := cw_category + nat.

Definition on_target (f : cw_category -> cw_category) (t : header_target) (cfg : cw_config)
    : header_target * cw_config :=
  match t with
  | inl newcat => (inl (f newcat), cfg)
  | inr i => (inr i, on_category i f cfg)
  end.

(** Inheriting from itself, a category grows as fast as it is walked. *)
Definition inherits_itself (mem : bool) (t : header_target) (b : nat) (base : cw_category) : bool :=
  match t with
  | inl _ => false
  | inr i => bool_decide (i = b) && mem && negb (cat_stale base)
             && negb (bool_decide (cat_vars base = []))
  end.

(** The options in parentheses; [None] for a return of -1. *)
Fixpoint header_options (mem : bool) (catname : string) (opts : list string) (t : header_target)
    (cfg : cw_config) : run (option header_target * cw_config) :=
  match opts with
  | [] => Returns (Some t, cfg)
  | cur :: opts =>
    if strcaseeq cur "!" then
      let '(t, cfg) := on_target (fun c => c <| cat_ignored := true |>) t cfg in
      header_options mem catname opts t cfg
    else if strcaseeq cur "+" then
      match category_get cfg (Text catname) true with
      | None => cfg ← cw_config_destroy cfg; Returns (None, cfg)
      | Some i =>
        let cfg :=
          match t with
          | inl newcat => on_category i (fun c => snd (move_variables newcat c)) cfg
          | inr _ => cfg
          end in
        header_options mem catname opts (inr i) cfg
      end
    else
      match category_get cfg (Text cur) true with
      | None => Returns (None, cfg)
      | Some b =>
        match cf_cats cfg !! b with
        | None => Returns (None, cfg)
        | Some base =>
          if inherits_itself mem t b base then Hangs
          else
            let '(t, cfg) := on_target (fun c => inherit_category mem c base) t cfg in
            header_options mem catname opts t cfg
        end
      end
  end.

(** What stands behind the bracket: no options, or those in parentheses;
    [None] when they are not closed. *)
Definition header_opts (rest : string) : option (list string) :=
  if begins "(" rest then
    match strcut ")" (tail rest) with
    | (opts, Some _) => Some (strsep_all opts)
    | (_, None) => None
    end
  else Some [].

(** The result, the category for the lines that follow (of no use after a
    result of -1) and the configuration. *)
Definition line_result : Type := Z * option nat * cw_config.

Definition category_header (mem : bool) (buf : string) (cat : option nat) (cfg : cw_config)
    : run line_result :=
  match strcut "]" buf with
  | (_, None) => Returns (-1, cat, cfg)
  | (h, Some rest) =>
    let catname := tail h in
    match cw_category_new mem catname with
    | None => Returns (-1, None, cfg)
    | Some newcat =>
      match header_opts rest with
      | None => Returns (-1, None, cfg)
      | Some opts =>
        if cf_freed cfg then Crashes
        else
          '(t, cfg) ← header_options mem catname opts (inl newcat) cfg;
          Returns match t with
                  | None => (-1, None, cfg)
                  | Some (inl newcat) => (0, Some (length (cf_cats cfg)), cw_category_append cfg newcat)
                  | Some (inr i) => (0, Some i, cfg)
                  end
      end
    end
  end.

(** ** Variables *)

Definition variable_line (mem : bool) (buf : string) (lineno : Z) (cat : option nat) (cfg : cw_config)
    : run line_result :=
  match cat with
  | None => Returns (-1, cat, cfg)
  | Some i =>
    match strcut "=" buf with
    | (_, None) => Returns (0, cat, cfg)
    | (l, Some r) =>
      let object := begins ">" r in
      let r := if object then tail r else r in
      match cw_variable_new mem (cw_strip l) (cw_strip r) with
      | None => Returns (-1, cat, cfg)
      | Some v =>
        let v := {| v_name := v_name v; v_value := v_value v; v_lineno := lineno;
                    v_object := object; v_blanklines := 0%nat; v_sameline := v_sameline v |} in
        if cf_freed cfg then Crashes
        else Returns (0, cat, on_category i (fun c => cw_variable_append c v) cfg)
      end
    end
  end.

(** ** Directives *)

(** The word up to the first character that is not above 32, and the rest. *)
Fixpoint split_word (s : string) : string * string :=
  match s with
  | EmptyString => (EmptyString, EmptyString)
  | String c r => if blank c then (EmptyString, s) else let '(w, r) := split_word r in (String c w, r)
  end.

Definition mess (c : ascii) : bool := char_eqb c "<" || char_eqb c ">" || char_eqb c dquote.

(** [load] is [cw_config_internal_load]: whether it returned the configuration. *)
Definition directive (exec : string -> string) (exec_includes : bool)
    (load : string -> cw_config -> run (bool * cw_config))
    (buf : string) (cat : option nat) (cfg : cw_config) : run line_result :=
  let '(cur, rest) := split_word (tail buf) in
  let c := trim_left blank rest in
  let do_include := strcaseeq cur "include" in
  let do_exec := negb do_include && strcaseeq cur "exec" && exec_includes in
  if do_include || do_exec then
    match c with
    | EmptyString => Returns (0, cat, cfg)
    | c =>
      let cur := trim_right mess (trim_left mess c) in
      '(_, cfg) ← load (if do_exec then exec cur else cur) cfg;
      Returns (0, cat, cfg)
    end
  else Returns (0, cat, cfg).

Section files.
Context (files : string -> option string).
Context (glob : string -> option (list string)).
Context (exec : string -> string) (exec_includes : bool).
Context (mem : string -> Z -> bool).
Context (config_dir : string).

Definition process_text_line (load : string -> cw_config -> run (bool * cw_config))
    (configfile buf : string) (lineno : Z) (cat : option nat) (cfg : cw_config) : run line_result :=
  if begins "[" buf then category_header (mem configfile lineno) buf cat cfg
  else if begins "#" buf then directive exec exec_includes load buf cat cfg
  else variable_line (mem configfile lineno) buf lineno cat cfg.

(** ** Files *)

Record loader := { ld_lineno : Z; ld_comment : Z; ld_cat : option nat; ld_cfg : cw_config }.

(** A line read, [None] at the end of the file; false when it cannot be
    processed. *)
Definition load_line (load : string -> cw_config -> run (bool * cw_config)) (filename : string)
    (line : option string) (ld : loader) : run (bool * loader) :=
  let lineno := ld_lineno ld + 1 in
  match line with
  | None => Returns (true, {| ld_lineno := lineno; ld_comment := ld_comment ld; ld_cat := ld_cat ld;
                              ld_cfg := ld_cfg ld |})
  | Some line =>
    '(process_buf, comment) ← strip_comments (ld_comment ld) line;
    let buf := cw_strip (default EmptyString process_buf) in
    match buf with
    | EmptyString => Returns (true, {| ld_lineno := lineno; ld_comment := comment;
                                       ld_cat := ld_cat ld; ld_cfg := ld_cfg ld |})
    | buf =>
      '(res, cat, cfg) ← process_text_line load filename buf lineno (ld_cat ld) (ld_cfg ld);
      Returns (res =? 0, {| ld_lineno := lineno; ld_comment := comment; ld_cat := cat; ld_cfg := cfg |})
    end
  end.

Fixpoint load_lines (load : string -> cw_config -> run (bool * cw_config)) (filename : string)
    (lines : list (option string)) (ld : loader) : run (bool * loader) :=
  match lines with
  | [] => Returns (true, ld)
  | line :: lines =>
    '(ok, ld) ← load_line load filename line ld;
    if ok : bool then load_lines load filename lines ld else Returns (false, ld)
  end.

Definition LINE_BUF : nat := Z.to_nat 8192.

(** [fgets]: up to a newline or as much as fits, what is left, and whether the
    end of the file was met. *)
Fixpoint fgets (n : nat) (s : string) : string * string * bool :=
  match n with
  | O => (EmptyString, s, false)
  | S n =>
    match s with
    | EmptyString => (EmptyString, EmptyString, true)
    | String c r =>
      if code c =? 10 then (String c EmptyString, r, false)
      else let '(l, r, eof) := fgets n r in (String c l, r, eof)
    end
  end.

Fixpoint file_lines (fuel : nat) (s : string) : list (option string) :=
  match fuel with
  | O => []
  | S fuel =>
    let '(l, r, eof) := fgets (LINE_BUF - 1) s in
    match l with EmptyString => None | _ => Some l end :: if eof : bool then [] else file_lines fuel r
  end.

Definition lines_of (s : string) : list (option string) := file_lines (S (String.length s)) s.

(** The files a pattern stands for, in turn; the number of those that were
    there. *)
Fixpoint load_paths (load : string -> cw_config -> run (bool * cw_config)) (filename : string)
    (paths : list string) (count : nat) (ld : loader) : run (bool * nat * loader) :=
  match paths with
  | [] => Returns (true, count, ld)
  | path :: paths =>
    match files (strtake 255 path) with
    | None => load_paths load filename paths count ld
    | Some text =>
      '(ok, ld) ← load_lines load filename (lines_of text) ld;
      if ok : bool then load_paths load filename paths (S count) ld else Returns (false, S count, ld)
    end
  end.

Definition full_name (filename : string) : string :=
  if begins "/" filename then strtake 255 filename
  else strtake 255 (config_dir +:+ "/" +:+ filename).

Definition config_text_file_load (load : string -> cw_config -> run (bool * cw_config))
    (filename : string) (cfg : cw_config) : run (bool * cw_config) :=
  let ld := {| ld_lineno := 0; ld_comment := 0; ld_cat := cw_config_get_current_category cfg;
               ld_cfg := cfg |} in
  match glob (full_name filename) with
  | None => Returns (false, cfg)
  | Some paths =>
    '(ok, count, ld) ← load_paths load filename paths 0 ld;
    Returns (ok && negb (Nat.eqb count 0), ld_cfg ld)
  end.

(** ** Engines *)

(** The functions of an engine; NULL is [None].  A load answers whether it
    returned the configuration; the others take the arguments that follow. *)
Record cw_config_engine := {
  eng_name : string;
  eng_load : option (string -> string -> string -> cw_config -> run (bool * cw_config));
  eng_realtime : option (string -> string -> list string -> list cw_variable);
  eng_realtime_multi : option (string -> string -> list string -> option cw_config);
  eng_update : option (string -> string -> string -> string -> list string -> Z) }.

Record cw_config_map := {
  map_name : string; map_driver : string; map_database : string; map_table : option string }.

(** [config_maps] and [config_engine_list]; an engine is known by its address,
    here a number. *)
Record realtime := {
  config_maps : list cw_config_map; config_engine_list : list (nat * cw_config_engine) }.

#[export] Instance realtime_eta : Eta realtime :=
  fun r => {| config_maps := config_maps r; config_engine_list := config_engine_list r |}.

Definition clear_config_maps (rt : realtime) : realtime := rt <| config_maps := [] |>.

Definition append_mapping (map_mem : bool) (name driver database : string) (table : option string)
    (rt : realtime) : realtime :=
  if map_mem then
    rt <| config_maps := {| map_name := name; map_driver := driver; map_database := database;
                            map_table := table |} :: config_maps rt |>
  else rt.

Definition cw_config_engine_register (new : nat * cw_config_engine) (rt : realtime) : realtime :=
  rt <| config_engine_list := config_engine_list rt ++ [new] |>.

Fixpoint remove_engine (del : nat) (l : list (nat * cw_config_engine)) : list (nat * cw_config_engine) :=
  match l with
  | [] => []
  | e :: l => if Nat.eqb (fst e) del then l else e :: remove_engine del l
  end.

Definition cw_config_engine_deregister (del : nat) (rt : realtime) : realtime :=
  rt <| config_engine_list := remove_engine del (config_engine_list rt) |>.

(** The engine and what the two buffers of 256 bytes hold. *)
Definition find_engine (rt : realtime) (family : string) : option (cw_config_engine * string * string) :=
  map ← List.find (fun m => strcaseeq family (map_name m)) (config_maps rt);
  '(_, eng) ← List.find (fun e => strcaseeq (eng_name (snd e)) (map_driver map)) (config_engine_list rt);
  Some (eng, strtake 255 (map_database map), strtake 255 (default family (map_table map))).

Definition cw_check_realtime (rt : realtime) (family : string) : bool :=
  match find_engine rt family with Some _ => true | None => false end.

Definition cw_load_realtime (rt : realtime) (family : string) (ap : list string) : list cw_variable :=
  match find_engine rt family with
  | Some (eng, db, table) =>
    match eng_realtime eng with Some f => f db table ap | None => [] end
  | None => []
  end.

Definition cw_load_realtime_multientry (rt : realtime) (family : string) (ap : list string)
    : option cw_config :=
  '(eng, db, table) ← find_engine rt family;
  f ← eng_realtime_multi eng;
  f db table ap.

Definition cw_update_realtime (rt : realtime) (family keyfield lookup : string) (ap : list string) : Z :=
  match find_engine rt family with
  | Some (eng, db, table) =>
    match eng_update eng with Some f => f db table keyfield lookup ap | None => -1 end
  | None => -1
  end.

(** ** Loading *)

Definition extconfig_conf : string := "extconfig.conf".

(** The load function of the engine a family is mapped to. *)
Definition engine_loader (rt : realtime) (family : string)
    : option (string -> cw_config -> run (bool * cw_config)) :=
  '(eng, db, table) ← find_engine rt family;
  f ← eng_load eng;
  Some (f db table).

Definition choose_loader (rt : realtime) (filename : string)
    (text : string -> cw_config -> run (bool * cw_config)) : string -> cw_config -> run (bool * cw_config) :=
  if negb (streq filename extconfig_conf) && negb (streq filename "callweaver.conf")
     && negb (Nat.eqb (length (config_engine_list rt)) 0)
  then
    match engine_loader rt filename with
    | Some f => f
    | None => default text (engine_loader rt "global")
    end
  else text.

(** The level is taken back only from a configuration that was returned.
    [bottom] is what happens when the recursion is deeper than [depth]. *)
Fixpoint cw_config_internal_load (bottom : run (bool * cw_config)) (depth : nat) (rt : realtime)
    (filename : string) (cfg : cw_config) : run (bool * cw_config) :=
  match depth with
  | O => bottom
  | S depth =>
    if cf_freed cfg then Crashes
    else if cf_include_level cfg =? cf_max_include_level cfg then Returns (false, cfg)
    else
      let cfg := cfg <| cf_include_level := cf_include_level cfg + 1 |> in
      '(result, cfg) ←
        choose_loader rt filename (config_text_file_load (cw_config_internal_load bottom depth rt))
          filename cfg;
      if result : bool then
        if cf_freed cfg then Crashes
        else Returns (true, cfg <| cf_include_level := cf_include_level cfg - 1 |>)
      else Returns (false, cfg)
  end.

(** One call for each level there may be, and the one that is refused. *)
Definition LOAD_DEPTH : nat := Z.to_nat (MAX_INCLUDE_LEVEL + 1).

Definition cw_config_load (bottom : run (bool * cw_config)) (depth : nat) (rt : realtime)
    (new_mem : bool) (filename : string) : run (option cw_config) :=
  match cw_config_new new_mem with
  | None => Returns None
  | Some cfg =>
    '(result, cfg) ← cw_config_internal_load bottom depth rt filename cfg;
    if result : bool then Returns (Some cfg)
    else _ ← cw_config_destroy cfg; Returns None
  end.

(** [strsep] with a comma: the piece in front of it and what is left. *)
Definition strsep (s : option string) : option string * option string :=
  match s with
  | None => (None, None)
  | Some s => let '(piece, rest) := strcut "," s in (Some piece, rest)
  end.

Definition bind_family (map_mem : bool) (v : cw_variable) (rt : realtime) : realtime :=
  let '(driver, s) := strsep (Some (v_value v)) in
  let '(database, s) := strsep s in
  let '(table, _) := strsep s in
  if existsb (streq (v_name v)) [extconfig_conf; "callweaver.conf"; "logger.conf"]%string then rt
  else
    match driver, database with
    | Some driver, Some database =>
      if strcaseeq (v_name v) "sipfriends" then
        append_mapping map_mem "sippeers" driver database (Some (default "sipfriends" table)%string)
          (append_mapping map_mem "sipusers" driver database (Some (default "sipfriends" table)%string) rt)
      else if strcaseeq (v_name v) "iaxfriends" then
        append_mapping map_mem "iaxpeers" driver database (Some (default "iaxfriends" table)%string)
          (append_mapping map_mem "iaxusers" driver database (Some (default "iaxfriends" table)%string) rt)
      else append_mapping map_mem (v_name v) driver database table rt
    | _, _ => rt
    end.

(** A configuration that cannot be allocated is used all the same. *)
Definition read_config_maps (bottom : run (bool * cw_config)) (depth : nat)
    (new_mem map_mem : bool) (rt : realtime) : run realtime :=
  let rt := clear_config_maps rt in
  match cw_config_new new_mem with
  | None => Crashes
  | Some configtmp =>
    '(result, config) ←
      cw_config_internal_load bottom depth rt extconfig_conf (configtmp <| cf_max_include_level := 1 |>);
    if result : bool then
      let rt := foldl (fun rt v => bind_family map_mem v rt) rt (cw_variable_browse config (Text "settings")) in
      _ ← cw_config_destroy config; Returns rt
    else _ ← cw_config_destroy config; Returns rt
  end.
End files.

(** ** Saving *)

Definition newline : string := String (chr 10) EmptyString.

Fixpoint blank_lines (n : nat) : string :=
  match n with O => EmptyString | S n => newline +:+ blank_lines n end.

Definition save_variable (v : cw_variable) : string :=
  v_name v +:+ " " +:+ (if v_object v then "=>" else "=") +:+ " " +:+ v_value v
    +:+ match v_sameline v with Some cmt => "  ; " +:+ cmt +:+ newline | None => newline end
    +:+ blank_lines (v_blanklines v).

Definition save_category (cat : cw_category) : string :=
  "[" +:+ cat_name cat +:+ "]" +:+ newline
    +:+ foldr (fun v s => save_variable v +:+ s) EmptyString (cat_vars cat).

Definition save_header (configfile fn generator date : string) : string :=
  ";!" +:+ newline
    +:+ ";! Automatically generated configuration file" +:+ newline
    +:+ ";! Filename: " +:+ configfile +:+ " (" +:+ fn +:+ ")" +:+ newline
    +:+ ";! Generator: " +:+ generator +:+ newline
    +:+ ";! Creation Date: " +:+ date
    +:+ ";!" +:+ newline.

(** The text that is written; [date] is what [ctime] gives.  A file that cannot
    be opened gives -1. *)
Definition config_text_file_save (config_dir configfile generator date : string) (opens : bool)
    (cfg : cw_config) : option string :=
  if opens then
    Some (save_header configfile (full_name config_dir configfile) generator (strtake 255 date)
            +:+ foldr (fun c s => save_category c +:+ s) EmptyString (cf_cats cfg))
  else None.
