(* ===== verification/ConfigLoad.v ===== *)
(** * Loading of configuration files: recursion, inheritance, errors

    Theorems about ConfigText (corelib/config.c): includes end, what a header
    inherits, and what loading does when a file is missing or wrong. *)

From S2P Require Import Prelude CStr Utils CallerId Args Config ConfigLine ConfigText.
Open Scope Z_scope.

(** ** The include level *)

(** The level never falls below what it was and stays within its limit. *)
Definition keeps_level (a b : cw_config) : Prop :=
  cf_include_level a <= cf_include_level b /\ cf_max_include_level b = cf_max_include_level a /\
  (cf_include_level a <= cf_max_include_level a -> cf_include_level b <= cf_max_include_level b).

#[export] Instance keeps_level_refl : Reflexive keeps_level.
Proof. intros a. unfold keeps_level. lia. Qed.

#[export] Instance keeps_level_trans : Transitive keeps_level.
Proof. intros a b c. unfold keeps_level. lia. Qed.

Lemma on_target_level f t cfg : keeps_level cfg (on_target f t cfg).2.
Proof. by destruct t. Qed.

Lemma header_options_level mem catname opts t cfg t' cfg' :
  header_options mem catname opts t cfg = Returns (t', cfg') -> keeps_level cfg cfg'.
Proof.
  revert t cfg. induction opts as [|cur opts IH]; intros t cfg; cbn [header_options].
  { by intros [= _ <-]. }
  destruct (strcaseeq cur "!").
  { pose proof (on_target_level (fun c => c <| cat_ignored := true |>) t cfg) as H.
    destruct (on_target _ t cfg) as [t2 cfg2]. intros E%IH. by etrans. }
  destruct (strcaseeq cur "+").
  { destruct (category_get _ _ _); [intros E%IH|].
    - by destruct t.
    - unfold cw_config_destroy. by destruct (cf_freed cfg); [|intros [= _ <-]]. }
  destruct (category_get _ _ _) as [b|]; [|by intros [= _ <-]].
  destruct (cf_cats cfg !! b) as [base|]; [|by intros [= _ <-]].
  destruct (inherits_itself _ _ _ _); [done|].
  pose proof (on_target_level (fun c => inherit_category mem c base) t cfg) as H.
  destruct (on_target _ t cfg) as [t2 cfg2]. intros E%IH. by etrans.
Qed.

Lemma category_header_level mem buf cat cfg res cat' cfg' :
  category_header mem buf cat cfg = Returns (res, cat', cfg') -> keeps_level cfg cfg'.
Proof.
  unfold category_header. destruct (strcut "]" buf) as [h [rest|]]; [|by intros [= _ _ <-]].
  destruct (cw_category_new _ _); [|by intros [= _ _ <-]].
  destruct (header_opts rest); [|by intros [= _ _ <-]]. destruct (cf_freed cfg); [done|].
  destruct (header_options _ _ _ _ _) as [[t cfg2]| |] eqn:E; [|done..].
  apply header_options_level in E. cbn. destruct t as [[?|?]|]; by intros [= _ _ <-].
Qed.

Lemma variable_line_level mem buf lineno cat cfg res cat' cfg' :
  variable_line mem buf lineno cat cfg = Returns (res, cat', cfg') -> keeps_level cfg cfg'.
Proof.
  unfold variable_line. destruct cat as [i|]; [|by intros [= _ _ <-]].
  destruct (strcut "=" buf) as [l [r|]]; [|by intros [= _ _ <-]].
  destruct (cw_variable_new _ _ _); [|by intros [= _ _ <-]].
  destruct (cf_freed cfg); [done|]. by intros [= _ _ <-].
Qed.

(** ** Includes *)

Section agree.
Context (files : string -> option string) (glob : string -> option (list string)).
Context (exec : string -> string) (exec_includes : bool).
Context (mem : string -> Z -> bool) (config_dir : string).
Context (load1 load2 : string -> cw_config -> run (bool * cw_config)) (start : cw_config).

(** Two ways to load a file that agree on what can come of [start]. *)
Hypothesis loads_agree : forall f cfg, keeps_level start cfg -> load1 f cfg = load2 f cfg.
Hypothesis load_keeps : forall f cfg r cfg', keeps_level start cfg ->
  load1 f cfg = Returns (r, cfg') -> keeps_level cfg cfg'.

Lemma line_agrees configfile buf lineno cat cfg : keeps_level start cfg ->
  process_text_line exec exec_includes mem load1 configfile buf lineno cat cfg
  = process_text_line exec exec_includes mem load2 configfile buf lineno cat cfg /\
  (forall res cat' cfg',
     process_text_line exec exec_includes mem load1 configfile buf lineno cat cfg
       = Returns (res, cat', cfg') -> keeps_level cfg cfg').
Proof.
  intros Hk. unfold process_text_line. case_if.
  { split; [done|]. intros ???. apply category_header_level. }
  case_if; [|split; [done|]; intros ???; apply variable_line_level].
  unfold directive. destruct (split_word _) as [cur rest]. case_if.
  2: { split; [done|]. by intros ??? [= _ _ <-]. }
  destruct (trim_left blank rest); [split; [done|]; by intros ??? [= _ _ <-]|].
  rewrite loads_agree by done. split; [done|]. intros ???.
  rewrite <- loads_agree by done.
  destruct (load1 _ _) as [[r cfg2]| |] eqn:EL; [|done..]. cbn. intros [= _ _ <-].
  by apply load_keeps in EL.
Qed.

Lemma load_line_agrees filename line ld : keeps_level start (ld_cfg ld) ->
  load_line exec exec_includes mem load1 filename line ld
  = load_line exec exec_includes mem load2 filename line ld /\
  (forall ok ld', load_line exec exec_includes mem load1 filename line ld = Returns (ok, ld') ->
     keeps_level (ld_cfg ld) (ld_cfg ld')).
Proof.
  intros Hk. unfold load_line. destruct line as [line|]; [|split; [done|]; by intros ?? [= _ <-]].
  destruct (strip_comments _ _) as [[p c]| |]; [|done..]. cbn [mbind run_bind].
  destruct (cw_strip _) as [|a s] eqn:Eb; [split; [done|]; by intros ?? [= _ <-]|].
  destruct (line_agrees filename (String a s) (ld_lineno ld + 1) (ld_cat ld) (ld_cfg ld) Hk) as [E Hl].
  rewrite <- E. split; [done|]. intros ok ld'.
  destruct (process_text_line _ _ _ _ _ _ _ _ _) as [[[res cat] cfg]| |] eqn:Ep; [|done..].
  cbn. intros [= _ <-]. simpl. by eapply Hl.
Qed.

Lemma load_lines_agree filename lines ld : keeps_level start (ld_cfg ld) ->
  load_lines exec exec_includes mem load1 filename lines ld
  = load_lines exec exec_includes mem load2 filename lines ld /\
  (forall ok ld', load_lines exec exec_includes mem load1 filename lines ld = Returns (ok, ld') ->
     keeps_level (ld_cfg ld) (ld_cfg ld')).
Proof.
  revert ld. induction lines as [|line lines IH]; intros ld Hk; cbn [load_lines].
  { split; [done|]. by intros ?? [= _ <-]. }
  destruct (load_line_agrees filename line ld Hk) as [<- Hl].
  destruct (load_line _ _ _ _ _ _ _) as [[ok ld2]| |]; [|done..]. cbn [mbind run_bind].
  specialize (Hl ok ld2 eq_refl). destruct ok; [|split; [done|]; by intros ?? [= _ <-]].
  destruct (IH ld2) as [<- Hl2]; [by etrans|]. split; [done|]. intros ok ld' E.
  etrans; [done|by eapply Hl2].
Qed.

Lemma load_paths_agree filename paths count ld : keeps_level start (ld_cfg ld) ->
  load_paths files exec exec_includes mem load1 filename paths count ld
  = load_paths files exec exec_includes mem load2 filename paths count ld /\
  (forall ok n ld', load_paths files exec exec_includes mem load1 filename paths count ld
     = Returns (ok, n, ld') -> keeps_level (ld_cfg ld) (ld_cfg ld')).
Proof.
  revert count ld. induction paths as [|path paths IH]; intros count ld Hk; cbn [load_paths].
  { split; [done|]. by intros ??? [= _ _ <-]. }
  destruct (files _) as [text|]; [|by apply IH].
  destruct (load_lines_agree filename (lines_of text) ld Hk) as [<- Hl].
  destruct (load_lines _ _ _ _ _ _ _) as [[ok ld2]| |]; [|done..]. cbn [mbind run_bind].
  specialize (Hl ok ld2 eq_refl). destruct ok; [|split; [done|]; by intros ??? [= _ _ <-]].
  destruct (IH (S count) ld2) as [<- Hl2]; [by etrans|]. split; [done|]. intros ok n ld' E.
  etrans; [done|by eapply Hl2].
Qed.

Lemma text_load_agrees filename cfg : keeps_level start cfg ->
  config_text_file_load files glob exec exec_includes mem config_dir load1 filename cfg
  = config_text_file_load files glob exec exec_includes mem config_dir load2 filename cfg /\
  (forall r cfg',
     config_text_file_load files glob exec exec_includes mem config_dir load1 filename cfg
       = Returns (r, cfg') -> keeps_level cfg cfg').
Proof.
  intros Hk. unfold config_text_file_load. destruct (glob _) as [paths|].
  2: { split; [done|]. by intros ?? [= _ <-]. }
  set (ld := {| ld_lineno := 0 |}).
  destruct (load_paths_agree filename paths 0 ld Hk) as [<- Hl]. split; [done|]. intros r cfg'.
  destruct (load_paths _ _ _ _ _ _ _ _ _) as [[[ok n] ld2]| |]; [|done..]. cbn. intros [= _ <-].
  by apply (Hl ok n ld2).
Qed.
End agree.

(** Engines leave the level of the configuration they load into alone. *)
Definition engines_keep (rt : realtime) : Prop :=
  forall e f, e ∈ config_engine_list rt -> eng_load (snd e) = Some f ->
  forall db table fn cfg r cfg', f db table fn cfg = Returns (r, cfg') -> keeps_level cfg cfg'.

Lemma find_elem {A} (p : A -> bool) l x : List.find p l = Some x -> x ∈ l.
Proof. intros [H _]%find_some. by apply list_elem_of_In. Qed.

Lemma engine_loader_keeps rt family f : engines_keep rt -> engine_loader rt family = Some f ->
  forall fn cfg r cfg', f fn cfg = Returns (r, cfg') -> keeps_level cfg cfg'.
Proof.
  intros Hk. unfold engine_loader, find_engine.
  destruct (List.find _ (config_maps rt)) as [m|]; [|done]. cbn [mbind option_bind].
  destruct (List.find _ (config_engine_list rt)) as [[i e]|] eqn:E; [|done]. cbn [mbind option_bind].
  destruct (eng_load e) as [g|] eqn:Eg; [|done]. cbn [mbind option_bind]. intros [= <-].
  apply find_elem in E. intros fn cfg r cfg'. by apply (Hk _ _ E Eg).
Qed.

Lemma choose_loader_cases rt filename : engines_keep rt ->
  (forall text, choose_loader rt filename text = text) \/
  exists f, (forall text, choose_loader rt filename text = f) /\
    forall fn cfg r cfg', f fn cfg = Returns (r, cfg') -> keeps_level cfg cfg'.
Proof.
  intros Hk. unfold choose_loader. case_if; [|by left].
  destruct (engine_loader rt filename) as [f|] eqn:E1.
  { right. exists f. split; [done|]. by apply (engine_loader_keeps rt filename). }
  destruct (engine_loader rt "global") as [f|] eqn:E2; [|by left].
  right. exists f. split; [done|]. by apply (engine_loader_keeps rt "global").
Qed.

Section includes.
Context (files : string -> option string) (glob : string -> option (list string)).
Context (exec : string -> string) (exec_includes : bool).
Context (mem : string -> Z -> bool) (config_dir : string).
Context (rt : realtime).
Hypothesis Hrt : engines_keep rt.

#[local] Abbreviation internal_load :=
  (cw_config_internal_load files glob exec exec_includes mem config_dir).
#[local] Abbreviation text_load := (config_text_file_load files glob exec exec_includes mem config_dir).

(** The levels that are left. *)
Definition levels (cfg : cw_config) : Z := cf_max_include_level cfg - cf_include_level cfg.

Lemma internal_load_agrees n m bottom bottom' filename cfg :
  0 <= levels cfg < Z.of_nat n -> levels cfg < Z.of_nat m ->
  internal_load bottom n rt filename cfg = internal_load bottom' m rt filename cfg /\
  (forall r cfg', internal_load bottom n rt filename cfg = Returns (r, cfg') -> keeps_level cfg cfg').
Proof.
  revert m filename cfg. unfold levels. induction n as [|n IH]; intros m filename cfg Hn Hm; [lia|].
  destruct m as [|m]; [lia|]. cbn [cw_config_internal_load].
  destruct (cf_freed cfg); [done|].
  destruct (Z.eqb_spec (cf_include_level cfg) (cf_max_include_level cfg)) as [Hl|Hl].
  { split; [done|]. by intros ?? [= _ <-]. }
  set (up := cfg <| cf_include_level := cf_include_level cfg + 1 |>).
  assert (Hup : cf_include_level up = cf_include_level cfg + 1
    /\ cf_max_include_level up = cf_max_include_level cfg) by done.
  assert (Hc : choose_loader rt filename (text_load (internal_load bottom n rt)) filename up
    = choose_loader rt filename (text_load (internal_load bottom' m rt)) filename up /\
    forall r cfg', choose_loader rt filename (text_load (internal_load bottom n rt)) filename up
      = Returns (r, cfg') -> keeps_level up cfg').
  { destruct (choose_loader_cases rt filename Hrt) as [E|(f & E & Hf)]; rewrite !E.
    2: { split; [done|]. apply Hf. }
    apply (text_load_agrees _ _ _ _ _ _ _ _ up); [..|done].
    - intros g c Hk. unfold keeps_level in Hk. apply IH; lia.
    - intros g c r c' Hk. unfold keeps_level in Hk. apply (IH (S n)); lia. }
  destruct Hc as [<- Hk]. split; [done|]. intros r cfg'.
  destruct (choose_loader _ _ _ _ _) as [[r' c]| |]; [|done..]. cbn [mbind run_bind].
  specialize (Hk r' c eq_refl). unfold keeps_level in *. destruct r'.
  - destruct (cf_freed c); [done|]. intros [= _ <-]. simpl. lia.
  - intros [= _ <-]. lia.
Qed.
End includes.

(** C29: files may include each other in circles: loading never goes deeper than the
    levels there are, so that more calls than those give the same, whatever
    would become of a deeper one. *)
Theorem includes_end files glob exec exec_includes mem config_dir rt bottom bottom' n m new_mem filename :
  engines_keep rt -> (LOAD_DEPTH <= n)%nat -> (LOAD_DEPTH <= m)%nat ->
  cw_config_load files glob exec exec_includes mem config_dir bottom n rt new_mem filename
  = cw_config_load files glob exec exec_includes mem config_dir bottom' m rt new_mem filename.
Proof.
  intros Hrt Hn Hm. unfold LOAD_DEPTH, MAX_INCLUDE_LEVEL in *. unfold cw_config_load, cw_config_new.
  destruct new_mem; [|done].
  destruct (internal_load_agrees files glob exec exec_includes mem config_dir rt Hrt n m bottom bottom'
    filename {| cf_cats := []; cf_current := None; cf_last_browse := None; cf_include_level := 0;
                cf_max_include_level := MAX_INCLUDE_LEVEL; cf_freed := false |}) as [-> _].
  - unfold levels, MAX_INCLUDE_LEVEL. simpl. lia.
  - unfold levels, MAX_INCLUDE_LEVEL. simpl. lia.
  - done.
Qed.

Definition file_of (l : list string) : string := foldr (fun a b => a +:+ newline +:+ b) EmptyString l.

Definition no_engines : realtime := {| config_maps := []; config_engine_list := [] |}.

Definition itself (f : string) : option (list string) := Some [f].

(** Two files that include each other. *)
Definition circle (f : string) : option string :=
  if streq f "/etc/a.conf" then Some (file_of ["[a]"; "x = 1"; "#include <b.conf>"]%string)
  else if streq f "/etc/b.conf" then Some (file_of ["y = 2"; "#include <a.conf>"]%string)
  else None.

Lemma includes_end_witness :
  engines_keep no_engines /\ (LOAD_DEPTH <= 100)%nat /\
  cw_config_load circle itself (fun c => c) false (fun _ _ => true) "/etc" Hangs LOAD_DEPTH no_engines true "a.conf"
  = cw_config_load circle itself (fun c => c) false (fun _ _ => true) "/etc" Crashes 100 no_engines true "a.conf"
  /\ exists cfg, cw_config_load circle itself (fun c => c) false (fun _ _ => true) "/etc" Hangs LOAD_DEPTH
       no_engines true "a.conf" = Returns (Some cfg) /\ length (cf_cats cfg) = 5%nat.
Proof.
  assert (H : engines_keep no_engines) by (intros e f He; by apply not_elem_of_nil in He).
  assert (Hd : (LOAD_DEPTH <= 100)%nat) by (unfold LOAD_DEPTH, MAX_INCLUDE_LEVEL; lia).
  split; [exact H|]. split; [exact Hd|]. split.
  - apply (includes_end circle itself (fun c => c) false (fun _ _ => true) "/etc" no_engines
             Hangs Crashes LOAD_DEPTH 100 true "a.conf" H); [lia|exact Hd].
  - eexists. split; vm_compute; reflexivity.
Defined.

(** ** Lines *)

Definition no_newline (s : string) : bool := all_chars (fun c => negb (code c =? 10)) s.

Lemma fgets_line n l r :
  no_newline l = true -> (String.length l < n)%nat -> fgets n (l +:+ newline +:+ r) = (l +:+ newline, r, false)%string.
Proof.
  unfold no_newline. revert n. induction l as [|c l IH]; intros [|n]; cbn [all_chars String.length]; try lia.
  - done.
  - intros [Hc Hl]%andb_true_iff Hn. apply negb_true_iff in Hc. rewrite !string_cons_app.
    cbn [fgets]. rewrite Hc, IH by (done || lia). done.
Qed.

Lemma fgets_shorter n s l r eof : fgets n s = (l, r, eof) ->
  (String.length r <= String.length s)%nat /\
  (n <> O -> s <> EmptyString -> (String.length r < String.length s)%nat).
Proof.
  revert s l r eof. induction n as [|n IH]; intros s l r eof; cbn [fgets].
  { intros [= _ <- _]. done. }
  destruct s as [|c s]; [intros [= _ <- _]; done|]. case_if.
  { intros [= _ <- _]. simpl. split; intros; lia. }
  destruct (fgets n s) as [[l' r'] e] eqn:Ef. intros [= _ <- _].
  destruct (IH s l' r' e Ef) as [H _]. simpl. split; intros; lia.
Qed.

Lemma file_lines_fuel n m s :
  (String.length s < n)%nat -> (String.length s < m)%nat -> file_lines n s = file_lines m s.
Proof.
  revert m s. induction n as [|n IH]; intros m s Hn Hm; [lia|]. destruct m as [|m]; [lia|].
  cbn [file_lines]. destruct (fgets _ s) as [[l r] eof] eqn:E. f_equal. destruct eof; [done|].
  destruct s as [|c s].
  { unfold LINE_BUF in E. destruct (Z.to_nat 8192 - 1)%nat eqn:E0; [lia|]. cbn [fgets] in E. congruence. }
  apply fgets_shorter in E as [_ E]. unfold LINE_BUF in E.
  specialize (E ltac:(lia) ltac:(done)). apply IH; lia.
Qed.

Lemma lines_of_cons l r :
  no_newline l = true -> Z.of_nat (String.length l) < 8191 ->
  lines_of (l +:+ newline +:+ r) = Some (l +:+ newline)%string :: lines_of r.
Proof.
  intros Hl Hn. unfold lines_of at 1. cbn [file_lines].
  rewrite fgets_line by (done || unfold LINE_BUF; lia).
  assert (E : forall x : string, match (l +:+ newline)%string with EmptyString => None | _ => Some x end = Some x)
    by (by destruct l).
  rewrite E. f_equal. apply file_lines_fuel; [|lia].
  rewrite !length_append. simpl. lia.
Qed.

Lemma lines_of_nil : lines_of EmptyString = [None].
Proof. vm_compute. reflexivity. Qed.

(** ** Trimming *)

Lemma trim_left_app p a c b : p c = false -> trim_left p (a +:+ String c b) = (trim_left p a +:+ String c b)%string.
Proof.
  intros Hc. induction a as [|d a IH].
  - rewrite string_nil_app. simpl. by rewrite Hc.
  - rewrite string_cons_app. simpl. destruct (p d); [exact IH|]. by rewrite string_cons_app.
Qed.

Lemma trim_right_app p a c b : p c = false ->
  trim_right p (a +:+ String c b) = (a +:+ String c (trim_right p b))%string.
Proof.
  intros Hc.
  assert (E : trim_right p (String c b) = String c (trim_right p b)).
  { cbn [trim_right]. destruct (trim_right p b); [by rewrite Hc|done]. }
  induction a as [|d a IH]; [by rewrite !string_nil_app|].
  rewrite !string_cons_app. cbn [trim_right]. rewrite IH. by destruct a.
Qed.

Lemma trim_right_all p a b : all_chars p b = true -> trim_right p (a +:+ b) = trim_right p a.
Proof.
  intros Hb.
  assert (E : trim_right p b = EmptyString).
  { induction b as [|c b IH]; [done|]. cbn [all_chars] in Hb. apply andb_true_iff in Hb as [Hc Hb].
    cbn [trim_right]. by rewrite IH, Hc. }
  induction a as [|d a IH]; [by rewrite string_nil_app|].
  rewrite string_cons_app. cbn [trim_right]. by rewrite IH.
Qed.

(** A text between two characters that are not blank, and blanks behind it. *)
Lemma strip_between c m d b : blank c = false -> blank d = false -> all_chars blank b = true ->
  cw_strip (String c (m +:+ String d b)) = String c (m +:+ String d EmptyString).
Proof.
  intros Hc Hd Hb. unfold cw_strip, cw_trim_blanks, cw_skip_blanks. rewrite trim_left_id by done.
  rewrite <- string_cons_app, trim_right_app by done.
  assert (E : trim_right blank b = EmptyString) by (apply (trim_right_all _ EmptyString b Hb)).
  rewrite E. by rewrite string_cons_app.
Qed.

(** ** Lines without comments *)

Lemma strip_plain l : nul_free l = true -> lacks ";" l = true -> strip_comments 0 l = Returns (Some l, 0).
Proof.
  intros Hn Hl. apply nul_free_list in Hn as Hn'. apply lacks_list in Hl.
  unfold strip_comments, buffer. cbn [comment_loop Z.eqb ls_new ls_buf].
  rewrite drop_0, strchr_from_none by done. cbn [mbind run_bind fmap option_fmap option_map ls_process ls_buf].
  rewrite drop_0, cstring_nul by done. by rewrite String.string_of_list_ascii_of_string.
Qed.

Lemma newline_free : nul_free newline = true /\ lacks ";" newline = true.
Proof. done. Qed.

Lemma lacks_app c s t : lacks c (s +:+ t) = lacks c s && lacks c t.
Proof. apply all_chars_app. Qed.

Lemma nul_free_app s t : nul_free (s +:+ t) = nul_free s && nul_free t.
Proof. apply all_chars_app. Qed.

Lemma full_name_short dir f : strtake 255 (full_name dir f) = full_name dir f.
Proof. unfold full_name. case_if; apply strtake_all; rewrite strtake_length; lia. Qed.

(** ** Errors *)

Section errors.
Context (files : string -> option string) (exec : string -> string) (exec_includes : bool).
Context (mem : string -> Z -> bool) (config_dir : string).
Context (rt : realtime).
Hypothesis Hrt : config_engine_list rt = [].
Hypothesis Hmem : forall f n, mem f n = true.

#[local] Abbreviation load_of := (cw_config_load files itself exec exec_includes mem config_dir).
#[local] Abbreviation internal_load :=
  (cw_config_internal_load files itself exec exec_includes mem config_dir).

Lemma text_only filename text : choose_loader rt filename text = text.
Proof. unfold choose_loader. rewrite Hrt. by rewrite andb_false_r. Qed.

(** A header that adds to a category that is not there frees the configuration,
    and the function that loads the file frees it again. *)
Theorem addition_to_nothing_crashes bottom n filename name rest :
  nul_free name = true -> lacks ";" name = true -> lacks "]" name = true -> no_newline name = true ->
  Z.of_nat (String.length name) < 8000 ->
  files (full_name config_dir filename) = Some ("[" +:+ name +:+ "](+)" +:+ newline +:+ rest)%string ->
  load_of bottom (S n) rt true filename = Crashes.
Proof.
  intros Hn Hs Hb Hl Hlen Hf. unfold cw_config_load, cw_config_new. cbn [cw_config_internal_load].
  simpl (cf_freed _). cbn iota. simpl (_ =? _). cbn iota. rewrite text_only.
  unfold config_text_file_load. unfold itself at 1. cbn [load_paths].
  rewrite full_name_short, Hf.
  set (line := ("[" +:+ name +:+ "](+)")%string).
  replace ("[" +:+ name +:+ "](+)" +:+ newline +:+ rest)%string with (line +:+ newline +:+ rest)%string
    by (subst line; by rewrite !string_app_assoc).
  assert (Hline : nul_free line = true /\ lacks ";" line = true /\ no_newline line = true).
  { subst line. unfold no_newline. rewrite !nul_free_app, !lacks_app, !all_chars_app, Hn, Hs.
    unfold no_newline in Hl. rewrite Hl. done. }
  destruct Hline as (L1 & L2 & L3).
  rewrite lines_of_cons; [|done|subst line; rewrite !length_append; simpl; lia].
  cbn [load_lines load_line ld_comment ld_cat ld_cfg ld_lineno].
  rewrite strip_plain by (rewrite ?nul_free_app, ?lacks_app, ?L1, ?L2; done).
  cbn [mbind run_bind default from_option].
  assert (E : cw_strip (line +:+ newline) = line).
  { subst line. change ("[" +:+ ?x)%string with (String "[" x).
    replace (String "[" (name +:+ "](+)") +:+ newline)%string
      with (String "[" ((name +:+ "](+") +:+ String ")" newline))
      by (rewrite string_cons_app, !string_app_assoc; done).
    rewrite strip_between by done. by rewrite string_app_assoc. }
  cbn [id]. rewrite E. subst line. change ("[" +:+ ?x)%string with (String "[" x).
  unfold process_text_line. cbn [begins]. rewrite char_eqb_refl. unfold category_header.
  replace (String "[" (name +:+ "](+)"))%string with ((String "[" name) +:+ String "]" "(+)")%string
    by (by rewrite string_cons_app).
  rewrite strcut_at by (rewrite lacks_cons; done). rewrite Hmem. reflexivity.
Qed.

(** An include of a file that is not there takes a level for good. *)
Lemma missing_include bottom n filename cfg :
  files (full_name config_dir filename) = None -> cf_freed cfg = false ->
  cf_include_level cfg < cf_max_include_level cfg ->
  internal_load bottom (S n) rt filename cfg
  = Returns (false, cfg <| cf_include_level := cf_include_level cfg + 1 |>).
Proof.
  intros Hf Hc Hl. cbn [cw_config_internal_load]. rewrite Hc.
  destruct (Z.eqb_spec (cf_include_level cfg) (cf_max_include_level cfg)); [lia|].
  rewrite text_only. unfold config_text_file_load. unfold itself at 1. cbn [load_paths].
  by rewrite full_name_short, Hf.
Qed.

Definition include_line (x : string) : string := "#include <" +:+ x +:+ ">" +:+ newline.

Definition includable (x : string) : bool :=
  match x with
  | EmptyString => false
  | String c s => negb (mess c) && negb (mess (last_char c s))
  end && nul_free x && lacks ";" x.

Lemma include_line_loads load filename x ld : includable x = true -> ld_comment ld = 0 ->
  load_line exec exec_includes mem load filename (Some (include_line x)) ld =
    ('(_, cfg) ← load x (ld_cfg ld);
     Returns (true, {| ld_lineno := ld_lineno ld + 1; ld_comment := 0; ld_cat := ld_cat ld;
                       ld_cfg := cfg |})).
Proof.
  intros Hx Hc. destruct x as [|c s]; [done|]. unfold includable in Hx. set (x := String c s) in *.
  apply andb_true_iff in Hx as [Hx Hs]. apply andb_true_iff in Hx as [Hm Hn].
  apply andb_true_iff in Hm as [Hm1 Hm2]. apply negb_true_iff in Hm1, Hm2.
  unfold load_line, include_line. rewrite Hc.
  rewrite strip_plain by (rewrite ?nul_free_app, ?lacks_app, ?Hn, ?Hs; done).
  cbn [mbind run_bind default from_option id].
  assert (E : cw_strip ("#include <" +:+ x +:+ ">" +:+ newline) = String "#" ("include <" +:+ x +:+ ">")).
  { change ("#include <" +:+ ?y)%string with (String "#" ("include <" +:+ y)).
    replace ("include <" +:+ x +:+ ">" +:+ newline)%string
      with (("include <" +:+ x) +:+ String ">" newline)%string by (by rewrite string_app_assoc).
    rewrite strip_between by done. by rewrite string_app_assoc. }
  rewrite E. unfold process_text_line. cbn [begins].
  change (char_eqb "#" "[") with false. change (char_eqb "#" "#") with true. cbn iota.
  unfold directive. cbn [tail].
  change (split_word ("include <" +:+ x +:+ ">")%string) with ("include"%string, (" <" +:+ x +:+ ">")%string).
  cbn iota beta. change (trim_left blank (" <" +:+ x +:+ ">")%string) with (String "<" (x +:+ ">")).
  change (strcaseeq "include" "include") with true. cbn [negb andb orb].
  assert (E2 : trim_right mess (trim_left mess (String "<" (x +:+ ">"))) = x).
  { cbn [trim_left]. change (mess "<") with true. cbn iota. subst x. rewrite string_cons_app.
    rewrite trim_left_id by done. rewrite <- string_cons_app, trim_right_all by done.
    by apply trim_right_id. }
  rewrite E2. by destruct (load x (ld_cfg ld)) as [[]| |].
Qed.

(** Every include of a file that is not there uses one of the ten levels up.
    When they are gone no other file is included any more. *)
Theorem missing_includes_use_levels_up bottom n filename x k ld :
  includable x = true -> ld_comment ld = 0 -> cf_freed (ld_cfg ld) = false ->
  files (full_name config_dir x) = None ->
  levels (ld_cfg ld) = Z.of_nat k ->
  exists ld',
    load_lines exec exec_includes mem (internal_load bottom (S n) rt) filename
      (replicate k (Some (include_line x))) ld = Returns (true, ld') /\
    cf_cats (ld_cfg ld') = cf_cats (ld_cfg ld) /\
    forall y, internal_load bottom (S n) rt y (ld_cfg ld') = Returns (false, ld_cfg ld').
Proof.
  intros Hx Hc Hfr Hf. revert ld Hc Hfr. induction k as [|k IH]; intros ld Hc Hfr Hk; unfold levels in Hk.
  { exists ld. split; [done|]. split; [done|]. intros y. cbn [cw_config_internal_load]. rewrite Hfr.
    destruct (Z.eqb_spec (cf_include_level (ld_cfg ld)) (cf_max_include_level (ld_cfg ld))); [done|lia]. }
  cbn [replicate load_lines]. rewrite include_line_loads by done.
  rewrite missing_include by (done || lia). cbn [mbind run_bind].
  match goal with |- context [load_lines _ _ _ _ _ _ ?l] => set (ld2 := l) end.
  destruct (IH ld2) as (ld' & E & Ec & Ey); [done|done|unfold levels; simpl; lia|].
  exists ld'. split; [exact E|]. split; [by rewrite Ec|done].
Qed.
End errors.

Definition adds_first (f : string) : option string :=
  if streq f "/etc/a.conf" then Some (file_of ["[peer](+)"; "host = x"]%string) else None.

Lemma addition_to_nothing_crashes_witness :
  nul_free "peer" = true /\
  cw_config_load adds_first itself (fun c => c) false (fun _ _ => true) "/etc" Hangs LOAD_DEPTH no_engines
    true "a.conf" = Crashes.
Proof.
  split; [reflexivity|].
  exact (addition_to_nothing_crashes adds_first (fun c => c) false (fun _ _ => true) "/etc" no_engines
    eq_refl (fun _ _ => eq_refl) Hangs 10 "a.conf" "peer" (file_of ["host = x"]%string)
    eq_refl eq_refl eq_refl eq_refl eq_refl eq_refl).
Defined.

Definition in_outer_file : loader :=
  {| ld_lineno := 0; ld_comment := 0; ld_cat := None;
     ld_cfg := {| cf_cats := []; cf_current := None; cf_last_browse := None; cf_include_level := 1;
                  cf_max_include_level := MAX_INCLUDE_LEVEL; cf_freed := false |} |}.

Lemma missing_includes_use_levels_up_witness :
  includable "none.conf" = true /\
  exists ld',
    load_lines (fun c => c) false (fun _ _ => true)
      (cw_config_internal_load circle itself (fun c => c) false (fun _ _ => true) "/etc" Hangs 1 no_engines)
      "x.conf" (replicate 9 (Some (include_line "none.conf"))) in_outer_file = Returns (true, ld') /\
    cf_cats (ld_cfg ld') = [] /\
    forall y, cw_config_internal_load circle itself (fun c => c) false (fun _ _ => true) "/etc" Hangs 1
      no_engines y (ld_cfg ld') = Returns (false, ld_cfg ld').
Proof.
  split; [reflexivity|].
  exact (missing_includes_use_levels_up circle (fun c => c) false (fun _ _ => true) "/etc" no_engines
    eq_refl Hangs 0 "x.conf" "none.conf" 9 in_outer_file eq_refl eq_refl eq_refl eq_refl eq_refl).
Defined.

(** A file with a wrong line is left where the line is; the file that includes
    it goes on. *)
Definition broken_include (f : string) : option string :=
  if streq f "/etc/a.conf" then Some (file_of ["[a]"; "#include <b.conf>"; "z = 3"]%string)
  else if streq f "/etc/b.conf" then Some (file_of ["x = 1"; "[b"; "y = 2"]%string)
  else None.

Example broken_include_is_ignored :
  exists cfg, cw_config_load broken_include itself (fun c => c) false (fun _ _ => true) "/etc" Hangs
      LOAD_DEPTH no_engines true "a.conf" = Returns (Some cfg) /\
    (fun v => (v_name v, v_value v)) <$> cw_variable_browse cfg (Text "a") = [("x", "1"); ("z", "3")]%string /\
    cf_include_level cfg = 1.
Proof. eexists. split; [vm_compute; reflexivity|]. split; vm_compute; reflexivity. Qed.

(** A category that inherits from itself grows without end. *)
Definition inherits_self (f : string) : option string :=
  if streq f "/etc/a.conf" then Some (file_of ["[a]"; "x = 1"; "[a](+,a)"]%string) else None.

Example self_inheritance_hangs :
  cw_config_load inherits_self itself (fun c => c) false (fun _ _ => true) "/etc" Crashes LOAD_DEPTH
    no_engines true "a.conf" = Hangs.
Proof. vm_compute. reflexivity. Qed.

(** Behind [(+)] the lines of an included file go to the category that was
    added last, not to the one that is added to. *)
Definition include_behind_addition (f : string) : option string :=
  if streq f "/etc/a.conf"
  then Some (file_of ["[a]"; "[b]"; "[a](+)"; "#include <b.conf>"; "y = 2"]%string)
  else if streq f "/etc/b.conf" then Some (file_of ["x = 1"]%string)
  else None.

Example include_goes_elsewhere :
  exists cfg, cw_config_load include_behind_addition itself (fun c => c) false (fun _ _ => true) "/etc" Hangs
      LOAD_DEPTH no_engines true "a.conf" = Returns (Some cfg) /\
    cw_variable_retrieve cfg (Some (Text "a")) "y" = Some "2"%string /\
    cw_variable_retrieve cfg (Some (Text "a")) "x" = None /\
    cw_variable_retrieve cfg (Some (Text "b")) "x" = Some "1"%string.
Proof. eexists. split; [vm_compute; reflexivity|]. split; [|split]; vm_compute; reflexivity. Qed.

(** ** Inheritance *)

Fixpoint join_commas (l : list string) : string :=
  match l with
  | [] => EmptyString
  | [s] => s
  | s :: l => s +:+ "," +:+ join_commas l
  end.

Lemma strsplit_lacks s : lacks "," s = true -> strsplit "," s = [s].
Proof. intros H. rewrite strsplit_cut, strcut_lacks by done. done. Qed.

Lemma strsep_join l : l <> [] -> Forall (fun s => lacks "," s = true) l ->
  strsep_all (join_commas l) = l.
Proof.
  intros Hne H. unfold strsep_all. induction H as [|s l Hs Hl IH]; [done|].
  destruct l as [|t l]; [by apply strsplit_lacks|]. cbn [join_commas].
  rewrite strsplit_cut. change ("," +:+ ?x)%string with (String "," x).
  rewrite strcut_at by done. f_equal. by apply IH.
Qed.

(** The variables of a category that is named. *)
Definition vars_named (cfg : cw_config) (name : string) : list cw_variable :=
  from_option cat_vars [] (category_get cfg (Text name) true ≫= fun i => cf_cats cfg !! i).

Definition cloned (v : cw_variable) : cw_variable :=
  {| v_name := v_name v; v_value := v_value v; v_lineno := v_lineno v; v_object := v_object v;
     v_blanklines := v_blanklines v; v_sameline := None |}.

Lemma append_all_fresh vars c : cat_stale c = false ->
  append_all vars c = c <| cat_vars := cat_vars c ++ vars |>.
Proof.
  unfold append_all. revert c. induction vars as [|v vars IH]; intros c Hc.
  { simpl. rewrite app_nil_r. by destruct c. }
  cbn [foldl]. unfold cw_variable_append at 2. rewrite Hc.
  rewrite IH by done. destruct c. unfold upd. simpl. by rewrite <- app_assoc.
Qed.

Lemma inherit_fresh new base : cat_stale new = false ->
  inherit_category true new base = new <| cat_vars := cat_vars new ++ (cloned <$> cat_vars base) |>.
Proof.
  intros H. unfold inherit_category. rewrite append_all_fresh by done.
  assert (E : forall l : list cw_variable, omap (variable_clone true) l = (cloned <$> l : list cw_variable)).
  { intros l. induction l as [|v l IH]; [done|]. cbn. by rewrite <- IH. }
  by rewrite E.
Qed.

(** A name that can be inherited from. *)
Definition is_base (cfg : cw_config) (b : string) : Prop :=
  lacks "," b = true /\ lacks ")" b = true /\ strcaseeq b "!" = false /\ strcaseeq b "+" = false /\
  exists i c, category_get cfg (Text b) true = Some i /\ cf_cats cfg !! i = Some c.

Lemma options_inherit name bases new cfg :
  Forall (is_base cfg) bases -> cat_stale new = false ->
  header_options true name bases (inl new) cfg =
    Returns (Some (inl (new <| cat_vars := cat_vars new ++
               concat ((fun b => cloned <$> vars_named cfg b) <$> bases) |>)), cfg).
Proof.
  intros H. revert new. induction H as [|b bases (H1 & H2 & H3 & H4 & i & c & H5 & H6) H IH];
    intros new Hs.
  { cbn. rewrite app_nil_r. by destruct new. }
  cbn [header_options]. rewrite H3, H4, H5, H6. cbn [inherits_itself on_target].
  rewrite inherit_fresh by done. rewrite IH by done. do 4 f_equal.
  unfold upd. simpl. rewrite <- app_assoc. do 3 f_equal. unfold vars_named. rewrite H5. simpl. by rewrite H6.
Qed.

Lemma lacks_join b l : lacks b "," = true -> Forall (fun s => lacks b s = true) l ->
  lacks b (join_commas l) = true.
Proof.
  intros Hc. induction 1 as [|s l Hs Hl IH]; [done|]. destruct l as [|t l]; [done|].
  change (join_commas (s :: t :: l)) with (s +:+ "," +:+ join_commas (t :: l))%string.
  rewrite !lacks_app, Hs, IH. by rewrite Hc.
Qed.

(** A header with templates: the new category is put at the end, ignored if it
    is marked as a template itself, and begins with copies of the variables of
    all it is based on, in the order they are named; nothing else changes. *)
Theorem header_inherits (template : bool) name bases cat cfg :
  lacks "]" name = true -> cf_freed cfg = false -> Forall (is_base cfg) bases ->
  (template = true \/ bases <> []) ->
  category_header true
    ("[" +:+ name +:+ "](" +:+ join_commas ((if template then ["!"%string] else []) ++ bases) +:+ ")") cat cfg
  = Returns (0, Some (length (cf_cats cfg)),
      cw_category_append cfg
        {| cat_name := strtake (CATEGORY_NAME - 1) name; cat_ignored := template;
           cat_vars := concat ((fun b => cloned <$> vars_named cfg b) <$> bases);
           cat_stale := false |}).
Proof.
  intros Hn Hf Hb Hne. unfold category_header. set (opts := _ ++ bases).
  replace ("[" +:+ name +:+ "](" +:+ join_commas opts +:+ ")")%string
    with (String "[" name +:+ String "]" (String "(" (join_commas opts +:+ String ")" "")))%string
    by (by rewrite string_cons_app).
  rewrite strcut_at by (rewrite lacks_cons; done). cbn [tail cw_category_new].
  assert (Ho : Forall (fun s => lacks "," s = true) opts /\ Forall (fun s => lacks ")" s = true) opts).
  { subst opts. split; apply Forall_app_2; try (destruct template; by repeat constructor);
      eapply Forall_impl; try exact Hb; by intros ? (? & ? & _). }
  assert (opts <> []) by (subst opts; destruct template, bases; naive_solver).
  unfold header_opts. cbn [begins tail]. change (char_eqb "(" "(") with true. cbn iota.
  rewrite strcut_at by (apply lacks_join; [done|apply Ho]). rewrite strsep_join by (done || apply Ho). rewrite Hf.
  subst opts. destruct template; cbn [app].
  - cbn [header_options]. change (strcaseeq "!" "!") with true. cbn [on_target].
    by rewrite options_inherit.
  - by rewrite options_inherit.
Qed.

Lemma header_inherits_witness :
  lacks "]" "phone" = true /\
  category_header true
    ("[" +:+ "phone" +:+ "](" +:+ join_commas (["!"%string] ++ ["template"; "other"]%string) +:+ ")") None
    (a_config None)
  = Returns (0, Some 4%nat,
      cw_category_append (a_config None)
        {| cat_name := "phone"; cat_ignored := true;
           cat_vars := [cloned {| v_name := "host"; v_value := "none"; v_lineno := 1; v_object := false;
                                  v_blanklines := 0%nat; v_sameline := None |};
                        cloned {| v_name := "host"; v_value := "two"; v_lineno := 1; v_object := false;
                                  v_blanklines := 0%nat; v_sameline := None |}];
           cat_stale := false |}).
Proof.
  split; [reflexivity|].
  apply (header_inherits true "phone" ["template"; "other"]%string None (a_config None)).
  - reflexivity.
  - reflexivity.
  - repeat constructor; unfold is_base; repeat (split; [reflexivity|]);
      eexists; eexists; split; reflexivity.
  - left. reflexivity.
Defined.
