(* ===== verification/ConfigSave.v ===== *)
(** * Saved configurations are read back (corelib/config.c)

    [config_text_file_save] and the loader of ConfigText together: what was
    written is read again with the same categories, variables and values. *)

From S2P Require Import Prelude CStr Utils CallerId Args Config ConfigLine ConfigText ConfigLoad.
Open Scope Z_scope.

Ltac split_ands :=
  repeat match goal with H : _ && _ = true |- _ => apply andb_true_iff in H as [H ?] end.

(** ** What can be saved *)

(** Texts that stay on their line and have no comment in them; the format has
    no way to write others. *)
Definition text_ok (s : string) : bool := nul_free s && lacks ";" s && no_newline s.

Definition stripped (s : string) : bool := streq (cw_strip s) s.

Definition variable_ok (v : cw_variable) : bool :=
  text_ok (v_name v) && stripped (v_name v) && lacks "=" (v_name v)
  && negb (begins "[" (v_name v)) && negb (begins "#" (v_name v))
  && text_ok (v_value v) && stripped (v_value v)
  && nul_free (default EmptyString (v_sameline v)) && no_newline (default EmptyString (v_sameline v))
  && (Z.of_nat (String.length (v_name v)) + Z.of_nat (String.length (v_value v))
      + Z.of_nat (String.length (default EmptyString (v_sameline v))) <? 8000).

Definition category_ok (c : cw_category) : bool :=
  text_ok (cat_name c) && lacks "]" (cat_name c)
  && (Z.of_nat (String.length (cat_name c)) <? Z.of_nat CATEGORY_NAME)
  && forallb variable_ok (cat_vars c).

Definition comment_ok (s : string) : bool :=
  nul_free s && no_newline s && (Z.of_nat (String.length s) <? 4000).

(** ** The lines of a saved file *)

Definition variable_text (v : cw_variable) : string :=
  v_name v +:+ " " +:+ (if v_object v then "=>" else "=") +:+ " " +:+ v_value v
    +:+ match v_sameline v with Some cmt => "  ; " +:+ cmt | None => EmptyString end.

Definition variable_lines (v : cw_variable) : list string :=
  variable_text v :: replicate (v_blanklines v) EmptyString.

Definition category_lines (c : cw_category) : list string :=
  ("[" +:+ cat_name c +:+ "]")%string :: concat (variable_lines <$> cat_vars c).

Definition header_lines (configfile fn generator date : string) : list string :=
  [";!"; ";! Automatically generated configuration file";
   ";! Filename: " +:+ configfile +:+ " (" +:+ fn +:+ ")";
   ";! Generator: " +:+ generator; ";! Creation Date: " +:+ date; ";!"]%string.

Lemma file_of_app l k : file_of (l ++ k) = (file_of l +:+ file_of k)%string.
Proof.
  induction l as [|s l IH]; [done|]. cbn [app file_of foldr]. fold (file_of (l ++ k)) (file_of l).
  by rewrite IH, !string_app_assoc.
Qed.

Lemma save_variable_lines v : save_variable v = file_of (variable_lines v).
Proof.
  unfold save_variable, variable_lines, variable_text. cbn [file_of foldr].
  assert (E : forall n, blank_lines n = foldr (fun a b => a +:+ newline +:+ b) EmptyString (replicate n EmptyString)).
  { induction n as [|n IH]; [done|]. cbn [blank_lines replicate foldr]. by rewrite IH. }
  rewrite <- E, !string_app_assoc. do 4 f_equal. by destruct (v_sameline v); rewrite ?string_app_assoc.
Qed.

Lemma save_all_lines {A} (f : A -> string) (g : A -> list string) l :
  (forall a, f a = file_of (g a)) ->
  foldr (fun a s => f a +:+ s)%string EmptyString l = file_of (concat (g <$> l)).
Proof.
  intros H. induction l as [|a l IH]; [done|]. cbn [foldr fmap list_fmap concat].
  by rewrite file_of_app, <- H, IH.
Qed.

Lemma save_category_lines c : save_category c = file_of (category_lines c).
Proof.
  unfold save_category. rewrite (save_all_lines save_variable variable_lines) by apply save_variable_lines.
  unfold category_lines. cbn [file_of foldr]. by rewrite !string_app_assoc.
Qed.

Lemma saved_text config_dir configfile generator date cfg d :
  strtake 255 date = (d +:+ newline)%string ->
  config_text_file_save config_dir configfile generator date true cfg =
    Some (file_of (header_lines configfile (full_name config_dir configfile) generator d
                     ++ concat (category_lines <$> cf_cats cfg))).
Proof.
  intros Hd. unfold config_text_file_save. rewrite Hd, file_of_app. do 2 f_equal.
  - unfold save_header, header_lines. cbn [file_of foldr]. by rewrite !string_app_assoc.
  - apply save_all_lines, save_category_lines.
Qed.

(** ** Lines read *)

Definition line_short (s : string) : bool :=
  no_newline s && (Z.of_nat (String.length s) <? 8191).

Lemma lines_of_file l : Forall (fun s => line_short s = true) l ->
  lines_of (file_of l) = ((fun s => Some (s +:+ newline)%string) <$> l) ++ [None].
Proof.
  induction 1 as [|s l Hs Hl IH]; [apply lines_of_nil|]. cbn [file_of foldr]. fold (file_of l).
  unfold line_short in Hs. apply andb_true_iff in Hs as [H1 H2]. apply Z.ltb_lt in H2.
  rewrite lines_of_cons by done. cbn [fmap list_fmap app]. by rewrite IH.
Qed.

Lemma trim_left_length p s : (String.length (trim_left p s) <= String.length s)%nat.
Proof. induction s as [|c s IH]; [done|]. cbn [trim_left]. case_if; cbn [String.length]; lia. Qed.

Lemma trim_right_length p s : (String.length (trim_right p s) <= String.length s)%nat.
Proof.
  induction s as [|c s IH]; [done|]. cbn [trim_right].
  destruct (trim_right p s); [case_if|]; cbn [String.length] in *; lia.
Qed.

Lemma stripped_cons c s : stripped (String c s) = true ->
  blank c = false /\ trim_right blank (String c s) = String c s.
Proof.
  unfold stripped. intros H%streq_eq. unfold cw_strip, cw_trim_blanks, cw_skip_blanks in H.
  destruct (blank c) eqn:E; [|by rewrite trim_left_id in H].
  exfalso. cbn [trim_left] in H. rewrite E in H. apply (f_equal String.length) in H.
  pose proof (trim_right_length blank (trim_left blank s)). pose proof (trim_left_length blank s).
  cbn [String.length] in H. lia.
Qed.

Lemma lacks_trim_left c p s : lacks c s = true -> lacks c (trim_left p s) = true.
Proof.
  induction s as [|d s IH]; [done|]. intros H. cbn [trim_left]. case_if; [|done].
  rewrite lacks_cons in H. apply andb_true_iff in H as [_ H]. auto.
Qed.

(** A value behind its space, with blanks behind it. *)
Lemma value_stripped value b : stripped value = true -> all_chars blank b = true ->
  let v := trim_right blank (" " +:+ value +:+ b) in cw_strip v = value /\ begins ">" v = false.
Proof.
  intros Hv Hb v. subst v.
  replace (" " +:+ value +:+ b)%string with ((" " +:+ value) +:+ b)%string by (by rewrite string_app_assoc).
  rewrite trim_right_all by done. destruct value as [|c s]; [done|].
  apply stripped_cons in Hv as [Hc Hr].
  assert (E : trim_right blank (" " +:+ String c s) = String " " (String c s)).
  { change (" " +:+ String c s)%string with (String " " (String c s)). cbn [trim_right] in Hr |- *.
    by rewrite Hr. }
  rewrite E. split; [|done]. unfold cw_strip, cw_trim_blanks, cw_skip_blanks.
  change (trim_left blank (String " " (String c s))) with (trim_left blank (String c s)).
  by rewrite trim_left_id.
Qed.

Lemma name_stripped name : stripped name = true ->
  cw_strip (trim_left blank (name +:+ " ")) = name.
Proof.
  intros Hn. destruct name as [|c s]; [done|]. apply stripped_cons in Hn as [Hc Hr].
  rewrite string_cons_app, trim_left_id by done. unfold cw_strip, cw_trim_blanks, cw_skip_blanks.
  rewrite trim_left_id by done. by rewrite <- string_cons_app, trim_right_all.
Qed.

(** A line in front of its first semicolon, when that starts a plain comment. *)
Lemma strip_comment_cut a r : plain_text a = true -> ends_tags (String.list_ascii_of_string a) = false ->
  nul_free r = true -> starts_comment (String.list_ascii_of_string r) = false ->
  exists left, strip_comments 0 (a +:+ String ";" r) = Returns (left, 0) /\ default EmptyString left = a.
Proof.
  intros Ha Ht Hr Hs. destruct (plain_list a Ha) as (H0 & H1 & H2).
  unfold plain_text in Ha. apply andb_true_iff in Ha as [[Hn _]%andb_true_iff _].
  destruct (comments_removed 0 (a +:+ String ";" r) (String.list_ascii_of_string a) 0) as (left & E & El).
  - change (String ";" r) with (";" +:+ r)%string. by rewrite !nul_free_app, Hn, Hr.
  - rewrite list_of_append. change (String.list_ascii_of_string (String ";" r))
      with (COMMENT_META :: String.list_ascii_of_string r).
    rewrite scan_segment, H2, Hs, Ht by done. cbn. by rewrite app_nil_r.
  - exists left. split; [exact E|]. by rewrite El, String.string_of_list_ascii_of_string.
Qed.

Lemma ends_in_space (s : string) :
  let l := String.list_ascii_of_string (s +:+ "  ") in
  ends_escape l = false /\ ends_tags l = false.
Proof.
  intros l. subst l. rewrite list_of_append. unfold ends_escape, ends_tags.
  change (String.list_ascii_of_string "  ") with [" "; " "]%char.
  rewrite last_app_cons, rev_app_distr. done.
Qed.

Section lines.
Context (exec : string -> string) (exec_includes : bool).
Context (load : string -> cw_config -> run (bool * cw_config)) (filename : string).

#[local] Abbreviation lines := (load_lines exec exec_includes (fun _ _ => true) load filename).
#[local] Abbreviation line := (load_line exec exec_includes (fun _ _ => true) load filename).

Definition next_line (ld : loader) : loader :=
  {| ld_lineno := ld_lineno ld + 1; ld_comment := ld_comment ld; ld_cat := ld_cat ld; ld_cfg := ld_cfg ld |}.

Lemma load_lines_app l k ld ld' :
  lines l ld = Returns (true, ld') -> lines (l ++ k) ld = lines k ld'.
Proof.
  revert ld. induction l as [|s l IH]; intros ld; cbn [load_lines app].
  { by intros [= ->]. }
  destruct (line s ld) as [[ok ld2]| |]; [|done..]. cbn [mbind run_bind]. destruct ok; [|done].
  apply IH.
Qed.

Lemma comment_line_skipped r ld : nul_free r = true -> ld_comment ld = 0 ->
  line (Some (";!" +:+ r)%string) ld = Returns (true, next_line ld).
Proof.
  intros Hr Hc. unfold load_line. rewrite Hc.
  destruct (comments_removed 0 (";!" +:+ r) [] 0) as (left & E & El).
  - by rewrite nul_free_app, Hr.
  - rewrite list_of_append. by destruct (String.list_ascii_of_string r).
  - change (Z.of_nat 0) with 0 in E. rewrite E. cbn [mbind run_bind]. rewrite El. unfold next_line. by rewrite Hc.
Qed.

Lemma blank_line_skipped ld : ld_comment ld = 0 ->
  line (Some (EmptyString +:+ newline)%string) ld = Returns (true, next_line ld).
Proof. intros Hc. unfold load_line, next_line. by rewrite Hc. Qed.

Lemma blank_lines_skipped n ld : ld_comment ld = 0 ->
  lines ((fun s => Some (s +:+ newline)%string) <$> replicate n EmptyString) ld
  = Returns (true, Nat.iter n next_line ld).
Proof.
  revert ld. induction n as [|n IH]; intros ld Hc; [done|]. cbn [replicate fmap list_fmap load_lines].
  rewrite blank_line_skipped by done. cbn [mbind run_bind]. rewrite IH by done.
  by rewrite Nat.iter_succ_r.
Qed.

Lemma category_line_loaded name ld :
  text_ok name = true -> lacks "]" name = true -> (String.length name < CATEGORY_NAME)%nat ->
  ld_comment ld = 0 -> cf_freed (ld_cfg ld) = false ->
  line (Some (("[" +:+ name +:+ "]") +:+ newline)%string) ld =
    Returns (true, {| ld_lineno := ld_lineno ld + 1; ld_comment := 0;
                      ld_cat := Some (length (cf_cats (ld_cfg ld)));
                      ld_cfg := cw_category_append (ld_cfg ld)
                        {| cat_name := name; cat_ignored := false; cat_vars := []; cat_stale := false |} |}).
Proof.
  unfold text_ok. intros [[Hn Hs]%andb_true_iff Hl]%andb_true_iff Hb Hlen Hc Hf.
  unfold load_line. rewrite Hc.
  rewrite strip_plain by (rewrite ?nul_free_app, ?lacks_app, ?Hn, ?Hs; done).
  cbn [mbind run_bind default from_option id].
  assert (E : cw_strip (("[" +:+ name +:+ "]") +:+ newline) = String "[" (name +:+ String "]" "")).
  { replace (("[" +:+ name +:+ "]") +:+ newline)%string with (String "[" (name +:+ String "]" newline))
      by (by rewrite !string_app_assoc).
    by rewrite strip_between. }
  rewrite E. unfold process_text_line. cbn [begins]. change (char_eqb "[" "[") with true. cbn iota.
  unfold category_header. rewrite <- string_cons_app, strcut_at by (rewrite lacks_cons; done).
  cbn [tail cw_category_new]. change (header_opts "") with (Some ([] : list string)). cbn iota.
  rewrite Hf. cbn [header_options mbind run_bind]. rewrite strtake_all by (unfold CATEGORY_NAME in *; lia).
  done.
Qed.

Definition assign_text (v : cw_variable) : string :=
  v_name v +:+ " " +:+ (if v_object v then "=>" else "=") +:+ " " +:+ v_value v.

Lemma variable_left v : variable_ok v = true ->
  exists left b, strip_comments 0 (variable_text v +:+ newline) = Returns (left, 0) /\
    default EmptyString left = (assign_text v +:+ b)%string /\ all_chars blank b = true.
Proof.
  unfold variable_ok, text_ok. intros H. split_ands.
  assert (Ha : nul_free (assign_text v) = true /\ lacks ";" (assign_text v) = true).
  { unfold assign_text. rewrite !nul_free_app, !lacks_app.
    destruct (v_object v); repeat match goal with E : _ = true |- _ => rewrite E; clear E end; done. }
  destruct Ha as [Ha Hs].
  replace (variable_text v) with (assign_text v +:+ match v_sameline v with Some cmt => "  ; " +:+ cmt
    | None => EmptyString end)%string by (unfold variable_text, assign_text; by rewrite !string_app_assoc).
  remember (v_sameline v) as sl eqn:Esl. clear Esl.
  destruct sl as [cmt|]; cbn [default from_option id] in *.
  - replace ((assign_text v +:+ "  ; " +:+ cmt) +:+ newline)%string
      with ((assign_text v +:+ "  ") +:+ String ";" (" " +:+ cmt +:+ newline))%string
      by (rewrite !string_app_assoc; done).
    destruct (ends_in_space (assign_text v)) as [E1 E2].
    destruct (strip_comment_cut (assign_text v +:+ "  ") (" " +:+ cmt +:+ newline)) as (left & E & El).
    + unfold plain_text. rewrite E1, nul_free_app, Ha, lacks_app. unfold COMMENT_META. by rewrite Hs.
    + done.
    + rewrite !nul_free_app. repeat match goal with E : _ = true |- _ => rewrite E; clear E end; done.
    + rewrite list_of_append. by destruct (String.list_ascii_of_string (cmt +:+ newline)).
    + exists left, "  "%string. done.
  - rewrite string_app_nil. exists (Some (assign_text v +:+ newline)%string), newline.
    rewrite strip_plain by (rewrite ?nul_free_app, ?lacks_app, ?Ha, ?Hs; done). done.
Qed.

(** What is read of a variable. *)
Definition read_variable (lineno : Z) (v : cw_variable) : cw_variable :=
  {| v_name := v_name v; v_value := v_value v; v_lineno := lineno; v_object := v_object v;
     v_blanklines := 0%nat; v_sameline := None |}.

Lemma assignment_parsed v b lineno i cfg :
  variable_ok v = true -> all_chars blank b = true -> cf_freed cfg = false ->
  exists c s, cw_strip (assign_text v +:+ b) = String c s /\
    process_text_line exec exec_includes (fun _ _ => true) load filename (String c s) lineno (Some i) cfg
    = Returns (0, Some i, on_category i (fun c => cw_variable_append c (read_variable lineno v)) cfg).
Proof.
  unfold variable_ok. intros H Hb Hf. split_ands. rename H8 into Hn, H3 into Hv.
  set (rest := ((if v_object v then ">" else "") +:+ " " +:+ v_value v +:+ b)%string).
  assert (E : cw_strip (assign_text v +:+ b)
    = (trim_left blank (v_name v +:+ " ") +:+ String "=" (trim_right blank rest))%string).
  { replace (assign_text v +:+ b)%string with ((v_name v +:+ " ") +:+ String "=" rest)%string
      by (unfold assign_text; subst rest; destruct (v_object v); rewrite !string_app_assoc; done).
    unfold cw_strip, cw_trim_blanks, cw_skip_blanks. by rewrite trim_left_app, trim_right_app. }
  rewrite E.
  assert (Hfirst : exists c s, (trim_left blank (v_name v +:+ " ")
      +:+ String "=" (trim_right blank rest))%string = String c s
    /\ char_eqb c "[" = false /\ char_eqb c "#" = false).
  { destruct (v_name v) as [|c s] eqn:En; [by eexists _, _|]. apply stripped_cons in Hn as [Hc _].
    rewrite string_cons_app, trim_left_id by done. rewrite string_cons_app. eexists _, _.
    split; [done|]. by apply negb_true_iff in H6, H5. }
  destruct Hfirst as (c & s & Ec & H1' & H2'). exists c, s. split; [done|]. rewrite <- Ec.
  unfold process_text_line. rewrite Ec. cbn [begins]. rewrite H1', H2', <- Ec.
  unfold variable_line. rewrite strcut_at.
  2: { apply lacks_trim_left. rewrite lacks_app. by rewrite H7. }
  destruct (value_stripped (v_value v) b Hv Hb) as [V1 V2].
  assert (Er : begins ">" (trim_right blank rest) = v_object v /\
    cw_strip (if v_object v then tail (trim_right blank rest) else trim_right blank rest) = v_value v).
  { subst rest. destruct (v_object v); [|by rewrite string_nil_app].
    change (">" +:+ ?x)%string with (EmptyString +:+ String ">" x)%string.
    rewrite trim_right_app by done. by rewrite string_nil_app. }
  destruct Er as [Er1 Er2]. rewrite Er1. rewrite name_stripped by done. rewrite Er2.
  cbn [cw_variable_new]. by rewrite Hf.
Qed.

Lemma variable_line_loaded v ld i :
  variable_ok v = true -> ld_comment ld = 0 -> ld_cat ld = Some i -> cf_freed (ld_cfg ld) = false ->
  line (Some (variable_text v +:+ newline)%string) ld =
    Returns (true, {| ld_lineno := ld_lineno ld + 1; ld_comment := 0; ld_cat := Some i;
                      ld_cfg := on_category i (fun c => cw_variable_append c
                        (read_variable (ld_lineno ld + 1) v)) (ld_cfg ld) |}).
Proof.
  intros Hv Hc Hi Hf. unfold load_line. rewrite Hc, Hi.
  destruct (variable_left v Hv) as (left & b & E & El & Hb). rewrite E. cbn [mbind run_bind].
  rewrite El. destruct (assignment_parsed v b (ld_lineno ld + 1) i (ld_cfg ld) Hv Hb Hf) as (c & s & -> & ->).
  done.
Qed.

(** A loader in the category at the end of the list. *)
Definition loads_into (ld : loader) (front : list cw_category) (c : cw_category) : Prop :=
  ld_comment ld = 0 /\ cf_freed (ld_cfg ld) = false /\ ld_cat ld = Some (length front) /\
  cf_cats (ld_cfg ld) = front ++ [c] /\ cat_stale c = false.

(** What a saved file keeps of a variable and of a category. *)
Definition kept_variable (v : cw_variable) : string * string * bool := (v_name v, v_value v, v_object v).
Definition saved_part (c : cw_category) : string * list (string * string * bool) :=
  (cat_name c, kept_variable <$> cat_vars c).

Lemma next_lines n ld front c : loads_into ld front c -> loads_into (Nat.iter n next_line ld) front c.
Proof. intros H. induction n as [|n IH]; [done|]. exact IH. Qed.

Lemma variable_lines_loaded v ld front c : variable_ok v = true -> loads_into ld front c ->
  exists ld' v', lines ((fun s => Some (s +:+ newline)%string) <$> variable_lines v) ld = Returns (true, ld') /\
    kept_variable v' = kept_variable v /\
    loads_into ld' front (c <| cat_vars := cat_vars c ++ [v'] |>).
Proof.
  intros Hv (Hc & Hf & Hi & Hcats & Hst). unfold variable_lines. cbn [fmap list_fmap load_lines].
  rewrite (variable_line_loaded v ld (length front)) by done. cbn [mbind run_bind].
  match goal with |- context [load_lines _ _ _ _ _ _ ?l] => set (ld2 := l) end.
  change (list_fmap _ _ ?f ?l) with (f <$> l). rewrite blank_lines_skipped by done.
  eexists _, (read_variable (ld_lineno ld + 1) v). split; [done|]. split; [done|].
  apply next_lines. split; [done|]. split; [done|]. split; [done|]. split; [|done].
  subst ld2. cbn [ld_cfg on_category upd]. simpl. rewrite Hcats.
  rewrite alter_app_r_alt, Nat.sub_diag by lia. simpl. unfold cw_variable_append.
  rewrite Hst. unfold upd. simpl. by rewrite Hst.
Qed.

Lemma vars_loaded vars ld front c : forallb variable_ok vars = true -> loads_into ld front c ->
  exists ld' vars',
    lines ((fun s => Some (s +:+ newline)%string) <$> concat (variable_lines <$> vars)) ld = Returns (true, ld') /\
    kept_variable <$> vars' = kept_variable <$> vars /\
    loads_into ld' front (c <| cat_vars := cat_vars c ++ vars' |>).
Proof.
  revert ld c. induction vars as [|v vars IH]; intros ld c Hv Hl.
  { exists ld, []. split; [done|]. split; [done|]. rewrite app_nil_r. by destruct c. }
  cbn [forallb] in Hv. apply andb_true_iff in Hv as [Hv Hvs].
  destruct (variable_lines_loaded v ld front c Hv Hl) as (ld1 & v' & E1 & K1 & L1).
  destruct (IH ld1 _ Hvs L1) as (ld2 & vars' & E2 & K2 & L2).
  exists ld2, (v' :: vars'). cbn [fmap list_fmap concat]. rewrite fmap_app.
  rewrite (load_lines_app _ _ _ _ E1). split; [exact E2|]. split; [exact (f_equal2 cons K1 K2)|].
  cbn [upd cat_vars] in L2. simpl in L2 |- *. by rewrite <- app_assoc in L2.
Qed.
End lines.

(** ** The round trip *)

Section saved.
Context (exec : string -> string) (exec_includes : bool).
Context (load : string -> cw_config -> run (bool * cw_config)) (filename : string).

#[local] Abbreviation lines := (load_lines exec exec_includes (fun _ _ => true) load filename).

(** A loader between categories: nothing is open and all that was read is kept
    and visible. *)
Definition loaded (ld : loader) (cats : list cw_category) : Prop :=
  ld_comment ld = 0 /\ cf_freed (ld_cfg ld) = false /\
  saved_part <$> cf_cats (ld_cfg ld) = saved_part <$> cats /\
  Forall (fun c => cat_ignored c = false) (cf_cats (ld_cfg ld)).

Lemma category_loaded c ld cats : category_ok c = true -> loaded ld cats ->
  exists ld', lines ((fun s => Some (s +:+ newline)%string) <$> category_lines c) ld = Returns (true, ld') /\
    loaded ld' (cats ++ [c]).
Proof.
  unfold category_ok. intros H (Hc & Hf & Hk & Hi).
  apply andb_true_iff in H as [H Hv]. apply andb_true_iff in H as [H Hlen].
  apply andb_true_iff in H as [Ht Hb]. apply Z.ltb_lt in Hlen.
  unfold category_lines. rewrite fmap_cons. cbn [load_lines].
  rewrite category_line_loaded by (done || lia). cbn [mbind run_bind].
  match goal with |- context [load_lines _ _ _ _ _ _ ?l] => set (ld1 := l) end.
  set (new := {| cat_name := cat_name c; cat_ignored := false; cat_vars := []; cat_stale := false |}).
  assert (L : loads_into ld1 (cf_cats (ld_cfg ld)) new) by done.
  destruct (vars_loaded exec exec_includes load filename (cat_vars c) ld1 _ new Hv L)
    as (ld' & vars' & E & K & (L1 & L2 & L3 & L4 & L5)).
  exists ld'. split; [exact E|]. split; [done|]. split; [done|]. rewrite L4, !fmap_app, Hk. split.
  - f_equal. cbn. unfold saved_part. cbn [cat_name cat_vars upd]. simpl. by rewrite K.
  - apply Forall_app_2; [done|]. by repeat constructor.
Qed.

Lemma categories_loaded cs ld cats : forallb category_ok cs = true -> loaded ld cats ->
  exists ld', lines ((fun s => Some (s +:+ newline)%string) <$> concat (category_lines <$> cs)) ld
      = Returns (true, ld') /\ loaded ld' (cats ++ cs).
Proof.
  revert ld cats. induction cs as [|c cs IH]; intros ld cats Hc Hl.
  { exists ld. by rewrite app_nil_r. }
  cbn [forallb] in Hc. apply andb_true_iff in Hc as [Hc Hcs].
  destruct (category_loaded c ld cats Hc Hl) as (ld1 & E1 & L1).
  destruct (IH ld1 _ Hcs L1) as (ld2 & E2 & L2). exists ld2.
  rewrite fmap_cons. cbn [concat]. rewrite fmap_app, (load_lines_app _ _ _ _ _ _ _ _ E1).
  split; [exact E2|]. by rewrite <- app_assoc in L2.
Qed.

Lemma comment_lines_skipped ls ld :
  Forall (fun s => exists r, s = (";!" +:+ r)%string /\ nul_free r = true) ls -> ld_comment ld = 0 ->
  lines ((fun s => Some (s +:+ newline)%string) <$> ls) ld = Returns (true, Nat.iter (length ls) next_line ld).
Proof.
  intros H. revert ld. induction H as [|s ls (r & -> & Hr) H IH]; intros ld Hc; [done|].
  rewrite fmap_cons. cbn [load_lines]. rewrite string_app_assoc.
  rewrite comment_line_skipped by (rewrite ?nul_free_app, ?Hr; done).
  cbn [mbind run_bind]. rewrite IH by done. cbn [length]. by rewrite Nat.iter_succ_r.
Qed.
End saved.

Lemma all_chars_strtake p n s : all_chars p s = true -> all_chars p (strtake n s) = true.
Proof.
  revert n. induction s as [|c s IH]; intros [|n]; [done..|]. cbn [all_chars strtake].
  intros [Hc Hs]%andb_true_iff. by rewrite Hc, IH.
Qed.

Lemma full_name_ok p dir f : all_chars p "/" = true -> all_chars p dir = true -> all_chars p f = true ->
  all_chars p (full_name dir f) = true /\ Z.of_nat (String.length (full_name dir f)) <= 255.
Proof.
  intros Hs Hd Hf. unfold full_name. case_if; (split; [|rewrite strtake_length; lia]);
    apply all_chars_strtake; [done|]. by rewrite !all_chars_app, Hd, Hs, Hf.
Qed.

Lemma header_lines_ok configfile fn generator d :
  comment_ok configfile = true -> comment_ok generator = true -> comment_ok d = true ->
  comment_ok fn = true ->
  Forall (fun s => line_short s = true) (header_lines configfile fn generator d) /\
  Forall (fun s => exists r, s = (";!" +:+ r)%string /\ nul_free r = true)
    (header_lines configfile fn generator d).
Proof.
  unfold comment_ok, line_short, header_lines. intros H1 H2 H3 H4. split_ands.
  repeat match goal with E : (_ <? _) = true |- _ => apply Z.ltb_lt in E end.
  split; repeat constructor; try done.
  1-3: apply andb_true_iff; split; [|apply Z.ltb_lt; rewrite !length_append; simpl; lia];
    unfold no_newline in *; rewrite !all_chars_app;
    repeat match goal with E : all_chars _ _ = true |- _ => rewrite E; clear E end; done.
  - by exists EmptyString.
  - by exists " Automatically generated configuration file"%string.
  - exists (" Filename: " +:+ configfile +:+ " (" +:+ fn +:+ ")")%string. split; [done|].
    by rewrite !nul_free_app, H1, H4.
  - exists (" Generator: " +:+ generator)%string. split; [done|]. by rewrite !nul_free_app, H2.
  - exists (" Creation Date: " +:+ d)%string. split; [done|]. by rewrite !nul_free_app, H3.
  - by exists EmptyString.
Qed.

Lemma variable_lines_short v : variable_ok v = true ->
  Forall (fun s => line_short s = true) (variable_lines v).
Proof.
  intros H. unfold variable_ok, text_ok in H. split_ands. unfold variable_lines. constructor.
  - unfold line_short, variable_text. apply andb_true_iff. split.
    + unfold no_newline in *. rewrite !all_chars_app.
      remember (v_sameline v) as sl eqn:Esl. clear Esl.
      destruct sl as [cmt|]; cbn [default from_option id] in *; rewrite ?all_chars_app;
        repeat match goal with E : all_chars _ _ = true |- _ => rewrite E; clear E end;
        by destruct (v_object v).
    + apply Z.ltb_lt. match goal with E : (_ <? _) = true |- _ => apply Z.ltb_lt in E end.
      rewrite !length_append.
      assert (String.length (if v_object v then "=>" else "=") <= 2)%nat by (destruct (v_object v); simpl; lia).
      remember (v_sameline v) as sl eqn:Esl. clear Esl.
      destruct sl as [cmt|]; cbn [default from_option id] in *; rewrite ?length_append;
        cbn [String.length] in *; lia.
  - apply Forall_replicate. done.
Qed.

Lemma category_lines_short c : category_ok c = true ->
  Forall (fun s => line_short s = true) (category_lines c).
Proof.
  intros H. unfold category_ok, text_ok in H. split_ands. unfold category_lines. constructor.
  - unfold line_short, no_newline in *. rewrite !all_chars_app.
    match goal with E : all_chars _ _ = true |- _ => rewrite E end. cbn [andb].
    apply Z.ltb_lt. match goal with E : (_ <? _) = true |- _ => apply Z.ltb_lt in E end.
    rewrite !length_append. unfold CATEGORY_NAME in *. simpl. lia.
  - match goal with E : forallb _ _ = true |- _ => rename E into Hv end.
    induction (cat_vars c) as [|v l IH]; [constructor|]. cbn [forallb] in Hv.
    apply andb_true_iff in Hv as [Hv Hl]. rewrite fmap_cons. cbn [concat].
    apply Forall_app_2; [by apply variable_lines_short|by apply IH].
Qed.


(** A template, a peer with a comment and an empty line behind a variable. *)
Definition to_save : cw_config :=
  {| cf_cats :=
       [ {| cat_name := "base"; cat_ignored := true; cat_stale := false;
            cat_vars := [ {| v_name := "host"; v_value := "dynamic"; v_lineno := 3; v_object := false;
                             v_blanklines := 1%nat; v_sameline := Some "any address"%string |} ] |};
         {| cat_name := "default"; cat_ignored := false; cat_stale := false;
            cat_vars := [ {| v_name := "exten"; v_value := "_1NX,1,Dial(SIP/a = b)"; v_lineno := 7;
                             v_object := true; v_blanklines := 0%nat; v_sameline := None |};
                          {| v_name := "empty"; v_value := ""; v_lineno := 8; v_object := false;
                             v_blanklines := 0%nat; v_sameline := None |} ] |} ];
     cf_current := None; cf_last_browse := None; cf_include_level := 0;
     cf_max_include_level := MAX_INCLUDE_LEVEL; cf_freed := false |}.

Definition saved_date : string := "Sat Jan  1 12:00:00 2005" +:+ newline.

Definition saved_file (f : string) : option string :=
  if streq f "/etc/sip.conf" then config_text_file_save "/etc" "sip.conf" "manager" saved_date true to_save
  else None.


(** A semicolon in a value is written as it is, and the rest of the value is
    taken for a comment. *)
Example semicolon_is_lost :
  strip_comments 0 (save_variable {| v_name := "secret"; v_value := "a;b"; v_lineno := 1; v_object := false;
                                     v_blanklines := 0%nat; v_sameline := None |})
  = Returns (Some "secret = a", 0).
Proof. vm_compute. reflexivity. Qed.
