(* ===== verification/ChanQueue.v ===== *)
(** * Frames read from a channel (corelib/channel.c)

    Other threads queue frames on a channel ([cw_queue_frame]); the thread of the
    call reads them, and what the driver has, with [cw_read].  An alert pipe has
    a mark for every frame that was queued, so that the thread wakes up for it.
    Hanging up is a flag that [cw_read] looks at before anything else.  Digits
    that come while they are not wanted are kept in [dtmfq].

    The driver's read and exception functions, the translator (Translate) and a
    pending masquerade are parameters; a frame that a driver returns may have
    others linked to it.  [t] is what [time] returns, [now] the clock of the call
    detail records.  [None] in place of a result is a bad memory access.  What a driver
    does from its callbacks to the channel itself is not covered. *)

From S2P Require Import Prelude Time CStr Utils Frame Find Cdr World.
From S2P Require Import PbxRun.
Open Scope Z_scope.

Definition CW_FRAME_CONTROL : Z := 4.
Definition CW_CONTROL_HANGUP : Z := 1.
Definition CW_CONTROL_ANSWER : Z := 4.

(** ** State *)

(** What is done to the stream of a monitor. *)
Inductive monitor_op := Seek (samples : Z) | Write (f : cw_frame).

(** [q_alerts] are the marks in the pipe, if there is a pipe; [q_spies] the
    frames queued for each spy. *)
Record channel (R Dv : Type) := {
  q_readq : list cw_frame; q_alerts : option nat; q_softhangup : Z; q_tech_pvt : bool;
  q_whentohangup : Z; q_zombie : bool; q_defer_dtmf : bool; q_exception : bool;
  q_dtmfq : list Z; q_state : Z; q_nativeformats : Z; q_readtrans : option R;
  q_cdr : list cw_cdr; q_clock : nat; q_fin : Z; q_driver : Dv; q_masq : bool;
  q_spies : list (list cw_frame); q_monitor : option (list monitor_op);
  q_insmpl : Z; q_outsmpl : Z }.

Arguments q_readq {R Dv} c : rename.
Arguments q_alerts {R Dv} c : rename.
Arguments q_softhangup {R Dv} c : rename.
Arguments q_tech_pvt {R Dv} c : rename.
Arguments q_whentohangup {R Dv} c : rename.
Arguments q_zombie {R Dv} c : rename.
Arguments q_defer_dtmf {R Dv} c : rename.
Arguments q_exception {R Dv} c : rename.
Arguments q_dtmfq {R Dv} c : rename.
Arguments q_state {R Dv} c : rename.
Arguments q_nativeformats {R Dv} c : rename.
Arguments q_readtrans {R Dv} c : rename.
Arguments q_cdr {R Dv} c : rename.
Arguments q_clock {R Dv} c : rename.
Arguments q_fin {R Dv} c : rename.
Arguments q_driver {R Dv} c : rename.
Arguments q_masq {R Dv} c : rename.
Arguments q_spies {R Dv} c : rename.
Arguments q_monitor {R Dv} c : rename.
Arguments q_insmpl {R Dv} c : rename.
Arguments q_outsmpl {R Dv} c : rename.

#[export] Instance channel_eta {R Dv} : Eta (channel R Dv) :=
  fun c => {| q_readq := q_readq c; q_alerts := q_alerts c; q_softhangup := q_softhangup c;
              q_tech_pvt := q_tech_pvt c; q_whentohangup := q_whentohangup c; q_zombie := q_zombie c;
              q_defer_dtmf := q_defer_dtmf c; q_exception := q_exception c; q_dtmfq := q_dtmfq c;
              q_state := q_state c; q_nativeformats := q_nativeformats c; q_readtrans := q_readtrans c;
              q_cdr := q_cdr c; q_clock := q_clock c; q_fin := q_fin c; q_driver := q_driver c;
              q_masq := q_masq c; q_spies := q_spies c; q_monitor := q_monitor c;
              q_insmpl := q_insmpl c; q_outsmpl := q_outsmpl c |}.

Definition is_hangup (f : cw_frame) : bool :=
  (f_frametype f =? CW_FRAME_CONTROL) && (f_subclass f =? CW_CONTROL_HANGUP).

Definition is_voice (f : cw_frame) : bool := f_frametype f =? CW_FRAME_VOICE.

Section channel.
Context {R Dv : Type}.
#[local] Abbreviation chan := (channel R Dv).

(** ** Hanging up *)

Definition cw_check_hangup (t : Z) (c : chan) : bool * chan :=
  if negb (q_softhangup c =? 0) then (true, c)
  else if negb (q_tech_pvt c) then (true, c)
  else if q_whentohangup c =? 0 then (false, c)
  else if t <? q_whentohangup c then (false, c)
  else (true, c <| q_softhangup := Z.lor (q_softhangup c) CW_SOFTHANGUP_TIMEOUT |>).

(** ** Queueing *)

(** A frame behind a hangup, or behind too many others, is dropped. *)
Definition cw_queue_frame (malloc_ok : bool) (fin : cw_frame) (c : chan) : option (Z * chan) :=
  f ← cw_frdup malloc_ok fin;
  match f with
  | None => Some (-1, c)
  | Some f =>
    let qlen := Z.of_nat (length (q_readq c)) in
    Some (0,
      if existsb is_hangup (q_readq c) then c
      else if (is_voice fin && (96 <? qlen)) || (128 <? qlen) then c
      else c <| q_readq := q_readq c ++ [f] |> <| q_alerts := S <$> q_alerts c |>)
  end.

(** A frame with an initialiser for its first two fields: the others are zero. *)
Definition brace_frame (frametype subclass : Z) : cw_frame :=
  mk_cw_frame frametype subclass 0 0 0 0 0 None None (cw_tv 0 0) false 0 0 0 0.

Definition control_frame (subclass : Z) : cw_frame := brace_frame CW_FRAME_CONTROL subclass.

Definition null_frame : cw_frame := brace_frame CW_FRAME_NULL 0.

(** [locked] is whether the lock of the channel could be had at once. *)
Definition cw_queue_hangup (malloc_ok locked : bool) (c : chan) : option (Z * chan) :=
  cw_queue_frame malloc_ok (control_frame CW_CONTROL_HANGUP)
    (if locked then c <| q_softhangup := Z.lor (q_softhangup c) CW_SOFTHANGUP_DEV |> else c).

Definition cw_queue_control (malloc_ok : bool) (control : Z) (c : chan) : option (Z * chan) :=
  cw_queue_frame malloc_ok (control_frame control) c.

Definition cw_softhangup_nolock (malloc_ok : bool) (cause : Z) (c : chan) : option chan :=
  snd <$> cw_queue_frame malloc_ok null_frame
            (c <| q_softhangup := Z.lor (q_softhangup c) cause |>).

Definition cw_channel_setwhentohangup (malloc_ok : bool) (t offset : Z) (c : chan) : option chan :=
  snd <$> cw_queue_frame malloc_ok null_frame
            (c <| q_whentohangup := if offset =? 0 then 0 else t + offset |>).

Definition cw_channel_cmpwhentohangup (t offset : Z) (c : chan) : Z :=
  if q_whentohangup c =? 0 then if offset =? 0 then 0 else -1
  else if offset =? 0 then 1
  else
    let when := offset + t in
    if q_whentohangup c <? when then 1 else if q_whentohangup c =? when then 0 else -1.

Definition cw_channel_defer_dtmf (c : chan) : bool * chan := (q_defer_dtmf c, c <| q_defer_dtmf := true |>).

Definition cw_channel_undefer_dtmf (c : chan) : chan := c <| q_defer_dtmf := false |>.

(** ** Spies and monitors *)

(** The loop counts the frames in front of the last. *)
Definition cw_queue_spy_frame (malloc_ok : bool) (f : cw_frame) (queue : list cw_frame)
    : option (list cw_frame) :=
  if 1000 <? Z.of_nat (length queue) - 1 then Some []
  else
    d ← cw_frdup malloc_ok f;
    Some match d with Some d => queue ++ [d] | None => queue end.

Fixpoint spy_all (malloc_ok : bool) (f : cw_frame) (spies : list (list cw_frame))
    : option (list (list cw_frame)) :=
  match spies with
  | [] => Some []
  | q :: spies =>
    q ← cw_queue_spy_frame malloc_ok f q;
    spies ← spy_all malloc_ok f spies;
    Some (q :: spies)
  end.

(** The recording of a direction that is ahead waits for the other. *)
Definition monitor_read (f : cw_frame) (c : chan) : chan :=
  match q_monitor c with
  | None => c
  | Some tape =>
    let jump := s32 (q_outsmpl c - q_insmpl c - s32 (2 * f_samples f)) in
    if 0 <=? jump then
      c <| q_monitor := Some (tape ++ [Seek (s32 (jump + f_samples f)); Write f]) |>
        <| q_insmpl := wrap_u 64 (q_insmpl c + s32 (jump + s32 (2 * f_samples f))) |>
    else
      c <| q_monitor := Some (tape ++ [Write f]) |> <| q_insmpl := wrap_u 64 (q_insmpl c + f_samples f) |>
  end.

(** ** Reading *)

Context (cw_translate : R -> cw_frame -> option cw_frame * R).
Context (tech_read tech_exception : option (Dv -> list cw_frame * Dv)).
Context (cw_do_masquerade : chan -> bool * chan).
Context (now : nat -> timeval).

(** A digit that was kept, with the rest moved to the front. *)
Definition take_digit (c : chan) : option (Z * chan) :=
  match q_dtmfq c with
  | d :: rest =>
    if q_defer_dtmf c || (d =? 0) then None
    else Some (d, c <| q_dtmfq := rest ++ [List.last rest 0] |>)
  | [] => None
  end.

(** The first frame of the queue, or what the driver has.  Frames linked to the
    driver's first one become the queue. *)
Definition next_frame (c : chan) : option cw_frame * chan :=
  let c := c <| q_alerts := pred <$> q_alerts c |> in
  match q_readq c with
  | f :: next =>
    (if is_hangup f then None else Some f, c <| q_readq := next |>)
  | [] =>
    let '(frames, c) :=
      if q_exception c then
        let c := c <| q_exception := false |> in
        match tech_exception with
        | Some f => let '(frames, d) := f (q_driver c) in (frames, c <| q_driver := d |>)
        | None => ([null_frame], c)
        end
      else
        match tech_read with
        | Some f => let '(frames, d) := f (q_driver c) in (frames, c <| q_driver := d |>)
        | None => ([], c)
        end in
    match frames with
    | [] => (None, c)
    | f :: next => (Some f, c <| q_readq := next |>)
    end
  end.

(** A voice frame is heard by spies and monitor and translated. *)
Definition hear (malloc_ok : bool) (f : cw_frame) (c : chan) : option (cw_frame * chan) :=
  if is_voice f then
    if Z.land (f_subclass f) (q_nativeformats c) =? 0 then Some (null_frame, c)
    else
      spies ← spy_all malloc_ok f (q_spies c);
      let c := monitor_read f (c <| q_spies := spies |>) in
      Some match q_readtrans c with
           | None => (f, c)
           | Some r =>
             let '(g, r) := cw_translate r f in
             (default null_frame g, c <| q_readtrans := Some r |>)
           end
  else Some (f, c).

(** [strlen] of a buffer; [None] without a terminator. *)
Fixpoint zstrlen (q : list Z) : option nat :=
  match q with
  | [] => None
  | b :: q => if b =? 0 then Some 0%nat else S <$> zstrlen q
  end.

(** A digit goes behind those that are kept, if there is room for it and the
    terminator. *)
Definition keep_digit (d : Z) (q : list Z) : option (list Z) :=
  n ← zstrlen q;
  Some (if bool_decide (n < CW_MAX_EXTENSION - 2)%nat then <[n := wrap_s 8 d]> q else q).

(** What a frame means to the channel itself. *)
Definition interpret (prestate : Z) (f : option cw_frame) (c : chan) : option (option cw_frame * chan) :=
  match f with
  | None =>
    let '(n, cdr) := cw_cdr_end now (q_clock c) (q_cdr c) in
    Some (None, c <| q_softhangup := Z.lor (q_softhangup c) CW_SOFTHANGUP_DEV |>
                  <| q_cdr := cdr |> <| q_clock := n |>)
  | Some f =>
    if q_defer_dtmf c && (f_frametype f =? CW_FRAME_DTMF) then
      q ← keep_digit (f_subclass f) (q_dtmfq c);
      Some (Some null_frame, c <| q_dtmfq := q |>)
    else if (f_frametype f =? CW_FRAME_CONTROL) && (f_subclass f =? CW_CONTROL_ANSWER) then
      let '(n, cdr) := cw_cdr_answer now (q_clock c) (q_cdr c) in
      Some (Some (if prestate =? CW_STATE_UP then null_frame else f),
            c <| q_state := CW_STATE_UP |> <| q_cdr := cdr |> <| q_clock := n |>)
    else Some (Some f, c)
  end.

(** The number of frames read, with the bit for debugging. *)
Definition count_frame (fin : Z) : Z :=
  if Z.land fin 0x7fffffff =? 0x7fffffff then Z.land fin 0x80000000 else u32 (fin + 1).

Definition cw_read (malloc_ok : bool) (t : Z) (c : chan) : option (option cw_frame * chan) :=
  if q_masq c then
    let '(failed, c) := cw_do_masquerade c in
    Some (if failed then None else Some null_frame, c)
  else if q_zombie c then Some (None, c)
  else
    let '(hungup, c) := cw_check_hangup t c in
    if hungup : bool then Some (None, c)
    else
      match take_digit c with
      | Some (d, c) => Some (Some (cw_fr_init_ex CW_FRAME_DTMF d None), c)
      | None =>
        let prestate := q_state c in
        let '(f, c) := next_frame c in
        '(f, c) ← match f with
                  | None => Some (None, c)
                  | Some f => '(f, c) ← hear malloc_ok f c; Some (Some f, c)
                  end;
        '(f, c) ← interpret prestate f c;
        Some (f, c <| q_fin := count_frame (q_fin c) |>)
      end.

(** ** The queue and its marks *)

(** What other threads and the call's own do to a channel that nobody is to
    masquerade as. *)
Inductive chan_step : chan -> chan -> Prop :=
  | step_queue m f c r c' : cw_queue_frame m f c = Some (r, c') -> chan_step c c'
  | step_hangup m l c r c' : cw_queue_hangup m l c = Some (r, c') -> chan_step c c'
  | step_control m k c r c' : cw_queue_control m k c = Some (r, c') -> chan_step c c'
  | step_soft m cause c c' : 0 <= cause -> cw_softhangup_nolock m cause c = Some c' -> chan_step c c'
  | step_when m t off c c' : cw_channel_setwhentohangup m t off c = Some c' -> chan_step c c'
  | step_defer c : chan_step c (cw_channel_defer_dtmf c).2
  | step_undefer c : chan_step c (cw_channel_undefer_dtmf c)
  | step_read m t c r c' : cw_read m t c = Some (r, c') -> chan_step c c'.

(** A driver that returns one frame at a time. *)
Definition one_frame (f : option (Dv -> list cw_frame * Dv)) : Prop :=
  forall g d, f = Some g -> (length (g d).1 <= 1)%nat.

(** Nothing is queued behind a hangup. *)
Definition hangup_last (q : list cw_frame) : Prop :=
  forall front f back, q = front ++ f :: back -> is_hangup f = true -> back = [].

Definition queue_ok (c : chan) : Prop :=
  q_masq c = false /\ 0 <= q_softhangup c /\ (length (q_readq c) <= 129)%nat /\
  hangup_last (q_readq c) /\ q_alerts c = Some (length (q_readq c)).

Lemma hangup_last_snoc q f : existsb is_hangup q = false -> hangup_last (q ++ [f]).
Proof.
  intros H front g back E Hg. destruct back as [|b back _] using rev_ind; [done|].
  exfalso. rewrite app_comm_cons, app_assoc in E. apply app_inj_tail in E as [-> _].
  assert (existsb is_hangup (front ++ g :: back) = true); [|congruence].
  rewrite existsb_app. simpl. by rewrite Hg, orb_true_r.
Qed.

Lemma hangup_last_tail f q : hangup_last (f :: q) -> hangup_last q.
Proof. intros H front g back -> Hg. by apply (H (f :: front) g back). Qed.

Lemma queue_frame_ok m f c r c' : queue_ok c -> cw_queue_frame m f c = Some (r, c') -> queue_ok c'.
Proof.
  intros (Hm & Hs & Hl & Hh & Ha). unfold cw_queue_frame. destruct (cw_frdup m f) as [[g|]|]; [|by intros [= _ <-]|done].
  cbn [mbind option_bind]. destruct (existsb is_hangup (q_readq c)) eqn:E; [by intros [= _ <-]|].
  case_if; [by intros [= _ <-]|]. intros [= _ <-]. apply orb_false_iff in E0 as [_ Hq]. apply Z.ltb_ge in Hq.
  split; [done|]. split; [done|]. simpl. rewrite length_app, Ha. simpl. rewrite Nat.add_1_r.
  split; [lia|]. split; [by apply hangup_last_snoc|done].
Qed.

(** A part of [cw_read] that leaves the queue alone. *)
Definition same_readq (c c' : chan) : Prop :=
  q_masq c' = q_masq c /\ q_readq c' = q_readq c /\ q_alerts c' = q_alerts c /\
  (0 <= q_softhangup c -> 0 <= q_softhangup c').

Lemma same_readq_ok c c' : queue_ok c -> same_readq c c' -> queue_ok c'.
Proof.
  intros (Hm & Hs & Hl & Hh & Ha) (E1 & E2 & E3 & E4). unfold queue_ok. rewrite E1, E2, E3. auto.
Qed.

Lemma check_hangup_same t c : same_readq c (cw_check_hangup t c).2.
Proof.
  unfold cw_check_hangup. repeat case_if; try done. repeat split. intros H. by apply Z.lor_nonneg.
Qed.

Lemma monitor_same f c : same_readq c (monitor_read f c).
Proof. unfold monitor_read. destruct (q_monitor c); [|done]. by case_if. Qed.

Lemma hear_same m f c g c' : hear m f c = Some (g, c') -> same_readq c c'.
Proof.
  unfold hear. case_if; [|by intros [= _ <-]]. case_if; [by intros [= _ <-]|].
  destruct (spy_all _ _ _) as [spies|]; [|done]. cbn [mbind option_bind].
  pose proof (monitor_same f (c <| q_spies := spies |>)) as H.
  set (c2 := monitor_read f _) in *. destruct (q_readtrans c2) as [r|]; [|by intros [= _ <-]].
  destruct (cw_translate r f). by intros [= _ <-].
Qed.

Lemma interpret_same p f c g c' : interpret p f c = Some (g, c') -> same_readq c c'.
Proof.
  unfold interpret. destruct f as [f|].
  - case_if.
    { destruct (keep_digit _ _); [|done]. by intros [= _ <-]. }
    case_if; [|by intros [= _ <-]]. destruct (cw_cdr_answer _ _ _). by intros [= _ <-].
  - destruct (cw_cdr_end _ _ _). intros [= _ <-]. repeat split. intros H. by apply Z.lor_nonneg.
Qed.

Lemma take_digit_same c d c' : take_digit c = Some (d, c') -> same_readq c c'.
Proof.
  unfold take_digit. destruct (q_dtmfq c); [done|]. case_if; [done|]. by intros [= _ <-].
Qed.

Section one_frame.
Hypothesis Hread : one_frame tech_read.
Hypothesis Hexc : one_frame tech_exception.

Lemma next_frame_ok c : queue_ok c -> queue_ok (next_frame c).2.
Proof.
  intros (Hm & Hs & Hl & Hh & Ha). unfold next_frame. simpl (q_readq (_ <| _ := _ |>)).
  destruct (q_readq c) as [|f next] eqn:Eq; rewrite ?Eq in *.
  - assert (Hok : forall e d, queue_ok (c <| q_alerts := pred <$> q_alerts c |> <| q_exception := e |>
      <| q_driver := d |> <| q_readq := [] |>)).
    { intros e d. unfold queue_ok. simpl. split; [done|]. split; [done|]. split; [lia|].
      split; [intros front g back E; by destruct front|by rewrite Ha]. }
    simpl (q_exception _). destruct (q_exception c) eqn:Ee.
    + destruct tech_exception as [g|].
      * simpl (q_driver _). pose proof (Hexc g (q_driver c) eq_refl) as H1.
        destruct (g (q_driver c)) as [frames d]. destruct frames as [|f [|]]; simpl in H1; try lia.
        -- specialize (Hok false d). unfold queue_ok in Hok |- *. simpl in Hok |- *. by rewrite Eq.
        -- exact (Hok false d).
      * exact (Hok false (q_driver c)).
    + destruct tech_read as [g|].
      * simpl (q_driver _). pose proof (Hread g (q_driver c) eq_refl) as H1.
        destruct (g (q_driver c)) as [frames d]. destruct frames as [|f [|]]; simpl in H1; try lia.
        -- specialize (Hok (q_exception c) d). unfold queue_ok in Hok |- *. simpl in Hok |- *. by rewrite Eq.
        -- exact (Hok (q_exception c) d).
      * specialize (Hok (q_exception c) (q_driver c)). unfold queue_ok in Hok |- *. simpl in Hok |- *. by rewrite Eq.
  - unfold queue_ok. simpl. rewrite Ha. simpl in Hl |- *. split; [done|]. split; [done|]. split; [lia|].
    split; [by eapply hangup_last_tail|done].
Qed.

Lemma read_ok m t c r c' : queue_ok c -> cw_read m t c = Some (r, c') -> queue_ok c'.
Proof.
  intros Hc. unfold cw_read. destruct Hc as (Hm & Hc'). rewrite Hm. assert (Hc : queue_ok c) by done. clear Hc'.
  destruct (q_zombie c); [by intros [= _ <-]|].
  pose proof (same_readq_ok _ _ Hc (check_hangup_same t c)) as H1.
  destruct (cw_check_hangup t c) as [hungup c1]. simpl in H1. destruct hungup; [by intros [= _ <-]|].
  destruct (take_digit c1) as [[d c2]|] eqn:Ed.
  { intros [= _ <-]. by eapply same_readq_ok, take_digit_same. }
  pose proof (next_frame_ok c1 H1) as H2. destruct (next_frame c1) as [f c2]. simpl in H2.
  assert (H3 : forall g c3, match f with None => Some (None, c2)
      | Some f => '(f, c) ← hear m f c2; Some (Some f, c) end = Some (g, c3) -> queue_ok c3).
  { intros g c3. destruct f as [f|]; [|by intros [= _ <-]].
    destruct (hear m f c2) as [[f2 c5]|] eqn:E; [|done]. cbn. intros [= _ <-].
    by eapply same_readq_ok, hear_same. }
  destruct (match f with None => _ | Some _ => _ end) as [[g c3]|]; [|done].
  specialize (H3 g c3 eq_refl). cbn [mbind option_bind].
  destruct (interpret _ g c3) as [[g' c4]|] eqn:E; [|done]. cbn [mbind option_bind]. intros [= _ <-].
  apply interpret_same in E. by eapply same_readq_ok, E.
Qed.

Lemma chan_step_ok c c' : queue_ok c -> chan_step c c' -> queue_ok c'.
Proof.
  intros Hc H. destruct H as [m f c r c' E|m l c r c' E|m k c r c' E|m cause c c' Hp E|m t off c c' E| | |m t c r c' E].
  - by eapply queue_frame_ok.
  - eapply queue_frame_ok; [|exact E]. destruct l; [|done]. eapply same_readq_ok; [exact Hc|].
    repeat split. intros H. by apply Z.lor_nonneg.
  - by eapply queue_frame_ok.
  - unfold cw_softhangup_nolock in E. destruct (cw_queue_frame _ _ _) as [[r c2]|] eqn:Eq; [|done].
    injection E as <-. eapply queue_frame_ok; [|exact Eq]. eapply same_readq_ok; [exact Hc|].
    repeat split. intros H. by apply Z.lor_nonneg.
  - unfold cw_channel_setwhentohangup in E. destruct (cw_queue_frame _ _ _) as [[r c2]|] eqn:Eq; [|done].
    injection E as <-. eapply queue_frame_ok; [|exact Eq]. by eapply same_readq_ok.
  - by eapply same_readq_ok.
  - by eapply same_readq_ok.
  - by eapply read_ok.
Qed.

(** C37: whatever is queued and read on a channel that nobody is to masquerade as, there
    is a mark in the pipe for every frame of the queue and no other, so that the thread
    that waits on the pipe wakes up as long as a frame is left and does not wake up for
    nothing; the queue has at most 129 frames, and nothing is behind a hangup in it.
    Drivers return one frame at a time. *)
Theorem marks_match_queue c c' : queue_ok c -> rtc chan_step c c' -> queue_ok c'.
Proof. intros Hc H. induction H as [|c c2 c' H1 H2 IH]; [done|]. by eapply IH, chan_step_ok. Qed.
End one_frame.

(** ** Hanging up is final *)

(** The channel stays what it is, and a reason to hang up is not taken back. *)
Definition keeps_hangup (c c' : chan) : Prop :=
  q_masq c' = q_masq c /\ q_zombie c' = q_zombie c /\ q_tech_pvt c' = q_tech_pvt c /\
  (q_softhangup c <> 0 -> q_softhangup c' <> 0).

#[local] Instance keeps_hangup_pre : PreOrder keeps_hangup.
Proof.
  split; [by intros c|]. intros a b c (A1 & A2 & A3 & A4) (B1 & B2 & B3 & B4).
  unfold keeps_hangup. rewrite B1, B2, B3, A1, A2, A3. repeat (split; [done|]). auto.
Qed.

Lemma lor_keeps a b : a <> 0 -> Z.lor a b <> 0.
Proof. intros H E. by apply Z.lor_eq_0_iff in E as [-> _]. Qed.

Lemma queue_frame_keeps m f c r c' : cw_queue_frame m f c = Some (r, c') -> keeps_hangup c c'.
Proof.
  unfold cw_queue_frame. destruct (cw_frdup m f) as [[g|]|]; [|by intros [= _ <-]|done].
  cbn [mbind option_bind]. intros [= _ <-]. by repeat case_if.
Qed.

Lemma check_hangup_keeps t c : keeps_hangup c (cw_check_hangup t c).2 /\
  ((cw_check_hangup t c).1 = true ->
     q_softhangup (cw_check_hangup t c).2 <> 0 \/ q_tech_pvt c = false).
Proof.
  unfold cw_check_hangup. destruct (Z.eqb_spec (q_softhangup c) 0) as [Hs|Hs]; simpl; [|split; [done|by auto]].
  destruct (q_tech_pvt c) eqn:Ht; simpl; [|split; [done|by auto]].
  case_if; [done|]. case_if; [done|]. split.
  - repeat (split; [done|]). simpl. apply lor_keeps.
  - left. simpl. by rewrite Hs.
Qed.

Lemma hear_keeps m f c g c' : hear m f c = Some (g, c') -> keeps_hangup c c'.
Proof.
  unfold hear. case_if; [|by intros [= _ <-]]. case_if; [by intros [= _ <-]|].
  destruct (spy_all _ _ _) as [spies|]; [|done]. cbn [mbind option_bind].
  assert (H : keeps_hangup c (monitor_read f (c <| q_spies := spies |>))).
  { unfold monitor_read. simpl. destruct (q_monitor c); [|done]. by case_if. }
  set (c2 := monitor_read f _) in *. destruct (q_readtrans c2) as [r|]; [|by intros [= _ <-]].
  destruct (cw_translate r f). by intros [= _ <-].
Qed.

Lemma interpret_keeps p f c g c' : interpret p f c = Some (g, c') ->
  keeps_hangup c c' /\ (g = None -> q_softhangup c' <> 0).
Proof.
  unfold interpret. destruct f as [f|].
  - case_if.
    { destruct (keep_digit _ _); [|done]. by intros [= <- <-]. }
    case_if; [|by intros [= <- <-]]. destruct (cw_cdr_answer _ _ _). by intros [= <- <-].
  - destruct (cw_cdr_end _ _ _). intros [= <- <-]. split.
    + repeat (split; [done|]). simpl. apply lor_keeps.
    + intros _. simpl. intros E. by apply Z.lor_eq_0_iff in E as [_ E].
Qed.

Lemma next_frame_keeps c : keeps_hangup c (next_frame c).2.
Proof.
  unfold next_frame. simpl. destruct (q_readq c); [|done].
  destruct (q_exception c); [destruct tech_exception as [g|]|destruct tech_read as [g|]]; try done;
    simpl; by destruct (g (q_driver c)) as [[|]].
Qed.

(** Reading ends in hanging up, or the channel is as it was. *)
Lemma read_keeps m t c r c' : q_masq c = false -> cw_read m t c = Some (r, c') ->
  keeps_hangup c c' /\
  (r = None -> q_zombie c' = true \/ q_softhangup c' <> 0 \/ q_tech_pvt c' = false).
Proof.
  intros Hm. unfold cw_read. rewrite Hm. destruct (q_zombie c) eqn:Hz; [intros [= <- <-]; split; [done|by auto]|].
  destruct (check_hangup_keeps t c) as [H1 H1']. destruct (cw_check_hangup t c) as [hungup c1].
  simpl in H1, H1'. destruct hungup.
  { intros [= <- <-]. split; [done|]. intros _. right. destruct H1 as (_ & _ & -> & _). auto. }
  destruct (take_digit c1) as [[d c2]|] eqn:Ed.
  { intros [= <- <-]. split; [|done]. etrans; [exact H1|]. unfold take_digit in Ed.
    destruct (q_dtmfq c1); [done|]. case_if_in Ed; [done|]. by injection Ed as _ <-. }
  pose proof (next_frame_keeps c1) as H2. destruct (next_frame c1) as [f c2]. simpl in H2.
  assert (H3 : forall g c3, match f with None => Some (None, c2)
      | Some f => '(f, c) ← hear m f c2; Some (Some f, c) end = Some (g, c3) -> keeps_hangup c2 c3).
  { intros g c3. destruct f as [f|]; [|by intros [= _ <-]].
    destruct (hear m f c2) as [[f2 c5]|] eqn:E; [|done]. cbn. intros [= _ <-]. by eapply hear_keeps. }
  destruct (match f with None => _ | Some _ => _ end) as [[g c3]|]; [|done].
  specialize (H3 g c3 eq_refl). cbn [mbind option_bind].
  destruct (interpret _ g c3) as [[g' c4]|] eqn:E; [|done]. cbn [mbind option_bind]. intros [= <- <-].
  apply interpret_keeps in E as [E1 E2]. split; [|intros Hr; right; left; by apply E2].
  etrans; [exact H1|]. etrans; [exact H2|]. etrans; [exact H3|]. exact E1.
Qed.

Lemma step_keeps c c' : q_masq c = false -> chan_step c c' -> keeps_hangup c c'.
Proof.
  intros Hm H. destruct H as [m f c r c' E|m l c r c' E|m k c r c' E|m cause c c' Hp E|m t off c c' E| | |m t c r c' E].
  - by eapply queue_frame_keeps.
  - etrans; [|by eapply queue_frame_keeps]. destruct l; [|done]. repeat (split; [done|]). simpl. apply lor_keeps.
  - by eapply queue_frame_keeps.
  - unfold cw_softhangup_nolock in E. destruct (cw_queue_frame _ _ _) as [[r c2]|] eqn:Eq; [|done].
    injection E as <-. etrans; [|by eapply queue_frame_keeps]. repeat (split; [done|]). simpl. apply lor_keeps.
  - unfold cw_channel_setwhentohangup in E. destruct (cw_queue_frame _ _ _) as [[r c2]|] eqn:Eq; [|done].
    injection E as <-. etrans; [|by eapply queue_frame_keeps]. done.
  - done.
  - done.
  - by eapply read_keeps.
Qed.

(** Once reading has told the call's thread that the channel is gone, it does so
    for ever, whatever is queued or said to the channel in between and whatever
    the driver does. *)
Theorem hangup_is_final m t c c1 c2 m' t' :
  q_masq c = false -> cw_read m t c = Some (None, c1) -> rtc chan_step c1 c2 ->
  exists c3, cw_read m' t' c2 = Some (None, c3).
Proof.
  intros Hm E H. destruct (read_keeps m t c None c1 Hm E) as [(K1 & K2 & K3 & K4) Hg].
  specialize (Hg eq_refl).
  assert (Hk : keeps_hangup c1 c2).
  { clear E Hg. assert (Hm1 : q_masq c1 = false) by congruence. clear K1 K2 K3 K4.
    induction H as [|a b c' H1 H2 IH]; [done|]. pose proof (step_keeps a b Hm1 H1) as Hs.
    etrans; [exact Hs|]. apply IH. destruct Hs as (-> & _). done. }
  destruct Hk as (L1 & L2 & L3 & L4). unfold cw_read. rewrite L1, K1, Hm.
  destruct (q_zombie c2) eqn:Hz; [by eauto|]. destruct Hg as [Hg|[Hg|Hg]]; [congruence|..].
  - apply L4, Z.eqb_neq in Hg. unfold cw_check_hangup. rewrite Hg. cbn. eauto.
  - unfold cw_check_hangup. rewrite L3, Hg. case_if; cbn; eauto.
Qed.

(** ** Frames in order *)

(** A channel that can be read. *)
Definition alive (t : Z) (c : chan) : Prop :=
  q_masq c = false /\ q_zombie c = false /\ q_softhangup c = 0 /\ q_tech_pvt c = true /\
  (q_whentohangup c = 0 \/ t < q_whentohangup c).

Fixpoint read_n (n : nat) (m : bool) (t : Z) (c : chan) : option (list (option cw_frame) * chan) :=
  match n with
  | O => Some ([], c)
  | S n =>
    '(f, c) ← cw_read m t c;
    '(l, c) ← read_n n m t c;
    Some (f :: l, c)
  end.

Lemma alive_check t c : alive t c -> cw_check_hangup t c = (false, c).
Proof.
  intros (_ & _ & Hs & Hp & Hw). unfold cw_check_hangup. rewrite Hs, Hp. cbn.
  destruct Hw as [->|Hw]; [done|]. case_if; [done|]. by apply Z.ltb_lt in Hw as ->.
Qed.

(** The kept digits are [ds]. *)
Definition keeps_digits (c : chan) (ds : list Z) : Prop :=
  q_dtmfq c = ds ++ replicate (CW_MAX_EXTENSION - length ds) 0 /\
  Forall (fun d => 0 < d < 128) ds /\ (length ds <= 78)%nat.

Lemma zstrlen_kept ds n : Forall (fun d => 0 < d < 128) ds ->
  zstrlen (ds ++ replicate (S n) 0) = Some (length ds).
Proof.
  induction 1 as [|d ds Hd _ IH]; [done|]. cbn [zstrlen app].
  destruct (Z.eqb_spec d 0); [lia|]. by rewrite IH.
Qed.

Lemma keep_digit_kept c ds d : keeps_digits c ds -> 0 < d < 128 -> (length ds < 78)%nat ->
  keep_digit d (q_dtmfq c) = Some ((ds ++ [d]) ++ replicate (CW_MAX_EXTENSION - length (ds ++ [d])) 0).
Proof.
  intros (-> & Hds & _) Hd Hl. unfold keep_digit, CW_MAX_EXTENSION.
  replace (80 - length ds)%nat with (S (80 - length (ds ++ [d]))) by (rewrite length_app; simpl; lia).
  rewrite zstrlen_kept by done. cbn [mbind option_bind]. rewrite bool_decide_true by lia.
  rewrite <- (Nat.add_0_r (length ds)), insert_app_r, <- app_assoc. cbn.
  rewrite wrap_s_small by (simpl; lia). done.
Qed.

Lemma take_digit_kept c d ds : keeps_digits c (d :: ds) -> q_defer_dtmf c = false ->
  exists c', take_digit c = Some (d, c') /\ keeps_digits c' ds /\ same_readq c c' /\
    q_zombie c' = q_zombie c /\ q_softhangup c' = q_softhangup c /\ q_tech_pvt c' = q_tech_pvt c /\
    q_whentohangup c' = q_whentohangup c /\ q_defer_dtmf c' = q_defer_dtmf c.
Proof.
  intros (E & Hds & Hl) Hd. unfold take_digit. rewrite E, Hd. simpl app. inversion Hds as [|? ? H0 Hds']; subst.
  destruct (Z.eqb_spec d 0); [lia|]. simpl. eexists. split; [done|]. split; [|done].
  split; [|split; [done|simpl in Hl; lia]]. simpl q_dtmfq. unfold CW_MAX_EXTENSION in *. simpl length in *.
  replace (79 - length ds)%nat with (S (78 - length ds)) by lia.
  replace (80 - length ds)%nat with (S (78 - length ds) + 1)%nat by lia.
  assert (El : List.last (ds ++ replicate (S (78 - length ds)) 0) 0 = 0)
    by (rewrite replicate_S_end, app_assoc; apply List.last_last).
  by rewrite El, replicate_add, app_assoc.
Qed.

(** A frame of the queue, when no digit waits. *)
Lemma read_queued m t c f next : alive t c -> take_digit c = None ->
  q_readq c = f :: next -> is_hangup f = false ->
  cw_read m t c =
    ('(g, c') ← hear m f (c <| q_alerts := pred <$> q_alerts c |> <| q_readq := next |>);
     '(h, c'') ← interpret (q_state c) (Some g) c';
     Some (h, c'' <| q_fin := count_frame (q_fin c'') |>)).
Proof.
  intros Ha Hd Hq Hh. unfold cw_read. rewrite (alive_check t c Ha). destruct Ha as (-> & -> & _).
  rewrite Hd. unfold next_frame. simpl (q_readq (_ <| _ := _ |>)). rewrite Hq, Hh.
  by destruct (hear m f _) as [[]|].
Qed.

(** Frames that mean nothing to the channel itself. *)
Definition passes (f : cw_frame) : Prop :=
  f_frametype f <> CW_FRAME_VOICE /\ is_hangup f = false /\
  (f_frametype f = CW_FRAME_CONTROL -> f_subclass f <> CW_CONTROL_ANSWER).

Lemma read_passes m t c f next : alive t c -> keeps_digits c [] -> q_defer_dtmf c = false ->
  q_readq c = f :: next -> passes f ->
  exists c', cw_read m t c = Some (Some f, c') /\ alive t c' /\ keeps_digits c' [] /\
    q_defer_dtmf c' = false /\ q_readq c' = next.
Proof.
  intros Ha (Hk & Hk1 & Hk2) Hd Hq (Hv & Hh & Hans).
  rewrite (read_queued m t c f next) by (done || unfold take_digit; by rewrite Hk, Hd).
  unfold hear, is_voice. apply Z.eqb_neq in Hv. rewrite Hv. cbn [mbind option_bind].
  unfold interpret. simpl (q_defer_dtmf _). rewrite Hd. cbn [andb].
  destruct (Z.eqb_spec (f_frametype f) CW_FRAME_CONTROL) as [E|E]; cbn [andb].
  - apply Hans, Z.eqb_neq in E. rewrite E. cbn [mbind option_bind]. eexists. repeat (split; [done|]). done.
  - cbn [mbind option_bind]. eexists. repeat (split; [done|]). done.
Qed.

Lemma read_all m t gs c : alive t c -> keeps_digits c [] -> q_defer_dtmf c = false ->
  q_readq c = gs -> Forall passes gs ->
  exists c', read_n (length gs) m t c = Some (Some <$> gs, c') /\ q_readq c' = [].
Proof.
  intros Ha Hk Hd Hq H. revert c Ha Hk Hd Hq. induction H as [|g gs Hg H IH]; intros c Ha Hk Hd Hq.
  { by exists c. }
  destruct (read_passes m t c g gs Ha Hk Hd Hq Hg) as (c1 & E1 & Ha1 & Hk1 & Hd1 & Hq1).
  destruct (IH c1 Ha1 Hk1 Hd1 Hq1) as (c2 & E2 & Hq2). exists c2. cbn [read_n length].
  rewrite E1. cbn [mbind option_bind]. rewrite E2. done.
Qed.

Fixpoint queue_all (m : bool) (fs : list cw_frame) (c : chan) : option chan :=
  match fs with
  | [] => Some c
  | f :: fs => '(_, c) ← cw_queue_frame m f c; queue_all m fs c
  end.

Lemma queue_all_appends fs gs c : Forall2 (fun f g => cw_frdup true f = Some (Some g)) fs gs ->
  Forall passes gs -> existsb is_hangup (q_readq c) = false -> (length (q_readq c) + length fs <= 97)%nat ->
  exists c', queue_all true fs c = Some c' /\ q_readq c' = q_readq c ++ gs /\
    (forall t, alive t c -> alive t c') /\ q_dtmfq c' = q_dtmfq c /\ q_defer_dtmf c' = q_defer_dtmf c.
Proof.
  intros H. revert c. induction H as [|f g fs gs E H IH]; intros c Hp Hh Hl.
  { exists c. rewrite app_nil_r. done. }
  inversion Hp as [|? ? Hg Hp']; subst. cbn [queue_all length] in *.
  unfold cw_queue_frame at 1. rewrite E. cbn [mbind option_bind]. rewrite Hh.
  replace (is_voice f && (96 <? Z.of_nat (length (q_readq c))) || (128 <? Z.of_nat (length (q_readq c)))) with false.
  2: { symmetry. apply orb_false_iff. split; [apply andb_false_iff; right|]; apply Z.ltb_ge; lia. }
  set (c1 := c <| q_readq := q_readq c ++ [g] |> <| q_alerts := S <$> q_alerts c |>).
  destruct (IH c1 Hp') as (c' & Eq & Er & Ha & Ed & Ef).
  - simpl. rewrite existsb_app, Hh. simpl. by destruct Hg as (_ & -> & _).
  - simpl. rewrite length_app. simpl. lia.
  - exists c'. split; [exact Eq|]. split; [rewrite Er; simpl; by rewrite <- app_assoc|]. done.
Qed.

(** What other threads queue on a channel, up to 97 frames, its thread reads in
    the same order, each frame once and as a copy of what was queued. *)
Theorem queued_then_read m t fs gs c :
  alive t c -> keeps_digits c [] -> q_defer_dtmf c = false -> q_readq c = [] ->
  Forall2 (fun f g => cw_frdup true f = Some (Some g)) fs gs -> Forall passes gs ->
  (length fs <= 97)%nat ->
  exists c1 c2, queue_all true fs c = Some c1 /\
    read_n (length fs) m t c1 = Some (Some <$> gs, c2) /\ q_readq c2 = [].
Proof.
  intros Ha Hk Hd Hq H2 Hp Hl.
  destruct (queue_all_appends fs gs c H2 Hp) as (c1 & E1 & Er & Ha1 & Ed & Ef); [by rewrite Hq|rewrite Hq; simpl; lia|].
  rewrite Hq in Er. simpl in Er. destruct Hk as (Hk1 & Hk2 & Hk3).
  destruct (read_all m t gs c1) as (c2 & E2 & Hq2); [by apply Ha1|by unfold keeps_digits; rewrite Ed|by rewrite Ef|done..|].
  exists c1, c2. apply Forall2_length in H2. rewrite H2. done.
Qed.

(** ** Digits that are not wanted yet *)

Definition is_digit_frame (f : cw_frame) (d : Z) : Prop :=
  f_frametype f = CW_FRAME_DTMF /\ f_subclass f = d /\ 0 < d < 128.

Lemma read_deferred m t c ds f d next : alive t c -> keeps_digits c ds -> q_defer_dtmf c = true ->
  (length ds < 78)%nat -> q_readq c = f :: next -> is_digit_frame f d ->
  exists c', cw_read m t c = Some (Some null_frame, c') /\ alive t c' /\ keeps_digits c' (ds ++ [d]) /\
    q_defer_dtmf c' = true /\ q_readq c' = next.
Proof.
  intros Ha Hk Hd Hl Hq (Ft & Fs & Hr).
  rewrite (read_queued m t c f next); [|done| |done|].
  - unfold hear, is_voice. rewrite Ft. cbn [Z.eqb CW_FRAME_DTMF CW_FRAME_VOICE Pos.eqb mbind option_bind].
    unfold interpret. simpl (q_defer_dtmf _). rewrite Hd, Ft, Fs. cbn [Z.eqb CW_FRAME_DTMF Pos.eqb andb].
    simpl (q_dtmfq _). rewrite (keep_digit_kept c ds d) by done. cbn [mbind option_bind].
    eexists. split; [done|]. split; [done|]. split; [|done]. destruct Hk as (_ & Hds & _).
    split; [done|]. split; [apply Forall_app_2; [done|constructor; [done|constructor]]|].
    rewrite length_app. simpl. lia.
  - unfold take_digit. destruct (q_dtmfq c); [done|]. by rewrite Hd.
  - unfold is_hangup. by rewrite Ft.
Qed.

Lemma read_all_deferred m t fs ds c es : alive t c -> keeps_digits c es -> q_defer_dtmf c = true ->
  (length es + length fs <= 78)%nat -> q_readq c = fs -> Forall2 is_digit_frame fs ds ->
  exists c', read_n (length fs) m t c = Some (replicate (length fs) (Some null_frame), c') /\
    alive t c' /\ keeps_digits c' (es ++ ds).
Proof.
  intros Ha Hk Hd Hl Hq H. revert c es Ha Hk Hd Hl Hq.
  induction H as [|f d fs ds Hf H IH]; intros c es Ha Hk Hd Hl Hq.
  { exists c. by rewrite app_nil_r. }
  simpl in Hl. destruct (read_deferred m t c es f d fs Ha Hk Hd ltac:(lia) Hq Hf)
    as (c1 & E1 & Ha1 & Hk1 & Hd1 & Hq1).
  destruct (IH c1 (es ++ [d]) Ha1 Hk1 Hd1) as (c2 & E2 & Ha2 & Hk2); [rewrite length_app; simpl; lia|done|].
  exists c2. cbn [read_n length replicate]. rewrite E1. cbn [mbind option_bind]. rewrite E2.
  rewrite <- app_assoc in Hk2. done.
Qed.

Lemma read_kept m t c d ds : alive t c -> keeps_digits c (d :: ds) -> q_defer_dtmf c = false ->
  exists c', cw_read m t c = Some (Some (cw_fr_init_ex CW_FRAME_DTMF d None), c') /\
    alive t c' /\ keeps_digits c' ds /\ q_defer_dtmf c' = false.
Proof.
  intros Ha Hk Hd. destruct (take_digit_kept c d ds Hk Hd) as (c' & E & Hk' & (S1 & _) & Z1 & Z2 & Z3 & Z4 & Z5).
  exists c'. unfold cw_read. rewrite (alive_check t c Ha). destruct Ha as (A1 & A2 & A3 & A4 & A5).
  rewrite A1, A2, E. split; [done|]. split; [|by rewrite Z5].
  unfold alive. rewrite S1, Z1, Z2, Z3, Z4. done.
Qed.

Lemma read_all_kept m t ds c : alive t c -> keeps_digits c ds -> q_defer_dtmf c = false ->
  exists c', read_n (length ds) m t c
    = Some ((fun d => Some (cw_fr_init_ex CW_FRAME_DTMF d None)) <$> ds, c').
Proof.
  revert c. induction ds as [|d ds IH]; intros c Ha Hk Hd; [by exists c|].
  destruct (read_kept m t c d ds Ha Hk Hd) as (c1 & E1 & Ha1 & Hk1 & Hd1).
  destruct (IH c1 Ha1 Hk1 Hd1) as (c2 & E2). exists c2. cbn [read_n length].
  rewrite E1. cbn [mbind option_bind]. rewrite E2. done.
Qed.

(** Digits that come while they are deferred are not lost: up to 78 of them are
    handed out afterwards, in the order they came. *)
Theorem deferred_digits_kept m t fs ds c :
  alive t c -> keeps_digits c [] -> q_readq c = fs -> Forall2 is_digit_frame fs ds ->
  (length fs <= 78)%nat ->
  exists c1 c2,
    read_n (length fs) m t (cw_channel_defer_dtmf c).2
      = Some (replicate (length fs) (Some null_frame), c1) /\
    read_n (length fs) m t (cw_channel_undefer_dtmf c1)
      = Some ((fun d => Some (cw_fr_init_ex CW_FRAME_DTMF d None)) <$> ds, c2).
Proof.
  intros Ha Hk Hq H Hl.
  destruct (read_all_deferred m t fs ds (cw_channel_defer_dtmf c).2 [] Ha Hk eq_refl ltac:(simpl; lia) Hq H)
    as (c1 & E1 & Ha1 & Hk1).
  destruct (read_all_kept m t ds (cw_channel_undefer_dtmf c1) Ha1 Hk1 eq_refl) as (c2 & E2).
  exists c1, c2. split; [exact E1|]. by rewrite (Forall2_length _ _ _ H).
Qed.
End channel.

(** ** Examples *)

(** A channel of a driver that has no frames, without a translator. *)
Definition new_channel : channel unit unit :=
  {| q_readq := []; q_alerts := Some 0%nat; q_softhangup := 0; q_tech_pvt := true; q_whentohangup := 0;
     q_zombie := false; q_defer_dtmf := false; q_exception := false;
     q_dtmfq := replicate CW_MAX_EXTENSION 0; q_state := CW_STATE_UP; q_nativeformats := 4;
     q_readtrans := None; q_cdr := []; q_clock := 0; q_fin := 0; q_driver := tt; q_masq := false;
     q_spies := []; q_monitor := None; q_insmpl := 0; q_outsmpl := 0 |}.

Definition no_translation (r : unit) (f : cw_frame) : option cw_frame * unit := (Some f, r).
Definition no_masquerade (c : channel unit unit) : bool * channel unit unit := (true, c).

Lemma marks_match_queue_witness :
  queue_ok new_channel /\
  exists c', cw_queue_control true 3 new_channel = Some (0, c') /\ queue_ok c'.
Proof.
  assert (H0 : queue_ok new_channel).
  { unfold queue_ok. simpl. split; [done|]. split; [lia|]. split; [lia|]. split; [|done].
    intros front f back E. by destruct front. }
  split; [exact H0|]. eexists. split; [reflexivity|].
  apply (marks_match_queue no_translation None None no_masquerade (fun n => cw_tv (Z.of_nat n) 0)
           ltac:(discriminate) ltac:(discriminate) new_channel _ H0).
  apply rtc_once. apply step_control with (m := true) (k := 3) (r := 0). reflexivity.
Defined.

(** A driver that links a second frame to the first: it is queued without a
    mark, and the thread that waits on the pipe is not woken for it. *)
Definition two_frames (_ : unit) : list cw_frame * unit := ([control_frame 3; control_frame 4], tt).

Example linked_frame_without_mark :
  exists c', cw_read no_translation (Some two_frames) None no_masquerade
      (fun n => cw_tv (Z.of_nat n) 0) true 1 new_channel = Some (Some (control_frame 3), c') /\
    length (q_readq c') = 1%nat /\ q_alerts c' = Some 0%nat.
Proof. eexists. split; [vm_compute; reflexivity|]. done. Qed.

(** The comment allows 96 voice frames and 128 in all: it is one more of each. *)
Definition empty_voice : cw_frame := cw_fr_init <| f_frametype := CW_FRAME_VOICE |>.

Example queue_limits :
  (fun c => length (q_readq c)) <$> queue_all true (replicate 200 empty_voice) new_channel = Some 97%nat /\
  (fun c => length (q_readq c)) <$> queue_all true (replicate 200 (control_frame 3)) new_channel = Some 129%nat.
Proof. split; vm_compute; reflexivity. Qed.

Lemma hangup_is_final_witness :
  exists c1 c2 c3,
    cw_read no_translation None None no_masquerade (fun n => cw_tv (Z.of_nat n) 0) true 1 new_channel
      = Some (None, c1) /\
    cw_queue_control true 3 c1 = Some (0, c2) /\
    cw_read no_translation None None no_masquerade (fun n => cw_tv (Z.of_nat n) 0) true 2 c2
      = Some (None, c3).
Proof.
  set (now := fun n => cw_tv (Z.of_nat n) 0).
  destruct (cw_read no_translation None None no_masquerade now true 1 new_channel) as [[r c1]|] eqn:E;
    [|discriminate].
  assert (r = None) as -> by (vm_compute in E; by injection E as <- _).
  destruct (cw_queue_control true 3 c1) as [[z c2]|] eqn:Eq; [|vm_compute in E; by injection E as <-].
  assert (z = 0) as -> by (vm_compute in E; injection E as <-; by injection Eq as <- _).
  destruct (hangup_is_final no_translation None None no_masquerade now true 1 new_channel c1 c2 true 2
    eq_refl E) as (c3 & E3).
  - apply rtc_once. apply step_control with (m := true) (k := 3) (r := 0). exact Eq.
  - exists c1, c2, c3. done.
Defined.

Lemma queued_then_read_witness :
  alive 1 new_channel /\
  exists c1 c2,
    queue_all true [control_frame 3; control_frame 9] new_channel = Some c1 /\
    read_n no_translation None None no_masquerade (fun n => cw_tv (Z.of_nat n) 0) 2 true 1 c1
      = Some ([Some (default null_frame (default None (cw_frdup true (control_frame 3))));
               Some (default null_frame (default None (cw_frdup true (control_frame 9))))], c2) /\
    q_readq c2 = [].
Proof.
  assert (Ha : alive 1 new_channel) by (repeat (split; [done|]); by left).
  split; [exact Ha|].
  apply (queued_then_read no_translation None None no_masquerade (fun n => cw_tv (Z.of_nat n) 0) true 1
    [control_frame 3; control_frame 9]
    [default null_frame (default None (cw_frdup true (control_frame 3)));
     default null_frame (default None (cw_frdup true (control_frame 9)))] new_channel Ha).
  - split; [reflexivity|]. split; [constructor|simpl; lia].
  - reflexivity.
  - reflexivity.
  - repeat constructor.
  - repeat constructor; discriminate.
  - simpl. lia.
Defined.

Definition digit_frame (d : Z) : cw_frame :=
  cw_fr_init <| f_frametype := CW_FRAME_DTMF |> <| f_subclass := d |>.

Definition digits_waiting : channel unit unit :=
  new_channel <| q_readq := [digit_frame 49; digit_frame 50] |>.

Lemma deferred_digits_kept_witness :
  alive 1 digits_waiting /\
  exists c1 c2,
    read_n no_translation None None no_masquerade (fun n => cw_tv (Z.of_nat n) 0) 2 true 1
      (cw_channel_defer_dtmf digits_waiting).2 = Some ([Some null_frame; Some null_frame], c1) /\
    read_n no_translation None None no_masquerade (fun n => cw_tv (Z.of_nat n) 0) 2 true 1
      (cw_channel_undefer_dtmf c1)
      = Some ([Some (cw_fr_init_ex CW_FRAME_DTMF 49 None); Some (cw_fr_init_ex CW_FRAME_DTMF 50 None)], c2).
Proof.
  assert (Ha : alive 1 digits_waiting) by (repeat (split; [done|]); by left).
  split; [exact Ha|].
  apply (deferred_digits_kept no_translation None None no_masquerade (fun n => cw_tv (Z.of_nat n) 0) true 1
    [digit_frame 49; digit_frame 50] [49; 50] digits_waiting Ha).
  - split; [reflexivity|]. split; [constructor|simpl; lia].
  - reflexivity.
  - repeat constructor.
  - simpl. lia.
Defined.
