(* ===== verification/ChanFormat.v ===== *)
(** * The formats of a channel (corelib/channel.c)

    A driver speaks its native formats; who uses the channel asks for a format of
    his own, for reading and for writing, and [set_format] puts the translators
    between the two (Translate).  [cw_channel_make_compatible] chooses the formats of
    two channels that are to be bridged, so that what is read from one can be
    written to the other.

    A format is an [int] with one bit set, a set of formats the sum of some.  The
    matrix of translators [m] is an argument, as are spandsp's [bottom_bit] and
    the outcome of the allocations.  A path is the list of its nodes, the empty
    list for [NULL].  [None] in place of a result is a path that never ends. *)

From S2P Require Import Prelude Time Frame Translate.
From stdpp Require Import gmap.
Open Scope Z_scope.

(** One direction of a channel: the format of the driver, that of the user and
    the translators between them. *)
Record side (S : Type) := { sd_raw : Z; sd_format : Z; sd_trans : list (@cw_trans_pvt S) }.

Arguments sd_raw {S} s : rename.
Arguments sd_format {S} s : rename.
Arguments sd_trans {S} s : rename.

Record media (S : Type) := { md_native : Z; md_read : side S; md_write : side S }.

Arguments md_native {S} c : rename.
Arguments md_read {S} c : rename.
Arguments md_write {S} c : rename.

#[export] Instance media_eta {S} : Eta (media S) :=
  fun c => {| md_native := md_native c; md_read := md_read c; md_write := md_write c |}.

Section formats.
Context {S : Type} (bottom_bit : Z -> Z).

#[local] Abbreviation matrix := (gmap (Z * Z) (cw_translator_dir S)).

(** What [cw_translator_build_path] returns. *)
Definition built_path (b : @built S) : option (list cw_trans_pvt) :=
  match b with
  | Built p => Some p
  | NoPath _ | NoMemory _ => Some []
  | Endless => None
  end.

(** A good choice for both formats: nothing changes if the channel is in these
    formats already.  The result, the direction of the channel, and the states of
    the translators that were freed; [direction] is true for writing. *)
Definition settle (alloc : nat -> bool) (m : matrix) (native fmt : Z) (s : side S) (direction : bool)
    : option (Z * side S * list S) :=
  if (sd_raw s =? native) && (sd_format s =? fmt) &&
     ((sd_raw s =? sd_format s) || bool_decide (sd_trans s <> []))
  then Some (0, s, [])
  else
    trans ← built_path (if direction then cw_translator_build_path bottom_bit alloc m native fmt
                        else cw_translator_build_path bottom_bit alloc m fmt native);
    Some (0, {| sd_raw := native; sd_format := fmt; sd_trans := trans |},
          cw_translator_free_path (sd_trans s)).

Definition set_format (alloc : nat -> bool) (m : matrix) (native fmt : Z) (s : side S)
    (direction : bool) : option (Z * side S * list S) :=
  let '(res, native, fmt) :=
    if direction then cw_translator_best_choice m native fmt
    else let '(res, fmt, native) := cw_translator_best_choice m fmt native in (res, native, fmt) in
  if res <? 0 then Some (-1, s, []) else settle alloc m native fmt s direction.

Definition cw_set_read_format (alloc : nat -> bool) (m : matrix) (fmt : Z) (c : media S)
    : option (Z * media S * list S) :=
  '(res, s, freed) ← set_format alloc m (md_native c) fmt (md_read c) false;
  Some (res, c <| md_read := s |>, freed).

Definition cw_set_write_format (alloc : nat -> bool) (m : matrix) (fmt : Z) (c : media S)
    : option (Z * media S * list S) :=
  '(res, s, freed) ← set_format alloc m (md_native c) fmt (md_write c) true;
  Some (res, c <| md_write := s |>, freed).

(** The steps of [cw_channel_make_compatible] for one direction: the chosen source
    or destination format is read from one channel and written to the other.  What
    was freed is left out. *)
Definition make_half (alloc : nat -> nat -> bool) (m : matrix) (slin use_dst : bool)
    (from to : media S) : option (Z * media S * media S) :=
  let '(res, dst, src) := cw_translator_best_choice m (md_native to) (md_native from) in
  if res <? 0 then Some (-1, from, to)
  else
    let dst := if negb (src =? dst) && slin then CW_FORMAT_SLINEAR else dst in
    let fmt := if use_dst then dst else src in
    '(res, from, _) ← cw_set_read_format (alloc 0%nat) m fmt from;
    if res <? 0 then Some (-1, from, to)
    else
      '(res, to, _) ← cw_set_write_format (alloc 1%nat) m fmt to;
      Some (if res <? 0 then -1 else 0, from, to).

(** From the channel to the peer the source is used, from the peer to the channel
    the destination. *)
Definition cw_channel_make_compatible (alloc : nat -> nat -> nat -> bool) (m : matrix) (slin : bool)
    (chan peer : media S) : option (Z * media S * media S) :=
  '(res, chan, peer) ← make_half (alloc 0%nat) m slin false chan peer;
  if res <? 0 then Some (-1, chan, peer)
  else
    '(res, peer, chan) ← make_half (alloc 1%nat) m slin true peer chan;
    Some (res, chan, peer).

(** ** What the translators can do *)

Context (ts : list (cw_translator S)) (m : matrix).
Hypothesis Hgood : Forall good ts.
Hypothesis Hok : matrix_ok ts m.
(** A way of the cost [INT_MAX] is no way. *)
Hypothesis Hcost : forall p c, m !! p = Some c -> cost c < INT_MAX.
(** spandsp: the number of the lowest bit. *)
Hypothesis Hbit : forall x, is_format x -> bottom_bit (2 ^ x) = x.

Definition set_of_formats (z : Z) : Prop := 0 <= z < 2 ^ 31.

(** A way from [x] to [y], and none is cheaper. *)
Definition cheapest (x : Z) (l : list (cw_translator S)) (y : Z) : Prop :=
  way ts x l y /\ forall l', way ts x l' y -> cost_of l <= cost_of l'.

(** A way from one of the formats [src] to one of the formats [dst]. *)
Definition translates (src dst : Z) : Prop :=
  exists x y l, Z.testbit src x = true /\ Z.testbit dst y = true /\ way ts x l y.

Lemma format_bit z x : set_of_formats z -> Z.testbit z x = true -> 0 <= x < 31.
Proof.
  intros Hz Hx. split.
  - destruct (Z.lt_ge_cases x 0); [|done]. by rewrite Z.testbit_neg_r in Hx.
  - destruct (Z.lt_ge_cases x 31) as [|Hge]; [done|]. rewrite Z.bits_above_log2 in Hx; [done|apply Hz|].
    destruct (Z.eq_dec z 0) as [->|]; [simpl; lia|].
    assert (Z.log2 z < 31) by (apply Z.log2_lt_pow2; [|apply Hz]; unfold set_of_formats in Hz; lia). lia.
Qed.

Lemma one_format x : 0 <= x < 31 -> set_of_formats (2 ^ x).
Proof. intros Hx. split; [apply Z.pow_nonneg; lia|apply Z.pow_lt_mono_r; lia]. Qed.

Lemma one_format_bit x y : 0 <= x -> Z.testbit (2 ^ x) y = true -> y = x.
Proof.
  intros Hx Hy. destruct (Z.eq_dec x y); [done|]. rewrite Z.pow2_bits_false in Hy; done.
Qed.

Lemma way_self x l : way ts x l x -> 0 <= cost_of l.
Proof using Hgood. intros [H _]. by apply (cost_of_nonneg ts Hgood). Qed.

Lemma cheapest_self x : cheapest x [] x.
Proof using Hgood. split; [by split|]. intros l' H. simpl. by eapply way_self. Qed.

(** The choice is the cheapest of all ways from the one set to the other. *)
Definition best_way (src dst x y : Z) (l : list (cw_translator S)) : Prop :=
  Z.testbit src x = true /\ Z.testbit dst y = true /\ way ts x l y /\
  forall x' y' l', Z.testbit src x' = true -> Z.testbit dst y' = true -> way ts x' l' y' ->
    cost_of l <= cost_of l'.

Lemma best_choice_way dst src : set_of_formats dst -> set_of_formats src ->
  (cw_translator_best_choice m dst src = (-1, dst, src) /\ ~ translates src dst) \/
  exists x y l, cw_translator_best_choice m dst src = (0, 2 ^ y, 2 ^ x) /\ best_way src dst x y l /\
    (x = y <-> Z.land src dst <> 0).
Proof using Hgood Hok Hcost.
  intros Hd Hs. pose proof (best_choice_cheapest m dst src Hd Hs Hcost) as H.
  destruct (cw_translator_best_choice m dst src) as [[ret d] sr].
  destruct (Z.eqb_spec (Z.land dst src) 0) as [E|E]; cbn [negb] in H.
  - assert (Hne : forall x y, Z.testbit src x = true -> Z.testbit dst y = true -> x <> y).
    { intros x y Hx Hy ->. assert (Z.testbit (Z.land dst src) y = true) by (by rewrite Z.land_spec, Hx, Hy).
      by rewrite E, Z.bits_0 in *. }
    assert (Hf : forall x, Z.testbit src x = true \/ Z.testbit dst x = true -> is_format x).
    { intros x [Hx|Hx]; apply format_bit in Hx; try done; unfold is_format, MAX_FORMAT; lia. }
    destruct H as [(-> & -> & -> & H)|(-> & x & y & c & -> & -> & (Ax & Ay & Am) & H)]; [left|right].
    + split; [done|]. intros (x & y & l & Hx & Hy & Hw).
      destruct (proj2 Hok (length l) x l y Hw (Hne _ _ Hx Hy) ltac:(done)) as (c & Hc & _).
      apply (H x y c); [auto..|]. by split_and!.
    + destruct (proj1 Hok x y c Am (Hne _ _ Ax Ay)) as (l & Hw & Hl).
      exists x, y, (step c :: l). split; [done|]. split.
      2: { split; [intros Exy; by destruct (Hne x y)|]. by rewrite Z.land_comm. }
      split_and!; [done..|].
      intros x' y' l' Hx Hy Hw'.
      destruct (proj2 Hok (length l') x' l' y' Hw' (Hne _ _ Hx Hy) ltac:(done)) as (c' & Hc' & Hle).
      assert (cost c <= cost c') by (apply (H x' y' c'); [auto..|by split_and!]). lia.
  - right. destruct H as (-> & -> & ->). set (k := Z.log2 (Z.land dst src)). exists k, k, [].
    split; [done|]. split; [|by rewrite Z.land_comm].
    assert (Hk : Z.testbit (Z.land dst src) k = true).
    { apply Z.bit_log2. assert (0 <= Z.land dst src); [|lia]. apply Z.land_nonneg. left. apply Hd. }
    rewrite Z.land_spec in Hk. apply andb_true_iff in Hk as [H1 H2]. split_and!; [done..|by split|].
    intros x' y' l' _ _ [Hl _]. simpl. by apply (cost_of_nonneg ts Hgood).
Qed.

Section memory.
(** Memory, and states of translators, can be had. *)
Hypothesis Hnew : forall t n, t ∈ ts -> newpvt t n <> None.

Lemma build_cheapest alloc x y l : (forall n, alloc n = true) -> 0 <= x < 31 -> 0 <= y < 31 ->
  way ts x l y ->
  exists p, cw_translator_build_path bottom_bit alloc m (2 ^ y) (2 ^ x) = Built p /\
    cheapest x (p_step <$> p) y.
Proof using Hgood Hok Hbit Hnew.
  intros Ha Hx Hy Hw. assert (is_format x /\ is_format y) as [Fx Fy]
    by (unfold is_format, MAX_FORMAT; lia).
  unfold cw_translator_build_path. rewrite (Hbit x), (Hbit y) by done.
  pose proof (path_loop_ok ts m Hgood Hok (Z.to_nat MAX_FORMAT) alloc x y [] [] Fx ltac:(constructor)
    ltac:(constructor) ltac:(constructor) ltac:(unfold MAX_FORMAT; simpl; lia) ltac:(auto)) as H.
  destruct (path_loop _ _ _ _ _ _) as [p|lo|fr|]; simpl in H; [..|done].
  - destruct H as (q & -> & Hq & Hc). exists (reverse [] ++ q). split; [done|]. split; [done|].
    intros l' Hl'. simpl. rewrite Hc. unfold dist. destruct (Z.eqb_spec x y) as [->|Hne]; [by eapply way_self|].
    by destruct (proj2 Hok _ _ _ _ Hl' Hne ltac:(reflexivity)) as (c & -> & ?).
  - destruct H as (_ & Hne & Hm). by destruct (proj2 Hok _ _ _ _ Hw Hne ltac:(reflexivity)) as (c & Hc & _); rewrite Hm in Hc.
  - destruct H as [H|(t & [Ht _] & H)]; [by rewrite Ha in H|by destruct (Hnew t (length fr) Ht)].
Qed.

(** The ends of the translators of a direction, from the driver's format to the
    user's when reading and back when writing. *)
Definition spans (direction : bool) (s : side S) (raw fmt : Z) : Prop :=
  sd_raw s = 2 ^ raw /\ sd_format s = 2 ^ fmt /\
  if direction then cheapest fmt (p_step <$> sd_trans s) raw
  else cheapest raw (p_step <$> sd_trans s) fmt.

(** A direction as it was set up, or as a new channel has it. *)
Definition side_ok (direction : bool) (s : side S) : Prop :=
  sd_trans s = [] \/ exists raw fmt, 0 <= raw /\ 0 <= fmt /\ spans direction s raw fmt.

Lemma pow2_inj x y : 0 <= x -> 0 <= y -> 2 ^ x = 2 ^ y -> x = y.
Proof. intros Hx Hy. apply Z.pow_inj_r; lia. Qed.

Lemma kept_spans direction s raw user : side_ok direction s -> 0 <= raw -> 0 <= user ->
  (sd_raw s =? 2 ^ raw) && (sd_format s =? 2 ^ user) &&
    ((sd_raw s =? sd_format s) || bool_decide (sd_trans s <> [])) = true -> spans direction s raw user.
Proof using Hgood.
  intros Hs Hr Hu H. b2p. destruct Hs as [Hs|(r & u & Hr1 & Hu1 & F1 & F2 & F3)].
  - rewrite bool_decide_false, orb_false_r in * by auto. b2p.
    assert (raw = user) as -> by (apply pow2_inj; congruence). split; [done|]. split; [done|].
    rewrite Hs. simpl. destruct direction; apply cheapest_self.
  - assert (r = raw) as -> by (apply pow2_inj; congruence).
    assert (u = user) as -> by (apply pow2_inj; congruence). done.
Qed.

(** The way from one format to another, in the direction the frames go. *)
Definition directed {A B} (direction : bool) (R : A -> A -> B) (raw user : A) : B :=
  if direction then R user raw else R raw user.

Lemma settle_spec alloc s direction raw user l :
  (forall n, alloc n = true) -> side_ok direction s -> 0 <= raw < 31 -> 0 <= user < 31 ->
  directed direction (fun x y => way ts x l y) raw user ->
  exists s' freed, settle alloc m (2 ^ raw) (2 ^ user) s direction = Some (0, s', freed) /\
    spans direction s' raw user /\ side_ok direction s'.
Proof using Hgood Hok Hbit Hnew.
  intros Ha Hs Hr Hu Hw. unfold settle. case_if.
  { exists s, []. split; [done|]. split; [|done]. apply kept_spans; [done|lia..|done]. }
  assert (exists p, (if direction then cw_translator_build_path bottom_bit alloc m (2 ^ raw) (2 ^ user)
                     else cw_translator_build_path bottom_bit alloc m (2 ^ user) (2 ^ raw)) = Built p /\
            spans direction {| sd_raw := 2 ^ raw; sd_format := 2 ^ user; sd_trans := p |} raw user)
    as (p & -> & Hsp).
  { unfold spans. destruct direction; simpl in Hw |- *.
    - destruct (build_cheapest alloc user raw l Ha Hu Hr Hw) as (p & -> & Hp). by exists p.
    - destruct (build_cheapest alloc raw user l Ha Hr Hu Hw) as (p & -> & Hp). by exists p. }
  cbn [built_path mbind option_bind]. eexists _, _. split; [reflexivity|]. split; [done|].
  right. exists raw, user. split_and!; [lia..|done].
Qed.

(** The direction is left at the cheapest of the ways between the native formats
    and those asked for, and an error is exactly that there is none. *)
Definition set_well (direction : bool) (native fmt : Z) (s : side S) (raw user : Z) : Prop :=
  spans direction s raw user /\ side_ok direction s /\
  directed direction (fun from to => directed direction
    (fun x y => best_way from to x y (p_step <$> sd_trans s)) raw user) native fmt.

Lemma set_format_spec alloc native fmt s direction :
  (forall n, alloc n = true) -> set_of_formats native -> set_of_formats fmt -> side_ok direction s ->
  (set_format alloc m native fmt s direction = Some (-1, s, []) /\
   ~ directed direction translates native fmt) \/
  exists s' freed raw user, set_format alloc m native fmt s direction = Some (0, s', freed) /\
    set_well direction native fmt s' raw user.
Proof using Hgood Hok Hcost Hbit Hnew.
  intros Ha Hn Hf Hs. unfold set_format, set_well. destruct direction.
  - destruct (best_choice_way native fmt Hn Hf) as [[-> Hno]|(x & y & l & -> & (Bx & By & Bw & Bm) & _)]; [by left|right].
    pose proof (format_bit _ _ Hf Bx). pose proof (format_bit _ _ Hn By). cbn [Z.ltb Z.compare].
    destruct (settle_spec alloc s true y x l) as (s' & freed & E & Hsp & Hs'); [done..|].
    exists s', freed, y, x. split; [done|]. split; [done|]. split; [done|]. destruct Hsp as (_ & _ & Hc1 & Hc2).
    split_and!; [done..|]. intros x' y' l' Hx' Hy' Hw'. transitivity (cost_of l); [by apply Hc2|by apply (Bm x' y')].
  - destruct (best_choice_way fmt native Hf Hn) as [[-> Hno]|(x & y & l & -> & (Bx & By & Bw & Bm) & _)]; [by left|right].
    pose proof (format_bit _ _ Hn Bx). pose proof (format_bit _ _ Hf By). cbn [Z.ltb Z.compare].
    destruct (settle_spec alloc s false x y l) as (s' & freed & E & Hsp & Hs'); [done..|].
    exists s', freed, x, y. split; [done|]. split; [done|]. split; [done|]. destruct Hsp as (_ & _ & Hc1 & Hc2).
    split_and!; [done..|]. intros x' y' l' Hx' Hy' Hw'. transitivity (cost_of l); [by apply Hc2|by apply (Bm x' y')].
Qed.

(** ** Two channels *)

Definition media_ok (c : media S) : Prop :=
  set_of_formats (md_native c) /\ side_ok false (md_read c) /\ side_ok true (md_write c).

(** What is read from one channel can be written to the other: the user's formats
    are the same, the driver's are native, and the translators lead from one to
    the other. *)
Definition linked (from to : media S) : Prop :=
  exists rawf user rawt,
    Z.testbit (md_native from) rawf = true /\ spans false (md_read from) rawf user /\
    Z.testbit (md_native to) rawt = true /\ spans true (md_write to) rawt user.

(** No way from the native formats of the one to those of the other is cheaper. *)
Definition link_cheapest (from to : media S) : Prop :=
  forall x y l, Z.testbit (md_native from) x = true -> Z.testbit (md_native to) y = true ->
    way ts x l y ->
    cost_of (p_step <$> sd_trans (md_read from)) + cost_of (p_step <$> sd_trans (md_write to)) <= cost_of l.

Lemma set_one_read alloc u c : (forall n, alloc n = true) -> media_ok c -> 0 <= u < 31 ->
  (exists freed, cw_set_read_format alloc m (2 ^ u) c = Some (-1, c, freed) /\
     ~ translates (md_native c) (2 ^ u)) \/
  exists s freed raw, cw_set_read_format alloc m (2 ^ u) c = Some (0, c <| md_read := s |>, freed) /\
    side_ok false s /\ spans false s raw u /\ best_way (md_native c) (2 ^ u) raw u (p_step <$> sd_trans s).
Proof using Hgood Hok Hcost Hbit Hnew.
  intros Ha (Hn & Hr & Hw) Hu. unfold cw_set_read_format.
  destruct (set_format_spec alloc (md_native c) (2 ^ u) (md_read c) false Ha Hn (one_format u Hu) Hr)
    as [[-> Hno]|(s & freed & raw & user & -> & Hsp & Hs & Hb)]; [left|right].
  - exists []. cbn. split; [|done]. by destruct c.
  - assert (Hb' := Hb). destruct Hb' as (_ & Hy & _). apply one_format_bit in Hy as ->; [|lia]. by exists s, freed, raw.
Qed.

Lemma set_one_write alloc u c : (forall n, alloc n = true) -> media_ok c -> 0 <= u < 31 ->
  (exists freed, cw_set_write_format alloc m (2 ^ u) c = Some (-1, c, freed) /\
     ~ translates (2 ^ u) (md_native c)) \/
  exists s freed raw, cw_set_write_format alloc m (2 ^ u) c = Some (0, c <| md_write := s |>, freed) /\
    side_ok true s /\ spans true s raw u /\ best_way (2 ^ u) (md_native c) u raw (p_step <$> sd_trans s).
Proof using Hgood Hok Hcost Hbit Hnew.
  intros Ha (Hn & Hr & Hw) Hu. unfold cw_set_write_format.
  destruct (set_format_spec alloc (md_native c) (2 ^ u) (md_write c) true Ha Hn (one_format u Hu) Hw)
    as [[-> Hno]|(s & freed & raw & user & -> & Hsp & Hs & Hb)]; [left|right].
  - exists []. cbn. split; [|done]. by destruct c.
  - assert (Hb' := Hb). destruct Hb' as (Hy & _). apply one_format_bit in Hy as ->; [|lia]. by exists s, freed, raw.
Qed.

(** What it takes to connect the native formats [src] with the native formats [dst]:
    a way, and with [through] and no format in common also ways to and from signed
    linear. *)
Definition reaches (through : bool) (src dst : Z) : Prop :=
  translates src dst /\
  (through = true -> Z.land src dst = 0 ->
   translates src CW_FORMAT_SLINEAR /\ translates CW_FORMAT_SLINEAR dst).

(** One direction: the others of the two channels stay as they were. *)
Definition half_spec (through : bool) (from to from' to' : media S) (ret : Z) : Prop :=
  media_ok from' /\ media_ok to' /\ md_native from' = md_native from /\ md_native to' = md_native to /\
  md_write from' = md_write from /\ md_read to' = md_read to /\
  ((ret = 0 /\ reaches through (md_native from) (md_native to) /\ linked from' to' /\
    (through = false \/ Z.land (md_native from) (md_native to) <> 0 -> link_cheapest from' to') /\
    (through = true -> Z.land (md_native from) (md_native to) = 0 ->
     sd_format (md_read from') = CW_FORMAT_SLINEAR)) \/
   (ret = -1 /\ ~ reaches through (md_native from) (md_native to))).

(** The format handed over, given the best choice from [x] to [y]: with the way
    through it, unless that is forced, and what forces it. *)
Lemma user_format (slin use_dst : bool) src dst x y l :
  0 <= x < 31 -> 0 <= y < 31 -> way ts x l y -> (x = y <-> Z.land src dst <> 0) ->
  exists u, (if use_dst then if negb (2 ^ x =? 2 ^ y) && slin then CW_FORMAT_SLINEAR else 2 ^ y
             else 2 ^ x) = 2 ^ u /\ 0 <= u < 31 /\
    ((slin && use_dst = false \/ Z.land src dst <> 0) /\
     (exists l1 l2, way ts x l1 u /\ way ts u l2 y /\ cost_of l1 + cost_of l2 <= cost_of l) \/
     slin && use_dst = true /\ Z.land src dst = 0 /\ 2 ^ u = CW_FORMAT_SLINEAR).
Proof.
  intros Rx Ry Bw Hxy. destruct use_dst.
  - destruct (Z.eqb_spec (2 ^ x) (2 ^ y)) as [E|E], slin; cbn [negb andb];
      [exists y|exists y|exists 6|exists y]; (split; [done|]); (split; [lia|]).
    1, 2: left; split; [right; apply Hxy, pow2_inj; (lia || done)|].
    4: left; split; [by left|].
    1, 2, 4: exists l, []; split_and!; [done|by split|simpl; lia].
    right. split_and!; [done| |done]. destruct (Z.eq_dec (Z.land src dst) 0) as [|Hn]; [done|].
    apply Hxy in Hn as ->. done.
  - exists x. split; [done|]. split; [lia|]. left. rewrite andb_false_r. split; [by left|].
    exists [], l. split_and!; [by split|done|simpl; lia].
Qed.

Lemma make_half_spec alloc slin use_dst from to : (forall i n, alloc i n = true) ->
  media_ok from -> media_ok to ->
  exists ret from' to', make_half alloc m slin use_dst from to = Some (ret, from', to') /\
    half_spec (slin && use_dst) from to from' to' ret.
Proof using Hgood Hok Hcost Hbit Hnew.
  intros Ha Hf Ht. assert (Hnf := proj1 Hf). assert (Hnt := proj1 Ht). unfold make_half.
  destruct (best_choice_way (md_native to) (md_native from) Hnt Hnf)
    as [[-> Hno]|(x & y & l & -> & (Bx & By & Bw & Bm) & Hxy)].
  { exists (-1), from, to. split; [done|]. split_and!; auto. right. split; [done|]. by intros []. }
  pose proof (format_bit _ _ Hnf Bx) as Rx. pose proof (format_bit _ _ Hnt By) as Ry. cbn [Z.ltb Z.compare].
  destruct (user_format slin use_dst (md_native from) (md_native to) x y l Rx Ry Bw Hxy) as (u & -> & Hu & Hway).
  assert (Hux : Z.testbit (2 ^ u) u = true) by (apply Z.pow2_bits_true; lia).
  destruct (set_one_read (alloc 0%nat) u from) as [(fr & -> & Hno)|(s & fr & rawf & -> & Hs & Hsp & Hb)]; [done..| |];
    cbn [mbind option_bind Z.ltb Z.compare].
  { exists (-1), from, to. split; [done|]. split_and!; auto. right. split; [done|]. intros [_ Hr].
    destruct Hway as [(_ & l1 & l2 & H1 & _)|(E & E0 & Eu)]; [destruct Hno; by exists x, u, l1|].
    destruct Hno. rewrite Eu. by apply Hr. }
  assert (Hfrom : media_ok (from <| md_read := s |>)) by (destruct Hf as (? & ? & ?); by split_and!).
  destruct (set_one_write (alloc 1%nat) u to) as [(fr' & -> & Hno)|(s' & fr' & rawt & -> & Hs' & Hsp' & Hb')]; [done..| |];
    cbn [mbind option_bind Z.ltb Z.compare].
  { eexists (-1), _, to. split; [reflexivity|]. split_and!; auto. right. split; [done|]. intros [_ Hr].
    destruct Hway as [(_ & l1 & l2 & _ & H2 & _)|(E & E0 & Eu)]; [destruct Hno; by exists u, y, l2|].
    destruct Hno. rewrite Eu. by apply Hr. }
  assert (Hto : media_ok (to <| md_write := s' |>)) by (destruct Ht as (? & ? & ?); by split_and!).
  eexists 0, _, _. split; [reflexivity|]. split_and!; auto. left. split; [done|].
  destruct Hb as (Hb1 & Hb2 & Hb3 & Hb4), Hb' as (Hb1' & Hb2' & Hb3' & Hb4'). split_and!.
  - split; [by exists x, y, l|]. intros E E0. destruct Hway as [([?|?] & _)|(_ & _ & Eu)]; [congruence|done|].
    rewrite <- Eu. split; [by eexists rawf, u, _|by eexists u, rawt, _].
  - by exists rawf, u, rawt.
  - intros Hc. destruct Hway as [(_ & l1 & l2 & H1 & H2 & Hl)|(E & E0 & _)]; [|destruct Hc; congruence].
    intros x' y' l' Hx' Hy' Hw'. specialize (Bm x' y' l' Hx' Hy' Hw').
    specialize (Hb4 x u l1 Bx Hux H1). specialize (Hb4' u y l2 Hux By H2). simpl. lia.
  - intros E E0. destruct Hway as [([?|?] & _)|(_ & _ & Eu)]; [congruence|done|].
    rewrite <- Eu. apply Hsp.
Qed.

(** C21: two channels are made compatible exactly if translators lead from the native
    formats of each to those of the other and, where signed linear is forced (the
    default) and the two have no native format in common, from the peer's to signed
    linear and from there to the channel's.  Then what is read from either is in the
    format that is written to the other, translated from and to native formats; from the
    channel to the peer as cheaply as can be, and from the peer to the channel as well
    unless it is forced through signed linear.  Memory can be had. *)
Theorem make_compatible_links alloc slin chan peer :
  (forall h i n, alloc h i n = true) -> media_ok chan -> media_ok peer ->
  exists ret chan' peer', cw_channel_make_compatible alloc m slin chan peer = Some (ret, chan', peer') /\
    media_ok chan' /\ media_ok peer' /\
    let ways := reaches false (md_native chan) (md_native peer) /\ reaches slin (md_native peer) (md_native chan) in
    let common := Z.land (md_native peer) (md_native chan) <> 0 in
    ((ret = 0 /\ ways /\ linked chan' peer' /\ linked peer' chan' /\ link_cheapest chan' peer' /\
      (slin = false \/ common -> link_cheapest peer' chan') /\
      (slin = true -> ~ common -> sd_format (md_read peer') = CW_FORMAT_SLINEAR)) \/
     (ret = -1 /\ ~ ways)).
Proof using Hgood Hok Hcost Hbit Hnew.
  intros Ha Hc Hp. unfold cw_channel_make_compatible.
  destruct (make_half_spec (alloc 0%nat) slin false chan peer (Ha 0%nat) Hc Hp)
    as (r1 & c1 & p1 & -> & Hc1 & Hp1 & N1 & N2 & _ & _ & [(-> & W1 & L1 & S1 & _)|(-> & S1)]);
    rewrite andb_false_r in *; cbn [mbind option_bind Z.ltb Z.compare].
  2: { exists (-1), c1, p1. split_and!; auto. right. split; [done|]. by intros [H _]. }
  destruct (make_half_spec (alloc 1%nat) slin true p1 c1 (Ha 1%nat) Hp1 Hc1)
    as (r2 & p2 & c2 & -> & Hp2 & Hc2 & M1 & M2 & W & R & D); cbn [mbind option_bind].
  exists r2, c2, p2. split; [done|]. split; [done|]. split; [done|]. rewrite N1, N2, andb_true_r in D.
  destruct D as [(-> & W2 & L2 & S2 & T2)|(-> & S2)]; [left|right; split; [done|]; by intros [_ H]].
  specialize (S1 ltac:(by left)). unfold linked, link_cheapest in L1, S1, L2, S2 |- *.
  rewrite M1, M2, ?W, ?R in *. rewrite N1, N2 in *. split_and!; auto; try apply W1; try apply W2.
  intros E E0. apply T2; [done|]. by destruct (Z.eq_dec (Z.land (md_native peer) (md_native chan)) 0).
Qed.
End memory.
End formats.

(** ** Examples *)

(** Translators between u-law (4), signed linear (64) and a-law (8). *)
Definition ulaw_alaw : @trans_state unit :=
  toy_register (toy_register toy_state (toy_translator 3 8 64)) (toy_translator 4 64 4).

Lemma ulaw_alaw_ok : trans_ok ulaw_alaw.
Proof.
  apply (trans_reachable_ok lowest_bit 1 toy_clock).
  eapply rtc_r; [eapply rtc_r; [apply toy_reachable|]|].
  - apply (step_register _ _ _ _ (toy_translator 3 8 64) 0); [done|done|]. vm_compute. reflexivity.
  - apply (step_register _ _ _ _ (toy_translator 4 64 4) 0); [done|done|]. vm_compute. reflexivity.
Qed.

Lemma lowest_bit_pow2 x : is_format x -> lowest_bit (2 ^ x) = x.
Proof.
  intros Hx. assert (H : Forall (fun x => lowest_bit (2 ^ x) = x) formats)
    by (apply (bool_decide_unpack _); vm_compute; exact I).
  eapply Forall_forall in H; [exact H|]. apply elem_of_seqZ. unfold is_format in Hx. lia.
Qed.

(** Channels as they are created, of a driver for u-law and one for a-law. *)
Definition new_side : side unit := {| sd_raw := 0; sd_format := 0; sd_trans := [] |}.
Definition ulaw_phone : media unit := {| md_native := 4; md_read := new_side; md_write := new_side |}.
Definition alaw_phone : media unit := {| md_native := 8; md_read := new_side; md_write := new_side |}.

Definition bridge_phones (slin : bool) : option (Z * media unit * media unit) :=
  cw_channel_make_compatible lowest_bit (fun _ _ _ => true) (tr_matrix ulaw_alaw) slin ulaw_phone alaw_phone.

Lemma make_compatible_links_witness :
  exists chan' peer', bridge_phones true = Some (0, chan', peer') /\
    linked (list_ ulaw_alaw) chan' peer' /\ linked (list_ ulaw_alaw) peer' chan' /\
    sd_format (md_read peer') = CW_FORMAT_SLINEAR.
Proof.
  assert (Hcost : forall p c, tr_matrix ulaw_alaw !! p = Some c -> cost c < INT_MAX).
  { assert (map_Forall (fun _ c => cost c < INT_MAX) (tr_matrix ulaw_alaw)) as H
      by (apply (bool_decide_unpack _); vm_compute; exact I). exact H. }
  assert (Hnew : forall t n, t ∈ list_ ulaw_alaw -> newpvt t n <> None).
  { intros t n Ht. assert (H : Forall (fun t => newpvt t = fun _ => Some tt) (list_ ulaw_alaw))
      by (vm_compute; repeat constructor). eapply Forall_forall in H; [|exact Ht]. by rewrite H. }
  assert (Hok : forall v, set_of_formats v -> media_ok (list_ ulaw_alaw)
      {| md_native := v; md_read := new_side; md_write := new_side |})
    by (intros v Hv; split; [exact Hv|split; by left]).
  destruct (make_compatible_links lowest_bit (list_ ulaw_alaw) (tr_matrix ulaw_alaw)
    (proj1 ulaw_alaw_ok) (proj2 ulaw_alaw_ok) Hcost lowest_bit_pow2 Hnew (fun _ _ _ => true) true
    ulaw_phone alaw_phone (fun _ _ _ => eq_refl) (Hok 4 ltac:(split; lia)) (Hok 8 ltac:(split; lia)))
    as (ret & c & p & E & _ & _ & [(-> & _ & L1 & L2 & _ & _ & F)|(-> & _)]).
  - exists c, p. split; [exact E|]. split; [exact L1|]. split; [exact L2|].
    apply F; [reflexivity|]. intros H. apply H. reflexivity.
  - exfalso. vm_compute in E. discriminate.
Defined.

(** Forced through signed linear, one direction is not: from the channel to the
    peer the channel's own format is handed over. *)
Example slin_one_way :
  match bridge_phones true with
  | Some (0, chan, peer) =>
      sd_format (md_read chan) = 4 /\ sd_format (md_write peer) = 4 /\
      sd_format (md_read peer) = 64 /\ sd_format (md_write chan) = 64
  | _ => False
  end.
Proof. vm_compute. done. Qed.

(** No memory for the translators: the format is said to be set, and frames go
    through as they are. *)
Example lost_path_is_success :
  set_format lowest_bit (fun _ => false) (tr_matrix ulaw_alaw) 4 8 new_side false
    = Some (0, {| sd_raw := 4; sd_format := 8; sd_trans := [] |}, []).
Proof. vm_compute. reflexivity. Qed.
