(* ===== verification/ChanWrite.v ===== *)
(** * Frames written to a channel (corelib/channel.c)

    [cw_write] hands a frame to the driver, by its kind: digits, texts, pictures
    and data have functions of their own; voice is translated, heard by spies and
    recorded first.  A generator that plays on the channel goes on or is stopped.
    A write that fails hangs the channel up.

    The state of a channel is that of ChanQueue and what only writing uses.  The
    functions of the driver are a record of functions on its state; [self] is
    whether the thread of the generator writes.  Tone lists that
    [cw_playtones_start] gets are kept in [w_played]; Tones says what they mean.
    [started] is whether a generator could be started for them.  A function of the driver
    changes the state of the driver and nothing of the channel; drivers that queue
    frames or set flags from inside their callbacks are not covered. *)

From S2P Require Import Prelude Time CStr Utils Frame Tones Zones Find Cdr World.
From S2P Require Import PbxRun ChanQueue.
Open Scope Z_scope.

Definition CW_FRAME_VIDEO : Z := 3.
Definition CW_FRAME_TEXT : Z := 7.
Definition CW_FRAME_HTML : Z := 9.
Definition CW_FRAME_MODEM : Z := 11.

Definition CW_CONTROL_RINGING : Z := 3.
Definition CW_CONTROL_BUSY : Z := 5.
Definition CW_CONTROL_CONGESTION : Z := 8.
Definition CW_CONTROL_PROGRESS : Z := 14.
Definition CW_CONTROL_PROCEEDING : Z := 15.
Definition CW_CONTROL_HOLD : Z := 16.
Definition CW_CONTROL_UNHOLD : Z := 17.
Definition CW_CONTROL_VIDUPDATE : Z := 18.

(** The functions of a driver that writing uses; each may be missing. *)
Record write_tech (Dv : Type) := {
  send_digit : option (Z -> Dv -> Z * Dv);
  send_text : option (option (list Z) -> Dv -> Z * Dv);
  send_html : option (Z -> option (list Z) -> Z -> Dv -> Z * Dv);
  write_video : option (cw_frame -> Dv -> Z * Dv);
  write : option (cw_frame -> Dv -> Z * Dv);
  indicate : option (Z -> Dv -> Z * Dv) }.

Arguments send_digit {Dv} _.
Arguments send_text {Dv} _.
Arguments send_html {Dv} _.
Arguments write_video {Dv} _.
Arguments write {Dv} _.
Arguments indicate {Dv} _.

Record wchan (R Dv : Type) := {
  w_chan : channel R Dv; w_fout : Z; w_writetrans : option R; w_spies : list (list cw_frame);
  w_monitor : option (list monitor_op); w_masqr : bool; w_gen : bool; w_write_int : bool;
  w_zone : option tone_zone; w_played : list string }.

Arguments w_chan {R Dv} w : rename.
Arguments w_fout {R Dv} w : rename.
Arguments w_writetrans {R Dv} w : rename.
Arguments w_spies {R Dv} w : rename.
Arguments w_monitor {R Dv} w : rename.
Arguments w_masqr {R Dv} w : rename.
Arguments w_gen {R Dv} w : rename.
Arguments w_write_int {R Dv} w : rename.
Arguments w_zone {R Dv} w : rename.
Arguments w_played {R Dv} w : rename.

#[export] Instance wchan_eta {R Dv} : Eta (wchan R Dv) :=
  fun w => {| w_chan := w_chan w; w_fout := w_fout w; w_writetrans := w_writetrans w;
              w_spies := w_spies w; w_monitor := w_monitor w; w_masqr := w_masqr w; w_gen := w_gen w;
              w_write_int := w_write_int w; w_zone := w_zone w; w_played := w_played w |}.

Section writing.
Context {R Dv : Type}.
#[local] Abbreviation chan := (channel R Dv).
#[local] Abbreviation wchan := (wchan R Dv).

Context (cw_translate : R -> cw_frame -> option cw_frame * R).
Context (tech : write_tech Dv).
Context (cw_do_masquerade : wchan -> bool * wchan).

Definition on_queue (f : chan -> chan) (w : wchan) : wchan := w <| w_chan := f (w_chan w) |>.

(** A function of the driver, on the driver's part of the state. *)
Definition call_driver (f : Dv -> Z * Dv) (w : wchan) : Z * wchan :=
  let '(res, d) := f (q_driver (w_chan w)) in (res, on_queue (fun c => c <| q_driver := d |>) w).

(** ** Tones *)

(** [cw_playtones_start]: the generator of before is stopped. *)
Definition start_tones (started interruptible : bool) (tones : string) (w : wchan) : wchan :=
  let w := w <| w_played := w_played w ++ [tones] |> <| w_gen := started |> in
  if started then w <| w_write_int := interruptible |> else w.

Definition dtmf_tones : list string :=
  ["!0/100,!0/100"; "!941+1336/100,!0/100"; "!697+1209/100,!0/100"; "!697+1336/100,!0/100";
   "!697+1477/100,!0/100"; "!770+1209/100,!0/100"; "!770+1336/100,!0/100"; "!770+1477/100,!0/100";
   "!852+1209/100,!0/100"; "!852+1336/100,!0/100"; "!852+1477/100,!0/100"; "!697+1633/100,!0/100";
   "!770+1633/100,!0/100"; "!852+1633/100,!0/100"; "!941+1633/100,!0/100"; "!941+1209/100,!0/100";
   "!941+1477/100,!0/100"]%string.

Definition digit_tones (res digit : Z) : option string :=
  if res =? -2 then dtmf_tones !! 0%nat
  else if (48 <=? digit) && (digit <=? 57) then dtmf_tones !! Z.to_nat (1 + digit - 48)
  else if (65 <=? digit) && (digit <=? 68) then dtmf_tones !! Z.to_nat (1 + digit - 65 + 10)
  else if digit =? 42 then dtmf_tones !! 15%nat
  else if digit =? 35 then dtmf_tones !! 16%nat
  else None.

(** [digit] is a [char]. *)
Definition do_senddigit (started : bool) (digit : Z) (w : wchan) : Z * wchan :=
  let '(res, w) := match send_digit tech with
                   | Some f => call_driver (f digit) w
                   | None => (-1, w)
                   end in
  (0, if bool_decide (send_digit tech = None) || (res <? 0) then
        match digit_tones res digit with Some tones => start_tones started false tones w | None => w end
      else w).

Definition cw_senddigit := do_senddigit.

(** ** Indications *)

Definition indication_name (condition : Z) : option string :=
  if condition =? CW_CONTROL_RINGING then Some "ring"%string
  else if condition =? CW_CONTROL_BUSY then Some "busy"%string
  else if condition =? CW_CONTROL_CONGESTION then Some "congestion"%string
  else None.

(** What is done for a driver that cannot indicate: [res] is what it answered.
    [None] is a bad memory access. *)
Definition emulate (lock started : bool) (st : indications) (condition res : Z) (w : wchan)
    : option (Z * wchan) :=
  if 0 <=? condition then
    ts ← match indication_name condition with
         | Some name => cw_get_indication_tone lock (w_zone w) name st
         | None => Some None
         end;
    data ← match ts with
           | Some ts => data ← ts_data ts; Some (if bool_decide (data = ""%string) then None else Some data)
           | None => Some None
           end;
    Some match data with
         | Some data => (0, start_tones started true data w)
         | None =>
           if (condition =? CW_CONTROL_PROGRESS) || (condition =? CW_CONTROL_PROCEEDING) ||
              (condition =? CW_CONTROL_HOLD) || (condition =? CW_CONTROL_UNHOLD) ||
              (condition =? CW_CONTROL_VIDUPDATE)
           then (res, w) else (-1, w)
         end
  else Some (res, w <| w_gen := false |>).

Definition cw_indicate (lock started : bool) (st : indications) (t condition : Z) (w : wchan)
    : option (Z * wchan) :=
  if q_zombie (w_chan w) then Some (-1, w)
  else
    let '(hungup, c) := cw_check_hangup t (w_chan w) in
    let w := w <| w_chan := c |> in
    if hungup : bool then Some (-1, w)
    else
      match indicate tech with
      | None => emulate lock started st condition (-1) w
      | Some f =>
        let '(res, w) := call_driver (f condition) w in
        if res =? 0 then Some (0, w) else emulate lock started st condition res w
      end.

(** ** Writing *)

Definition monitor_write (f : cw_frame) (w : wchan) : wchan :=
  match w_monitor w with
  | None => w
  | Some tape =>
    let c := w_chan w in
    let jump := s32 (q_insmpl c - q_outsmpl c - s32 (2 * f_samples f)) in
    if 0 <=? jump then
      w <| w_monitor := Some (tape ++ [Seek (s32 (jump + f_samples f)); Write f]) |>
        <| w_chan := c <| q_outsmpl := wrap_u 64 (q_outsmpl c + s32 (jump + s32 (2 * f_samples f))) |> |>
    else
      w <| w_monitor := Some (tape ++ [Write f]) |>
        <| w_chan := c <| q_outsmpl := wrap_u 64 (q_outsmpl c + f_samples f) |> |>
  end.

(** Voice, and what has no function of its own. *)
Definition write_media (malloc_ok : bool) (fr : cw_frame) (w : wchan) : option (Z * wchan) :=
  match write tech with
  | None => Some (-1, w)
  | Some drv =>
    let '(f, w) :=
      if is_voice fr then
        match w_writetrans w with
        | Some r => let '(f, r) := cw_translate r fr in (f, w <| w_writetrans := Some r |>)
        | None => (Some fr, w)
        end
      else (Some fr, w) in
    match f with
    | None => Some (0, w)
    | Some f =>
      w ← (if is_voice f then
             spies ← spy_all malloc_ok f (w_spies w);
             Some (monitor_write f (w <| w_spies := spies |>))
           else Some w);
      Some (call_driver (drv f) w)
    end
  end.

(** The switch over the kinds of frames. *)
Definition write_frame (malloc_ok started : bool) (fr : cw_frame) (w : wchan) : option (Z * wchan) :=
  let type := f_frametype fr in
  if type =? CW_FRAME_CONTROL then Some (-1, w)
  else if type =? CW_FRAME_DTMF then Some (do_senddigit started (wrap_s 8 (f_subclass fr)) w)
  else if type =? CW_FRAME_TEXT then
    Some match send_text tech with Some f => call_driver (f (f_data fr)) w | None => (0, w) end
  else if type =? CW_FRAME_HTML then
    Some match send_html tech with
         | Some f => call_driver (f (f_subclass fr) (f_data fr) (f_datalen fr)) w
         | None => (0, w)
         end
  else if type =? CW_FRAME_VIDEO then
    Some match write_video tech with Some f => call_driver (f fr) w | None => (0, w) end
  else if type =? CW_FRAME_MODEM then
    Some match write tech with Some f => call_driver (f fr) w | None => (0, w) end
  else write_media malloc_ok fr w.

(** A write that failed hangs up, others are counted. *)
Definition after_write (res : Z) (w : wchan) : wchan :=
  if res <? 0 then on_queue (fun c => c <| q_softhangup := Z.lor (q_softhangup c) CW_SOFTHANGUP_DEV |>) w
  else w <| w_fout := count_frame (w_fout w) |>.

Definition cw_write (malloc_ok started self : bool) (t : Z) (fr : cw_frame) (w : wchan)
    : option (Z * wchan) :=
  if q_zombie (w_chan w) then Some (-1, w)
  else
    let '(hungup, c) := cw_check_hangup t (w_chan w) in
    let w := w <| w_chan := c |> in
    if hungup : bool then Some (-1, w)
    else
      let '(failed, w) := if q_masq (w_chan w) then cw_do_masquerade w else (false, w) in
      if failed : bool then Some (-1, w)
      else if w_masqr w then Some (0, w)
      else if negb self && w_gen w && negb (w_write_int w) then Some (0, w)
      else
        let w := if negb self && w_gen w then w <| w_gen := false |> else w in
        '(res, w) ← write_frame malloc_ok started fr w;
        Some (res, after_write res w).

Definition cw_write_video (malloc_ok started self : bool) (t : Z) (fr : cw_frame) (w : wchan)
    : option (Z * wchan) :=
  match write_video tech with
  | None => Some (0, w)
  | Some _ =>
    '(res, w) ← cw_write malloc_ok started self t fr w;
    Some (if res =? 0 then 1 else res, w)
  end.

(** ** A write that fails *)

#[local] Existing Instance keeps_hangup_pre.

(** A channel that is to be hung up. *)
Definition gone (c : chan) : Prop := q_zombie c = true \/ q_softhangup c <> 0 \/ q_tech_pvt c = false.

Lemma gone_kept c c' : keeps_hangup c c' -> gone c -> gone c'.
Proof. intros (_ & E1 & E2 & E3). unfold gone. rewrite E1, E2. intuition. Qed.

Lemma gone_check t c : gone c -> q_zombie c = false -> (cw_check_hangup t c).1 = true.
Proof.
  intros [H|[H|H]] Hz; [congruence| |]; unfold cw_check_hangup.
  - apply Z.eqb_neq in H. by rewrite H.
  - rewrite H. by case_if.
Qed.

Lemma call_driver_keeps f w : keeps_hangup (w_chan w) (w_chan (call_driver f w).2).
Proof. unfold call_driver. by destruct (f _). Qed.

Lemma play_keeps b i tones w : w_chan (start_tones b i tones w) = w_chan w.
Proof. unfold start_tones. by destruct b. Qed.

Lemma senddigit_keeps b d w : keeps_hangup (w_chan w) (w_chan (do_senddigit b d w).2).
Proof.
  unfold do_senddigit. destruct (send_digit tech) as [f|].
  - pose proof (call_driver_keeps (f d) w) as H. destruct (call_driver (f d) w) as [res w']. simpl in H |- *.
    case_if; [|done]. destruct (digit_tones res d); [|done]. by rewrite play_keeps.
  - simpl. destruct (digit_tones (-1) d); [|done]. by rewrite play_keeps.
Qed.

Lemma monitor_write_keeps f w : keeps_hangup (w_chan w) (w_chan (monitor_write f w)).
Proof. unfold monitor_write. destruct (w_monitor w); [|done]. by case_if. Qed.

Lemma write_media_keeps m fr w r w' : write_media m fr w = Some (r, w') -> keeps_hangup (w_chan w) (w_chan w').
Proof.
  unfold write_media. destruct (write tech) as [drv|]; [|by intros [= _ <-]].
  set (x := if is_voice fr then _ else _).
  assert (Hx : w_chan x.2 = w_chan w).
  { unfold x. case_if; [|done]. destruct (w_writetrans w) as [r0|]; [|done]. by destruct (cw_translate r0 fr). }
  destruct x as [[f|] w1]; simpl in Hx; [|intros [= _ <-]; by rewrite Hx].
  assert (H : forall w2, (if is_voice f then spies ← spy_all m f (w_spies w1);
      Some (monitor_write f (w1 <| w_spies := spies |>)) else Some w1) = Some w2 ->
    keeps_hangup (w_chan w1) (w_chan w2)).
  { intros w2. case_if; [|by intros [= <-]]. destruct (spy_all _ _ _) as [sp|]; [|done].
    intros [= <-]. pose proof (monitor_write_keeps f (w1 <| w_spies := sp |>)) as H. exact H. }
  destruct (if is_voice f then _ else _) as [w2|]; [|done]. specialize (H w2 eq_refl).
  cbn [mbind option_bind]. pose proof (call_driver_keeps (drv f) w2) as Hd.
  destruct (call_driver (drv f) w2) as [r2 w3]. simpl in Hd. intros [= _ <-]. rewrite <- Hx. by etrans.
Qed.

Lemma write_frame_keeps m b fr w r w' : write_frame m b fr w = Some (r, w') ->
  keeps_hangup (w_chan w) (w_chan w').
Proof.
  assert (Hc : forall f, Some (call_driver f w) = Some (r, w') -> keeps_hangup (w_chan w) (w_chan w')).
  { intros f E. pose proof (call_driver_keeps f w) as H. destruct (call_driver f w).
    by injection E as <- <-. }
  unfold write_frame. case_if; [by intros [= _ <-]|]. case_if.
  { intros E1. pose proof (senddigit_keeps b (wrap_s 8 (f_subclass fr)) w) as H.
    destruct (do_senddigit _ _ _). by injection E1 as <- <-. }
  case_if; [destruct (send_text tech) as [f|]; [by apply Hc|by intros [= _ <-]]|].
  case_if; [destruct (send_html tech) as [f|]; [by apply Hc|by intros [= _ <-]]|].
  case_if; [destruct (write_video tech) as [f|]; [by apply Hc|by intros [= _ <-]]|].
  case_if; [destruct (write tech) as [f|]; [by apply Hc|by intros [= _ <-]]|].
  apply write_media_keeps.
Qed.

Lemma write_keeps m b self t fr w r w' : q_masq (w_chan w) = false ->
  cw_write m b self t fr w = Some (r, w') ->
  keeps_hangup (w_chan w) (w_chan w') /\ (r < 0 -> gone (w_chan w')).
Proof.
  intros Hm. unfold cw_write. destruct (q_zombie (w_chan w)) eqn:Hz; [intros [= <- <-]; split; [done|by left]|].
  destruct (check_hangup_keeps t (w_chan w)) as [H1 H1']. destruct (cw_check_hangup t (w_chan w)) as [hungup c1].
  simpl in H1, H1'. assert (Hm1 : q_masq c1 = false) by (destruct H1 as (-> & _); done).
  destruct hungup.
  { intros [= <- <-]. split; [done|]. intros _. right. simpl. destruct H1 as (_ & _ & -> & _). auto. }
  simpl (q_masq _). rewrite Hm1. cbv iota beta. case_if; [intros [= <- <-]; split; [done|lia]|].
  case_if; [intros [= <- <-]; split; [done|lia]|].
  set (w1 := if negb self && _ then _ else _). assert (H2 : w_chan w1 = c1) by (unfold w1; by case_if).
  destruct (write_frame m b fr w1) as [[res w2]|] eqn:Ew; [|done]. cbn [mbind option_bind]. intros [= <- <-].
  apply write_frame_keeps in Ew. rewrite H2 in Ew. unfold after_write. destruct (Z.ltb_spec res 0) as [Hr|Hr].
  - split.
    + etrans; [exact H1|]. etrans; [exact Ew|]. repeat (split; [done|]). simpl. apply lor_keeps.
    + intros _. right. left. simpl. intros E3. by apply Z.lor_eq_0_iff in E3 as [_ ?].
  - split; [|lia]. simpl. by etrans.
Qed.

Lemma indicate_keeps l b st t k w r w' : cw_indicate l b st t k w = Some (r, w') ->
  keeps_hangup (w_chan w) (w_chan w').
Proof.
  assert (He : forall res v, emulate l b st k res v = Some (r, w') -> w_chan w' = w_chan v).
  { intros res v. unfold emulate. case_if; [|by intros [= _ <-]].
    destruct (match indication_name k with Some _ => _ | None => _ end) as [ts|]; [|done]. cbn [mbind option_bind].
    destruct (match ts with Some _ => _ | None => _ end) as [data|]; [|done]. cbn [mbind option_bind].
    destruct data; [intros [= _ <-]; apply play_keeps|]. case_if; by intros [= _ <-]. }
  unfold cw_indicate. destruct (q_zombie (w_chan w)); [by intros [= _ <-]|].
  destruct (check_hangup_keeps t (w_chan w)) as [H1 _]. destruct (cw_check_hangup t (w_chan w)) as [hungup c1].
  simpl in H1. destruct hungup; [by intros [= _ <-]|]. destruct (indicate tech) as [f|].
  - pose proof (call_driver_keeps (f k) (w <| w_chan := c1 |>)) as H2. destruct (call_driver _ _) as [res w2].
    simpl in H2. case_if; [intros [= _ <-]; by etrans|]. intros H3. apply He in H3 as ->. by etrans.
  - intros H3. by apply He in H3 as ->.
Qed.

Section final.
Context (tech_read tech_exception : option (Dv -> list cw_frame * Dv)).
Context (read_masquerade : chan -> bool * chan) (now : nat -> timeval).

(** What is done to a channel that is also written to. *)
Inductive wstep : wchan -> wchan -> Prop :=
  | ws_chan w c : chan_step cw_translate tech_read tech_exception read_masquerade now (w_chan w) c ->
      wstep w (w <| w_chan := c |>)
  | ws_write m b self t fr w r w' : cw_write m b self t fr w = Some (r, w') -> wstep w w'
  | ws_indicate l b st t k w r w' : cw_indicate l b st t k w = Some (r, w') -> wstep w w'.

Lemma wstep_keeps w w' : q_masq (w_chan w) = false -> wstep w w' -> keeps_hangup (w_chan w) (w_chan w').
Proof.
  intros Hm Hs. destruct Hs as [w0 c H|m b self t fr w0 r w1 H|l b st t k w0 r w1 H].
  - simpl. by eapply step_keeps.
  - by apply write_keeps in H as [? _].
  - by eapply indicate_keeps.
Qed.

(** C38: on a channel that is not to be masqueraded as another, a write that fails ends
    the call: whatever is queued, read, written or indicated on it afterwards, every write
    fails and every read says that the channel is gone.  (A masquerade that is pending and fails makes the write
    fail without marking the channel: [failed_masquerade_is_not_final].) *)
Theorem failed_write_is_final m b self t fr w r w1 w2 m' b' self' t' fr' :
  q_masq (w_chan w) = false -> cw_write m b self t fr w = Some (r, w1) -> r < 0 -> rtc wstep w1 w2 ->
  (exists w3, cw_write m' b' self' t' fr' w2 = Some (-1, w3)) /\
  (exists c3, cw_read cw_translate tech_read tech_exception read_masquerade now m' t' (w_chan w2)
     = Some (None, c3)).
Proof.
  intros Hm E Hr H. destruct (write_keeps m b self t fr w r w1 Hm E) as [K Hg]. specialize (Hg Hr).
  assert (Hm1 : q_masq (w_chan w1) = false) by (destruct K as (-> & _); done). clear E K.
  assert (q_masq (w_chan w2) = false /\ gone (w_chan w2)) as [Hm2 Hg2].
  { induction H as [|a c d H1 H2 IH]; [done|]. pose proof (wstep_keeps a c Hm1 H1) as Hk.
    apply IH; [by eapply gone_kept|by destruct Hk as (-> & _)]. }
  unfold cw_write, cw_read. rewrite Hm2. destruct (q_zombie (w_chan w2)) eqn:Hz; [by eauto|].
  pose proof (gone_check t' _ Hg2 Hz) as Hc. destruct (cw_check_hangup t' (w_chan w2)) as [h c]. simpl in Hc.
  subst h. by eauto.
Qed.
End final.

End writing.

(** ** The two recordings of a monitor *)

Section recordings.
Context {R Dv : Type}.
#[local] Abbreviation wchan := (wchan R Dv).

(** Where the stream of a recording has got to. *)
Fixpoint tape_pos (tape : list monitor_op) : Z :=
  match tape with
  | [] => 0
  | Seek n :: tape => n + tape_pos tape
  | Write f :: tape => f_samples f + tape_pos tape
  end.

Lemma tape_pos_app a b : tape_pos (a ++ b) = tape_pos a + tape_pos b.
Proof. induction a as [|[]]; simpl; lia. Qed.

(** A voice frame that is heard from the channel, or said to it. *)
Inductive voice := In (f : cw_frame) | Out (f : cw_frame).

Definition voice_samples (v : voice) : Z := match v with In f | Out f => f_samples f end.

Definition record_voice (w : wchan) (v : voice) : wchan :=
  match v with
  | In f => on_queue (monitor_read f) w
  | Out f => monitor_write f w
  end.

(** The counters are the positions, and have not got further than [n]. *)
Definition recorded (n : Z) (w : wchan) : Prop :=
  exists tin tout, q_monitor (w_chan w) = Some tin /\ w_monitor w = Some tout /\
    tape_pos tin = q_insmpl (w_chan w) /\ tape_pos tout = q_outsmpl (w_chan w) /\
    0 <= q_insmpl (w_chan w) <= n /\ 0 <= q_outsmpl (w_chan w) <= n.

(** How far the recording of a direction is behind the other. *)
Definition lag (v : voice) (w : wchan) : Z :=
  match v with
  | In _ => q_outsmpl (w_chan w) - q_insmpl (w_chan w)
  | Out _ => q_insmpl (w_chan w) - q_outsmpl (w_chan w)
  end.

Lemma recorded_step n w v : recorded n w -> 0 < voice_samples v -> n + voice_samples v < 2 ^ 30 ->
  recorded (n + voice_samples v) (record_voice w v) /\ lag v (record_voice w v) < voice_samples v.
Proof.
  intros (tin & tout & E1 & E2 & P1 & P2 & R1 & R2) Hs Hn.
  assert (Hid : forall z, - 2 ^ 31 <= z < 2 ^ 31 -> s32 z = z)
    by (intros z Hz; apply s32_id; unfold INT_MIN, INT_MAX; lia).
  assert (Hu : forall z, 0 <= z < 2 ^ 64 -> wrap_u 64 z = z) by (intros z Hz; by apply Z.mod_small).
  destruct v as [f|f]; simpl in Hs, Hn |- *; unfold on_queue, monitor_read, monitor_write; rewrite ?E1, ?E2;
    rewrite (Hid (2 * f_samples f)) by lia.
  - rewrite (Hid (_ - _ - _)) by lia. case_if; b2p.
    + rewrite !Hid, Hu by lia. split; [|simpl; lia].
      eexists _, _. simpl. split; [done|]. split; [done|]. rewrite tape_pos_app. simpl. lia.
    + rewrite Hu by lia. split; [|simpl; lia].
      eexists _, _. simpl. split; [done|]. split; [done|]. rewrite tape_pos_app. simpl. lia.
  - rewrite (Hid (_ - _ - _)) by lia. case_if; b2p.
    + rewrite !Hid, Hu by lia. split; [|simpl; lia].
      eexists _, _. simpl. split; [done|]. split; [done|]. rewrite tape_pos_app. simpl. lia.
    + rewrite Hu by lia. split; [|simpl; lia].
      eexists _, _. simpl. split; [done|]. split; [done|]. rewrite tape_pos_app. simpl. lia.
Qed.

Definition total_samples (vs : list voice) : Z := foldr (fun v n => voice_samples v + n) 0 vs.

Lemma recorded_all vs n w : recorded n w -> Forall (fun v => 0 < voice_samples v) vs ->
  n + total_samples vs < 2 ^ 30 ->
  recorded (n + total_samples vs) (foldl record_voice w vs).
Proof.
  intros Hw Hvs. revert n w Hw. induction Hvs as [|v vs Hv Hvs IH]; intros n w Hw Hn; simpl in *.
  { by rewrite Z.add_0_r. }
  assert (0 <= total_samples vs) by (clear -Hvs; induction Hvs; simpl; lia).
  rewrite Z.add_assoc. apply IH; [|lia]. apply recorded_step; [done..|lia].
Qed.

(** Whatever order voice comes and goes in, the two recordings stay in step: each
    counter is the place its stream has got to, and after a frame was recorded its
    stream is behind the other by less than that frame. *)
Theorem recordings_in_step vs v w :
  recorded 0 w -> Forall (fun v => 0 < voice_samples v) (vs ++ [v]) ->
  total_samples (vs ++ [v]) < 2 ^ 30 ->
  recorded (2 ^ 30) (foldl record_voice w (vs ++ [v])) /\
  lag v (foldl record_voice w (vs ++ [v])) < voice_samples v.
Proof.
  intros Hw Hvs Hn. apply Forall_app in Hvs as [Hvs Hv]. apply -> (Forall_singleton (A:=voice)) in Hv. cbn beta in Hv.
  assert (Ht : total_samples (vs ++ [v]) = total_samples vs + voice_samples v)
    by (unfold total_samples; clear; induction vs; simpl; lia).
  rewrite foldl_app. simpl.
  destruct (recorded_step (0 + total_samples vs) (foldl record_voice w vs) v) as [(tin & tout & H) Hl];
    [apply recorded_all; [done..|lia]|done|lia|].
  split; [|done]. exists tin, tout. intuition lia.
Qed.
End recordings.

(** ** Examples *)

(** Every tone of the table is a tone list of two items, 100 ms of two frequencies
    and 100 ms of silence, played once. *)
Example dtmf_tones_parse :
  Forall (fun tones => match playtones_list 0 tones false with
                       | Some pd => reppos pd = -1 /\ time <$> items pd = [100; 100] /\
                                    freq1 <$> items pd !! 1%nat = Some 0
                       | None => False
                       end) dtmf_tones.
Proof. repeat (constructor; [vm_compute; split_and!; reflexivity|]). constructor. Qed.

(** A driver that takes voice, and fails from the second frame on. *)
Definition failing_driver : write_tech Z :=
  {| send_digit := None; send_text := None; send_html := None; write_video := None; indicate := None;
     write := Some (fun _ n => (if n =? 0 then 0 else -1, n + 1)) |}.

Definition new_wchan : wchan unit Z :=
  {| w_chan := {| q_readq := []; q_alerts := Some 0%nat; q_softhangup := 0; q_tech_pvt := true;
       q_whentohangup := 0; q_zombie := false; q_defer_dtmf := false; q_exception := false;
       q_dtmfq := replicate CW_MAX_EXTENSION 0; q_state := CW_STATE_UP; q_nativeformats := 4;
       q_readtrans := None; q_cdr := []; q_clock := 0; q_fin := 0; q_driver := 0; q_masq := false;
       q_spies := []; q_monitor := Some []; q_insmpl := 0; q_outsmpl := 0 |};
     w_fout := 0; w_writetrans := None; w_spies := []; w_monitor := Some []; w_masqr := false;
     w_gen := false; w_write_int := false; w_zone := None; w_played := [] |}.

Definition spoken (n : Z) : cw_frame := (brace_frame CW_FRAME_VOICE 4) <| f_samples := n |>.

Definition write_spoken (w : wchan unit Z) : option (Z * wchan unit Z) :=
  cw_write no_translation failing_driver (fun w => (true, w)) true true false 1 (spoken 160) w.

Definition written_once : wchan unit Z := default new_wchan (snd <$> write_spoken new_wchan).
Definition written_twice : wchan unit Z := default new_wchan (snd <$> write_spoken written_once).

Lemma failed_write_is_final_witness :
  write_spoken written_once = Some (-1, written_twice) /\
  exists c3, cw_read no_translation None None (fun c => (true, c)) (fun n => cw_tv (Z.of_nat n) 0) true 1
    (w_chan written_twice) = Some (None, c3).
Proof.
  assert (E : write_spoken written_once = Some (-1, written_twice)) by (vm_compute; reflexivity).
  split; [exact E|].
  exact (proj2 (failed_write_is_final no_translation failing_driver (fun w => (true, w)) None None
    (fun c => (true, c)) (fun n => cw_tv (Z.of_nat n) 0) true true false 1 (spoken 160) written_once (-1)
    written_twice written_twice true true false 1 (spoken 160) ltac:(vm_compute; reflexivity) E
    ltac:(lia) (rtc_refl _ _))).
Defined.

(** A masquerade that fails, as [cw_do_masquerade] does when the driver of the clone cannot
    hang up: it is no longer pending, and the write that came upon it fails.  The next
    one is taken by the driver. *)
Example failed_masquerade_is_not_final :
  let fails (w : wchan unit Z) := (true, on_queue (fun c => c <| q_masq := false |>) w) in
  let write w := cw_write no_translation failing_driver fails true true false 1 (spoken 160) w in
  let w0 := on_queue (fun c => c <| q_masq := true |>) new_wchan in
  (fst <$> write w0) = Some (-1) /\ (r ← write w0; fst <$> write r.2) = Some 0.
Proof. vm_compute. split; reflexivity. Qed.

Lemma recordings_in_step_witness :
  recorded 0 new_wchan /\
  lag (In (spoken 160)) (foldl record_voice new_wchan ([Out (spoken 160); Out (spoken 160); Out (spoken 160)]
    ++ [In (spoken 160)])) < 160.
Proof.
  assert (H0 : recorded 0 new_wchan) by (exists [], []; vm_compute; split_and!; (reflexivity || discriminate)).
  split; [exact H0|].
  apply (recordings_in_step [Out (spoken 160); Out (spoken 160); Out (spoken 160)] (In (spoken 160))
    new_wchan H0); [repeat constructor|vm_compute; reflexivity].
Defined.

(** Nothing is done with a control frame, and the channel is hung up for it. *)
Example control_frame_hangs_up :
  exists w, cw_write no_translation failing_driver (fun w => (true, w)) true true false 1
      (control_frame CW_CONTROL_RINGING) new_wchan = Some (-1, w) /\
    q_softhangup (w_chan w) = CW_SOFTHANGUP_DEV.
Proof. eexists. split; vm_compute; reflexivity. Qed.
