(* ===== verification/Group.v ===== *)
(** * Call groups (corelib/channel.c)

    A set of the groups 0 to 63 is an [unsigned long long].  [cw_get_group] reads it
    from the text of a setting, [cw_print_group] writes it.  [None] in place of a
    result is a write behind the buffer, or a loop that overflows its counter. *)

From S2P Require Import Prelude CStr Utils Timing Vars Tones.
Open Scope Z_scope.

(** ** Reading *)

(** What [sscanf(piece, "%d-%d")] and then [sscanf(piece, "%d")] leave in [start] and
    [finish]; [None] if the piece is not understood.  A piece of blanks is the end
    of the input to [sscanf], which is no 0, and leaves [start] as it was. *)
Definition group_range (piece : string) (start : Z) : option (Z * Z) :=
  match sscanf [D; L "-"; D] piece with
  | Some [a; b] => Some (a, b)
  | _ =>
    match scan_int piece with
    | Some (a, _) => Some (a, a)
    | None => if bool_decide (skip_spaces piece = EmptyString) then Some (start, start) else None
    end
  end.

(** [group |= ((cw_group_t) 1 << x)] *)
Definition add_group (group x : Z) : Z :=
  if (63 <? x) || (x <? 0) then group else Z.lor group (Z.shiftl 1 x).

(** [for (x = start; x <= finish; x++)] *)
Definition add_range (start finish group : Z) : option Z :=
  if finish <? start then Some group
  else if finish =? INT_MAX then None
  else Some (foldl add_group group (seqZ start (finish - start + 1))).

Fixpoint group_loop (pieces : list string) (start group : Z) : option Z :=
  match pieces with
  | [] => Some group
  | piece :: pieces =>
    match group_range piece start with
    | None => group_loop pieces start group
    | Some (start, finish) =>
      group ← add_range start finish group;
      group_loop pieces start group
    end
  end.

Definition cw_get_group (s : string) : option Z := group_loop (strsplit "," s) 0 0.

(** ** Printing *)

(** [strncat(buf, s, n)] in a buffer of [size] bytes. *)
Definition strncat (size n : nat) (buf s : string) : option string :=
  let r := (buf +:+ strtake n s)%string in
  if bool_decide (String.length r < size)%nat then Some r else None.

Fixpoint print_loop (buflen : nat) (group : Z) (l : list Z) (first : bool) (buf : string) : option string :=
  match l with
  | [] => Some buf
  | i :: l =>
    if Z.land group (Z.shiftl 1 i) =? 0 then print_loop buflen group l first buf
    else
      buf ← (if first then Some buf else strncat buflen buflen buf ", ");
      buf ← strncat buflen buflen buf (print_d i);
      print_loop buflen group l false buf
  end.

(** [buf] has [buflen] bytes. *)
Definition cw_print_group (buflen : nat) (group : Z) : option string :=
  if group =? 0 then Some EmptyString
  else print_loop buflen group (seqZ 0 64) true EmptyString.

(** ** What was printed is read back *)

Definition in_group (group i : Z) : bool := negb (Z.land group (Z.shiftl 1 i) =? 0).

Lemma in_group_testbit g i : 0 <= i -> in_group g i = Z.testbit g i.
Proof. intros Hi. unfold in_group. rewrite Z.shiftl_1_l. by apply land_pow2_testbit. Qed.

(** The numbers of the groups, and the text of them. *)
Definition groups_of (group : Z) (l : list Z) : list Z := filter (fun i => in_group group i = true) l.

Fixpoint group_text (first : bool) (l : list Z) : string :=
  match l with
  | [] => EmptyString
  | i :: l => ((if first then "" else ", ") +:+ print_d i +:+ group_text false l)%string
  end.

(** The most bytes the groups of a list can need. *)
Definition text_room (l : list Z) : nat := foldr (fun i n => (2 + String.length (print_d i) + n)%nat) 0%nat l.

Lemma strncat_fits size (buf s : string) : (String.length buf + String.length s < size)%nat ->
  strncat size size buf s = Some (buf +:+ s)%string.
Proof.
  intros H. unfold strncat. rewrite strtake_all by lia. rewrite bool_decide_true; [done|].
  by rewrite length_append.
Qed.

Lemma print_loop_text buflen g l (first : bool) buf :
  (String.length buf + text_room l < buflen + (if first then 2 else 0))%nat ->
  print_loop buflen g l first buf = Some (buf +:+ group_text first (groups_of g l))%string.
Proof.
  revert first buf. induction l as [|i l IH]; intros first buf H; cbn [print_loop].
  { unfold groups_of. cbn. by rewrite string_app_nil. }
  cbn [text_room foldr] in H. fold (text_room l) in H. unfold groups_of. rewrite filter_cons.
  destruct (Z.land g (Z.shiftl 1 i) =? 0) eqn:E.
  { rewrite decide_False by (unfold in_group; by rewrite E). apply IH. lia. }
  rewrite decide_True by (unfold in_group; by rewrite E). fold (groups_of g l). cbn [group_text].
  destruct first.
  - cbn [mbind option_bind]. rewrite strncat_fits by lia. cbn [mbind option_bind].
    rewrite IH by (rewrite length_append; lia). by rewrite string_nil_app, string_app_assoc.
  - rewrite strncat_fits by (simpl; lia). cbn [mbind option_bind].
    rewrite strncat_fits by (rewrite length_append; simpl; lia). cbn [mbind option_bind].
    rewrite IH by (rewrite !length_append; simpl; lia). by rewrite !string_app_assoc.
Qed.

(** The number of a group in a text: no comma, and read as itself. *)
Definition reads_as (i : Z) (s : string) : Prop :=
  strchr s "," = false /\ forall start, group_range s start = Some (i, i).

Lemma scan_blank s : scan_int (String " " s) = scan_int s.
Proof. done. Qed.

Lemma group_number i : 0 <= i < 64 -> reads_as i (print_d i) /\ reads_as i (String " " (print_d i)).
Proof.
  intros Hi. assert (Hs : scan_int (print_d i) = Some (i, EmptyString)).
  { rewrite <- (string_app_nil (print_d i)) at 1. apply scan_print; [unfold INT_MAX; lia|done]. }
  assert (Hc : strchr (print_d i) "," = false) by (apply strchr_print; [lia|done]).
  split; (split; [done|]); intros start; unfold group_range; cbn [sscanf];
    rewrite ?scan_blank, Hs; reflexivity.
Qed.

Lemma add_one i group : 0 <= i < 64 -> add_range i i group = Some (Z.lor group (Z.shiftl 1 i)).
Proof.
  intros Hi. unfold add_range. rewrite Z.ltb_irrefl. unfold INT_MAX. destruct (Z.eqb_spec i 2147483647); [lia|].
  replace (i - i + 1) with 1 by lia. assert (seqZ i 1 = [i]) as -> by (unfold seqZ; simpl; f_equal; lia).
  simpl. unfold add_group. assert ((63 <? i) || (i <? 0) = false) as -> by lia. done.
Qed.

Lemma group_loop_reads l pieces start group : Forall2 reads_as l pieces -> Forall (fun i => 0 <= i < 64) l ->
  group_loop pieces start group = Some (foldl (fun g i => Z.lor g (Z.shiftl 1 i)) group l).
Proof.
  intros H Hl. revert start group. induction H as [|i s l pieces [_ Hs] H IH]; intros start group; [done|].
  inversion_clear Hl as [|? ? Hi Hl']. cbn [group_loop]. rewrite Hs, add_one by done. cbn [mbind option_bind].
  by apply IH.
Qed.

Lemma split_rest l s : strchr s "," = false ->
  Forall (fun i => strchr (String " " (print_d i)) "," = false) l ->
  strsplit "," (s +:+ group_text false l)%string = s :: ((fun i => String " " (print_d i)) <$> l).
Proof.
  intros Hs Hl. revert s Hs. induction Hl as [|i l Hi Hl IH]; intros s Hs.
  - cbn [group_text]. rewrite string_app_nil. by apply strsplit_none.
  - cbn [group_text]. rewrite !string_cons_app, string_nil_app, strsplit_cons by done.
    rewrite fmap_cons, <- (IH _ Hi). by rewrite string_cons_app.
Qed.

Lemma get_group_text i l : Forall (fun i => 0 <= i < 64) (i :: l) ->
  cw_get_group (group_text true (i :: l)) = Some (foldl (fun g i => Z.lor g (Z.shiftl 1 i)) 0 (i :: l)).
Proof.
  intros Hl. assert (Hl' := Hl). inversion_clear Hl' as [|? ? Hi Hr]. unfold cw_get_group.
  cbn [group_text]. rewrite string_nil_app, split_rest.
  - apply group_loop_reads; [|done]. constructor; [apply (group_number i Hi)|]. clear Hl Hi i.
    induction Hr as [|i l Hi Hr IH]; constructor; [apply (group_number i Hi)|done].
  - apply (group_number i Hi).
  - eapply Forall_impl; [exact Hr|]. intros j Hj. apply (group_number j Hj).
Qed.

Lemma foldl_lor_testbit l g k : 0 <= k -> Forall (fun i => 0 <= i) l ->
  Z.testbit (foldl (fun g i => Z.lor g (Z.shiftl 1 i)) g l) k = Z.testbit g k || bool_decide (k ∈ l).
Proof.
  intros Hk Hl. revert g. induction Hl as [|i l Hi Hl IH]; intros g; cbn [foldl].
  { rewrite bool_decide_false by apply not_elem_of_nil. by rewrite orb_false_r. }
  rewrite IH, Z.lor_spec, Z.shiftl_1_l, Z.pow2_bits_eqb, <- orb_assoc by done. f_equal.
  destruct (Z.eqb_spec i k) as [->|Hne]; simpl.
  - symmetry. apply bool_decide_true. constructor.
  - apply bool_decide_ext. rewrite elem_of_cons. intuition congruence.
Qed.

Lemma groups_rebuilt g : 0 <= g < 2 ^ 64 ->
  foldl (fun g i => Z.lor g (Z.shiftl 1 i)) 0 (groups_of g (seqZ 0 64)) = g.
Proof.
  intros Hg. apply Z.bits_inj'. intros k Hk. rewrite foldl_lor_testbit; [|done|].
  2: { apply Forall_forall. intros i Hi. apply list_elem_of_filter in Hi as [_ Hi]. apply elem_of_seqZ in Hi. lia. }
  rewrite Z.bits_0. simpl. destruct (Z.lt_ge_cases k 64) as [Hlt|Hge].
  - destruct (Z.testbit g k) eqn:E.
    + apply bool_decide_true. apply list_elem_of_filter. rewrite in_group_testbit by done.
      split; [done|]. apply elem_of_seqZ. lia.
    + apply bool_decide_false. intros [H _]%list_elem_of_filter. rewrite in_group_testbit in H by done. congruence.
  - rewrite bool_decide_false; [|intros [_ H%elem_of_seqZ]%list_elem_of_filter; lia].
    symmetry. destruct (Z.eq_dec g 0) as [->|]; [apply Z.bits_0|]. apply Z.bits_above_log2; [lia|].
    assert (Z.log2 g < 64) by (apply Z.log2_lt_pow2; lia). lia.
Qed.

Lemma print_loop_short buflen g l first buf s : (String.length buf < buflen)%nat ->
  print_loop buflen g l first buf = Some s -> (String.length s < buflen)%nat.
Proof.
  revert first buf. induction l as [|i l IH]; intros first buf Hb; cbn [print_loop]; [by intros [= <-]|].
  case_if; [by apply IH|].
  assert (Hc : forall b t r, strncat buflen buflen b t = Some r -> (String.length r < buflen)%nat)
    by (intros b t r; unfold strncat; case_bool_decide; [by intros [= <-]|done]).
  destruct (if first then _ else _) as [b|]; [|done]. cbn [mbind option_bind].
  destruct (strncat _ _ b _) as [b'|] eqn:E'; [|done]. cbn [mbind option_bind]. apply IH. by eapply Hc.
Qed.

(** A set of groups is printed into 245 bytes, and what was printed is read back
    as the same set, unless it is empty: that is read as group 0. *)
Theorem groups_roundtrip buflen g :
  0 <= g < 2 ^ 64 -> (245 <= buflen)%nat ->
  exists s, cw_print_group buflen g = Some s /\ (String.length s <= 244)%nat /\
    cw_get_group s = Some (if g =? 0 then 1 else g).
Proof.
  intros Hg Hb. unfold cw_print_group. destruct (Z.eqb_spec g 0) as [->|Hn].
  { exists EmptyString. split; [done|]. split; [simpl; lia|]. by vm_compute. }
  assert (Hroom : text_room (seqZ 0 64) = 246%nat) by (vm_compute; reflexivity).
  assert (Ht : forall n, (245 <= n)%nat ->
    print_loop n g (seqZ 0 64) true EmptyString = Some (group_text true (groups_of g (seqZ 0 64)))).
  { intros n H. rewrite print_loop_text; [done|]. rewrite Hroom. simpl. lia. }
  eexists. split; [by apply Ht|]. split.
  { apply Nat.lt_succ_r. eapply print_loop_short; [|by apply (Ht 245%nat)]. simpl. lia. }
  pose proof (groups_rebuilt g Hg) as Hr. destruct (groups_of g (seqZ 0 64)) as [|i l] eqn:E.
  - simpl in Hr. congruence.
  - rewrite get_group_text, Hr; [done|]. rewrite <- E. apply Forall_forall. intros j Hj.
    apply list_elem_of_filter in Hj as [_ Hj]. apply elem_of_seqZ in Hj. lia.
Qed.

Lemma groups_roundtrip_witness :
  exists s, cw_print_group 256 (2 ^ 64 - 1) = Some s /\ (String.length s <= 244)%nat /\
    cw_get_group s = Some (2 ^ 64 - 1).
Proof. exact (groups_roundtrip 256 (2 ^ 64 - 1) ltac:(lia) ltac:(lia)). Defined.

(** The bound of [strncat] is for what is appended: a shorter buffer is overrun,
    if it is less than what is needed. *)
Example short_buffer_overrun : cw_print_group 80 (2 ^ 64 - 1) = None.
Proof. vm_compute. reflexivity. Qed.

(** An empty piece is the group before it, and at the start group 0. *)
Example empty_piece_is_a_group : cw_get_group "" = Some 1 /\ cw_get_group "5-6,," = Some 96.
Proof. by vm_compute. Qed.

(** A range up to [INT_MAX] has no end. *)
Example endless_range : cw_get_group "60-2147483647" = None.
Proof. vm_compute. reflexivity. Qed.
